(* ===== verification/_CoqProject ===== *)
-Q . S2P
Prelude.v
Strconv.v
Proto.v
Cache.v
Tokens.v
Jid.v
Node.v
Attrs.v
Requests.v
Encoder.v
Decoder.v
CodecBase.v
DecoderSafety.v
Codec.v
FrameSocket.v
Cbc.v
LTHash.v
AppStore.v
Sql.v
SignalStore.v
SignalTheory.v
IdentityCache.v
SessionCache.v
SessionTheory.v
LidMap.v
LidMapTheory.v
LidMapSpec.v
AppState.v
AppStateTheory.v
AppStateEncode.v
AppStateSync.v
AppStateDispatch.v
AppStateClient.v
AppStateFetch.v
AppStateKeys.v
Noise.v
Handshake.v
PreKeys.v
DeviceStore.v
PreKeyUpload.v
MessageInfo.v
Connection.v
Receipts.v
EventBuffer.v
MsgSecret.v
Contacts.v
ContactsTheory.v
Json.v
Client.v
MessageType.v
Recents.v
Devices.v
ReportingToken.v
TcToken.v
ChatSettings.v
Groups.v
NodeEvents.v
Events.v
Armadillo.v
Cli.v
Users.v
Media.v
Business.v
Send.v
SendTheory.v
SendFB.v
Retry.v
History.v
Message.v
Receive.v
SecurityCode.v
Pair.v
PairCode.v
PairPasskey.v
Newsletter.v
QRChannel.v
MediaRetry.v
Notification.v
NotificationTheory.v
Catalog.v
