(* ===== verification/Prelude.v ===== *)
(** * Verification of the hypermeow WhatsApp client

    The program is a Go library (under src/) that speaks the protocol of the
    multi-device WhatsApp server: it opens an encrypted socket, exchanges binary
    XML nodes over it, encrypts messages for the devices of users and groups and
    decrypts theirs, keeps collections of application state in step with the server, and
    stores keys, sessions and mappings in SQL tables. This library models the protocol,
    the handlers, the calls and the stores, and proves what makes each part correct.

    ** How the program is put together

    - A websocket carries frames with a length prefix (src/socket/framesocket.go);
      a Noise XX handshake on it (src/handshake.go, src/socket/noisehandshake.go)
      leads to a socket whose frames are encrypted with a counter
      (src/socket/noisesocket.go). Goroutines of src/client.go open it, watch it with
      keep-alives and open it again.
    - Each decrypted frame is a node in a binary form of XML
      (src/binary/encoder.go, decoder.go, node.go, attrs.go, token/token.go), in
      which users and devices are JIDs (src/types/jid.go). A table of handlers in
      src/client.go takes the nodes: messages, receipts, notifications, calls ...
    - Requests are nodes with an id; a table of waiting channels hands the answers
      back to whoever asked (src/request.go, src/keepalive.go). The calls of the library are
      requests with a reading of the answer: groups, users, media, channels, businesses.
    - A new device is paired with the account by a QR code, a code typed into the phone or a
      passkey (src/pair.go, pair-code.go, pair-passkey.go, qrchan.go).
    - A message is encrypted for every device of its receivers in sessions of the
      Signal library (src/send.go, sendfb.go), decrypted through a buffer that keeps
      plaintexts until their handlers are done (src/message.go), and asked for again, or
      sent again, by retry receipts (src/retry.go).
    - Application state (contacts, mutes, labels ...) is a set of collections. The
      server sends snapshots and patches of encrypted mutations; the client checks
      their MACs against a summation hash, keeps the value MACs in its store and
      turns the mutations into events and store updates (src/appstate/ and
      src/appstate.go).
    - The stores are SQL tables with caches in front of some of them
      (src/store/sqlstore/store.go, lidmap.go, src/store/sessioncache.go).

    ** Which file models what

    - [Prelude]: outcomes of Go calls ([Ok], [Err], [Panic], [OutOfFuel]), calls
      that change a state ([stateM]), bytes, machine integers, strings.
    - [Strconv], [Json]: the parts of Go's standard library the program calls: numbers,
      base64, JSON decoded into struct types, checks of texts. [Proto]: protobuf messages
      as trees of the fields that are set.
    - [Tokens], [Jid], [Node], [Attrs], [Encoder], [Decoder]: the files of
      src/binary and src/types named above, one operation per method.
      [CodecBase], [DecoderSafety] and [Codec] hold their theory: the round trip of
      marshalling, and the safety of the decoder on arbitrary bytes.
    - [FrameSocket], [Noise], [Handshake]: the three layers of the connection.
      [Connection]: connecting, disconnecting and reconnecting of src/client.go,
      connectionevents.go and keepalive.go.
    - [Requests]: the table of waiters as a step relation over goroutines, what
      [sendIQ] makes of an answer, and the keep-alive rounds.
    - [Cbc], [LTHash]: src/util/cbcutil and src/appstate/lthash with src/util/hkdfutil.
    - [Cache]: the bounded caches of src/cache.go.
    - [AppStore]: the interface of the app state store as a type class, its laws,
      and the SQL tables that implement it. [AppState], [AppStateEncode]: src/appstate.
      [AppStateDispatch], [AppStateClient]: src/appstate.go, with the reading of patch
      lists. [AppStateTheory], [AppStateSync], [AppStateFetch] and
      [AppStateKeys] prove, against the interface, that the store holds the
      collection the server describes.
    - [Sql]: statements of a database that may fail, and transactions.
      [SignalStore]: identity keys, sessions, sender keys and the move of a phone
      number to its LID, from src/store/sqlstore/store.go; [SignalTheory] and
      [IdentityCache] hold its theory. [SessionCache], [SessionTheory]:
      src/store/sessioncache.go with src/store/signal.go.
      [LidMap], [LidMapTheory], [LidMapSpec]: src/store/sqlstore/lidmap.go.
      [Contacts], [ContactsTheory], [ChatSettings]: the tables of contacts and of chat
      settings. [DeviceStore]: src/store/sqlstore/container.go, with Module
      [ClientPayload] for src/store/clientpayload.go.
    - [PreKeys], [PreKeyUpload]: src/util/keys/keypair.go, the prekey table, and
      src/prekeys.go.
    - Receiving: [MessageInfo], [EventBuffer], [History], [Message] and [Receive] for
      src/message.go, [Receipts] for src/receipt.go, [MsgSecret] for src/msgsecret.go, [Retry]
      and [Recents] for src/retry.go, [Events] for src/types/events, [Armadillo] for messages
      of version 3, [MediaRetry] for src/mediaretry.go.
    - Sending: [MessageType], [Send] and [SendTheory] for src/send.go, [SendFB] for
      src/sendfb.go, [Devices] for the device lists of src/user.go, [ReportingToken] and
      [TcToken] for src/reportingtoken.go, src/tctoken.go and src/cstoken.go.
    - Pairing: [Pair], [PairCode], [PairPasskey], [QRChannel]; [SecurityCode] for
      src/security_code.go.
    - Calls: [Groups] (src/group.go, src/broadcast.go), [Users] (src/user.go), [Media]
      (src/upload.go, src/download.go, src/download-to-file.go, src/mediaconn.go), [Newsletter]
      (src/newsletter.go, src/mex), [Business] with its Module [BusinessMessages], and
      [Catalog] (src/business.go).
    - [Client], [Cli] and the state [whole] of [Notification]: the fields of [Client] that the
      handlers share, in three layers, each with the parts that the files above it need.
      [NodeEvents] and [Notification]: the handlers of src/notification.go, call.go,
      presence.go, privacysettings.go, and the table of handlers; [NotificationTheory] follows
      a change of an identity through the Signal store.

    ** How code becomes definitions

    A Go function that can fail is a function to [outcome]; one that also changes
    a state is a [stateM], whose state is there after a failure too. A Go panic is
    [Panic], never a default value. Machine integers are [Z] with their wrap
    written out ([u8] ... [i64]). A map whose order of iteration can be observed
    takes that order as a parameter, so that a theorem holds for every order.
    Goroutines that share a state are steps of a relation ([Requests], [Connection],
    [QRChannel], the writers of [Noise]); operations that run under one lock are one step.
    A handler that starts a goroutine logs a task; [Receive] and [Notification] also say what
    each task does when it runs. What passes outside of the program between two
    moments (time, random bytes, answers, whether a write succeeds) is a function of a
    counter of moments that every look at it advances ([Outside], [tick]).

    Code that is not in the repository is a parameter, with its documented
    behaviour as laws: [Crypto], [NoiseCrypto], [HKDF], [CurveOps], [KeyDerivation] and
    [WideHash] for Go's crypto packages, [AppCodec], [PatchCodec], [HandshakeCodec] and
    [ProtoCodec] for protobuf, [SessionCodec], [SignalOps] and [PairOps] for the Signal library
    and what the application configures, [WebAuthn], [GoText], [JsonTime] and [MexJSON] for
    JSON and the texts of other packages, [MapOrder], [lidEnv] and the fields of [Outside] for
    the choices of Go's maps and of the database, [NotificationOps] and [CatalogOps] for what
    a handler or a call takes from outside of its model. Each class has a concrete
    instance at which the witnesses evaluate the theorems.

    ** Fuel

    Only loops that are not structural use fuel. [Unmarshal] runs the decoder
    with more fuel than the input has bytes, and [Unmarshal_total] proves that it
    never runs out; [processData], the CBC loops and the trimming of texts have a round for
    every byte; [fetchLoop_ends] proves that
    every round of fetching uses up an answer and that only a page that says so lets it ask
    for another, so that one round more than there are answers is enough. [OutOfFuel] is an outcome of its own, and the theorems say
    that it does not occur.

    ** The theorems

    - Codec: marshalling and unmarshalling are inverse up to the canonical form of
      a node; the decoder is total and safe on every input; JIDs survive their text
      and wire forms.
    - Connection: frames are independent of how the stream is cut; what is sent is
      what is delivered; nonces do not repeat within 2^32 sends; a handshake that
      succeeds has authenticated the server; there is at most one connection, and none
      after a disconnection that is expected, unless what undoes it happens (the user connects,
      a keep-alive fails, the server asks for a restart).
    - Requests: an answer reaches only its request, at most once; a request that is given up,
      fails to be sent or is cancelled may make the receiver panic at one point, no other.
    - App state: what is decoded is signed; the store refines the server's
      collection; patches the client encodes, with no index twice, are accepted by the other devices;
      fetching ends, and a collection fetched is a collection in step.
    - Stores: each cache behaves as the table behind it (LID map, identity keys,
      sessions, contacts, members of groups, device lists), under the conditions the
      theorems name; outside of them an example shows the difference. A deleted identity does not come
      back. A migration moves every row or none.
    - Prekeys: ids are fresh, uploads exact, bundles read back as they were written.
    - Messages: every device gets its own ciphertext or its encryption failed; a ciphertext
      is handled once when its plaintext can be cleared; every message that arrives is
      acknowledged or answered by a receipt of its own, if Signal is not disabled; what one client encrypts under a message secret or uploads the other reads.
    - Pairing: only the holder of the shown secret and the account's key pairs a device; the
      client and a phone of its own definitions agree on a typed code; until the flag of their
      channel is set the codes of one list carry the newest secret, and the channel is closed
      once. Two users compute the same security code.
    - Notifications and businesses: after a change of an identity no key or session of
      the user is left, under the number or the LID; a profile reads back as it was sent; a catalog's expired token is replaced.
    - Situations in which the code does not do what it means to are theorems too
      (for instance [storeMACs_not_atomic], [failed_commit_stays_cached],
      [unknown_after_failed_read], [cancelled_send_reorders], [ended_twice_panics],
      [saved_over_row], [profile_without_options]).

    ** Not modelled

    Logging, generated protobuf code, benchmarks and generators; the transfers of HTTP
    themselves (their answers are parameters); the construction and options of a client
    and the exported wrappers of internal calls; the stores of src/store/noop.go; clients
    that pass their work to functions of the application (src/remote_signal.go,
    src/shadow.go); registration for pushes; the types of rich responses. Handlers of
    different nodes are not interleaved with each other, apart from the goroutines named above.
*)

From Stdlib Require Import ZArith Lia.
From Stdlib Require Import Strings.Byte.
From stdpp Require Import prelude gmap strings list fin_maps.

Abbreviation byte := Corelib.Init.Byte.byte.

(** ** Outcomes of Go calls *)

Inductive outcome (E A : Type) : Type :=
| Ok (a : A)
| Err (e : E)
| Panic
| OutOfFuel.
Arguments Ok {E A} a.
Arguments Err {E A} e.
Arguments Panic {E A}.
Arguments OutOfFuel {E A}.

#[global] Instance outcome_ret {E} : MRet (outcome E) := λ A a, Ok a.
#[global] Instance outcome_bind {E} : MBind (outcome E) := λ A B f m,
  match m with
  | Ok a => f a
  | Err e => Err e
  | Panic => Panic
  | OutOfFuel => OutOfFuel
  end.
#[global] Instance outcome_fmap {E} : FMap (outcome E) := λ A B f m,
  match m with
  | Ok a => Ok (f a)
  | Err e => Err e
  | Panic => Panic
  | OutOfFuel => OutOfFuel
  end.

#[global] Instance outcome_eq_dec {E A} `{EqDecision E, EqDecision A} :
  EqDecision (outcome E A).
Proof. solve_decision. Defined.

Definition map_err {E F A} (f : E → F) (m : outcome E A) : outcome F A :=
  match m with
  | Ok a => Ok a
  | Err e => Err (f e)
  | Panic => Panic
  | OutOfFuel => OutOfFuel
  end.

Definition is_ok {E A} (m : outcome E A) : bool :=
  match m with Ok _ => true | _ => false end.

Section outcome_lemmas.
Context {E A B : Type}.
Implicit Types (m : outcome E A) (f : A → outcome E B).

Lemma outcome_bind_Ok m f b :
  m ≫= f = Ok b ↔ ∃ a, m = Ok a ∧ f a = Ok b.
Proof. destruct m; cbn; naive_solver. Qed.

Lemma outcome_bind_fuel m f :
  m ≫= f = OutOfFuel ↔ m = OutOfFuel ∨ ∃ a, m = Ok a ∧ f a = OutOfFuel.
Proof. destruct m; cbn; naive_solver. Qed.

Lemma outcome_bind_panic m f :
  m ≫= f = Panic ↔ m = Panic ∨ ∃ a, m = Ok a ∧ f a = Panic.
Proof. destruct m; cbn; naive_solver. Qed.
End outcome_lemmas.

(** Invert every hypothesis of the form [m ≫= f = Ok b]. *)
Ltac inv_ok :=
  repeat match goal with
  | H : _ ≫= _ = Ok _ |- _ =>
      let x := fresh "x" in let Hx := fresh "Hx" in
      apply outcome_bind_Ok in H as (x & Hx & H)
  | x : (_ * _)%type |- _ => destruct x
  | H : Ok _ = Ok _ |- _ => injection H as H; try subst
  | H : mret _ = Ok _ |- _ => unfold mret, outcome_ret in H
  end.

(** ** Calls that change a state

    The state after a call is there whether the call succeeds or not. *)

Definition stateM (S E A : Type) : Type := S → outcome E A * S.

#[global] Instance stateM_ret {S E} : MRet (stateM S E) := λ A a s, (Ok a, s).
#[global] Instance stateM_bind {S E} : MBind (stateM S E) := λ A B f m s,
  match m s with
  | (Ok a, s) => f a s
  | (Err e, s) => (Err e, s)
  | (Panic, s) => (Panic, s)
  | (OutOfFuel, s) => (OutOfFuel, s)
  end.

Definition lift {S E A} (m : outcome E A) : stateM S E A := λ s, (m, s).
Definition throw {S E A} (e : E) : stateM S E A := λ s, (Err e, s).
Definition get {S E} : stateM S E S := λ s, (Ok s, s).
Definition modify {S E} (f : S → S) : stateM S E unit := λ s, (Ok tt, f s).

(** Run a call on a part of the state, with its errors renamed. *)
Definition zoom {S T E F A} (proj : S → T) (upd : T → S → S) (err : E → F) (m : stateM T E A) : stateM S F A :=
  λ s, let '(r, t) := m (proj s) in (map_err err r, upd t s).

Section stateM_lemmas.
Context {S E A B : Type}.
Implicit Types (m : stateM S E A) (f : A → stateM S E B).

Lemma stateM_bind_Ok m f s b s' :
  (m ≫= f) s = (Ok b, s') ↔ ∃ a s1, m s = (Ok a, s1) ∧ f a s1 = (Ok b, s').
Proof. unfold mbind, stateM_bind. destruct (m s) as [[a|e| |] s1]; naive_solver. Qed.

(** However a composed call ends, either its first part ended or it returned. *)
Lemma stateM_bind_run m f s r s' :
  (m ≫= f) s = (r, s') →
  (∃ a s1, m s = (Ok a, s1) ∧ f a s1 = (r, s')) ∨ (∃ r1, m s = (r1, s') ∧ (∀ a, r1 ≠ Ok a) ∧ ∀ b, r ≠ Ok b).
Proof. unfold mbind, stateM_bind. destruct (m s) as [[a|e| |] s1]; naive_solver. Qed.

Lemma stateM_bind_ext m m' f f' s :
  (∀ s, m s = m' s) → (∀ a s, f a s = f' a s) → (m ≫= f) s = (m' ≫= f') s.
Proof. intros Hm Hf. unfold mbind, stateM_bind. rewrite Hm. by destruct (m' s) as [[] ?]. Qed.

(** Running a composed call whose first part is known. *)
Lemma stateM_step m f s a s1 : m s = (Ok a, s1) → (m ≫= f) s = f a s1.
Proof. intros H. unfold mbind, stateM_bind. by rewrite H. Qed.
Lemma stateM_fail m f s e s1 : m s = (Err e, s1) → (m ≫= f) s = (Err e, s1).
Proof. intros H. unfold mbind, stateM_bind. by rewrite H. Qed.

Lemma lift_Ok (o : outcome E A) (s s' : S) a : lift o s = (Ok a, s') → o = Ok a ∧ s' = s.
Proof. unfold lift. naive_solver. Qed.
End stateM_lemmas.

(** Invert every hypothesis that a composed call returned. *)
Ltac inv_run :=
  repeat match goal with
  | H : (_ ≫= _) _ = (Ok _, _) |- _ =>
      let x := fresh "x" in let s := fresh "s" in let Hx := fresh "Hx" in
      apply stateM_bind_Ok in H as (x & s & Hx & H)
  | H : mret _ _ = (Ok _, _) |- _ => unfold mret, stateM_ret in H
  | H : lift _ _ = (Ok _, _) |- _ => apply lift_Ok in H as [H ->]
  | H : throw _ _ = (Ok _, _) |- _ => discriminate H
  | H : (Ok _, _) = (Ok _, _) |- _ => simplify_eq
  end.

(** ** Bytes *)

Definition b2z (b : byte) : Z := Z.of_N (Byte.to_N b).
Definition z2b (z : Z) : byte :=
  match Byte.of_N (Z.to_N (z `mod` 256)) with Some b => b | None => x00 end.

Lemma b2z_range b : (0 ≤ b2z b < 256)%Z.
Proof. unfold b2z. pose proof (Byte.to_N_bounded b). lia. Qed.

Lemma b2z_z2b z : b2z (z2b z) = (z `mod` 256)%Z.
Proof.
  unfold z2b. pose proof (Z.mod_pos_bound z 256 ltac:(lia)) as Hz.
  destruct (Byte.of_N _) as [b|] eqn:Hb.
  - apply Byte.to_of_N in Hb. unfold b2z. rewrite Hb. lia.
  - apply Byte.of_N_None_iff in Hb. lia.
Qed.

Lemma b2z_inj b c : b2z b = b2z c → b = c.
Proof.
  unfold b2z. intros H%N2Z.inj.
  pose proof (Byte.of_to_N b). pose proof (Byte.of_to_N c). congruence.
Qed.

Lemma z2b_b2z b : z2b (b2z b) = b.
Proof.
  apply b2z_inj. rewrite b2z_z2b. apply Z.mod_small. pose proof (b2z_range b). lia.
Qed.

Lemma b2z_z2b_small z : (0 ≤ z < 256)%Z → b2z (z2b z) = z.
Proof. intros. rewrite b2z_z2b. by apply Z.mod_small. Qed.

#[global] Instance byte_eq_dec : EqDecision byte := Byte.byte_eq_dec.
#[global] Instance byte_countable : Countable byte :=
  inj_countable' b2z z2b z2b_b2z.
#[global] Instance b2z_injective : Inj (=) (=) b2z := b2z_inj.
#[global] Instance byte_inhabited : Inhabited byte := populate x00.

(** ** Machine integers *)

Definition u8 (z : Z) : Z := z `mod` 2 ^ 8.
Definition u16 (z : Z) : Z := z `mod` 2 ^ 16.
Definition u32 (z : Z) : Z := z `mod` 2 ^ 32.
Definition u64 (z : Z) : Z := z `mod` 2 ^ 64.
Definition i64 (z : Z) : Z := (z + 2 ^ 63) `mod` 2 ^ 64 - 2 ^ 63.

Lemma u16_range z : (0 ≤ u16 z < 2 ^ 16)%Z.
Proof. unfold u16. apply Z.mod_pos_bound. lia. Qed.
Lemma u32_range z : (0 ≤ u32 z < 2 ^ 32)%Z.
Proof. unfold u32. apply Z.mod_pos_bound. lia. Qed.
Lemma u16_small z : (0 ≤ z < 2 ^ 16)%Z → u16 z = z.
Proof. apply Z.mod_small. Qed.
Lemma u8_small z : (0 ≤ z < 2 ^ 8)%Z → u8 z = z.
Proof. apply Z.mod_small. Qed.
Lemma u32_small z : (0 ≤ z < 2 ^ 32)%Z → u32 z = z.
Proof. apply Z.mod_small. Qed.

(** ** Big-endian integers *)

Fixpoint be_bytes (n : nat) (z : Z) : list byte :=
  match n with
  | O => []
  | S n => z2b (Z.shiftr z (8 * Z.of_nat n)) :: be_bytes n z
  end.

Fixpoint be_acc (acc : Z) (l : list byte) : Z :=
  match l with
  | [] => acc
  | b :: l => be_acc (acc * 256 + b2z b) l
  end.
Definition be_value (l : list byte) : Z := be_acc 0 l.

Lemma length_be_bytes n z : length (be_bytes n z) = n.
Proof. induction n; cbn; congruence. Qed.

Lemma be_acc_be_bytes n z acc :
  be_acc acc (be_bytes n z) = (acc * 2 ^ (8 * Z.of_nat n) + z `mod` 2 ^ (8 * Z.of_nat n))%Z.
Proof.
  revert acc; induction n as [|n IH]; intros acc.
  { cbn. rewrite Z.mod_1_r. lia. }
  cbn [be_bytes be_acc]. rewrite IH, b2z_z2b, Z.shiftr_div_pow2 by lia.
  replace (8 * Z.of_nat (S n))%Z with (8 * Z.of_nat n + 8)%Z by lia.
  rewrite Z.pow_add_r by lia.
  set (p := (2 ^ (8 * Z.of_nat n))%Z).
  assert (0 < p)%Z by (subst p; apply Z.pow_pos_nonneg; lia).
  change (2 ^ 8)%Z with 256%Z.
  rewrite (Z.rem_mul_r z p 256) by lia. ring.
Qed.

Lemma be_value_be_bytes n z :
  be_value (be_bytes n z) = (z `mod` 2 ^ (8 * Z.of_nat n))%Z.
Proof. unfold be_value. rewrite be_acc_be_bytes. lia. Qed.

Lemma be_acc_bound l acc :
  (0 ≤ acc)%Z →
  (acc * 2 ^ (8 * Z.of_nat (length l)) ≤ be_acc acc l <
   (acc + 1) * 2 ^ (8 * Z.of_nat (length l)))%Z.
Proof.
  revert acc; induction l as [|b l IH]; intros acc Hacc; cbn [be_acc length].
  { rewrite Z.pow_0_r. lia. }
  pose proof (b2z_range b).
  specialize (IH (acc * 256 + b2z b)%Z ltac:(lia)).
  replace (8 * Z.of_nat (S (length l)))%Z with (8 * Z.of_nat (length l) + 8)%Z by lia.
  rewrite Z.pow_add_r by lia. change (2 ^ 8)%Z with 256%Z.
  assert (0 < 2 ^ (8 * Z.of_nat (length l)))%Z by (apply Z.pow_pos_nonneg; lia).
  nia.
Qed.

Lemma be_value_bound l : (0 ≤ be_value l < 2 ^ (8 * Z.of_nat (length l)))%Z.
Proof. pose proof (be_acc_bound l 0 ltac:(lia)). unfold be_value. lia. Qed.

(** ** Strings as byte sequences *)

Definition s2b : string → list byte := String.list_byte_of_string.
Definition b2s : list byte → string := String.string_of_list_byte.
Definition slen (s : string) : Z := Z.of_nat (String.length s).

Lemma b2s_s2b s : b2s (s2b s) = s.
Proof. apply String.string_of_list_byte_of_string. Qed.
Lemma s2b_b2s l : s2b (b2s l) = l.
Proof. apply String.list_byte_of_string_of_list_byte. Qed.
Lemma length_s2b s : length (s2b s) = String.length s.
Proof.
  unfold s2b, String.list_byte_of_string.
  induction s as [|c s IH]; cbn; [done|]. by rewrite <- IH.
Qed.
Lemma s2b_inj s t : s2b s = s2b t → s = t.
Proof. intros H. by rewrite <- (b2s_s2b s), H, b2s_s2b. Qed.
#[global] Instance s2b_injective : Inj (=) (=) s2b := s2b_inj.

Lemma length_b2s l : String.length (b2s l) = length l.
Proof. by rewrite <- length_s2b, s2b_b2s. Qed.
Lemma s2b_app s t : s2b (s +:+ t) = s2b s ++ s2b t.
Proof.
  unfold s2b, String.list_byte_of_string.
  induction s as [|c s IH]; [done|].
  change (String c s +:+ t) with (String c (s +:+ t)). cbn. by rewrite IH.
Qed.

Lemma be_bytes_be_value l : be_bytes (length l) (be_value l) = l.
Proof.
  unfold be_value.
  assert (∀ l acc, (0 ≤ acc)%Z → be_bytes (length l) (be_acc acc l) = l) as H; [|by apply H].
  clear. induction l as [|b l IH]; intros acc Hacc; [done|].
  cbn [length be_bytes be_acc]. pose proof (b2z_range b).
  rewrite IH by lia. f_equal. apply b2z_inj. rewrite b2z_z2b, Z.shiftr_div_pow2 by lia.
  pose proof (be_acc_bound l (acc * 256 + b2z b) ltac:(lia)) as Hb.
  assert (0 < 2 ^ (8 * Z.of_nat (length l)))%Z by (apply Z.pow_pos_nonneg; lia).
  rewrite <- (Z.div_unique_pos (be_acc (acc * 256 + b2z b) l) (2 ^ (8 * Z.of_nat (length l)))
    (acc * 256 + b2z b) (be_acc (acc * 256 + b2z b) l - (acc * 256 + b2z b) * 2 ^ (8 * Z.of_nat (length l)))) by lia.
  rewrite Z.add_comm, Z.mod_add by lia. apply Z.mod_small. lia.
Qed.
