(* ===== verification/Strconv.v ===== *)
(** The parts of Go's standard library that the modelled packages call on
    strings: [strconv.FormatInt], [FormatUint], [Itoa], [ParseInt],
    [ParseUint], [Atoi], [ParseBool], [FormatBool], and [strings.Split] and
    [strings.ContainsRune] at a one-byte separator, and encoding/base64's
    [RawStdEncoding]. Every function works on the bytes of the string, as Go does. *)
From Stdlib Require Import ZArith Lia.
From Stdlib Require Import Strings.Byte.
From stdpp Require Import prelude strings list.
From S2P Require Import Prelude.

(** ** Decimal digits *)

Definition is_digit (b : byte) : bool := (48 <=? b2z b)%Z && (b2z b <=? 57)%Z.
Definition digit_val (b : byte) : Z := b2z b - 48.
Definition digit_of (z : Z) : byte := z2b (48 + z).

Lemma digit_of_ok z : (0 ≤ z < 10)%Z →
  is_digit (digit_of z) = true ∧ digit_val (digit_of z) = z.
Proof.
  intros Hz. unfold is_digit, digit_val, digit_of.
  rewrite b2z_z2b_small by lia.
  split; [apply andb_true_iff; split; apply Z.leb_le|]; lia.
Qed.

(** The decimal digits of [n], most significant first. *)
Fixpoint digits_fuel (fuel : nat) (n : Z) : list byte :=
  match fuel with
  | O => []
  | S fuel =>
      if (n <? 10)%Z then [digit_of n]
      else digits_fuel fuel (n / 10) ++ [digit_of (n `mod` 10)]
  end.
Definition digits (n : Z) : list byte := digits_fuel (S (Z.to_nat n)) n.

Definition FormatUint (n : Z) : string := b2s (digits n).
Definition FormatInt (z : Z) : string :=
  if (z <? 0)%Z then b2s (x2d :: digits (- z)) else b2s (digits z).
Definition Itoa : Z → string := FormatInt.
Definition FormatBool (b : bool) : string := if b then "true" else "false".

(** ** Parsing *)

Inductive numError := ErrSyntax | ErrRange.
#[global] Instance numError_eq_dec : EqDecision numError.
Proof. solve_decision. Defined.

Fixpoint parse_digits (maxVal acc : Z) (l : list byte) : outcome numError Z :=
  match l with
  | [] => Ok acc
  | b :: l =>
      if is_digit b then
        let acc' := (acc * 10 + digit_val b)%Z in
        if (maxVal <? acc')%Z then Err ErrRange else parse_digits maxVal acc' l
      else Err ErrSyntax
  end.

Definition maxUint64 : Z := 2 ^ 64 - 1.

Definition ParseUintBytes (l : list byte) : outcome numError Z :=
  match l with
  | [] => Err ErrSyntax
  | _ => parse_digits maxUint64 0 l
  end.
(** [strconv.ParseUint(s, 10, 64)]. *)
Definition ParseUint (s : string) : outcome numError Z := ParseUintBytes (s2b s).

(** The value returned next to the error: 0 for a syntax error, the largest
    value for a range error. *)
Definition ParseUint_value (s : string) : Z :=
  match ParseUint s with
  | Ok n => n
  | Err ErrRange => maxUint64
  | _ => 0
  end.

Definition checkSigned (neg : bool) (r : outcome numError Z) : outcome numError Z :=
  match r with
  | Ok un =>
      if neg then (if (2 ^ 63 <? un)%Z then Err ErrRange else Ok (- un)%Z)
      else (if (2 ^ 63 <=? un)%Z then Err ErrRange else Ok un)
  | r => r
  end.

(** [strconv.ParseInt(s, 10, 64)]; [strconv.Atoi] on a 64-bit platform. *)
Definition ParseInt (s : string) : outcome numError Z :=
  match s2b s with
  | [] => Err ErrSyntax
  | b :: l =>
      if decide (b = x2b) then checkSigned false (ParseUintBytes l)
      else if decide (b = x2d) then checkSigned true (ParseUintBytes l)
      else checkSigned false (ParseUintBytes (b :: l))
  end.
Definition Atoi : string → outcome numError Z := ParseInt.

Definition ParseBool (s : string) : option bool :=
  if decide (s ∈ ["1"; "t"; "T"; "true"; "TRUE"; "True"]) then Some true
  else if decide (s ∈ ["0"; "f"; "F"; "false"; "FALSE"; "False"]) then Some false
  else None.

(** ** Printing then parsing *)

Section decimal.
Local Open Scope Z_scope.

Lemma parse_digits_app maxVal acc l1 l2 :
  parse_digits maxVal acc (l1 ++ l2) =
  (a ← parse_digits maxVal acc l1; parse_digits maxVal a l2).
Proof.
  revert acc; induction l1 as [|b l1 IH]; intros acc; [done|]; cbn.
  destruct (is_digit b); [|done]. case_match; [done|]. apply IH.
Qed.

Lemma parse_digits_fuel maxVal fuel n :
  0 ≤ n ≤ maxVal → (Z.to_nat n < fuel)%nat →
  parse_digits maxVal 0 (digits_fuel fuel n) = Ok n.
Proof.
  revert n; induction fuel as [|fuel IH]; intros n Hn Hf; [lia|]; cbn.
  destruct (Z.ltb_spec n 10) as [Hlt|Hge].
  - cbn [parse_digits]. destruct (digit_of_ok n ltac:(lia)) as [-> ->].
    replace (0 * 10 + n) with n by lia. cbn zeta.
    destruct (Z.ltb_spec maxVal n); [lia|done].
  - pose proof (Z.mod_pos_bound n 10 ltac:(lia)).
    pose proof (Z.div_mod n 10 ltac:(lia)).
    rewrite parse_digits_app, IH by lia.
    cbn [mbind outcome_bind parse_digits].
    destruct (digit_of_ok (n `mod` 10) ltac:(lia)) as [-> ->].
    replace (n / 10 * 10 + n `mod` 10) with n by lia. cbn zeta.
    destruct (Z.ltb_spec maxVal n); [lia|done].
Qed.

Lemma digits_fuel_digits fuel n :
  0 ≤ n → Forall (λ b, is_digit b = true) (digits_fuel fuel n).
Proof.
  revert n; induction fuel as [|fuel IH]; intros n Hn; cbn; [constructor|].
  destruct (Z.ltb_spec n 10).
  - constructor; [apply digit_of_ok; lia|constructor].
  - apply Forall_app; split; [apply IH, Z.div_pos; lia|].
    constructor; [|constructor]. apply digit_of_ok, Z.mod_pos_bound. lia.
Qed.

Lemma digits_nonempty n : digits n ≠ [].
Proof.
  unfold digits. cbn. destruct (n <? 10); [done|].
  intros H%app_eq_nil. naive_solver.
Qed.

Lemma digits_all n : 0 ≤ n → Forall (λ b, is_digit b = true) (digits n).
Proof. apply digits_fuel_digits. Qed.

Lemma ParseUintBytes_digits n : 0 ≤ n ≤ maxUint64 → ParseUintBytes (digits n) = Ok n.
Proof.
  intros Hn. unfold ParseUintBytes. destruct (digits n) eqn:Hd.
  { by apply digits_nonempty in Hd. }
  rewrite <- Hd. apply parse_digits_fuel; lia.
Qed.

Lemma ParseUint_FormatUint n : 0 ≤ n ≤ maxUint64 → ParseUint (FormatUint n) = Ok n.
Proof.
  intros. unfold ParseUint, FormatUint. rewrite s2b_b2s. by apply ParseUintBytes_digits.
Qed.

Lemma ParseInt_FormatInt z : - 2 ^ 63 ≤ z < 2 ^ 63 → ParseInt (FormatInt z) = Ok z.
Proof.
  intros Hz. unfold ParseInt, FormatInt.
  destruct (Z.ltb_spec z 0); rewrite s2b_b2s.
  - rewrite decide_False by done. rewrite decide_True by done.
    rewrite ParseUintBytes_digits by (unfold maxUint64; lia). unfold checkSigned.
    destruct (Z.ltb_spec (2 ^ 63) (- z)); [lia|]. f_equal. lia.
  - pose proof (digits_all z ltac:(lia)) as Hall.
    pose proof (digits_nonempty z).
    pose proof (ParseUintBytes_digits z ltac:(unfold maxUint64; lia)) as Hp.
    destruct (digits z) as [|b l]; [done|].
    apply Forall_cons in Hall as [Hb _].
    rewrite decide_False by (intros ->; done).
    rewrite decide_False by (intros ->; done).
    rewrite Hp. unfold checkSigned. destruct (Z.leb_spec (2 ^ 63) z); [lia|done].
Qed.
End decimal.

Lemma parse_digits_range maxVal acc l n :
  (0 ≤ acc ≤ maxVal)%Z → parse_digits maxVal acc l = Ok n → (0 ≤ n ≤ maxVal)%Z.
Proof.
  revert acc; induction l as [|b l IH]; intros acc Hacc; cbn; [naive_solver|].
  destruct (is_digit b) eqn:Hb; [|done].
  destruct (Z.ltb_spec maxVal (acc * 10 + digit_val b)); [done|].
  apply IH. unfold is_digit in Hb. apply andb_true_iff in Hb as [?%Z.leb_le ?%Z.leb_le].
  unfold digit_val in *. lia.
Qed.

Lemma ParseUint_range s n : ParseUint s = Ok n → (0 ≤ n < 2 ^ 64)%Z.
Proof.
  unfold ParseUint, ParseUintBytes. destruct (s2b s); [done|].
  intros H%parse_digits_range; unfold maxUint64 in *; lia.
Qed.

Lemma checkSigned_range neg r n :
  (∀ m, r = Ok m → 0 ≤ m)%Z → checkSigned neg r = Ok n → (- 2 ^ 63 ≤ n < 2 ^ 63)%Z.
Proof.
  intros Hr. destruct r as [un| | |]; cbn; try done. specialize (Hr un eq_refl).
  destruct neg.
  - destruct (Z.ltb_spec (2 ^ 63) un); [done|]. intros [= <-]. lia.
  - destruct (Z.leb_spec (2 ^ 63) un); [done|]. intros [= <-]. lia.
Qed.

Lemma ParseUintBytes_nonneg l m : ParseUintBytes l = Ok m → (0 ≤ m)%Z.
Proof.
  unfold ParseUintBytes. destruct l; [done|].
  intros H%parse_digits_range; unfold maxUint64 in *; lia.
Qed.

Lemma ParseInt_range s n : ParseInt s = Ok n → (- 2 ^ 63 ≤ n < 2 ^ 63)%Z.
Proof.
  unfold ParseInt. destruct (s2b s); [done|].
  repeat case_decide; apply checkSigned_range; intros ?; apply ParseUintBytes_nonneg.
Qed.

(** ** [strings.Split] and [strings.ContainsRune] at one byte *)

Fixpoint splitBytes (sep : byte) (l : list byte) : list (list byte) :=
  match l with
  | [] => [[]]
  | b :: l =>
      if decide (b = sep) then [] :: splitBytes sep l
      else match splitBytes sep l with
           | [] => [[b]]
           | p :: ps => (b :: p) :: ps
           end
  end.
Definition Split (sep : byte) (s : string) : list string := b2s <$> splitBytes sep (s2b s).
Definition ContainsByte (c : byte) (s : string) : bool := bool_decide (c ∈ s2b s).

Lemma splitBytes_none sep l : sep ∉ l → splitBytes sep l = [l].
Proof.
  induction l as [|b l IH]; [done|]; cbn. intros H%not_elem_of_cons. destruct H as [Hb Hl].
  rewrite decide_False by congruence. by rewrite IH.
Qed.

Lemma splitBytes_app sep l1 l2 :
  sep ∉ l1 → splitBytes sep (l1 ++ sep :: l2) = l1 :: splitBytes sep l2.
Proof.
  induction l1 as [|b l1 IH]; cbn; intros H.
  { by rewrite decide_True. }
  apply not_elem_of_cons in H as [Hb Hl].
  rewrite decide_False by congruence. by rewrite IH.
Qed.

Lemma digits_no_sep sep n : (0 ≤ n)%Z → is_digit sep = false → sep ∉ digits n.
Proof.
  intros Hn Hs Hin. pose proof (digits_all n Hn) as Hall.
  rewrite Forall_forall in Hall. specialize (Hall _ Hin). congruence.
Qed.

Lemma Split_none sep s : sep ∉ s2b s → Split sep s = [s].
Proof. intros. unfold Split. rewrite splitBytes_none by done. cbn. by rewrite b2s_s2b. Qed.

Lemma Split_app sep d a c :
  s2b d = [sep] → sep ∉ s2b a → Split sep (a +:+ d +:+ c) = a :: Split sep c.
Proof.
  intros Hd Ha. unfold Split. rewrite !s2b_app, Hd. cbn [app].
  rewrite splitBytes_app by done. cbn. by rewrite b2s_s2b.
Qed.

Lemma ContainsByte_true c d a b :
  s2b d = [c] → ContainsByte c (a +:+ d +:+ b) = true.
Proof.
  intros Hd. unfold ContainsByte. rewrite !s2b_app, Hd.
  apply bool_decide_eq_true. set_solver.
Qed.

Lemma ContainsByte_false c s : c ∉ s2b s → ContainsByte c s = false.
Proof. intros. unfold ContainsByte. by apply bool_decide_eq_false. Qed.

Lemma FormatUint_no_sep sep n :
  (0 ≤ n)%Z → is_digit sep = false → sep ∉ s2b (FormatUint n).
Proof. intros. unfold FormatUint. rewrite s2b_b2s. by apply digits_no_sep. Qed.

Lemma Atoi_FormatUint n : (0 ≤ n < 2 ^ 63)%Z → Atoi (FormatUint n) = Ok n.
Proof.
  intros Hn. assert (FormatUint n = FormatInt n) as ->.
  { unfold FormatInt. by destruct (Z.ltb_spec n 0); [lia|]. }
  apply ParseInt_FormatInt. lia.
Qed.

Lemma string_app_assoc (a b c : string) : (a +:+ b) +:+ c = a +:+ b +:+ c.
Proof. apply s2b_inj. rewrite !s2b_app. by rewrite (assoc (++)). Qed.

Lemma FormatUint_inj n m :
  (0 ≤ n ≤ maxUint64)%Z → (0 ≤ m ≤ maxUint64)%Z → FormatUint n = FormatUint m → n = m.
Proof.
  intros Hn Hm Heq. pose proof (ParseUint_FormatUint n Hn) as H.
  rewrite Heq, ParseUint_FormatUint in H by done. congruence.
Qed.

(** ** [encoding/base64]

    [RawStdEncoding.EncodeToString], which the caches of the program use to turn byte strings
    into map keys, and its injectivity. *)
Definition b64Alphabet : list byte :=
  s2b "ABCDEFGHIJKLMNOPQRSTUVWXYZabcdefghijklmnopqrstuvwxyz0123456789+/".

Definition b64Char (d : Z) : byte := nth (Z.to_nat d) b64Alphabet x00.

Definition b64Digit (val shift : Z) : Z := Z.land (Z.shiftr val shift) 63.

Fixpoint b64Encode (l : list byte) : list byte :=
  match l with
  | a :: b :: c :: l =>
      let val := (b2z a * 65536 + b2z b * 256 + b2z c)%Z in
      (b64Char ∘ b64Digit val <$> [18; 12; 6; 0]%Z) ++ b64Encode l
  | [a; b] =>
      let val := (b2z a * 65536 + b2z b * 256)%Z in b64Char ∘ b64Digit val <$> [18; 12; 6]%Z
  | [a] => let val := (b2z a * 65536)%Z in b64Char ∘ b64Digit val <$> [18; 12]%Z
  | [] => []
  end.
Definition EncodeToString (l : list byte) : string := b2s (b64Encode l).

(** ** Injectivity *)

Definition b64Value (c : byte) : Z :=
  match list_find (λ x, x = c) b64Alphabet with Some (i, _) => Z.of_nat i | None => (-1)%Z end.

Lemma b64Value_Char d : (0 ≤ d < 64)%Z → b64Value (b64Char d) = d.
Proof.
  intros Hd.
  assert (forallb (λ i, bool_decide (b64Value (b64Char (Z.of_nat i)) = Z.of_nat i)) (seq 0 64) = true) as H
    by (vm_compute; reflexivity).
  rewrite forallb_forall in H. specialize (H (Z.to_nat d)).
  rewrite in_seq, bool_decide_eq_true in H. rewrite Z2Nat.id in H by lia. apply H. lia.
Qed.

Lemma b64Digit_eq val k : (0 ≤ k)%Z → b64Digit val k = ((val / 2 ^ k) `mod` 64)%Z.
Proof.
  intros. unfold b64Digit. rewrite Z.shiftr_div_pow2 by done.
  change 63%Z with (Z.ones 6). by rewrite Z.land_ones by lia.
Qed.

Lemma b64Digit_inj v w k :
  (0 ≤ k)%Z → b64Char (b64Digit v k) = b64Char (b64Digit w k) →
  ((v / 2 ^ k) `mod` 64 = (w / 2 ^ k) `mod` 64)%Z.
Proof.
  intros Hk H%(f_equal b64Value). rewrite !b64Digit_eq in H by done.
  rewrite !b64Value_Char in H by (apply Z.mod_pos_bound; lia). done.
Qed.

(** Arithmetic on groups of six bits. *)
Ltac sextets :=
  change (2 ^ 24)%Z with 16777216%Z in *; change (2 ^ 18)%Z with 262144%Z in *;
  change (2 ^ 12)%Z with 4096%Z in *; change (2 ^ 6)%Z with 64%Z in *; change (2 ^ 0)%Z with 1%Z in *;
  Z.to_euclidean_division_equations; lia.

Lemma b64Encode_inj l k : b64Encode l = b64Encode k → l = k.
Proof.
  remember (length l) as n eqn:Hn. revert l k Hn.
  induction n as [n IH] using lt_wf_ind. intros l k ->.
  assert (∀ b, 0 ≤ b2z b < 256)%Z as Hr by apply b2z_range.
  assert (∀ v w, 0 ≤ v < 2 ^ 24 → 0 ≤ w < 2 ^ 24 →
    (v / 2 ^ 18) `mod` 64 = (w / 2 ^ 18) `mod` 64 → (v / 2 ^ 12) `mod` 64 = (w / 2 ^ 12) `mod` 64 →
    (v / 2 ^ 6) `mod` 64 = (w / 2 ^ 6) `mod` 64 → (v / 2 ^ 0) `mod` 64 = (w / 2 ^ 0) `mod` 64 → v = w)%Z
    as Hval by (intros; sextets).
  destruct l as [|a [|b [|c l]]], k as [|a' [|b' [|c' k]]]; cbn [b64Encode fmap list_fmap app compose];
    intros H; try discriminate H; try done.
  - injection H as E1 E2. apply b64Digit_inj in E1, E2; try lia.
    pose proof (Hr a). pose proof (Hr a'). f_equal. apply b2z_inj. clear Hval Hr IH. sextets.
  - injection H as E1 E2 E3. apply b64Digit_inj in E1, E2, E3; try lia.
    pose proof (Hr a). pose proof (Hr a'). pose proof (Hr b). pose proof (Hr b').
    assert (b2z a = b2z a' ∧ b2z b = b2z b') as [?%b2z_inj ?%b2z_inj] by (clear Hval Hr IH; sextets). by subst.
  - injection H as E1 E2 E3 E4 E5. apply b64Digit_inj in E1, E2, E3, E4; try lia.
    pose proof (Hr a). pose proof (Hr a'). pose proof (Hr b). pose proof (Hr b').
    pose proof (Hr c). pose proof (Hr c').
    assert (b2z a * 65536 + b2z b * 256 + b2z c = b2z a' * 65536 + b2z b' * 256 + b2z c')%Z
      as Hv by (apply Hval; auto; lia).
    assert (b2z a = b2z a' ∧ b2z b = b2z b' ∧ b2z c = b2z c')
      as (?%b2z_inj & ?%b2z_inj & ?%b2z_inj) by lia. subst.
    do 3 f_equal. apply (IH (length l)); [cbn; lia|done..].
Qed.

#[global] Instance EncodeToString_inj : Inj (=) (=) EncodeToString.
Proof.
  intros l k H. apply b64Encode_inj. unfold EncodeToString in H.
  apply (f_equal s2b) in H. by rewrite !s2b_b2s in H.
Qed.

(** [hex.EncodeToString]. *)
Definition hexDigit (z : Z) : byte := if (z <? 10)%Z then z2b (48 + z) else z2b (87 + z).
Definition hexEncodeToString (l : list byte) : string :=
  b2s (concat ((λ b, [hexDigit (b2z b / 16); hexDigit (b2z b `mod` 16)]) <$> l)).
