(* ===== verification/Proto.v ===== *)
(** Protobuf messages as trees: a message has the fields that are set, under the names
    of the generated Go structs (src/proto), and a getter of a field that is not set,
    or of a message that is not there, answers nothing. Their encoding is the protobuf
    library's. *)
From Stdlib Require Import ZArith Lia.
From stdpp Require Import prelude strings list.
From S2P Require Import Prelude.

#[local] Open Scope string_scope.

Inductive proto :=
| PBool (b : bool)
| PInt (z : Z)
| PString (s : string)
| PBytes (l : list byte)
| PList (l : list proto)
| PMsg (fields : list (string * proto)).

(** The wire encoding: [Marshal] may fail, as may [Unmarshal] into a type. *)
Class ProtoCodec := {
  Marshal : proto → option (list byte);
  Unmarshal : string → list byte → option proto
}.
Class ProtoCodecLaws `{ProtoCodec} : Prop := {
  unmarshal_marshal type m b : Marshal m = Some b → Unmarshal type b = Some m
}.

(** ** Fields *)

Fixpoint assoc {A} (k : string) (l : list (string * A)) : option A :=
  match l with [] => None | (k', a) :: l => if decide (k' = k) then Some a else assoc k l end.

Definition field (k : string) (m : proto) : option proto := match m with PMsg fields => assoc k fields | _ => None end.
(** A chain of nil-safe getters. *)
Fixpoint path (ks : list string) (m : option proto) : option proto :=
  match ks with [] => m | k :: ks => path ks (m ≫= field k) end.
Definition has (k : string) (m : proto) : bool := bool_decide (is_Some (field k m)).

Definition setField (k : string) (v : proto) (m : proto) : proto :=
  match m with PMsg fields => PMsg ((k, v) :: List.filter (λ f, negb (bool_decide (f.1 = k))) fields) | _ => m end.

Definition asString (m : option proto) : string := match m with Some (PString s) => s | _ => "" end.
Definition asBytes (m : option proto) : list byte := match m with Some (PBytes l) => l | _ => [] end.
Definition asInt (m : option proto) : Z := match m with Some (PInt z) => z | _ => 0%Z end.
Definition asBool (m : option proto) : bool := match m with Some (PBool b) => b | _ => false end.
Definition asList (m : option proto) : list proto := match m with Some (PList l) => l | _ => [] end.

(** ** Depth

    Descending into a field makes a tree smaller, which bounds every recursion over
    wrapped messages. *)
Fixpoint depth (m : proto) : nat :=
  match m with
  | PMsg fields => S ((fix go (l : list (string * proto)) : nat := match l with [] => 0%nat | (_, v) :: l => max (depth v) (go l) end) fields)
  | PList l => S ((fix go (l : list proto) : nat := match l with [] => 0%nat | v :: l => max (depth v) (go l) end) l)
  | _ => 0%nat
  end.

Lemma field_depth k m v : field k m = Some v → (depth v < depth m)%nat.
Proof.
  destruct m as [| | | | |fields]; try done. cbn. intros Hk. apply Nat.lt_succ_r.
  induction fields as [|[k' v'] fields IH]; [done|]. cbn in Hk. case_decide.
  - injection Hk as ->. lia.
  - apply IH in Hk. lia.
Qed.

Lemma field_setField k v m : (∃ fields, m = PMsg fields) → field k (setField k v m) = Some v.
Proof. intros [fields ->]. cbn. by rewrite decide_True. Qed.
Lemma field_setField_ne k k' v m : k ≠ k' → field k' (setField k v m) = field k' m.
Proof.
  intros Hk. destruct m as [| | | | |fields]; try done. cbn. rewrite decide_False by done.
  induction fields as [|[k0 v0] fields IH]; [done|]. cbn. case_bool_decide as Hd; cbn; rewrite IH.
  - by rewrite decide_False by congruence.
  - done.
Qed.
