(* ===== verification/Cache.v ===== *)
(** The bounded caches of the client (src/cache.go). Times are nanoseconds, and
    [None] is Go's zero time. Which entry a full cache gives up is the first one
    that Go's map iteration happens to meet; it is a parameter here. *)
From Stdlib Require Import ZArith Lia.
From stdpp Require Import prelude gmap list fin_maps fin_map_dom.
From S2P Require Import Prelude.

Definition maxGroupCacheEntries : nat := 8.
Definition maxUserDeviceCacheEntries : nat := 2048.
Definition maxMessageRetryEntries : nat := 1024.
Definition maxIncomingRetryEntries : nat := 1024.
Definition maxAppStateKeyRequestEntries : nat := 1024.
Definition maxSessionRecreateHistoryItems : nat := 1024.
Definition hour : Z := 3600 * 1000000000.
Definition retryCounterWindow : Z := hour.

Section cache.
Context {K V : Type} `{Countable K}.

Definition ensureMap (cache : option (gmap K V)) : gmap K V :=
  match cache with None => ∅ | Some cache => cache end.

(** [firstKey]: the key an iteration over the map starts with. *)
Definition putBoundedCache (firstKey : gmap K V → option K) (cache : gmap K V) (key : K) (value : V)
    (limit : nat) : gmap K V :=
  let cache :=
    if decide (cache !! key = None ∧ limit ≤ size cache) then
      match firstKey cache with Some oldKey => delete oldKey cache | None => cache end
    else cache in
  <[key := value]> cache.
End cache.

Section counter.
Context {K : Type} `{Countable K}.

(** The cache and the start of its window after the call, and the returned pair.
    A count is an [int], which nothing within one window can overflow. *)
Definition incrementBoundedCounter (cache : gmap K Z) (key : K) (limit : nat) (resetAt : option Z) (now : Z) :
    (gmap K Z * option Z) * (Z * bool) :=
  let '(cache, resetAt) :=
    match resetAt with
    | None => (∅, Some now)
    | Some t => if (retryCounterWindow <=? now - t)%Z then (∅, Some now) else (cache, Some t)
    end in
  if decide (cache !! key = None ∧ limit ≤ size cache) then ((cache, resetAt), (0%Z, false))
  else
    let n := (default 0%Z (cache !! key) + 1)%Z in
    ((<[key := n]> cache, resetAt), (n, true)).

Definition pruneExpiredCache (cache : gmap K Z) (cutoff : Z) : gmap K Z :=
  filter (λ kt, ¬ (kt.2 < cutoff)%Z) cache.
End counter.

(** * Properties *)

Section props.
Context {K V : Type} `{Countable K}.

(** A bounded cache stays bounded and gives up at most one entry. With a limit
    of at least one and a choice that finds an entry in every non-empty map,
    [putBoundedCache] never exceeds the limit, stores the new value, never stores
    anything else, and drops another entry only when the key is new and the cache
    is full, and then exactly one. *)
Theorem putBoundedCache_spec (firstKey : gmap K V → option K) (cache : gmap K V) (key : K) (value : V) (limit : nat) :
  (∀ m, m ≠ ∅ → ∃ k, firstKey m = Some k ∧ is_Some (m !! k)) →
  1 ≤ limit → size cache ≤ limit →
  let cache' := putBoundedCache firstKey cache key value limit in
  size cache' ≤ limit ∧ cache' !! key = Some value ∧
  (∀ k, k ≠ key → cache' !! k = cache !! k ∨
     cache' !! k = None ∧ cache !! key = None ∧ size cache = limit ∧ firstKey cache = Some k).
Proof.
  intros Hfirst Hl Hsize cache'. subst cache'. unfold putBoundedCache. case_decide as Hfull.
  - destruct Hfull as [Hkey Hfull].
    assert (cache ≠ ∅) as Hne by (intros ->; rewrite map_size_empty in Hfull; lia).
    destruct (Hfirst cache Hne) as (k0 & -> & Hk0).
    assert (k0 ≠ key) by (intros ->; rewrite Hkey in Hk0; by destruct Hk0).
    split_and!.
    + rewrite map_size_insert_None by (by rewrite lookup_delete_ne). 
      rewrite map_size_delete_Some by done. lia.
    + apply lookup_insert_eq.
    + intros k Hk. rewrite lookup_insert_ne by done. destruct (decide (k0 = k)) as [->|Hne0].
      * right. rewrite lookup_delete_eq. split_and!; [done..|lia|done].
      * left. by rewrite lookup_delete_ne.
  - split_and!.
    + destruct (cache !! key) as [v|] eqn:Hkey; [rewrite map_size_insert_Some by eauto; done|].
      rewrite map_size_insert_None by done. apply not_and_l in Hfull as [?|?]; [done|lia].
    + apply lookup_insert_eq.
    + intros k Hk. left. by rewrite lookup_insert_ne.
Qed.
End props.

(** A witness with the key that the library's enumeration starts with. *)
Definition listFirst {V} (m : gmap nat V) : option nat := fst <$> head (map_to_list m).

Lemma putBoundedCache_spec_witness :
  let cache : gmap nat bool := {[ 1 := true; 2 := false ]} in
  let cache' := putBoundedCache listFirst cache 3 true 2 in
  size cache' ≤ 2 ∧ cache' !! 3 = Some true ∧
  (∀ k, k ≠ 3 → cache' !! k = cache !! k ∨
     cache' !! k = None ∧ cache !! 3 = None ∧ size cache = 2 ∧ listFirst cache = Some k).
Proof.
  refine (putBoundedCache_spec listFirst _ 3 true 2 _ _ _).
  - intros m Hm. unfold listFirst. destruct (map_to_list m) as [|[k v] l] eqn:Hl.
    + by apply map_to_list_empty_iff in Hl.
    + exists k. split; [reflexivity|]. exists v. apply elem_of_map_to_list. rewrite Hl. by left.
  - repeat constructor.
  - apply Nat.leb_le. vm_compute. reflexivity.
Defined.

(** ** Counting within a window *)

Section counting.
Context {K : Type} `{Countable K}.

(** The reference: within one window the first [limit] keys are counted, and a
    call is answered with how often its key was counted so far. *)
Fixpoint distinct (seen l : list K) : list K :=
  match l with
  | [] => []
  | k :: l => if decide (k ∈ seen) then distinct seen l else k :: distinct (k :: seen) l
  end.

Definition counted (limit : nat) (past : list K) : list K := take limit (distinct [] past).
Definition occurrences (k : K) (l : list K) : nat := length (filter (λ x, x = k) l).
Definition answer (limit : nat) (past : list K) (key : K) : Z * bool :=
  if decide (key ∈ counted limit (past ++ [key]))
  then (Z.of_nat (S (occurrences key past)), true) else (0%Z, false).

(** The calls of one window, as pairs of key and time. *)
Fixpoint runCounter (limit : nat) (calls : list (K * Z)) (st : gmap K Z * option Z) : list (Z * bool) :=
  match calls with
  | [] => []
  | (key, now) :: calls =>
      let '(st, r) := incrementBoundedCounter st.1 key limit st.2 now in
      r :: runCounter limit calls st
  end.

Fixpoint answers (limit : nat) (past keys : list K) : list (Z * bool) :=
  match keys with
  | [] => []
  | k :: keys => answer limit past k :: answers limit (past ++ [k]) keys
  end.

(** The cache holds the counted keys with their counts. *)
Definition counts (limit : nat) (past : list K) (cache : gmap K Z) : Prop :=
  ∀ k, cache !! k = if decide (k ∈ counted limit past) then Some (Z.of_nat (occurrences k past)) else None.

Lemma distinct_snoc seen l k :
  distinct seen (l ++ [k]) = distinct seen l ++ (if decide (k ∈ seen ∨ k ∈ l) then [] else [k]).
Proof.
  revert seen; induction l as [|x l IH]; intros seen; cbn [app distinct].
  - case_decide as Hs; case_decide as Ho; try done; exfalso; set_solver.
  - destruct (decide (x ∈ seen)) as [Hx|Hx]; rewrite IH; cbn [app]; do 2 f_equal || f_equal;
      apply decide_ext; rewrite !elem_of_cons; naive_solver.
Qed.

Lemma elem_of_distinct l k : k ∈ distinct [] l ↔ k ∈ l.
Proof.
  induction l as [|x l IH] using rev_ind; [done|]. rewrite distinct_snoc.
  case_decide as Hx; set_solver.
Qed.

Lemma NoDup_distinct l : NoDup (distinct [] l).
Proof.
  induction l as [|x l IH] using rev_ind; [constructor|]. rewrite distinct_snoc.
  case_decide as Hx; [by rewrite app_nil_r|]. apply NoDup_app. split_and!; [done| |by apply NoDup_singleton].
  intros y Hy ->%list_elem_of_singleton. apply (proj1 (elem_of_distinct _ _)) in Hy. tauto.
Qed.

Lemma counted_snoc limit past k :
  counted limit (past ++ [k]) =
  counted limit past ++ (if decide (k ∉ past ∧ length (distinct [] past) < limit) then [k] else []).
Proof.
  unfold counted. rewrite distinct_snoc. destruct (decide (k ∈ [] ∨ k ∈ past)) as [Hk|Hk].
  - rewrite !app_nil_r, decide_False; [by rewrite app_nil_r|]. set_solver.
  - rewrite take_app. f_equal. case_decide as Hd.
    + destruct (limit - length (distinct [] past)) as [|n] eqn:Hn; [lia|]. by destruct n.
    + replace (limit - length (distinct [] past)) with 0; [done|]. apply not_and_l in Hd as [Hd|Hd]; [|lia].
      destruct Hd. set_solver.
Qed.

Lemma elem_of_counted limit past k : k ∈ counted limit past → k ∈ past.
Proof. intros Hk. apply (proj1 (elem_of_distinct _ _)). unfold counted in Hk. by apply elem_of_take in Hk as (i & ? & ?); eapply list_elem_of_lookup_2. Qed.

Lemma counts_size limit past cache :
  counts limit past cache → size cache = length (counted limit past).
Proof.
  intros Hc. rewrite <- size_dom.
  replace (dom cache) with (list_to_set (C := gset K) (counted limit past)).
  - apply size_list_to_set. unfold counted. eapply sublist_NoDup; [apply NoDup_distinct|apply sublist_take].
  - apply set_eq. intros k. rewrite elem_of_list_to_set, elem_of_dom, Hc. case_decide; [by eauto|].
    split; [done|by intros []].
Qed.

Lemma occurrences_snoc k past x :
  occurrences k (past ++ [x]) = occurrences k past + (if decide (x = k) then 1 else 0).
Proof. unfold occurrences. rewrite filter_app, length_app. f_equal. rewrite filter_cons. by case_decide. Qed.

Lemma occurrences_0 k past : k ∉ past → occurrences k past = 0.
Proof.
  unfold occurrences. induction past as [|x past IH]; intros Hk; [done|].
  rewrite filter_cons, decide_False by set_solver. apply IH. set_solver.
Qed.

(** One call within the window. *)
Lemma increment_step limit past cache key t now :
  counts limit past cache → (now - t < retryCounterWindow)%Z →
  ∃ cache', incrementBoundedCounter cache key limit (Some t) now = ((cache', Some t), answer limit past key) ∧
    counts limit (past ++ [key]) cache'.
Proof.
  intros Hc Ht. pose proof (counts_size _ _ _ Hc) as Hsize.
  unfold incrementBoundedCounter, answer. rewrite (proj2 (Z.leb_gt _ _) Ht).
  assert (length (counted limit past) = min limit (length (distinct [] past))) as Hlen by apply length_take.
  destruct (decide (key ∈ counted limit (past ++ [key]))) as [Hin|Hin].
  - rewrite decide_False.
    + exists (<[key := Z.of_nat (S (occurrences key past))]> cache). split.
      * assert (default 0%Z (cache !! key) + 1 = Z.of_nat (S (occurrences key past)))%Z as ->; [|done].
        rewrite Hc. case_decide as Hk; cbn [default]; [unfold default, id; lia|].
        rewrite counted_snoc in Hin. case_decide as Hn; [|rewrite app_nil_r in Hin; done].
        destruct Hn as [Hn _]. rewrite occurrences_0 by done. done.
      * intros k. destruct (decide (key = k)) as [<-|Hne].
        -- rewrite lookup_insert_eq, decide_True, occurrences_snoc, decide_True by done. do 2 f_equal. lia.
        -- rewrite lookup_insert_ne, Hc, occurrences_snoc, (decide_False (P := key = k)), Nat.add_0_r by done.
           rewrite counted_snoc. apply decide_ext. case_decide; set_solver.
    + intros [Hnone Hfull]. rewrite Hc in Hnone. case_decide as Hk; [done|].
      rewrite counted_snoc in Hin. case_decide as Hn; [|rewrite app_nil_r in Hin; done]. lia.
  - assert (key ∉ counted limit past) as Hk.
    { intros Hk. apply Hin. rewrite counted_snoc. set_solver. }
    rewrite decide_True.
    + exists cache. split; [done|]. intros k. rewrite Hc, occurrences_snoc.
      assert (counted limit (past ++ [key]) = counted limit past) as ->.
      { rewrite counted_snoc in Hin |- *. case_decide; [set_solver|by rewrite app_nil_r]. }
      case_decide; [|done]. rewrite decide_False by set_solver. by rewrite Nat.add_0_r.
    + split; [by rewrite Hc, decide_False|]. rewrite Hsize, Hlen.
      destruct (decide (key ∈ past)) as [Hp|Hp].
      * apply (proj2 (elem_of_distinct _ _)) in Hp. unfold counted in Hk.
        destruct (decide (limit ≤ length (distinct [] past))); [lia|].
        rewrite take_ge in Hk by lia. done.
      * rewrite counted_snoc in Hin. case_decide as Hn; [set_solver|]. apply not_and_l in Hn as [Hn|Hn]; [done|lia].
Qed.

Lemma runCounter_answers limit t calls : ∀ past cache,
  counts limit past cache → Forall (λ c, c.2 - t < retryCounterWindow)%Z calls →
  runCounter limit calls (cache, Some t) = answers limit past (fst <$> calls).
Proof.
  induction calls as [|[key now] calls IH]; intros past cache Hc Hall; [done|].
  apply Forall_cons in Hall as [Ht Hall]. cbn [runCounter fst snd fmap list_fmap answers].
  destruct (increment_step limit past cache key t now Hc Ht) as (cache' & -> & Hc').
  by rewrite (IH (past ++ [key])).
Qed.

(** Within one window the bounded counter counts exactly the first [limit]
    keys. Start [incrementBoundedCounter] with no window or one that has ended;
    then every call made before the new window ends is answered as the reference
    answers it: the n-th call for a key that is among the first [limit] distinct
    keys of the window returns n, and every call for another key is refused,
    however the calls are interleaved. *)
Theorem incrementBoundedCounter_window (limit : nat) (cache : gmap K Z) (resetAt : option Z) (key : K) (now : Z)
    (calls : list (K * Z)) :
  match resetAt with None => True | Some t => (retryCounterWindow <= now - t)%Z end →
  Forall (λ c, c.2 - now < retryCounterWindow)%Z calls →
  runCounter limit ((key, now) :: calls) (cache, resetAt) = answers limit [] (key :: (fst <$> calls)).
Proof.
  intros Hreset Hall.
  assert (counts limit [] ∅) as H0.
  { intros k. rewrite lookup_empty. unfold counted. cbn. rewrite take_nil. by rewrite decide_False by set_solver. }
  assert (incrementBoundedCounter cache key limit resetAt now = incrementBoundedCounter ∅ key limit (Some now) now)
    as Heq.
  { unfold incrementBoundedCounter at 2. rewrite Z.sub_diag. cbn [Z.leb]. unfold incrementBoundedCounter.
    destruct resetAt as [t|]; [|done]. by rewrite (proj2 (Z.leb_le _ _) Hreset). }
  cbn [runCounter answers fst snd]. rewrite Heq.
  destruct (increment_step limit [] ∅ key now now H0) as (cache' & -> & Hc'); [unfold retryCounterWindow, hour; lia|].
  by rewrite (runCounter_answers limit now calls ([] ++ [key])).
Qed.
End counting.

Lemma incrementBoundedCounter_window_witness :
  runCounter 2 [(7, 10%Z); (8, 11%Z); (9, 12%Z); (7, 13%Z)] ({[ 9 := 5%Z ]}, None) =
  [(1%Z, true); (1%Z, true); (0%Z, false); (2%Z, true)].
Proof.
  refine (eq_trans (incrementBoundedCounter_window 2 {[ 9 := 5%Z ]} None 7 10 [(8, 11%Z); (9, 12%Z); (7, 13%Z)] I _) _).
  - repeat constructor.
  - vm_compute. reflexivity.
Defined.
