(* ===== verification/Jid.v ===== *)
(** WhatsApp identifiers: the [JID] struct of src/types/jid.go with its
    constructors, classification, textual form, SQL form and Signal address.
    The theorems give the round trips between a JID and its texts and say when
    two JIDs share a Signal address. *)
From Stdlib Require Import ZArith Lia.
From Stdlib Require Import Strings.Byte.
From stdpp Require Import prelude strings list countable.
From S2P Require Import Prelude Strconv.

(** ** Servers *)

Definition DefaultUserServer : string := "s.whatsapp.net".
Definition GroupServer : string := "g.us".
Definition LegacyUserServer : string := "c.us".
Definition BroadcastServer : string := "broadcast".
Definition HiddenUserServer : string := "lid".
Definition MessengerServer : string := "msgr".
Definition InteropServer : string := "interop".
Definition NewsletterServer : string := "newsletter".
Definition HostedServer : string := "hosted".
Definition HostedLIDServer : string := "hosted.lid".
Definition BotServer : string := "bot".

Definition WhatsAppDomain : Z := 0.
Definition LIDDomain : Z := 1.
Definition HostedDomain : Z := 128.
Definition HostedLIDDomain : Z := 129.

(** ** The struct *)

Record JID := {
  User : string;
  RawAgent : Z;    (* uint8 *)
  Device : Z;      (* uint16 *)
  Integrator : Z;  (* uint16 *)
  Server : string }.
#[global] Instance JID_eq_dec : EqDecision JID.
Proof. solve_decision. Defined.

#[global] Instance JID_countable : Countable JID.
Proof.
  refine (inj_countable' (λ j, (User j, RawAgent j, Device j, Integrator j, Server j))
    (λ '(u, a, d, i, s), {| User := u; RawAgent := a; Device := d; Integrator := i; Server := s |}) _).
  by intros [].
Defined.

(** The fields are in the range of their Go types. *)
Definition wf_jid (j : JID) : Prop :=
  (0 ≤ RawAgent j < 2 ^ 8)%Z ∧ (0 ≤ Device j < 2 ^ 16)%Z ∧ (0 ≤ Integrator j < 2 ^ 16)%Z.
#[global] Instance wf_jid_dec j : Decision (wf_jid j).
Proof. unfold wf_jid. apply _. Defined.

Definition EmptyJID : JID :=
  {| User := ""; RawAgent := 0; Device := 0; Integrator := 0; Server := "" |}.

Definition NewJID (user server : string) : JID :=
  {| User := user; RawAgent := 0; Device := 0; Integrator := 0; Server := server |}.

Definition ServerJID : JID := NewJID "" DefaultUserServer.
Definition StatusBroadcastJID : JID := NewJID "status" BroadcastServer.

Definition NewADJID (user : string) (agent device : Z) : JID :=
  let '(server, agent) :=
    if decide (agent = LIDDomain) then (HiddenUserServer, 0%Z)
    else if decide (agent = HostedDomain) then (HostedServer, 0%Z)
    else if decide (agent = HostedLIDDomain) then (HostedLIDServer, 0%Z)
    else (DefaultUserServer, agent) in
  {| User := user; RawAgent := agent; Device := device; Integrator := 0; Server := server |}.

Definition ActualAgent (jid : JID) : Z :=
  if decide (Server jid = DefaultUserServer) then WhatsAppDomain
  else if decide (Server jid = HiddenUserServer) then LIDDomain
  else if decide (Server jid = HostedServer) then HostedDomain
  else if decide (Server jid = HostedLIDServer) then HostedLIDDomain
  else RawAgent jid.

Definition UserInt (jid : JID) : Z := ParseUint_value (User jid).

Definition ToNonAD (jid : JID) : JID :=
  {| User := User jid; RawAgent := 0; Device := 0;
     Integrator := Integrator jid; Server := Server jid |}.

Definition SignalAddressUser (jid : JID) : string :=
  let agent := ActualAgent jid in
  if decide (agent ≠ 0)%Z then User jid +:+ "_" +:+ FormatUint agent else User jid.

(** [signalProtocol.NewSignalAddress] packs a name and a 32-bit device id. *)
Definition SignalAddress (jid : JID) : string * Z :=
  (SignalAddressUser jid, u32 (Device jid)).

Definition IsBroadcastList (jid : JID) : bool :=
  bool_decide (Server jid = BroadcastServer ∧ User jid ≠ User StatusBroadcastJID).

(** The pattern [^1313555\d{4}$|^131655500\d{2}$]. *)
Definition botUserRegex (user : string) : bool :=
  let l := s2b user in
  let matches (prefix : string) (n : nat) :=
    bool_decide (take (String.length prefix) l = s2b prefix) &&
    bool_decide (length l = String.length prefix + n) &&
    forallb is_digit (drop (String.length prefix) l) in
  matches "1313555" 4 || matches "131655500" 2.

Definition IsBot (jid : JID) : bool :=
  (bool_decide (Server jid = DefaultUserServer) && botUserRegex (User jid)
     && bool_decide (Device jid = 0)%Z)
  || bool_decide (Server jid = BotServer).

Definition IsEmpty (jid : JID) : bool := bool_decide (slen (Server jid) = 0)%Z.
Definition IsZero (jid : JID) : bool := IsEmpty jid.

(** ** Text *)

Definition ADString (jid : JID) : string :=
  User jid +:+ "." +:+ FormatUint (RawAgent jid) +:+ ":" +:+ FormatUint (Device jid)
  +:+ "@" +:+ Server jid.

Definition JIDString (jid : JID) : string :=
  if decide (Server jid = "") then ""
  else if decide (0 < RawAgent jid)%Z then
    User jid +:+ "." +:+ FormatUint (RawAgent jid) +:+ ":" +:+ FormatUint (Device jid)
    +:+ "@" +:+ Server jid
  else if decide (0 < Device jid)%Z then
    User jid +:+ ":" +:+ FormatUint (Device jid) +:+ "@" +:+ Server jid
  else if decide (0 < slen (User jid))%Z then User jid +:+ "@" +:+ Server jid
  else Server jid.

Inductive jidError :=
| ErrUnexpectedDots
| ErrUnexpectedColons
| ErrParseDevice (e : numError).
#[global] Instance jidError_eq_dec : EqDecision jidError.
Proof. solve_decision. Defined.

Definition set_user (u : string) (j : JID) : JID :=
  {| User := u; RawAgent := RawAgent j; Device := Device j;
     Integrator := Integrator j; Server := Server j |}.
Definition set_agent (a : Z) (j : JID) : JID :=
  {| User := User j; RawAgent := a; Device := Device j;
     Integrator := Integrator j; Server := Server j |}.
Definition set_device (d : Z) (j : JID) : JID :=
  {| User := User j; RawAgent := RawAgent j; Device := d;
     Integrator := Integrator j; Server := Server j |}.

(** [strconv.Atoi] with the error wrapped the way [ParseJID] does. *)
Definition atoiDevice (s : string) : outcome jidError Z := map_err ErrParseDevice (Atoi s).

(** The JID and the error, as the Go function returns both. *)
Definition ParseJID (jid : string) : JID * option jidError :=
  match Split x40 jid with
  | [] => (EmptyJID, None) (* Split never returns an empty slice *)
  | [server] => (NewJID "" server, None)
  | user :: server :: _ =>
      let parsed := NewJID user server in
      if ContainsByte x2e user then
        match Split x2e user with
        | [user'; ad] =>
            let parsed := set_user user' parsed in
            match Split x3a ad with
            | [agent] =>
                match atoiDevice agent with
                | Ok a => (set_agent (u8 a) parsed, None)
                | Err e => (parsed, Some e)
                | _ => (parsed, None)
                end
            | [agent; device] =>
                match atoiDevice agent with
                | Ok a =>
                    let parsed := set_agent (u8 a) parsed in
                    match atoiDevice device with
                    | Ok d => (set_device (u16 d) parsed, None)
                    | Err e => (parsed, Some e)
                    | _ => (parsed, None)
                    end
                | Err e => (parsed, Some e)
                | _ => (parsed, None)
                end
            | _ => (parsed, Some ErrUnexpectedColons)
            end
        | _ => (parsed, Some ErrUnexpectedDots)
        end
      else if ContainsByte x3a user then
        match Split x3a user with
        | [user'; device] =>
            let parsed := set_user user' parsed in
            match atoiDevice device with
            | Ok d => (set_device (u16 d) parsed, None)
            | Err e => (parsed, Some e)
            | _ => (parsed, None)
            end
        | _ => (parsed, Some ErrUnexpectedColons)
        end
      else (parsed, None)
  end.

Definition MarshalText (jid : JID) : list byte := s2b (JIDString jid).

(** The receiver [jid] is overwritten on success only. *)
Definition UnmarshalText (jid : JID) (val : list byte) : JID * option jidError :=
  match ParseJID (b2s val) with
  | (_, Some e) => (jid, Some e)
  | (out, None) => (out, None)
  end.

(** ** SQL *)

Inductive sqlValue :=
| SqlNull
| SqlText (s : string)
| SqlBlob (b : list byte)
| SqlOther.

Inductive scanError := ScanParse (e : jidError) | ScanUnsupported.

Definition Scan (jid : JID) (src : sqlValue) : JID * option scanError :=
  match src with
  | SqlNull => (jid, None)
  | SqlText val =>
      match ParseJID val with
      | (_, Some e) => (jid, Some (ScanParse e))
      | (out, None) => (out, None)
      end
  | SqlBlob val =>
      match ParseJID (b2s val) with
      | (_, Some e) => (jid, Some (ScanParse e))
      | (out, None) => (out, None)
      end
  | SqlOther => (jid, Some ScanUnsupported)
  end.

Definition Value (jid : JID) : sqlValue :=
  if decide (slen (Server jid) = 0)%Z then SqlNull else SqlText (JIDString jid).

(** ** Round trips *)

(** The separators of the textual form do not occur in the parts. *)
Definition text_safe (j : JID) : Prop :=
  wf_jid j ∧ x40 ∉ s2b (User j) ∧ x2e ∉ s2b (User j) ∧ x3a ∉ s2b (User j)
  ∧ x40 ∉ s2b (Server j).
#[global] Instance text_safe_dec j : Decision (text_safe j).
Proof. unfold text_safe. apply _. Defined.

Lemma atoiDevice_FormatUint n : (0 ≤ n < 2 ^ 63)%Z → atoiDevice (FormatUint n) = Ok n.
Proof. intros. unfold atoiDevice. by rewrite Atoi_FormatUint. Qed.

Lemma not_elem_of_s2b_app c a b : c ∉ s2b a → c ∉ s2b b → c ∉ s2b (a +:+ b).
Proof. rewrite s2b_app. set_solver. Qed.

(** The separators of the textual form, and that digits are none of them. *)
Ltac jid_sep :=
  first [ done | reflexivity
        | apply FormatUint_no_sep; [lia|reflexivity]
        | apply not_elem_of_s2b_app; jid_sep
        | vm_compute; set_solver ].

Lemma ParseJID_agent_device_wrap user agent device server :
  x40 ∉ s2b user → x2e ∉ s2b user → x40 ∉ s2b server →
  (0 ≤ agent < 2 ^ 63)%Z → (0 ≤ device < 2 ^ 63)%Z →
  ParseJID (user +:+ "." +:+ FormatUint agent +:+ ":" +:+ FormatUint device +:+ "@" +:+ server) =
  ({| User := user; RawAgent := u8 agent; Device := u16 device; Integrator := 0;
      Server := server |}, None).
Proof.
  intros Hu1 Hu2 Hs Ha Hd. unfold ParseJID.
  replace (user +:+ "." +:+ FormatUint agent +:+ ":" +:+ FormatUint device +:+ "@" +:+ server)
    with ((user +:+ "." +:+ FormatUint agent +:+ ":" +:+ FormatUint device) +:+ "@" +:+ server)
    by (by rewrite !string_app_assoc).
  rewrite (Split_app x40 "@"), (Split_none x40 server) by jid_sep. cbn match.
  rewrite (ContainsByte_true x2e ".") by done.
  rewrite (Split_app x2e "."), Split_none by jid_sep.
  rewrite (Split_app x3a ":"), Split_none by jid_sep.
  by rewrite !atoiDevice_FormatUint by lia.
Qed.

Lemma ParseJID_agent_device user agent device server :
  x40 ∉ s2b user → x2e ∉ s2b user → x40 ∉ s2b server →
  (0 ≤ agent < 2 ^ 8)%Z → (0 ≤ device < 2 ^ 16)%Z →
  ParseJID (user +:+ "." +:+ FormatUint agent +:+ ":" +:+ FormatUint device +:+ "@" +:+ server) =
  ({| User := user; RawAgent := agent; Device := device; Integrator := 0; Server := server |},
   None).
Proof.
  intros. rewrite ParseJID_agent_device_wrap by done || lia.
  by rewrite u8_small, u16_small by lia.
Qed.

Lemma ParseJID_device user device server :
  x40 ∉ s2b user → x2e ∉ s2b user → x3a ∉ s2b user → x40 ∉ s2b server →
  (0 ≤ device < 2 ^ 16)%Z →
  ParseJID (user +:+ ":" +:+ FormatUint device +:+ "@" +:+ server) =
  ({| User := user; RawAgent := 0; Device := device; Integrator := 0; Server := server |}, None).
Proof.
  intros Hu1 Hu2 Hu3 Hs Hd. unfold ParseJID.
  replace (user +:+ ":" +:+ FormatUint device +:+ "@" +:+ server)
    with ((user +:+ ":" +:+ FormatUint device) +:+ "@" +:+ server)
    by (by rewrite !string_app_assoc).
  rewrite (Split_app x40 "@"), (Split_none x40 server) by jid_sep. cbn match.
  rewrite ContainsByte_false by jid_sep.
  rewrite (ContainsByte_true x3a ":") by done.
  rewrite (Split_app x3a ":"), Split_none by jid_sep.
  rewrite atoiDevice_FormatUint by lia. cbn. by rewrite u16_small by lia.
Qed.

Lemma ParseJID_plain user server :
  x40 ∉ s2b user → x2e ∉ s2b user → x3a ∉ s2b user → x40 ∉ s2b server →
  ParseJID (user +:+ "@" +:+ server) = (NewJID user server, None).
Proof.
  intros Hu1 Hu2 Hu3 Hs. unfold ParseJID.
  rewrite (Split_app x40 "@"), (Split_none x40 server) by jid_sep. cbn match.
  by rewrite !ContainsByte_false by done.
Qed.

(** [ParseJID] reads back the text [String] prints, for
    every JID with a server and no separator character inside its parts; the
    integrator, which the text does not carry, comes back as zero. *)
Theorem ParseJID_JIDString (j : JID) :
  text_safe j → Server j ≠ "" →
  ParseJID (JIDString j) =
  ({| User := User j; RawAgent := RawAgent j; Device := Device j;
      Integrator := 0; Server := Server j |}, None).
Proof.
  intros (Hwf & Hu1 & Hu2 & Hu3 & Hs) Hne. destruct Hwf as (Ha & Hd & _).
  destruct j as [user agent device integ server]; cbn in *.
  unfold JIDString; cbn. rewrite decide_False by done.
  case_decide; [by apply ParseJID_agent_device|].
  assert (agent = 0%Z) as -> by lia.
  case_decide; [by apply ParseJID_device|].
  assert (device = 0%Z) as -> by lia.
  case_decide as Hl; [by apply ParseJID_plain|].
  assert (user = "") as ->.
  { destruct user; [done|]. unfold slen in Hl. cbn in Hl. lia. }
  unfold ParseJID. by rewrite Split_none.
Qed.

Lemma ParseJID_JIDString_witness :
  text_safe (NewADJID "15551234567" 1 12) ∧
  ParseJID (JIDString (NewADJID "15551234567" 1 12)) = (NewADJID "15551234567" 1 12, None).
Proof.
  assert (text_safe (NewADJID "15551234567" 1 12)) as H by (vm_compute; intuition; set_solver).
  split; [exact H|].
  apply (ParseJID_JIDString (NewADJID "15551234567" 1 12) H). discriminate.
Defined.

(** [ParseJID] reads back the device form [ADString] prints,
    whatever the agent and the device are, zero included, and even when the
    server is empty. *)
Theorem ParseJID_ADString (j : JID) :
  text_safe j →
  ParseJID (ADString j) =
  ({| User := User j; RawAgent := RawAgent j; Device := Device j;
      Integrator := 0; Server := Server j |}, None).
Proof.
  intros (Hwf & Hu1 & Hu2 & Hu3 & Hs). destruct Hwf as (Ha & Hd & _).
  by apply ParseJID_agent_device.
Qed.

Lemma ParseJID_ADString_witness :
  ParseJID (ADString (NewJID "1" "s.whatsapp.net")) = (NewJID "1" "s.whatsapp.net", None).
Proof.
  apply (ParseJID_ADString (NewJID "1" "s.whatsapp.net")). vm_compute; intuition; set_solver.
Defined.

Lemma u8_range z : (0 ≤ u8 z < 2 ^ 8)%Z.
Proof. unfold u8. apply Z.mod_pos_bound. lia. Qed.

(** Whatever the text, the fields of the parsed JID fit their Go types. *)
Lemma ParseJID_wf s : wf_jid (ParseJID s).1.
Proof.
  assert (∀ u v, wf_jid (NewJID u v)) as Hnew by (intros; unfold wf_jid; cbn; lia).
  assert (∀ u j, wf_jid j → wf_jid (set_user u j)) as Hu by done.
  assert (∀ z j, wf_jid j → wf_jid (set_agent (u8 z) j)) as Ha.
  { intros z j (?&?&?). pose proof (u8_range z). unfold wf_jid, set_agent; cbn [RawAgent Device Integrator]; tauto. }
  assert (∀ z j, wf_jid j → wf_jid (set_device (u16 z) j)) as Hd.
  { intros z j (?&?&?). pose proof (u16_range z). unfold wf_jid, set_device; cbn [RawAgent Device Integrator]; tauto. }
  assert (wf_jid EmptyJID) as He by (unfold wf_jid; cbn; lia).
  unfold ParseJID. repeat case_match; cbn [fst]; auto.
Qed.

(** The SQL form is faithful: scanning the value that
    [Value] writes for a JID restores it (its integrator apart) whatever the
    destination held, an empty JID is written as NULL, and scanning NULL, a
    value of another type or a malformed text leaves the destination as it
    was. *)
Theorem Scan_Value (old j : JID) :
  (Server j = "" → Scan old (Value j) = (old, None)) ∧
  (text_safe j → Server j ≠ "" → Integrator j = 0%Z → Scan old (Value j) = (j, None)) ∧
  (∀ src e, snd (Scan old src) = Some e → fst (Scan old src) = old).
Proof.
  split_and!.
  - intros Hs. unfold Value. by rewrite Hs.
  - intros Hsafe Hs Hi. unfold Value. rewrite decide_False.
    2: { destruct (Server j); [done|]. unfold slen; cbn. lia. }
    cbn. rewrite ParseJID_JIDString by done. destruct j; cbn in *; by subst.
  - intros [|s|b|] e; cbn; try done.
    + by destruct (ParseJID s) as [out [err|]].
    + by destruct (ParseJID (b2s b)) as [out [err|]].
Qed.

(** ** Domains *)

Lemma NewADJID_ActualAgent j :
  Server j ∈ [DefaultUserServer; HiddenUserServer; HostedServer; HostedLIDServer] →
  RawAgent j = 0%Z → Integrator j = 0%Z →
  NewADJID (User j) (ActualAgent j) (Device j) = j.
Proof.
  destruct j as [u a d i s]; cbn. intros H -> ->. set_unfold in H.
  by repeat destruct H as [->|H].
Qed.

(** The domain byte of an AD JID and the server name
    determine each other: a JID built from one of the four domain bytes
    answers that byte as its agent and has no raw agent, its server is the one
    of the domain, and rebuilding the JID from its own agent and device is the
    identity for every JID on those four servers without raw agent and
    integrator. *)
Theorem ActualAgent_NewADJID :
  (∀ user agent device,
     agent ∈ [WhatsAppDomain; LIDDomain; HostedDomain; HostedLIDDomain] →
     ActualAgent (NewADJID user agent device) = agent ∧ RawAgent (NewADJID user agent device) = 0%Z) ∧
  (∀ j, Server j ∈ [DefaultUserServer; HiddenUserServer; HostedServer; HostedLIDServer] →
     RawAgent j = 0%Z → Integrator j = 0%Z →
     NewADJID (User j) (ActualAgent j) (Device j) = j).
Proof.
  split.
  - intros user agent device H. set_unfold in H. by repeat destruct H as [->|H].
  - apply NewADJID_ActualAgent.
Qed.

Definition domain_server (s : string) : Prop :=
  s ∈ [DefaultUserServer; HiddenUserServer; HostedServer; HostedLIDServer].
#[global] Instance domain_server_dec s : Decision (domain_server s).
Proof. unfold domain_server. apply _. Defined.

Lemma FormatUint_agent_inj j k :
  domain_server (Server j) → domain_server (Server k) →
  ActualAgent j = ActualAgent k → Server j = Server k.
Proof.
  unfold domain_server. intros Hj Hk. unfold ActualAgent.
  set_unfold in Hj. set_unfold in Hk.
  repeat destruct Hj as [->|Hj]; repeat destruct Hk as [->|Hk]; vm_compute; try done.
Qed.

Lemma ActualAgent_range j : domain_server (Server j) → (0 ≤ ActualAgent j < 256)%Z.
Proof.
  unfold domain_server. intros Hj. unfold ActualAgent. set_unfold in Hj.
  by repeat destruct Hj as [->|Hj].
Qed.

Lemma Split_SignalAddressUser j :
  domain_server (Server j) → x5f ∉ s2b (User j) →
  Split x5f (SignalAddressUser j) =
    User j :: (if decide (ActualAgent j = 0)%Z then [] else [FormatUint (ActualAgent j)]).
Proof.
  intros Hs Hu. pose proof (ActualAgent_range j Hs). unfold SignalAddressUser.
  destruct (decide (ActualAgent j = 0%Z)) as [H0|H0].
  - rewrite decide_False by tauto. by apply Split_none.
  - rewrite decide_True by done. rewrite (Split_app x5f "_") by done.
    rewrite Split_none; [done|]. apply FormatUint_no_sep; [lia|done].
Qed.

(** On the four device servers, and for users without an
    underscore, the Signal address identifies the account and the device: two
    such JIDs with the same Signal address have the same user, server and
    device, so that sessions of phone-number and LID identities never
    collide. *)
Theorem SignalAddress_inj (j k : JID) :
  wf_jid j → wf_jid k → domain_server (Server j) → domain_server (Server k) →
  x5f ∉ s2b (User j) → x5f ∉ s2b (User k) →
  SignalAddress j = SignalAddress k →
  User j = User k ∧ Server j = Server k ∧ Device j = Device k.
Proof.
  intros (_&Hdj&_) (_&Hdk&_) Hj Hk Huj Huk. unfold SignalAddress. intros Heq.
  injection Heq as Ha Hd. rewrite !u32_small in Hd by lia.
  apply (f_equal (Split x5f)) in Ha. rewrite !Split_SignalAddressUser in Ha by done.
  injection Ha as Hu Hr. split_and!; [done| |done].
  apply FormatUint_agent_inj; [done..|].
  pose proof (ActualAgent_range j Hj). pose proof (ActualAgent_range k Hk).
  repeat case_decide; try done; [congruence|].
  injection Hr as Hr. apply FormatUint_inj in Hr; unfold maxUint64; lia || done.
Qed.

Lemma SignalAddress_inj_witness :
  let j := NewADJID "15551234567" 1 12 in
  User j = User j ∧ Server j = Server j ∧ Device j = Device j.
Proof.
  apply (SignalAddress_inj (NewADJID "15551234567" 1 12) (NewADJID "15551234567" 1 12));
    try reflexivity; try (vm_compute; intuition; set_solver).
  all: unfold domain_server; vm_compute; set_solver.
Defined.

(** The numbers of a device JID are converted, not
    checked: whatever numbers that fit an [int] stand in the text, parsing
    succeeds and keeps the agent modulo 256 and the device modulo 65536; and an
    agent written as a negative number is accepted too. *)
Theorem ParseJID_truncates :
  (∀ (user server : string) (agent device : Z),
     x40 ∉ s2b user → x2e ∉ s2b user → x40 ∉ s2b server →
     (0 ≤ agent < 2 ^ 63)%Z → (0 ≤ device < 2 ^ 63)%Z →
     ParseJID (user +:+ "." +:+ FormatUint agent +:+ ":" +:+ FormatUint device +:+ "@" +:+ server) =
     ({| User := user; RawAgent := u8 agent; Device := u16 device; Integrator := 0;
         Server := server |}, None)) ∧
  ParseJID "1.-1@s.whatsapp.net" =
    ({| User := "1"; RawAgent := 255; Device := 0; Integrator := 0;
        Server := DefaultUserServer |}, None).
Proof. split; [intros; by apply ParseJID_agent_device_wrap|reflexivity]. Qed.
