(* ===== verification/Node.v ===== *)
(** Binary XML nodes: the [Node] struct and its accessors
    (src/binary/node.go) and the attribute reader [AttrUtility]
    (src/binary/attrs.go).

    A Go value of type [any] that the encoder and decoder handle is a [value];
    [VOther] stands for a value of any other dynamic type.  An [Attrs] map is
    the association list of its entries in the order in which Go happens to
    iterate over it, so that a theorem about every such list is a theorem about
    every iteration order; the nil map and the empty map are both [[]]. *)
From Stdlib Require Import ZArith Lia.
From Stdlib Require Import Strings.Byte.
From stdpp Require Import prelude strings list.
From S2P Require Import Prelude Strconv Jid.

(** ** Values and nodes *)

Inductive node :=
| mkNode (tag : string) (attrs : list (string * value)) (content : value)
with value :=
| VNil
| VJID (j : JID)
| VString (s : string)
| VInt (z : Z)
| VInt32 (z : Z)
| VUint (z : Z)
| VUint32 (z : Z)
| VInt64 (z : Z)
| VUint64 (z : Z)
| VBool (b : bool)
| VBytes (l : list byte)
| VNodes (ns : list node)
| VOther (typeName : string).

Definition Tag (n : node) : string := let 'mkNode t _ _ := n in t.
Definition Attrs (n : node) : list (string * value) := let 'mkNode _ a _ := n in a.
Definition Content (n : node) : value := let 'mkNode _ _ c := n in c.

(** Induction over values and nodes with hypotheses for every nested node. *)
Section value_induction.
Context (P : value → Prop) (Q : node → Prop).
Context (Hleaf : ∀ v, (∀ ns, v ≠ VNodes ns) → P v).
Context (Hnodes : ∀ ns, Forall Q ns → P (VNodes ns)).
Context (Hnode : ∀ t attrs c, Forall (λ kv, P kv.2) attrs → P c → Q (mkNode t attrs c)).

Fixpoint value_node_ind (v : value) : P v :=
  match v with
  | VNodes ns =>
      Hnodes ns ((fix go (l : list node) : Forall Q l :=
                    match l with
                    | [] => Forall_nil_2 Q
                    | n :: l => Forall_cons_2 Q n l (node_value_ind n) (go l)
                    end) ns)
  | v => Hleaf v ltac:(discriminate)
  end
with node_value_ind (n : node) : Q n :=
  match n with
  | mkNode t attrs c =>
      Hnode t attrs c
        ((fix go (l : list (string * value)) : Forall (λ kv, P kv.2) l :=
            match l with
            | [] => Forall_nil_2 _
            | kv :: l => Forall_cons_2 (λ kv, P kv.2) kv l (value_node_ind kv.2) (go l)
            end) attrs)
        (value_node_ind c)
  end.
End value_induction.

(** The dynamic type of a value, as [%T] prints it. *)
Definition typeName (v : value) : string :=
  match v with
  | VNil => "<nil>" | VJID _ => "types.JID" | VString _ => "string" | VInt _ => "int"
  | VInt32 _ => "int32" | VUint _ => "uint" | VUint32 _ => "uint32" | VInt64 _ => "int64"
  | VUint64 _ => "uint64" | VBool _ => "bool" | VBytes _ => "[]uint8"
  | VNodes _ => "[]binary.Node" | VOther t => t
  end.

(** ** Accessors *)

Definition GetChildren (n : node) : list node :=
  match Content n with VNodes ns => ns | _ => [] end.

Definition GetChildrenByTag (n : node) (tag : string) : list node :=
  filter (λ c, Tag c = tag) (GetChildren n).

(** The inner loop: the first child with the tag. *)
Fixpoint firstChild (tag : string) (children : list node) : option node :=
  match children with
  | [] => None
  | child :: rest => if decide (Tag child = tag) then Some child else firstChild tag rest
  end.

Fixpoint GetOptionalChildByTag (val : node) (tags : list string) : node * bool :=
  match tags with
  | [] => (val, true)
  | tag :: tags =>
      match firstChild tag (GetChildren val) with
      | Some child => GetOptionalChildByTag child tags
      | None => (val, false)
      end
  end.

Definition GetChildByTag (n : node) (tags : list string) : node :=
  fst (GetOptionalChildByTag n tags).

(** Indexing the attribute map: [n.Attrs[key]] with its [ok]. *)
Fixpoint lookupAttr (key : string) (attrs : list (string * value)) : option value :=
  match attrs with
  | [] => None
  | (k, v) :: rest => if decide (k = key) then Some v else lookupAttr key rest
  end.

(** ** The descendant a tag path leads to *)

(** [first_child n tag c]: [c] is the first child of [n] with this tag. *)
Inductive first_child (n : node) (tag : string) : node → Prop :=
| first_child_intro before c after :
    GetChildren n = before ++ c :: after →
    Forall (λ d, Tag d ≠ tag) before → Tag c = tag →
    first_child n tag c.

Inductive tag_path : node → list string → node → Prop :=
| path_nil n : tag_path n [] n
| path_cons n tag c tags m :
    first_child n tag c → tag_path c tags m → tag_path n (tag :: tags) m.

Lemma firstChild_Some tag n c :
  firstChild tag (GetChildren n) = Some c ↔ first_child n tag c.
Proof.
  assert (∀ l, firstChild tag l = Some c ↔
            ∃ before after, l = before ++ c :: after ∧ Forall (λ d, Tag d ≠ tag) before
                            ∧ Tag c = tag) as H.
  { induction l as [|d l IH]; cbn.
    { split; [done|]. intros (before & after & Heq & _). by destruct before. }
    case_decide as Ht.
    - split; [intros [= ->]; by exists [], l|].
      intros ([|b before] & after & [= -> ->] & Hb & Hc); [done|].
      by apply Forall_cons in Hb as [? _].
    - rewrite IH. split; intros (before & after & Heq & Hb & Hc).
      + exists (d :: before), after. subst. auto.
      + destruct before as [|b before]; injection Heq as -> ->; [done|].
        apply Forall_cons in Hb as [_ Hb]. eauto. }
  rewrite H. split.
  - intros (before & after & ? & ? & ?). by econstructor.
  - intros [before c' after]. eauto.
Qed.

Lemma firstChild_None tag n :
  firstChild tag (GetChildren n) = None ↔ ∀ c, ¬ first_child n tag c.
Proof.
  split.
  - intros H c Hc%firstChild_Some. congruence.
  - intros H. destruct (firstChild _ _) as [c|] eqn:Hc; [|done].
    by apply firstChild_Some, H in Hc.
Qed.

(** [GetOptionalChildByTag] reports success exactly when the
    path of tags exists, and then returns its end, following the first child
    with the tag at every level; when it fails, it returns the deepest node
    that the path reached, which is the starting node itself when the first
    tag is already missing. *)
Theorem GetOptionalChildByTag_spec (n : node) (tags : list string) :
  (∀ m, GetOptionalChildByTag n tags = (m, true) ↔ tag_path n tags m) ∧
  (∀ m, GetOptionalChildByTag n tags = (m, false) ↔
        ∃ done_ tag rest, tags = done_ ++ tag :: rest ∧ tag_path n done_ m ∧
                          ∀ c, ¬ first_child m tag c).
Proof.
  revert n; induction tags as [|tag tags IH]; intros n; cbn.
  - split; intros m; (split; [intros [= <-]|]).
    + constructor.
    + by inversion 1.
    + intros (d & t & r & Heq & _). by destruct d.
  - destruct (firstChild tag (GetChildren n)) as [c|] eqn:Hc.
    + apply firstChild_Some in Hc. destruct (IH c) as [IHt IHf]. split; intros m.
      * rewrite IHt. split; [by econstructor|].
        inversion 1 as [|? ? c' ? ? Hc' Hp]; subst.
        apply firstChild_Some in Hc, Hc'. congruence.
      * rewrite IHf. split.
        -- intros (d & t & r & -> & Hp & Hn). exists (tag :: d), t, r.
           split_and!; [done| |done]. by econstructor.
        -- intros (d & t & r & Heq & Hp & Hn). destruct d as [|t' d].
           ++ injection Heq as <- <-. inversion Hp; subst. by apply Hn in Hc.
           ++ injection Heq as <- ->. inversion Hp as [|? ? c' ? ? Hc' Hp']; subst.
              apply firstChild_Some in Hc, Hc'. assert (c' = c) as -> by congruence. eauto 6.
    + split; intros m; (split; [intros [= <-]|]).
      * inversion 1 as [|? ? c' ? ? Hc' Hp]; subst.
        apply firstChild_Some in Hc'. congruence.
      * exists [], tag, tags. split_and!; [done|constructor|]. by apply firstChild_None.
      * intros (d & t & r & Heq & Hp & Hn). destruct d as [|t' d].
        -- by inversion Hp.
        -- injection Heq as <- ->. inversion Hp as [|? ? c' ? ? Hc' Hp']; subst.
           apply firstChild_Some in Hc'. congruence.
Qed.
