(* ===== verification/Attrs.v ===== *)
(** Reading the attributes of a node: [AttrUtility] of src/binary/attrs.go.
    Each getter returns its value with Go's [ok] and threads the list of
    collected errors.  [AttrGetter] is the contract every getter satisfies;
    the theorem about reading several attributes is proved from the contract
    alone. *)
From Stdlib Require Import ZArith Lia.
From Stdlib Require Import Strings.Byte.
From stdpp Require Import prelude strings list.
From S2P Require Import Prelude Strconv Jid Node.

Inductive attrError :=
| MissingJID (key : string)
| NotAJID (key : string) (typ : string)
| MissingAttr (key : string)
| NotAString (key : string) (typ : string)
| BadInt (key : string) (e : numError)
| BadUint (key : string) (e : numError)
| BadBool (key : string).

Record AttrUtility := { auAttrs : list (string * value); Errors : list attrError }.

Definition AttrGetter_of (n : node) : AttrUtility := {| auAttrs := Attrs n; Errors := [] |}.

Definition pushError (e : attrError) (au : AttrUtility) : AttrUtility :=
  {| auAttrs := auAttrs au; Errors := Errors au ++ [e] |}.

(** A getter: its value, whether it succeeded, and the reader afterwards. *)
Abbreviation getter A := (string → bool → AttrUtility → (A * bool) * AttrUtility).

Definition GetJID : getter JID := λ key require au,
  match lookupAttr key (auAttrs au) with
  | None => ((EmptyJID, false), if require : bool then pushError (MissingJID key) au else au)
  | Some (VJID j) => ((j, true), au)
  | Some v => ((EmptyJID, false), pushError (NotAJID key (typeName v)) au)
  end.

Definition GetString : getter string := λ key require au,
  match lookupAttr key (auAttrs au) with
  | None => (("", false), if require : bool then pushError (MissingAttr key) au else au)
  | Some (VString s) => ((s, true), au)
  | Some v => (("", false), pushError (NotAString key (typeName v)) au)
  end.

Definition GetInt64 : getter Z := λ key require au,
  match GetString key require au with
  | ((_, false), au) => ((0%Z, false), au)
  | ((s, true), au) =>
      match ParseInt s with
      | Ok n => ((n, true), au)
      | Err e => ((0%Z, false), pushError (BadInt key e) au)
      | _ => ((0%Z, false), au)
      end
  end.

Definition GetUint64 : getter Z := λ key require au,
  match GetString key require au with
  | ((_, false), au) => ((0%Z, false), au)
  | ((s, true), au) =>
      match ParseUint s with
      | Ok n => ((n, true), au)
      | Err e => ((0%Z, false), pushError (BadUint key e) au)
      | _ => ((0%Z, false), au)
      end
  end.

Definition GetBool : getter bool := λ key require au,
  match GetString key require au with
  | ((_, false), au) => ((false, false), au)
  | ((s, true), au) =>
      match ParseBool s with
      | Some b => ((b, true), au)
      | None => ((false, false), pushError (BadBool key) au)
      end
  end.

(** [time.Time]: the zero time, or an instant in seconds or milliseconds. *)
Inductive goTime := ZeroTime | UnixSec (s : Z) | UnixMs (ms : Z).

Definition GetUnixTime : getter goTime := λ key require au,
  match GetInt64 key require au with
  | ((_, false), au) => ((ZeroTime, false), au)
  | ((n, true), au) => ((if (n =? 0)%Z then ZeroTime else UnixSec n, true), au)
  end.

Definition GetUnixMilli : getter goTime := λ key require au,
  match GetInt64 key require au with
  | ((_, false), au) => ((ZeroTime, false), au)
  | ((n, true), au) => ((if (n =? 0)%Z then ZeroTime else UnixMs n, true), au)
  end.

(** ** The convenience readers *)

Definition OptionalJID (key : string) (au : AttrUtility) : option JID * AttrUtility :=
  match GetJID key false au with
  | ((j, true), au) => (Some j, au)
  | ((_, false), au) => (None, au)
  end.

Definition OptionalJIDOrEmpty (key : string) (au : AttrUtility) : JID * AttrUtility :=
  match GetJID key false au with
  | ((j, true), au) => (j, au)
  | ((_, false), au) => (EmptyJID, au)
  end.

(** The others return the value of the getter and drop its [ok]. *)
Definition dropOk {A} (r : (A * bool) * AttrUtility) : A * AttrUtility := (r.1.1, r.2).

Definition attrJID key au := dropOk (GetJID key true au).
Definition OptionalString key au := dropOk (GetString key false au).
Definition attrString key au := dropOk (GetString key true au).
Definition OptionalInt key au := dropOk (GetInt64 key false au).
Definition attrInt key au := dropOk (GetInt64 key true au).
Definition attrInt64 key au := dropOk (GetInt64 key true au).
Definition attrUint64 key au := dropOk (GetUint64 key true au).
Definition OptionalBool key au := dropOk (GetBool key false au).
Definition attrBool key au := dropOk (GetBool key true au).
Definition OptionalUnixTime key au := dropOk (GetUnixTime key false au).
Definition attrUnixTime key au := dropOk (GetUnixTime key true au).
Definition OptionalUnixMilli key au := dropOk (GetUnixMilli key false au).
Definition attrUnixMilli key au := dropOk (GetUnixMilli key true au).

Definition OK (au : AttrUtility) : bool := bool_decide (length (Errors au) = 0).
Definition attrsError (au : AttrUtility) : option (list attrError) :=
  if OK au then None else Some (Errors au).

(** ** The contract of a getter *)

(** [parses key v a]: reading the present attribute value [v] succeeds with
    [a].  A getter never changes the attributes; it succeeds exactly when the
    attribute is present and parses, and then records nothing; otherwise it
    records exactly one error, except that a missing optional attribute is not
    an error. *)
Class AttrGetter {A} (g : getter A) (parses : value → option A) := {
  getter_success key require au v a :
    lookupAttr key (auAttrs au) = Some v → parses v = Some a →
    g key require au = ((a, true), au);
  getter_malformed key require au v :
    lookupAttr key (auAttrs au) = Some v → parses v = None →
    ∃ a e, g key require au = ((a, false), pushError e au);
  getter_missing_required key au :
    lookupAttr key (auAttrs au) = None →
    ∃ a e, g key true au = ((a, false), pushError e au);
  getter_missing_optional key au :
    lookupAttr key (auAttrs au) = None →
    ∃ a, g key false au = ((a, false), au);
}.

Definition parsesJID (v : value) : option JID := match v with VJID j => Some j | _ => None end.
Definition parsesString (v : value) : option string :=
  match v with VString s => Some s | _ => None end.
Definition outcome_opt {E A} (m : outcome E A) : option A :=
  match m with Ok a => Some a | _ => None end.
Definition parsesInt64 (v : value) : option Z := s ← parsesString v; outcome_opt (ParseInt s).
Definition parsesUint64 (v : value) : option Z := s ← parsesString v; outcome_opt (ParseUint s).
Definition parsesBool (v : value) : option bool := s ← parsesString v; ParseBool s.
Definition parsesUnix (unit : Z → goTime) (v : value) : option goTime :=
  (λ n, if (n =? 0)%Z then ZeroTime else unit n) <$> parsesInt64 v.

Lemma ParseInt_shape s : (∃ n, ParseInt s = Ok n) ∨ (∃ e, ParseInt s = Err e).
Proof.
  assert (∀ m acc l, (∃ n, parse_digits m acc l = Ok n) ∨ (∃ e, parse_digits m acc l = Err e)) as H.
  { intros m acc l; revert acc; induction l; intros acc; cbn; [eauto|].
    repeat case_match; eauto. }
  assert (∀ neg l, (∃ n, checkSigned neg (ParseUintBytes l) = Ok n) ∨
                   (∃ e, checkSigned neg (ParseUintBytes l) = Err e)) as H'.
  { intros neg l. unfold ParseUintBytes. destruct l as [|b l]; [cbn; eauto|].
    destruct (H maxUint64 0%Z (b :: l)) as [[n ->]|[e ->]]; cbn; repeat case_match; eauto. }
  unfold ParseInt. repeat case_match; eauto.
Qed.

Lemma ParseUint_shape s : (∃ n, ParseUint s = Ok n) ∨ (∃ e, ParseUint s = Err e).
Proof.
  unfold ParseUint, ParseUintBytes. destruct (s2b s) as [|b l]; [eauto|].
  generalize 0%Z. induction (b :: l); intros acc; cbn; [eauto|].
  repeat case_match; eauto.
Qed.

#[export] Instance GetJID_getter : AttrGetter GetJID parsesJID.
Proof.
  split; intros key; intros; unfold GetJID.
  - rewrite H. by destruct v; simplify_eq/=.
  - rewrite H. destruct v; simplify_eq/=; eauto.
  - rewrite H. eauto.
  - rewrite H. eauto.
Qed.

#[export] Instance GetString_getter : AttrGetter GetString parsesString.
Proof.
  split; intros key; intros; unfold GetString.
  - rewrite H. by destruct v; simplify_eq/=.
  - rewrite H. destruct v; simplify_eq/=; eauto.
  - rewrite H. eauto.
  - rewrite H. eauto.
Qed.

(** A getter that parses the string [GetString] reads. *)
Lemma string_getter {A} (g : getter A) (p : string → option A) :
  (∀ key require au s a,
     GetString key require au = ((s, true), au) → p s = Some a →
     g key require au = ((a, true), au)) →
  (∀ key require au s,
     GetString key require au = ((s, true), au) → p s = None →
     ∃ a e, g key require au = ((a, false), pushError e au)) →
  (∀ key require au s au',
     GetString key require au = ((s, false), au') →
     ∃ a, g key require au = ((a, false), au')) →
  AttrGetter g (λ v, s ← parsesString v; p s).
Proof.
  intros H1 H2 H3. split.
  - intros key require au v a Hl Hp. destruct (parsesString v) as [s|] eqn:Hs; [|done].
    eapply H1; [by eapply getter_success|done].
  - intros key require au v Hl Hp. destruct (parsesString v) as [s|] eqn:Hs.
    + eapply H2; [by eapply getter_success|done].
    + destruct (getter_malformed key require au v Hl Hs) as (s & e & Hg).
      apply H3 in Hg as [a Hg]. eauto.
  - intros key au Hl. destruct (getter_missing_required key au Hl) as (s & e & Hg).
    apply H3 in Hg as [a Hg]. eauto.
  - intros key au Hl. destruct (getter_missing_optional key au Hl) as (s & Hg).
    apply H3 in Hg as [a Hg]. eauto.
Qed.

(** A getter that post-processes the value of another one. *)
Lemma map_getter {A B} (g : getter A) (p : value → option A) (f : A → B) (h : getter B) :
  AttrGetter g p →
  (∀ key require au a au', g key require au = ((a, true), au') →
     h key require au = ((f a, true), au')) →
  (∀ key require au a au', g key require au = ((a, false), au') →
     ∃ b, h key require au = ((b, false), au')) →
  AttrGetter h (λ v, f <$> p v).
Proof.
  intros Hg H1 H2. split.
  - intros key require au v b Hl (a & Hp & ->)%fmap_Some. eapply H1, getter_success; eauto.
  - intros key require au v Hl Hp%fmap_None.
    destruct (getter_malformed key require au v Hl Hp) as (a & e & Ha).
    apply H2 in Ha as [b Hb]. eauto.
  - intros key au Hl. destruct (getter_missing_required key au Hl) as (a & e & Ha).
    apply H2 in Ha as [b Hb]. eauto.
  - intros key au Hl. destruct (getter_missing_optional key au Hl) as (a & Ha).
    apply H2 in Ha as [b Hb]. eauto.
Qed.

#[export] Instance GetInt64_getter : AttrGetter GetInt64 parsesInt64.
Proof.
  apply string_getter; intros key require au s; intros; unfold GetInt64.
  - rewrite H. by destruct (ParseInt s); simplify_eq/=.
  - rewrite H. destruct (ParseInt_shape s) as [[n Hs]|[e Hs]]; rewrite Hs in *; [done|eauto].
  - rewrite H. eauto.
Qed.

#[export] Instance GetUint64_getter : AttrGetter GetUint64 parsesUint64.
Proof.
  apply string_getter; intros key require au s; intros; unfold GetUint64.
  - rewrite H. by destruct (ParseUint s); simplify_eq/=.
  - rewrite H. destruct (ParseUint_shape s) as [[n Hs]|[e Hs]]; rewrite Hs in *; [done|eauto].
  - rewrite H. eauto.
Qed.

#[export] Instance GetBool_getter : AttrGetter GetBool parsesBool.
Proof.
  apply string_getter; intros key require au s; intros; unfold GetBool; rewrite H.
  - by destruct (ParseBool s); simplify_eq/=.
  - destruct (ParseBool s); [done|eauto].
  - eauto.
Qed.

#[export] Instance GetUnixTime_getter : AttrGetter GetUnixTime (parsesUnix UnixSec).
Proof.
  eapply map_getter; [apply _| |]; intros key require au a au' H; unfold GetUnixTime;
    rewrite H; eauto.
Qed.

#[export] Instance GetUnixMilli_getter : AttrGetter GetUnixMilli (parsesUnix UnixMs).
Proof.
  eapply map_getter; [apply _| |]; intros key require au a au' H; unfold GetUnixMilli;
    rewrite H; eauto.
Qed.

(** ** Reading several attributes *)

(** One read of a parser: a getter with its contract, a key and whether the
    attribute is required. *)
Record read_op := {
  op_type : Type;
  op_get : getter op_type;
  op_parses : value → option op_type;
  op_spec : AttrGetter op_get op_parses;
  op_key : string;
  op_require : bool }.

Definition run_op (o : read_op) (au : AttrUtility) : AttrUtility :=
  (op_get o (op_key o) (op_require o) au).2.
Definition run_ops (ops : list read_op) (au : AttrUtility) : AttrUtility :=
  foldl (λ au o, run_op o au) au ops.

(** The read is satisfied by these attributes. *)
Definition op_fine (attrs : list (string * value)) (o : read_op) : Prop :=
  match lookupAttr (op_key o) attrs with
  | Some v => is_Some (op_parses o v)
  | None => op_require o = false
  end.
#[global] Instance op_fine_dec attrs o : Decision (op_fine attrs o).
Proof. unfold op_fine. destruct (lookupAttr _ _); apply _. Defined.

Lemma run_op_spec o au :
  auAttrs (run_op o au) = auAttrs au ∧
  (op_fine (auAttrs au) o → run_op o au = au) ∧
  (¬ op_fine (auAttrs au) o → ∃ e, run_op o au = pushError e au).
Proof.
  destruct o as [A g p Hg key require]. unfold run_op, op_fine; cbn.
  destruct (lookupAttr key (auAttrs au)) as [v|] eqn:Hl.
  - destruct (p v) as [a|] eqn:Hp.
    + rewrite (getter_success key require au v a Hl Hp). naive_solver.
    + destruct (getter_malformed key require au v Hl Hp) as (a & e & ->).
      split_and!; [done|by intros [? ?]|eauto].
  - destruct require.
    + destruct (getter_missing_required key au Hl) as (a & e & ->). naive_solver.
    + destruct (getter_missing_optional key au Hl) as (a & ->). naive_solver.
Qed.

Lemma run_ops_errors ops au :
  auAttrs (run_ops ops au) = auAttrs au ∧
  ∃ es, Errors (run_ops ops au) = Errors au ++ es ∧
        length es = length (filter (λ o, ¬ op_fine (auAttrs au) o) ops).
Proof.
  revert au; induction ops as [|o ops IH]; intros au.
  { split; [done|]. exists []. by rewrite app_nil_r. }
  change (run_ops (o :: ops) au) with (run_ops ops (run_op o au)).
  destruct (run_op_spec o au) as (Ha & Hfine & Hbad). destruct (IH (run_op o au)) as (IHa & es & He & Hlen).
  rewrite Ha in *. split; [done|].
  rewrite filter_cons. case_decide as Hf.
  - destruct (Hbad Hf) as [e Ho]. exists (e :: es).
    rewrite He, Ho. cbn [pushError Errors length]. split; [|by rewrite Hlen].
    by rewrite <- (assoc (++)).
  - rewrite (Hfine Hf) in *. eauto.
Qed.

(** Reading any sequence of attributes of a node, with any of
    the getters, collects exactly one error per attribute that is malformed or
    required and missing, in order, and nothing else; hence [Error] is nil
    exactly when every attribute read is either well formed or optional and
    absent, so that one check at the end replaces a check per attribute. *)
Theorem attr_reads_ok (n : node) (ops : list read_op) :
  length (Errors (run_ops ops (AttrGetter_of n))) =
    length (filter (λ o, ¬ op_fine (Attrs n) o) ops) ∧
  (attrsError (run_ops ops (AttrGetter_of n)) = None ↔ Forall (op_fine (Attrs n)) ops).
Proof.
  destruct (run_ops_errors ops (AttrGetter_of n)) as (_ & es & He & Hlen).
  cbn in He, Hlen. unfold attrsError, OK. rewrite He, Hlen.
  split; [done|].
  assert (length (filter (λ o, ¬ op_fine (Attrs n) o) ops) = 0 ↔ Forall (op_fine (Attrs n)) ops)
    as Hiff.
  { clear. induction ops as [|o ops IH]; [done|].
    rewrite filter_cons, Forall_cons. case_decide as Hf; [naive_solver lia|].
    naive_solver. }
  rewrite <- Hiff. case_bool_decide; naive_solver.
Qed.
