(* ===== verification/Requests.v ===== *)
(** Requests to the server and their answers (src/request.go, src/keepalive.go):
    the table of waiting channels, shared by the goroutines that send requests,
    the one that receives nodes and the one that handles disconnections, as a
    step relation whose steps are the parts that run under the lock or are a
    single channel operation; and what [sendIQ] makes of an answer. *)
From Stdlib Require Import ZArith Lia.
From Stdlib Require Import Strings.Byte.
From stdpp Require Import prelude gmap strings list fin_maps.
From S2P Require Import Prelude Strconv Jid Node Attrs.

#[local] Open Scope string_scope.

(** ** Answers *)

(** [xmlStreamEndNode] is one node, recognised by its address. *)
Inductive reply := StreamEnd | Reply (n : node).

Definition isDisconnectNode (r : reply) : bool :=
  match r with StreamEnd => true | Reply n => bool_decide (Tag n = "stream:error") end.

Definition stringAttr (key : string) (n : node) : string :=
  match lookupAttr key (Attrs n) with Some (VString s) => s | _ => "" end.

Definition isAuthErrorDisconnect (r : reply) : bool :=
  match r with
  | StreamEnd => false
  | Reply n =>
      if decide (Tag n ≠ "stream:error") then false
      else
        let code := stringAttr "code" n in
        let '(conflict, _) := GetOptionalChildByTag n ["conflict"] in
        let conflictType := (OptionalString "type" (AttrGetter_of conflict)).1 in
        bool_decide (code = "401" ∨ conflictType = "replaced" ∨ conflictType = "device_removed")
  end.

(** ** The table of waiters

    A request is one use of [waitResponse]: a call of [sendIQAsyncAndGetData], of
    [retryFrame] or of one of the functions that send messages, and the code that
    waits on the channel; [buf] and [closed] are its channel, which has room for
    one answer. A request [Failed] when its sending did; when a deadline or
    context ends the waiting, an info query, a retry or a ping just [GaveUp], and a
    message is [Cancelled] like a failed one (src/send.go, src/sendfb.go). *)
Inductive phase := Sending | Waiting | Answered (r : reply) | Failed | GaveUp | Cancelled.
Record request := mkRequest { rid : string; rphase : phase; buf : option reply; closed : bool }.

(** [inflight]: the receiver took the waiter out of the table and has not sent
    the answer to its channel yet. *)
Record reqState := mkReq {
  waiters : gmap string nat;
  requests : list request;
  inflight : list (nat * node)
}.
Definition initReq : reqState := mkReq ∅ [] [].

Definition setRequest (i : nat) (r : request) (s : reqState) : reqState :=
  mkReq (waiters s) (<[i := r]> (requests s)) (inflight s).

(** Sending to a closed channel and closing one again panic; [None] means that
    the send would block. *)
Definition chanSend (x : reply) (r : request) : outcome Empty_set (option request) :=
  if closed r then Panic
  else match buf r with
       | Some _ => Ok None
       | None => Ok (Some (mkRequest (rid r) (rphase r) (Some x) false))
       end.
Definition chanClose (r : request) : outcome Empty_set request :=
  if closed r then Panic else Ok (mkRequest (rid r) (rphase r) (buf r) true).

Definition waitResponse (reqID : string) (s : reqState) : reqState :=
  mkReq (<[reqID := length (requests s)]> (waiters s))
    (requests s ++ [mkRequest reqID Sending None false])%list (inflight s).

Definition cancelResponse (i : nat) (r : request) (s : reqState) : outcome Empty_set reqState :=
  r ← chanClose r;
  Ok (mkReq (delete (rid r) (waiters s)) (<[i := r]> (requests s)) (inflight s)).

(** The part of [receiveResponse] before the answer is sent to the channel. *)
Definition receiveTake (n : node) (s : reqState) : reqState :=
  match lookupAttr "id" (Attrs n) with
  | Some (VString id) =>
      if decide (Tag n = "iq" ∨ Tag n = "ack") then
        match waiters s !! id with
        | Some i => mkReq (delete id (waiters s)) (requests s) (inflight s ++ [(i, n)])%list
        | None => s
        end
      else s
  | _ => s
  end.

(** The loop of [clearResponseWaiters]. *)
Fixpoint clearLoop (x : reply) (ids : list nat) (rs : list request) : outcome Empty_set (list request) :=
  match ids with
  | [] => Ok rs
  | i :: ids =>
      match rs !! i with
      | None => Panic
      | Some r =>
          sent ← chanSend x r;
          r ← match sent with Some r => Ok r | None => chanClose r end;
          clearLoop x ids (<[i := r]> rs)
      end
  end.
Definition clearResponseWaiters (x : reply) (s : reqState) : outcome Empty_set reqState :=
  rs ← clearLoop x (snd <$> map_to_list (waiters s)) (requests s);
  Ok (mkReq ∅ rs (inflight s)).

(** The steps. [SendFails] is the error path of the sending functions, [GiveUp]
    the end of the waiting in [sendIQ], [retryFrame] and [sendKeepAlive], and
    [CancelWait] that in [SendMessage] and [SendFBMessage]. *)
Inductive label :=
| NewRequest (id : string)
| SendWorks (i : nat)
| SendFails (i : nat)
| Take (n : node)
| Deliver (k : nat)
| DropAnswer (k : nat)                   (* the receiver's context ended *)
| Clear (x : reply)
| Await (i : nat)
| GiveUp (i : nat)                       (* a deadline or context ended *)
| CancelWait (i : nat).                  (* the same, for a message *)

Definition setPhase (p : phase) (r : request) : request := mkRequest (rid r) p (buf r) (closed r).

(** [None]: the step is not possible now. *)
Definition runStep (l : label) (s : reqState) : option (outcome Empty_set reqState) :=
  match l with
  | NewRequest id => Some (Ok (waitResponse id s))
  | SendWorks i =>
      r ← requests s !! i;
      match rphase r with Sending => Some (Ok (setRequest i (setPhase Waiting r) s)) | _ => None end
  | SendFails i =>
      r ← requests s !! i;
      match rphase r with Sending => Some (cancelResponse i (setPhase Failed r) s) | _ => None end
  | Take n => Some (Ok (receiveTake n s))
  | Deliver k =>
      '(i, n) ← inflight s !! k;
      r ← requests s !! i;
      match chanSend (Reply n) r with
      | Ok None => None
      | Ok (Some r) => Some (Ok (mkReq (waiters s) (<[i := r]> (requests s)) (delete k (inflight s))))
      | _ => Some Panic
      end
  | DropAnswer k => Some (Ok (mkReq (waiters s) (requests s) (delete k (inflight s))))
  | Clear x => if isDisconnectNode x then Some (clearResponseWaiters x s) else None
  | Await i =>
      r ← requests s !! i;
      match rphase r, buf r with
      | Waiting, Some x => Some (Ok (setRequest i (mkRequest (rid r) (Answered x) None (closed r)) s))
      | Waiting, None => if closed r then Some Panic else None      (* a nil node is read *)
      | _, _ => None
      end
  | GiveUp i =>
      r ← requests s !! i;
      match rphase r with Waiting => Some (Ok (setRequest i (setPhase GaveUp r) s)) | _ => None end
  | CancelWait i =>
      r ← requests s !! i;
      match rphase r with Waiting => Some (cancelResponse i (setPhase Cancelled r) s) | _ => None end
  end.

Inductive reachable : reqState → Prop :=
| reach_init : reachable initReq
| reach_step s l s' : reachable s → runStep l s = Some (Ok s') → reachable s'.

(** ** [sendIQ] *)

Inductive iqError :=
| SendFailed
| DisconnectedError (action : string) (r : reply)
| ErrNotConnected
| CtxEnded
| ErrIQTimedOut
| IQErrorAnswer (r : reply) (code : Z) (text : string).

(** What waiting for an answer brings. *)
Inductive waitResult := Got (r : reply) | WaitCtxDone | WaitTimedOut.

Definition parseIQError (n : node) : iqError :=
  match GetOptionalChildByTag n ["error"] with
  | (val, true) =>
      let '(code, ag) := OptionalInt "code" (AttrGetter_of val) in
      IQErrorAnswer (Reply n) code (OptionalString "text" ag).1
  | (_, false) => IQErrorAnswer (Reply n) 0 ""
  end.

(** The world of one call: how the two sends and the two waits end. *)
Record iqWorld := mkWorld {
  firstSend : bool; firstWait : waitResult;
  reconnected : bool; hasSocket : bool; secondSend : bool; secondWait : waitResult
}.

Definition retryFrame (w : iqWorld) (reqType : string) (origResp : reply) : outcome iqError reply :=
  if isAuthErrorDisconnect origResp then Err (DisconnectedError reqType origResp)
  else if negb (reconnected w) then Err (DisconnectedError reqType origResp)
  else if negb (hasSocket w) then Err ErrNotConnected
  else if negb (secondSend w) then Err SendFailed
  else
    match secondWait w with
    | WaitCtxDone => Err CtxEnded
    | WaitTimedOut => Err ErrIQTimedOut
    | Got resp =>
        if isDisconnectNode resp then Err (DisconnectedError (reqType +:+ " (retry)") resp) else Ok resp
    end.

(** The answer with the error, as [sendIQ] returns both. *)
Definition classify (r : reply) : outcome iqError node :=
  match r with
  | StreamEnd => Err (IQErrorAnswer StreamEnd 0 "")
  | Reply n =>
      let resType := stringAttr "type" n in
      if decide (Tag n ≠ "iq" ∨ (resType ≠ "result" ∧ resType ≠ "error")) then Err (IQErrorAnswer (Reply n) 0 "")
      else if decide (resType = "error") then Err (parseIQError n)
      else Ok n
  end.

Definition sendIQ_ (w : iqWorld) (noRetry : bool) : outcome iqError node :=
  if negb (firstSend w) then Err SendFailed
  else
    match firstWait w with
    | WaitCtxDone => Err CtxEnded
    | WaitTimedOut => Err ErrIQTimedOut
    | Got res =>
        res ← (if isDisconnectNode res then
                 if noRetry then Err (DisconnectedError "info query" res) else retryFrame w "info query" res
               else Ok res);
        classify res
    end.

(** ** The query node *)

Record infoQuery := mkInfoQuery {
  Namespace : string; iqType : string; To : JID; Target : JID; iqID : string; SMaxID : string; iqContent : value
}.

Definition generateRequestID (uniqueID : string) (idCounter : Z) : string * Z :=
  let n := u64 (idCounter + 1) in (uniqueID +:+ FormatUint n, n).

Definition queryNode (q : infoQuery) : node :=
  mkNode "iq"
    ([("id", VString (iqID q)); ("xmlns", VString (Namespace q)); ("type", VString (iqType q))] ++
     (if decide (SMaxID q ≠ "") then [("smax_id", VString (SMaxID q))] else []) ++
     (if IsEmpty (To q) then [] else [("to", VJID (To q))]) ++
     (if IsEmpty (Target q) then [] else [("target", VJID (Target q))]))%list
    (iqContent q).

(** ** Keep-alive pings *)

Inductive pingResult := PingSendFailed | PingAnswered | PingTimedOut | PingCtxDone.

(** Whether it succeeded, and whether to go on; [ctxLive]: the context had not
    ended when the ping was sent. *)
Definition sendKeepAlive (ctxLive : bool) (r : pingResult) : bool * bool :=
  if negb ctxLive then (false, false)
  else match r with
       | PingSendFailed => (false, true)
       | PingAnswered => (true, true)
       | PingTimedOut => (false, true)
       | PingCtxDone => (false, false)
       end.

Definition KeepAliveMaxFailTime : Z := 180 * 1000000000.

Inductive keepAliveEvent :=
| KeepAliveTimeout (errorCount : Z) (lastSuccess : Z)
| KeepAliveRestored
| ForcedReconnect.

Record keepAlive := mkKA { lastSuccess : Z; errorCount : Z; kaEvents : list keepAliveEvent }.

(** One round of [keepAliveLoop] that ends at time [now]; [None] when it returns. *)
Definition keepAliveRound (autoReconnect ctxLive : bool) (r : pingResult) (now : Z) (ka : keepAlive) : option keepAlive :=
  let '(isSuccess, shouldContinue) := sendKeepAlive ctxLive r in
  if negb shouldContinue then None
  else if negb isSuccess then
    let n := (errorCount ka + 1)%Z in
    Some (mkKA (lastSuccess ka) n
            (kaEvents ka ++ KeepAliveTimeout n (lastSuccess ka) ::
             (if autoReconnect && (KeepAliveMaxFailTime <? now - lastSuccess ka)%Z then [ForcedReconnect] else []))%list)
  else
    Some (mkKA now 0 (kaEvents ka ++ (if (0 <? errorCount ka)%Z then [KeepAliveRestored] else [])%list)).

(** * The table is safe, but for answers to cancelled requests *)

Definition idOf (n : node) : option string :=
  match lookupAttr "id" (Attrs n) with Some (VString id) => Some id | _ => None end.

(** A reply a request with this id may get. *)
Definition repliesTo (id : string) (x : reply) : Prop :=
  isDisconnectNode x = true ∨ ∃ n, x = Reply n ∧ idOf n = Some id.

(** The requests whose channel [cancelResponse] has closed. *)
Definition abandoned (p : phase) : Prop := p = Failed ∨ p = Cancelled.

(** An untouched channel. *)
Definition fresh (r : request) : Prop := buf r = None ∧ ∀ x, rphase r ≠ Answered x.

Record wf (s : reqState) : Prop := mkWf {
  wf_waiters id i : waiters s !! id = Some i →
    ∃ r, requests s !! i = Some r ∧ rid r = id ∧ fresh r ∧ closed r = false;
  wf_inflight k i n : inflight s !! k = Some (i, n) →
    ∃ r, requests s !! i = Some r ∧ idOf n = Some (rid r) ∧ fresh r ∧ waiters s !! rid r ≠ Some i;
  wf_once k k' i n n' : inflight s !! k = Some (i, n) → inflight s !! k' = Some (i, n') → k = k';
  wf_requests i r : requests s !! i = Some r →
    (closed r = true → abandoned (rphase r)) ∧
    (∀ x, buf r = Some x ∨ rphase r = Answered x → repliesTo (rid r) x)
}.

Lemma wf_init : wf initReq.
Proof. split; cbn; intros; try rewrite lookup_empty in *; try rewrite lookup_nil in *; done. Qed.

(** A change of one request that its channel and the table cannot tell. *)
Lemma wf_setRequest s i r r' :
  wf s → requests s !! i = Some r →
  rid r' = rid r → closed r' = closed r → buf r' = buf r → (fresh r → fresh r') →
  (closed r' = true → abandoned (rphase r')) →
  (∀ x, rphase r' = Answered x → repliesTo (rid r) x) →
  wf (setRequest i r' s).
Proof.
  intros [Hw Hi Ho Hr] Hri Hid Hcl Hbuf Hfresh Hfail Hans.
  assert (∀ j q, requests s !! j = Some q → ∃ q', <[i := r']> (requests s) !! j = Some q' ∧ rid q' = rid q ∧
    closed q' = closed q ∧ (fresh q → fresh q')) as Hch.
  { intros j q Hj. destruct (decide (i = j)) as [<-|Hij].
    - exists r'. rewrite list_lookup_insert_eq by (by eapply lookup_lt_Some). by simplify_eq.
    - exists q. by rewrite list_lookup_insert_ne. }
  split; cbn.
  - intros id j Hj. destruct (Hw _ _ Hj) as (q & Hq & Hqid & Hqf & Hqc).
    destruct (Hch _ _ Hq) as (q' & Hq' & ? & ? & ?). exists q'. split_and!; try congruence. auto.
  - intros k j n Hk. destruct (Hi _ _ _ Hk) as (q & Hq & Hn & Hqf & Hne).
    destruct (Hch _ _ Hq) as (q' & Hq' & Hid' & ? & ?). exists q'. rewrite Hid'. auto.
  - exact Ho.
  - intros j q Hj. destruct (decide (i = j)) as [<-|Hij].
    + rewrite list_lookup_insert_eq in Hj by (by eapply lookup_lt_Some). injection Hj as <-. split; [done|].
      rewrite Hid, Hbuf. intros x [Hx|Hx]; [|by apply Hans]. apply (proj2 (Hr _ _ Hri)). by left.
    + rewrite list_lookup_insert_ne in Hj by done. by apply (Hr j).
Qed.

(** No one else holds the channel of request [i]. *)
Definition detached (i : nat) (s : reqState) : Prop :=
  (∀ id, waiters s !! id ≠ Some i) ∧ ∀ k n, inflight s !! k ≠ Some (i, n).

Lemma wf_update s i r r' :
  wf s → requests s !! i = Some r → detached i s →
  (closed r' = true → abandoned (rphase r')) →
  (∀ x, buf r' = Some x ∨ rphase r' = Answered x → repliesTo (rid r') x) →
  wf (setRequest i r' s).
Proof.
  intros [Hw Hi Ho Hr] Hri [Hdw Hdi] Hcl Hrep.
  assert (∀ j, j ≠ i → <[i := r']> (requests s) !! j = requests s !! j) as Hoth
    by (intros j Hj; by apply list_lookup_insert_ne).
  split; cbn.
  - intros id j Hj. rewrite Hoth; [by apply Hw|]. intros ->. by apply (Hdw id).
  - intros k j n Hk. rewrite Hoth; [by apply (Hi k)|]. intros ->. by apply (Hdi k n).
  - exact Ho.
  - intros j q Hj. destruct (decide (j = i)) as [->|Hne]; [|rewrite Hoth in Hj by done; by apply (Hr j)].
    rewrite list_lookup_insert_eq in Hj by (by eapply lookup_lt_Some). by injection Hj as <-.
Qed.

(** The position before one was deleted. *)
Definition undelete (k j : nat) : nat := if decide (j < k)%nat then j else S j.

Lemma undelete_inj k j j' : undelete k j = undelete k j' → j = j'.
Proof. unfold undelete. repeat case_decide; lia. Qed.
Lemma undelete_ne k j : undelete k j ≠ k.
Proof. unfold undelete. case_decide; lia. Qed.
Lemma lookup_undelete {A} (l : list A) k j : delete k l !! j = l !! undelete k j.
Proof.
  unfold undelete. case_decide; [by apply list_lookup_delete_lt|]. apply list_lookup_delete_ge. lia.
Qed.

Lemma wf_drop s k : wf s → wf (mkReq (waiters s) (requests s) (delete k (inflight s))).
Proof.
  intros [Hw Hi Ho Hr]. split; cbn; [done| | |done].
  - intros j i n. rewrite lookup_undelete. apply Hi.
  - intros j j' i n n'. rewrite !lookup_undelete. intros H1 H2.
    by apply (undelete_inj k), (Ho _ _ i n n').
Qed.

(** Once an answer is on its way no other one is. *)
Lemma inflight_detached s k i n :
  wf s → inflight s !! k = Some (i, n) →
  detached i (mkReq (waiters s) (requests s) (delete k (inflight s))).
Proof.
  intros [Hw Hi Ho Hr] Hk. destruct (Hi _ _ _ Hk) as (r & Hri & _ & _ & Hne). split; cbn.
  - intros id Hid. destruct (Hw _ _ Hid) as (q & Hq & <- & _). by simplify_eq.
  - intros j n'. rewrite lookup_undelete. intros Hj. by apply (undelete_ne k j), (Ho _ _ i n' n).
Qed.

Lemma wf_new s id : wf s → wf (waitResponse id s).
Proof.
  intros [Hw Hi Ho Hr]. set (new := mkRequest id Sending None false).
  assert (∀ j q, requests s !! j = Some q → (requests s ++ [new])%list !! j = Some q) as Hold
    by (intros; by apply lookup_app_l_Some).
  split; cbn.
  - intros id' j. destruct (decide (id = id')) as [<-|Hne].
    + rewrite lookup_insert_eq. intros [= <-]. exists new. rewrite lookup_app_r, Nat.sub_diag by done.
      by split_and!; [done..|split|].
    + rewrite lookup_insert_ne by done. intros Hj. destruct (Hw _ _ Hj) as (q & Hq & ?). exists q. auto.
  - intros k j n Hk. destruct (Hi _ _ _ Hk) as (q & Hq & ? & ? & Hne). exists q. split_and!; [auto..|].
    destruct (decide (id = rid q)) as [->|?]; [|by rewrite lookup_insert_ne].
    rewrite lookup_insert_eq. intros [= <-]. apply lookup_lt_Some in Hq. lia.
  - exact Ho.
  - intros j q [Hj|[_ Hj]]%lookup_app_Some; [by apply (Hr j)|].
    apply list_lookup_singleton_Some in Hj as [_ <-]. split; [done|]. by intros x [|].
Qed.

Lemma wf_take s n : wf s → wf (receiveTake n s).
Proof.
  intros Hwf. pose proof Hwf as [Hw Hi Ho Hr]. unfold receiveTake.
  destruct (lookupAttr "id" (Attrs n)) as [[]|] eqn:Hid; try done. case_decide; [|done].
  destruct (waiters s !! s0) as [i|] eqn:Hwi; [|done].
  destruct (Hw _ _ Hwi) as (r & Hri & Hrid & Hf & Hcl).
  assert (∀ k i' n', inflight s !! k = Some (i', n') → i' ≠ i) as Hnew.
  { intros k i' n' Hk ->. destruct (Hi _ _ _ Hk) as (q & Hq & _ & _ & Hne). by simplify_eq. }
  split; cbn.
  - intros id j [Hne Hj]%lookup_delete_Some. by apply Hw.
  - intros k j m [Hk|[_ Hk]]%lookup_app_Some.
    + destruct (Hi _ _ _ Hk) as (q & Hq & ? & ? & Hne). exists q. split_and!; try done.
      intros [_ Hj]%lookup_delete_Some. done.
    + apply list_lookup_singleton_Some in Hk as [_ [= <- <-]]. exists r. split_and!; try done.
      * unfold idOf. by rewrite Hid, Hrid.
      * rewrite Hrid, lookup_delete_eq. done.
  - intros k k' j m m' [Hk|[Hl Hk]]%lookup_app_Some [Hk'|[Hl' Hk']]%lookup_app_Some.
    + by eapply Ho.
    + apply list_lookup_singleton_Some in Hk' as [_ [= <- <-]]. by destruct (Hnew _ _ _ Hk).
    + apply list_lookup_singleton_Some in Hk as [_ [= <- <-]]. by destruct (Hnew _ _ _ Hk').
    + apply list_lookup_singleton_Some in Hk as [? _], Hk' as [? _]. lia.
  - exact Hr.
Qed.

Lemma wf_open s i r : wf s → requests s !! i = Some r → closed r = true → abandoned (rphase r).
Proof. intros Hwf Hri. apply (wf_requests s Hwf _ _ Hri). Qed.

(** Cancelling a request that was not cancelled closes its channel and panics in no case. *)
Lemma cancel_works s i r p :
  wf s → requests s !! i = Some r → ¬ abandoned (rphase r) → ∃ s', cancelResponse i (setPhase p r) s = Ok s'.
Proof.
  intros Hwf Hri Hp. unfold cancelResponse, chanClose. cbn. destruct (closed r) eqn:Hc; [|by eexists].
  by destruct (Hp (wf_open _ _ _ Hwf Hri Hc)).
Qed.

Lemma wf_cancel s i r p s' :
  wf s → requests s !! i = Some r → abandoned p → cancelResponse i (setPhase p r) s = Ok s' → wf s'.
Proof.
  intros [Hw Hi Ho Hr] Hri Hph. unfold cancelResponse, chanClose. cbn.
  destruct (closed r) eqn:Hcl; [done|]. intros [= <-].
  assert (∀ j q, requests s !! j = Some q → ∃ q', <[i := mkRequest (rid r) p (buf r) true]> (requests s) !! j = Some q' ∧
    rid q' = rid q ∧ (fresh q → fresh q') ∧ (j ≠ i → q' = q)) as Hch.
  { intros j q Hj. destruct (decide (j = i)) as [->|Hij].
    - exists (mkRequest (rid r) p (buf r) true). rewrite list_lookup_insert_eq by (by eapply lookup_lt_Some).
      simplify_eq. split_and!; [done..| |done]. intros [Hb _]. split; [done|]. intros x. by destruct Hph as [->| ->].
    - exists q. by rewrite list_lookup_insert_ne. }
  split; cbn.
  - intros id j [Hne Hj]%lookup_delete_Some. destruct (Hw _ _ Hj) as (q & Hq & Hqid & Hf & Hc).
    destruct (Hch _ _ Hq) as (q' & Hq' & Hid' & Hf' & He).
    assert (j ≠ i) as Hji by (intros ->; congruence). rewrite (He Hji) in *. by exists q.
  - intros k j n Hk. destruct (Hi _ _ _ Hk) as (q & Hq & Hn & Hf & Hne).
    destruct (Hch _ _ Hq) as (q' & Hq' & Hid' & Hf' & He). exists q'. rewrite Hid'. split_and!; auto.
    intros [_ Hj]%lookup_delete_Some. done.
  - exact Ho.
  - intros j q Hj. destruct (decide (j = i)) as [->|Hij].
    + rewrite list_lookup_insert_eq in Hj by (by eapply lookup_lt_Some). injection Hj as <-. cbn. split; [done|].
      intros x [Hx|Hx]; [|by destruct Hph; congruence]. apply (proj2 (Hr _ _ Hri)). by left.
    + rewrite list_lookup_insert_ne in Hj by done. by apply (Hr j).
Qed.

(** The loop of [clearResponseWaiters] over channels that nobody else holds. *)
Lemma wf_clearLoop x ids : ∀ s,
  isDisconnectNode x = true → wf s → NoDup ids →
  (∀ i, i ∈ ids → detached i s ∧ ∃ r, requests s !! i = Some r ∧ buf r = None ∧ closed r = false ∧
     ∀ y, rphase r ≠ Answered y) →
  ∃ rs, clearLoop x ids (requests s) = Ok rs ∧ wf (mkReq (waiters s) rs (inflight s)).
Proof.
  induction ids as [|i ids IH]; intros s Hx Hwf Hnd Hall.
  { exists (requests s). split; [done|]. by destruct s. }
  apply NoDup_cons in Hnd as [Hi Hnd].
  destruct (Hall i) as (Hd & r & Hr & Hb & Hc & Hp); [by left|].
  cbn [clearLoop]. rewrite Hr. unfold chanSend. rewrite Hc, Hb. cbn.
  set (r' := mkRequest _ _ _ _).
  assert (wf (setRequest i r' s)) as Hwf'.
  { eapply wf_update; [done..|done| ]. cbn. intros y [[= <-]|Hy]; [by left|]. by destruct (Hp y). }
  destruct (IH (setRequest i r' s) Hx Hwf' Hnd) as (rs & Hrs & Hwf''); [|by exists rs].
  intros j Hj. destruct (Hall j) as (Hdj & q & Hq & Hrest); [by right|]. split; [done|].
  exists q. cbn. rewrite list_lookup_insert_ne by (by intros ->). done.
Qed.

Lemma wf_clear s x : wf s → isDisconnectNode x = true → ∃ s', clearResponseWaiters x s = Ok s' ∧ wf s'.
Proof.
  intros Hwf Hx. pose proof Hwf as [Hw Hi Ho Hr]. unfold clearResponseWaiters.
  set (s0 := mkReq ∅ (requests s) (inflight s)).
  assert (wf s0) as Hwf0.
  { split; cbn; [by intros id i; rewrite lookup_empty| |done..].
    intros k i n Hk. destruct (Hi _ _ _ Hk) as (r & ? & ? & ? & _). exists r. by rewrite lookup_empty. }
  destruct (wf_clearLoop x (snd <$> map_to_list (waiters s)) s0 Hx Hwf0) as (rs & Hrs & Hwf').
  - apply NoDup_fmap_2_strong; [|apply NoDup_map_to_list].
    intros [id i] [id' i'] Hin%elem_of_map_to_list Hin'%elem_of_map_to_list Heq. cbn in Heq. subst i'.
    destruct (Hw _ _ Hin) as (r & ? & ? & _), (Hw _ _ Hin') as (r' & ? & ? & _). congruence.
  - intros i ([id i'] & -> & Hin%elem_of_map_to_list)%list_elem_of_fmap. cbn.
    destruct (Hw _ _ Hin) as (r & Hri & Hid & [Hb Hp] & Hc). split; [|by exists r].
    split; cbn; [by intros; rewrite lookup_empty|]. intros k n Hk.
    destruct (Hi _ _ _ Hk) as (q & Hq & _ & _ & Hne). by simplify_eq.
  - cbn in Hrs. rewrite Hrs. cbn. by eexists.
Qed.

Lemma wf_deliver s k i n r r' :
  wf s → inflight s !! k = Some (i, n) → requests s !! i = Some r → chanSend (Reply n) r = Ok (Some r') →
  wf (mkReq (waiters s) (<[i := r']> (requests s)) (delete k (inflight s))).
Proof.
  intros Hwf Hk Hri Hs. pose proof (wf_inflight s Hwf _ _ _ Hk) as (q & Hq & Hn & [Hb Hp] & _). simplify_eq.
  unfold chanSend in Hs. destruct (closed r) eqn:Hc; [done|]. rewrite Hb in Hs. injection Hs as <-.
  apply (wf_update (mkReq (waiters s) (requests s) (delete k (inflight s))) i r); cbn.
  - by apply wf_drop.
  - done.
  - by eapply inflight_detached.
  - done.
  - intros x [[= <-]|Hx]; [right; by exists n|]. by destruct (Hp x).
Qed.

Lemma wf_await s i r x :
  wf s → requests s !! i = Some r → rphase r = Waiting → buf r = Some x →
  wf (setRequest i (mkRequest (rid r) (Answered x) None (closed r)) s).
Proof.
  intros Hwf Hri Hp Hb. pose proof Hwf as [Hw Hi Ho Hr]. destruct (Hr _ _ Hri) as [Hf Hrep].
  eapply wf_update; [done|done| | |]; cbn.
  - split.
    + intros id Hid. destruct (Hw _ _ Hid) as (q & Hq & _ & [Hqb _] & _). simplify_eq.
    + intros k n Hk. destruct (Hi _ _ _ Hk) as (q & Hq & _ & [Hqb _] & _). simplify_eq.
  - intros Hc. destruct (Hf Hc); congruence.
  - intros y [|[= <-]]; [done|]. apply Hrep. by left.
Qed.

Lemma wf_step l s s' : wf s → runStep l s = Some (Ok s') → wf s'.
Proof.
  intros Hwf. destruct l as [id|i|i|n|k|k|x|i|i|i]; cbn [runStep].
  - intros [= <-]. by apply wf_new.
  - destruct (requests s !! i) as [r|] eqn:Hr; [|done]. cbn. destruct (rphase r) eqn:Hp; try done. intros [= <-].
    eapply wf_setRequest; try done; cbn; [by intros [? ?]; split|].
    intros Hc. by destruct (wf_open s i r Hwf Hr Hc); congruence.
  - destruct (requests s !! i) as [r|] eqn:Hr; [|done]. cbn. destruct (rphase r) eqn:Hp; try done. intros [= Hs].
    eapply wf_cancel; [done..| |done]. by left.
  - intros [= <-]. by apply wf_take.
  - destruct (inflight s !! k) as [[i n]|] eqn:Hk; [|done]. cbn.
    destruct (requests s !! i) as [r|] eqn:Hr; [|done]. cbn.
    destruct (chanSend (Reply n) r) as [[r'|]|[]| |] eqn:Hs; try done. intros [= <-]. by eapply wf_deliver.
  - intros [= <-]. by apply wf_drop.
  - destruct (isDisconnectNode x) eqn:Hx; [|done]. destruct (wf_clear s x Hwf Hx) as (s1 & -> & ?). by intros [= <-].
  - destruct (requests s !! i) as [r|] eqn:Hr; [|done]. cbn. destruct (rphase r) eqn:Hp; try done.
    destruct (buf r) as [x|] eqn:Hb; [|by destruct (closed r)]. intros [= <-]. by apply wf_await.
  - destruct (requests s !! i) as [r|] eqn:Hr; [|done]. cbn. destruct (rphase r) eqn:Hp; try done. intros [= <-].
    eapply wf_setRequest; try done; cbn; [by intros [? ?]; split|].
    intros Hc. by destruct (wf_open s i r Hwf Hr Hc); congruence.
  - destruct (requests s !! i) as [r|] eqn:Hr; [|done]. cbn. destruct (rphase r) eqn:Hp; try done. intros [= Hs].
    eapply wf_cancel; [done..| |done]. by right.
Qed.

Lemma reachable_wf s : reachable s → wf s.
Proof. induction 1; [apply wf_init|by eapply wf_step]. Qed.

(** C14: whatever the interleaving of the goroutines that send, receive, give up,
    cancel and handle disconnections, every answer that reaches a request is a
    disconnection or carries the id of the request; a request that has been answered
    is held by no one else, so no request is ever answered twice; handing over an
    answer never blocks the receiver; a disconnection finds room in every waiting
    channel; a request whose sending failed, or that waited for a message's answer
    too long, is cancelled without a panic; and the only step that can panic is
    handing an answer that was taken from the table to a request that was cancelled
    since. *)
Theorem requests_safe (s : reqState) :
  reachable s →
  (∀ i r x, requests s !! i = Some r → buf r = Some x ∨ rphase r = Answered x →
     repliesTo (rid r) x ∧ detached i s) ∧
  (∀ k, is_Some (inflight s !! k) → is_Some (runStep (Deliver k) s)) ∧
  (∀ x, isDisconnectNode x = true → ∃ s', runStep (Clear x) s = Some (Ok s')) ∧
  (∀ i r, requests s !! i = Some r →
     (rphase r = Sending → ∃ s', runStep (SendFails i) s = Some (Ok s')) ∧
     (rphase r = Waiting → ∃ s', runStep (CancelWait i) s = Some (Ok s'))) ∧
  (∀ l, runStep l s = Some Panic → ∃ k i n r, l = Deliver k ∧ inflight s !! k = Some (i, n) ∧
     requests s !! i = Some r ∧ abandoned (rphase r)).
Proof.
  intros Hwf%reachable_wf. pose proof Hwf as [Hw Hi Ho Hr].
  assert (∀ i r p, requests s !! i = Some r → rphase r = Sending ∨ rphase r = Waiting →
    ∃ s', cancelResponse i (setPhase p r) s = Ok s') as Hcan.
  { intros i r p Hri Hp. apply cancel_works; [done..|]. by destruct Hp as [-> | ->]; intros []. }
  split_and!.
  - intros i r x Hri Hx. split; [by apply (Hr _ _ Hri)|]. split.
    + intros id Hid. destruct (Hw _ _ Hid) as (q & Hq & _ & [Hb Hp] & _). simplify_eq.
      destruct Hx as [Hx|Hx]; [congruence|by apply (Hp x)].
    + intros k n Hk. destruct (Hi _ _ _ Hk) as (q & Hq & _ & [Hb Hp] & _). simplify_eq.
      destruct Hx as [Hx|Hx]; [congruence|by apply (Hp x)].
  - intros k [[i n] Hk]. destruct (Hi _ _ _ Hk) as (r & Hri & _ & [Hb _] & _).
    cbn [runStep]. rewrite Hk. cbn. rewrite Hri. cbn. unfold chanSend. rewrite Hb. destruct (closed r); by eexists.
  - intros x Hx. destruct (wf_clear s x Hwf Hx) as (s' & Hs & _). exists s'. cbn. by rewrite Hx, Hs.
  - intros i r Hri. split; intros Hp; cbn [runStep]; rewrite Hri; cbn; rewrite Hp.
    + destruct (Hcan i r Failed Hri) as [s' ->]; [by left|by exists s'].
    + destruct (Hcan i r Cancelled Hri) as [s' ->]; [by right|by exists s'].
  - intros l Hl. destruct l as [id|i|i|n|k|k|x|i|i|i]; cbn [runStep] in Hl; try done.
    + destruct (requests s !! i) as [r|] eqn:Hri; [|done]. cbn in Hl. by destruct (rphase r).
    + destruct (requests s !! i) as [r|] eqn:Hri; [|done]. cbn in Hl. destruct (rphase r) eqn:Hp; try done.
      destruct (Hcan i r Failed Hri) as [s' Hs]; [by left|]. by rewrite Hs in Hl.
    + destruct (inflight s !! k) as [[i n]|] eqn:Hk; [|done]. cbn in Hl.
      destruct (Hi _ _ _ Hk) as (r & Hri & _ & [Hb _] & _). rewrite Hri in Hl. cbn in Hl.
      unfold chanSend in Hl. rewrite Hb in Hl. destruct (closed r) eqn:Hc; [|done].
      exists k, i, n, r. split_and!; try done. by apply (Hr _ _ Hri).
    + destruct (isDisconnectNode x) eqn:Hx; [|done]. destruct (wf_clear s x Hwf Hx) as (s1 & Hs & _). by rewrite Hs in Hl.
    + destruct (requests s !! i) as [r|] eqn:Hri; [|done]. cbn in Hl. destruct (rphase r) eqn:Hp; try done.
      destruct (buf r); [done|]. destruct (closed r) eqn:Hc; [|done]. destruct (wf_open _ _ _ Hwf Hri Hc); congruence.
    + destruct (requests s !! i) as [r|] eqn:Hri; [|done]. cbn in Hl. by destruct (rphase r).
    + destruct (requests s !! i) as [r|] eqn:Hri; [|done]. cbn in Hl. destruct (rphase r) eqn:Hp; try done.
      destruct (Hcan i r Cancelled Hri) as [s' Hs]; [by right|]. by rewrite Hs in Hl.
Qed.

Fixpoint runSteps (ls : list label) (s : reqState) : option reqState :=
  match ls with
  | [] => Some s
  | l :: ls => match runStep l s with Some (Ok s') => runSteps ls s' | _ => None end
  end.

Lemma reachable_runs ls : ∀ s s', reachable s → runSteps ls s = Some s' → reachable s'.
Proof.
  induction ls as [|l ls IH]; intros s s' Hs Hr; cbn in Hr; [by simplify_eq|].
  destruct (runStep l s) as [[s1| | |]|] eqn:Hl; try done. eapply IH; [|done]. by eapply reach_step.
Qed.

Definition answerTo (id : string) : node := mkNode "iq" [("id", VString id); ("type", VString "result")] VNil.
Definition answeredState : reqState :=
  mkReq ∅ [mkRequest "1" Waiting (Some (Reply (answerTo "1"))) false; mkRequest "2" Waiting None false]
    [(1, answerTo "2")].

Lemma requests_safe_witness :
  (∀ i r x, requests answeredState !! i = Some r → buf r = Some x ∨ rphase r = Answered x →
     repliesTo (rid r) x ∧ detached i answeredState) ∧
  (∀ k, is_Some (inflight answeredState !! k) → is_Some (runStep (Deliver k) answeredState)) ∧
  (∀ x, isDisconnectNode x = true → ∃ s', runStep (Clear x) answeredState = Some (Ok s')) ∧
  (∀ i r, requests answeredState !! i = Some r →
     (rphase r = Sending → ∃ s', runStep (SendFails i) answeredState = Some (Ok s')) ∧
     (rphase r = Waiting → ∃ s', runStep (CancelWait i) answeredState = Some (Ok s'))) ∧
  (∀ l, runStep l answeredState = Some Panic → ∃ k i n r, l = Deliver k ∧ inflight answeredState !! k = Some (i, n) ∧
     requests answeredState !! i = Some r ∧ abandoned (rphase r)).
Proof.
  apply (requests_safe answeredState).
  refine (reachable_runs [NewRequest "1"; SendWorks 0; NewRequest "2"; SendWorks 1; Take (answerTo "1"); Deliver 0;
    Take (answerTo "2")] initReq answeredState reach_init _).
  vm_compute. reflexivity.
Defined.

(** The race is real, in two ways. A request is registered, its answer arrives and
    is taken from the table, and then the request is cancelled: because its sending
    is reported to have failed, as happens when its context ends while the frame is
    being written, or because the message waited for its answer until its deadline.
    The channel is closed and handing over the answer panics. *)
Definition lateFailure : list label := [NewRequest "1"; Take (answerTo "1"); SendFails 0].
Definition lateAnswer : list label := [NewRequest "1"; SendWorks 0; Take (answerTo "1"); CancelWait 0].

Theorem answer_after_cancel_panics (ls : list label) :
  ls ∈ [lateFailure; lateAnswer] →
  ∃ s, reachable s ∧ runSteps ls initReq = Some s ∧ runStep (Deliver 0) s = Some Panic.
Proof.
  intros [->|[->|[]%elem_of_nil]%elem_of_cons]%elem_of_cons;
    (eexists; split_and!; [|reflexivity|reflexivity]).
  - refine (reachable_runs lateFailure initReq _ reach_init eq_refl).
  - refine (reachable_runs lateAnswer initReq _ reach_init eq_refl).
Qed.

(** ** What [sendIQ] returns *)

(** [sendIQ] returns a node without an error only if it is an info query result
    and was received: as the first answer, or as the answer to the one retry after
    a disconnection that did not look like an authentication error. With retries
    turned off, nothing of the second attempt matters. *)
Theorem sendIQ_result (w : iqWorld) (noRetry : bool) (n : node) :
  (sendIQ_ w noRetry = Ok n →
   Tag n = "iq" ∧ stringAttr "type" n = "result" ∧ firstSend w = true ∧
   (firstWait w = Got (Reply n) ∨
    ∃ d, firstWait w = Got d ∧ isDisconnectNode d = true ∧ isAuthErrorDisconnect d = false ∧ noRetry = false ∧
      reconnected w = true ∧ secondSend w = true ∧ secondWait w = Got (Reply n))) ∧
  (∀ w', firstSend w' = firstSend w → firstWait w' = firstWait w → sendIQ_ w' true = sendIQ_ w true).
Proof.
  assert (∀ r, classify r = Ok n → r = Reply n ∧ Tag n = "iq" ∧ stringAttr "type" n = "result") as Hc.
  { intros [|m]; [done|]. cbn. repeat case_decide; try done. intros [= ->]. split; [done|].
    split; destruct (decide (Tag n = "iq")), (decide (stringAttr "type" n = "result")); tauto. }
  split.
  - unfold sendIQ_. destruct (firstSend w) eqn:Hs; [|done]. cbn [negb].
    destruct (firstWait w) as [d| |] eqn:Hw; try done. intros (r & Hr & (-> & Ht & Hty)%Hc)%outcome_bind_Ok.
    split_and!; try done. destruct (isDisconnectNode d) eqn:Hd; [|left; congruence]. right. exists d.
    destruct noRetry; [done|]. unfold retryFrame in Hr. destruct (isAuthErrorDisconnect d); [done|].
    destruct (reconnected w), (hasSocket w), (secondSend w), (secondWait w) as [r| |] eqn:H2; try done.
    cbn in Hr. destruct (isDisconnectNode r); [done|]. injection Hr as ->. by split_and!.
  - intros w' Hs Hw. unfold sendIQ_. by rewrite Hs, Hw.
Qed.
