(* ===== verification/Encoder.v ===== *)
(** The binary XML encoder (src/binary/encoder.go and [Marshal] of
    src/binary/node.go).  The encoder's buffer is the list of bytes written so
    far and every method appends to it; a Go panic is [Panic].  [int] is the
    64-bit type. *)
From Stdlib Require Import ZArith Lia.
From Stdlib Require Import Strings.Byte.
From stdpp Require Import prelude strings list.
From S2P Require Import Prelude Strconv Tokens Jid Node.

(** ** Pushing bytes *)

(** [w.data] of a [binaryEncoder]. *)
Abbreviation encoder := (list byte).
Abbreviation writer := (encoder → outcome Empty_set encoder).

Definition newEncoder : encoder := [x00].

Definition pushByte (b : Z) (w : encoder) : encoder := w ++ [z2b b].
Definition pushBytes (bytes : list byte) (w : encoder) : encoder := w ++ bytes.

Definition pushIntN (value : Z) (n : nat) (littleEndian : bool) (w : encoder) : encoder :=
  foldl (λ w (i : nat),
           let curShift := if littleEndian then i else (n - i - 1)%nat in
           pushByte (Z.land (Z.shiftr value (Z.of_nat curShift * 8)) 255) w)
        w (seq 0 n).

Definition pushInt20 (value : Z) (w : encoder) : encoder :=
  pushBytes [z2b (Z.land (Z.shiftr value 16) 15); z2b (Z.land (Z.shiftr value 8) 255);
             z2b (Z.land value 255)] w.
Definition pushInt8 (value : Z) (w : encoder) : encoder := pushIntN value 1 false w.
Definition pushInt16 (value : Z) (w : encoder) : encoder := pushIntN value 2 false w.
Definition pushInt32 (value : Z) (w : encoder) : encoder := pushIntN value 4 false w.
Definition pushString (value : string) (w : encoder) : encoder := pushBytes (s2b value) w.

Definition writeByteLength (length : Z) : writer := λ w,
  if (length <? 256)%Z then Ok (pushInt8 length (pushByte Binary8 w))
  else if (length <? 2 ^ 20)%Z then Ok (pushInt20 length (pushByte Binary20 w))
  else if (length <? 2 ^ 31 - 1)%Z then Ok (pushInt32 length (pushByte Binary32 w))
  else Panic.

Definition writeListStart (listSize : Z) (w : encoder) : encoder :=
  if (listSize =? 0)%Z then pushByte ListEmpty w
  else if (listSize <? 256)%Z then pushInt8 listSize (pushByte List8 w)
  else pushInt16 listSize (pushByte List16 w).

Definition writeBytes (value : list byte) : writer := λ w,
  w ← writeByteLength (Z.of_nat (length value)) w;
  Ok (pushBytes value w).

Definition writeStringRaw (value : string) : writer := λ w,
  w ← writeByteLength (slen value) w;
  Ok (pushString value w).

(** ** Packed strings *)

(** Ranging over the runes of a string and over its bytes gives the same
    verdict: both validators refuse every rune that is not one ASCII byte. *)
Definition nibbleChar (c : byte) : bool :=
  is_digit c || bool_decide (c = x2d) || bool_decide (c = x2e).
Definition validateNibble (value : string) : bool :=
  if (PackedMax <? slen value)%Z then false else forallb nibbleChar (s2b value).

Definition hexLetter (c : byte) : bool := (65 <=? b2z c)%Z && (b2z c <=? 70)%Z.
Definition validateHex (value : string) : bool :=
  if (PackedMax <? slen value)%Z then false
  else forallb (λ c, is_digit c || hexLetter c) (s2b value).

Definition packNibble (value : byte) : outcome Empty_set Z :=
  if decide (value = x2d) then Ok 10%Z
  else if decide (value = x2e) then Ok 11%Z
  else if decide (value = x00) then Ok 15%Z
  else if is_digit value then Ok (b2z value - 48)%Z
  else Panic.

Definition packHex (value : byte) : outcome Empty_set Z :=
  if is_digit value then Ok (b2z value - 48)%Z
  else if hexLetter value then Ok (10 + b2z value - 65)%Z
  else if decide (value = x00) then Ok 15%Z
  else Panic.

Definition packBytePair (packer : byte → outcome Empty_set Z) (part1 part2 : byte)
  : outcome Empty_set Z :=
  p1 ← packer part1;
  p2 ← packer part2;
  Ok (Z.lor (u8 (Z.shiftl p1 4)) p2).

(** The two loops of [writePackedBytes]: the pairs of characters in order,
    then the last character with a NUL when the length is odd. *)
Fixpoint packPairs (packer : byte → outcome Empty_set Z) (value : list byte) : writer := λ w,
  match value with
  | [] => Ok w
  | [c] => p ← packBytePair packer c x00; Ok (pushByte p w)
  | c :: d :: rest => p ← packBytePair packer c d; packPairs packer rest (pushByte p w)
  end.

Definition writePackedBytes (value : string) (dataType : Z) : writer := λ w,
  if (PackedMax <? slen value)%Z then Panic
  else
    let w := pushByte dataType w in
    let roundedLength := u8 ((slen value + 1) / 2) in
    let roundedLength :=
      if decide (slen value `mod` 2 ≠ 0)%Z then Z.lor roundedLength 128 else roundedLength in
    let w := pushByte roundedLength w in
    if decide (dataType = Nibble8) then packPairs packNibble (s2b value) w
    else if decide (dataType = Hex8) then packPairs packHex (s2b value) w
    else Panic.

Definition writeString (data : string) : writer := λ w,
  match IndexOfSingleToken data with
  | Some tokenIndex => Ok (pushByte (b2z tokenIndex) w)
  | None =>
      match IndexOfDoubleByteToken data with
      | Some (dictIndex, tokenIndex) =>
          Ok (pushByte (b2z tokenIndex) (pushByte (u8 (Dictionary0 + b2z dictIndex)) w))
      | None =>
          if validateNibble data then writePackedBytes data Nibble8 w
          else if validateHex data then writePackedBytes data Hex8 w
          else writeStringRaw data w
      end
  end.

(** ** JIDs *)

Definition writeJID (jid : JID) : writer := λ w,
  if bool_decide (((Server jid = DefaultUserServer ∨ Server jid = HiddenUserServer)
                   ∧ 0 < Device jid)%Z
                  ∨ Server jid = HostedServer ∨ Server jid = HostedLIDServer)
  then
    let w := pushByte ADJID w in
    let w := pushByte (ActualAgent jid) w in
    let w := pushByte (u8 (Device jid)) w in
    writeString (User jid) w
  else if decide (Server jid = MessengerServer) then
    let w := pushByte FBJID w in
    w ← writeString (User jid) w;
    let w := pushInt16 (Device jid) w in
    writeString (Server jid) w
  else if decide (Server jid = InteropServer) then
    let w := pushByte InteropJID w in
    w ← writeString (User jid) w;
    let w := pushInt16 (Device jid) w in
    let w := pushInt16 (Integrator jid) w in
    writeString (Server jid) w
  else
    let w := pushByte JIDPair w in
    w ← (if decide (slen (User jid) = 0)%Z then Ok (pushByte ListEmpty w)
         else writeString (User jid) w);
    writeString (Server jid) w.

(** ** Nodes *)

(** The attribute is skipped: [val == "" || val == nil]. *)
Definition skipAttr (val : value) : bool :=
  match val with VNil => true | VString s => bool_decide (s = "") | _ => false end.

Fixpoint countAttributes (attributes : list (string * value)) : nat :=
  match attributes with
  | [] => 0
  | (_, val) :: rest => if skipAttr val then countAttributes rest else S (countAttributes rest)
  end.

Definition writeAttributes (write : value → writer) : list (string * value) → writer :=
  fix go attributes w :=
    match attributes with
    | [] => Ok w
    | (key, val) :: rest =>
        if skipAttr val then go rest w
        else w ← writeString key w; w ← write val w; go rest w
    end.

Definition writeNodeList (writeNode : node → writer) : list node → writer :=
  fix go nodes w :=
    match nodes with
    | [] => Ok w
    | n :: rest => w ← writeNode n w; go rest w
    end.

Definition tagSize : Z := 1.

Fixpoint write (data : value) : writer := λ w,
  match data with
  | VNil => Ok (pushByte ListEmpty w)
  | VJID j => writeJID j w
  | VString s => writeString s w
  | VInt z => writeString (Itoa z) w
  | VInt32 z => writeString (FormatInt z) w
  | VUint z => writeString (FormatUint z) w
  | VUint32 z => writeString (FormatUint z) w
  | VInt64 z => writeString (FormatInt z) w
  | VUint64 z => writeString (FormatUint z) w
  | VBool b => writeString (FormatBool b) w
  | VBytes l => writeBytes l w
  | VNodes ns => writeNodeList writeNode ns (writeListStart (Z.of_nat (length ns)) w)
  | VOther _ => Panic
  end
with writeNode (n : node) : writer := λ w,
  match n with
  | mkNode tag attrs content =>
      if decide (tag = "0") then Ok (pushByte ListEmpty (pushByte List8 w))
      else
        let hasContent := match content with VNil => 0%Z | _ => 1%Z end in
        let w := writeListStart (2 * Z.of_nat (countAttributes attrs) + tagSize + hasContent) w in
        w ← writeString tag w;
        w ← writeAttributes write attrs w;
        match content with VNil => Ok w | _ => write content w end
  end.

Definition Marshal (n : node) : outcome Empty_set (list byte) := writeNode n newEncoder.
