(* ===== verification/Decoder.v ===== *)
(** The binary XML decoder (src/binary/decoder.go, [Unmarshal] of
    src/binary/node.go and [Unpack] of src/binary/unpack.go).  A method takes
    the decoder and returns its result with the decoder afterwards.

    [read], [readList], [readNode] and the JID readers call each other; here
    each of them takes the functions it calls as arguments, as [rd] (for
    [read]) and [rn] (for [readNode]), and [readFuel]/[readNodeFuel] tie the
    knot on a fuel argument.  [Unmarshal] runs them with more fuel than the
    input has bytes, which Codec.v proves to be always enough. *)
From Stdlib Require Import ZArith Lia.
From Stdlib Require Import Strings.Byte.
From stdpp Require Import prelude strings list.
From S2P Require Import Prelude Strconv Tokens Jid Node.

(** ** Errors and state *)

Inductive decodeError :=
| EOF
| ErrOddFlagWithoutData
| ErrUnknownPackTag (tag : Z)
| ErrUnpackNibble (v : Z)
| ErrUnpackHex (v : Z)
| ErrListSizeTag (tag : Z) (position : Z)
| ErrDoubleToken (index1 index2 : Z)
| ErrInvalidToken (tag : Z) (position : Z)
| ErrInvalidJIDType
| ErrNonStringKey (position : Z)
| ErrInvalidNode
| ErrLeftoverBytes (n : Z).
#[global] Instance decodeError_eq_dec : EqDecision decodeError.
Proof. solve_decision. Defined.

Record binaryDecoder := { data : list byte; index : nat }.
Definition newDecoder (d : list byte) : binaryDecoder := {| data := d; index := 0 |}.
Definition advance (n : nat) (r : binaryDecoder) : binaryDecoder :=
  {| data := data r; index := index r + n |}.

(** A reading method. *)
Abbreviation reader A := (binaryDecoder → outcome decodeError (A * binaryDecoder)).

(** ** Bytes and integers *)

Definition checkEOS (len : Z) (r : binaryDecoder) : outcome decodeError unit :=
  if (Z.of_nat (length (data r)) <? Z.of_nat (index r) + len)%Z then Err EOF else Ok tt.

Definition readByte : reader byte := λ r,
  _ ← checkEOS 1 r;
  match data r !! index r with
  | Some b => Ok (b, advance 1 r)
  | None => Panic
  end.

Definition readIntN (n : nat) (littleEndian : bool) : reader Z := λ r,
  _ ← checkEOS (Z.of_nat n) r;
  ret ← foldl (λ ret (i : nat),
                 acc ← ret;
                 match data r !! (index r + i) with
                 | Some b =>
                     let curShift := if littleEndian then i else (n - i - 1)%nat in
                     Ok (Z.lor acc (Z.shiftl (b2z b) (Z.of_nat curShift * 8)))
                 | None => Panic
                 end)
              (Ok 0%Z) (seq 0 n);
  Ok (ret, advance n r).

Definition readInt8 (littleEndian : bool) : reader Z := readIntN 1 littleEndian.
Definition readInt16 (littleEndian : bool) : reader Z := readIntN 2 littleEndian.
Definition readInt32 (littleEndian : bool) : reader Z := readIntN 4 littleEndian.

Definition readInt20 : reader Z := λ r,
  _ ← checkEOS 3 r;
  match data r !! index r, data r !! (index r + 1), data r !! (index r + 2) with
  | Some b0, Some b1, Some b2 =>
      Ok (Z.shiftl (Z.land (b2z b0) 15) 16 + Z.shiftl (b2z b1) 8 + b2z b2, advance 3 r)%Z
  | _, _, _ => Panic
  end.

Definition readRaw (len : Z) : reader (list byte) := λ r,
  _ ← checkEOS len r;
  if (len <? 0)%Z then Panic (* slice bounds out of range *)
  else Ok (take (Z.to_nat len) (drop (index r) (data r)), advance (Z.to_nat len) r).

Definition readBytesOrString (len : Z) (asString : bool) : reader value := λ r,
  '(d, r) ← readRaw len r;
  Ok (if asString then VString (b2s d) else VBytes d, r).

(** ** Packed strings *)

Definition unpackNibble (v : Z) : outcome decodeError byte :=
  if (v <? 10)%Z then Ok (z2b (48 + v))
  else if (v =? 10)%Z then Ok x2d
  else if (v =? 11)%Z then Ok x2e
  else if (v =? 15)%Z then Ok x00
  else Err (ErrUnpackNibble v).

Definition unpackHex (v : Z) : outcome decodeError byte :=
  if (v <? 10)%Z then Ok (z2b (48 + v))
  else if (v <? 16)%Z then Ok (z2b (65 + v - 10))
  else Err (ErrUnpackHex v).

Definition unpackByte (tag v : Z) : outcome decodeError byte :=
  if decide (tag = Nibble8) then unpackNibble v
  else if decide (tag = Hex8) then unpackHex v
  else Err (ErrUnknownPackTag tag).

(** The loop of [readPacked8]; [build] is the string builder. *)
Fixpoint readPackedLoop (n : nat) (tag : Z) (build : list byte) : reader (list byte) := λ r,
  match n with
  | O => Ok (build, r)
  | S n =>
      '(currByte, r) ← readByte r;
      lower ← unpackByte tag (Z.shiftr (Z.land (b2z currByte) 240) 4);
      upper ← unpackByte tag (Z.land (b2z currByte) 15);
      readPackedLoop n tag (build ++ [lower; upper]) r
  end.

Definition readPacked8 (tag : Z) : reader value := λ r,
  '(startByte, r) ← readByte r;
  '(ret, r) ← readPackedLoop (Z.to_nat (Z.land (b2z startByte) 127)) tag [] r;
  if decide (Z.shiftr (b2z startByte) 7 ≠ 0)%Z then
    if decide (length ret = 0) then Err ErrOddFlagWithoutData
    else Ok (VString (b2s (take (length ret - 1) ret)), r)
  else Ok (VString (b2s ret), r).

(** ** Lists and JIDs, over the recursive calls *)

Definition readListSize (tag : Z) : reader Z := λ r,
  if decide (tag = ListEmpty) then Ok (0%Z, r)
  else if decide (tag = List8) then readInt8 false r
  else if decide (tag = List16) then readInt16 false r
  else Err (ErrListSizeTag tag (Z.of_nat (index r))).

Section open_recursion.
(** [r.read(asString)] and [r.readNode()]. *)
Context (rd : bool → reader value) (rn : reader node).

Definition readJIDPair : reader value := λ r,
  '(user, r) ← rd true r;
  '(server, r) ← rd true r;
  match server with
  | VString serverStr =>
      match user with
      | VNil => Ok (VJID (NewJID "" serverStr), r)
      | VString userStr => Ok (VJID (NewJID userStr serverStr), r)
      | _ => Err ErrInvalidJIDType
      end
  | _ => Err ErrInvalidJIDType
  end.

Definition readInteropJID : reader value := λ r,
  '(user, r) ← rd true r;
  '(device, r) ← readInt16 false r;
  '(integrator, r) ← readInt16 false r;
  '(server, r) ← rd true r;
  match server with
  | VString serverStr =>
      if decide (serverStr = InteropServer) then
        match user with
        | VString userStr =>
            Ok (VJID {| User := userStr; RawAgent := 0; Device := u16 device;
                        Integrator := u16 integrator; Server := InteropServer |}, r)
        | _ => Err ErrInvalidJIDType
        end
      else Err ErrInvalidJIDType
  | _ => Err ErrInvalidJIDType
  end.

Definition readFBJID : reader value := λ r,
  '(user, r) ← rd true r;
  '(device, r) ← readInt16 false r;
  '(server, r) ← rd true r;
  match server with
  | VString serverStr =>
      if decide (serverStr = MessengerServer) then
        match user with
        | VString userStr =>
            Ok (VJID {| User := userStr; RawAgent := 0; Device := u16 device;
                        Integrator := 0; Server := MessengerServer |}, r)
        | _ => Err ErrInvalidJIDType
        end
      else Err ErrInvalidJIDType
  | _ => Err ErrInvalidJIDType
  end.

Definition readADJID : reader value := λ r,
  '(agent, r) ← readByte r;
  '(device, r) ← readByte r;
  '(user, r) ← rd true r;
  match user with
  | VString userStr => Ok (VJID (NewADJID userStr (b2z agent) (b2z device)), r)
  | _ => Err ErrInvalidJIDType
  end.

(** [ret[key] = val]: a repeated key keeps its place with the last value. *)
Fixpoint setAttr (key : string) (val : value) (attrs : list (string * value))
  : list (string * value) :=
  match attrs with
  | [] => [(key, val)]
  | (k, v) :: rest =>
      if decide (k = key) then (key, val) :: rest else (k, v) :: setAttr key val rest
  end.

Fixpoint readAttributesLoop (n : nat) (ret : list (string * value))
  : reader (list (string * value)) := λ r,
  match n with
  | O => Ok (ret, r)
  | S n =>
      '(keyIfc, r) ← rd true r;
      match keyIfc with
      | VString key =>
          '(val, r) ← rd true r;
          readAttributesLoop n (setAttr key val ret) r
      | _ => Err (ErrNonStringKey (Z.of_nat (index r)))
      end
  end.

Definition readAttributes (n : Z) : reader (list (string * value)) := λ r,
  if decide (n = 0)%Z then Ok ([], r) else readAttributesLoop (Z.to_nat n) [] r.

Fixpoint readListLoop (n : nat) (ret : list node) : reader (list node) := λ r,
  match n with
  | O => Ok (ret, r)
  | S n => '(child, r) ← rn r; readListLoop n (ret ++ [child]) r
  end.

Definition readList (tag : Z) : reader value := λ r,
  '(size, r) ← readListSize tag r;
  '(ret, r) ← readListLoop (Z.to_nat size) [] r;
  Ok (VNodes ret, r).

Definition readNode_ : reader node := λ r,
  '(size, r) ← readInt8 false r;
  '(listSize, r) ← readListSize size r;
  '(rawDesc, r) ← rd true r;
  match rawDesc with
  | VString tag =>
      if bool_decide (listSize = 0%Z ∨ tag = "") then Err ErrInvalidNode
      else
        '(attrs, r) ← readAttributes (Z.shiftr (listSize - 1) 1) r;
        if decide (listSize `mod` 2 = 1)%Z then Ok (mkNode tag attrs VNil, r)
        else
          '(content, r) ← rd false r;
          Ok (mkNode tag attrs content, r)
  | _ => Err ErrInvalidNode
  end.

(** The switch of [read] on the tag byte. *)
Definition readSwitch (string_ : bool) (tagByte : byte) : reader value := λ r,
  let tag := b2z tagByte in
  if decide (tag = ListEmpty) then Ok (VNil, r)
  else if decide (tag = List8 ∨ tag = List16) then readList tag r
  else if decide (tag = Binary8) then
    '(size, r) ← readInt8 false r; readBytesOrString size string_ r
  else if decide (tag = Binary20) then
    '(size, r) ← readInt20 r; readBytesOrString size string_ r
  else if decide (tag = Binary32) then
    '(size, r) ← readInt32 false r; readBytesOrString size string_ r
  else if decide (tag = Dictionary0 ∨ tag = Dictionary1 ∨ tag = Dictionary2
                  ∨ tag = Dictionary3) then
    '(i, r) ← readInt8 false r;
    match GetDoubleToken (tag - Dictionary0) i with
    | Some s => Ok (VString s, r)
    | None => Err (ErrDoubleToken (tag - Dictionary0) i)
    end
  else if decide (tag = FBJID) then readFBJID r
  else if decide (tag = InteropJID) then readInteropJID r
  else if decide (tag = JIDPair) then readJIDPair r
  else if decide (tag = ADJID) then readADJID r
  else if decide (tag = Nibble8 ∨ tag = Hex8) then readPacked8 tag r
  else
    match SingleByteTokens !! Z.to_nat tag with
    | Some s => Ok (VString s, r)
    | None => Err (ErrInvalidToken tag (Z.of_nat (index r)))
    end.

Definition read_ (string_ : bool) : reader value := λ r,
  '(tagByte, r) ← readByte r; readSwitch string_ tagByte r.
End open_recursion.

(** ** The recursion *)

Fixpoint readFuel (fuel : nat) (string_ : bool) : reader value := λ r,
  match fuel with
  | O => OutOfFuel
  | S fuel => read_ (readFuel fuel) (readNode_ (readFuel fuel)) string_ r
  end.
Definition readNodeFuel (fuel : nat) : reader node := readNode_ (readFuel fuel).

Definition Unmarshal (d : list byte) : outcome decodeError node :=
  '(n, r) ← readNodeFuel (S (length d)) (newDecoder d);
  if decide (index r ≠ length (data r))
  then Err (ErrLeftoverBytes (Z.of_nat (length (data r)) - Z.of_nat (index r)))
  else Ok n.

(** ** Unpacking *)

Inductive unpackError := ErrUnexpectedEOF | ErrZlib.

Section unpack.
(** zlib decompression of the whole input, [None] when it fails. *)
Context (inflate : list byte → option (list byte)).

Definition Unpack (d : list byte) : outcome unpackError (list byte) :=
  match d with
  | [] => Err ErrUnexpectedEOF
  | dataType :: d =>
      if (0 <? Z.land 2 (b2z dataType))%Z then
        match inflate d with
        | Some out => Ok out
        | None => Err ErrZlib
        end
      else Ok d
  end.
End unpack.
