(* ===== verification/CodecBase.v ===== *)
(** Reasoning about the encoder and the decoder together: [emits] says what
    a writer appends, [parses] what a reader makes of bytes, and the lemmas
    compose them method by method up to strings and JIDs. *)
From Stdlib Require Import ZArith Lia.
From Stdlib Require Import Strings.Byte.
From stdpp Require Import prelude strings list.
From S2P Require Import Prelude Strconv Tokens Jid Node Encoder Decoder.

(** ** Emitting and parsing *)

Definition emits (w : writer) (bytes : list byte) : Prop :=
  ∀ buf, w buf = Ok (buf ++ bytes).

(** The decoder that has read [pre] and has [rest] before it. *)
Definition at_ (pre rest : list byte) : binaryDecoder :=
  {| data := pre ++ rest; index := length pre |}.

Definition parses {A} (f : reader A) (bytes : list byte) (a : A) : Prop :=
  ∀ pre rest, f (at_ pre (bytes ++ rest)) = Ok (a, at_ (pre ++ bytes) rest).

Lemma emits_bind (w : writer) (k : list byte → outcome Empty_set (list byte)) b1 b2 :
  emits w b1 → emits k b2 → emits (λ buf, buf ← w buf; k buf) (b1 ++ b2).
Proof. intros H1 H2 buf. rewrite H1. cbn. rewrite H2. by rewrite (assoc (++)). Qed.

Lemma parses_bind {A B} (f : reader A) (g : A → reader B) b1 b2 a b :
  parses f b1 a → parses (g a) b2 b →
  parses (λ r, '(x, r) ← f r; g x r) (b1 ++ b2) b.
Proof.
  intros H1 H2 pre rest. rewrite <- (assoc (++)), H1. cbn.
  rewrite H2. by rewrite (assoc (++)).
Qed.

Lemma parses_ret {A} (f : reader A) (a : A) :
  (∀ r, f r = Ok (a, r)) → parses f [] a.
Proof. intros H pre rest. by rewrite H, app_nil_r. Qed.

Lemma parses_ext {A} (f g : reader A) bytes a :
  (∀ r, f r = g r) → parses g bytes a → parses f bytes a.
Proof. intros H Hg pre rest. by rewrite H. Qed.

(** ** Bytes and integers *)

Lemma at_lookup pre l i : data (at_ pre l) !! (index (at_ pre l) + i) = l !! i.
Proof. cbn. rewrite lookup_app_r by lia. f_equal. lia. Qed.

Lemma checkEOS_at pre l (n : Z) :
  (0 ≤ n ≤ Z.of_nat (length l))%Z → checkEOS n (at_ pre l) = Ok tt.
Proof.
  intros Hn. unfold checkEOS. cbn [data index at_]. rewrite length_app.
  rewrite (proj2 (Z.ltb_ge _ _)) by lia. done.
Qed.

Lemma advance_at pre bytes rest :
  advance (length bytes) (at_ pre (bytes ++ rest)) = at_ (pre ++ bytes) rest.
Proof. unfold advance, at_; cbn. by rewrite length_app, (assoc (++)). Qed.

Lemma readByte_parses b : parses readByte [b] b.
Proof.
  intros pre rest. unfold readByte. rewrite checkEOS_at by (cbn; lia). cbn [mbind outcome_bind].
  replace (index (at_ pre ([b] ++ rest))) with (index (at_ pre ([b] ++ rest)) + 0) at 1 by lia.
  rewrite at_lookup. cbn [app lookup list_lookup]. by rewrite <- (advance_at pre [b] rest).
Qed.

Lemma z2b_land255 z : z2b (Z.land z 255) = z2b z.
Proof.
  apply b2z_inj. rewrite !b2z_z2b. change 255%Z with (Z.ones 8).
  rewrite Z.land_ones by lia. by rewrite Z.mod_mod.
Qed.

Lemma lor_disjoint q y m :
  (0 ≤ m → 0 ≤ y < 2 ^ m → Z.lor (q * 2 ^ m) y = q * 2 ^ m + y)%Z.
Proof.
  intros Hm Hy. rewrite <- Z.shiftl_mul_pow2 by lia.
  assert (Z.land (Z.shiftl q m) y = 0)%Z as H0.
  { apply Z.bits_inj'. intros i Hi. rewrite Z.land_spec, Z.bits_0.
    destruct (decide (i < m)%Z).
    - by rewrite Z.shiftl_spec_low.
    - destruct (decide (y = 0%Z)) as [->|]; [by rewrite Z.bits_0, andb_false_r|].
      rewrite (Z.bits_above_log2 y i), andb_false_r; [done|lia|].
      apply Z.log2_lt_pow2; [lia|]. apply Z.lt_le_trans with (2 ^ m)%Z; [lia|].
      apply Z.pow_le_mono_r; lia. }
  rewrite <- Z.lxor_lor by done. by rewrite <- Z.add_nocarry_lxor.
Qed.

(** [pushIntN] in big-endian order, at the three widths in use. *)
Lemma pushInt8_be v w : pushInt8 v w = w ++ be_bytes 1 v.
Proof. cbn. unfold pushByte. by rewrite z2b_land255. Qed.

Lemma pushInt16_be v w : pushInt16 v w = w ++ be_bytes 2 v.
Proof. cbn. unfold pushByte. by rewrite !z2b_land255, <- (assoc (++)). Qed.

Lemma pushInt32_be v w : pushInt32 v w = w ++ be_bytes 4 v.
Proof. cbn. unfold pushByte. by rewrite !z2b_land255, <- !(assoc (++)). Qed.

Lemma readInt8_parses b : parses (readInt8 false) [b] (b2z b).
Proof.
  intros pre rest. unfold readInt8, readIntN. rewrite checkEOS_at by (cbn; lia).
  cbn [mbind outcome_bind foldl seq]. rewrite at_lookup. cbn [app lookup list_lookup].
  rewrite Z.shiftl_0_r, Z.lor_0_l. by rewrite <- (advance_at pre [b] rest).
Qed.

Lemma shiftl_lor_step acc b k :
  (0 ≤ k → 0 ≤ b < 256 → Z.lor (Z.shiftl acc (k + 8)) (Z.shiftl b k) =
   Z.shiftl (acc * 256 + b) k)%Z.
Proof.
  intros Hk Hb. rewrite !Z.shiftl_mul_pow2 by lia.
  rewrite (Z.add_comm k 8), Z.pow_add_r by lia. change (2 ^ 8)%Z with 256%Z.
  rewrite Z.mul_assoc, <- !Z.shiftl_mul_pow2, <- Z.shiftl_lor by lia.
  change 256%Z with (2 ^ 8)%Z. by rewrite lor_disjoint by lia.
Qed.

Lemma readInt16_parses b0 b1 : parses (readInt16 false) [b0; b1] (be_value [b0; b1]).
Proof.
  intros pre rest. unfold readInt16, readIntN. rewrite checkEOS_at by (cbn; lia).
  cbn [mbind outcome_bind foldl seq]. rewrite !at_lookup. cbn [app lookup list_lookup].
  cbn -[Z.lor Z.shiftl at_ advance b2z be_value]. rewrite Z.lor_0_l.
  pose proof (b2z_range b0). pose proof (b2z_range b1).
  change (Z.of_nat 1 * 8)%Z with (0 + 8)%Z. change (Z.of_nat 0 * 8)%Z with 0%Z.
  rewrite shiftl_lor_step, Z.shiftl_0_r by lia.
  by rewrite <- (advance_at pre [b0; b1] rest).
Qed.

Lemma readInt32_parses b0 b1 b2 b3 :
  parses (readInt32 false) [b0; b1; b2; b3] (be_value [b0; b1; b2; b3]).
Proof.
  intros pre rest. unfold readInt32, readIntN. rewrite checkEOS_at by (cbn; lia).
  cbn [mbind outcome_bind foldl seq]. rewrite !at_lookup. cbn [app lookup list_lookup].
  cbn -[Z.lor Z.shiftl at_ advance b2z be_value]. rewrite Z.lor_0_l.
  pose proof (b2z_range b0). pose proof (b2z_range b1).
  pose proof (b2z_range b2). pose proof (b2z_range b3).
  change (Z.of_nat 3 * 8)%Z with (16 + 8)%Z. change (Z.of_nat 2 * 8)%Z with (8 + 8)%Z.
  change (Z.of_nat 1 * 8)%Z with (0 + 8)%Z. change (Z.of_nat 0 * 8)%Z with 0%Z.
  change (8 + 8)%Z with 16%Z at 1. rewrite shiftl_lor_step by lia.
  change 16%Z with (8 + 8)%Z. rewrite shiftl_lor_step by lia.
  change 8%Z with (0 + 8)%Z at 1. rewrite shiftl_lor_step, Z.shiftl_0_r by lia.
  by rewrite <- (advance_at pre [b0; b1; b2; b3] rest).
Qed.

(** Reading back what a push wrote gives the value at the width. *)
Lemma readInt8_be v : parses (readInt8 false) (be_bytes 1 v) (v `mod` 2 ^ 8)%Z.
Proof.
  cbn [be_bytes]. rewrite Z.shiftr_0_r. change (2 ^ 8)%Z with 256%Z. rewrite <- b2z_z2b.
  apply readInt8_parses.
Qed.

Lemma readInt16_be v : parses (readInt16 false) (be_bytes 2 v) (v `mod` 2 ^ 16)%Z.
Proof.
  rewrite <- (be_value_be_bytes 2 v : _ = (v `mod` 2 ^ 16)%Z). apply readInt16_parses.
Qed.

Lemma readInt32_be v : parses (readInt32 false) (be_bytes 4 v) (v `mod` 2 ^ 32)%Z.
Proof.
  rewrite <- (be_value_be_bytes 4 v : _ = (v `mod` 2 ^ 32)%Z). apply readInt32_parses.
Qed.

Lemma readRaw_parses bytes : parses (readRaw (Z.of_nat (length bytes))) bytes bytes.
Proof.
  intros pre rest. unfold readRaw. rewrite checkEOS_at by (rewrite length_app; lia).
  cbn [mbind outcome_bind]. rewrite (proj2 (Z.ltb_ge _ _)) by lia.
  rewrite Nat2Z.id, advance_at. unfold at_; cbn [data index].
  by rewrite drop_app_length, take_app_length.
Qed.

Lemma readBytesOrString_parses bytes s :
  parses (readBytesOrString (Z.of_nat (length bytes)) s) bytes
         (if s then VString (b2s bytes) else VBytes bytes).
Proof.
  rewrite <- (app_nil_r bytes) at 2.
  eapply (parses_bind (readRaw _)); [apply readRaw_parses|]. by apply parses_ret.
Qed.

Lemma readInt20_parses v :
  (0 ≤ v < 2 ^ 20)%Z →
  parses readInt20 [z2b (Z.land (Z.shiftr v 16) 15); z2b (Z.land (Z.shiftr v 8) 255);
                    z2b (Z.land v 255)] v.
Proof.
  intros Hv pre rest. unfold readInt20. rewrite checkEOS_at by (cbn; lia).
  cbn [mbind outcome_bind].
  replace (index (at_ pre _)) with (index (at_ pre
    ([z2b (Z.land (Z.shiftr v 16) 15); z2b (Z.land (Z.shiftr v 8) 255); z2b (Z.land v 255)]
     ++ rest)) + 0) at 1 by lia.
  rewrite !at_lookup. cbn [app lookup list_lookup]. rewrite !z2b_land255.
  f_equal. f_equal; [|by rewrite <- (advance_at pre [_; _; _] rest)].
  rewrite !b2z_z2b, !Z.shiftl_mul_pow2, !Z.shiftr_div_pow2 by lia.
  change 15%Z with (Z.ones 4). rewrite !Z.land_ones by lia.
  change (2 ^ 16)%Z with 65536%Z. change (2 ^ 8)%Z with 256%Z. change (2 ^ 4)%Z with 16%Z.
  change (2 ^ 20)%Z with 1048576%Z in Hv.
  pose proof (Z.div_lt_upper_bound v 65536 16 ltac:(lia) ltac:(lia)).
  pose proof (Z.div_pos v 65536 ltac:(lia) ltac:(lia)).
  rewrite !(Z.mod_small (v / 65536)) by (rewrite ?Z.mod_small; lia).
  pose proof (Z.div_mod v 256 ltac:(lia)).
  replace (v / 65536)%Z with (v / 256 / 256)%Z in * by (by rewrite Z.div_div by lia).
  pose proof (Z.div_mod (v / 256) 256 ltac:(lia)). lia.
Qed.

(** ** Reading a tagged item *)

(** The tag selects the branch of [read]. *)
Lemma read_tag rd rn s t (f : reader value) bytes v :
  (∀ pre rest, read_ rd rn s (at_ pre (t :: bytes ++ rest)) = f (at_ (pre ++ [t]) (bytes ++ rest))) →
  parses f bytes v → parses (read_ rd rn s) (t :: bytes) v.
Proof.
  intros H Hf pre rest. cbn [app]. rewrite H, Hf. by rewrite <- (assoc (++)).
Qed.

Lemma readByte_at pre t rest :
  readByte (at_ pre (t :: rest)) = Ok (t, at_ (pre ++ [t]) rest).
Proof. apply (readByte_parses t pre rest). Qed.

(** Close the side condition of [read_tag] for a literal tag. *)
Ltac tag_branch := intros ? ?; unfold read_; rewrite readByte_at; reflexivity.

Lemma writeByteLength_emits (len : Z) :
  (0 ≤ len < 2 ^ 31 - 1)%Z →
  ∃ hdr, emits (writeByteLength len) hdr ∧ hdr ≠ [] ∧
    ∀ rd rn (s : bool) bytes, Z.of_nat (length bytes) = len →
      parses (read_ rd rn s) (hdr ++ bytes) (if s then VString (b2s bytes) else VBytes bytes).
Proof.
  intros Hlen. unfold writeByteLength, emits.
  destruct (Z.ltb_spec len 256); [|destruct (Z.ltb_spec len (2 ^ 20))].
  - exists (z2b Binary8 :: be_bytes 1 len). split_and!; [|done|].
    { intros buf. rewrite pushInt8_be. unfold pushByte. by rewrite <- (assoc (++)). }
    intros rd rn s bytes <-. cbn [app].
    eapply (read_tag _ _ _ _ (λ r, '(size, r) ← readInt8 false r; readBytesOrString size s r));
      [tag_branch|].
    eapply parses_bind; [apply readInt8_be|]. rewrite Z.mod_small by lia.
    apply readBytesOrString_parses.
  - eexists (z2b Binary20 :: [_; _; _]). split_and!; [|done|].
    { intros buf. unfold pushInt20, pushByte, pushBytes. by rewrite <- (assoc (++)). }
    intros rd rn s bytes <-. cbn [app].
    eapply (read_tag _ _ _ _ (λ r, '(size, r) ← readInt20 r; readBytesOrString size s r));
      [tag_branch|].
    eapply (parses_bind _ _ [_; _; _] bytes); [apply readInt20_parses; lia|].
    apply readBytesOrString_parses.
  - destruct (Z.ltb_spec len (2 ^ 31 - 1)); [|lia].
    exists (z2b Binary32 :: be_bytes 4 len). split_and!; [|done|].
    { intros buf. rewrite pushInt32_be. unfold pushByte. by rewrite <- (assoc (++)). }
    intros rd rn s bytes <-. cbn [app].
    eapply (read_tag _ _ _ _ (λ r, '(size, r) ← readInt32 false r; readBytesOrString size s r));
      [tag_branch|].
    eapply parses_bind; [apply readInt32_be|]. rewrite Z.mod_small by lia.
    apply readBytesOrString_parses.
Qed.

(** ** Packed strings *)

Lemma pair_byte p1 p2 :
  (0 ≤ p1 < 16)%Z → (0 ≤ p2 < 16)%Z →
  let b := z2b (Z.lor (u8 (Z.shiftl p1 4)) p2) in
  Z.shiftr (Z.land (b2z b) 240) 4 = p1 ∧ Z.land (b2z b) 15 = p2.
Proof.
  intros H1 H2.
  assert (forallb (λ x, forallb (λ y,
    let b := z2b (Z.lor (u8 (Z.shiftl (Z.of_nat x) 4)) (Z.of_nat y)) in
    (Z.shiftr (Z.land (b2z b) 240) 4 =? Z.of_nat x)%Z && (Z.land (b2z b) 15 =? Z.of_nat y)%Z)
    (seq 0 16)) (seq 0 16) = true) as Hall by (vm_compute; reflexivity).
  rewrite forallb_forall in Hall. specialize (Hall (Z.to_nat p1) ltac:(apply in_seq; lia)).
  rewrite forallb_forall in Hall. specialize (Hall (Z.to_nat p2) ltac:(apply in_seq; lia)).
  cbn zeta in Hall. rewrite !Z2Nat.id in Hall by lia.
  apply andb_true_iff in Hall as [?%Z.eqb_eq ?%Z.eqb_eq]. done.
Qed.

(** What the packed format needs of a packer, for the characters [valid]
    accepts. *)
Class PackInverse (packer : byte → outcome Empty_set Z) (tag : Z) (valid : byte → bool) := {
  pack_valid c : valid c = true →
    ∃ p, packer c = Ok p ∧ (0 ≤ p < 16)%Z ∧ unpackByte tag p = Ok c;
  pack_pad : ∃ p d, packer x00 = Ok p ∧ (0 ≤ p < 16)%Z ∧ unpackByte tag p = Ok d;
}.

#[export] Instance nibble_inverse : PackInverse packNibble Nibble8 nibbleChar.
Proof.
  split; [|exists 15%Z, x00; repeat split; done].
  intros c Hc.
  destruct c; try discriminate Hc; (eexists; split; [reflexivity|]; split; [vm_compute; split; congruence|reflexivity]).
Qed.

#[export] Instance hex_inverse : PackInverse packHex Hex8 (λ c, is_digit c || hexLetter c).
Proof.
  split; [|exists 15%Z, x46; repeat split; done].
  intros c Hc.
  destruct c; try discriminate Hc; (eexists; split; [reflexivity|]; split; [vm_compute; split; congruence|reflexivity]).
Qed.

Lemma list_pair_ind {A} (P : list A → Prop) :
  P [] → (∀ x, P [x]) → (∀ x y l, P l → P (x :: y :: l)) → ∀ l, P l.
Proof.
  intros H0 H1 H2. fix IH 1. intros [|x [|y l]]; [done|done|]. apply H2, IH.
Qed.

Section packed.
Context {packer : byte → outcome Empty_set Z} {tag : Z} {valid : byte → bool}.
Context `{!PackInverse packer tag valid}.

Lemma packBytePair_ok c d p q :
  packer c = Ok p → packer d = Ok q → packBytePair packer c d = Ok (Z.lor (u8 (Z.shiftl p 4)) q).
Proof. intros Hp Hq. unfold packBytePair. by rewrite Hp, Hq. Qed.

(** One step of the decoding loop on the byte of a pair. *)
Lemma readPackedLoop_step n p q c d build bytes res :
  (0 ≤ p < 16)%Z → (0 ≤ q < 16)%Z → unpackByte tag p = Ok c → unpackByte tag q = Ok d →
  parses (readPackedLoop n tag (build ++ [c; d])) bytes res →
  parses (readPackedLoop (S n) tag build) (z2b (Z.lor (u8 (Z.shiftl p 4)) q) :: bytes) res.
Proof.
  intros Hp Hq Hc Hd Hrest pre rest. cbn [readPackedLoop app]. rewrite readByte_at.
  cbn [mbind outcome_bind]. destruct (pair_byte p q Hp Hq) as [-> ->].
  rewrite Hc. cbn [mbind outcome_bind]. rewrite Hd. cbn [mbind outcome_bind].
  rewrite Hrest. by rewrite <- (assoc (++)).
Qed.

Lemma packPairs_emits l :
  forallb valid l = true →
  ∃ bytes pad, emits (packPairs packer l) bytes ∧
    length bytes = ((length l + 1) / 2)%nat ∧ length pad = (length l mod 2)%nat ∧
    ∀ build, parses (readPackedLoop (length bytes) tag build) bytes (build ++ l ++ pad).
Proof.
  induction l as [|c|c d l IH] using list_pair_ind; intros Hl.
  - exists [], []. split_and!; try done; [intros buf; cbn; by rewrite app_nil_r|].
    intros build. rewrite !app_nil_r. by apply parses_ret.
  - cbn in Hl. rewrite andb_true_r in Hl. destruct (pack_valid c Hl) as (p & Hp & Hr & Hu).
    destruct pack_pad as (q & d & Hq & Hr' & Hu').
    eexists [_], [d]. split_and!; try done.
    + intros buf. cbn [packPairs]. rewrite (packBytePair_ok _ _ _ _ Hp Hq). done.
    + intros build. eapply readPackedLoop_step; eauto. by apply parses_ret.
  - cbn in Hl. apply andb_true_iff in Hl as [Hc [Hd Hl]%andb_true_iff].
    destruct (IH Hl) as (bytes & pad & He & Hlen & Hpad & Hparse).
    destruct (pack_valid c Hc) as (p & Hp & Hr & Hu).
    destruct (pack_valid d Hd) as (q & Hq & Hr' & Hu').
    eexists (_ :: bytes), pad. split_and!.
    + intros buf. cbn [packPairs]. rewrite (packBytePair_ok _ _ _ _ Hp Hq).
      cbn [mbind outcome_bind]. rewrite He. unfold pushByte. by rewrite <- (assoc (++)).
    + cbn [length]. rewrite Hlen. replace (S (S (length l)) + 1)%nat with (length l + 1 + 1 * 2)%nat by lia.
      rewrite Nat.div_add by lia. lia.
    + rewrite Hpad. cbn [length]. replace (S (S (length l))) with (length l + 1 * 2)%nat by lia.
      by rewrite Nat.Div0.mod_add.
    + intros build. eapply readPackedLoop_step; eauto. cbn [app].
      replace (build ++ c :: d :: l ++ pad) with ((build ++ [c; d]) ++ l ++ pad)
        by (by rewrite <- (assoc (++))).
      apply Hparse.
Qed.
End packed.

(** The length byte of a packed string. *)
Definition packed_start (n : Z) : Z :=
  let r := u8 ((n + 1) / 2) in if decide (n `mod` 2 ≠ 0)%Z then Z.lor r 128 else r.

Lemma packed_start_ok n :
  (0 ≤ n ≤ 127)%Z →
  Z.land (b2z (z2b (packed_start n))) 127 = ((n + 1) / 2)%Z ∧
  (Z.shiftr (b2z (z2b (packed_start n))) 7 ≠ 0 ↔ n `mod` 2 = 1)%Z.
Proof.
  intros Hn.
  assert (forallb (λ k,
    let n := Z.of_nat k in let b := b2z (z2b (packed_start n)) in
    (Z.land b 127 =? (n + 1) / 2)%Z &&
    Bool.eqb (negb (Z.shiftr b 7 =? 0)%Z) (n `mod` 2 =? 1)%Z) (seq 0 128) = true) as Hall
    by (vm_compute; reflexivity).
  rewrite forallb_forall in Hall. specialize (Hall (Z.to_nat n) ltac:(apply in_seq; lia)).
  cbn zeta in Hall. rewrite Z2Nat.id in Hall by lia.
  apply andb_true_iff in Hall as [?%Z.eqb_eq H%eqb_prop]. split; [done|].
  destruct (Z.eqb_spec (Z.shiftr (b2z (z2b (packed_start n))) 7) 0),
    (Z.eqb_spec (n `mod` 2) 1); naive_solver.
Qed.

Lemma readPacked8_parses tag s bytes pad :
  (slen s ≤ 127)%Z →
  length bytes = ((String.length s + 1) / 2)%nat →
  length pad = (String.length s mod 2)%nat →
  (∀ build, parses (readPackedLoop (length bytes) tag build) bytes (build ++ s2b s ++ pad)) →
  parses (readPacked8 tag) (z2b (packed_start (slen s)) :: bytes) (VString s).
Proof.
  intros Hs Hb Hpad Hloop. pose proof (packed_start_ok (slen s)) as [Hl Ho];
    [unfold slen in *; lia|].
  intros pre rest. unfold readPacked8. cbn [app]. rewrite readByte_at. cbn [mbind outcome_bind].
  rewrite Hl. replace (Z.to_nat ((slen s + 1) / 2)) with (length bytes).
  2: { rewrite Hb. unfold slen. rewrite <- (Nat2Z.id ((String.length s + 1) / 2)).
       f_equal. rewrite Nat2Z.inj_div. f_equal. lia. }
  rewrite Hloop. cbn [mbind outcome_bind app].
  rewrite (cons_middle _ pre bytes), (assoc (++)).
  assert (slen s `mod` 2 = Z.of_nat (length pad))%Z as Hmod
    by (rewrite Hpad, Nat2Z.inj_mod; done).
  destruct pad as [|p [|? ?]]; cbn in Hmod.
  - rewrite decide_False by (rewrite Ho; lia). by rewrite app_nil_r, b2s_s2b.
  - rewrite decide_True by (rewrite Ho; lia). rewrite length_app. cbn [length].
    rewrite decide_False by lia.
    replace (length (s2b s) + 1 - 1)%nat with (length (s2b s)) by lia.
    by rewrite take_app_length, b2s_s2b.
  - pose proof (Z.mod_pos_bound (slen s) 2). lia.
Qed.

Lemma writePackedBytes_emits packer tag valid `{!PackInverse packer tag valid} s :
  (tag = Nibble8 ∧ packer = packNibble) ∨ (tag = Hex8 ∧ packer = packHex) →
  (slen s ≤ 127)%Z → forallb valid (s2b s) = true →
  ∃ bytes, emits (writePackedBytes s tag) (z2b tag :: bytes) ∧ parses (readPacked8 tag) bytes (VString s).
Proof.
  intros Htag Hs Hv. destruct (packPairs_emits (s2b s) Hv) as (bytes & pad & He & Hlen & Hpad & Hp).
  rewrite length_s2b in Hlen, Hpad.
  exists (z2b (packed_start (slen s)) :: bytes). split; [|by eapply readPacked8_parses].
  intros buf. unfold writePackedBytes. change PackedMax with 127%Z.
  rewrite (proj2 (Z.ltb_ge _ _)) by lia. unfold emits in He.
  destruct Htag as [[-> ->]|[-> ->]];
    [rewrite decide_True by done|rewrite decide_False, decide_True by done];
    rewrite He; unfold pushByte; by rewrite <- !(assoc (++)).
Qed.

(** ** Strings *)

(** The token maps are large: proofs use their lemmas, never their values. *)
#[local] Opaque IndexOfSingleToken IndexOfDoubleByteToken GetDoubleToken SingleByteTokens.

(** The string is written with its bytes, not as a token or packed. *)
Definition raw_string (s : string) : bool :=
  match IndexOfSingleToken s, IndexOfDoubleByteToken s with
  | None, None => negb (validateNibble s) && negb (validateHex s)
  | _, _ => false
  end.

(** What a reader gets for a written string: raw bytes are a string or a
    byte slice depending on what was asked for, the rest is always a string. *)
Definition string_value (asString : bool) (s : string) : value :=
  if negb asString && raw_string s then VBytes (s2b s) else VString s.

Lemma string_value_true s : string_value true s = VString s.
Proof. done. Qed.

(** The longest string the encoder accepts. *)
Definition str_ok (s : string) : bool := (slen s <? 2 ^ 31 - 1)%Z.

Lemma read_single_token rd rn s b t :
  SingleByteTokens !! Z.to_nat (b2z b) = Some t → (1 ≤ b2z b < 236)%Z →
  parses (read_ rd rn s) [b] (VString t).
Proof.
  intros Ht Hb pre rest. unfold read_. cbn [app]. rewrite readByte_at.
  cbn [mbind outcome_bind]. unfold readSwitch. cbv zeta.
  unfold ListEmpty, List8, List16, Binary8, Binary20, Binary32, Dictionary0, Dictionary1,
    Dictionary2, Dictionary3, FBJID, InteropJID, JIDPair, ADJID, Nibble8, Hex8.
  rewrite !decide_False by lia. by rewrite Ht.
Qed.

Lemma read_double_token rd rn s d i t :
  GetDoubleToken (b2z d) (b2z i) = Some t → (0 ≤ b2z d < 4)%Z →
  parses (read_ rd rn s) [z2b (u8 (Dictionary0 + b2z d)); i] (VString t).
Proof.
  intros Ht Hd. unfold Dictionary0. rewrite u8_small by lia.
  intros pre rest. unfold read_. cbn [app]. rewrite readByte_at.
  cbn [mbind outcome_bind]. unfold readSwitch. cbv zeta. rewrite b2z_z2b_small by lia.
  unfold ListEmpty, List8, List16, Binary8, Binary20, Binary32, Dictionary0, Dictionary1,
    Dictionary2, Dictionary3.
  do 5 rewrite decide_False by lia. rewrite decide_True by lia.
  rewrite (readInt8_parses i _ rest : readInt8 false (at_ _ (i :: rest)) = _).
  cbn [mbind outcome_bind]. replace (236 + b2z d - 236)%Z with (b2z d) by lia. rewrite Ht.
  by rewrite <- (assoc (++)).
Qed.

Lemma writeString_emits s :
  str_ok s = true →
  ∃ bytes, emits (writeString s) bytes ∧ bytes ≠ [] ∧
    ∀ rd rn b, parses (read_ rd rn b) bytes (string_value b s).
Proof.
  intros Hs%Z.ltb_lt. unfold writeString, string_value, raw_string, emits.
  destruct (IndexOfSingleToken s) as [b|] eqn:H1.
  { apply IndexOfSingleToken_sound in H1 as [Ht Hb]. exists [b]. split_and!; [|done|].
    - intros buf. unfold pushByte. by rewrite z2b_b2z.
    - intros rd rn asS. rewrite andb_false_r. by apply read_single_token. }
  destruct (IndexOfDoubleByteToken s) as [[d i]|] eqn:H2.
  { apply IndexOfDoubleByteToken_sound in H2 as [Ht Hd].
    eexists [_; i]. split_and!; [|done|].
    - intros buf. unfold pushByte. rewrite z2b_b2z. by rewrite <- (assoc (++)).
    - intros rd rn asS. rewrite andb_false_r. by apply read_double_token. }
  clear H1 H2. destruct (validateNibble s) eqn:H3.
  { unfold validateNibble in H3. case_match eqn:Hl; [done|]. apply Z.ltb_ge in Hl.
    destruct (writePackedBytes_emits packNibble Nibble8 nibbleChar s) as (bytes & He & Hp);
      [by left|exact Hl|exact H3|].
    eexists. split_and!; [exact He|done|]. intros rd rn asS. rewrite andb_false_r.
    eapply read_tag; [|exact Hp]. tag_branch. }
  destruct (validateHex s) eqn:H4.
  { unfold validateHex in H4. case_match eqn:Hl; [done|]. apply Z.ltb_ge in Hl.
    destruct (writePackedBytes_emits packHex Hex8 _ s) as (bytes & He & Hp);
      [by right|exact Hl|exact H4|].
    eexists. split_and!; [exact He|done|]. intros rd rn asS. rewrite andb_false_r.
    eapply read_tag; [|exact Hp]. tag_branch. }
  destruct (writeByteLength_emits (slen s)) as (hdr & He & Hne & Hp); [unfold slen in *; lia|].
  exists (hdr ++ s2b s). split_and!.
  - unfold writeStringRaw. by apply (emits_bind (writeByteLength (slen s)) (λ w, Ok (pushString s w))).
  - destruct hdr; done.
  - intros rd rn asS.
    specialize (Hp rd rn asS (s2b s) ltac:(unfold slen; by rewrite length_s2b)).
    rewrite b2s_s2b in Hp. destruct asS; exact Hp.
Qed.

(** ** JIDs *)

(** What is left of a JID after a trip over the wire. *)
Definition wire_jid (jid : JID) : JID :=
  if bool_decide (((Server jid = DefaultUserServer ∨ Server jid = HiddenUserServer)
                   ∧ 0 < Device jid)%Z
                  ∨ Server jid = HostedServer ∨ Server jid = HostedLIDServer)
  then NewADJID (User jid) (u8 (ActualAgent jid)) (u8 (Device jid))
  else if decide (Server jid = MessengerServer) then
    {| User := User jid; RawAgent := 0; Device := u16 (Device jid); Integrator := 0;
       Server := MessengerServer |}
  else if decide (Server jid = InteropServer) then
    {| User := User jid; RawAgent := 0; Device := u16 (Device jid);
       Integrator := u16 (Integrator jid); Server := InteropServer |}
  else NewJID (User jid) (Server jid).

Definition jid_ok (jid : JID) : bool := str_ok (User jid) && str_ok (Server jid).

Lemma emits_push t (w : writer) bytes :
  emits w bytes → emits (λ buf, w (pushByte t buf)) (z2b t :: bytes).
Proof. intros Hw buf. unfold pushByte. rewrite Hw. by rewrite <- (assoc (++)). Qed.

Lemma emits_push16 v (w : writer) bytes :
  emits w bytes → emits (λ buf, w (pushInt16 v buf)) (be_bytes 2 v ++ bytes).
Proof. intros Hw buf. rewrite pushInt16_be, Hw. by rewrite <- (assoc (++)). Qed.

(** The two reading functions agree with [read] on written strings. *)
Definition reads_strings (rd : bool → reader value) (s : string) (bytes : list byte) : Prop :=
  ∀ b, parses (rd b) bytes (string_value b s).

Lemma readFBJID_parses rd user device ub sb :
  reads_strings rd user ub → reads_strings rd MessengerServer sb →
  parses (readFBJID rd) (ub ++ be_bytes 2 device ++ sb)
    (VJID {| User := user; RawAgent := 0; Device := u16 device; Integrator := 0;
             Server := MessengerServer |}).
Proof.
  intros Hu Hs. rewrite <- (app_nil_r sb). unfold readFBJID.
  eapply parses_bind; [apply (Hu true)|].
  eapply parses_bind; [apply readInt16_be|].
  eapply (parses_bind (rd true)); [apply (Hs true)|].
  apply parses_ret. intros r. rewrite !string_value_true. rewrite decide_True by done.
  unfold u16. by rewrite Z.mod_mod.
Qed.

Lemma readInteropJID_parses rd user device integrator ub sb :
  reads_strings rd user ub → reads_strings rd InteropServer sb →
  parses (readInteropJID rd) (ub ++ be_bytes 2 device ++ be_bytes 2 integrator ++ sb)
    (VJID {| User := user; RawAgent := 0; Device := u16 device;
             Integrator := u16 integrator; Server := InteropServer |}).
Proof.
  intros Hu Hs. rewrite <- (app_nil_r sb). unfold readInteropJID.
  eapply parses_bind; [apply (Hu true)|].
  eapply parses_bind; [apply readInt16_be|].
  eapply parses_bind; [apply readInt16_be|].
  eapply (parses_bind (rd true)); [apply (Hs true)|].
  apply parses_ret. intros r. rewrite !string_value_true. rewrite decide_True by done.
  unfold u16. by rewrite !Z.mod_mod.
Qed.

Lemma readADJID_parses rd user agent device ub :
  reads_strings rd user ub →
  parses (readADJID rd) (agent :: device :: ub) (VJID (NewADJID user (b2z agent) (b2z device))).
Proof.
  intros Hu. rewrite <- (app_nil_r ub). unfold readADJID.
  eapply (parses_bind readByte _ [agent] (device :: ub ++ [])); [apply readByte_parses|].
  eapply (parses_bind readByte _ [device] (ub ++ [])); [apply readByte_parses|].
  eapply (parses_bind (rd true)); [apply (Hu true)|]. by apply parses_ret.
Qed.

Lemma readJIDPair_parses rd user server ub sb :
  parses (rd true) ub (if decide (slen user = 0)%Z then VNil else VString user) →
  reads_strings rd server sb →
  parses (readJIDPair rd) (ub ++ sb) (VJID (NewJID user server)).
Proof.
  intros Hu Hs. rewrite <- (app_nil_r sb). unfold readJIDPair.
  eapply parses_bind; [apply Hu|].
  eapply (parses_bind (rd true)); [apply (Hs true)|]. rewrite string_value_true.
  apply parses_ret. intros r. case_decide as H0; [|done].
  assert (user = "") as ->; [|done]. destruct user; [done|]. unfold slen in H0. cbn in H0. lia.
Qed.
