(* ===== verification/DecoderSafety.v ===== *)
(** The decoder on arbitrary bytes: it never reads out of range (no Go
    panic), it always returns, and it never moves backwards or past the end.
    [safe n f] is the contract of a reading method for decoders with at most
    [n] bytes left; the lemmas build it up along the methods of the decoder. *)
From Stdlib Require Import ZArith Lia.
From Stdlib Require Import Strings.Byte.
From stdpp Require Import prelude strings list.
From S2P Require Import Prelude Strconv Tokens Jid Node Decoder.

#[local] Opaque GetDoubleToken SingleByteTokens.

Definition in_range (r : binaryDecoder) : Prop := index r ≤ length (data r).
Definition left (r : binaryDecoder) : nat := length (data r) - index r.

Definition safe_outcome {A} (r : binaryDecoder) (o : outcome decodeError (A * binaryDecoder)) : Prop :=
  match o with
  | Ok (_, r') => data r' = data r ∧ index r ≤ index r' ∧ in_range r'
  | Err _ => True
  | Panic | OutOfFuel => False
  end.

Definition safe {A} (n : nat) (f : reader A) : Prop :=
  ∀ r, in_range r → left r ≤ n → safe_outcome r (f r).

Lemma safe_err {A} n (f : reader A) e : (∀ r, f r = Err e) → safe n f.
Proof. intros H r ? ?. by rewrite H. Qed.

Lemma safe_ret {A} n (f : reader A) (a : A) : (∀ r, f r = Ok (a, r)) → safe n f.
Proof. intros H r Hr ?. rewrite H. cbn. auto. Qed.

Lemma safe_le {A} n m (f : reader A) : m ≤ n → safe n f → safe m f.
Proof. intros Hle H r Hr Hl. apply H; [done|lia]. Qed.

(** Sequencing, with what is known of the first result. *)
Lemma safe_bind_post {A B} n (f : reader A) (g : A → reader B) (P : A → Prop) :
  safe n f → (∀ r a r', f r = Ok (a, r') → P a) → (∀ a, P a → safe n (g a)) →
  safe n (λ r, '(a, r) ← f r; g a r).
Proof.
  intros Hf HP Hg r Hr Hl. specialize (Hf r Hr Hl). specialize (HP r).
  destruct (f r) as [[a r']| | |]; cbn in *; try done.
  destruct Hf as (Hd & Hi & Hr').
  specialize (Hg a (HP _ _ eq_refl) r' Hr' ltac:(unfold left in *; rewrite Hd; lia)).
  destruct (g a r') as [[b r'']| | |]; cbn in *; try done.
  destruct Hg as (Hd' & Hi' & Hr''). split_and!; [congruence|lia|done].
Qed.

Lemma safe_bind {A B} n (f : reader A) (g : A → reader B) :
  safe n f → (∀ a, safe n (g a)) → safe n (λ r, '(a, r) ← f r; g a r).
Proof. intros. by apply (safe_bind_post n f g (λ _, True)). Qed.

(** A pure computation that returns a value or an error. *)
Definition total {A} (o : outcome decodeError A) : Prop :=
  match o with Panic | OutOfFuel => False | _ => True end.

Lemma safe_pure {A B} n (o : outcome decodeError A) (g : A → reader B) :
  total o → (∀ a, safe n (g a)) → safe n (λ r, a ← o; g a r).
Proof. intros Ho Hg r Hr Hl. destruct o; cbn in *; try done. by apply Hg. Qed.

(** ** Primitive reads *)

Lemma checkEOS_cases len r :
  (0 ≤ len)%Z → in_range r →
  checkEOS len r = Err EOF ∨ (checkEOS len r = Ok tt ∧ index r + Z.to_nat len ≤ length (data r)).
Proof. intros Hl Hr. unfold checkEOS. destruct (Z.ltb_spec (Z.of_nat (length (data r))) (Z.of_nat (index r) + len)%Z); [by left|right]. split; [done|lia]. Qed.

Lemma lookup_in_range r i : i < length (data r) → ∃ b, data r !! i = Some b.
Proof. intros. by apply lookup_lt_is_Some. Qed.

(** Reading the first byte leaves one byte fewer, and fails at the end. *)
Lemma safe_readByte {B} n (g : byte → reader B) :
  (∀ b m, n = S m → safe m (g b)) → safe n (λ r, '(b, r) ← readByte r; g b r).
Proof.
  intros Hg r Hr Hl. unfold readByte.
  destruct (checkEOS_cases 1 r ltac:(lia) Hr) as [->|[-> Hle]]; [done|]. cbn [mbind outcome_bind].
  destruct (lookup_in_range r (index r)) as [b ->]; [lia|]. cbn.
  unfold left in Hl. destruct n as [|m]; [lia|].
  assert (in_range (advance 1 r)) as Hr' by (unfold in_range; cbn; lia).
  assert (left (advance 1 r) ≤ m) as Hl' by (unfold left; cbn; lia).
  specialize (Hg b m eq_refl (advance 1 r) Hr' Hl').
  destruct (g b (advance 1 r)) as [[a r'']| | |]; cbn in *; try done.
  destruct Hg as (? & ? & ?). split_and!; [done|lia|done].
Qed.

Lemma safe_readByte_weak {B} n (g : byte → reader B) :
  (∀ b, safe n (g b)) → safe n (λ r, '(b, r) ← readByte r; g b r).
Proof. intros Hg. apply safe_readByte. intros b m ->. apply (safe_le (S m)); [lia|done]. Qed.

Lemma safe_advance {A} r k (a : A) :
  index r + k ≤ length (data r) → safe_outcome r (Ok (a, advance k r)).
Proof. intros. unfold safe_outcome, in_range; cbn. split_and!; [done|lia|lia]. Qed.

Lemma safe_readIntN n k le : safe n (readIntN k le).
Proof.
  intros r Hr Hl. unfold readIntN.
  destruct (checkEOS_cases (Z.of_nat k) r ltac:(lia) Hr) as [->|[-> Hle]]; [done|].
  cbn [mbind outcome_bind]. rewrite Nat2Z.id in Hle.
  assert (∀ l acc, Forall (λ i, i < k) l → ∃ v,
    foldl (λ ret (i : nat), acc ← ret;
             match data r !! (index r + i) with
             | Some b => let curShift := if le : bool then i else (k - i - 1)%nat in
                         Ok (Z.lor acc (Z.shiftl (b2z b) (Z.of_nat curShift * 8)))
             | None => Panic
             end) (Ok acc) l = Ok (E := decodeError) v) as Hfold.
  { induction l as [|i l IH]; intros acc Hall; cbn; [eauto|].
    apply Forall_cons in Hall as [Hi Hall].
    destruct (lookup_in_range r (index r + i)) as [b ->]; [lia|]. cbn. by apply IH. }
  destruct (Hfold (seq 0 k) 0%Z) as [v Hv].
  { apply Forall_seq. lia. }
  cbn [mbind outcome_bind] in Hv. rewrite Hv. by apply safe_advance.
Qed.

Lemma safe_readInt20 n : safe n readInt20.
Proof.
  intros r Hr Hl. unfold readInt20.
  destruct (checkEOS_cases 3 r ltac:(lia) Hr) as [->|[-> Hle]]; [done|].
  change (Z.to_nat 3) with 3 in Hle. cbn [mbind outcome_bind].
  destruct (lookup_in_range r (index r)) as [? ->]; [lia|].
  destruct (lookup_in_range r (index r + 1)) as [? ->]; [lia|].
  destruct (lookup_in_range r (index r + 2)) as [? ->]; [lia|]. by apply safe_advance.
Qed.

(** ** Lengths that were read are not negative *)

Lemma readIntN_nonneg k le r v r' : readIntN k le r = Ok (v, r') → (0 ≤ v)%Z.
Proof.
  unfold readIntN. intros H. inv_ok.
  match goal with Hf : foldl _ _ _ = Ok v |- _ => revert Hf end.
  assert (0 ≤ 0)%Z as H0 by lia. revert H0. generalize 0%Z at 2 3.
  induction (seq 0 k) as [|i l IH]; intros acc Hacc; cbn [foldl]; [congruence|].
  cbn [mbind outcome_bind]. destruct (data r !! (index r + i)) as [b|].
  - apply IH, Z.lor_nonneg. split; [done|]. apply Z.shiftl_nonneg, b2z_range.
  - clear IH. intros Hf. exfalso. induction l; cbn in Hf; [done|auto].
Qed.

Lemma readInt20_nonneg r v r' : readInt20 r = Ok (v, r') → (0 ≤ v)%Z.
Proof.
  unfold readInt20. intros H. inv_ok. repeat case_match; simplify_eq.
  assert (∀ b k, 0 ≤ Z.shiftl (b2z b) k)%Z by (intros; apply Z.shiftl_nonneg, b2z_range).
  pose proof (b2z_range b1).
  assert (0 ≤ Z.shiftl (Z.land (b2z b) 15) 16)%Z.
  { apply Z.shiftl_nonneg, Z.land_nonneg. right. lia. }
  specialize (H b0 8%Z). lia.
Qed.

Lemma safe_readBytesOrString n len s : (0 ≤ len)%Z → safe n (readBytesOrString len s).
Proof.
  intros Hlen. apply safe_bind; [|intros d; by eapply safe_ret].
  intros r Hr Hl. unfold readRaw.
  destruct (checkEOS_cases len r Hlen Hr) as [->|[-> Hle]]; [done|].
  cbn [mbind outcome_bind]. rewrite (proj2 (Z.ltb_ge _ _)) by done. by apply safe_advance.
Qed.

Lemma total_unpackByte tag v : total (unpackByte tag v).
Proof. unfold unpackByte, unpackNibble, unpackHex. by repeat case_match. Qed.

Lemma safe_readPackedLoop n k tag build : safe n (readPackedLoop k tag build).
Proof.
  revert build; induction k as [|k IH]; intros build; [by eapply safe_ret|].
  apply safe_readByte_weak. intros b.
  apply safe_pure; [apply total_unpackByte|intros lower].
  apply safe_pure; [apply total_unpackByte|intros upper]. apply IH.
Qed.

Lemma safe_readPacked8 n tag : safe n (readPacked8 tag).
Proof.
  apply safe_readByte_weak. intros b. apply safe_bind; [apply safe_readPackedLoop|].
  intros ret r Hr Hl. repeat case_decide; cbn; auto.
Qed.

Lemma safe_readListSize n tag : safe n (readListSize tag).
Proof.
  intros r Hr Hl. unfold readListSize, readInt8, readInt16.
  repeat case_decide; try (by apply (safe_readIntN n)); cbn; auto.
Qed.

(** ** The recursive methods *)

(** A reader that ends in a pure match on values that were read. *)
Ltac safe_match := intros ? ? ?; repeat (case_match || case_decide); cbn; auto.

Section recursive.
Context (n : nat) (rd : bool → reader value) (rn : reader node).
Context (Hrd : ∀ b, safe n (rd b)) (Hrn : safe n rn).

Lemma safe_readJIDPair : safe n (readJIDPair rd).
Proof.
  apply safe_bind; [apply Hrd|intros user]. apply safe_bind; [apply Hrd|intros server].
  safe_match.
Qed.

Lemma safe_readFBJID : safe n (readFBJID rd).
Proof.
  apply safe_bind; [apply Hrd|intros user]. apply safe_bind; [apply safe_readIntN|intros device].
  apply safe_bind; [apply Hrd|intros server]. safe_match.
Qed.

Lemma safe_readInteropJID : safe n (readInteropJID rd).
Proof.
  apply safe_bind; [apply Hrd|intros user]. apply safe_bind; [apply safe_readIntN|intros device].
  apply safe_bind; [apply safe_readIntN|intros integ].
  apply safe_bind; [apply Hrd|intros server]. safe_match.
Qed.

Lemma safe_readADJID : safe n (readADJID rd).
Proof.
  apply safe_readByte_weak; intros agent. apply safe_readByte_weak; intros device.
  apply safe_bind; [apply Hrd|intros user]. safe_match.
Qed.

Lemma safe_readAttributesLoop k acc : safe n (readAttributesLoop rd k acc).
Proof.
  revert acc; induction k as [|k IH]; intros acc; [by eapply safe_ret|].
  apply safe_bind; [apply Hrd|intros key].
  destruct key; try (intros ? ? ?; cbn; done).
  apply safe_bind; [apply Hrd|intros val]. apply IH.
Qed.

Lemma safe_readAttributes k : safe n (readAttributes rd k).
Proof.
  intros r Hr Hl. unfold readAttributes. case_decide; [cbn; auto|].
  by apply safe_readAttributesLoop.
Qed.

Lemma safe_readListLoop k acc : safe n (readListLoop rn k acc).
Proof.
  revert acc; induction k as [|k IH]; intros acc; [by eapply safe_ret|].
  apply safe_bind; [apply Hrn|intros child]. apply IH.
Qed.

Lemma safe_readList tag : safe n (readList rn tag).
Proof.
  apply safe_bind; [apply safe_readListSize|intros size].
  apply safe_bind; [apply safe_readListLoop|intros ret]. by eapply safe_ret.
Qed.

Lemma safe_readNode : safe n (readNode_ rd).
Proof.
  apply safe_bind; [apply safe_readIntN|intros size].
  apply safe_bind; [apply safe_readListSize|intros listSize].
  apply safe_bind; [apply Hrd|intros rawDesc].
  destruct rawDesc; try (intros ? ? ?; cbn; done).
  case_bool_decide; [by eapply safe_err|].
  apply safe_bind; [apply safe_readAttributes|intros attrs].
  case_decide; [by eapply safe_ret|].
  apply safe_bind; [apply Hrd|intros content]. by eapply safe_ret.
Qed.

Lemma safe_readSwitch (b : bool) (tagByte : byte) : safe n (readSwitch rd rn b tagByte).
Proof.
  unfold readSwitch. cbv zeta.
  repeat (case_decide; [intros r Hr Hl|]).
  - cbn; auto.
  - by apply safe_readList.
  - revert r Hr Hl. eapply safe_bind_post; [apply safe_readIntN|apply readIntN_nonneg|].
    intros; by apply safe_readBytesOrString.
  - revert r Hr Hl. eapply safe_bind_post; [apply safe_readInt20|apply readInt20_nonneg|].
    intros; by apply safe_readBytesOrString.
  - revert r Hr Hl. eapply safe_bind_post; [apply safe_readIntN|apply readIntN_nonneg|].
    intros; by apply safe_readBytesOrString.
  - revert r Hr Hl. apply safe_bind; [apply safe_readIntN|intros i]. safe_match.
  - by apply safe_readFBJID.
  - by apply safe_readInteropJID.
  - by apply safe_readJIDPair.
  - by apply safe_readADJID.
  - by apply (safe_readPacked8 n).
  - safe_match.
Qed.
End recursive.

(** With fuel for one call more than there are bytes left, [read] returns. *)
Lemma safe_readFuel n b : safe n (readFuel (S n) b).
Proof.
  revert b; induction n as [|n IH]; intros b.
  - intros r Hr Hl. cbn [readFuel]. unfold read_.
    apply (safe_readByte 0 (λ tagByte r, _)); [|done|done]. intros ? m [=].
  - intros r Hr Hl. cbn [readFuel]. unfold read_. revert r Hr Hl.
    apply safe_readByte. intros tagByte m [= <-].
    apply safe_readSwitch; [done|]. by apply safe_readNode.
Qed.

(** C2: on every sequence of bytes [Unmarshal] returns a
    node or an error: no index is out of range (no Go panic), and the mutual
    recursion of the readers always ends (the fuel is always enough). *)
Theorem Unmarshal_total (d : list byte) :
  (∃ n, Unmarshal d = Ok n) ∨ (∃ e, Unmarshal d = Err e).
Proof.
  unfold Unmarshal, readNodeFuel.
  assert (safe (length d) (readNode_ (readFuel (S (length d))))) as Hs.
  { apply safe_readNode. intros b. apply safe_readFuel. }
  specialize (Hs (newDecoder d)). unfold in_range, left in Hs. cbn [newDecoder data index] in Hs.
  specialize (Hs ltac:(lia) ltac:(lia)).
  destruct (readNode_ _ _) as [[n r]| | |]; cbn in *; try done; [|eauto].
  case_decide; eauto.
Qed.
