(* ===== verification/Codec.v ===== *)
(** The binary XML codec as a whole: what a node becomes on the wire
    ([wire_node]), the round trip of [Marshal] and [Unmarshal], the totality
    of both on the nodes the format can carry, and the safety of the decoder on
    arbitrary input. *)
From Stdlib Require Import ZArith Lia.
From Stdlib Require Import Strings.Byte.
From stdpp Require Import prelude strings list.
From S2P Require Import Prelude Strconv Tokens Jid Node Encoder Decoder CodecBase.

#[local] Opaque IndexOfSingleToken IndexOfDoubleByteToken GetDoubleToken SingleByteTokens.

(** ** What the wire keeps *)

Definition live_attrs (attrs : list (string * value)) : list (string * value) :=
  filter (λ kv, skipAttr kv.2 = false) attrs.

Fixpoint wire (asString : bool) (v : value) : value :=
  match v with
  | VNil => VNil
  | VJID j => VJID (wire_jid j)
  | VString s => string_value asString s
  | VInt z => string_value asString (Itoa z)
  | VInt32 z | VInt64 z => string_value asString (FormatInt z)
  | VUint z | VUint32 z | VUint64 z => string_value asString (FormatUint z)
  | VBool b => string_value asString (FormatBool b)
  | VBytes l => if asString then VString (b2s l) else VBytes l
  | VNodes [] => VNil
  | VNodes ns => VNodes (map wire_node ns)
  | VOther t => VOther t
  end
with wire_node (n : node) : node :=
  match n with
  | mkNode tag attrs content =>
      mkNode tag
        ((fix go l := match l with
                      | [] => []
                      | (k, v) :: l => if skipAttr v then go l else (k, wire true v) :: go l
                      end) attrs)
        (match content with VNil => VNil | c => wire false c end)
  end.

(** The nodes the format can carry: tags are not empty and not "0", strings
    and byte slices are shorter than 2^31-1, lists have at most 65535 entries,
    values are of a supported type, and an attribute map has no repeated key. *)
Fixpoint encodable (v : value) : bool :=
  match v with
  | VNil => true
  | VJID j => jid_ok j
  | VString s => str_ok s
  | VInt z => str_ok (Itoa z)
  | VInt32 z | VInt64 z => str_ok (FormatInt z)
  | VUint z | VUint32 z | VUint64 z => str_ok (FormatUint z)
  | VBool b => str_ok (FormatBool b)
  | VBytes l => (Z.of_nat (length l) <? 2 ^ 31 - 1)%Z
  | VNodes ns => (Z.of_nat (length ns) <? 2 ^ 16)%Z && forallb node_encodable ns
  | VOther _ => false
  end
with node_encodable (n : node) : bool :=
  match n with
  | mkNode tag attrs content =>
      bool_decide (tag ≠ "0" ∧ tag ≠ "") && str_ok tag &&
      (2 * Z.of_nat (countAttributes attrs) + 2 <? 2 ^ 16)%Z &&
      bool_decide (NoDup (map fst (live_attrs attrs))) &&
      forallb (λ kv, let '(k, v) := kv in skipAttr v || (str_ok k && encodable v)) attrs &&
      encodable content
  end.

(** ** JIDs *)

Lemma readFuel_S f b r :
  readFuel (S f) b r = read_ (readFuel f) (readNode_ (readFuel f)) b r.
Proof. done. Qed.

Lemma reads_strings_fuel s bytes f :
  (∀ rd rn b, parses (read_ rd rn b) bytes (string_value b s)) →
  reads_strings (readFuel (S f)) s bytes.
Proof. intros H b. apply H. Qed.

Lemma writeJID_emits j :
  jid_ok j = true →
  ∃ bytes, emits (writeJID j) bytes ∧ (2 ≤ length bytes)%nat ∧
    ∀ f rn b, parses (read_ (readFuel (S f)) rn b) bytes (VJID (wire_jid j)).
Proof.
  intros [Hu Hs]%andb_true_iff. unfold writeJID, wire_jid.
  destruct (writeString_emits (User j) Hu) as (ub & Hue & Hune & Hup).
  destruct (writeString_emits (Server j) Hs) as (sb & Hse & Hsne & Hsp).
  case_bool_decide.
  { exists (z2b ADJID :: z2b (ActualAgent j) :: z2b (u8 (Device j)) :: ub). split_and!.
    - apply (emits_push ADJID (λ w, writeString (User j)
               (pushByte (u8 (Device j)) (pushByte (ActualAgent j) w)))).
      apply (emits_push (ActualAgent j) (λ w, writeString (User j) (pushByte (u8 (Device j)) w))).
      by apply emits_push.
    - cbn; lia.
    - intros f rn b. eapply read_tag; [tag_branch|].
      assert (u8 (ActualAgent j) = b2z (z2b (ActualAgent j))) as -> by (by rewrite b2z_z2b).
      assert (u8 (Device j) = b2z (z2b (u8 (Device j)))) as Hd
        by (rewrite b2z_z2b; unfold u8; by rewrite Z.mod_mod).
      rewrite Hd at 2. apply readADJID_parses. by apply reads_strings_fuel. }
  case_decide as HM.
  { exists (z2b FBJID :: ub ++ be_bytes 2 (Device j) ++ sb). split_and!.
    - apply (emits_push FBJID (λ w, w ← writeString (User j) w;
                                    writeString (Server j) (pushInt16 (Device j) w))).
      apply emits_bind; [done|]. by apply emits_push16.
    - cbn [length]. rewrite !length_app, !length_be_bytes. lia.
    - intros f rn b. eapply read_tag; [tag_branch|].
      apply readFBJID_parses; [by apply reads_strings_fuel|].
      rewrite <- HM. by apply reads_strings_fuel. }
  case_decide as HI.
  { exists (z2b InteropJID :: ub ++ be_bytes 2 (Device j) ++ be_bytes 2 (Integrator j) ++ sb).
    split_and!.
    - apply (emits_push InteropJID (λ w, w ← writeString (User j) w;
               writeString (Server j) (pushInt16 (Integrator j) (pushInt16 (Device j) w)))).
      apply emits_bind; [done|].
      apply (emits_push16 (Device j) (λ w, writeString (Server j) (pushInt16 (Integrator j) w))).
      by apply emits_push16.
    - cbn [length]. rewrite !length_app, !length_be_bytes. lia.
    - intros f rn b. eapply read_tag; [tag_branch|].
      apply readInteropJID_parses; [by apply reads_strings_fuel|].
      rewrite <- HI. by apply reads_strings_fuel. }
  destruct (decide (slen (User j) = 0)%Z) as [H0|H0].
  - exists (z2b JIDPair :: [z2b ListEmpty] ++ sb). split_and!; [| cbn; lia |].
    + apply (emits_push JIDPair (λ w, w ← Ok (pushByte ListEmpty w); writeString (Server j) w)).
      apply emits_bind; [|done]. intros buf. done.
    + intros f rn b. eapply read_tag; [tag_branch|].
      apply readJIDPair_parses; [|by apply reads_strings_fuel].
      rewrite decide_True by done.
      apply (read_tag _ _ _ _ (λ r, Ok (VNil, r))); [tag_branch|]. by apply parses_ret.
  - exists (z2b JIDPair :: ub ++ sb). split_and!.
    + apply (emits_push JIDPair (λ w, w ← writeString (User j) w; writeString (Server j) w)).
      by apply emits_bind.
    + destruct ub; cbn; [done|lia].
    + intros f rn b. eapply read_tag; [tag_branch|].
      apply readJIDPair_parses; [|by apply reads_strings_fuel].
      rewrite decide_False by done. by apply (reads_strings_fuel (User j) ub f Hup true).
Qed.

(** On the wire a JID loses nothing that the addressing
    uses: a JID without raw agent whose device fits one byte on the four device
    servers, is zero on the plain servers, and whose integrator is zero outside
    the interop server, comes back unchanged; in general the device of a device
    JID is kept modulo 256. *)
Theorem wire_jid_identity (j : JID) :
  wf_jid j → RawAgent j = 0%Z →
  (Server j ≠ InteropServer → Integrator j = 0%Z) →
  (domain_server (Server j) → (Device j < 256)%Z) →
  (¬ domain_server (Server j) → Server j ≠ MessengerServer → Server j ≠ InteropServer →
     Device j = 0%Z) →
  wire_jid j = j.
Proof.
  destruct j as [user agent device integ server]; cbn. intros (Ha & Hd & Hi); cbn in *.
  intros -> Hint Hdom Hplain. unfold wire_jid; cbn -[u8 u16].
  assert (¬ domain_server MessengerServer) as HnM by (unfold domain_server; set_solver).
  assert (¬ domain_server InteropServer) as HnI by (unfold domain_server; set_solver).
  case_bool_decide as Had.
  { assert (domain_server server) as Hs by (unfold domain_server; set_solver).
    assert (integ = 0%Z) as -> by (apply Hint; intros ->; done).
    rewrite (u8_small device) by (specialize (Hdom Hs); lia).
    rewrite u8_small by (apply ActualAgent_range; done).
    apply (NewADJID_ActualAgent
             {| User := user; RawAgent := 0; Device := device; Integrator := 0;
                Server := server |}); done. }
  case_decide as HM; [subst; rewrite u16_small by lia; by rewrite Hint by done|].
  case_decide as HI; [subst; by rewrite !u16_small by lia|].
  rewrite Hint by done.
  assert (device = 0%Z) as ->; [|done].
  destruct (decide (domain_server server)) as [Hs|]; [|by apply Hplain].
  assert (¬ (0 < device)%Z); [|lia]. unfold domain_server in Hs. set_solver.
Qed.

Lemma wire_jid_identity_witness :
  wire_jid (NewADJID "15551234567" 1 12) = NewADJID "15551234567" 1 12.
Proof.
  apply wire_jid_identity.
  - repeat split; vm_compute; congruence.
  - reflexivity.
  - reflexivity.
  - reflexivity.
  - intros Hn. exfalso. apply Hn. unfold domain_server. cbn. set_solver.
Defined.

(** ** Lists *)

(** The header of a non-empty list: its tag byte and its size. *)
Lemma writeListStart_emits n :
  (0 < n < 2 ^ 16)%Z →
  ∃ t lb, (∀ buf, writeListStart n buf = buf ++ t :: lb) ∧
          (t = z2b List8 ∨ t = z2b List16) ∧ parses (readListSize (b2z t)) lb n.
Proof.
  intros Hn. unfold writeListStart.
  destruct (Z.eqb_spec n 0); [lia|]. destruct (Z.ltb_spec n 256).
  - exists (z2b List8), (be_bytes 1 n). split_and!; [|by left|].
    + intros buf. rewrite pushInt8_be. unfold pushByte. by rewrite <- (assoc (++)).
    + apply parses_ext with (readInt8 false); [done|].
      rewrite <- (Z.mod_small n (2 ^ 8)) at 2 by lia. apply readInt8_be.
  - exists (z2b List16), (be_bytes 2 n). split_and!; [|by right|].
    + intros buf. rewrite pushInt16_be. unfold pushByte. by rewrite <- (assoc (++)).
    + apply parses_ext with (readInt16 false); [done|].
      rewrite <- (Z.mod_small n (2 ^ 16)) at 2 by lia. apply readInt16_be.
Qed.

(** A value or a node that makes the trip. *)
Definition value_trip (v : value) : Prop :=
  encodable v = true →
  ∃ bytes, emits (write v) bytes ∧ bytes ≠ [] ∧
    ∀ f b, (length bytes ≤ f)%nat → parses (readFuel f b) bytes (wire b v).

Definition node_trip (n : node) : Prop :=
  node_encodable n = true →
  ∃ bytes, emits (writeNode n) bytes ∧ bytes ≠ [] ∧
    ∀ f, (length bytes ≤ f)%nat → parses (readNode_ (readFuel f)) bytes (wire_node n).

Lemma string_trip (w : writer) (v : bool → value) s :
  str_ok s = true → (∀ buf, w buf = writeString s buf) → (∀ b, v b = string_value b s) →
  ∃ bytes, emits w bytes ∧ bytes ≠ [] ∧
    ∀ f b, (length bytes ≤ f)%nat → parses (readFuel f b) bytes (v b).
Proof.
  intros Hs Hw Hv. destruct (writeString_emits s Hs) as (bytes & He & Hne & Hp).
  exists bytes. split_and!; [intros buf; by rewrite Hw|done|].
  intros [|f] b Hf; [destruct bytes; [done|cbn in Hf; lia]|]. rewrite Hv. apply Hp.
Qed.

Lemma nodes_trip ns :
  Forall node_trip ns → forallb node_encodable ns = true →
  ∃ bytes, emits (writeNodeList writeNode ns) bytes ∧
    ∀ f acc, (length bytes ≤ f)%nat →
      parses (readListLoop (readNode_ (readFuel f)) (length ns) acc) bytes
             (acc ++ map wire_node ns).
Proof.
  induction 1 as [|n ns Hn _ IH]; intros Henc.
  { exists []. split; [intros buf; cbn; by rewrite app_nil_r|].
    intros f acc _. rewrite app_nil_r. by apply parses_ret. }
  cbn in Henc. apply andb_true_iff in Henc as [Henc1 Henc2].
  destruct (Hn Henc1) as (b1 & He1 & Hne & Hp1). destruct (IH Henc2) as (b2 & He2 & Hp2).
  exists (b1 ++ b2). split.
  - apply (emits_bind (writeNode n) (writeNodeList writeNode ns)); done.
  - intros f acc Hf. rewrite length_app in Hf. cbn [length readListLoop map].
    eapply parses_bind; [apply Hp1; lia|].
    replace (acc ++ wire_node n :: map wire_node ns)
      with ((acc ++ [wire_node n]) ++ map wire_node ns) by (by rewrite <- (assoc (++))).
    apply Hp2. lia.
Qed.

Lemma setAttr_fresh key val attrs :
  key ∉ map fst attrs → setAttr key val attrs = attrs ++ [(key, val)].
Proof.
  induction attrs as [|[k v] attrs IH]; cbn; [done|].
  intros [Hk Hin]%not_elem_of_cons. rewrite decide_False by congruence. by rewrite IH.
Qed.

Definition wire_attrs (attrs : list (string * value)) : list (string * value) :=
  map (λ kv, (kv.1, wire true kv.2)) (live_attrs attrs).

Lemma live_attrs_cons k v attrs :
  live_attrs ((k, v) :: attrs) =
  if skipAttr v then live_attrs attrs else (k, v) :: live_attrs attrs.
Proof.
  unfold live_attrs. rewrite filter_cons. cbn.
  by destruct (skipAttr v); [rewrite decide_False|rewrite decide_True].
Qed.

Lemma wire_node_eq tag attrs content :
  wire_node (mkNode tag attrs content) =
  mkNode tag (wire_attrs attrs) (match content with VNil => VNil | c => wire false c end).
Proof.
  cbn. f_equal. unfold wire_attrs.
  induction attrs as [|[k v] attrs IH]; [done|].
  rewrite live_attrs_cons. destruct (skipAttr v); [done|]. cbn. by rewrite IH.
Qed.

Lemma countAttributes_live attrs : countAttributes attrs = length (live_attrs attrs).
Proof.
  induction attrs as [|[k v] attrs IH]; [done|].
  rewrite live_attrs_cons. cbn. destruct (skipAttr v); cbn; congruence.
Qed.

Lemma attrs_trip attrs :
  Forall (λ kv, value_trip kv.2) attrs →
  forallb (λ kv, let '(k, v) := kv in skipAttr v || (str_ok k && encodable v)) attrs = true →
  ∃ bytes, emits (writeAttributes write attrs) bytes ∧
    ∀ f acc, (length bytes ≤ f)%nat → NoDup (map fst acc ++ map fst (live_attrs attrs)) →
      parses (readAttributesLoop (readFuel f) (length (live_attrs attrs)) acc) bytes
             (acc ++ wire_attrs attrs).
Proof.
  induction 1 as [|[k v] attrs Hv _ IH]; intros Henc.
  { exists []. split; [intros buf; cbn; by rewrite app_nil_r|].
    intros f acc _ _. rewrite app_nil_r. by apply parses_ret. }
  cbn in Henc. apply andb_true_iff in Henc as [Henc1 Henc2].
  destruct (IH Henc2) as (b2 & He2 & Hp2). unfold wire_attrs. rewrite !live_attrs_cons.
  destruct (skipAttr v) eqn:Hskip.
  { exists b2. split; [|done]. intros buf. cbn. rewrite Hskip. apply He2. }
  apply andb_true_iff in Henc1 as [Hk Hvenc].
  destruct (string_trip (writeString k) (λ b, string_value b k) k Hk) as (bk & Hek & Hnek & Hpk);
    [done|done|].
  destruct (Hv Hvenc) as (bv & Hev & Hnev & Hpv).
  exists (bk ++ bv ++ b2). split.
  - intros buf. cbn. rewrite Hskip, Hek. cbn. cbn in Hev. rewrite Hev. cbn. rewrite He2.
    by rewrite <- !(assoc (++)).
  - intros f acc Hf Hnd. rewrite !length_app in Hf. cbn [length readAttributesLoop map].
    eapply parses_bind; [apply (Hpk f true); lia|]. rewrite string_value_true.
    eapply parses_bind; [apply (Hpv f true); lia|].
    cbn [map fst] in Hnd. apply NoDup_app in Hnd as (Hnd1 & Hnd2 & Hnd3).
    rewrite setAttr_fresh by (intros Hin; apply Hnd2 in Hin; set_solver).
    cbn [fst snd].
    rewrite (cons_middle _ acc (map _ _)), List.app_assoc.
    apply Hp2; [lia|]. rewrite map_app. cbn [map fst].
    apply NoDup_app. apply NoDup_cons in Hnd3 as [Hk' Hnd3]. split_and!; [|set_solver|done].
    apply NoDup_app. split_and!; [done|set_solver|apply NoDup_singleton].
Qed.

(** ** Nodes *)

Lemma content_trip c :
  value_trip c → encodable c = true →
  ∃ bytes, emits (λ w, match c with VNil => Ok w | _ => write c w end) bytes ∧
    (c = VNil → bytes = []) ∧
    ∀ f, (length bytes ≤ f)%nat → c ≠ VNil → parses (readFuel f false) bytes (wire false c).
Proof.
  intros Hc Henc. destruct (Hc Henc) as (bytes & He & Hne & Hp).
  destruct (match c with VNil => true | _ => false end) eqn:Hnil.
  - destruct c; try done. exists []. split_and!; [|done|done].
    intros buf. by rewrite app_nil_r.
  - exists bytes. split_and!; [|by intros ->|by intros; apply Hp].
    intros buf. destruct c; try done; apply He.
Qed.

Lemma readAttributes_loop rd n attrs bytes :
  parses (readAttributesLoop rd n []) bytes attrs →
  parses (readAttributes rd (Z.of_nat n)) bytes attrs.
Proof.
  intros H pre rest. unfold readAttributes. case_decide.
  - assert (n = 0) as -> by lia. apply H.
  - rewrite Nat2Z.id. apply H.
Qed.

(** Reading a node from the bytes of its parts; [has] tells whether there is
    content. *)
Lemma readNode_parses rd tag k has t lb tb ab cb attrs content :
  tag ≠ "" → (0 ≤ has ≤ 1)%Z →
  parses (readListSize (b2z t)) lb (2 * Z.of_nat k + 1 + has)%Z →
  parses (rd true) tb (VString tag) →
  parses (readAttributesLoop rd k []) ab attrs →
  (has = 0%Z → cb = [] ∧ content = VNil) →
  (has = 1%Z → parses (rd false) cb content) →
  parses (readNode_ rd) (t :: lb ++ tb ++ ab ++ cb) (mkNode tag attrs content).
Proof.
  intros Hte Hhas Hlp Htp Hap H0 H1.
  unfold readNode_. change (t :: lb ++ tb ++ ab ++ cb) with ([t] ++ lb ++ tb ++ ab ++ cb).
  eapply parses_bind; [apply readInt8_parses|].
  eapply parses_bind; [apply Hlp|]. eapply parses_bind; [apply Htp|]. cbn beta iota.
  rewrite bool_decide_eq_false_2 by (intros [?|?]; [lia|done]).
  replace (Z.shiftr (2 * Z.of_nat k + 1 + has - 1) 1) with (Z.of_nat k).
  2: { rewrite Z.shiftr_div_pow2 by lia. change (2 ^ 1)%Z with 2%Z.
       apply Z.div_unique with has; lia. }
  eapply (parses_bind (readAttributes rd (Z.of_nat k))); [by apply readAttributes_loop|].
  cbn beta. destruct (decide (has = 0%Z)) as [->|Hn].
  - destruct H0 as [-> ->]; [done|]. apply parses_ret. intros r. rewrite decide_True; [done|].
    rewrite Z.add_0_r, Z.mul_comm, Z.add_comm, Z.mod_add by lia. done.
  - assert (has = 1%Z) as -> by lia.
    eapply (parses_ext _ (λ r, '(content, r) ← rd false r; Ok (mkNode tag attrs content, r))).
    { intros r. rewrite decide_False; [done|].
      replace (2 * Z.of_nat k + 1 + 1)%Z with ((Z.of_nat k + 1) * 2)%Z by lia.
      rewrite Z.mod_mul; lia. }
    rewrite <- (app_nil_r cb).
    eapply (parses_bind (rd false)); [by apply H1|]. by apply parses_ret.
Qed.

Definition has_content (c : value) : Z := match c with VNil => 0 | _ => 1 end.

Lemma node_trip_step tag attrs content :
  Forall (λ kv, value_trip kv.2) attrs → value_trip content →
  node_trip (mkNode tag attrs content).
Proof.
  intros Ha Hc Henc. cbn [node_encodable] in Henc.
  rewrite !andb_true_iff, !bool_decide_eq_true, Z.ltb_lt, countAttributes_live in Henc.
  destruct Henc as [[[[[[Ht0 Hte] Htok] Hsz] Hnd] Haenc] Hcenc].
  destruct (attrs_trip attrs Ha Haenc) as (ab & Hae & Hap).
  destruct (content_trip content Hc Hcenc) as (cb & Hce & Hcn & Hcp).
  destruct (string_trip (writeString tag) (λ b, string_value b tag) tag Htok)
    as (tb & Hte' & Htne & Htp); [done|done|].
  assert (0 ≤ has_content content ≤ 1)%Z as Hhas by (destruct content; cbn; lia).
  set (k := length (live_attrs attrs)) in *.
  destruct (writeListStart_emits (2 * Z.of_nat k + tagSize + has_content content))
    as (t & lb & Hle & Ht & Hlp); [unfold tagSize; lia|].
  exists (t :: lb ++ tb ++ ab ++ cb). split_and!; [|done|].
  - intros buf. cbn [writeNode]. rewrite decide_False by done. fold (has_content content).
    rewrite countAttributes_live. fold k. rewrite Hle, Hte'. cbn [mbind outcome_bind].
    rewrite Hae. cbn [mbind outcome_bind]. unfold emits in Hce. cbn beta in Hce. rewrite Hce.
    by rewrite <- !(assoc (++)).
  - intros f Hf. cbn [length] in Hf. rewrite !length_app in Hf. rewrite wire_node_eq.
    apply readNode_parses with k (has_content content); try done.
    + apply (Htp f true). lia.
    + apply (Hap f []); [lia|done].
    + intros H0. destruct content; try done. by rewrite Hcn.
    + intros H1. assert (content ≠ VNil) by (by intros ->).
      destruct content; try done; apply Hcp; done || lia.
Qed.

Lemma VNodes_trip ns : Forall node_trip ns → value_trip (VNodes ns).
Proof.
  intros Hns Henc. cbn [encodable] in Henc. apply andb_true_iff in Henc as [Hlen Henc].
  apply Z.ltb_lt in Hlen. destruct (nodes_trip ns Hns Henc) as (nb & Hne & Hnp).
  destruct ns as [|n ns].
  { exists [z2b ListEmpty]. split_and!; [done|done|].
    intros [|f] b Hf; [cbn in Hf; lia|].
    apply (read_tag _ _ _ _ (λ r, Ok (VNil, r))); [tag_branch|]. by apply parses_ret. }
  destruct (writeListStart_emits (Z.of_nat (length (n :: ns)))) as (t & lb & Hle & Ht & Hlp);
    [cbn [length] in *; lia|].
  exists (t :: lb ++ nb). split_and!; [|done|].
  - intros buf. cbn [write]. rewrite Hle, Hne. by rewrite <- (assoc (++)).
  - intros [|f] b Hf; [cbn in Hf; lia|]. cbn [length] in Hf. rewrite length_app in Hf.
    eapply (read_tag _ _ _ _ (readList (readNode_ (readFuel f)) (b2z t))).
    { destruct Ht as [-> | ->]; tag_branch. }
    unfold readList. eapply parses_bind; [apply Hlp|]. rewrite Nat2Z.id.
    rewrite <- (app_nil_r nb).
    eapply (parses_bind (readListLoop _ _ _)); [apply (Hnp f []); lia|]. by apply parses_ret.
Qed.

Lemma leaf_trip v : (∀ ns, v ≠ VNodes ns) → value_trip v.
Proof.
  intros Hleaf Henc. destruct v; cbn [encodable] in Henc;
    try (eapply string_trip; [exact Henc|done|done]).
  - exists [z2b ListEmpty]. split_and!; [done|done|].
    intros [|f] b Hf; [cbn in Hf; lia|].
    apply (read_tag _ _ _ _ (λ r, Ok (VNil, r))); [tag_branch|]. by apply parses_ret.
  - destruct (writeJID_emits j Henc) as (bytes & He & Hl & Hp).
    exists bytes. split_and!; [done|by intros ->; cbn in Hl; lia|].
    intros [|[|f]] b Hf; [lia|lia|]. apply Hp.
  - apply Z.ltb_lt in Henc.
    destruct (writeByteLength_emits (Z.of_nat (length l))) as (hdr & He & Hne & Hp); [lia|].
    exists (hdr ++ l). split_and!; [|by destruct hdr|].
    + apply (emits_bind (writeByteLength (Z.of_nat (length l))) (λ w, Ok (pushBytes l w))); done.
    + intros [|f] b Hf; [destruct hdr; [done|cbn in Hf; lia]|]. by apply Hp.
  - by destruct (Hleaf ns).
  - done.
Qed.

Lemma node_trip_all n : node_trip n.
Proof.
  apply (node_value_ind value_trip node_trip);
    [apply leaf_trip|apply VNodes_trip|apply node_trip_step].
Qed.

(** ** The round trip *)

Lemma Marshal_trip n :
  node_encodable n = true →
  ∃ bytes, Marshal n = Ok (x00 :: bytes) ∧ Unmarshal bytes = Ok (wire_node n).
Proof.
  intros Henc. destruct (node_trip_all n Henc) as (bytes & He & Hne & Hp).
  exists bytes. split; [apply (He [x00])|]. unfold Unmarshal, readNodeFuel.
  pose proof (Hp (S (length bytes)) ltac:(lia) [] []) as Hread. rewrite app_nil_r in Hread.
  unfold newDecoder. change {| data := bytes; index := 0 |} with (at_ [] bytes).
  rewrite Hread. cbn [mbind outcome_bind app]. rewrite decide_False; [done|].
  unfold at_; cbn. rewrite app_nil_r. lia.
Qed.

(** C1: marshalling succeeds on every node the format can
    carry, whatever order the attribute maps are iterated in, and unpacking and
    unmarshalling the result, with any decompressor, gives back the node as the
    wire keeps it: the same tags, attributes in the same order without the nil
    and empty ones, integers and booleans as their decimal texts, JIDs as
    [wire_jid], and content bytes unchanged. *)
Theorem Unmarshal_Marshal (inflate : list byte → option (list byte)) (n : node) :
  node_encodable n = true →
  ∃ packed unpacked, Marshal n = Ok packed ∧ Unpack inflate packed = Ok unpacked ∧
    Unmarshal unpacked = Ok (wire_node n).
Proof.
  intros Henc. destruct (Marshal_trip n Henc) as (bytes & Hm & Hu).
  by exists (x00 :: bytes), bytes.
Qed.

Definition sample_node : node :=
  mkNode "iq" [("id", VString "abc"); ("from", VJID (NewJID "12345" DefaultUserServer))]
    (VNodes [mkNode "body" [] (VBytes [x68; x69])]).

Lemma Unmarshal_Marshal_witness :
  ∃ packed unpacked, Marshal sample_node = Ok packed ∧ Unpack (λ _, None) packed = Ok unpacked ∧
    Unmarshal unpacked = Ok (wire_node sample_node).
Proof. apply (Unmarshal_Marshal (λ _, None) sample_node). vm_compute. reflexivity. Defined.

(** ** Nodes that come back unchanged *)

(** Attribute values are non-empty strings or JIDs the wire keeps, content
    is absent, bytes, a string with a short form, or a non-empty list of such
    nodes. *)
Definition canonical_attr (v : value) : bool :=
  match v with
  | VString s => bool_decide (s ≠ "")
  | VJID j => bool_decide (wire_jid j = j)
  | _ => false
  end.

Fixpoint canonical_content (v : value) : bool :=
  match v with
  | VNil => true
  | VBytes _ => true
  | VString s => negb (raw_string s)
  | VJID j => bool_decide (wire_jid j = j)
  | VNodes ns => bool_decide (length ns ≠ 0) && forallb canonical_node ns
  | _ => false
  end
with canonical_node (n : node) : bool :=
  match n with
  | mkNode _ attrs content =>
      forallb (λ kv, canonical_attr kv.2) attrs && canonical_content content
  end.

Lemma wire_attrs_canonical attrs :
  forallb (λ kv, canonical_attr kv.2) attrs = true → wire_attrs attrs = attrs.
Proof.
  induction attrs as [|[k v] attrs IH]; [done|].
  cbn [forallb snd]. intros [Hv Hr]%andb_true_iff. unfold wire_attrs. rewrite live_attrs_cons.
  destruct v; try done; cbn in Hv; apply bool_decide_eq_true in Hv; cbn [skipAttr].
  - cbn. rewrite Hv. f_equal. by apply IH.
  - rewrite bool_decide_eq_false_2 by done. cbn. f_equal. by apply IH.
Qed.

Lemma wire_canonical_ind n : canonical_node n = true → wire_node n = n.
Proof.
  apply (node_value_ind (λ v, canonical_content v = true → v ≠ VNil → wire false v = v)
                        (λ n, canonical_node n = true → wire_node n = n)).
  - intros v Hleaf Hc Hnil. destruct v; cbn [canonical_content] in Hc; cbn [wire];
      try exact (False_ind _ (diff_false_true Hc)).
    + by destruct Hnil.
    + apply bool_decide_eq_true in Hc. by rewrite Hc.
    + unfold string_value. apply negb_true_iff in Hc. by rewrite Hc, andb_false_r.
    + done.
    + by destruct (Hleaf ns).
  - intros ns Hns Hc _. cbn [canonical_content] in Hc. apply andb_true_iff in Hc as [Hlen Hc].
    assert (map wire_node ns = ns) as Hmap.
    { clear Hlen. induction Hns as [|m ns Hn _ IH]; [done|]. cbn in Hc |- *.
      apply andb_true_iff in Hc as [??]. by rewrite Hn, IH. }
    apply bool_decide_eq_true in Hlen. destruct ns as [|n' ns]; [done|].
    change (VNodes (map wire_node (n' :: ns)) = VNodes (n' :: ns)). by rewrite Hmap.
  - intros t attrs c _ Hcont Hc. cbn [canonical_node] in Hc. apply andb_true_iff in Hc as [Ha Hc].
    rewrite wire_node_eq, wire_attrs_canonical by done. f_equal.
    destruct c; [exact eq_refl|apply Hcont; [exact Hc|discriminate]..].
Qed.

(** The nodes the client builds and receives (non-empty
    string and JID attributes; byte, token or child-list content) survive the
    trip unchanged: unmarshalling what [Marshal] produced gives exactly the
    node that was marshalled. *)
Theorem Unmarshal_Marshal_id (n : node) :
  node_encodable n = true → canonical_node n = true →
  ∃ bytes, Marshal n = Ok (x00 :: bytes) ∧ Unmarshal bytes = Ok n.
Proof.
  intros Henc Hc. destruct (Marshal_trip n Henc) as (bytes & Hm & Hu).
  rewrite wire_canonical_ind in Hu by done. eauto.
Qed.

Lemma Unmarshal_Marshal_id_witness :
  ∃ bytes, Marshal sample_node = Ok (x00 :: bytes) ∧ Unmarshal bytes = Ok sample_node.
Proof. apply Unmarshal_Marshal_id; vm_compute; reflexivity. Defined.

(** List sizes are cut to sixteen bits without an error:
    for a list of 65536 entries or more the encoder writes a header that the
    decoder reads as the size modulo 65536, so that such a list does not come
    back. *)
Theorem writeListStart_truncates (n : Z) :
  (2 ^ 16 ≤ n)%Z →
  ∃ lb, (∀ buf, writeListStart n buf = buf ++ z2b List16 :: lb) ∧
        parses (readListSize List16) lb (n `mod` 2 ^ 16)%Z.
Proof.
  intros Hn. exists (be_bytes 2 n). split; [|apply (readInt16_be n)].
  intros buf. unfold writeListStart. destruct (Z.eqb_spec n 0); [lia|].
  destruct (Z.ltb_spec n 256); [lia|]. rewrite pushInt16_be. unfold pushByte.
  by rewrite <- (assoc (++)).
Qed.

Lemma writeListStart_truncates_witness :
  ∃ lb, (∀ buf, writeListStart 65536 buf = buf ++ z2b List16 :: lb) ∧
        parses (readListSize List16) lb 0%Z.
Proof. apply (writeListStart_truncates 65536). lia. Defined.
