(* ===== verification/FrameSocket.v ===== *)
(** The frame layer of the websocket connection (src/socket/framesocket.go,
    src/socket/constants.go): length-prefixed frames over websocket messages,
    and the life cycle of the connection.

    [Frames] and [Sent] log what was sent on the [Frames] channel and written
    to the websocket; [Scheduled] logs the disconnect callbacks that [Close]
    starts, with their [remote] argument.  [split_frames] is the reference
    meaning of a byte stream. *)
From Stdlib Require Import ZArith Lia.
From Stdlib Require Import Strings.Byte.
From stdpp Require Import prelude list.
From S2P Require Import Prelude Tokens.

(** ** State *)

Definition FrameMaxSize : Z := 2 ^ 24.
Definition FrameLengthSize : nat := 3.
Definition WAMagicValue : Z := 6.
Definition WAConnHeader : list byte := [x57; x41; z2b WAMagicValue; z2b DictVersion].

Inductive socketError :=
| ErrSocketClosed
| ErrFrameTooLarge (got : Z)
| ErrSocketAlreadyOpen
| ErrDialFailed
| ErrWrite.

Record FrameSocket := {
  conn : bool;                         (* conn.Load() != nil *)
  closed : bool;
  hasOnDisconnect : bool;              (* OnDisconnect != nil *)
  Header : option (list byte);
  incomingLength : Z;
  receivedLength : Z;
  incoming : option (list byte);
  partialHeader : option (list byte);
  Frames : list (list byte);
  Sent : list (list byte);
  Scheduled : list bool }.

Definition NewFrameSocket : FrameSocket :=
  {| conn := false; closed := false; hasOnDisconnect := false; Header := Some WAConnHeader;
     incomingLength := 0; receivedLength := 0; incoming := None; partialHeader := None;
     Frames := []; Sent := []; Scheduled := [] |}.

(** Field updates. *)
Definition setLife (c cl : bool) (sched : list bool) (fs : FrameSocket) : FrameSocket :=
  {| conn := c; closed := cl; hasOnDisconnect := hasOnDisconnect fs; Header := Header fs;
     incomingLength := incomingLength fs; receivedLength := receivedLength fs;
     incoming := incoming fs; partialHeader := partialHeader fs;
     Frames := Frames fs; Sent := Sent fs; Scheduled := sched |}.
Definition setInput (il rl : Z) (inc ph : option (list byte)) (frames : list (list byte))
    (fs : FrameSocket) : FrameSocket :=
  {| conn := conn fs; closed := closed fs; hasOnDisconnect := hasOnDisconnect fs;
     Header := Header fs; incomingLength := il; receivedLength := rl;
     incoming := inc; partialHeader := ph; Frames := frames; Sent := Sent fs;
     Scheduled := Scheduled fs |}.
Definition setOutput (h : option (list byte)) (sent : list (list byte)) (fs : FrameSocket)
  : FrameSocket :=
  {| conn := conn fs; closed := closed fs; hasOnDisconnect := hasOnDisconnect fs;
     Header := h; incomingLength := incomingLength fs; receivedLength := receivedLength fs;
     incoming := incoming fs; partialHeader := partialHeader fs; Frames := Frames fs;
     Sent := sent; Scheduled := Scheduled fs |}.

(** ** Life cycle *)

Definition IsConnected (fs : FrameSocket) : bool := conn fs.

Definition SetOnDisconnect (handler : bool) (fs : FrameSocket) : FrameSocket :=
  {| conn := conn fs; closed := closed fs; hasOnDisconnect := handler; Header := Header fs;
     incomingLength := incomingLength fs; receivedLength := receivedLength fs;
     incoming := incoming fs; partialHeader := partialHeader fs;
     Frames := Frames fs; Sent := Sent fs; Scheduled := Scheduled fs |}.

(** [code] is the websocket status code, 0 for a connection lost remotely. *)
Definition Close (code : Z) (fs : FrameSocket) : FrameSocket :=
  if conn fs then
    setLife false true
      (if hasOnDisconnect fs then Scheduled fs ++ [bool_decide (code = 0)%Z] else Scheduled fs) fs
  else fs.

(** [dialOk] is the outcome of [websocket.Dial]. *)
Definition Connect (dialOk : bool) (fs : FrameSocket) : FrameSocket * option socketError :=
  if conn fs then (fs, Some ErrSocketAlreadyOpen)
  else if dialOk then (setLife true (closed fs) (Scheduled fs) fs, None)
  else (fs, Some ErrDialFailed).

(** ** Sending *)

Definition frameBytes (header : list byte) (data : list byte) : list byte :=
  let dataLength := Z.of_nat (length data) in
  header ++ [z2b (Z.shiftr dataLength 16); z2b (Z.shiftr dataLength 8); z2b dataLength] ++ data.

(** [writeOk] is the outcome of [conn.Write]; what it was given is logged
    either way. *)
Definition SendFrame (writeOk : bool) (data : list byte) (fs : FrameSocket)
  : FrameSocket * option socketError :=
  if negb (conn fs) then (fs, Some ErrSocketClosed)
  else
    let dataLength := Z.of_nat (length data) in
    if (FrameMaxSize <=? dataLength)%Z then (fs, Some (ErrFrameTooLarge dataLength))
    else
      let header := match Header fs with Some h => h | None => [] end in
      (setOutput None (Sent fs ++ [frameBytes header data]) fs,
       if writeOk then None else Some ErrWrite).

(** ** Receiving *)

(** [copy(dst[off:], src)]. *)
Definition copyAt (off : nat) (src dst : list byte) : list byte :=
  take off dst ++ take (length dst - off) src ++ drop (off + length src) dst.

Definition frameComplete (fs : FrameSocket) : FrameSocket :=
  setInput 0 0 None None
    (Frames fs ++ [match incoming fs with Some d => d | None => [] end]) fs.

(** One iteration of the loop of [processData]: the socket and the rest of the
    message. *)
Definition processStep (fs : FrameSocket) (msg : list byte) : outcome Empty_set (FrameSocket * list byte) :=
  let '(fs, msg) :=
    match partialHeader fs with
    | Some p => (setInput (incomingLength fs) (receivedLength fs) (incoming fs) None (Frames fs) fs,
                 p ++ msg)
    | None => (fs, msg)
    end in
  match incoming fs with
  | None =>
      match msg with
      | b0 :: b1 :: b2 :: msg =>
          let len := (Z.shiftl (b2z b0) 16 + Z.shiftl (b2z b1) 8 + b2z b2)%Z in
          let received := Z.of_nat (length msg) in
          if (len <=? received)%Z then
            Ok (frameComplete (setInput len received (Some (take (Z.to_nat len) msg)) None
                                 (Frames fs) fs),
                drop (Z.to_nat len) msg)
          else
            Ok (setInput len received (Some (copyAt 0 msg (replicate (Z.to_nat len) x00))) None
                  (Frames fs) fs, [])
      | _ => Ok (setInput (incomingLength fs) (receivedLength fs) None (Some msg) (Frames fs) fs, [])
      end
  | Some buf =>
      let need := (incomingLength fs - receivedLength fs)%Z in
      if (need <? 0)%Z || (Z.of_nat (length buf) <? receivedLength fs)%Z
         || (receivedLength fs <? 0)%Z then Panic (* slice bounds out of range *)
      else if (incomingLength fs <=? receivedLength fs + Z.of_nat (length msg))%Z then
        let buf := copyAt (Z.to_nat (receivedLength fs)) (take (Z.to_nat need) msg) buf in
        Ok (frameComplete (setInput (incomingLength fs) (receivedLength fs) (Some buf) None
                             (Frames fs) fs),
            drop (Z.to_nat need) msg)
      else
        let buf := copyAt (Z.to_nat (receivedLength fs)) msg buf in
        Ok (setInput (incomingLength fs) (receivedLength fs + Z.of_nat (length msg)) (Some buf) None
              (Frames fs) fs, [])
  end.

Fixpoint processLoop (fuel : nat) (fs : FrameSocket) (msg : list byte)
  : outcome Empty_set FrameSocket :=
  match msg with
  | [] => Ok fs
  | _ =>
      match fuel with
      | O => OutOfFuel
      | S fuel => '(fs, msg) ← processStep fs msg; processLoop fuel fs msg
      end
  end.

(** Every iteration consumes a byte of the message or of the partial header. *)
Definition processData (msg : list byte) (fs : FrameSocket) : outcome Empty_set FrameSocket :=
  processLoop (length msg + match partialHeader fs with Some p => length p | None => 0 end) fs msg.

(** [readPump] hands every binary message to [processData]; other messages
    are skipped. *)
Inductive wsMessage := BinaryMessage (d : list byte) | TextMessage (d : list byte).
Fixpoint readPump (msgs : list wsMessage) (fs : FrameSocket) : outcome Empty_set FrameSocket :=
  match msgs with
  | [] => Ok (Close 0 fs)
  | BinaryMessage d :: msgs => fs ← processData d fs; readPump msgs fs
  | TextMessage _ :: msgs => readPump msgs fs
  end.

(** ** The reference: frames of a byte stream *)

Fixpoint split_fuel (fuel : nat) (l : list byte) : list (list byte) * list byte :=
  match fuel with
  | O => ([], l)
  | S fuel =>
      match l with
      | b0 :: b1 :: b2 :: rest =>
          let len := Z.to_nat (be_value [b0; b1; b2]) in
          if decide (len ≤ length rest) then
            let '(frames, r) := split_fuel fuel (drop len rest) in (take len rest :: frames, r)
          else ([], l)
      | _ => ([], l)
      end
  end.
(** The complete frames of the stream, and the bytes after them. *)
Definition split_frames (l : list byte) : list (list byte) * list byte := split_fuel (length l) l.

(** ** Facts about the reference *)

Lemma split_fuel_S f b0 b1 b2 rest :
  split_fuel (S f) (b0 :: b1 :: b2 :: rest) =
  let len := Z.to_nat (be_value [b0; b1; b2]) in
  if decide (len ≤ length rest) then
    let '(frames, r) := split_fuel f (drop len rest) in (take len rest :: frames, r)
  else ([], b0 :: b1 :: b2 :: rest).
Proof. done. Qed.

Lemma split_fuel_irrel f g l :
  length l ≤ f → length l ≤ g → split_fuel f l = split_fuel g l.
Proof.
  revert g l; induction f as [|f IH]; intros g l Hf Hg.
  { destruct l; [|cbn in Hf; lia]. by destruct g. }
  destruct g as [|g]; [destruct l; [done|cbn in Hg; lia]|].
  destruct l as [|b0 [|b1 [|b2 rest]]]; try done. rewrite !split_fuel_S. cbv zeta.
  case_decide; [|done]. cbn [length] in Hf, Hg.
  rewrite (IH g); [done|rewrite length_drop; lia..].
Qed.

Lemma split_frames_cons b0 b1 b2 rest :
  split_frames (b0 :: b1 :: b2 :: rest) =
  let len := Z.to_nat (be_value [b0; b1; b2]) in
  if decide (len ≤ length rest) then
    let '(frames, r) := split_frames (drop len rest) in (take len rest :: frames, r)
  else ([], b0 :: b1 :: b2 :: rest).
Proof.
  unfold split_frames. cbn [length]. rewrite split_fuel_S. cbv zeta. case_decide; [|done].
  rewrite (split_fuel_irrel (S (S (length rest))) (length (drop (Z.to_nat (be_value [b0; b1; b2])) rest)));
    [done|rewrite length_drop; lia|done].
Qed.

Lemma split_frames_short l : length l < 3 → split_frames l = ([], l).
Proof. destruct l as [|? [|? [|? ?]]]; try done. cbn. lia. Qed.

(** A frame at the head of the stream is split off. *)
Lemma split_frames_frame d rest :
  (Z.of_nat (length d) < FrameMaxSize)%Z →
  split_frames (be_bytes 3 (Z.of_nat (length d)) ++ d ++ rest) =
  let '(frames, r) := split_frames rest in (d :: frames, r).
Proof.
  intros Hd. assert (be_value (be_bytes 3 (Z.of_nat (length d))) = Z.of_nat (length d)) as Hv.
  { rewrite be_value_be_bytes. apply Z.mod_small. unfold FrameMaxSize in Hd. cbn. lia. }
  cbn [be_bytes] in Hv |- *. cbn [app]. rewrite split_frames_cons. cbv zeta. rewrite Hv, Nat2Z.id.
  rewrite decide_True by (rewrite length_app; lia).
  by rewrite take_app_length, drop_app_length.
Qed.

(** Splitting in two steps. *)
Lemma split_frames_app a b :
  split_frames (a ++ b) =
  let '(frames, r) := split_frames a in
  let '(frames', r') := split_frames (r ++ b) in (frames ++ frames', r').
Proof.
  remember (length a) as n eqn:Hn. assert (length a ≤ n) as Hle by lia. clear Hn.
  revert a Hle; induction n as [|n IH]; intros a Hle.
  { rewrite (split_frames_short a) by lia. by destruct (split_frames (a ++ b)). }
  destruct (decide (length a < 3)).
  { rewrite (split_frames_short a) by lia. by destruct (split_frames (a ++ b)). }
  destruct a as [|b0 [|b1 [|b2 rest]]]; try (cbn [length] in *; lia).
  cbn [length] in Hle. rewrite (split_frames_cons b0 b1 b2 rest). cbv zeta.
  case_decide as Hlen.
  - cbn [app]. rewrite split_frames_cons. cbv zeta. rewrite decide_True by (rewrite length_app; lia).
    rewrite take_app_le, drop_app_le by lia. rewrite IH by (rewrite length_drop; lia).
    destruct (split_frames (drop _ rest)) as [fs r]. by destruct (split_frames (r ++ b)).
  - by destruct (split_frames ((b0 :: b1 :: b2 :: rest) ++ b)).
Qed.

(** ** The invariant and the abstraction *)

(** The bytes of the stream received after the last complete frame. *)
Definition pending (fs : FrameSocket) : list byte :=
  match incoming fs with
  | Some buf => be_bytes 3 (incomingLength fs) ++ take (Z.to_nat (receivedLength fs)) buf
  | None => match partialHeader fs with Some p => p | None => [] end
  end.

Definition wf_input (fs : FrameSocket) : Prop :=
  match incoming fs with
  | Some buf =>
      partialHeader fs = None ∧ Z.of_nat (length buf) = incomingLength fs ∧
      (0 ≤ receivedLength fs < incomingLength fs)%Z ∧ (incomingLength fs < FrameMaxSize)%Z
  | None => match partialHeader fs with Some p => 0 < length p < 3 | None => True end
  end.

Lemma header_value b0 b1 b2 :
  (Z.shiftl (b2z b0) 16 + Z.shiftl (b2z b1) 8 + b2z b2)%Z = be_value [b0; b1; b2].
Proof.
  unfold be_value. cbn [be_acc]. rewrite !Z.shiftl_mul_pow2 by lia. lia.
Qed.

Lemma take_length_copyAt off src dst :
  off ≤ length dst → off + length src ≤ length dst →
  take (off + length src) (copyAt off src dst) = take off dst ++ src ∧
  length (copyAt off src dst) = length dst.
Proof.
  intros H1 H2. unfold copyAt. rewrite (take_ge src) by lia. split.
  - rewrite (assoc (++)). apply take_app_length'. rewrite length_app, length_take. lia.
  - rewrite !length_app, length_take, length_drop. lia.
Qed.

Lemma pending_incomplete fs : wf_input fs → split_frames (pending fs) = ([], pending fs).
Proof.
  unfold wf_input, pending. destruct (incoming fs) as [buf|].
  - intros (_ & Hb & Hr & Hm). cbn [be_bytes app].
    rewrite split_frames_cons. cbv zeta.
    change [z2b (Z.shiftr (incomingLength fs) (8 * Z.of_nat 2));
            z2b (Z.shiftr (incomingLength fs) (8 * Z.of_nat 1));
            z2b (Z.shiftr (incomingLength fs) (8 * Z.of_nat 0))]
      with (be_bytes 3 (incomingLength fs)).
    rewrite be_value_be_bytes, Z.mod_small by (unfold FrameMaxSize in Hm; cbn; lia).
    rewrite decide_False by (rewrite length_take; lia). done.
  - destruct (partialHeader fs) as [p|]; [|done]. intros Hp. apply split_frames_short. lia.
Qed.

(** ** One iteration of the receiving loop *)

Definition partial_length (fs : FrameSocket) : nat :=
  match partialHeader fs with Some p => length p | None => 0 end.

(** What an iteration must do: keep the invariant, deliver the frames the
    reference finds, and make progress. *)
Definition step_ok (fs : FrameSocket) (msg : list byte) (fs' : FrameSocket) (msg' : list byte) : Prop :=
  wf_input fs' ∧
  (msg' = [] ∨ (length msg' < length msg + partial_length fs ∧ partialHeader fs' = None)) ∧
  (∃ new, Frames fs' = Frames fs ++ new ∧
     split_frames (pending fs ++ msg) =
     let '(f, r) := split_frames (pending fs' ++ msg') in (new ++ f, r)) ∧
  conn fs' = conn fs ∧ Sent fs' = Sent fs ∧ Header fs' = Header fs ∧ Scheduled fs' = Scheduled fs.

Lemma frameComplete_setInput il rl d ph frames fs :
  frameComplete (setInput il rl (Some d) ph frames fs) = setInput 0 0 None None (frames ++ [d]) fs.
Proof. done. Qed.

(** Starting a frame: no frame is being assembled. *)
Lemma processStep_header fs msg :
  wf_input fs → incoming fs = None → msg ≠ [] →
  ∃ fs' msg', processStep fs msg = Ok (fs', msg') ∧ step_ok fs msg fs' msg'.
Proof.
  intros Hwf Hin Hmsg. unfold step_ok. remember (pending fs ++ msg) as m eqn:Hm.
  assert (0 < length m) as Hm0.
  { subst m. rewrite length_app. destruct msg; [done|cbn; lia]. }
  assert (length m = length msg + partial_length fs) as Hlm.
  { subst m. rewrite length_app. unfold pending, partial_length. rewrite Hin.
    destruct (partialHeader fs); cbn; lia. }
  set (fs0 := setInput (incomingLength fs) (receivedLength fs) None None (Frames fs) fs).
  assert (processStep fs msg = processStep fs0 m) as ->.
  { unfold processStep. subst fs0 m. unfold pending. rewrite Hin.
    destruct (partialHeader fs) eqn:Hp; cbn; rewrite ?Hin; [done|].
    by destruct msg as [|? [|? [|? ?]]]. }
  rewrite <- Hlm. clear Hlm Hwf Hm. subst fs0. unfold processStep. cbn.
  destruct m as [|b0 [|b1 [|b2 rest]]]; [cbn in Hm0; lia| | |].
  - do 2 eexists. split; [done|]. split; [cbn; lia|]. split; [by left|].
    split; [|done]. exists []. rewrite app_nil_r. done.
  - do 2 eexists. split; [done|]. split; [cbn; lia|]. split; [by left|].
    split; [|done]. exists []. rewrite app_nil_r. done.
  - rewrite header_value. pose proof (be_value_bound [b0; b1; b2]) as Hb.
    cbn [length] in Hb. destruct (Z.leb_spec (be_value [b0; b1; b2]) (Z.of_nat (length rest))).
    + rewrite frameComplete_setInput. do 2 eexists. split; [done|]. split; [done|].
      split; [right; split; [rewrite length_drop; cbn [length]; lia|done]|]. split; [|done].
      eexists [_]. split; [done|]. rewrite split_frames_cons. cbv zeta.
      rewrite decide_True by lia. cbn [pending setInput incoming partialHeader app].
      by destruct (split_frames (drop _ rest)).
    + destruct (take_length_copyAt 0 rest (replicate (Z.to_nat (be_value [b0; b1; b2])) x00))
        as [Ht Hl]; [lia|rewrite length_replicate; lia|].
      do 2 eexists. split; [done|]. rewrite length_replicate in Hl. cbn [Nat.add] in Ht.
      split; [unfold wf_input; cbn [setInput incoming partialHeader incomingLength receivedLength];
              rewrite Hl; unfold FrameMaxSize; change (8 * Z.of_nat 3)%Z with 24%Z in Hb; split; [done|lia]|].
      split; [by left|]. split; [|done]. exists []. rewrite app_nil_r. split; [done|].
      unfold pending. cbn [setInput incoming incomingLength receivedLength].
      rewrite Nat2Z.id, Ht. cbn [take app].
      rewrite (be_bytes_be_value [b0; b1; b2] : be_bytes 3 _ = _), app_nil_r. cbn [app].
      by destruct (split_frames _).
Qed.

(** Continuing a frame. *)
Lemma processStep_body fs msg buf :
  wf_input fs → incoming fs = Some buf → msg ≠ [] →
  ∃ fs' msg', processStep fs msg = Ok (fs', msg') ∧ step_ok fs msg fs' msg'.
Proof.
  intros Hwf Hin Hmsg. unfold wf_input in Hwf. rewrite Hin in Hwf.
  destruct Hwf as (Hph & Hlen & Hrec & Hmax). unfold processStep. rewrite Hph, Hin.
  assert (0 < length msg) by (destruct msg; [done|cbn; lia]).
  rewrite (proj2 (Z.ltb_ge _ 0)), !(proj2 (Z.ltb_ge _ _)) by lia. cbn [orb].
  unfold step_ok, pending at 1, partial_length. rewrite Hin, Hph.
  destruct (Z.leb_spec (incomingLength fs) (receivedLength fs + Z.of_nat (length msg))).
  - set (need := Z.to_nat (incomingLength fs - receivedLength fs)).
    rewrite frameComplete_setInput.
    destruct (take_length_copyAt (Z.to_nat (receivedLength fs)) (take need msg) buf)
      as [Ht Hl]; [lia|rewrite length_take; lia|].
    rewrite take_ge in Ht by (rewrite Hl, length_take; lia).
    do 2 eexists. split; [done|]. split; [done|].
    split; [right; rewrite length_drop; split; [lia|done]|]. split; [|done].
    eexists [_]. split; [done|]. cbn [pending setInput incoming partialHeader app].
    rewrite Ht. rewrite <- (take_drop need msg) at 1.
    rewrite <- (assoc (++)), (assoc (++) (take _ buf)).
    assert (Z.of_nat (length (take (Z.to_nat (receivedLength fs)) buf ++ take need msg)) =
            incomingLength fs) as Hd by (rewrite length_app, !length_take; lia).
    rewrite <- Hd at 1. rewrite split_frames_frame by lia.
    by destruct (split_frames (drop need msg)).
  - destruct (take_length_copyAt (Z.to_nat (receivedLength fs)) msg buf) as [Ht Hl]; [lia|lia|].
    do 2 eexists. split; [done|]. split.
    { unfold wf_input; cbn [setInput incoming partialHeader incomingLength receivedLength].
      rewrite Hl. split; [done|lia]. }
    split; [by left|]. 
    split; [|done]. exists []. rewrite app_nil_r. split; [done|].
    unfold pending. cbn [setInput incoming incomingLength receivedLength].
    rewrite Z2Nat.inj_add, Nat2Z.id, Ht, app_nil_r by lia. rewrite (assoc (++)).
    by destruct (split_frames _).
Qed.

Lemma processLoop_spec fuel fs msg :
  wf_input fs → (msg = [] ∨ length msg + partial_length fs ≤ fuel) →
  ∃ fs' new, processLoop fuel fs msg = Ok fs' ∧ wf_input fs' ∧
    Frames fs' = Frames fs ++ new ∧ split_frames (pending fs ++ msg) = (new, pending fs') ∧
    conn fs' = conn fs ∧ Sent fs' = Sent fs ∧ Header fs' = Header fs ∧ Scheduled fs' = Scheduled fs.
Proof.
  revert fs msg; induction fuel as [|fuel IH]; intros fs msg Hwf Hf.
  { destruct msg; [|destruct Hf as [?|Hf]; [done|cbn in Hf; lia]]. exists fs, [].
    rewrite !app_nil_r, pending_incomplete by done. by split_and!. }
  destruct (decide (msg = [])) as [->|Hne].
  { exists fs, []. rewrite !app_nil_r, pending_incomplete by done. by split_and!. }
  assert (∃ fs1 msg1, processStep fs msg = Ok (fs1, msg1) ∧ step_ok fs msg fs1 msg1)
    as (fs1 & msg1 & Hs & Hwf1 & Hprog & (new1 & HF1 & Hsp1) & Hl1 & Hl2 & Hl3 & Hl4).
  { destruct (incoming fs) as [buf|] eqn:Hin; [by eapply processStep_body|by apply processStep_header]. }
  assert (processLoop (S fuel) fs msg = processLoop fuel fs1 msg1) as ->.
  { destruct msg; [done|]. cbn [processLoop]. by rewrite Hs. }
  destruct (IH fs1 msg1 Hwf1) as (fs' & new & Hl & Hwf' & HF & Hsp & He1 & He2 & He3 & He4).
  { destruct Hprog as [->|[Hlt Hp]]; [by left|right].
    unfold partial_length at 1. rewrite Hp. destruct Hf; [done|lia]. }
  exists fs', (new1 ++ new). rewrite Hsp1, Hsp, HF, HF1, <- (assoc (++)).
  split_and!; congruence.
Qed.

Lemma processData_spec fs msg :
  wf_input fs →
  ∃ fs' new, processData msg fs = Ok fs' ∧ wf_input fs' ∧
    Frames fs' = Frames fs ++ new ∧ split_frames (pending fs ++ msg) = (new, pending fs') ∧
    conn fs' = conn fs ∧ Sent fs' = Sent fs ∧ Header fs' = Header fs ∧ Scheduled fs' = Scheduled fs.
Proof. intros. apply processLoop_spec; [done|right; done]. Qed.

(** ** Receiving a stream in pieces *)

Fixpoint processAll (chunks : list (list byte)) (fs : FrameSocket) : outcome Empty_set FrameSocket :=
  match chunks with
  | [] => Ok fs
  | c :: chunks => fs ← processData c fs; processAll chunks fs
  end.

Lemma processAll_spec (chunks : list (list byte)) (fs : FrameSocket) :
  wf_input fs →
  ∃ fs' new, processAll chunks fs = Ok fs' ∧ wf_input fs' ∧ Frames fs' = Frames fs ++ new ∧
    split_frames (pending fs ++ concat chunks) = (new, pending fs').
Proof.
  revert fs; induction chunks as [|c chunks IH]; intros fs Hwf.
  { exists fs, []. cbn [processAll concat]. rewrite !app_nil_r, pending_incomplete by done. by split_and!. }
  destruct (processData_spec fs c Hwf) as (fs1 & new1 & Hp & Hwf1 & HF1 & Hs1 & _).
  destruct (IH fs1 Hwf1) as (fs' & new & Hp' & Hwf' & HF' & Hs').
  exists fs', (new1 ++ new). cbn [processAll concat]. rewrite Hp. cbn [mbind outcome_bind].
  rewrite Hp'. split_and!; [done|done|rewrite HF', HF1; by rewrite (assoc (++))|].
  rewrite (assoc (++)), split_frames_app, Hs1, Hs'. done.
Qed.

(** C7: receiving refines the reference reading of the byte
    stream: from any socket that satisfies the invariant, and however the
    stream is cut into websocket messages, processing the messages succeeds
    (without an index out of range and in finitely many iterations), keeps the
    invariant, delivers exactly the complete frames of the stream in order, and
    keeps the incomplete rest. *)
Theorem processAll_refines (chunks : list (list byte)) (fs : FrameSocket) :
  wf_input fs →
  ∃ fs' new, processAll chunks fs = Ok fs' ∧ wf_input fs' ∧ Frames fs' = Frames fs ++ new ∧
    split_frames (pending fs ++ concat chunks) = (new, pending fs').
Proof. apply processAll_spec. Qed.

Lemma processAll_refines_witness :
  ∃ fs' new, processAll [[x00]; [x00; x02; x41]; [x42; x00]] NewFrameSocket = Ok fs' ∧
    wf_input fs' ∧ Frames fs' = Frames NewFrameSocket ++ new ∧
    split_frames (pending NewFrameSocket ++ concat [[x00]; [x00; x02; x41]; [x42; x00]]) =
      (new, pending fs').
Proof. apply processAll_refines. exact I. Defined.

(** ** From sender to receiver *)

Fixpoint sendAll (datas : list (list byte)) (fs : FrameSocket) : FrameSocket * list (option socketError) :=
  match datas with
  | [] => (fs, [])
  | d :: datas =>
      let '(fs, e) := SendFrame true d fs in
      let '(fs, es) := sendAll datas fs in (fs, e :: es)
  end.

(** The stream of frames without the connection header. *)
Definition frame_stream (datas : list (list byte)) : list byte :=
  concat (map (λ d, be_bytes 3 (Z.of_nat (length d)) ++ d) datas).

Lemma frameBytes_be h d :
  (Z.of_nat (length d) < FrameMaxSize)%Z →
  frameBytes h d = h ++ be_bytes 3 (Z.of_nat (length d)) ++ d.
Proof. intros _. unfold frameBytes. cbn [be_bytes]. by rewrite Z.shiftr_0_r. Qed.

Lemma split_frame_stream datas :
  Forall (λ d, (Z.of_nat (length d) < FrameMaxSize)%Z) datas →
  split_frames (frame_stream datas) = (datas, []).
Proof.
  induction 1 as [|d datas Hd _ IH]; [done|].
  unfold frame_stream. cbn [map concat]. rewrite <- (assoc (++)).
  rewrite split_frames_frame by done. fold (frame_stream datas). by rewrite IH.
Qed.

Lemma sendAll_sent datas fs :
  conn fs = true → Forall (λ d, (Z.of_nat (length d) < FrameMaxSize)%Z) datas →
  let '(fs', es) := sendAll datas fs in
  es = replicate (length datas) None ∧
  concat (Sent fs') = concat (Sent fs) ++
    match datas, Header fs with _ :: _, Some h => h | _, _ => [] end ++ frame_stream datas.
Proof.
  revert fs; induction datas as [|d datas IH]; intros fs Hc Hall; cbn [sendAll].
  { unfold frame_stream. cbn. by rewrite app_nil_r. }
  apply Forall_cons in Hall as [Hd Hall]. unfold SendFrame. rewrite Hc. cbn [negb].
  rewrite (proj2 (Z.leb_gt _ _)) by done.
  set (fs1 := setOutput None _ fs). specialize (IH fs1 Hc Hall).
  destruct (sendAll datas fs1) as [fs' es]. destruct IH as [-> ->].
  split; [done|]. subst fs1. cbn [setOutput Sent Header].
  rewrite concat_app. cbn [concat]. rewrite app_nil_r, frameBytes_be by done.
  unfold frame_stream at 2. cbn [map concat]. fold (frame_stream datas).
  rewrite <- !(assoc (++)). f_equal. destruct (Header fs), datas; done.
Qed.

Lemma sendAll_header datas fs :
  conn fs = true → datas ≠ [] → Forall (λ d, (Z.of_nat (length d) < FrameMaxSize)%Z) datas →
  Header (sendAll datas fs).1 = None.
Proof.
  intros Hc Hne Hall. revert fs Hc Hne. induction Hall as [|d datas Hd _ IH]; [done|].
  intros fs Hc _. cbn [sendAll]. unfold SendFrame. rewrite Hc. cbn [negb].
  rewrite (proj2 (Z.leb_gt _ _)) by done.
  set (fs1 := setOutput None _ fs). destruct datas as [|d' datas]; [done|].
  specialize (IH fs1 Hc ltac:(done)). by destruct (sendAll _ _).
Qed.

(** Frames arrive as they were sent: a connected socket
    accepts every list of payloads shorter than 2^24 bytes, writes the
    connection header exactly once before the first of them, and a receiver
    that gets the bytes after the header, cut into messages in any way,
    delivers exactly these payloads in order and is left with no partial
    input. *)
Theorem send_receive (datas chunks : list (list byte)) (h : list byte) (sender receiver : FrameSocket) :
  conn sender = true → Header sender = Some h → Sent sender = [] →
  wf_input receiver → pending receiver = [] →
  datas ≠ [] → Forall (λ d, (Z.of_nat (length d) < FrameMaxSize)%Z) datas →
  (h ++ concat chunks = concat (Sent (sendAll datas sender).1)) →
  (sendAll datas sender).2 = replicate (length datas) None ∧
  Header (sendAll datas sender).1 = None ∧
  ∃ r', processAll chunks receiver = Ok r' ∧ Frames r' = Frames receiver ++ datas ∧ pending r' = [].
Proof.
  intros Hc Hh Hs Hwf Hp Hne Hall Heq.
  pose proof (sendAll_sent datas sender Hc Hall) as Hsend.
  pose proof (sendAll_header datas sender Hc Hne Hall) as Hhead.
  destruct (sendAll datas sender) as [fs' es]. cbn [fst snd] in *. destruct Hsend as [-> Hsent].
  split; [done|]. split; [done|].
  rewrite Hsent, Hs, Hh in Heq. destruct datas as [|d datas]; [done|].
  cbn [concat app] in Heq. apply app_inv_head in Heq.
  destruct (processAll_spec chunks receiver Hwf) as (r' & new & Hproc & Hwf' & HF & Hsp).
  rewrite Hp, Heq in Hsp. cbn [app] in Hsp. rewrite split_frame_stream in Hsp by done.
  injection Hsp as <- Hpend. eauto.
Qed.

Lemma send_receive_witness :
  let sender := fst (Connect true NewFrameSocket) in
  (sendAll [[x41]; []] sender).2 = replicate 2 None ∧
  Header (sendAll [[x41]; []] sender).1 = None ∧
  ∃ r', processAll [[x00]; [x00; x01; x41; x00; x00]; [x00]] NewFrameSocket = Ok r' ∧
        Frames r' = Frames NewFrameSocket ++ [[x41]; []] ∧ pending r' = [].
Proof.
  apply (send_receive [[x41]; []] [[x00]; [x00; x01; x41; x00; x00]; [x00]] WAConnHeader
           (fst (Connect true NewFrameSocket)) NewFrameSocket);
    first [reflexivity | exact I | discriminate | repeat constructor].
Defined.

(** ** Life cycle *)

Inductive socketOp :=
| OpConnect (dialOk : bool)
| OpClose (code : Z)
| OpSetOnDisconnect (handler : bool)
| OpSend (writeOk : bool) (d : list byte)
| OpReceive (d : list byte).

Definition runOp (o : socketOp) (fs : FrameSocket) : FrameSocket :=
  match o with
  | OpConnect ok => fst (Connect ok fs)
  | OpClose code => Close code fs
  | OpSetOnDisconnect h => SetOnDisconnect h fs
  | OpSend ok d => fst (SendFrame ok d fs)
  | OpReceive d => match processData d fs with Ok fs => fs | _ => fs end
  end.

(** The operation opens a connection. *)
Definition opens (o : socketOp) (fs : FrameSocket) : nat :=
  match o with OpConnect ok => if ok && negb (conn fs) then 1 else 0 | _ => 0 end.

Fixpoint runOps (ops : list socketOp) (fs : FrameSocket) (n : nat) : FrameSocket * nat :=
  match ops with
  | [] => (fs, n)
  | o :: ops => runOps ops (runOp o fs) (n + opens o fs)
  end.

Lemma wf_input_life c cl sched fs : wf_input fs → wf_input (setLife c cl sched fs).
Proof. done. Qed.

Lemma runOp_step o fs :
  wf_input fs →
  wf_input (runOp o fs) ∧
  length (Scheduled (runOp o fs)) + Nat.b2n (conn (runOp o fs))
    ≤ length (Scheduled fs) + Nat.b2n (conn fs) + opens o fs ∧
  Scheduled fs `prefix_of` Scheduled (runOp o fs).
Proof.
  intros Hwf. destruct o as [ok|code|h|ok d|d]; cbn [runOp opens].
  - unfold Connect. destruct (conn fs) eqn:Hc; cbn; rewrite ?Hc.
    { cbn. split_and!; [done|destruct ok; cbn; lia|done]. }
    destruct ok; cbn; rewrite ?Hc; cbn; split_and!; first [done|lia].
  - unfold Close. destruct (conn fs) eqn:Hc; cbn; rewrite ?Hc; cbn; [|split_and!; first [done|lia]].
    split; [done|]. destruct (hasOnDisconnect fs); [rewrite length_app; cbn|];
      split; try lia; [by eexists|done].
  - split_and!; done || (cbn; lia).
  - unfold SendFrame. repeat case_match; cbn; split_and!; done || lia.
  - destruct (processData_spec fs d Hwf) as (fs' & new & -> & Hwf' & _ & _ & Hc & _ & _ & Hsch).
    rewrite Hc, Hsch. split_and!; done || lia.
Qed.

(** Whatever the client does with a socket, and whatever
    the network answers, the receiving invariant holds throughout and the
    disconnect callback is started at most once per connection that was opened:
    the number of callbacks started, plus one while a connection is open, never
    exceeds the number of successful dials, so that closing twice, or closing
    locally after the read pump has closed, reports nothing twice. *)
Theorem one_disconnect_per_connection (ops : list socketOp) :
  let '(fs, dials) := runOps ops NewFrameSocket 0 in
  wf_input fs ∧ length (Scheduled fs) + Nat.b2n (conn fs) ≤ dials.
Proof.
  assert (∀ fs n, wf_input fs → length (Scheduled fs) + Nat.b2n (conn fs) ≤ n →
    let '(fs', n') := runOps ops fs n in
    wf_input fs' ∧ length (Scheduled fs') + Nat.b2n (conn fs') ≤ n') as H.
  { induction ops as [|o ops IH]; intros fs n Hwf Hn; cbn [runOps]; [done|].
    destruct (runOp_step o fs Hwf) as (Hwf' & Hle & _). apply IH; [done|lia]. }
  apply H; [done|cbn; lia].
Qed.
