(* ===== verification/Cbc.v ===== *)
(** AES-256-CBC helpers (src/util/cbcutil/cbc.go).

    The block cipher, SHA-256 and HMAC come from Go's crypto packages and are
    the class [Crypto], with their documented behaviour as [CryptoLaws]; the
    chaining mode of crypto/cipher is written out. Files, readers and writers
    are explicit states with a script of the faults their next calls meet, so
    that short and failing transfers are part of every statement. *)
From Stdlib Require Import ZArith Lia.
From Stdlib Require Import Strings.Byte.
From stdpp Require Import prelude list.
From S2P Require Import Prelude.

Definition BlockSize : nat := 16.

(** ** What the package takes from Go's crypto library *)

Record Block := mkBlock {
  blockEncrypt : list byte → list byte;
  blockDecrypt : list byte → list byte
}.

Class Crypto := {
  NewCipher : list byte → option Block;
  sha256 : list byte → list byte;
  hmacSha256 : list byte → list byte → list byte;
  hmacSha512 : list byte → list byte → list byte
}.

Class CryptoLaws `{Crypto} := {
  encrypt_length key b x :
    NewCipher key = Some b → length x = BlockSize → length (blockEncrypt b x) = BlockSize;
  decrypt_length key b x :
    NewCipher key = Some b → length x = BlockSize → length (blockDecrypt b x) = BlockSize;
  decrypt_encrypt key b x :
    NewCipher key = Some b → length x = BlockSize → blockDecrypt b (blockEncrypt b x) = x;
  hmac_length key msg : length (hmacSha256 key msg) = 32;
  hmac512_length key msg : length (hmacSha512 key msg) = 64
}.

(** ** Cipher block chaining *)

Definition bxor (a b : byte) : byte := z2b (Z.lxor (b2z a) (b2z b)).
Definition xorBytes : list byte → list byte → list byte := zip_with bxor.

(** [n] blocks of [src]; the result holds the output and the next chaining value. *)
Fixpoint encryptBlocks (b : Block) (n : nat) (iv src : list byte) : list byte * list byte :=
  match n with
  | O => ([], iv)
  | S n =>
      let c := blockEncrypt b (xorBytes (take BlockSize src) iv) in
      let '(rest, iv') := encryptBlocks b n c (drop BlockSize src) in
      (c ++ rest, iv')
  end.

Fixpoint decryptBlocks (b : Block) (n : nat) (iv src : list byte) : list byte * list byte :=
  match n with
  | O => ([], iv)
  | S n =>
      let c := take BlockSize src in
      let p := xorBytes (blockDecrypt b c) iv in
      let '(rest, iv') := decryptBlocks b n c (drop BlockSize src) in
      (p ++ rest, iv')
  end.

Inductive cbcError :=
| InvalidKeySize
| NotMultipleOfBlockSize (n : nat)
| PaddingTooLong (pad n : nat)
| PlaintextSize | LastBlockSize
| RandomFailed
| StatFailed | ReadFailed | ReadNotFull (n : nat)
| WriteFailed | WriteNotFull (n : nat) | ShortWrite
| TruncateFailed.

Definition CryptBlocks (f : nat → list byte → list byte → list byte * list byte)
    (iv src : list byte) : outcome cbcError (list byte * list byte) :=
  if decide (length src `mod` BlockSize = 0)
  then Ok (f (length src / BlockSize) iv src) else Panic.

(** [cipher.NewCBCEncrypter] and [cipher.NewCBCDecrypter] panic on an iv that is
    not one block long; the value they return is the chaining value. *)
Definition newCBC (iv : list byte) : outcome cbcError (list byte) :=
  if decide (length iv = BlockSize) then Ok iv else Panic.

(** ** Whole messages *)

Definition unpad (src : list byte) : outcome cbcError (list byte) :=
  match last src with
  | None => Panic
  | Some p =>
      let padLen := Z.to_nat (b2z p) in
      if decide (length src < padLen) then Err (PaddingTooLong padLen (length src))
      else Ok (take (length src - padLen) src)
  end.

(** Decryption is in place: next to the result stands what the caller's
    [ciphertext] holds afterwards. *)
Definition Decrypt `{Crypto} (key iv ciphertext : list byte) :
    outcome cbcError (list byte) * list byte :=
  match NewCipher key with
  | None => (Err InvalidKeySize, ciphertext)
  | Some block =>
      if decide (length ciphertext = 0 ∨ length ciphertext `mod` BlockSize ≠ 0)
      then (Err (NotMultipleOfBlockSize (length ciphertext)), ciphertext)
      else
        match newCBC iv ≫= λ iv, CryptBlocks (decryptBlocks block) iv ciphertext with
        | Ok (plain, _) => (unpad plain, plain)
        | Err e => (Err e, ciphertext)
        | Panic => (Panic, ciphertext)
        | OutOfFuel => (OutOfFuel, ciphertext)
        end
  end.

Definition paddingLen (n : nat) : nat := BlockSize - n `mod` BlockSize.
Definition padding (n : nat) : list byte :=
  replicate (paddingLen n) (z2b (Z.of_nat (paddingLen n))).

(** [spare] is the part of the plaintext's backing array after its length, which
    [append] uses when it has room for the padding; the second component is what
    it holds afterwards. [rnd] is the next read of [rand.Reader]. *)
Definition Encrypt `{Crypto} (key : list byte) (iv : option (list byte))
    (plaintext spare : list byte) (rnd : option (list byte)) :
    outcome cbcError (list byte) * list byte :=
  let sizeOfLastBlock := length plaintext `mod` BlockSize in
  let pad := padding (length plaintext) in
  let plaintextStart := take (length plaintext - sizeOfLastBlock) plaintext in
  let lastBlock := drop (length plaintext - sizeOfLastBlock) plaintext ++ pad in
  let spare' := if decide (length pad ≤ length spare)
                then pad ++ drop (length pad) spare else spare in
  (if decide (length plaintextStart `mod` BlockSize ≠ 0) then Err PlaintextSize
   else if decide (length lastBlock ≠ BlockSize) then Err LastBlockSize
   else match NewCipher key with
        | None => Err InvalidKeySize
        | Some block =>
            '(prefix, iv) ← match iv with
                            | None => match rnd with
                                      | None => Err RandomFailed
                                      | Some r => let r := resize BlockSize x00 r in Ok (r, r)
                                      end
                            | Some iv => Ok ([], iv)
                            end;
            iv ← newCBC iv;
            '(c1, iv) ← CryptBlocks (encryptBlocks block) iv plaintextStart;
            '(c2, _) ← CryptBlocks (encryptBlocks block) iv lastBlock;
            Ok (prefix ++ c1 ++ c2)
        end,
   spare').

(** ** Files, readers and writers *)

(** What one I/O call meets: it succeeds, fails after [k] bytes, or returns
    after [k] bytes without an error. *)
Inductive fault := Fine | Fails (k : nat) | Short (k : nat).

Definition nextFault (l : list fault) : fault * list fault :=
  match l with [] => (Fine, []) | f :: l => (f, l) end.

Definition writeAt (c : list byte) (off : nat) (b : list byte) : list byte :=
  resize off x00 c ++ b ++ drop (off + length b) c.

(** How many of [n] bytes a call transfers, and whether it reports an error. *)
Definition transfer (f : fault) (n : nat) : nat * bool :=
  match f with
  | Fine => (n, false)
  | Fails k => (k `min` n, true)
  | Short k => (k `min` n, false)
  end.

Record File := mkFile { contents : list byte; pos : nat; faults : list fault }.

Definition Stat (f : File) : option nat * File :=
  let '(flt, fs) := nextFault (faults f) in
  (match flt with Fails _ => None | _ => Some (length (contents f)) end,
   mkFile (contents f) (pos f) fs).

(** [io.ReadFull]: a read that returns early without an error is continued, so
    only [Fails] stops it before the end of the file. *)
Definition readFull (n : nat) (f : File) : option (list byte) * File :=
  let '(flt, fs) := nextFault (faults f) in
  let b := take n (drop (pos f) (contents f)) in
  match flt with
  | Fails k => (None, mkFile (contents f) (pos f + k `min` length b) fs)
  | _ => (if decide (length b = n) then Some b else None,
          mkFile (contents f) (pos f + length b) fs)
  end.

Definition fileWriteAt (b : list byte) (off : nat) (f : File) : (nat * bool) * File :=
  let '(flt, fs) := nextFault (faults f) in
  let '(n, e) := transfer flt (length b) in
  ((n, e), mkFile (writeAt (contents f) off (take n b)) (pos f) fs).

Definition Truncate (n : nat) (f : File) : bool * File :=
  let '(flt, fs) := nextFault (faults f) in
  match flt with
  | Fails _ => (false, mkFile (contents f) (pos f) fs)
  | _ => (true, mkFile (resize n x00 (contents f)) (pos f) fs)
  end.

Definition chunkSize : nat := 32 * 1024.

(** The loop of [DecryptFile]: [bufLen] is [len(buf)]; the result is the last
    byte decrypted. *)
Fixpoint decryptLoop (fuel : nat) (block : Block) (iv : list byte) (fileSize bufSize bufLen writePtr : nat)
    (lastByte : byte) (f : File) : outcome cbcError byte * File :=
  if decide (writePtr < fileSize) then
    match fuel with
    | O => (OutOfFuel, f)
    | S fuel =>
        let bufLen := if decide (fileSize < writePtr + bufSize) then fileSize - writePtr else bufLen in
        let '(r, f) := readFull bufLen f in
        match r with
        | None => (Err ReadFailed, f)
        | Some buf =>
            if decide (length buf ≠ bufLen) then (Err (ReadNotFull (length buf)), f) else
            match CryptBlocks (decryptBlocks block) iv buf with
            | Ok (plain, iv) =>
                let '((n, e), f) := fileWriteAt plain writePtr f in
                if (e : bool) then (Err WriteFailed, f)
                else if decide (n ≠ bufLen) then (Err (WriteNotFull n), f)
                else match last plain with
                     | None => (Panic, f)
                     | Some b => decryptLoop fuel block iv fileSize bufSize bufLen (writePtr + bufLen) b f
                     end
            | Err e => (Err e, f)
            | Panic => (Panic, f)
            | OutOfFuel => (OutOfFuel, f)
            end
        end
    end
  else (Ok lastByte, f).

Definition DecryptFile `{Crypto} (key iv : list byte) (f : File) : outcome cbcError unit * File :=
  match NewCipher key with
  | None => (Err InvalidKeySize, f)
  | Some block =>
      match newCBC iv with
      | Ok iv =>
          let '(st, f) := Stat f in
          match st with
          | None => (Err StatFailed, f)
          | Some fileSize =>
              if decide (fileSize `mod` BlockSize ≠ 0) then (Err (NotMultipleOfBlockSize fileSize), f)
              else
                let bufSize := if decide (fileSize < chunkSize) then fileSize else chunkSize in
                let '(r, f) := decryptLoop (S fileSize) block iv fileSize bufSize bufSize 0 x00 f in
                match r with
                | Ok lastByte =>
                    let pad := Z.to_nat (b2z lastByte) in
                    if decide (fileSize < pad) then (Err (PaddingTooLong pad fileSize), f)
                    else let '(ok, f) := Truncate (fileSize - pad) f in
                         if (ok : bool) then (Ok tt, f) else (Err TruncateFailed, f)
                | Err e => (Err e, f)
                | Panic => (Panic, f)
                | OutOfFuel => (OutOfFuel, f)
                end
          end
      | Err e => (Err e, f)
      | Panic => (Panic, f)
      | OutOfFuel => (OutOfFuel, f)
      end
  end.

(** ** Streams *)

(** A source: [rdata] is what it still yields, [rfail] whether it then fails
    instead of reporting the end. [io.ReadFull] itself says [io.ErrUnexpectedEOF] for
    a last short block, and the code takes that for the end; a source whose own error
    that is has ended for the code too, so [rfail] stands for any other error. *)
Record Reader := mkReader { rdata : list byte; rfail : bool }.

Inductive readEnd := ReadOk | ReadEOF | ReadError.

Definition streamRead (n : nat) (r : Reader) : list byte * readEnd * Reader :=
  let b := take n (rdata r) in
  (b, (if decide (length b = n) then ReadOk else if rfail r then ReadError else ReadEOF),
   mkReader (drop n (rdata r)) (rfail r)).

(** A sink; [hasWriterAt] is the result of the type assertion to [io.WriterAt]. *)
Record Writer := mkWriter { out : list byte; wfaults : list fault; hasWriterAt : bool }.

Definition sinkWrite (b : list byte) (w : Writer) : (nat * bool) * Writer :=
  let '(flt, fs) := nextFault (wfaults w) in
  let '(n, e) := transfer flt (length b) in
  ((n, e), mkWriter (out w ++ take n b) fs (hasWriterAt w)).

Definition sinkWriteAt (b : list byte) (off : nat) (w : Writer) : (nat * bool) * Writer :=
  let '(flt, fs) := nextFault (wfaults w) in
  let '(n, e) := transfer flt (length b) in
  ((n, e), mkWriter (writeAt (out w) off (take n b)) fs (hasWriterAt w)).

Fixpoint writeAllLoop (fuel : nat) (data : list byte) (w : Writer) : outcome cbcError unit * Writer :=
  match data with
  | [] => (Ok tt, w)
  | _ =>
      match fuel with
      | O => (OutOfFuel, w)
      | S fuel =>
          let '((n, e), w) := sinkWrite data w in
          if (e : bool) then (Err WriteFailed, w)
          else if decide (n = 0) then (Err ShortWrite, w)
          else writeAllLoop fuel (drop n data) w
      end
  end.
Definition writeAll (w : Writer) (data : list byte) : outcome cbcError unit * Writer :=
  writeAllLoop (length data) data w.

(** Both places where [EncryptStream] writes. *)
Definition streamWrite (data : list byte) (writePtr : nat) (w : Writer) : outcome cbcError unit * Writer :=
  if hasWriterAt w then
    let '((n, e), w) := sinkWriteAt data writePtr w in
    if (e : bool) then (Err WriteFailed, w)
    else if decide (n ≠ length data) then (Err ShortWrite, w) else (Ok tt, w)
  else writeAll w data.

(** The variables of the loop; each hasher is the list of bytes written to it. *)
Record streamState := mkStream {
  sIv : list byte;
  plainHasher : list byte;
  cipherHasher : list byte;
  cipherMAC : list byte;
  size : nat;
  extraSize : nat;
  writePtr : nat
}.

Fixpoint streamLoop (fuel : nat) (block : Block) (st : streamState) (r : Reader) (w : Writer) :
    outcome cbcError streamState * Writer :=
  match fuel with
  | O => (OutOfFuel, w)
  | S fuel =>
      let '(buf, e, r) := streamRead chunkSize r in
      let size' := size st + length buf in
      let '(buf', extra', hasMore) :=
        match e with
        | ReadEOF => (buf ++ padding size', paddingLen size', false)
        | _ => (buf, extraSize st, true)
        end in
      match e with
      | ReadError => (Err ReadFailed, w)
      | _ =>
          match CryptBlocks (encryptBlocks block) (sIv st) buf' with
          | Ok (c, iv) =>
              let '(res, w) := streamWrite c (writePtr st) w in
              match res with
              | Ok _ =>
                  let st := mkStream iv (plainHasher st ++ buf) (cipherHasher st ++ c)
                              (cipherMAC st ++ c) size' extra' (writePtr st + length c) in
                  if (hasMore : bool) then streamLoop fuel block st r w else (Ok st, w)
              | Err e => (Err e, w)
              | Panic => (Panic, w)
              | OutOfFuel => (OutOfFuel, w)
              end
          | Err e => (Err e, w)
          | Panic => (Panic, w)
          | OutOfFuel => (OutOfFuel, w)
          end
      end
  end.

Record uploaded := mkUploaded {
  plainHash : list byte;
  cipherHash : list byte;
  plainSize : nat;
  cipherSize : nat
}.

Definition EncryptStream `{Crypto} (key iv macKey : list byte) (r : Reader) (w : Writer) :
    outcome cbcError uploaded * Writer :=
  match NewCipher key with
  | None => (Err InvalidKeySize, w)
  | Some block =>
      match newCBC iv with
      | Ok iv =>
          let '(res, w) := streamLoop (S (length (rdata r))) block (mkStream iv [] [] iv 0 0 0) r w in
          match res with
          | Ok st =>
              let sum := hmacSha256 macKey (cipherMAC st) in
              if decide (length sum < 10) then (Panic, w) else
              let mac := take 10 sum in
              let extra := extraSize st + 10 in
              let '(res, w) := streamWrite mac (writePtr st) w in
              match res with
              | Ok _ => (Ok (mkUploaded (sha256 (plainHasher st)) (sha256 (cipherHasher st ++ mac))
                              (size st) (size st + extra)), w)
              | Err e => (Err e, w)
              | Panic => (Panic, w)
              | OutOfFuel => (OutOfFuel, w)
              end
          | Err e => (Err e, w)
          | Panic => (Panic, w)
          | OutOfFuel => (OutOfFuel, w)
          end
      | Err e => (Err e, w)
      | Panic => (Panic, w)
      | OutOfFuel => (OutOfFuel, w)
      end
  end.

(** * Lemmas *)

Lemma bxor_cancel a b : bxor (bxor a b) b = a.
Proof.
  apply b2z_inj. unfold bxor. rewrite !b2z_z2b.
  change 256%Z with (2 ^ 8)%Z. rewrite <- !Z.land_ones by lia.
  rewrite <- (Z.mod_small (b2z a) (2 ^ 8)), <- Z.land_ones by (pose proof (b2z_range a); lia).
  apply Z.bits_inj'. intros n Hn.
  rewrite !Z.land_spec, !Z.lxor_spec, !Z.land_spec, !Z.lxor_spec, !Z.land_spec.
  by destruct (Z.testbit (b2z a) n), (Z.testbit (b2z b) n), (Z.testbit (Z.ones 8) n).
Qed.

Lemma xorBytes_cancel l k : length l = length k → xorBytes (xorBytes l k) k = l.
Proof.
  revert k; induction l as [|a l IH]; intros [|b k] [=]; [done|].
  cbn. by rewrite bxor_cancel, IH.
Qed.

Lemma length_xorBytes l k n : length l = n → length k = n → length (xorBytes l k) = n.
Proof. intros. unfold xorBytes. rewrite length_zip_with. lia. Qed.

Lemma mod_block_mult n : n `mod` BlockSize = 0 → n = n / BlockSize * BlockSize.
Proof. intros H. pose proof (Nat.div_mod_eq n BlockSize). lia. Qed.

Lemma CryptBlocks_mult f iv src n :
  length src = n * BlockSize → CryptBlocks f iv src = Ok (f n iv src).
Proof.
  intros H. unfold CryptBlocks. rewrite H, Nat.Div0.mod_mul, Nat.div_mul by done.
  by rewrite decide_True.
Qed.

Lemma paddingLen_range n : 1 ≤ paddingLen n ≤ BlockSize.
Proof.
  unfold paddingLen. pose proof (Nat.mod_upper_bound n BlockSize ltac:(done)).
  unfold BlockSize in *. lia.
Qed.

Lemma length_padding n : length (padding n) = paddingLen n.
Proof. apply length_replicate. Qed.

(** What padding brings a length to. *)
Definition paddedBlocks (n : nat) : nat := S (n / BlockSize).

Lemma padded_length n : n + paddingLen n = paddedBlocks n * BlockSize.
Proof.
  unfold paddingLen, paddedBlocks. pose proof (Nat.div_mod_eq n BlockSize).
  pose proof (Nat.mod_upper_bound n BlockSize ltac:(done)).
  unfold BlockSize in *. lia.
Qed.

Lemma last_padding p n : last (p ++ padding n) = Some (z2b (Z.of_nat (paddingLen n))).
Proof.
  unfold padding. pose proof (paddingLen_range n).
  destruct (paddingLen n) as [|k]; [lia|].
  by rewrite replicate_S_end, assoc, last_snoc by apply _.
Qed.

Lemma padding_byte n : Z.to_nat (b2z (z2b (Z.of_nat (paddingLen n)))) = paddingLen n.
Proof.
  pose proof (paddingLen_range n). unfold BlockSize in *.
  rewrite b2z_z2b_small by lia. lia.
Qed.

Lemma unpad_padding p : unpad (p ++ padding (length p)) = Ok p.
Proof.
  unfold unpad. rewrite last_padding, padding_byte, length_app, length_padding.
  rewrite decide_False by lia. by rewrite Nat.add_sub, take_app_length.
Qed.

Section blocks.
Context (b : Block).
Hypothesis enc_len : ∀ x, length x = BlockSize → length (blockEncrypt b x) = BlockSize.
Hypothesis dec_len : ∀ x, length x = BlockSize → length (blockDecrypt b x) = BlockSize.
Hypothesis dec_enc : ∀ x, length x = BlockSize → blockDecrypt b (blockEncrypt b x) = x.

Lemma take_block n (s : list byte) : length s = S n * BlockSize → length (take BlockSize s) = BlockSize.
Proof using. rewrite length_take. unfold BlockSize. lia. Qed.
Lemma drop_block n (s : list byte) : length s = S n * BlockSize → length (drop BlockSize s) = n * BlockSize.
Proof using. rewrite length_drop. unfold BlockSize. lia. Qed.

Lemma encryptBlocks_length n iv s :
  length iv = BlockSize → length s = n * BlockSize →
  length (encryptBlocks b n iv s).1 = n * BlockSize ∧ length (encryptBlocks b n iv s).2 = BlockSize.
Proof.
  revert iv s; induction n as [|n IH]; intros iv s Hiv Hs; [done|]. cbn [encryptBlocks].
  set (c := blockEncrypt b _).
  assert (length c = BlockSize) as Hc
    by (apply enc_len, length_xorBytes; [by eapply take_block|done]).
  destruct (IH c (drop BlockSize s) Hc (drop_block _ _ Hs)) as [H1 H2].
  destruct (encryptBlocks b n c (drop BlockSize s)) as [r iv'] eqn:E. cbn [fst snd] in *.
  rewrite length_app. lia.
Qed.

Lemma decryptBlocks_length n iv s :
  length iv = BlockSize → length s = n * BlockSize →
  length (decryptBlocks b n iv s).1 = n * BlockSize ∧ length (decryptBlocks b n iv s).2 = BlockSize.
Proof.
  revert iv s; induction n as [|n IH]; intros iv s Hiv Hs; [done|]. cbn [decryptBlocks].
  pose proof (take_block _ _ Hs) as Hc.
  destruct (IH (take BlockSize s) (drop BlockSize s) Hc (drop_block _ _ Hs)) as [H1 H2].
  destruct (decryptBlocks b n (take BlockSize s) (drop BlockSize s)) as [r iv'] eqn:E. cbn [fst snd] in *.
  rewrite length_app, (length_xorBytes _ _ BlockSize); [lia|by apply dec_len|done].
Qed.

Lemma encryptBlocks_app n m iv s t :
  length s = n * BlockSize →
  encryptBlocks b (n + m) iv (s ++ t) =
  let '(c, iv) := encryptBlocks b n iv s in
  let '(d, iv) := encryptBlocks b m iv t in (c ++ d, iv).
Proof using.
  revert iv s; induction n as [|n IH]; intros iv s Hs.
  { destruct s; [|done]. cbn. by destruct (encryptBlocks b m iv t). }
  cbn [Nat.add encryptBlocks].
  rewrite take_app_le, drop_app_le by (unfold BlockSize in *; lia).
  rewrite (IH _ _ (drop_block _ _ Hs)).
  destruct (encryptBlocks b n _ _) as [c iv']. destruct (encryptBlocks b m iv' t) as [d iv''].
  by rewrite <- (assoc_L (++)).
Qed.

Lemma decryptBlocks_app n m iv s t :
  length s = n * BlockSize →
  decryptBlocks b (n + m) iv (s ++ t) =
  let '(c, iv) := decryptBlocks b n iv s in
  let '(d, iv) := decryptBlocks b m iv t in (c ++ d, iv).
Proof using.
  revert iv s; induction n as [|n IH]; intros iv s Hs.
  { destruct s; [|done]. cbn. by destruct (decryptBlocks b m iv t). }
  cbn [Nat.add decryptBlocks].
  rewrite take_app_le, drop_app_le by (unfold BlockSize in *; lia).
  rewrite (IH _ _ (drop_block _ _ Hs)).
  destruct (decryptBlocks b n _ _) as [c iv']. destruct (decryptBlocks b m iv' t) as [d iv''].
  by rewrite <- (assoc_L (++)).
Qed.

Lemma decrypt_encryptBlocks n iv s :
  length iv = BlockSize → length s = n * BlockSize →
  (decryptBlocks b n iv (encryptBlocks b n iv s).1).1 = s.
Proof.
  revert iv s; induction n as [|n IH]; intros iv s Hiv Hs.
  { by destruct s. }
  cbn [encryptBlocks]. set (c := blockEncrypt b _).
  assert (length (xorBytes (take BlockSize s) iv) = BlockSize) as Hx
    by (apply length_xorBytes; [by eapply take_block|done]).
  assert (length c = BlockSize) as Hc by by apply enc_len.
  specialize (IH c (drop BlockSize s) Hc (drop_block _ _ Hs)).
  destruct (encryptBlocks b n c (drop BlockSize s)) as [r iv']. cbn [fst decryptBlocks] in *.
  rewrite take_app_length', drop_app_length' by done.
  destruct (decryptBlocks b n c r) as [p iv'']. cbn [fst] in *. subst p c.
  rewrite dec_enc, xorBytes_cancel by (done || by rewrite (take_block _ _ Hs)).
  apply take_drop.
Qed.
End blocks.

(** The reference meaning: the whole padded message through the chain at once. *)
Definition cbcOf (block : Block) (iv p : list byte) : list byte :=
  (encryptBlocks block (paddedBlocks (length p)) iv (p ++ padding (length p))).1.

Lemma length_padded p : length (p ++ padding (length p)) = paddedBlocks (length p) * BlockSize.
Proof. by rewrite length_app, length_padding, padded_length. Qed.

Section messages.
Context `{CryptoLaws}.

Lemma length_cbcOf key block iv p :
  NewCipher key = Some block → length iv = BlockSize →
  length (cbcOf block iv p) = paddedBlocks (length p) * BlockSize.
Proof.
  intros Hk Hiv. apply encryptBlocks_length; [|done|apply length_padded].
  intros x. by eapply encrypt_length.
Qed.

(** Every branch of [Encrypt]: the two size checks never fire. *)
Lemma Encrypt_spec key iv p spare rnd :
  (Encrypt key iv p spare rnd).1 =
  match NewCipher key, iv, rnd with
  | None, _, _ => Err InvalidKeySize
  | Some block, Some iv, _ =>
      if decide (length iv = BlockSize) then Ok (cbcOf block iv p) else Panic
  | Some _, None, None => Err RandomFailed
  | Some block, None, Some r =>
      Ok (resize BlockSize x00 r ++ cbcOf block (resize BlockSize x00 r) p)
  end.
Proof.
  unfold Encrypt. cbn [fst].
  set (n := length p). set (k := n - n `mod` BlockSize).
  assert (k = n / BlockSize * BlockSize ∧ k ≤ n) as [Hk Hkn].
  { subst k. pose proof (Nat.div_mod_eq n BlockSize). lia. }
  assert (length (take k p) = n / BlockSize * BlockSize) as H1
    by (rewrite length_take; fold n; lia).
  assert (length (drop k p ++ padding n) = BlockSize) as H2.
  { rewrite length_app, length_drop, length_padding. fold n.
    pose proof (padded_length n). unfold paddedBlocks in *. lia. }
  rewrite (decide_False (P := length (take k p) `mod` BlockSize ≠ 0))
    by (rewrite H1, Nat.Div0.mod_mul; auto).
  rewrite (decide_False (P := length (drop k p ++ padding n) ≠ BlockSize)) by auto.
  destruct (NewCipher key) as [block|] eqn:HN; [|done].
  assert (∀ pre iv, length iv = BlockSize →
    ('(c1, iv') ← CryptBlocks (encryptBlocks block) iv (take k p);
     '(c2, _) ← CryptBlocks (encryptBlocks block) iv' (drop k p ++ padding n);
     Ok (pre ++ c1 ++ c2)) = Ok (pre ++ cbcOf block iv p)) as Hcrypt.
  { intros pre v Hv. unfold cbcOf, paddedBlocks. fold n.
    rewrite (CryptBlocks_mult _ _ _ (n / BlockSize)) by done.
    replace (p ++ padding n) with (take k p ++ drop k p ++ padding n)
      by (by rewrite app_assoc, take_drop).
    rewrite <- Nat.add_1_r, encryptBlocks_app by done.
    cbn [mbind outcome_bind]. destruct (encryptBlocks block (n / BlockSize) v (take k p)) as [c1 iv'].
    rewrite (CryptBlocks_mult _ _ _ 1) by lia. cbn [mbind outcome_bind].
    by destruct (encryptBlocks block 1 iv' _). }
  destruct iv as [v|]; [|destruct rnd as [r|]; [|done]]; cbn [mbind outcome_bind];
    unfold newCBC.
  - case_decide as Hv; [|done]. exact (Hcrypt [] v Hv).
  - rewrite decide_True by apply length_resize.
    exact (Hcrypt _ (resize BlockSize x00 r) (length_resize _ _ _)).
Qed.

Lemma Decrypt_cbcOf key block iv p :
  NewCipher key = Some block → length iv = BlockSize →
  Decrypt key iv (cbcOf block iv p) = (Ok p, p ++ padding (length p)).
Proof.
  intros Hk Hiv. unfold Decrypt, newCBC. rewrite Hk.
  pose proof (length_cbcOf _ _ _ p Hk Hiv) as Hl.
  rewrite decide_False.
  2:{ rewrite Hl, Nat.Div0.mod_mul. unfold paddedBlocks, BlockSize. lia. }
  rewrite decide_True by done. cbn [mbind outcome_bind].
  rewrite (CryptBlocks_mult _ _ _ _ Hl).
  pose proof (decrypt_encryptBlocks block (λ x, encrypt_length key block x Hk)
    (λ x, decrypt_encrypt key block x Hk) (paddedBlocks (length p)) iv
    (p ++ padding (length p)) Hiv (length_padded p)) as Hd.
  fold (cbcOf block iv p) in Hd.
  destruct (decryptBlocks block _ iv (cbcOf block iv p)) as [q iv']. cbn [fst] in Hd. subst q.
  by rewrite unpad_padding.
Qed.
End messages.

(** Decryption undoes encryption for every key the cipher
    accepts and every plaintext, the empty one included: with a given iv the
    ciphertext decrypts under it, without one the ciphertext starts with the
    random iv it was made with; its length is the plaintext's rounded up to the
    next multiple of sixteen (a whole block more for a multiple), and decryption
    leaves the padded plaintext in the buffer of the ciphertext. *)
Theorem Decrypt_Encrypt `{CryptoLaws} key block p spare rnd :
  NewCipher key = Some block →
  (∀ iv, length iv = BlockSize →
    ∃ c, (Encrypt key (Some iv) p spare rnd).1 = Ok c ∧
         length c = (length p / BlockSize + 1) * BlockSize ∧
         Decrypt key iv c = (Ok p, p ++ padding (length p))) ∧
  (∀ r, rnd = Some r →
    ∃ c, (Encrypt key None p spare rnd).1 = Ok c ∧
         take BlockSize c = resize BlockSize x00 r ∧
         Decrypt key (take BlockSize c) (drop BlockSize c) = (Ok p, p ++ padding (length p))).
Proof.
  intros Hk. split.
  - intros iv Hiv. exists (cbcOf block iv p). rewrite Encrypt_spec, Hk, decide_True by done.
    split_and!; [done| |by eapply Decrypt_cbcOf].
    rewrite (length_cbcOf _ _ _ _ Hk Hiv). unfold paddedBlocks. lia.
  - intros r ->. eexists. rewrite Encrypt_spec, Hk. split; [done|].
    rewrite take_app_length', drop_app_length' by (by rewrite length_resize).
    split; [done|]. eapply Decrypt_cbcOf; [done|apply length_resize].
Qed.

(** A cipher and hashes that satisfy the laws, to evaluate the definitions on. *)
Definition toyBlock : Block := mkBlock (@rev byte) (@rev byte).
#[local] Instance toyCrypto : Crypto := {|
  NewCipher key := if decide (length key = 32) then Some toyBlock else None;
  sha256 msg := resize 32 x00 (rev msg);
  hmacSha256 key msg := resize 32 x00 (rev (key ++ msg));
  hmacSha512 key msg := resize 64 x00 (rev (key ++ msg))
|}.
#[local] Instance toyCryptoLaws : CryptoLaws.
Proof.
  split; cbn [NewCipher toyCrypto hmacSha256 hmacSha512]; intros;
    try (case_decide; simplify_eq); cbn [blockEncrypt blockDecrypt toyBlock];
    rewrite ?length_rev, ?rev_involutive, ?length_resize; done.
Qed.

Lemma Decrypt_Encrypt_witness :
  (∀ iv, length iv = BlockSize →
    ∃ c, (Encrypt (replicate 32 x07) (Some iv) [x41; x42; x43] [x00] (Some [x09])).1 = Ok c ∧
         length c = (3 / BlockSize + 1) * BlockSize ∧
         Decrypt (replicate 32 x07) iv c = (Ok [x41; x42; x43], [x41; x42; x43] ++ padding 3)) ∧
  (∀ r, Some [x09] = Some r →
    ∃ c, (Encrypt (replicate 32 x07) None [x41; x42; x43] [x00] (Some [x09])).1 = Ok c ∧
         take BlockSize c = resize BlockSize x00 r ∧
         Decrypt (replicate 32 x07) (take BlockSize c) (drop BlockSize c) =
           (Ok [x41; x42; x43], [x41; x42; x43] ++ padding 3)).
Proof.
  exact (Decrypt_Encrypt (replicate 32 x07) toyBlock [x41; x42; x43] [x00] (Some [x09]) eq_refl).
Defined.

(** ** Files *)

Lemma writeAt_mid done_ b old rest :
  length old = length b →
  writeAt (done_ ++ old ++ rest) (length done_) b = done_ ++ b ++ rest.
Proof.
  intros Hl. unfold writeAt. rewrite resize_le by (rewrite length_app; lia).
  rewrite take_app_length. f_equal. f_equal.
  rewrite <- Hl, <- length_app, (assoc_L (++)). apply drop_app_length.
Qed.

Lemma readFull_mid done_ b rest :
  readFull (length b) (mkFile (done_ ++ b ++ rest) (length done_) []) =
  (Some b, mkFile (done_ ++ b ++ rest) (length done_ + length b) []).
Proof.
  unfold readFull. cbn [nextFault faults pos contents].
  rewrite drop_app_length, take_app_length. by rewrite decide_True.
Qed.

Lemma decryptLoop_spec block (dec_len : ∀ x, length x = BlockSize → length (blockDecrypt block x) = BlockSize)
    fuel iv k m bufLen done_ rest lastByte :
  length iv = BlockSize → length rest = m * BlockSize → length rest < fuel →
  0 < k → (rest = [] ∨ bufLen = k * BlockSize) →
  decryptLoop fuel block iv (length done_ + length rest) (k * BlockSize) bufLen (length done_)
      lastByte (mkFile (done_ ++ rest) (length done_) []) =
  (Ok (default lastByte (last (decryptBlocks block m iv rest).1)),
   mkFile (done_ ++ (decryptBlocks block m iv rest).1) (length done_ + length rest) []).
Proof.
  revert iv m bufLen done_ rest lastByte. induction fuel as [|fuel IH];
    intros iv m bufLen done_ rest lastByte Hiv Hrest Hfuel Hk Hbuf; [lia|].
  cbn [decryptLoop]. case_decide as Hlt.
  2:{ destruct rest; [|cbn in Hlt; lia]. destruct m; [|unfold BlockSize in *; cbn in Hrest; lia].
      cbn. by rewrite Nat.add_0_r. }
  destruct Hbuf as [->| ->]; [cbn in Hlt; lia|].
  set (n := if decide _ then _ else _).
  assert (∃ j l, n = j * BlockSize ∧ m = j + l ∧ 0 < j ∧ (l = 0 ∨ j = k)) as (j & l & Hn & -> & Hj & Hjl).
  { subst n. case_decide.
    - exists m, 0. unfold BlockSize in *. lia.
    - exists k, (m - k). unfold BlockSize in *. lia. }
  clearbody n. subst n.
  assert (∃ r1 r2, rest = r1 ++ r2 ∧ length r1 = j * BlockSize) as (r1 & r2 & -> & Hr1).
  { exists (take (j * BlockSize) rest), (drop (j * BlockSize) rest). rewrite take_drop, length_take.
    unfold BlockSize in *. split; [done|lia]. }
  rewrite length_app in *. rewrite <- Hr1, readFull_mid, decide_False by auto.
  rewrite (CryptBlocks_mult _ _ _ j) by done. rewrite decryptBlocks_app by done.
  pose proof (decryptBlocks_length block dec_len j iv r1 Hiv Hr1) as [Hp1 Hiv1].
  destruct (decryptBlocks block j iv r1) as [p1 iv1]. cbn [fst snd] in Hp1, Hiv1.
  unfold fileWriteAt. cbn [nextFault faults contents transfer pos]. rewrite firstn_all.
  rewrite writeAt_mid, decide_False by lia.
  destruct (last p1) as [lb|] eqn:Hlast.
  2:{ apply last_None in Hlast. subst p1. unfold BlockSize in *; cbn in Hp1. lia. }
  specialize (IH iv1 l (length r1) (done_ ++ p1) r2 lb Hiv1).
  rewrite length_app in IH. replace (length done_ + (length r1 + length r2))
    with (length done_ + length p1 + length r2) by lia.
  replace (length done_ + length r1) with (length done_ + length p1) by lia.
  rewrite (assoc_L (++)), IH; [|unfold BlockSize in *; lia..|done|].
  2:{ destruct Hjl as [->| ->]; [left|by right]. apply length_zero_iff_nil. unfold BlockSize in *. lia. }
  destruct (decryptBlocks block l iv1 r2) as [p2 iv2]. cbn [fst].
  rewrite last_app, <- (assoc_L (++)). destruct (last p2); cbn; by rewrite ?Hlast.
Qed.

(** Decrypting a file in place, chunk by chunk, is decrypting
    its contents at once: on a file that is not empty [DecryptFile] fails
    exactly when [Decrypt] fails on the contents, with the same error, and
    leaves the plaintext in the file when it succeeds and the undivided buffer
    of [Decrypt] when it fails. The only difference is the empty file, which
    [Decrypt] refuses and [DecryptFile] accepts. *)
Theorem DecryptFile_Decrypt `{CryptoLaws} key iv c :
  length iv = BlockSize →
  (c ≠ [] →
    (DecryptFile key iv (mkFile c 0 [])).1 = (λ _, tt) <$> (Decrypt key iv c).1 ∧
    contents (DecryptFile key iv (mkFile c 0 [])).2 =
      match (Decrypt key iv c).1 with Ok p => p | _ => (Decrypt key iv c).2 end) ∧
  (is_Some (NewCipher key) →
    (Decrypt key iv []).1 = Err (NotMultipleOfBlockSize 0) ∧
    DecryptFile key iv (mkFile [] 0 []) = (Ok tt, mkFile [] 0 [])).
Proof.
  intros Hiv. split.
  2:{ intros [b Hb]. unfold DecryptFile, Decrypt, newCBC. rewrite Hb, (decide_True (P := length iv = BlockSize)) by done.
      by vm_compute. }
  intros Hc. unfold DecryptFile, Decrypt. destruct (NewCipher key) as [block|] eqn:Hk; [|done].
  unfold newCBC. rewrite (decide_True (P := length iv = BlockSize)) by done.
  cbn [Stat nextFault faults contents pos mbind outcome_bind]. unfold Stat. cbn [nextFault faults contents pos].
  assert (length c ≠ 0) as Hc0 by (destruct c; done).
  destruct (decide (length c `mod` BlockSize = 0)) as [Hm|Hm].
  2:{ rewrite (decide_True (P := length c `mod` BlockSize ≠ 0)) by done.
      rewrite decide_True by auto. done. }
  rewrite (decide_False (P := length c `mod` BlockSize ≠ 0)) by auto.
  rewrite (decide_False (P := length c = 0 ∨ _)) by naive_solver.
  set (m := length c / BlockSize). pose proof (mod_block_mult _ Hm) as Hlen. fold m in Hlen.
  rewrite (CryptBlocks_mult _ _ _ m) by done.
  assert (∃ k, 0 < k ∧ (if decide (length c < chunkSize) then length c else chunkSize) = k * BlockSize)
    as (k & Hk0 & ->).
  { case_decide; [exists m; unfold BlockSize in *; lia|exists 2048; split; [lia|done]]. }
  pose proof (decryptLoop_spec block (λ x, decrypt_length key block x Hk) (S (length c)) iv k m
    (k * BlockSize) [] c x00 Hiv Hlen ltac:(lia) Hk0 (or_intror eq_refl)) as Hloop.
  cbn [app length Nat.add] in Hloop. rewrite Hloop. clear Hloop.
  pose proof (decryptBlocks_length block (λ x, decrypt_length key block x Hk) m iv c Hiv Hlen) as [Hp _].
  destruct (decryptBlocks block m iv c) as [p iv']. cbn [fst] in *. cbn [app length Nat.add].
  unfold unpad. destruct (last p) as [lb|] eqn:Hlast.
  2:{ apply last_None in Hlast. subst p. cbn [length] in Hp. lia. }
  cbn [default]. replace (length p) with (length c) by lia.
  cbn [from_option id]. case_decide; [done|].
  unfold Truncate. cbn [nextFault faults contents pos fst snd]. split; [done|].
  apply resize_le. lia.
Qed.

Lemma DecryptFile_Decrypt_witness :
  let c := cbcOf toyBlock (replicate 16 x05) [x41; x42; x43] in
  (DecryptFile (replicate 32 x07) (replicate 16 x05) (mkFile c 0 [])).1 =
    (λ _, tt) <$> (Decrypt (replicate 32 x07) (replicate 16 x05) c).1 ∧
  contents (DecryptFile (replicate 32 x07) (replicate 16 x05) (mkFile c 0 [])).2 = [x41; x42; x43].
Proof.
  exact (proj1 (DecryptFile_Decrypt (replicate 32 x07) (replicate 16 x05)
    (cbcOf toyBlock (replicate 16 x05) [x41; x42; x43]) eq_refl) ltac:(discriminate)).
Defined.

(** ** Streams *)

(** A sink whose calls transfer everything, or, behind [writeAll], at least
    one byte each. *)
Definition reliableFault (at_ : bool) (f : fault) : bool :=
  match f with Fine => true | Fails _ => false | Short k => negb at_ && (0 <? k)%nat end.
Definition reliable (w : Writer) : bool := forallb (reliableFault (hasWriterAt w)) (wfaults w).

Definition writes (data : list byte) (w : Writer) (res : outcome cbcError unit * Writer) : Prop :=
  match res with
  | (Ok _, w') => out w' = out w ++ data ∧ hasWriterAt w' = hasWriterAt w ∧
                  (reliable w = true → reliable w' = true)
  | (Err _, _) => reliable w = false
  | _ => False
  end.

Lemma nextFault_reliable w flt fs o :
  nextFault (wfaults w) = (flt, fs) →
  (reliable w = true → reliable (mkWriter o fs (hasWriterAt w)) = true) ∧
  (reliableFault (hasWriterAt w) flt = false → reliable w = false).
Proof.
  unfold reliable. cbn. destruct (wfaults w) as [|f l]; intros [= <- <-]; cbn; [done|].
  destruct (reliableFault (hasWriterAt w) f); cbn; split; auto; discriminate.
Qed.

Lemma writeAll_writes fuel data w :
  hasWriterAt w = false → length data ≤ fuel → writes data w (writeAllLoop fuel data w).
Proof.
  revert data w. induction fuel as [|fuel IH]; intros data w Hw Hl;
    destruct data as [|b data]; cbn [length] in Hl; try lia; try (cbn; by rewrite app_nil_r).
  cbn [writeAllLoop]. unfold sinkWrite. destruct (nextFault (wfaults w)) as [flt fs] eqn:Hf.
  destruct (nextFault_reliable w flt fs (out w ++ take (transfer flt (length (b :: data))).1 (b :: data)) Hf)
    as [Hrel Hbad].
  destruct (transfer flt (length (b :: data))) as [n e] eqn:Ht. cbn [fst] in Hrel.
  destruct e. { apply Hbad. by destruct flt. }
  case_decide as Hn.
  { subst n. apply Hbad. rewrite Hw. by destruct flt as [|?|[|k]]. }
  assert (length (drop n (b :: data)) ≤ fuel) as Hl' by (rewrite length_drop; cbn [length]; lia).
  specialize (IH (drop n (b :: data)) (mkWriter (out w ++ take n (b :: data)) fs (hasWriterAt w)) Hw Hl').
  destruct (writeAllLoop _ _ _) as [res w']. unfold writes in *.
  destruct res; cbn [out hasWriterAt] in *; [|..|done].
  - destruct IH as (-> & -> & Hr). rewrite <- (assoc_L (++)), take_drop. auto.
  - destruct (reliable w); [by rewrite Hrel in IH|done].
  - done.
Qed.

Lemma writeAt_end o b : writeAt o (length o) b = o ++ b.
Proof.
  unfold writeAt.
  rewrite resize_le, firstn_all by lia. rewrite drop_ge by lia. by rewrite app_nil_r.
Qed.

Lemma streamWrite_writes data ptr w :
  ptr = length (out w) → writes data w (streamWrite data ptr w).
Proof.
  intros ->. unfold streamWrite. destruct (hasWriterAt w) eqn:Hw; [|by apply writeAll_writes].
  unfold sinkWriteAt. destruct (nextFault (wfaults w)) as [flt fs] eqn:Hf.
  destruct (nextFault_reliable w flt fs (out w ++ data) Hf) as [Hrel Hbad]. rewrite Hw in *.
  destruct flt as [|k|k]; cbn [transfer].
  - rewrite decide_False by auto. cbn [writes out hasWriterAt]. rewrite firstn_all, writeAt_end. auto.
  - by apply Hbad.
  - case_decide as Hn; [by apply Hbad|].
    cbn [writes out hasWriterAt]. rewrite take_ge, writeAt_end by lia. auto.
Qed.

Lemma paddingLen_add k n : paddingLen (k * BlockSize + n) = paddingLen n.
Proof. unfold paddingLen. rewrite Nat.add_comm, Nat.Div0.mod_add. done. Qed.
Lemma padding_add k n : padding (k * BlockSize + n) = padding n.
Proof. unfold padding. by rewrite paddingLen_add. Qed.

(** What the loop adds to its state for the input it still has. *)
Definition streamed (block : Block) (st : streamState) (p : list byte) (w : Writer)
    (st' : streamState) (w' : Writer) : Prop :=
  let c := cbcOf block (sIv st) p in
  out w' = out w ++ c ∧ cipherHasher st' = cipherHasher st ++ c ∧
  cipherMAC st' = cipherMAC st ++ c ∧ plainHasher st' = plainHasher st ++ p ∧
  size st' = size st + length p ∧ extraSize st' = paddingLen (length p) ∧
  writePtr st' = writePtr st + length c.

Definition streams (block : Block) (st : streamState) (r : Reader) (w : Writer)
    (res : outcome cbcError streamState * Writer) : Prop :=
  match res with
  | (Ok st', w') => rfail r = false ∧ streamed block st (rdata r) w st' w' ∧
                    (reliable w = true → reliable w' = true)
  | (Err _, _) => rfail r = true ∨ reliable w = false
  | _ => False
  end.

Lemma cbcOf_app block iv s t k :
  length s = k * BlockSize →
  cbcOf block iv (s ++ t) =
  (encryptBlocks block k iv s).1 ++ cbcOf block (encryptBlocks block k iv s).2 t.
Proof.
  intros Hs. unfold cbcOf. rewrite length_app, Hs, padding_add, <- (assoc_L (++)).
  replace (paddedBlocks (k * BlockSize + length t)) with (k + paddedBlocks (length t))
    by (unfold paddedBlocks; rewrite Nat.div_add_l by done; lia).
  rewrite encryptBlocks_app by done.
  destruct (encryptBlocks block k iv s) as [c iv']. cbn [fst snd].
  by destruct (encryptBlocks block (paddedBlocks (length t)) iv' _).
Qed.

Lemma streamLoop_streams block
    (enc_len : ∀ x, length x = BlockSize → length (blockEncrypt block x) = BlockSize) fuel k st r w :
  length (sIv st) = BlockSize → size st = k * BlockSize → writePtr st = length (out w) →
  length (rdata r) < fuel →
  streams block st r w (streamLoop fuel block st r w).
Proof.
  revert k st r w. induction fuel as [|fuel IH]; intros k st r w Hiv Hsz Hptr Hfuel; [lia|].
  cbn [streamLoop]. unfold streamRead. case_decide as Hfull.
  - set (s := take chunkSize (rdata r)) in *. set (t := drop chunkSize (rdata r)).
    assert (rdata r = s ++ t) as Hr by (by rewrite <- (take_drop chunkSize (rdata r))).
    assert (length s = 2048 * BlockSize) as Hs by (rewrite Hfull; done).
    rewrite (CryptBlocks_mult _ _ _ 2048 Hs).
    pose proof (encryptBlocks_length block enc_len _ _ _ Hiv Hs) as [Hc Hiv'].
    pose proof (cbcOf_app block (sIv st) s t _ Hs) as Happ.
    destruct (encryptBlocks block 2048 (sIv st) s) as [c iv']. cbn [fst snd] in *.
    pose proof (streamWrite_writes c _ w Hptr) as Hw.
    destruct (streamWrite c (writePtr st) w) as [[u|e| |] w1]; cbn [writes] in Hw; try done.
    2:{ by right. }
    destruct Hw as (Ho & Hat & Hrel).
    set (st1 := mkStream _ _ _ _ _ _ _).
    specialize (IH (k + 2048) st1 (mkReader t (rfail r)) w1 Hiv').
    assert (length t < fuel) as Hlt.
    { rewrite Hr, length_app in Hfuel. unfold BlockSize in Hs. lia. }
    destruct (streamLoop fuel block st1 _ w1) as [res w2] eqn:Eloop.
    assert (streams block st1 (mkReader t (rfail r)) w1 (res, w2)) as IH'.
    { apply IH; subst st1; cbn [size writePtr rdata]; [lia|rewrite Ho, length_app; lia|done]. }
    clear IH Eloop. unfold streams, streamed in *. cbn [rfail rdata] in *.
    destruct res as [st2|e| |]; [|destruct IH' as [?|?]; [by left|right]|done..].
    + destruct IH' as (Hf & (E1 & E2 & E3 & E4 & E5 & E6 & E7) & Hrel2).
      subst st1. cbn [sIv cipherHasher cipherMAC plainHasher size extraSize writePtr] in *.
      rewrite Hr, Happ, E1, E2, E3, E4, E5, E6, E7, Ho, !length_app, !(assoc_L (++)).
      split_and!; auto; try lia. rewrite Hs, paddingLen_add. done.
    + destruct (reliable w); [|done]. rewrite Hrel in *; done.
  - destruct (rfail r) eqn:Hf; [by left|].
    assert (take chunkSize (rdata r) = rdata r) as ->.
    { apply take_ge. rewrite length_take in Hfull. lia. }
    rewrite Hsz, padding_add, paddingLen_add.
    rewrite (CryptBlocks_mult _ _ _ _ (length_padded (rdata r))).
    destruct (encryptBlocks block _ (sIv st) (rdata r ++ padding _)) as [c iv'] eqn:Ec.
    assert (cbcOf block (sIv st) (rdata r) = c) as Hcbc by (unfold cbcOf; by rewrite Ec).
    pose proof (streamWrite_writes c _ w Hptr) as Hw.
    destruct (streamWrite c (writePtr st) w) as [[u|e| |] w1]; cbn [writes] in Hw; try done.
    2:{ by right. }
    destruct Hw as (Ho & Hat & Hrel). unfold streams, streamed. rewrite Hcbc.
    cbn [sIv cipherHasher cipherMAC plainHasher size extraSize writePtr]. rewrite Hsz. auto 10.
Qed.

(** C11: streaming encryption is whole-message encryption, for
    every source and sink. When [EncryptStream] succeeds, the source reached its
    end, the sink holds exactly the ciphertext that [Encrypt] computes for the
    same key and iv followed by the first ten bytes of the MAC of iv and
    ciphertext, and the hashes and sizes it returns are those of the plaintext
    and of everything written: no short or failed transfer is taken for success.
    It fails only when the source failed or the sink did not keep making
    progress, so against a sound source and sink it always succeeds; it never
    panics and never loops. *)
Theorem EncryptStream_spec `{CryptoLaws} key block iv macKey r w spare rnd :
  NewCipher key = Some block → length iv = BlockSize → out w = [] →
  ∃ c, (Encrypt key (Some iv) (rdata r) spare rnd).1 = Ok c ∧
    let mac := take 10 (hmacSha256 macKey (iv ++ c)) in
    match EncryptStream key iv macKey r w with
    | (Ok u, w') =>
        rfail r = false ∧ out w' = c ++ mac ∧ length mac = 10 ∧
        u = mkUploaded (sha256 (rdata r)) (sha256 (c ++ mac)) (length (rdata r)) (length (c ++ mac))
    | (Err _, _) => rfail r = true ∨ reliable w = false
    | _ => False
    end.
Proof.
  intros Hk Hiv Ho. set (c := cbcOf block iv (rdata r)). exists c.
  split. { by rewrite Encrypt_spec, Hk, decide_True by done. }
  cbv zeta. unfold EncryptStream, newCBC. rewrite Hk, decide_True by done.
  pose proof (streamLoop_streams block (λ x, encrypt_length key block x Hk) (S (length (rdata r))) 0
    (mkStream iv [] [] iv 0 0 0) r w Hiv eq_refl ltac:(by rewrite Ho) ltac:(lia)) as Hl.
  destruct (streamLoop _ block _ r w) as [[st|e| |] w1]; cbn [streams] in Hl; try done.
  destruct Hl as (Hf & (E1 & E2 & E3 & E4 & E5 & E6 & E7) & Hrel).
  cbn [sIv cipherHasher cipherMAC plainHasher size extraSize writePtr app Nat.add] in *. fold c in E1, E2, E3, E7.
  rewrite E3. set (mac := take 10 _).
  assert (length mac = 10) as Hmac by (subst mac; rewrite length_take, hmac_length; lia).
  rewrite decide_False by (rewrite hmac_length; lia).
  assert (writePtr st = length (out w1)) as Hptr by (by rewrite E1, Ho, E7).
  pose proof (streamWrite_writes mac _ w1 Hptr) as Hw.
  destruct (streamWrite mac (writePtr st) w1) as [[u|e| |] w2]; cbn [writes] in Hw; try done.
  2:{ right. destruct (reliable w); [|done]. rewrite Hrel in Hw; done. }
  destruct Hw as (Ho2 & _ & _). rewrite Ho2, E1, Ho, E2, E4, E5, E6, length_app, Hmac.
  split_and!; [done..|]. f_equal.
  pose proof (length_cbcOf _ _ _ (rdata r) Hk Hiv) as Hlc. fold c in Hlc.
  rewrite <- padded_length in Hlc. lia.
Qed.

Lemma EncryptStream_spec_witness :
  let r := mkReader [x41; x42; x43] false in
  let w := mkWriter [] [Short 5; Short 20] false in
  ∃ c, (Encrypt (replicate 32 x07) (Some (replicate 16 x05)) (rdata r) [] None).1 = Ok c ∧
    let mac := take 10 (hmacSha256 [x01] (replicate 16 x05 ++ c)) in
    match EncryptStream (replicate 32 x07) (replicate 16 x05) [x01] r w with
    | (Ok u, w') =>
        rfail r = false ∧ out w' = c ++ mac ∧ length mac = 10 ∧
        u = mkUploaded (sha256 (rdata r)) (sha256 (c ++ mac)) (length (rdata r)) (length (c ++ mac))
    | (Err _, _) => rfail r = true ∨ reliable w = false
    | _ => False
    end.
Proof.
  exact (EncryptStream_spec (replicate 32 x07) toyBlock (replicate 16 x05) [x01]
    (mkReader [x41; x42; x43] false) (mkWriter [] [Short 5; Short 20] false) [] None eq_refl eq_refl eq_refl).
Defined.
