(* ===== verification/LTHash.v ===== *)
(** The summation hash of app state collections (src/appstate/lthash/lthash.go)
    and the key derivation it uses (src/util/hkdfutil/hkdf.go).

    A hash is a byte string read as little-endian 16-bit lanes; adding an item
    adds the lanes of its expansion modulo 2^16. The theory below reads every
    operation lane by lane, so that a hash is a sum of integers. *)
From Stdlib Require Import ZArith Lia.
From Stdlib Require Import Strings.Byte.
From stdpp Require Import prelude list strings.
From S2P Require Import Prelude.

(** ** Key derivation *)

(** golang.org/x/crypto/hkdf with SHA-256: what reading [n] bytes returns. *)
Class HKDF := hkdfRead : list byte → list byte → list byte → nat → list byte.
Class HKDFLaws `{HKDF} := {
  hkdf_length key salt info n : n ≤ 255 → length (hkdfRead key salt info n) = n
}.

(** [hkdfutil.SHA256]; [length] is an unsigned byte. *)
Definition SHA256 `{HKDF} (key salt info : list byte) (len : Z) : outcome Empty_set (list byte) :=
  let data := hkdfRead key salt info (Z.to_nat len) in
  if decide (u8 (Z.of_nat (length data)) = len) then Ok data else Panic.

(** ** The hash *)

Record LTHash := mkLTHash { HKDFInfo : list byte; HKDFSize : Z }.
Definition WAPatchIntegrity : LTHash := mkLTHash (s2b "WhatsApp Patch Integrity") 128.

Definition le16 (a b : byte) : Z := (b2z a + 256 * b2z b)%Z.
Definition putLE16 (z : Z) : list byte := [z2b z; z2b (Z.shiftr z 8)].

Definition laneOp (subtract : bool) (x y : Z) : Z := u16 (if subtract then x - y else x + y).

Fixpoint performPointwiseWithOverflow (base input : list byte) (subtract : bool) : outcome Empty_set (list byte) :=
  match base with
  | [] => Ok []
  | b0 :: b1 :: base =>
      match input with
      | i0 :: i1 :: input =>
          rest ← performPointwiseWithOverflow base input subtract;
          Ok (putLE16 (laneOp subtract (le16 b0 b1) (le16 i0 i1)) ++ rest)
      | _ => Panic
      end
  | _ => Panic
  end.

Fixpoint multipleOp `{HKDF} (lth : LTHash) (base : list byte) (input : list (list byte)) (subtract : bool) :
    outcome Empty_set (list byte) :=
  match input with
  | [] => Ok base
  | item :: input =>
      expanded ← SHA256 item [] (HKDFInfo lth) (HKDFSize lth);
      base ← performPointwiseWithOverflow base expanded subtract;
      multipleOp lth base input subtract
  end.

(** The array that [base] is; [SubtractThenAdd] works on a copy of it. *)
Definition SubtractThenAddInPlace `{HKDF} (lth : LTHash) (base : list byte) (subtract add : list (list byte)) :
    outcome Empty_set (list byte) :=
  base ← multipleOp lth base subtract true;
  multipleOp lth base add false.

Definition SubtractThenAdd `{HKDF} (lth : LTHash) (base : list byte) (subtract add : list (list byte)) :
    outcome Empty_set (list byte) :=
  SubtractThenAddInPlace lth base subtract add.

(** * Lanes *)

Definition lane (i : nat) (l : list byte) : Z :=
  match l !! (2 * i), l !! (2 * i + 1) with
  | Some a, Some b => le16 a b
  | _, _ => 0%Z
  end.

Definition sumZ (l : list Z) : Z := foldr Z.add 0%Z l.

Lemma sumZ_cons x l : sumZ (x :: l) = (x + sumZ l)%Z.
Proof. done. Qed.
Lemma sumZ_app l k : sumZ (l ++ k) = (sumZ l + sumZ k)%Z.
Proof. unfold sumZ. induction l as [|x l IH]; cbn [app foldr]; [lia|]. rewrite IH. lia. Qed.

#[global] Instance sumZ_perm : Proper ((≡ₚ) ==> eq) sumZ.
Proof. unfold sumZ. intros l k H. induction H; cbn [foldr]; lia. Qed.

Lemma le16_range a b : (0 ≤ le16 a b < 2 ^ 16)%Z.
Proof. unfold le16. pose proof (b2z_range a). pose proof (b2z_range b). lia. Qed.

Lemma lane_range i l : (0 ≤ lane i l < 2 ^ 16)%Z.
Proof. unfold lane. repeat case_match; try lia. apply le16_range. Qed.

Lemma lane_0 a b l : lane 0 (a :: b :: l) = le16 a b.
Proof. done. Qed.
Lemma lane_S i a b l : lane (S i) (a :: b :: l) = lane i l.
Proof. unfold lane. by replace (2 * S i) with (S (S (2 * i))) by lia. Qed.

Lemma le16_put z : le16 (z2b z) (z2b (Z.shiftr z 8)) = u16 z.
Proof.
  unfold le16, u16. rewrite !b2z_z2b, Z.shiftr_div_pow2 by lia.
  change (2 ^ 16)%Z with (256 * 256)%Z. rewrite Z.rem_mul_r by lia. done.
Qed.

Lemma le16_inj a b c d : le16 a b = le16 c d → a = c ∧ b = d.
Proof.
  unfold le16. intros H. pose proof (b2z_range a). pose proof (b2z_range b).
  pose proof (b2z_range c). pose proof (b2z_range d).
  split; apply b2z_inj; lia.
Qed.

(** Two hashes of one even length are equal when their lanes are. *)
Lemma lanes_ext n l k :
  length l = 2 * n → length k = 2 * n → (∀ i, i < n → lane i l = lane i k) → l = k.
Proof.
  revert l k; induction n as [|n IH]; intros l k Hl Hk H.
  { destruct l, k; done. }
  destruct l as [|a [|b l]]; [cbn in Hl; lia..|].
  destruct k as [|c [|d k]]; [cbn in Hk; lia..|].
  pose proof (H 0 ltac:(lia)) as [-> ->]%le16_inj. do 2 f_equal.
  apply IH; [cbn in Hl; lia|cbn in Hk; lia|].
  intros i Hi. specialize (H (S i) ltac:(lia)). by rewrite !lane_S in H.
Qed.

Lemma laneOp_range s x y : (0 ≤ laneOp s x y < 2 ^ 16)%Z.
Proof. apply u16_range. Qed.

Lemma performPointwise_lanes n base input s :
  length base = 2 * n → length input = 2 * n →
  ∃ r, performPointwiseWithOverflow base input s = Ok r ∧ length r = 2 * n ∧
       ∀ i, i < n → lane i r = laneOp s (lane i base) (lane i input).
Proof.
  revert base input; induction n as [|n IH]; intros base input Hb Hi.
  { destruct base; [|done]. exists []. split_and!; [done..|lia]. }
  destruct base as [|a [|b base]]; [cbn in Hb; lia..|].
  destruct input as [|c [|d input]]; [cbn in Hi; lia..|].
  destruct (IH base input ltac:(cbn in Hb; lia) ltac:(cbn in Hi; lia)) as (r & Hr & Hl & Hlane).
  cbn [performPointwiseWithOverflow]. rewrite Hr. cbn [mbind outcome_bind].
  eexists. split; [done|]. split; [cbn; lia|].
  intros [|i] Hlt; unfold putLE16; cbn [app].
  - rewrite !lane_0, le16_put. apply u16_small, laneOp_range.
  - rewrite !lane_S. apply Hlane. lia.
Qed.

Lemma u16_shift a b c : u16 (u16 a - b + c) = u16 (a - b + c).
Proof.
  unfold u16. replace (a `mod` 2 ^ 16 - b + c)%Z with (a `mod` 2 ^ 16 + (c - b))%Z by lia.
  rewrite Zplus_mod_idemp_l. f_equal. lia.
Qed.

Section theory.
Context `{HKDFLaws}.

(** The expansion of an item. *)
Definition expand (item : list byte) : list byte :=
  hkdfRead item [] (HKDFInfo WAPatchIntegrity) 128.

Lemma SHA256_ok key salt info len :
  (0 ≤ len < 256)%Z → SHA256 key salt info len = Ok (hkdfRead key salt info (Z.to_nat len)).
Proof.
  intros Hl. unfold SHA256. rewrite hkdf_length by lia. rewrite decide_True; [done|].
  rewrite u8_small; lia.
Qed.

Definition signed (subtract : bool) (z : Z) : Z := if subtract then (- z)%Z else z.

Lemma multipleOp_lanes base input s :
  length base = 128 →
  ∃ r, multipleOp WAPatchIntegrity base input s = Ok r ∧ length r = 128 ∧
       ∀ i, i < 64 → lane i r =
         u16 (lane i base + signed s (sumZ (lane i ∘ expand <$> input))).
Proof.
  revert base; induction input as [|x input IH]; intros base Hb.
  { exists base. split_and!; [done..|]. intros i _.
    replace (signed s _) with 0%Z by (by destruct s).
    rewrite Z.add_0_r, u16_small; [done|apply lane_range]. }
  cbn [multipleOp]. rewrite SHA256_ok by done. cbn [mbind outcome_bind].
  destruct (performPointwise_lanes 64 base (expand x) s Hb) as (r & Hr & Hl & Hlane).
  { apply hkdf_length. lia. }
  unfold expand in Hr. change (Z.to_nat (HKDFSize WAPatchIntegrity)) with 128.
  rewrite Hr. cbn [mbind outcome_bind].
  destruct (IH r Hl) as (r' & Hr' & Hl' & Hlane'). exists r'. split_and!; [done..|].
  intros i Hi. rewrite Hlane', Hlane by done. unfold laneOp, u16.
  rewrite Zplus_mod_idemp_l. f_equal.
  change (sumZ (lane i ∘ expand <$> x :: input)) with (lane i (expand x) + sumZ (lane i ∘ expand <$> input))%Z.
  destruct s; cbn [signed]; lia.
Qed.

(** Both steps at once: a lane of the result is the lane of the base less the
    removed items plus the added ones. *)
Lemma SubtractThenAdd_lanes base removed added :
  length base = 128 →
  ∃ r, SubtractThenAddInPlace WAPatchIntegrity base removed added = Ok r ∧ length r = 128 ∧
       ∀ i, i < 64 → lane i r =
         u16 (lane i base - sumZ (lane i ∘ expand <$> removed) + sumZ (lane i ∘ expand <$> added)).
Proof.
  intros Hb. unfold SubtractThenAddInPlace.
  destruct (multipleOp_lanes base removed true Hb) as (r & -> & Hl & Hr). cbn [mbind outcome_bind].
  destruct (multipleOp_lanes r added false Hl) as (r' & -> & Hl' & Hr').
  exists r'. split_and!; [done..|]. intros i Hi. rewrite Hr', Hr by done.
  unfold u16. rewrite Zplus_mod_idemp_l. f_equal.
Qed.
End theory.

(** C10: a hash is the sum of its items, lane by lane. On a 128-byte state every update
    succeeds and keeps the length, and each of the 64 little-endian lanes of the result is the
    lane of the state less those of the removed items' expansions plus those of the added ones', modulo
    2^16; an item expands to 128 bytes of HKDF with the info "WhatsApp Patch Integrity". So the
    result is the same for any order of the items, an update followed by the inverse update gives
    back the state it started from, and two updates in a row are one update with both
    lists joined. *)
Theorem SubtractThenAdd_group `{HKDFLaws} (base : list byte) (removed added : list (list byte)) :
  length base = 128 →
  ∃ r, SubtractThenAdd WAPatchIntegrity base removed added = Ok r ∧ length r = 128 ∧
    (∀ i, i < 64 →
      let total items := sumZ ((λ item, lane i (hkdfRead item [] (s2b "WhatsApp Patch Integrity") 128)) <$> items) in
      lane i r = ((lane i base - total removed + total added) mod 2 ^ 16)%Z) ∧
    (∀ removed' added', removed' ≡ₚ removed → added' ≡ₚ added →
      SubtractThenAdd WAPatchIntegrity base removed' added' = Ok r) ∧
    SubtractThenAdd WAPatchIntegrity r added removed = Ok base ∧
    (∀ removed' added',
      SubtractThenAdd WAPatchIntegrity r removed' added' =
      SubtractThenAdd WAPatchIntegrity base (removed ++ removed') (added ++ added')).
Proof.
  intros Hb. unfold SubtractThenAdd.
  destruct (SubtractThenAdd_lanes base removed added Hb) as (r & Hr & Hl & Hlane).
  exists r. split; [done|]. split; [done|]. split_and!.
  - exact Hlane.
  - intros rem' add' Hrem Hadd.
    destruct (SubtractThenAdd_lanes base rem' add' Hb) as (r' & -> & Hl' & Hlane').
    f_equal. apply (lanes_ext 64); [done..|]. intros i Hi. rewrite Hlane, Hlane' by done.
    by rewrite Hrem, Hadd.
  - destruct (SubtractThenAdd_lanes r added removed Hl) as (r' & -> & Hl' & Hlane').
    f_equal. apply (lanes_ext 64); [done..|]. intros i Hi. rewrite Hlane', Hlane by done.
    rewrite u16_shift. etrans; [|apply (u16_small (lane i base)), lane_range]. f_equal. lia.
  - intros rem' add'.
    destruct (SubtractThenAdd_lanes r rem' add' Hl) as (r1 & -> & Hl1 & Hlane1).
    destruct (SubtractThenAdd_lanes base (removed ++ rem') (added ++ add') Hb) as (r2 & -> & Hl2 & Hlane2).
    f_equal. apply (lanes_ext 64); [done..|]. intros i Hi. rewrite Hlane1, Hlane2, Hlane by done.
    rewrite !fmap_app, !sumZ_app, u16_shift. f_equal. lia.
Qed.

(** An expansion to evaluate the definitions on. *)
#[local] Instance toyHKDF : HKDF := λ key _ _ n, resize n x00 key.
#[local] Instance toyHKDFLaws : HKDFLaws.
Proof. split. intros. apply length_resize. Qed.

Lemma SubtractThenAdd_group_witness :
  ∃ r, SubtractThenAdd WAPatchIntegrity (replicate 128 x00) [[x01]] [[x02]; [xff; xff; x05]] = Ok r ∧
    lane 0 r = 0%Z ∧ lane 1 r = 5%Z ∧
    SubtractThenAdd WAPatchIntegrity r [[x02]; [xff; xff; x05]] [[x01]] = Ok (replicate 128 x00).
Proof.
  destruct (SubtractThenAdd_group (replicate 128 x00) [[x01]] [[x02]; [xff; xff; x05]] eq_refl) as (r & Hr & _ & Hl & _ & Hinv & _).
  exists r. split; [exact Hr|]. split; [rewrite (Hl 0) by lia; vm_compute; reflexivity|].
  split; [rewrite (Hl 1) by lia; vm_compute; reflexivity|exact Hinv].
Defined.
