(* ===== verification/AppStore.v ===== *)
(** The storage of app state collections: the interface the app state processor
    is written against (src/store/store.go, [AppStateStore] and
    [AppStateSyncKeyStore]), what it promises, and the SQL implementation
    (src/store/sqlstore/store.go) with its tables, constraints, transactions
    and failing statements. *)
From Stdlib Require Import ZArith Lia.
From Stdlib Require Import Strings.Byte.
From stdpp Require Import prelude gmap strings list fin_maps.
From S2P Require Import Prelude.

Record AppStateMutationMAC := mkMAC { IndexMAC : list byte; ValueMAC : list byte }.
Record AppStateSyncKey := mkSyncKey { KeyData : list byte; Fingerprint : list byte; Timestamp : Z }.

#[global] Instance AppStateMutationMAC_eq_dec : EqDecision AppStateMutationMAC.
Proof. solve_decision. Defined.

(** ** The interface *)

Class AppStateStore (S E : Type) := {
  PutAppStateVersion : string → Z → list byte → stateM S E unit;
  GetAppStateVersion : string → stateM S E (Z * list byte);
  DeleteAppStateVersion : string → stateM S E unit;
  PutAppStateMutationMACs : string → Z → list AppStateMutationMAC → stateM S E unit;
  DeleteAppStateMutationMACs : string → list (list byte) → stateM S E unit;
  GetAppStateMutationMAC : string → list byte → stateM S E (option (list byte));
  (** A nil key id matches no row. *)
  GetAppStateSyncKey : option (list byte) → stateM S E (option AppStateSyncKey);
  GetLatestAppStateSyncKeyID : stateM S E (option (list byte))
}.

(** The value a list of additions leaves for an index. *)
Fixpoint addedMAC (l : list AppStateMutationMAC) (i : list byte) : option (list byte) :=
  match l with
  | [] => None
  | m :: l => if decide (IndexMAC m = i) then Some (ValueMAC m) else addedMAC l i
  end.

Lemma addedMAC_None l i : i ∉ IndexMAC <$> l → addedMAC l i = None.
Proof.
  induction l as [|m l IH]; intros Hi; [done|]. rewrite fmap_cons in Hi.
  apply not_elem_of_cons in Hi as [? ?]. cbn [addedMAC]. rewrite decide_False by congruence. auto.
Qed.

(** What a store promises: [view name s] is the collection it holds,
    [stored name s] the version and hash it has for it (zero for a collection it
    does not know), and [below name v s] says that every value of the collection
    was stored under a version less than [v]. *)
Class AppStateStoreLaws (S E : Type) `{AppStateStore S E} := {
  view : string → S → list byte → option (list byte);
  stored : string → S → Z * list byte;
  below : string → Z → S → Prop;

  below_weaken name v w s : below name v s → (v ≤ w)%Z → below name w s;

  get_mac_law name i s r s' :
    GetAppStateMutationMAC name i s = (r, s') →
    (∀ v, r = Ok v → v = view name s i) ∧ view name s' = view name s ∧ stored name s' = stored name s ∧
    (∀ v, below name v s → below name v s');
  get_key_law id s r s' name :
    GetAppStateSyncKey id s = (r, s') →
    view name s' = view name s ∧ stored name s' = stored name s ∧ (∀ v, below name v s → below name v s');
  get_latest_law s r s' name :
    GetLatestAppStateSyncKeyID s = (r, s') →
    view name s' = view name s ∧ stored name s' = stored name s ∧ (∀ v, below name v s → below name v s');
  get_version_law name s r s' :
    GetAppStateVersion name s = (r, s') →
    (∀ x, r = Ok x → x = stored name s) ∧ view name s' = view name s ∧ stored name s' = stored name s ∧
    (∀ v, below name v s → below name v s');
  put_version_law name v h s s' :
    PutAppStateVersion name v h s = (Ok tt, s') →
    view name s' = view name s ∧ stored name s' = (v, h) ∧ (∀ v, below name v s → below name v s');
  delete_version_law name s s' :
    DeleteAppStateVersion name s = (Ok tt, s') →
    (∀ i, view name s' i = None) ∧ stored name s' = (0%Z, replicate 128 x00) ∧ (∀ v, below name v s');
  delete_macs_law name l s s' :
    DeleteAppStateMutationMACs name l s = (Ok tt, s') →
    (∀ i, view name s' i = if decide (i ∈ l) then None else view name s i) ∧ stored name s' = stored name s ∧
    (∀ v, below name v s → below name v s');
  put_macs_law name v l s s' :
    PutAppStateMutationMACs name v l s = (Ok tt, s') → below name v s →
    NoDup (IndexMAC <$> l) ∧
    (∀ i, view name s' i = match addedMAC l i with Some x => Some x | None => view name s i end) ∧
    stored name s' = stored name s ∧ below name (v + 1) s'
}.

(** ** The SQL store

    The rows of one device: the tables' primary keys (jid, ...) without the jid. *)

Record tables := mkTables {
  syncKeys : gmap (list byte) AppStateSyncKey;
  versions : gmap string (Z * list byte);
  macs : gmap (string * Z * list byte) (list byte)
}.

Inductive sqlError :=
| DriverError                                  (* the statement failed *)
| ConstraintViolation                          (* a key, foreign key or check *)
| ValueOutOfRange                              (* a uint64 that is no BIGINT *)
| ErrInvalidLength
| InvalidVersion0.

(** [sqlFaults]: whether each of the next statements fails. *)
Record SQLStore := mkSQL { tbl : tables; sqlFaults : list bool }.

Definition statement {A} (f : tables → outcome sqlError (A * tables)) : stateM SQLStore sqlError A :=
  λ s,
    let '(flt, fs) := match sqlFaults s with [] => (false, []) | b :: fs => (b, fs) end in
    if (flt : bool) then (Err DriverError, mkSQL (tbl s) fs)
    else match f (tbl s) with
         | Ok (a, t) => (Ok a, mkSQL t fs)
         | Err e => (Err e, mkSQL (tbl s) fs)
         | Panic => (Panic, mkSQL (tbl s) fs)
         | OutOfFuel => (OutOfFuel, mkSQL (tbl s) fs)
         end.

(** [dbutil.Database.DoTxn]: begin, run, commit; any failure rolls back. *)
Definition DoTxn {A} (m : stateM SQLStore sqlError A) : stateM SQLStore sqlError A :=
  λ s,
    match (_ ← statement (λ t, Ok (tt, t)); a ← m; _ ← statement (λ t, Ok (tt, t)); mret a) s with
    | (Ok a, s') => (Ok a, s')
    | (r, s') => (r, mkSQL (tbl s) (sqlFaults s'))
    end.

Definition bigint (v : Z) : bool := bool_decide (0 ≤ v < 2 ^ 63)%Z.

Definition putAppStateVersion_sql (name : string) (version : Z) (hash : list byte) : stateM SQLStore sqlError unit :=
  statement (λ t,
    if negb (bigint version) then Err ValueOutOfRange
    else if decide (length hash = 128)
    then Ok (tt, mkTables (syncKeys t) (<[name := (version, hash)]> (versions t)) (macs t))
    else Err ConstraintViolation).

Definition getAppStateVersion_sql (name : string) : stateM SQLStore sqlError (Z * list byte) :=
  statement (λ t,
    match versions t !! name with
    | None => Ok ((0%Z, replicate 128 x00), t)
    | Some (version, uncheckedHash) =>
        if decide (length uncheckedHash ≠ 128) then Err ErrInvalidLength
        else if decide (version = 0%Z) then Err InvalidVersion0
        else Ok ((version, uncheckedHash), t)
    end).

(** The foreign key from the MACs to the version cascades. *)
Definition deleteAppStateVersion_sql (name : string) : stateM SQLStore sqlError unit :=
  statement (λ t, Ok (tt, mkTables (syncKeys t) (delete name (versions t))
                            (filter (λ r, r.1.1.1 ≠ name) (macs t)))).

Definition insertMAC (name : string) (version : Z) (m : AppStateMutationMAC) (t : tables) : outcome sqlError tables :=
  if negb (bigint version) then Err ValueOutOfRange
  else if decide (is_Some (versions t !! name) ∧ length (IndexMAC m) = 32 ∧ length (ValueMAC m) = 32 ∧
                  macs t !! (name, version, IndexMAC m) = None)
  then Ok (mkTables (syncKeys t) (versions t) (<[(name, version, IndexMAC m) := ValueMAC m]> (macs t)))
  else Err ConstraintViolation.

Fixpoint insertMACs (name : string) (version : Z) (l : list AppStateMutationMAC) (t : tables) : outcome sqlError tables :=
  match l with
  | [] => Ok t
  | m :: l => t ← insertMAC name version m t; insertMACs name version l t
  end.

Definition putAppStateMutationMACs (name : string) (version : Z) (l : list AppStateMutationMAC) :
    stateM SQLStore sqlError unit :=
  statement (λ t, t ← insertMACs name version l t; Ok (tt, t)).

Definition mutationBatchSize : nat := 400.

(** [slices.Chunk]. *)
Fixpoint chunk {A} (fuel n : nat) (l : list A) : list (list A) :=
  match fuel, l with
  | S fuel, _ :: _ => take n l :: chunk fuel n (drop n l)
  | _, _ => []
  end.

Fixpoint putBatches (name : string) (version : Z) (batches : list (list AppStateMutationMAC)) :
    stateM SQLStore sqlError unit :=
  match batches with
  | [] => mret tt
  | b :: batches => _ ← putAppStateMutationMACs name version b; putBatches name version batches
  end.

Definition putAppStateMutationMACs_sql (name : string) (version : Z) (l : list AppStateMutationMAC) :
    stateM SQLStore sqlError unit :=
  match l with
  | [] => mret tt
  | _ => DoTxn (putBatches name version (chunk (length l) mutationBatchSize l))
  end.

Definition deleteAppStateMutationMACs_sql (name : string) (l : list (list byte)) : stateM SQLStore sqlError unit :=
  match l with
  | [] => mret tt
  | _ => statement (λ t, Ok (tt, mkTables (syncKeys t) (versions t)
                                 (filter (λ r, ¬ (r.1.1.1 = name ∧ r.1.2 ∈ l)) (macs t))))
  end.

(** ORDER BY version DESC LIMIT 1. *)
Definition laterRow (name : string) (i : list byte) (k : string * Z * list byte) (x : list byte)
    (acc : option (Z * list byte)) : option (Z * list byte) :=
  if decide (k.1.1 = name ∧ k.2 = i) then
    match acc with
    | Some (v, _) => if (v <? k.1.2)%Z then Some (k.1.2, x) else acc
    | None => Some (k.1.2, x)
    end
  else acc.
Definition latestRow (name : string) (i : list byte) (m : gmap (string * Z * list byte) (list byte)) :
    option (Z * list byte) :=
  map_fold (laterRow name i) None m.

Definition getAppStateMutationMAC_sql (name : string) (i : list byte) : stateM SQLStore sqlError (option (list byte)) :=
  statement (λ t, Ok (snd <$> latestRow name i (macs t), t)).

Definition getAppStateSyncKey_sql (id : option (list byte)) : stateM SQLStore sqlError (option AppStateSyncKey) :=
  statement (λ t, Ok (id ≫= λ id, syncKeys t !! id, t)).

(** ORDER BY timestamp DESC LIMIT 1; among equal timestamps the database chooses,
    here the first that the fold meets. *)
Definition laterKey (id : list byte) (k : AppStateSyncKey) (acc : option (list byte * Z)) : option (list byte * Z) :=
  match acc with
  | Some (_, t) => if (t <? Timestamp k)%Z then Some (id, Timestamp k) else acc
  | None => Some (id, Timestamp k)
  end.
Definition getLatestAppStateSyncKeyID_sql : stateM SQLStore sqlError (option (list byte)) :=
  statement (λ t, Ok (fst <$> map_fold laterKey None (syncKeys t), t)).

(** A newer key replaces an older one; an older one is dropped. *)
Definition putAppStateSyncKey_sql (id : list byte) (key : AppStateSyncKey) : stateM SQLStore sqlError unit :=
  statement (λ t,
    let keep := match syncKeys t !! id with
                | Some old => negb (Timestamp old <? Timestamp key)%Z
                | None => false
                end in
    Ok (tt, if (keep : bool) then t else mkTables (<[id := key]> (syncKeys t)) (versions t) (macs t))).

#[global] Instance SQLStore_AppStateStore : AppStateStore SQLStore sqlError := {|
  PutAppStateVersion := putAppStateVersion_sql;
  GetAppStateVersion := getAppStateVersion_sql;
  DeleteAppStateVersion := deleteAppStateVersion_sql;
  PutAppStateMutationMACs := putAppStateMutationMACs_sql;
  DeleteAppStateMutationMACs := deleteAppStateMutationMACs_sql;
  GetAppStateMutationMAC := getAppStateMutationMAC_sql;
  GetAppStateSyncKey := getAppStateSyncKey_sql;
  GetLatestAppStateSyncKeyID := getLatestAppStateSyncKeyID_sql
|}.

(** * The SQL store keeps the promises *)

Lemma latestRow_spec name i m :
  match latestRow name i m with
  | Some (v, x) => m !! (name, v, i) = Some x ∧ ∀ v', is_Some (m !! (name, v', i)) → (v' ≤ v)%Z
  | None => ∀ v, m !! (name, v, i) = None
  end.
Proof.
  unfold latestRow.
  apply (map_fold_weak_ind (λ acc m, match acc with
    | Some (v, x) => m !! (name, v, i) = Some x ∧ ∀ v', is_Some (m !! (name, v', i)) → (v' ≤ v)%Z
    | None => ∀ v, m !! (name, v, i) = None
    end)); [intros v; apply lookup_empty|].
  intros [[n v] j] x m' acc Hfresh IH. unfold laterRow. cbn [fst snd].
  case_decide as Hk.
  - destruct Hk as [-> ->]. destruct acc as [[v1 x1]|].
    + destruct IH as [H1 H2]. destruct (Z.ltb_spec v1 v).
      * rewrite lookup_insert_eq. split; [done|]. intros v' Hv'.
        destruct (decide (v' = v)) as [->|Hne]; [lia|].
        rewrite lookup_insert_ne in Hv' by congruence. specialize (H2 v' Hv'). lia.
      * rewrite lookup_insert_ne by congruence. split; [done|]. intros v' Hv'.
        destruct (decide (v' = v)) as [->|Hne]; [lia|].
        rewrite lookup_insert_ne in Hv' by congruence. auto.
    + rewrite lookup_insert_eq. split; [done|]. intros v' Hv'.
      destruct (decide (v' = v)) as [->|Hne]; [lia|].
      rewrite lookup_insert_ne, IH in Hv' by congruence. by destruct Hv'.
  - assert (∀ w, <[(n, v, j) := x]> m' !! (name, w, i) = m' !! (name, w, i)) as Hne.
    { intros w. apply lookup_insert_ne. intros [= -> -> ->]. by apply Hk. }
    destruct acc as [[v1 x1]|]; setoid_rewrite Hne; done.
Qed.

(** The row is determined by its description. *)
Lemma latestRow_unique name i m v x :
  m !! (name, v, i) = Some x → (∀ v', is_Some (m !! (name, v', i)) → (v' ≤ v)%Z) →
  latestRow name i m = Some (v, x).
Proof.
  intros Hx Hmax. pose proof (latestRow_spec name i m) as Hs.
  destruct (latestRow name i m) as [[v1 x1]|]; [|by rewrite Hs in Hx].
  destruct Hs as [H1 H2].
  assert (v = v1) as -> by (apply Z.le_antisymm; [apply H2; eauto|apply Hmax; eauto]).
  congruence.
Qed.

Lemma latestRow_ext name i m m' :
  (∀ v, m !! (name, v, i) = m' !! (name, v, i)) → latestRow name i m = latestRow name i m'.
Proof.
  intros Hm. pose proof (latestRow_spec name i m) as Hs.
  destruct (latestRow name i m) as [[v x]|].
  - destruct Hs as [H1 H2]. symmetry. apply latestRow_unique; [by rewrite <- Hm|].
    intros v'. rewrite <- Hm. apply H2.
  - pose proof (latestRow_spec name i m') as Hs'. destruct (latestRow name i m') as [[v x]|]; [|done].
    destruct Hs' as [H1 _]. by rewrite <- Hm, Hs in H1.
Qed.

Definition sqlView (name : string) (s : SQLStore) (i : list byte) : option (list byte) :=
  snd <$> latestRow name i (macs (tbl s)).
Definition rowsBelow (name : string) (v : Z) (m : gmap (string * Z * list byte) (list byte)) : Prop :=
  ∀ w i, is_Some (m !! (name, w, i)) → (w < v)%Z.
Definition sqlBelow (name : string) (v : Z) (s : SQLStore) : Prop := rowsBelow name v (macs (tbl s)).
Definition sqlStored (name : string) (s : SQLStore) : Z * list byte :=
  default (0%Z, replicate 128 x00) (versions (tbl s) !! name).

Lemma statement_run {A} f s r s' :
  @statement A f s = (r, s') →
  (∃ a t, r = Ok a ∧ f (tbl s) = Ok (a, t) ∧ tbl s' = t) ∨
  ((∀ a, r ≠ Ok a) ∧ tbl s' = tbl s).
Proof.
  unfold statement. destruct (match sqlFaults s with [] => (false, []) | b :: fs => (b, fs) end) as [[] fs].
  { intros [= <- <-]. by right. }
  destruct (f (tbl s)) as [[a t]| | |]; intros [= <- <-]; [left; eauto 10|by right..].
Qed.

Lemma statement_Ok {A} f s a s' :
  @statement A f s = (Ok a, s') → f (tbl s) = Ok (a, tbl s').
Proof. intros H%statement_run. destruct H as [(? & ? & [= <-] & H & <-)|[H _]]; [done|by destruct (H a)]. Qed.

Lemma DoTxn_Ok {A} m s (a : A) s' :
  DoTxn m s = (Ok a, s') → ∃ s1 s2, tbl s1 = tbl s ∧ m s1 = (Ok a, s2) ∧ tbl s' = tbl s2.
Proof.
  unfold DoTxn. case_match eqn:E. destruct o as [b| | |]; try discriminate. intros [= -> ->].
  apply stateM_bind_Ok in E as (u & s1 & H1%statement_Ok & E).
  apply stateM_bind_Ok in E as (b & s3 & Hm & E).
  apply stateM_bind_Ok in E as (u' & s4 & H4%statement_Ok & E).
  unfold mret, stateM_ret in E. exists s1, s3. split_and!; congruence.
Qed.

Lemma concat_chunk {A} fuel n (l : list A) : 0 < n → length l ≤ fuel → concat (chunk fuel n l) = l.
Proof.
  intros Hn. revert l; induction fuel as [|fuel IH]; intros [|x l] Hl; try done; cbn in Hl; [lia|].
  cbn [chunk concat]. rewrite IH; [apply take_drop|]. rewrite length_drop. cbn. lia.
Qed.

Lemma insertMACs_app name v l k t : insertMACs name v (l ++ k) t = insertMACs name v l t ≫= insertMACs name v k.
Proof.
  revert t; induction l as [|m l IH]; intros t; [done|]. cbn [app insertMACs].
  destruct (insertMAC name v m t); cbn [mbind outcome_bind]; [apply IH|done..].
Qed.

Lemma putBatches_Ok name v batches s s' :
  putBatches name v batches s = (Ok tt, s') → insertMACs name v (concat batches) (tbl s) = Ok (tbl s').
Proof.
  revert s; induction batches as [|b batches IH]; intros s H; cbn [putBatches concat] in *; inv_run; [done|].
  apply statement_Ok in Hx. apply outcome_bind_Ok in Hx as (t & Hx & Ht).
  assert (t = tbl s0) as -> by congruence.
  rewrite insertMACs_app, Hx. cbn [mbind outcome_bind]. by apply IH.
Qed.

Lemma putAppStateMutationMACs_Ok name v l s s' :
  putAppStateMutationMACs_sql name v l s = (Ok tt, s') → insertMACs name v l (tbl s) = Ok (tbl s').
Proof.
  unfold putAppStateMutationMACs_sql. destruct l as [|m l]; intros H; [by inv_run|].
  apply DoTxn_Ok in H as (s1 & s2 & <- & H & ->). apply putBatches_Ok in H.
  by rewrite concat_chunk in H by (unfold mutationBatchSize; lia).
Qed.

(** Inserting a batch at a version above every row: no index repeats, the new
    rows are the latest and nothing else changes. *)
Lemma insertMACs_spec name v l t t' :
  insertMACs name v l t = Ok t' →
  NoDup (IndexMAC <$> l) ∧ versions t' = versions t ∧ syncKeys t' = syncKeys t ∧
  (∀ i, i ∈ IndexMAC <$> l → macs t !! (name, v, i) = None) ∧
  ∀ n w i, macs t' !! (n, w, i) =
    match (if decide (n = name ∧ w = v) then addedMAC l i else None) with
    | Some x => Some x
    | None => macs t !! (n, w, i)
    end.
Proof.
  revert t; induction l as [|m l IH]; intros t H; cbn [insertMACs fmap list_fmap] in *; inv_ok.
  { split_and!; [constructor|done..|by intros i ?%elem_of_nil|]. intros. by case_decide. }
  unfold insertMAC in Hx. destruct (bigint v); [|done]. cbn [negb] in Hx.
  case_decide as Hc; [|done]. injection Hx as <-. destruct Hc as (_ & _ & _ & Hfresh).
  destruct (IH _ H) as (Hnd & Hv & Hk & Hnew & Hrows). cbn [versions syncKeys macs] in *.
  assert (IndexMAC m ∉ IndexMAC <$> l) as Hm.
  { intros Hin. specialize (Hnew _ Hin). by rewrite lookup_insert_eq in Hnew. }
  split_and!; [by constructor|done..| |].
  - intros i [->|Hin]%elem_of_cons; [done|]. specialize (Hnew _ Hin).
    destruct (decide (i = IndexMAC m)) as [->|]; [done|]. by rewrite lookup_insert_ne in Hnew by congruence.
  - intros n w i. rewrite Hrows. cbn [addedMAC].
    pose proof (addedMAC_None l _ Hm) as Hadd.
    destruct (decide (n = name ∧ w = v)) as [[-> ->]|Hne].
    + destruct (decide (IndexMAC m = i)) as [<-|Hi].
      * by rewrite Hadd, lookup_insert_eq.
      * by rewrite lookup_insert_ne by congruence.
    + rewrite lookup_insert_ne; [done|]. intros [= <- <- _]. by apply Hne.
Qed.

Lemma sqlView_same name s s' :
  macs (tbl s') = macs (tbl s) →
  sqlView name s' = sqlView name s ∧ (∀ v, sqlBelow name v s → sqlBelow name v s').
Proof. intros H. unfold sqlView, sqlBelow. by rewrite H. Qed.

Lemma sqlStored_same name s s' : versions (tbl s') = versions (tbl s) → sqlStored name s' = sqlStored name s.
Proof. intros H. unfold sqlStored. by rewrite H. Qed.

(** A read changes nothing, whether it succeeds or not. *)
Lemma statement_read {A} (f : tables → A) s r s' name :
  statement (λ t, Ok (f t, t)) s = (r, s') →
  (∀ a, r = Ok a → a = f (tbl s)) ∧
  sqlView name s' = sqlView name s ∧ sqlStored name s' = sqlStored name s ∧
  (∀ v, sqlBelow name v s → sqlBelow name v s').
Proof.
  intros Hr. assert (tbl s' = tbl s) as Ht by (by apply statement_run in Hr as [(a & t & _ & [= _ <-] & ?)|[_ ?]]).
  destruct (sqlView_same name s s') as [Hv Hb]; [by rewrite Ht|]. split_and!; [|done|by apply sqlStored_same; rewrite Ht|done].
  intros a ->. apply statement_Ok in Hr. by injection Hr.
Qed.

Lemma deleteMACs_view name l s s' :
  deleteAppStateMutationMACs_sql name l s = (Ok tt, s') →
  (∀ i, sqlView name s' i = if decide (i ∈ l) then None else sqlView name s i) ∧
  sqlStored name s' = sqlStored name s ∧
  (∀ v, sqlBelow name v s → sqlBelow name v s').
Proof.
  unfold deleteAppStateMutationMACs_sql. destruct l as [|k l0] eqn:El.
  { intros H. inv_run. split_and!; [|done..]. intros i. rewrite decide_False; [done|apply not_elem_of_nil]. }
  rewrite <- El. clear k l0 El. intros [= Ht]%statement_Ok.
  assert (∀ w i, macs (tbl s') !! (name, w, i) =
    if decide (i ∈ l) then None else macs (tbl s) !! (name, w, i)) as Hrows.
  { intros w i. rewrite <- Ht. cbn [macs]. case_decide as Hi.
    - apply map_lookup_filter_None. right. cbn. intros x _ Hn. by apply Hn.
    - destruct (macs (tbl s) !! (name, w, i)) as [x|] eqn:Hx.
      + apply map_lookup_filter_Some. split; [done|]. cbn. by intros [_ ?].
      + apply map_lookup_filter_None. by left. }
  split_and!.
  - intros i. unfold sqlView. case_decide as Hi.
    + pose proof (latestRow_spec name i (macs (tbl s'))) as Hs.
      destruct (latestRow name i (macs (tbl s'))) as [[w x]|]; [|done].
      destruct Hs as [Hs _]. by rewrite Hrows, decide_True in Hs.
    + f_equal. apply latestRow_ext. intros w. by rewrite Hrows, decide_False.
  - apply sqlStored_same. by rewrite <- Ht.
  - intros v Hb w i. rewrite Hrows. case_decide; [by intros []|]. apply Hb.
Qed.

Lemma putMACs_view name v l s s' :
  putAppStateMutationMACs_sql name v l s = (Ok tt, s') → sqlBelow name v s →
  NoDup (IndexMAC <$> l) ∧
  (∀ i, sqlView name s' i = match addedMAC l i with Some x => Some x | None => sqlView name s i end) ∧
  sqlStored name s' = sqlStored name s ∧
  sqlBelow name (v + 1) s'.
Proof.
  intros H%putAppStateMutationMACs_Ok Hb. apply insertMACs_spec in H as (Hnd & Hver & _ & _ & Hrows).
  split; [done|].
  assert (∀ w i, is_Some (macs (tbl s') !! (name, w, i)) → (w ≤ v)%Z) as Hmax.
  { intros w i. rewrite Hrows. destruct (decide (name = name ∧ w = v)) as [[_ ->]|_]; [done|].
    intros Hw%Hb. lia. }
  split_and!; [|by apply sqlStored_same|].
  - intros i. unfold sqlView. destruct (addedMAC l i) as [x|] eqn:Hx.
    + rewrite (latestRow_unique name i _ v x); [done| |].
      * by rewrite Hrows, decide_True, Hx.
      * intros w. apply Hmax.
    + f_equal. apply latestRow_ext. intros w. rewrite Hrows. by case_decide; rewrite ?Hx.
  - intros w i Hw%Hmax. lia.
Qed.

(** A version is read as it is stored, if it can be read. *)
Lemma getVersion_view name s r s' :
  getAppStateVersion_sql name s = (r, s') →
  (∀ x, r = Ok x → x = sqlStored name s) ∧ sqlView name s' = sqlView name s ∧
  sqlStored name s' = sqlStored name s ∧ (∀ v, sqlBelow name v s → sqlBelow name v s').
Proof.
  intros Hr.
  assert (tbl s' = tbl s ∧ ∀ x, r = Ok x → x = sqlStored name s) as [Ht Hx].
  { apply statement_run in Hr as [(a & t & -> & Hf & <-)|[Hne Ht]].
    - unfold sqlStored. destruct (versions (tbl s) !! name) as [[v h]|]; repeat case_decide; try discriminate;
        injection Hf as <- <-; (split; [done|by intros ? [= <-]]).
    - split; [done|]. intros x ->. by destruct (Hne x). }
  destruct (sqlView_same name s s') as [Hv Hb]; [by rewrite Ht|].
  split_and!; [done..|by apply sqlStored_same; rewrite Ht|done].
Qed.

Lemma putVersion_view name v h s s' :
  putAppStateVersion_sql name v h s = (Ok tt, s') →
  sqlView name s' = sqlView name s ∧ sqlStored name s' = (v, h) ∧
  (∀ v, sqlBelow name v s → sqlBelow name v s').
Proof.
  intros H%statement_Ok. destruct (bigint v); cbn [negb] in H; [|done]. case_decide; [|done].
  injection H as H. destruct (sqlView_same name s s') as [Hv Hb]; [by rewrite <- H|].
  split_and!; [done| |done]. unfold sqlStored. rewrite <- H. cbn [versions]. by rewrite lookup_insert_eq.
Qed.

Lemma deleteVersion_view name s s' :
  deleteAppStateVersion_sql name s = (Ok tt, s') →
  (∀ i, sqlView name s' i = None) ∧ sqlStored name s' = (0%Z, replicate 128 x00) ∧ (∀ v, sqlBelow name v s').
Proof.
  intros [= H]%statement_Ok.
  assert (∀ w i, macs (tbl s') !! (name, w, i) = None) as Hrows.
  { intros w i. rewrite <- H. cbn [macs]. apply map_lookup_filter_None. right. by intros x _ []. }
  split_and!.
  - intros i. unfold sqlView. pose proof (latestRow_spec name i (macs (tbl s'))) as Hs.
    destruct (latestRow name i (macs (tbl s'))) as [[w x]|]; [|done]. by rewrite Hrows in Hs; destruct Hs.
  - unfold sqlStored. rewrite <- H. cbn [versions]. by rewrite lookup_delete_eq.
  - intros v w i. rewrite Hrows. by intros [].
Qed.

#[global] Instance SQLStore_laws : AppStateStoreLaws SQLStore sqlError.
Proof.
  unshelve refine {| view := sqlView; stored := sqlStored; below := sqlBelow |}; cbn.
  - intros name v w s Hb Hle w' i Hi%Hb. lia.
  - intros name i s r s' H. unfold getAppStateMutationMAC_sql in H.
    apply (statement_read (λ t, snd <$> latestRow name i (macs t)) _ _ _ name H).
  - intros id s r s' name H. unfold getAppStateSyncKey_sql in H.
    apply (statement_read (λ t, id ≫= λ id, syncKeys t !! id) _ _ _ name H).
  - intros s r s' name H. unfold getLatestAppStateSyncKeyID_sql in H.
    apply (statement_read (λ t, fst <$> map_fold laterKey None (syncKeys t)) _ _ _ name H).
  - exact getVersion_view.
  - exact putVersion_view.
  - exact deleteVersion_view.
  - exact deleteMACs_view.
  - exact putMACs_view.
Defined.
