(* ===== verification/Sql.v ===== *)
(** Statements of a database: a table state of any type, and for each of the next
    statements whether it fails. A statement that fails has no effect. *)
From Stdlib Require Import ZArith Lia.
From stdpp Require Import prelude list relations.
From S2P Require Import Prelude.

Record database (T : Type) := mkDatabase { content : T; failing : list bool }.
Arguments mkDatabase {T}.
Arguments content {T}.
Arguments failing {T}.

Inductive dbError := DriverFailed | ConstraintFailed | BadLength | NoRows.
#[global] Instance dbError_eq_dec : EqDecision dbError.
Proof. solve_decision. Defined.

Section sql.
Context {T : Type}.
Abbreviation dbM := (stateM (database T) dbError).

(** One statement: what it answers and the rows after it. *)
Definition stmt {A} (f : T → outcome dbError (A * T)) : dbM A :=
  λ d,
    let fs := tail (failing d) in
    if default false (head (failing d)) then (Err DriverFailed, mkDatabase (content d) fs)
    else match f (content d) with
         | Ok (a, t) => (Ok a, mkDatabase t fs)
         | Err e => (Err e, mkDatabase (content d) fs)
         | Panic => (Panic, mkDatabase (content d) fs)
         | OutOfFuel => (OutOfFuel, mkDatabase (content d) fs)
         end.

Definition select {A} (f : T → A) : dbM A := stmt (λ t, Ok (f t, t)).
Definition update (f : T → T) : dbM unit := stmt (λ t, Ok (tt, f t)).

(** [dbutil.Database.DoTxn]: begin, run, commit; any failure rolls back. *)
Definition inTxn {A} (m : dbM A) : dbM A := λ d,
  match (_ ← select (λ _, tt); a ← m; _ ← select (λ _, tt); mret a) d with
  | (Ok a, d') => (Ok a, d')
  | (r, d') => (r, mkDatabase (content d) (failing d'))
  end.

Lemma stmt_Ok {A} (f : T → outcome dbError (A * T)) d a d' :
  stmt f d = (Ok a, d') → f (content d) = Ok (a, content d') ∧ failing d' = tail (failing d).
Proof.
  unfold stmt. destruct (default false _); [done|]. destruct (f (content d)) as [[a' t]| | |]; try done.
  by intros [= -> <-].
Qed.

Lemma select_Ok {A} (f : T → A) d a d' :
  select f d = (Ok a, d') → a = f (content d) ∧ content d' = content d.
Proof. intros [H _]%stmt_Ok. by simplify_eq. Qed.

Lemma update_Ok (f : T → T) d a d' : update f d = (Ok a, d') → content d' = f (content d).
Proof. intros [H _]%stmt_Ok. by simplify_eq. Qed.

(** A statement that fails changes nothing. *)
Lemma stmt_failed {A} (f : T → outcome dbError (A * T)) d r d' :
  stmt f d = (r, d') → (∀ a, r ≠ Ok a) → content d' = content d.
Proof.
  unfold stmt. destruct (default false _); [by intros [= <- <-]|].
  destruct (f (content d)) as [[a t]| | |]; intros [= <- <-] Hno; try done. by destruct (Hno a).
Qed.

Lemma update_cases (f : T → T) d r d' :
  update f d = (r, d') →
  (r = Ok tt ∧ content d' = f (content d)) ∨ (r = Err DriverFailed ∧ content d' = content d).
Proof. unfold update, stmt. destruct (default false _); intros [= <- <-]; [by right|by left]. Qed.

(** A transaction that fails changes nothing. *)
Lemma inTxn_atomic {A} (m : dbM A) d r d' : inTxn m d = (r, d') → (∃ a, r = Ok a) ∨ content d' = content d.
Proof.
  unfold inTxn. match goal with |- (match ?x with _ => _ end) = _ → _ => destruct x as [[a| | |] d1] end; intros [= <- <-]; [left; by eexists|by right..].
Qed.

Lemma inTxn_Ok {A} (m : dbM A) d a d' :
  inTxn m d = (Ok a, d') →
  ∃ d1 d2, content d1 = content d ∧ m d1 = (Ok a, d2) ∧ content d' = content d2.
Proof.
  unfold inTxn. match goal with |- (match ?x with _ => _ end) = _ → _ => destruct x as [[a1| | |] d1] eqn:H end; try done. intros [= -> ->].
  inv_run. apply select_Ok in Hx as [_ Hx], Hx1 as [_ Hx1]. exists s, s0. split_and!; [done|congruence|congruence].
Qed.

(** Calls that return or fail. *)
Definition settles {A} (m : dbM A) : Prop := ∀ d, match (m d).1 with Ok _ | Err _ => True | _ => False end.

Lemma settles_bind {A B} (m : dbM A) (f : A → dbM B) : settles m → (∀ a, settles (f a)) → settles (m ≫= f).
Proof.
  intros Hm Hf d. specialize (Hm d). unfold mbind, stateM_bind. destruct (m d) as [[a| | |] d1]; try done. apply Hf.
Qed.
Lemma settles_ret {A} (a : A) : settles (mret a).
Proof. by intros d. Qed.
Lemma settles_update (f : T → T) : settles (update f).
Proof. intros d. unfold update, stmt. by destruct (default false _). Qed.
Lemma settles_select {A} (f : T → A) : settles (select f).
Proof. intros d. unfold select, stmt. by destruct (default false _). Qed.
Lemma settles_inTxn {A} (m : dbM A) : settles m → settles (inTxn m).
Proof.
  intros Hm d. assert (settles (_ ← select (λ _, tt); a ← m; _ ← select (λ _, tt); mret a)) as Hs.
  { apply settles_bind; [apply settles_select|intros _]. apply settles_bind; [done|intros a].
    apply settles_bind; [apply settles_select|intros _; apply settles_ret]. }
  specialize (Hs d). unfold inTxn.
  match goal with |- context [@mbind ?M ?i ?A ?B ?f ?m' d] => destruct (@mbind M i A B f m' d) as [[] ?] end; done.
Qed.

(** Working databases. *)
Definition working (d : database T) : Prop := Forall (λ b, b = false) (failing d).

Lemma stmt_working {A} (f : T → outcome dbError (A * T)) d a t :
  working d → f (content d) = Ok (a, t) →
  stmt f d = (Ok a, mkDatabase t (tail (failing d))) ∧ working (mkDatabase t (tail (failing d))).
Proof.
  intros Hw Hf. unfold stmt, working in *. rewrite Hf. destruct (failing d) as [|b l]; [done|].
  apply Forall_cons in Hw as [-> Hw]. done.
Qed.

(** Calls that return on a working database. *)
Definition succeeds {A} (m : dbM A) : Prop := ∀ d, working d → ∃ a d', m d = (Ok a, d') ∧ working d'.

Lemma succeeds_bind {A B} (m : dbM A) (f : A → dbM B) : succeeds m → (∀ a, succeeds (f a)) → succeeds (m ≫= f).
Proof.
  intros Hm Hf d Hd. destruct (Hm d Hd) as (a & d1 & Hr & Hd1). unfold mbind, stateM_bind. rewrite Hr. by apply Hf.
Qed.
Lemma succeeds_ret {A} (a : A) : succeeds (mret a).
Proof. intros d Hd. by exists a, d. Qed.
Lemma succeeds_stmt {A} (f : T → outcome dbError (A * T)) : (∀ t, ∃ a t', f t = Ok (a, t')) → succeeds (stmt f).
Proof. intros Hf d Hd. destruct (Hf (content d)) as (a & t & Ht). destruct (stmt_working f d a t Hd Ht). by eexists _, _. Qed.
Lemma succeeds_select {A} (f : T → A) : succeeds (select f).
Proof. apply succeeds_stmt. intros t. by eexists _, _. Qed.
Lemma succeeds_inTxn {A} (m : dbM A) : succeeds m → succeeds (inTxn m).
Proof.
  intros Hm. assert (succeeds (_ ← select (λ _, tt); a ← m; _ ← select (λ _, tt); mret a)) as Hs.
  { apply succeeds_bind; [apply succeeds_select|intros _]. apply succeeds_bind; [done|intros a].
    apply succeeds_bind; [apply succeeds_select|intros _; apply succeeds_ret]. }
  intros d Hd. unfold inTxn. destruct (Hs d Hd) as (a & d' & -> & Hd'). by exists a, d'.
Qed.
End sql.

Abbreviation dbM T := (stateM (database T) dbError).

(** ** Calls that only move a state along a relation *)

Definition moves {S E A} (R : relation S) (m : stateM S E A) : Prop := ∀ s, R s (m s).2.

Section moves.
Context {S E : Type} (R : relation S).

Lemma moves_bind {A B} `{!Transitive R} (m : stateM S E A) (f : A → stateM S E B) :
  moves R m → (∀ a, moves R (f a)) → moves R (m ≫= f).
Proof.
  intros Hm Hf s. unfold mbind, stateM_bind. specialize (Hm s). destruct (m s) as [[a| | |] s1]; try done.
  etrans; [apply Hm|apply Hf].
Qed.
Lemma moves_ret {A} `{!Reflexive R} (a : A) : moves R (mret (M := stateM S E) a).
Proof. intros s. done. Qed.
Lemma moves_throw {A} `{!Reflexive R} (e : E) : moves R (throw e : stateM S E A).
Proof. intros s. done. Qed.
End moves.

(** A statement moves the rows along a relation when its effect does. *)
Lemma moves_stmt {T A} (R : relation T) `{!Reflexive R} (f : T → outcome dbError (A * T)) :
  (∀ t a t', f t = Ok (a, t') → R t t') → moves (λ d d', R (content d) (content d')) (stmt f).
Proof.
  intros Hf d. unfold stmt. destruct (default false _); [done|].
  destruct (f (content d)) as [[a t]| | |] eqn:Hd; cbn; try done. by eapply Hf.
Qed.
