(* ===== verification/SignalStore.v ===== *)
(** The Signal tables of the store (src/store/sqlstore/store.go): identity keys with
    their cache, sessions, sender keys, and the move of a phone number's rows to its
    LID. Strings compare byte by byte, as in SQLite and in the C collation. *)
From Stdlib Require Import ZArith Lia.
From Stdlib Require Import Strings.Byte Strings.Ascii.
From stdpp Require Import prelude gmap strings list fin_maps.
From S2P Require Import Prelude Jid AppStore Sql.

#[local] Open Scope string_scope.

(** ** Tables *)

Record signalTables := mkSignal {
  identities : gmap string (list byte);
  sessions : gmap string (list byte);
  senderKeys : gmap (string * string) (list byte)      (* chat, sender *)
}.

Definition withIdentities (f : gmap string (list byte) → gmap string (list byte)) (t : signalTables) : signalTables :=
  mkSignal (f (identities t)) (sessions t) (senderKeys t).
Definition withSessions (f : gmap string (list byte) → gmap string (list byte)) (t : signalTables) : signalTables :=
  mkSignal (identities t) (f (sessions t)) (senderKeys t).
Definition withSenderKeys (f : gmap (string * string) (list byte) → gmap (string * string) (list byte)) (t : signalTables) :
    signalTables := mkSignal (identities t) (sessions t) (f (senderKeys t)).

Definition maxIdentityCacheEntries : Z := 2048.
Definition maxMigratedPNEntries : Z := 1024.
Definition emptyPNMigrationTTL : Z := 60 * 1000000000.

(** [identityCache]: [None] is an entry that is not present. *)
Record SQLStore := mkSQLStore {
  sdb : database signalTables;
  identityCache : gmap string (option (list byte));
  identityDeleteGen : Z;
  migratedPNSessionsCache : gmap string unit;
  emptyPNMigrationCache : gmap string Z;
  migratingPNSessions : gset string
}.

Abbreviation storeM := (stateM SQLStore dbError).

Definition onDB {A} (m : dbM signalTables A) : storeM A :=
  zoom sdb (λ d s, mkSQLStore d (identityCache s) (identityDeleteGen s) (migratedPNSessionsCache s)
                     (emptyPNMigrationCache s) (migratingPNSessions s)) id m.

Definition setIdentityCache (c : gmap string (option (list byte))) (s : SQLStore) : SQLStore :=
  mkSQLStore (sdb s) c (identityDeleteGen s) (migratedPNSessionsCache s) (emptyPNMigrationCache s) (migratingPNSessions s).
Definition nextGeneration (s : SQLStore) : SQLStore :=
  mkSQLStore (sdb s) (identityCache s) (u64 (identityDeleteGen s + 1)) (migratedPNSessionsCache s)
    (emptyPNMigrationCache s) (migratingPNSessions s).

(** [anyKey]: the key an iteration over a map starts with; [order]: the order in which
    it visits keys; [limit]: of the identity cache. *)
Class MapOrder := {
  anyKey {V} : gmap string V → option string;
  order : list string → list string
}.

Section store.
Context `{MapOrder} (limit : Z).

Definition setBoundedCacheEntry {V} (lim : Z) (cache : gmap string V) (key : string) (value : V) : gmap string V :=
  let cache :=
    if decide (cache !! key = None ∧ (lim ≤ Z.of_nat (base.size cache))%Z)
    then match anyKey cache with Some oldKey => delete oldKey cache | None => cache end
    else cache in
  <[key := value]> cache.

Definition setCachedIdentity (address : string) (entry : option (list byte)) (c : gmap string (option (list byte))) :=
  setBoundedCacheEntry limit c address entry.
Definition setCachedIdentityLocked (address : string) (entry : option (list byte)) : storeM unit :=
  modify (λ s, setIdentityCache (setCachedIdentity address entry (identityCache s)) s).

(** The range of addresses of one user. *)
Definition signalAddressRange (user : string) : string * string := (user +:+ ":", user +:+ ";").

(** Byte by byte, the shorter string first. *)
Fixpoint bytesBelow (s t : list byte) : bool :=
  match s, t with
  | _, [] => false
  | [], _ :: _ => true
  | a :: s, b :: t => if (b2z a <? b2z b)%Z then true else if (b2z b <? b2z a)%Z then false else bytesBelow s t
  end.
Definition inRange (r : string * string) (address : string) : bool :=
  negb (bytesBelow (s2b address) (s2b r.1)) && bytesBelow (s2b address) (s2b r.2).

Definition hasPrefix (p s : string) : bool := bool_decide (take (length (s2b p)) (s2b s) = s2b p).

(** ** Identities *)

Definition PutIdentity (address : string) (key : list byte) : storeM unit :=
  s ← get;
  if decide (identityCache s !! address = Some (Some key)) then mret tt
  else
    _ ← onDB (update (withIdentities (<[address := key]>)));
    setCachedIdentityLocked address (Some key).

Definition DeleteAllIdentities (phone : string) : storeM unit :=
  let range := signalAddressRange phone in
  _ ← onDB (update (withIdentities (filter (λ row, inRange range row.1 = false))));
  modify (λ s, let s := nextGeneration s in
    setIdentityCache (map_imap (λ a e, Some (if hasPrefix (phone +:+ ":") a then None else e)) (identityCache s)) s).

Definition DeleteIdentity (address : string) : storeM unit :=
  _ ← onDB (update (withIdentities (delete address)));
  _ ← modify nextGeneration;
  setCachedIdentityLocked address None.

Definition getIdentity (address : string) : storeM (option (list byte)) := onDB (select (λ t, identities t !! address)).

Definition IsTrustedIdentity (address : string) (key : list byte) : storeM bool :=
  s ← get;
  match identityCache s !! address with
  | Some cached => mret (bool_decide (cached = None ∨ cached = Some key))
  | None =>
      row ← getIdentity address;
      match row with
      | None => _ ← setCachedIdentityLocked address None; mret true
      | Some existing =>
          if decide (length existing ≠ 32%nat) then throw BadLength
          else
            _ ← setCachedIdentityLocked address (Some existing);
            mret (bool_decide (existing = key))
      end
  end.

(** ON CONFLICT DO NOTHING. *)
Definition ensureIdentityQuery (address : string) (key : list byte) : signalTables → signalTables :=
  withIdentities (λ t, match t !! address with Some _ => t | None => <[address := key]> t end).

(** The part of [EnsureIdentity] that uses the table. *)
Definition insertAndCheck (address : string) (key : list byte) : storeM bool :=
  _ ← onDB (update (ensureIdentityQuery address key));
  row ← getIdentity address;
  match row with
  | None => throw NoRows
  | Some existing =>
      if decide (length existing ≠ 32%nat) then throw BadLength
      else
        _ ← setCachedIdentityLocked address (Some existing);
        mret (bool_decide (existing = key))
  end.

Definition EnsureIdentity (address : string) (key : list byte) (deleteGeneration : Z) : storeM bool :=
  s ← get;
  if decide (deleteGeneration ≠ identityDeleteGen s) then mret false
  else
    match identityCache s !! address with
    | Some (Some cached) => mret (bool_decide (cached = key))
    | _ => insertAndCheck address key
    end.

(** The first pass over the addresses: the result and the addresses to fetch. *)
Fixpoint cachedIdentities (c : gmap string (option (list byte))) (addresses seen : list string)
    (result : gmap string (list byte)) (missing : list string) : gmap string (list byte) * list string :=
  match addresses with
  | [] => (result, missing)
  | a :: addresses =>
      if decide (a ∈ seen) then cachedIdentities c addresses seen result missing
      else
        match c !! a with
        | Some (Some key) => cachedIdentities c addresses (a :: seen) (<[a := key]> result) missing
        | Some None => cachedIdentities c addresses (a :: seen) result missing
        | None => cachedIdentities c addresses (a :: seen) result (missing ++ [a])%list
        end
  end.

(** The second look, under the lock for writing. *)
Fixpoint stillMissing (c : gmap string (option (list byte))) (missing : list string)
    (result : gmap string (list byte)) (left : list string) : gmap string (list byte) * list string :=
  match missing with
  | [] => (result, left)
  | a :: missing =>
      match c !! a with
      | Some (Some key) => stillMissing c missing (<[a := key]> result) left
      | Some None => stillMissing c missing result left
      | None => stillMissing c missing result (left ++ [a])%list
      end
  end.

Fixpoint cacheFetched (c : gmap string (option (list byte))) (result : gmap string (list byte))
    (fetched : list (string * option (list byte))) : gmap string (option (list byte)) * gmap string (list byte) :=
  match fetched with
  | [] => (c, result)
  | (a, entry) :: fetched =>
      match c !! a with
      | Some (Some key) => cacheFetched c (<[a := key]> result) fetched
      | Some None => cacheFetched c (delete a result) fetched
      | None => cacheFetched (setCachedIdentity a entry c) result fetched
      end
  end.

Definition GetManyIdentities (addresses : list string) : storeM (gmap string (list byte) * Z) :=
  s ← get;
  match addresses with
  | [] => mret (∅, identityDeleteGen s)
  | _ =>
      let '(result, missing) := cachedIdentities (identityCache s) addresses [] ∅ [] in
      match missing with
      | [] => mret (result, identityDeleteGen s)
      | _ =>
          s ← get;
          let generation := identityDeleteGen s in
          let '(result, missing) := stillMissing (identityCache s) missing result [] in
          match missing with
          | [] => mret (result, generation)
          | _ =>
              rows ← onDB (select (λ t, filter (λ row, row.1 ∈ missing) (identities t)));
              if decide (map_Forall (λ _ key, length key = 32%nat) rows) then
                let fetched := (λ a, (a, rows !! a)) <$> order missing in
                let result := rows ∪ result in
                let '(c, result) := cacheFetched (identityCache s) result fetched in
                _ ← modify (setIdentityCache c);
                mret (result, generation)
              else throw BadLength
          end
      end
  end.

(** ** Sessions and sender keys *)

Definition GetSession (address : string) : storeM (option (list byte)) := onDB (select (λ t, sessions t !! address)).
Definition HasSession (address : string) : storeM bool := onDB (select (λ t, bool_decide (is_Some (sessions t !! address)))).
Definition PutSession (address : string) (session : list byte) : storeM unit :=
  onDB (update (withSessions (<[address := session]>))).

Definition GetManySessions (addresses : list string) : storeM (gmap string (option (list byte))) :=
  match addresses with
  | [] => mret ∅
  | _ => onDB (select (λ t, list_to_map ((λ a, (a, sessions t !! a)) <$> addresses)))
  end.

(** One statement inserts the rows of a chunk. *)
Definition putManySessionsChunk (ss : gmap string (list byte)) (addresses : list string) : dbM signalTables unit :=
  update (withSessions (λ t, foldl (λ t a, <[a := default [] (ss !! a)]> t) t addresses)).

Fixpoint putChunks (ss : gmap string (list byte)) (chunks : list (list string)) : dbM signalTables unit :=
  match chunks with
  | [] => mret tt
  | c :: chunks => _ ← putManySessionsChunk ss c; putChunks ss chunks
  end.

(** [native]: the driver takes arrays, so that one statement is enough. *)
Definition PutManySessions (native : bool) (ss : gmap string (list byte)) : storeM unit :=
  let addresses := (map_to_list ss).*1 in
  match addresses with
  | [] => mret tt
  | [a] => PutSession a (default [] (ss !! a))
  | _ =>
      if native || (length addresses <=? 1000)%nat then onDB (putManySessionsChunk ss addresses)
      else onDB (inTxn (putChunks ss (chunk (length addresses) 1000 addresses)))
  end.

Definition deleteAllSessions (phone : string) : dbM signalTables unit :=
  let range := signalAddressRange phone in
  update (withSessions (filter (λ row, inRange range row.1 = false))).
Definition DeleteAllSessions (phone : string) : storeM unit := onDB (deleteAllSessions phone).
Definition DeleteSession (address : string) : storeM unit := onDB (update (withSessions (delete address))).

Definition PutSenderKey (group user : string) (key : list byte) : storeM unit :=
  onDB (update (withSenderKeys (<[(group, user) := key]>))).
Definition GetSenderKey (group user : string) : storeM (option (list byte)) :=
  onDB (select (λ t, senderKeys t !! (group, user))).
End store.

(** ** From a phone number to its LID *)

(** SQL's replace: every occurrence, from left to right. *)
Fixpoint replaceAll (fuel : nat) (from to s : list byte) : list byte :=
  match fuel, s with
  | S fuel, c :: rest =>
      if decide (take (length from) s = from) then to ++ replaceAll fuel from to (drop (length from) s)
      else c :: replaceAll fuel from to rest
  | _, _ => s
  end.
Definition sqlReplace (s from to : string) : string :=
  if decide (from = "") then s
  else b2s (replaceAll (String.length s) (s2b from) (s2b to) (s2b s)).

(** SQL's LIKE; [fold] is the comparison without case of SQLite, or the identity. *)
Fixpoint likeBytes (fold : byte → byte) (p s : list byte) : bool :=
  match p with
  | [] => match s with [] => true | _ => false end
  | c :: p =>
      if decide (c = x25) then
        (fix any (s : list byte) : bool :=
           likeBytes fold p s || match s with [] => false | _ :: s => any s end) s
      else
        match s with
        | [] => false
        | d :: s => (bool_decide (c = x5f) || bool_decide (fold c = fold d)) && likeBytes fold p s
        end
  end.

Definition lowerASCII (b : byte) : byte := if (65 <=? b2z b)%Z && (b2z b <=? 90)%Z then z2b (b2z b + 32) else b.
Definition like (sqlite : bool) (pattern s : string) : bool :=
  likeBytes (if sqlite then lowerASCII else λ b, b) (s2b pattern) (s2b s).

Section migrate.
Context `{MapOrder} (sqlite : bool).

Definition ofUser (user address : string) : bool := like sqlite (user +:+ ":%") address.

(** INSERT ... SELECT ... ON CONFLICT DO UPDATE. *)
Definition migrateRows {K V} `{Countable K} (who : K → string) (move : K → K) (pn : string) (t : gmap K V) : gmap K V :=
  foldl (λ t row, <[move row.1 := row.2]> t) t
    (List.filter (λ row, ofUser pn (who row.1)) (map_to_list t)).

Definition migratePNToLIDSessionsQuery (pn lid : string) : signalTables → signalTables :=
  withSessions (migrateRows id (λ a, sqlReplace a pn lid) pn).
Definition migratePNToLIDIdentityKeysQuery (pn lid : string) : signalTables → signalTables :=
  withIdentities (migrateRows id (λ a, sqlReplace a pn lid) pn).
Definition migratePNToLIDSenderKeysQuery (pn lid : string) : signalTables → signalTables :=
  withSenderKeys (migrateRows snd (λ k, (k.1, sqlReplace k.2 pn lid)) pn).

Definition deleteAllIdentityKeys (phone : string) : dbM signalTables unit :=
  update (withIdentities (filter (λ row, ofUser phone row.1 = false))).
Definition deleteAllSenderKeys (phone : string) : dbM signalTables unit :=
  update (withSenderKeys (filter (λ row, ofUser phone row.1.2 = false))).

Definition hasPNRows (pn : string) (t : signalTables) : bool :=
  let mine a := if sqlite then inRange (signalAddressRange pn) a else ofUser pn a in
  existsb (λ row, mine row.1) (map_to_list (sessions t)) ||
  existsb (λ row, mine row.1) (map_to_list (identities t)) ||
  existsb (λ row, mine row.1.2) (map_to_list (senderKeys t)).

Definition migration (pn lid : string) : dbM signalTables unit :=
  _ ← update (migratePNToLIDSessionsQuery pn lid);
  _ ← deleteAllSessions pn;
  _ ← update (migratePNToLIDIdentityKeysQuery pn lid);
  _ ← deleteAllIdentityKeys pn;
  _ ← update (migratePNToLIDSenderKeysQuery pn lid);
  deleteAllSenderKeys pn.

Definition setMigration (migrated : gmap string unit) (empty : gmap string Z) (migrating : gset string) (s : SQLStore) : SQLStore :=
  mkSQLStore (sdb s) (identityCache s) (identityDeleteGen s) migrated empty migrating.

Definition finishPNMigration (pnSignal : string) (markMigrated : bool) : storeM unit :=
  modify (λ s, setMigration
    (if markMigrated then setBoundedCacheEntry maxMigratedPNEntries (migratedPNSessionsCache s) pnSignal tt
     else migratedPNSessionsCache s)
    (delete pnSignal (emptyPNMigrationCache s)) (migratingPNSessions s ∖ {[pnSignal]}) s).

Definition finishEmptyPNMigration (pnSignal : string) (now : Z) : storeM unit :=
  modify (λ s, setMigration (migratedPNSessionsCache s)
    (setBoundedCacheEntry maxMigratedPNEntries (emptyPNMigrationCache s) pnSignal (now + emptyPNMigrationTTL)%Z)
    (migratingPNSessions s ∖ {[pnSignal]}) s).

(** The move of this number has neither been done nor is it under way, and the number
    was not found empty recently. *)
Definition idle (pnSignal : string) (now : Z) (s : SQLStore) : bool :=
  bool_decide (migratedPNSessionsCache s !! pnSignal = None) &&
  bool_decide (pnSignal ∉ migratingPNSessions s) &&
  match emptyPNMigrationCache s !! pnSignal with Some until => (until <=? now)%Z | None => true end.

(** The part under the lock: whether there is something to do. *)
Definition startMigration (pnSignal : string) (now : Z) : storeM bool := λ s,
  let emptyCache :=
    match emptyPNMigrationCache s !! pnSignal with
    | Some until => if (until <=? now)%Z then delete pnSignal (emptyPNMigrationCache s) else emptyPNMigrationCache s
    | None => emptyPNMigrationCache s
    end in
  (Ok (idle pnSignal now s),
   setMigration (migratedPNSessionsCache s) emptyCache
     (if idle pnSignal now s then {[pnSignal]} ∪ migratingPNSessions s else migratingPNSessions s) s).

(** The result of a call, with the state it leaves. *)
Definition attempt {A} (m : storeM A) : storeM (outcome dbError A) := λ s, let '(r, s) := m s in (Ok r, s).

(** The transaction and what follows it. *)
Definition runMigration (pnSignal lidSignal : string) : storeM unit :=
  r ← attempt (onDB (inTxn (migration pnSignal lidSignal)));
  _ ← finishPNMigration pnSignal (is_ok r);
  match r with
  | Ok _ => modify (setIdentityCache ∅)
  | _ => lift r
  end.

(** [now] and [later]: the time when the call starts and when it finds no rows. *)
Definition MigratePNToLID (pn lid : JID) (now later : Z) : storeM unit :=
  let pnSignal := SignalAddressUser pn in
  go ← startMigration pnSignal now;
  if negb go then mret tt
  else
    has ← attempt (onDB (select (hasPNRows pnSignal)));
    match has with
    | Ok false => finishEmptyPNMigration pnSignal later
    | _ => runMigration pnSignal (SignalAddressUser lid)
    end.
End migrate.
