(* ===== verification/SignalTheory.v ===== *)
(** The Signal tables: addresses of a user, the identity cache against its table, and
    what the move from a phone number to a LID does. *)
From Stdlib Require Import ZArith Lia.
From Stdlib Require Import Strings.Byte Strings.Ascii.
From stdpp Require Import prelude gmap strings list fin_maps.
From S2P Require Import Prelude Jid AppStore Sql SignalStore.

#[local] Open Scope string_scope.

(** ** The addresses of a user *)

Definition address (user device : string) : string := user +:+ ":" +:+ device.

Lemma bytesBelow_range (u a : list byte) :
  negb (bytesBelow a (u ++ [x3a])%list) && bytesBelow a (u ++ [x3b])%list =
  bool_decide (take (S (length u)) a = (u ++ [x3a])%list).
Proof.
  revert a. induction u as [|b u IH]; intros [|c a]; try done.
  - assert (bytesBelow a [] = false) as Hnil by (by destruct a).
    cbn [bytesBelow app length take]. rewrite Hnil. change (b2z x3a) with 58%Z. change (b2z x3b) with 59%Z.
    destruct (b2z c <? 58)%Z eqn:H1; [|destruct (58 <? b2z c)%Z eqn:H2].
    + cbn. symmetry. apply bool_decide_eq_false. intros [= ->]. cbn in H1. done.
    + assert ((b2z c <? 59)%Z = false) as -> by lia. cbn.
      destruct (59 <? b2z c)%Z; symmetry; apply bool_decide_eq_false; intros [= ->]; cbn in H2; done.
    + assert (c = x3a) as -> by (apply b2z_inj; change (b2z x3a) with 58%Z; lia). cbn. symmetry. by apply bool_decide_eq_true.
  - cbn [bytesBelow app length take]. destruct (b2z c <? b2z b)%Z eqn:H1; [|destruct (b2z b <? b2z c)%Z eqn:H2].
    + cbn. symmetry. apply bool_decide_eq_false. intros [= -> _]. lia.
    + cbn. symmetry. apply bool_decide_eq_false. intros [= -> _]. lia.
    + assert (c = b) as -> by (apply b2z_inj; lia). rewrite IH. apply bool_decide_ext. cbn. split; [by intros ->|by intros [=]].
Qed.

(** The range of a user is the prefix "user:". *)
Lemma inRange_prefix user a : inRange (signalAddressRange user) a = hasPrefix (user +:+ ":") a.
Proof.
  unfold inRange, signalAddressRange, hasPrefix. cbn [fst snd]. rewrite !s2b_app.
  change (s2b ":") with [x3a]. change (s2b ";") with [x3b]. rewrite bytesBelow_range, length_app. cbn.
  by rewrite Nat.add_1_r.
Qed.

Lemma hasPrefix_address user a : hasPrefix (user +:+ ":") a = true ↔ ∃ device, a = address user device.
Proof.
  unfold hasPrefix, address. rewrite bool_decide_eq_true. split.
  - intros Ht. exists (b2s (drop (length (s2b (user +:+ ":"))) (s2b a))). apply s2b_inj.
    rewrite !s2b_app, s2b_b2s. rewrite <- (take_drop (length (s2b (user +:+ ":"))) (s2b a)) at 1. rewrite Ht, s2b_app.
    by rewrite <- (assoc_L app).
  - intros [device ->]. rewrite !s2b_app, (assoc_L app). apply take_app_length.
Qed.

(** A byte that LIKE takes for itself only. *)
Definition plain (fold : byte → byte) (c : byte) : Prop := c ≠ x25 ∧ c ≠ x5f ∧ ∀ d, fold c = fold d → c = d.

Lemma like_any fold s : likeBytes fold [x25] s = true.
Proof. induction s as [|c s IH]; [done|exact IH]. Qed.

Lemma likeBytes_prefix fold u : ∀ s,
  Forall (plain fold) u → likeBytes fold (u ++ [x25])%list s = bool_decide (take (length u) s = u).
Proof.
  induction u as [|c u IH]; intros s Hu.
  - etrans; [apply like_any|]. symmetry. by apply bool_decide_eq_true.
  - apply Forall_cons in Hu as [(H1 & H2 & H3) Hu]. cbn [likeBytes app length take].
    rewrite decide_False by done. destruct s as [|d s]; [done|]. rewrite (bool_decide_eq_false_2 (c = x5f)) by done. cbn [orb].
    rewrite IH by done. rewrite <- bool_decide_and. apply bool_decide_ext. split.
    + intros [Hf%H3 Ht]. cbn. by rewrite Ht, Hf.
    + cbn. by intros [= -> ->].
Qed.

Definition plainUser (sqlite : bool) (user : string) : Prop :=
  Forall (plain (if sqlite then lowerASCII else λ b, b)) (s2b user) ∧ x3a ∉ s2b user ∧ user ≠ "".

Lemma lowerASCII_fix c d : (b2z c < 65 ∨ 122 < b2z c)%Z → lowerASCII c = lowerASCII d → c = d.
Proof.
  intros Hc. unfold lowerASCII. pose proof (b2z_range c). pose proof (b2z_range d).
  destruct ((65 <=? b2z c)%Z && (b2z c <=? 90)%Z) eqn:H1; [lia|].
  destruct ((65 <=? b2z d)%Z && (b2z d <=? 90)%Z) eqn:H2; [|done].
  intros ->. rewrite b2z_z2b_small in Hc by lia. lia.
Qed.

Lemma plain_colon (sqlite : bool) : plain (if sqlite then lowerASCII else λ b, b) x3a.
Proof. split_and!; [done|done|]. intros d. destruct sqlite; [|done]. apply lowerASCII_fix. left. done. Qed.

(** Digits, as of phone numbers and LIDs, are plain. *)
Lemma plain_digits (sqlite : bool) user :
  user ≠ "" → Forall (λ c, 48 ≤ b2z c ≤ 57)%Z (s2b user) → plainUser sqlite user.
Proof.
  intros Hne Hd. split_and!; [|intros Hin; rewrite Forall_forall in Hd; specialize (Hd _ Hin); change (b2z x3a) with 58%Z in Hd; lia|done].
  eapply Forall_impl; [exact Hd|]. intros c Hc. cbn in Hc. split_and!; [intros ->; change (b2z x25) with 37%Z in Hc; lia|intros ->; change (b2z x5f) with 95%Z in Hc; lia|].
  intros d. destruct sqlite; [|done]. apply lowerASCII_fix. lia.
Qed.

(** For a plain user, LIKE "user:%" is the prefix too. *)
Lemma ofUser_prefix sqlite user a : plainUser sqlite user → ofUser sqlite user a = hasPrefix (user +:+ ":") a.
Proof.
  intros (Hp & _ & _). unfold ofUser, like, hasPrefix. rewrite !s2b_app. change (s2b ":%") with ([x3a] ++ [x25])%list.
  rewrite (assoc_L app). apply likeBytes_prefix. apply Forall_app. split; [done|]. apply Forall_singleton, plain_colon.
Qed.

(** ** Replacing the user of an address *)

Lemma replaceAll_short fuel from to s : length s < length from → replaceAll fuel from to s = s.
Proof.
  revert s. induction fuel as [|fuel IH]; intros [|c s] Hs; try done. cbn [replaceAll]. rewrite decide_False.
  - f_equal. apply IH. cbn in Hs. lia.
  - intros Ht. apply (f_equal length) in Ht. rewrite length_take in Ht. lia.
Qed.

(** The device must be shorter than the user, or a digit string inside it could be
    replaced as well. *)
Lemma sqlReplace_address user to device :
  user ≠ "" → x3a ∉ s2b user → String.length device < String.length user →
  sqlReplace (address user device) user to = address to device.
Proof.
  intros Hne Hcol Hlen. unfold sqlReplace. rewrite decide_False by done. apply s2b_inj. rewrite s2b_b2s.
  unfold address. rewrite !s2b_app. change (s2b ":") with [x3a]. rewrite <- !length_s2b in Hlen.
  assert (s2b user ≠ []) as Hne' by (intros He; apply Hne, s2b_inj; by rewrite He).
  replace (String.length (user +:+ ":" +:+ device)) with (S (length (s2b user) + length (s2b device))).
  2: { rewrite <- length_s2b, !s2b_app, !length_app. cbn. lia. }
  destruct (s2b user) as [|c u] eqn:Hu; [done|]. cbn [replaceAll app].
  rewrite decide_True by (cbn; by rewrite take_app_length).
  f_equal. cbn [length drop]. rewrite drop_app_length. cbn [Nat.add replaceAll app length]. rewrite decide_False.
  - f_equal. apply replaceAll_short. done.
  - cbn. intros [= Hc _]. apply Hcol. rewrite Hc. by left.
Qed.

(** ** Moving rows *)

Section rows.
Context {K V : Type} `{Countable K}.
Implicit Types (t : gmap K V) (move : K → K).

Definition insertAll move (t : gmap K V) (l : list (K * V)) : gmap K V := foldl (λ t row, <[move row.1 := row.2]> t) t l.

Lemma insertAll_other move l : ∀ t a, (∀ row, row ∈ l → move row.1 ≠ a) → insertAll move t l !! a = t !! a.
Proof.
  induction l as [|x l IH]; intros t a Ha; [done|].
  change (insertAll move (<[move x.1 := x.2]> t) l !! a = t !! a). rewrite IH by (intros; apply Ha; by right).
  apply lookup_insert_ne, Ha. by left.
Qed.

Lemma insertAll_in move l row : ∀ t,
  row ∈ l → (∀ row', row' ∈ l → move row'.1 = move row.1 → row'.1 = row.1) → NoDup (l.*1) →
  insertAll move t l !! move row.1 = Some row.2.
Proof.
  induction l as [|x l IH]; intros t Hin Hinj Hnd; [by apply not_elem_of_nil in Hin|].
  apply NoDup_cons in Hnd as [Hx Hnd].
  change (insertAll move (<[move x.1 := x.2]> t) l !! move row.1 = Some row.2). apply elem_of_cons in Hin as [->|Hin].
  - rewrite insertAll_other; [by rewrite lookup_insert_eq|]. intros row' Hr' Heq. apply Hx, list_elem_of_fmap.
    exists row'. split; [|done]. symmetry. apply Hinj; [by right|done].
  - apply IH; [done| |done]. intros row' Hr'. apply Hinj. by right.
Qed.

(** The rows of [mine] are moved, over whatever was there; the others stay. *)
Definition movedRows (mine : K → Prop) move (t t' : gmap K V) : Prop :=
  (∀ k, mine k → t' !! k = None) ∧
  (∀ k v, mine k → t !! k = Some v → t' !! move k = Some v) ∧
  (∀ a, ¬ mine a → (∀ k, mine k → is_Some (t !! k) → move k ≠ a) → t' !! a = t !! a).

Lemma migrate_moved (sqlite : bool) (who : K → string) move pn t :
  (∀ k, ofUser sqlite pn (who k) = true → is_Some (t !! k) → ofUser sqlite pn (who (move k)) = false) →
  (∀ k k', ofUser sqlite pn (who k) = true → ofUser sqlite pn (who k') = true → is_Some (t !! k) → is_Some (t !! k') →
     move k = move k' → k = k') →
  movedRows (λ k, ofUser sqlite pn (who k) = true) move t
    (filter (λ row, ofUser sqlite pn (who row.1) = false) (migrateRows sqlite who move pn t)).
Proof.
  intros Hout Hinj. unfold migrateRows. set (l := List.filter _ _).
  assert (∀ k v, (k, v) ∈ l ↔ t !! k = Some v ∧ ofUser sqlite pn (who k) = true) as Hl.
  { intros k v. unfold l. rewrite list_elem_of_In, filter_In, <- list_elem_of_In. by rewrite elem_of_map_to_list. }
  assert (NoDup (l.*1)) as Hnd.
  { apply NoDup_fmap_2_strong.
    - intros [k v] [k' v'] [Hk _]%Hl [Hk' _]%Hl Heq. cbn in *. congruence.
    - apply NoDup_ListNoDup, List.NoDup_filter, NoDup_ListNoDup, NoDup_map_to_list. }
  fold (insertAll move t l). split_and!.
  - intros k Hk. apply map_lookup_filter_None. right. intros v _. cbn. congruence.
  - intros k v Hk Hkv. apply map_lookup_filter_Some. split; [|apply Hout; [done|by eexists]].
    apply (insertAll_in move l (k, v)); [by apply Hl| |done].
    intros [k' v'] [Hk' Ho']%Hl Heq. cbn in *. apply Hinj; [done|done|by eexists|by eexists|done].
  - intros a Ha Hno. apply not_true_is_false in Ha.
    assert (insertAll move t l !! a = t !! a) as Hsame.
    { apply insertAll_other. intros [k v] [Hk Ho]%Hl. cbn. apply Hno; [done|by eexists]. }
    destruct (t !! a) as [v|] eqn:Hta.
    + by apply map_lookup_filter_Some.
    + apply map_lookup_filter_None. by left.
Qed.
End rows.

Lemma address_inj user d d' : address user d = address user d' → d = d'.
Proof.
  unfold address. intros Heq%(f_equal s2b). rewrite !s2b_app in Heq. by apply app_inv_head, app_inv_head, s2b_inj in Heq.
Qed.

Lemma address_users u u' d d' : x3a ∉ s2b u → x3a ∉ s2b u' → address u d = address u' d' → u = u'.
Proof.
  unfold address. intros Hu Hu' Heq%(f_equal s2b). rewrite !s2b_app in Heq. change (s2b ":") with [x3a] in Heq.
  apply s2b_inj. revert Hu Hu' Heq. generalize (s2b u), (s2b u'). intros l. induction l as [|c l IH]; intros [|c' l'] H1 H2 Heq; try done.
  - injection Heq as <- _. exfalso. apply H2. by left.
  - injection Heq as -> _. exfalso. apply H1. by left.
  - injection Heq as -> Heq. f_equal. apply IH; [| |done]; intros Hin; [apply H1|apply H2]; by right.
Qed.

(** The rows of the addresses of [pn] move to the same devices of [lid]. *)
Definition movedUser {V} (pn lid : string) (t t' : gmap string V) : Prop :=
  (∀ d, t' !! address pn d = None) ∧
  (∀ d v, t !! address pn d = Some v → t' !! address lid d = Some v) ∧
  (∀ a, (∀ d, a ≠ address pn d) → (∀ d, a = address lid d → t !! address pn d = None) → t' !! a = t !! a).
Definition movedSender {V} (pn lid : string) (t t' : gmap (string * string) V) : Prop :=
  (∀ g d, t' !! (g, address pn d) = None) ∧
  (∀ g d v, t !! (g, address pn d) = Some v → t' !! (g, address lid d) = Some v) ∧
  (∀ g a, (∀ d, a ≠ address pn d) → (∀ d, a = address lid d → t !! (g, address pn d) = None) → t' !! (g, a) = t !! (g, a)).

(** Device ids are shorter than the number. *)
Definition shortDevices (pn : string) (t : signalTables) : Prop :=
  (∀ d, is_Some (sessions t !! address pn d) ∨ is_Some (identities t !! address pn d) ∨
        (∃ g, is_Some (senderKeys t !! (g, address pn d))) → String.length d < String.length pn).

Section moved.
Context (sqlite : bool) (pn lid : string).
Context (Hpn : plainUser sqlite pn) (Hlid : x3a ∉ s2b lid) (Hne : lid ≠ pn).

Lemma ofUser_address a : ofUser sqlite pn a = true ↔ ∃ d, a = address pn d.
Proof. rewrite ofUser_prefix by done. apply hasPrefix_address. Qed.

Lemma lid_not_pn d : ofUser sqlite pn (address lid d) = false.
Proof.
  apply not_true_is_false. intros [d' Heq]%ofUser_address. apply Hne. destruct Hpn as (_ & Hc & _). by eapply address_users.
Qed.

Lemma moved_address d :
  String.length d < String.length pn → sqlReplace (address pn d) pn lid = address lid d.
Proof. destruct Hpn as (_ & Hc & Hn). by apply sqlReplace_address. Qed.

Lemma movedUser_ok {V} (t : gmap string V) :
  (∀ d, is_Some (t !! address pn d) → String.length d < String.length pn) →
  movedUser pn lid t (filter (λ row, ofUser sqlite pn row.1 = false) (migrateRows sqlite id (λ a, sqlReplace a pn lid) pn t)).
Proof.
  intros Hd.
  assert (∀ k, ofUser sqlite pn k = true → is_Some (t !! k) → ∃ d, k = address pn d ∧ sqlReplace k pn lid = address lid d) as Hmv.
  { intros k [d ->]%ofUser_address Hk. exists d. split; [done|]. by apply moved_address, Hd. }
  destruct (migrate_moved sqlite id (λ a, sqlReplace a pn lid) pn t) as (H1 & H2 & H3).
  - intros k Hk Hin. destruct (Hmv k Hk Hin) as (d & _ & ->). apply lid_not_pn.
  - intros k k' Hk Hk' Hin Hin' Heq. destruct (Hmv k Hk Hin) as (d & -> & Hm), (Hmv k' Hk' Hin') as (d' & -> & Hm').
    cbn in Heq. rewrite Hm, Hm' in Heq. by apply address_inj in Heq as ->.
  - split_and!.
    + intros d. apply H1. apply ofUser_address. by exists d.
    + intros d v Hv. rewrite <- (moved_address d) by (apply Hd; by eexists). apply H2; [|done]. apply ofUser_address. by exists d.
    + intros a Ha Hno. apply H3; [intros [d Hd']%ofUser_address; by apply (Ha d)|].
      intros k Hk Hin Heq. destruct (Hmv k Hk Hin) as (d & -> & Hm). rewrite Hm in Heq. rewrite (Hno d) in Hin by done.
      by apply is_Some_None in Hin.
Qed.

Lemma movedSender_ok {V} (t : gmap (string * string) V) :
  (∀ g d, is_Some (t !! (g, address pn d)) → String.length d < String.length pn) →
  movedSender pn lid t (filter (λ row, ofUser sqlite pn row.1.2 = false)
    (migrateRows sqlite snd (λ k, (k.1, sqlReplace k.2 pn lid)) pn t)).
Proof.
  intros Hd.
  assert (∀ k, ofUser sqlite pn k.2 = true → is_Some (t !! k) →
    ∃ d, k.2 = address pn d ∧ sqlReplace k.2 pn lid = address lid d) as Hmv.
  { intros [g k] Ho Hk. cbn in *. apply ofUser_address in Ho as [d ->]. exists d. split; [done|]. by eapply moved_address, Hd. }
  destruct (migrate_moved sqlite snd (λ k, (k.1, sqlReplace k.2 pn lid)) pn t) as (H1 & H2 & H3).
  - intros k Hk Hin. destruct (Hmv k Hk Hin) as (d & _ & Hm). cbn. rewrite Hm. apply lid_not_pn.
  - intros [g k] [g' k'] Hk Hk' Hin Hin' [= -> Heq].
    destruct (Hmv _ Hk Hin) as (d & Hd1 & Hm), (Hmv _ Hk' Hin') as (d' & Hd2 & Hm').
    cbn [fst snd] in *. subst k k'. rewrite Hm, Hm' in Heq. by apply address_inj in Heq as ->.
  - split_and!.
    + intros g d. apply H1. apply ofUser_address. by exists d.
    + intros g d v Hv. rewrite <- (moved_address d) by (eapply Hd; by eexists). apply (H2 (g, address pn d)); [|done].
      apply ofUser_address. by exists d.
    + intros g a Ha Hno. apply H3; [intros [d Hd']%ofUser_address; by apply (Ha d)|].
      intros [g' k] Hk Hin [= -> Heq]. destruct (Hmv _ Hk Hin) as (d & Hkd & Hm). cbn [fst snd] in *. rewrite Hm in Heq. subst k.
      rewrite (Hno d) in Hin by done. by apply is_Some_None in Hin.
Qed.

Definition movedTables (t t' : signalTables) : Prop :=
  movedUser pn lid (sessions t) (sessions t') ∧ movedUser pn lid (identities t) (identities t') ∧
  movedSender pn lid (senderKeys t) (senderKeys t').

Lemma migration_Ok d d' :
  shortDevices pn (content d) → migration sqlite pn lid d = (Ok tt, d') → movedTables (content d) (content d').
Proof.
  intros Hshort Hr. unfold migration, deleteAllSessions, deleteAllIdentityKeys, deleteAllSenderKeys in Hr. inv_run.
  repeat match goal with H : update _ _ = _ |- _ => apply update_Ok in H end.
  match goal with H : content d' = _ |- _ => rewrite H end.
  repeat match goal with H : content ?x = _ |- context [content ?x] => rewrite H end.
  unfold movedTables. cbn [sessions identities senderKeys withSessions withIdentities withSenderKeys
    migratePNToLIDSessionsQuery migratePNToLIDIdentityKeysQuery migratePNToLIDSenderKeysQuery].
  split_and!.
  - match goal with |- movedUser _ _ ?t (filter ?P ?m) =>
      rewrite (proj1 (map_filter_ext P (λ row, ofUser sqlite pn row.1 = false) m)) end.
    + apply movedUser_ok. intros dev Hd. apply Hshort. by left.
    + intros a v _. cbn [fst]. by rewrite inRange_prefix, ofUser_prefix.
  - apply movedUser_ok. intros dev Hd. apply Hshort. by right; left.
  - apply movedSender_ok. intros g dev Hd. apply Hshort. right; right. by exists g.
Qed.

Lemma hasPNRows_false t : hasPNRows sqlite pn t = false → movedTables t t.
Proof.
  unfold hasPNRows. intros [[Hs Hi]%orb_false_iff Hk]%orb_false_iff.
  assert (∀ a, (if sqlite then inRange (signalAddressRange pn) a else ofUser sqlite pn a) = ofUser sqlite pn a) as Heq.
  { intros a. rewrite inRange_prefix, ofUser_prefix by done. by destruct sqlite. }
  assert (∀ V (m : gmap string V), existsb (λ row, if sqlite then inRange (signalAddressRange pn) row.1 else ofUser sqlite pn row.1)
    (map_to_list m) = false → movedUser pn lid m m) as Hone.
  { intros V m He. assert (∀ d, m !! address pn d = None) as Hno.
    { intros d. apply eq_None_not_Some. intros [v Hv%elem_of_map_to_list]. apply not_true_iff_false in He. apply He.
      apply existsb_exists. exists (address pn d, v). split; [by apply list_elem_of_In|]. cbn. rewrite Heq. apply ofUser_address. by exists d. }
    split_and!; [done| |done]. intros d v Hv. by rewrite Hno in Hv. }
  split_and!; [by apply Hone..|].
  assert (∀ g d, senderKeys t !! (g, address pn d) = None) as Hno.
  { intros g d. apply eq_None_not_Some. intros [v Hv%elem_of_map_to_list]. apply not_true_iff_false in Hk. apply Hk.
    apply existsb_exists. exists ((g, address pn d), v). split; [by apply list_elem_of_In|]. cbn. rewrite Heq. apply ofUser_address. by exists d. }
  split_and!; [done| |done]. intros g d v Hv. by rewrite Hno in Hv.
Qed.
End moved.

Section migrate.
Context `{MapOrder} (sqlite : bool).

Definition rowsOf (s : SQLStore) : signalTables := content (sdb s).

Lemma runMigration_ok P L s r s' :
  plainUser sqlite P → x3a ∉ s2b L → L ≠ P → shortDevices P (rowsOf s) →
  runMigration sqlite P L s = (r, s') →
  migratingPNSessions s' = migratingPNSessions s ∖ {[P]} ∧ emptyPNMigrationCache s' !! P = None ∧
  ((r = Ok tt ∧ movedTables P L (rowsOf s) (rowsOf s') ∧ migratedPNSessionsCache s' !! P = Some tt ∧ identityCache s' = ∅) ∨
   ((∃ e, r = Err e) ∧ rowsOf s' = rowsOf s ∧ identityCache s' = identityCache s ∧
    migratedPNSessionsCache s' = migratedPNSessionsCache s)).
Proof.
  intros Hplain HL HLP Hshort. unfold runMigration, mbind, stateM_bind, attempt, onDB, zoom.
  destruct (inTxn (migration sqlite P L) (sdb s)) as [rm d2] eqn:Htxn.
  assert (match rm with Ok _ | Err _ => True | _ => False end) as Hsettle.
  { pose proof (settles_inTxn (migration sqlite P L)) as Hs. change rm with (rm, d2).1. rewrite <- Htxn. apply Hs.
    repeat (apply settles_bind; intros); apply settles_update. }
  destruct rm as [[]|e| |]; try done; intros [= <- <-]; cbn; (split_and!; [done|by rewrite lookup_delete_eq|]).
  - left. apply inTxn_Ok in Htxn as (d3 & d4 & H3 & H4 & H5). unfold rowsOf in *. cbn. split_and!; [done| |by apply lookup_insert_eq|done].
    rewrite H5, <- H3. rewrite <- H3 in Hshort. by apply migration_Ok in H4.
  - right. apply inTxn_atomic in Htxn as [[? ?]|Hc]; [done|]. split_and!; [by exists e|exact Hc|done|done].
Qed.

(** C16: moving a phone number's rows to its LID. For a number and a LID of plain digits, with
    devices shorter than the number, a call that finds no earlier move either moves
    the sessions, identity keys and sender keys of every device of the number to the
    same device of the LID, over what was there, keeps every other row and forgets
    the cached identities, or fails and changes no row and no cached identity. In
    both cases the number is no longer marked as being moved, and only a success
    marks it as moved or empty. A call for a number that was moved, is being moved,
    or was found empty within a minute does nothing. *)
Theorem MigratePNToLID_spec (pn lid : JID) (now later : Z) (s s' : SQLStore) (r : outcome dbError unit) :
  let P := SignalAddressUser pn in let L := SignalAddressUser lid in
  plainUser sqlite P → x3a ∉ s2b L → L ≠ P → shortDevices P (rowsOf s) →
  MigratePNToLID sqlite pn lid now later s = (r, s') →
  if idle P now s then
    migratingPNSessions s' = migratingPNSessions s ∧
    ((r = Ok tt ∧ movedTables P L (rowsOf s) (rowsOf s') ∧
      ((migratedPNSessionsCache s' !! P = Some tt ∧ identityCache s' = ∅) ∨
       (emptyPNMigrationCache s' !! P = Some (later + emptyPNMigrationTTL)%Z ∧ identityCache s' = identityCache s ∧ rowsOf s' = rowsOf s))) ∨
     ((∃ e, r = Err e) ∧ rowsOf s' = rowsOf s ∧ identityCache s' = identityCache s ∧
      migratedPNSessionsCache s' = migratedPNSessionsCache s ∧ emptyPNMigrationCache s' !! P = None))
  else r = Ok tt ∧ rowsOf s' = rowsOf s ∧ identityCache s' = identityCache s.
Proof.
  intros P L Hplain HL HLP Hshort Hr. unfold MigratePNToLID in Hr. fold P L in Hr.
  unfold mbind, stateM_bind, startMigration in Hr. destruct (idle P now s) eqn:Hidle; cbn [negb] in Hr.
  2: { by injection Hr as <- <-. }
  assert (P ∉ migratingPNSessions s) as HP.
  { unfold idle in Hidle. apply andb_true_iff in Hidle as [[_ Hm]%andb_true_iff _]. by apply bool_decide_eq_true in Hm. }
  assert (({[P]} ∪ migratingPNSessions s) ∖ {[P]} = migratingPNSessions s) as Hset by set_solver.
  set (empty := match emptyPNMigrationCache s !! P with Some _ => _ | None => _ end) in Hr.
  unfold attempt, onDB, zoom in Hr. cbn [sdb setMigration] in Hr.
  destruct (select (hasPNRows sqlite P) (sdb s)) as [has d1] eqn:Hhas.
  assert (content d1 = content (sdb s) ∧ (has = Ok false → movedTables P L (rowsOf s) (rowsOf s))) as [Hd1 Hempty].
  { destruct has as [b| | |]; [apply select_Ok in Hhas as [-> ?]|eapply stmt_failed in Hhas; done..]. split; [done|].
    intros [= Hb]. by apply (hasPNRows_false sqlite). }
  destruct (decide (has = Ok false)) as [->|Hgo].
  { cbn in Hr. injection Hr as <- <-. cbn. split; [done|]. left. unfold rowsOf in *. cbn. rewrite Hd1.
    split_and!; [done|by apply Hempty|]. right. split_and!; [|done|done].
    unfold setBoundedCacheEntry. by rewrite lookup_insert_eq. }
  cbn [setMigration] in Hr.
  match type of Hr with _ ?s1 = _ => set (s1' := s1) in Hr; assert (runMigration sqlite P L s1' = (r, s')) as Hrun end.
  { destruct has as [[]| | |]; done. }
  apply runMigration_ok in Hrun as (Hm & He & Hcase); [|done|done|done|by unfold rowsOf; cbn; rewrite Hd1].
  unfold rowsOf in *. cbn in Hm, Hcase. rewrite Hset in Hm. rewrite Hd1 in Hcase. split; [done|].
  destruct Hcase as [(? & ? & ? & ?)|(? & ? & ? & ?)]; [left|right]; split_and!; try done. by left.
Qed.
End migrate.
