(* ===== verification/IdentityCache.v ===== *)
(** The cache of identity keys against its table, and the generation that keeps a
    deleted identity from coming back. *)
From Stdlib Require Import ZArith Lia.
From Stdlib Require Import Strings.Byte.
From stdpp Require Import prelude gmap strings list fin_maps fin_map_dom.
From S2P Require Import Prelude Jid AppStore Sql SignalStore SignalTheory.

#[local] Open Scope string_scope.

Class MapOrderLaws `{MapOrder} : Prop := {
  anyKey_law {V} (m : gmap string V) : m ≠ ∅ → ∃ k, anyKey m = Some k ∧ is_Some (m !! k);
  order_law l : order l ≡ₚ l
}.

Section identity.
Context `{MapOrder} `{!MapOrderLaws} (limit : Z) (limit_pos : (1 ≤ limit)%Z).

Abbreviation idCache := (gmap string (option (list byte))).

(** What the table says of an address. *)
Definition keyOf (s : SQLStore) (a : string) : option (list byte) := identities (rowsOf s) !! a.

(** Every cached entry is what the table says, and there are not too many. *)
Definition agrees (ids : gmap string (list byte)) (c : idCache) : Prop :=
  (∀ a e, c !! a = Some e → e = ids !! a) ∧ (Z.of_nat (base.size c) ≤ limit)%Z.

Record idInv (s : SQLStore) : Prop := mkIdInv {
  id_keys a k : keyOf s a = Some k → length k = 32%nat;
  id_agrees : agrees (identities (rowsOf s)) (identityCache s)
}.

Lemma setBounded_size {V} (c : gmap string V) k v :
  (Z.of_nat (base.size c) ≤ limit)%Z → (Z.of_nat (base.size (setBoundedCacheEntry limit c k v)) ≤ limit)%Z.
Proof.
  intros Hc. unfold setBoundedCacheEntry. case_decide as Hd.
  - destruct Hd as [Hk Hl]. destruct (anyKey_law c) as (k' & -> & Hk').
    { intros ->. rewrite map_size_empty in Hl. lia. }
    rewrite map_size_insert_None by (rewrite lookup_delete_None; by right).
    rewrite map_size_delete_Some by done. destruct Hk' as [v' Hk']. 
    assert (base.size c ≠ 0%nat); [|lia]. intros He. apply map_size_empty_inv in He. by subst c.
  - destruct (c !! k) eqn:Hk; [by rewrite map_size_insert_Some by eauto|].
    rewrite map_size_insert_None by done. destruct (decide (limit ≤ Z.of_nat (base.size c))%Z); [by destruct Hd|lia].
Qed.

Lemma setBounded_lookup {V} (c : gmap string V) k v a x :
  setBoundedCacheEntry limit c k v !! a = Some x → (a = k ∧ x = v) ∨ c !! a = Some x.
Proof.
  unfold setBoundedCacheEntry. intros [[-> ->]|[_ Ha]]%lookup_insert_Some; [by left|right].
  case_decide; [|done]. destruct (anyKey c); [|done]. by apply lookup_delete_Some in Ha as [_ ?].
Qed.

Lemma agrees_set ids c a : agrees ids c → agrees ids (setCachedIdentity limit a (ids !! a) c).
Proof.
  intros [Hc Hs]. split; [|by apply setBounded_size]. intros b e [[-> ->]|Hb]%setBounded_lookup; [done|by apply Hc].
Qed.

(** A change of the table at one address. *)
Lemma agrees_change ids ids' c a :
  (∀ b, b ≠ a → ids' !! b = ids !! b) → agrees ids c → agrees ids' (setCachedIdentity limit a (ids' !! a) c).
Proof.
  intros Hids [Hc Hs]. split; [|by apply setBounded_size]. intros b e Hb. unfold setCachedIdentity, setBoundedCacheEntry in Hb.
  apply lookup_insert_Some in Hb as [[<- <-]|[Hne Hb]]; [done|]. rewrite Hids by done.
  assert (c !! b = Some e); [|by apply Hc]. case_decide; [|done]. destruct (anyKey c); [|done]. by apply lookup_delete_Some in Hb as [_ ?].
Qed.

(** ** Statements *)

Definition kept (s s' : SQLStore) : Prop :=
  identityCache s' = identityCache s ∧ identityDeleteGen s' = identityDeleteGen s ∧
  (working (sdb s) → working (sdb s')).

Lemma stmt_keeps_working {T A} (f : T → outcome dbError (A * T)) d r d' :
  stmt f d = (r, d') → working d → working d' ∧ r ≠ Err DriverFailed ∨ ∃ e, f (content d) = Err e ∧ r = Err e ∧ working d'.
Proof.
  unfold stmt, working. destruct (failing d) as [|b fs]; cbn; intros Hr Hw.
  - destruct (f (content d)) as [[a t]|e| |]; injection Hr as <- <-; [by left|right; by exists e|by left|by left].
  - apply Forall_cons in Hw as [-> Hw].
    destruct (f (content d)) as [[a t]|e| |]; injection Hr as <- <-; [by left|right; by exists e|by left|by left].
Qed.

Lemma onDB_update f s r s' :
  onDB (update f) s = (r, s') →
  kept s s' ∧ ((r = Ok tt ∧ rowsOf s' = f (rowsOf s)) ∨
               (r = Err DriverFailed ∧ rowsOf s' = rowsOf s ∧ ¬ working (sdb s))).
Proof.
  unfold onDB, zoom. destruct (update f (sdb s)) as [r0 d] eqn:Hu. intros [= <- <-].
  pose proof (stmt_keeps_working _ _ _ _ Hu) as Hw. split.
  - split; [done|]. split; [done|]. intros Hs. by destruct (Hw Hs) as [[? _]|(e & ? & _)].
  - apply update_cases in Hu as [[-> Hc]|[-> Hc]]; [by left|right]. split; [done|]. split; [done|].
    intros Hs. by destruct (Hw Hs) as [[_ ?]|(e & ? & _)].
Qed.

Lemma onDB_select {A} (f : signalTables → A) s r s' :
  onDB (select f) s = (r, s') →
  kept s s' ∧ rowsOf s' = rowsOf s ∧ (r = Ok (f (rowsOf s)) ∨ (r = Err DriverFailed ∧ ¬ working (sdb s))).
Proof.
  unfold onDB, zoom. destruct (select f (sdb s)) as [r0 d] eqn:Hu. intros [= <- <-].
  pose proof (stmt_keeps_working _ _ _ _ Hu) as Hw. split.
  - split; [done|]. split; [done|]. intros Hs. by destruct (Hw Hs) as [[? _]|(e & ? & _)].
  - unfold select, stmt in Hu. destruct (default false _) eqn:Hd; injection Hu as <- <-; (split; [done|]); [right|by left].
    split; [done|]. unfold working. intros Hs. destruct (failing (sdb s)); [done|]. apply Forall_cons in Hs as [-> _]. done.
Qed.

(** ** The operations *)

Inductive idCall :=
| CPutIdentity (a : string) (key : list byte)
| CDeleteAll (phone : string)
| CDelete (a : string)
| CIsTrusted (a : string) (key : list byte)
| CEnsure (a : string) (key : list byte) (generation : Z)
| CGetMany (addresses : list string).

Inductive idResult := IdUnit | IdBool (b : bool) | IdMany (m : gmap string (list byte)) (generation : Z).

Definition runId (c : idCall) : storeM idResult :=
  match c with
  | CPutIdentity a key => _ ← PutIdentity limit a key; mret IdUnit
  | CDeleteAll phone => _ ← DeleteAllIdentities phone; mret IdUnit
  | CDelete a => _ ← DeleteIdentity limit a; mret IdUnit
  | CIsTrusted a key => b ← IsTrustedIdentity limit a key; mret (IdBool b)
  | CEnsure a key generation => b ← EnsureIdentity limit a key generation; mret (IdBool b)
  | CGetMany addresses => '(m, g) ← GetManyIdentities limit addresses; mret (IdMany m g)
  end.

(** The keys after a call that worked. *)
Definition keysAfter (c : idCall) (s : SQLStore) : gmap string (list byte) :=
  let ids := identities (rowsOf s) in
  match c with
  | CPutIdentity a key => <[a := key]> ids
  | CDeleteAll phone => filter (λ row, hasPrefix (phone +:+ ":") row.1 = false) ids
  | CDelete a => delete a ids
  | CEnsure a key g =>
      if decide (g = identityDeleteGen s) then match ids !! a with Some _ => ids | None => <[a := key]> ids end else ids
  | _ => ids
  end.

(** What a call that worked answers. *)
Definition idAnswer (c : idCall) (s : SQLStore) (x : idResult) : Prop :=
  match c with
  | CIsTrusted a key => x = IdBool (bool_decide (keyOf s a = None ∨ keyOf s a = Some key))
  | CEnsure a key g => x = IdBool (bool_decide (g = identityDeleteGen s ∧ keysAfter c s !! a = Some key))
  | CGetMany addresses =>
      ∃ m, x = IdMany m (identityDeleteGen s) ∧ ∀ a, m !! a = if decide (a ∈ addresses) then keyOf s a else None
  | _ => x = IdUnit
  end.

(** Keys have 32 bytes, and the database works while an identity is ensured. *)
Definition idAdmissible (c : idCall) (s : SQLStore) : Prop :=
  match c with
  | CPutIdentity _ key => length key = 32%nat
  | CEnsure _ key _ => length key = 32%nat ∧ working (sdb s)
  | _ => True
  end.

Definition idSpec (c : idCall) (s : SQLStore) (r : outcome dbError idResult) (s' : SQLStore) : Prop :=
  (∃ x, r = Ok x ∧ idAnswer c s x ∧ identities (rowsOf s') = keysAfter c s) ∨
  (r = Err DriverFailed ∧ ¬ working (sdb s) ∧ rowsOf s' = rowsOf s).

Lemma mret_run {A} (m : storeM A) (f : A → idResult) s r s' :
  (a ← m; mret (f a)) s = (r, s') → ∃ r0, m s = (r0, s') ∧ r = f <$> r0.
Proof. unfold mbind, stateM_bind. destruct (m s) as [[a|x| |] s1]; cbn; intros [= <- <-]; by eexists. Qed.


Lemma idInv_intro s c :
  (∀ a k, keyOf s a = Some k → length k = 32%nat) → agrees (identities (rowsOf s)) c → idInv (setIdentityCache c s).
Proof. intros Hk Ha. by split. Qed.

Lemma idInv_kept s s' : idInv s → kept s s' → rowsOf s' = rowsOf s → idInv s'.
Proof. intros [Hk Ha] (Hc & _) Hr. unfold keyOf in *. split; [unfold keyOf|]; by rewrite ?Hr, ?Hc. Qed.

Lemma PutIdentity_ok a key s r s' :
  idInv s → length key = 32%nat → PutIdentity limit a key s = (r, s') →
  idInv s' ∧ ((r = Ok tt ∧ identities (rowsOf s') = <[a := key]> (identities (rowsOf s))) ∨
              (r = Err DriverFailed ∧ ¬ working (sdb s) ∧ rowsOf s' = rowsOf s)).
Proof.
  intros Hs Hlen. pose proof Hs as [Hk Ha]. unfold PutIdentity, mbind, stateM_bind. cbn [get]. case_decide as Hc.
  { intros [= <- <-]. split; [done|left]. split; [done|]. symmetry. apply insert_id. symmetry. by apply (proj1 Ha) in Hc. }
  destruct (onDB _ s) as [r0 s1] eqn:Hu. apply onDB_update in Hu as [(Hkc & Hkg & _) [[-> Hr1]|(-> & Hr1 & Hw)]].
  - intros [= <- <-]. assert (identities (rowsOf s1) = <[a := key]> (identities (rowsOf s))) as Hids by by rewrite Hr1.
    split; [|by left]. apply idInv_intro.
    + intros b k. unfold keyOf. rewrite Hids. intros [[_ <-]|[_ ?]]%lookup_insert_Some; [done|by eapply Hk].
    + rewrite Hids, Hkc. replace (Some key) with (<[a := key]> (identities (rowsOf s)) !! a) by apply lookup_insert_eq.
      eapply agrees_change, Ha. intros b Hb. by apply lookup_insert_ne.
  - intros [= <- <-]. split; [|by right]. by eapply idInv_kept.
Qed.

Lemma DeleteIdentity_ok a s r s' :
  idInv s → DeleteIdentity limit a s = (r, s') →
  idInv s' ∧ ((r = Ok tt ∧ identities (rowsOf s') = delete a (identities (rowsOf s)) ∧
               identityDeleteGen s' = u64 (identityDeleteGen s + 1)) ∨
              (r = Err DriverFailed ∧ ¬ working (sdb s) ∧ rowsOf s' = rowsOf s ∧ identityDeleteGen s' = identityDeleteGen s)).
Proof.
  intros Hs. pose proof Hs as [Hk Ha]. unfold DeleteIdentity, mbind, stateM_bind.
  destruct (onDB _ s) as [r0 s1] eqn:Hu. apply onDB_update in Hu as [(Hkc & Hkg & Hkw) [[-> Hr1]|(-> & Hr1 & Hw)]].
  - intros [= <- <-]. assert (identities (rowsOf s1) = delete a (identities (rowsOf s))) as Hids by by rewrite Hr1.
    split; [|left; cbn; by rewrite Hkg]. apply (idInv_intro (nextGeneration s1)).
    + intros b k. unfold keyOf. cbn. change (identities (rowsOf s1) !! b = Some k → length k = 32%nat).
      rewrite Hids. intros [_ ?]%lookup_delete_Some. by eapply Hk.
    + change (rowsOf (nextGeneration s1)) with (rowsOf s1). change (identityCache (nextGeneration s1)) with (identityCache s1).
      rewrite Hids, Hkc. replace None with (delete a (identities (rowsOf s)) !! a) by apply lookup_delete_eq.
      eapply agrees_change, Ha. intros b Hb. by apply lookup_delete_ne.
  - intros [= <- <-]. split; [|by right]. by eapply idInv_kept.
Qed.

Lemma DeleteAll_ok phone s r s' :
  idInv s → DeleteAllIdentities phone s = (r, s') →
  idInv s' ∧ ((r = Ok tt ∧ identities (rowsOf s') = keysAfter (CDeleteAll phone) s ∧
               identityDeleteGen s' = u64 (identityDeleteGen s + 1)) ∨
              (r = Err DriverFailed ∧ ¬ working (sdb s) ∧ rowsOf s' = rowsOf s ∧ identityDeleteGen s' = identityDeleteGen s)).
Proof.
  intros Hs. pose proof Hs as [Hk Ha]. unfold DeleteAllIdentities, mbind, stateM_bind.
  destruct (onDB _ s) as [r0 s1] eqn:Hu. apply onDB_update in Hu as [(Hkc & Hkg & Hkw) [[-> Hr1]|(-> & Hr1 & Hw)]].
  - intros [= <- <-]. assert (identities (rowsOf s1) = keysAfter (CDeleteAll phone) s) as Hids.
    { rewrite Hr1. cbn. apply map_filter_ext. intros b k _. cbn. by rewrite inRange_prefix. }
    split; [|left; cbn; by rewrite Hkg]. apply (idInv_intro (nextGeneration s1)).
    + intros b k. change (identities (rowsOf s1) !! b = Some k → length k = 32%nat).
      rewrite Hids. intros [? _]%map_lookup_filter_Some. by eapply Hk.
    + change (rowsOf (nextGeneration s1)) with (rowsOf s1). change (identityCache (nextGeneration s1)) with (identityCache s1).
      rewrite Hids, Hkc. destruct Ha as [Hc Hsz]. split.
      * intros b e. rewrite map_lookup_imap. destruct (identityCache s !! b) as [e'|] eqn:Hb; [|done]. cbn. intros [= <-].
        apply Hc in Hb. unfold keysAfter. destruct (hasPrefix (phone +:+ ":") b) eqn:Hp.
        -- symmetry. apply map_lookup_filter_None. right. intros k _. cbn. by rewrite Hp.
        -- rewrite Hb. destruct (identities (rowsOf s) !! b) as [k|] eqn:Hbk; symmetry.
           ++ by apply map_lookup_filter_Some.
           ++ apply map_lookup_filter_None. by left.
      * etrans; [|exact Hsz]. apply inj_le. rewrite <- !size_dom. apply subseteq_size. intros b.
        rewrite !elem_of_dom, map_lookup_imap. destruct (identityCache s !! b); [done|]. by intros [? ?].
  - intros [= <- <-]. split; [|by right]. by eapply idInv_kept.
Qed.

(** Caching what the table says. *)
Lemma idInv_cache s a : idInv s → idInv (setIdentityCache (setCachedIdentity limit a (keyOf s a) (identityCache s)) s).
Proof. intros [Hk Ha]. apply idInv_intro; [done|]. by apply agrees_set. Qed.

Lemma IsTrusted_ok a key s r s' :
  idInv s → IsTrustedIdentity limit a key s = (r, s') →
  idInv s' ∧ rowsOf s' = rowsOf s ∧
  (r = Ok (bool_decide (keyOf s a = None ∨ keyOf s a = Some key)) ∨ (r = Err DriverFailed ∧ ¬ working (sdb s))).
Proof.
  intros Hs. pose proof Hs as [Hk [Hc _]]. unfold IsTrustedIdentity, mbind, stateM_bind. cbn [get].
  destruct (identityCache s !! a) as [e|] eqn:Ha.
  { intros [= <- <-]. split; [done|]. split; [done|left]. apply Hc in Ha. subst e. done. }
  destruct (getIdentity a s) as [r0 s1] eqn:Hg. apply onDB_select in Hg as (Hkept & Hr1 & [->|[-> Hw]]).
  - pose proof (idInv_kept s s1 Hs Hkept Hr1) as Hs1. pose proof (idInv_cache s1 a Hs1) as Hs2.
    unfold keyOf in *. rewrite Hr1 in Hs2. destruct (identities (rowsOf s) !! a) as [k|] eqn:Hka.
    + rewrite decide_False by (rewrite (Hk a k Hka); lia). intros [= <- <-]. split; [exact Hs2|]. split; [exact Hr1|left].
      f_equal. apply bool_decide_ext. naive_solver.
    + intros [= <- <-]. split; [exact Hs2|]. split; [exact Hr1|left]. done.
  - intros [= <- <-]. split; [by eapply idInv_kept|]. split; [done|by right].
Qed.

Lemma insertAndCheck_ok a key s r s' :
  idInv s → length key = 32%nat → working (sdb s) → insertAndCheck limit a key s = (r, s') →
  idInv s' ∧ identities (rowsOf s') = (match keyOf s a with Some _ => identities (rowsOf s) | None => <[a := key]> (identities (rowsOf s)) end) ∧
  r = Ok (bool_decide (default key (keyOf s a) = key)).
Proof.
  intros Hs Hlen Hw. pose proof Hs as [Hk Ha]. unfold insertAndCheck, mbind, stateM_bind.
  destruct (onDB _ s) as [r0 s1] eqn:Hu. apply onDB_update in Hu as [(Hkc & Hkg & Hkw) [[-> Hr1]|(_ & _ & ?)]]; [|done].
  set (ids' := match keyOf s a with Some _ => _ | None => _ end).
  assert (identities (rowsOf s1) = ids') as Hids by by rewrite Hr1.
  assert (ids' !! a = Some (default key (keyOf s a))) as Hat.
  { subst ids'. unfold keyOf. destruct (identities (rowsOf s) !! a) eqn:He; [done|apply lookup_insert_eq]. }
  assert (∀ b, b ≠ a → ids' !! b = identities (rowsOf s) !! b) as Hoth.
  { intros b Hb. subst ids'. destruct (keyOf s a); [done|by apply lookup_insert_ne]. }
  assert (∀ b k, ids' !! b = Some k → length k = 32%nat) as Hk'.
  { intros b k Hb. destruct (decide (b = a)) as [->|Hne].
    - rewrite Hat in Hb. injection Hb as <-. destruct (keyOf s a) eqn:He; [by eapply Hk|done].
    - rewrite Hoth in Hb by done. by eapply Hk. }
  destruct (getIdentity a s1) as [r1 s2] eqn:Hg. apply onDB_select in Hg as ((Hkc2 & _) & Hr2 & [->|[_ Hnw]]); [|by destruct Hnw; apply Hkw].
  rewrite Hids, Hat. rewrite decide_False by (rewrite (Hk' a _ Hat); lia). intros [= <- <-].
  split; [|split; [by cbn; unfold rowsOf in *; cbn; rewrite Hr2|done]].
  apply idInv_intro; [unfold keyOf; rewrite Hr2, Hids; exact Hk'|].
  rewrite Hr2, Hids, Hkc2, Hkc, <- Hat. eapply agrees_change, Ha. done.
Qed.

Lemma Ensure_ok a key g s r s' :
  idInv s → length key = 32%nat → working (sdb s) → EnsureIdentity limit a key g s = (r, s') →
  idInv s' ∧ identities (rowsOf s') = keysAfter (CEnsure a key g) s ∧
  r = Ok (bool_decide (g = identityDeleteGen s ∧ keysAfter (CEnsure a key g) s !! a = Some key)).
Proof.
  intros Hs Hlen Hw. pose proof Hs as [Hk [Hc Hsz]]. unfold EnsureIdentity, mbind, stateM_bind. cbn [get]. unfold keysAfter.
  destruct (decide (g = identityDeleteGen s)) as [Hg|Hg].
  2: { rewrite decide_True by done. intros [= <- <-]. split; [done|]. split; [done|]. f_equal. symmetry.
       apply bool_decide_eq_false. tauto. }
  rewrite decide_False by tauto. intros Hr.
  destruct (from_option id None (identityCache s !! a)) as [k|] eqn:Hck.
  { destruct (identityCache s !! a) as [[k'|]|] eqn:Ha; try done. cbn in Hck. injection Hck as ->.
    injection Hr as <- <-. apply Hc in Ha. rewrite <- Ha. split; [done|]. split; [done|].
    f_equal. apply bool_decide_ext. rewrite <- Ha. naive_solver. }
  assert (insertAndCheck limit a key s = (r, s')) as Hi by by destruct (identityCache s !! a) as [[k|]|].
  apply insertAndCheck_ok in Hi as (Hi & Hids & ->); [|done..]. split; [done|]. unfold keyOf in *. split; [done|].
  f_equal. apply bool_decide_ext. destruct (identities (rowsOf s) !! a) as [k|] eqn:He; cbn.
  - rewrite He. naive_solver.
  - rewrite lookup_insert_eq. naive_solver.
Qed.

Lemma cachedIdentities_spec (ids : gmap string (list byte)) (c : idCache) : (∀ a e, c !! a = Some e → e = ids !! a) →
  ∀ addresses seen result missing,
  let '(result', missing') := cachedIdentities c addresses seen result missing in
  (∀ a, result' !! a = if decide (a ∈ addresses ∧ a ∉ seen ∧ is_Some (c !! a))
                       then (match ids !! a with Some k => Some k | None => result !! a end) else result !! a) ∧
  (∀ a, a ∈ missing' ↔ a ∈ missing ∨ (a ∈ addresses ∧ a ∉ seen ∧ c !! a = None)).
Proof.
  intros Hc. induction addresses as [|x addresses IH]; intros seen result missing; cbn [cachedIdentities].
  { split; intros a; [rewrite decide_False; [done|intros (Ha & _); by apply not_elem_of_nil in Ha]|].
    split; [by left|]. intros [?|(Ha & _)]; [done|by apply not_elem_of_nil in Ha]. }
  case_decide as Hx.
  { specialize (IH seen result missing). destruct (cachedIdentities _ _ _ _ _) as [result' missing']. destruct IH as [H1 H2].
    split; intros a; [rewrite H1; f_equal; apply decide_ext|rewrite H2]; rewrite elem_of_cons; naive_solver. }
  assert (∀ k, c !! x = Some (Some k) → ids !! x = Some k) as Hsome by (intros k Hk; symmetry; by apply Hc).
  assert (c !! x = Some None → ids !! x = None) as Hnone by (intros Hk; symmetry; by apply Hc).
  destruct (c !! x) as [[k|]|] eqn:Hcx.
  - specialize (IH (x :: seen) (<[x := k]> result) missing). destruct (cachedIdentities _ _ _ _ _) as [result' missing'].
    destruct IH as [H1 H2]. split; intros a.
    + rewrite H1. destruct (decide (a = x)) as [->|Hne].
      * rewrite decide_False by (rewrite elem_of_cons; tauto). rewrite lookup_insert_eq.
        rewrite decide_True by (rewrite elem_of_cons, Hcx; naive_solver). by rewrite (Hsome k eq_refl).
      * rewrite lookup_insert_ne by done. f_equal. apply decide_ext. rewrite !elem_of_cons. naive_solver.
    + rewrite H2, !elem_of_cons. destruct (decide (a = x)) as [->|]; naive_solver.
  - specialize (IH (x :: seen) result missing). destruct (cachedIdentities _ _ _ _ _) as [result' missing'].
    destruct IH as [H1 H2]. split; intros a.
    + rewrite H1. destruct (decide (a = x)) as [->|Hne].
      * rewrite decide_False by (rewrite elem_of_cons; tauto). case_decide; [|done]. by rewrite Hnone.
      * f_equal. apply decide_ext. rewrite !elem_of_cons. naive_solver.
    + rewrite H2, !elem_of_cons. destruct (decide (a = x)) as [->|]; naive_solver.
  - specialize (IH (x :: seen) result (missing ++ [x])%list). destruct (cachedIdentities _ _ _ _ _) as [result' missing'].
    destruct IH as [H1 H2]. split; intros a.
    + rewrite H1. destruct (decide (a = x)) as [->|Hne].
      * rewrite !decide_False; [done|rewrite Hcx; intros (_ & _ & ?); by apply is_Some_None in H3|rewrite elem_of_cons; tauto].
      * f_equal. apply decide_ext. rewrite !elem_of_cons. naive_solver.
    + rewrite H2, elem_of_app, list_elem_of_singleton, !elem_of_cons. destruct (decide (a = x)) as [->|]; naive_solver.
Qed.

Lemma stillMissing_id (c : idCache) missing : ∀ result left,
  (∀ a, a ∈ missing → c !! a = None) → stillMissing c missing result left = (result, (left ++ missing)%list).
Proof.
  induction missing as [|a missing IH]; intros result left Ha; cbn; [by rewrite app_nil_r|].
  rewrite Ha by by left. rewrite IH by (intros; apply Ha; by right). by rewrite <- (assoc_L app).
Qed.

Lemma cacheFetched_ok ids fetched : ∀ c result,
  agrees ids c → (∀ a e, (a, e) ∈ fetched → e = ids !! a ∧ result !! a = ids !! a) →
  let '(c', result') := cacheFetched limit c result fetched in agrees ids c' ∧ ∀ a, result' !! a = result !! a.
Proof.
  induction fetched as [|[a e] fetched IH]; intros c result Hc Hf; cbn [cacheFetched]; [done|].
  destruct (Hf a e) as [-> Hra]; [by left|].
  assert (∀ b e', (b, e') ∈ fetched → e' = ids !! b ∧ result !! b = ids !! b) as Hf' by (intros; apply Hf; by right).
  destruct (c !! a) as [[k|]|] eqn:Hca.
  - assert (<[a := k]> result = result) as ->; [|by apply IH]. apply insert_id. rewrite Hra. by apply (proj1 Hc) in Hca.
  - assert (delete a result = result) as ->; [|by apply IH]. apply delete_id. rewrite Hra. by apply (proj1 Hc) in Hca.
  - apply IH; [by apply agrees_set|done].
Qed.

Lemma GetMany_ok addresses s r s' :
  idInv s → GetManyIdentities limit addresses s = (r, s') →
  idInv s' ∧ rowsOf s' = rowsOf s ∧
  ((∃ m, r = Ok (m, identityDeleteGen s) ∧ ∀ a, m !! a = if decide (a ∈ addresses) then keyOf s a else None) ∨
   (r = Err DriverFailed ∧ ¬ working (sdb s))).
Proof.
  intros Hs. pose proof Hs as [Hk Ha]. unfold GetManyIdentities, mbind, stateM_bind. cbn [get].
  destruct addresses as [|a0 as0] eqn:Has.
  { intros [= <- <-]. split; [done|]. split; [done|]. left. exists ∅. split; [done|]. intros a. rewrite lookup_empty.
    rewrite decide_False; [done|apply not_elem_of_nil]. }
  rewrite <- Has in *. clear Has.
  pose proof (cachedIdentities_spec _ _ (proj1 Ha) addresses [] ∅ []) as Hspec.
  destruct (cachedIdentities _ _ _ _ _) as [result missing]. destruct Hspec as [Hres Hmis].
  assert (∀ a, a ∈ missing ↔ a ∈ addresses ∧ identityCache s !! a = None) as Hmis'.
  { intros a. rewrite Hmis. pose proof (not_elem_of_nil a). naive_solver. }
  assert (∀ a, result !! a = if decide (a ∈ addresses ∧ a ∉ missing) then keyOf s a else None) as Hres'.
  { intros a. rewrite Hres, lookup_empty. fold (keyOf s a). pose proof (not_elem_of_nil a).
    assert (is_Some (identityCache s !! a) ↔ identityCache s !! a ≠ None) as Hsn by (symmetry; apply not_eq_None_Some).
    destruct (decide (a ∈ addresses ∧ a ∉ missing)) as [Hd|Hd].
    - rewrite decide_True; [by destruct (keyOf s a)|]. rewrite Hsn. rewrite Hmis' in Hd. naive_solver.
    - rewrite decide_False; [done|]. rewrite Hsn. rewrite Hmis' in Hd. naive_solver. }
  assert (missing = [] → ∀ a, result !! a = if decide (a ∈ addresses) then keyOf s a else None) as Hall.
  { intros -> a. rewrite Hres'. f_equal. apply decide_ext. pose proof (not_elem_of_nil a). naive_solver. }
  destruct missing as [|m0 ms] eqn:Hmse.
  { intros [= <- <-]. split; [done|]. split; [done|]. left. exists result. split; [done|by apply Hall]. }
  rewrite stillMissing_id by (intros a Hin; by apply Hmis'). cbn [app]. rewrite <- Hmse in *. 
  destruct missing as [|m1 ms1] eqn:Hmse2; [done|]. rewrite <- Hmse2 in *. clear Hmse Hmse2 Hall.
  destruct (onDB _ s) as [r0 s1] eqn:Hu. apply onDB_select in Hu as (Hkept & Hr1 & [->|[-> Hw]]).
  2: { intros [= <- <-]. split; [by eapply idInv_kept|]. split; [done|by right]. }
  set (rows := filter _ _).
  assert (∀ a, rows !! a = if decide (a ∈ missing) then keyOf s a else None) as Hrows.
  { intros a. subst rows. destruct (decide (a ∈ missing)) as [Hin|Hin].
    - unfold keyOf. destruct (identities (rowsOf s) !! a) as [k|] eqn:He; [by apply map_lookup_filter_Some|].
      apply map_lookup_filter_None. by left.
    - apply map_lookup_filter_None. by right. }
  rewrite decide_True.
  2: { intros a k. rewrite Hrows. case_decide; [apply Hk|done]. }
  assert (∀ a, (rows ∪ result) !! a = if decide (a ∈ addresses) then keyOf s a else None) as Hun.
  { intros a. rewrite lookup_union, Hrows, Hres'. destruct (decide (a ∈ missing)) as [Hin|Hin].
    - rewrite (decide_False (P := _ ∧ _)) by tauto. rewrite decide_True by (by apply Hmis'). by destruct (keyOf s a).
    - rewrite (left_id_L None _). f_equal. apply decide_ext. tauto. }
  destruct Hkept as (Hkc & Hkg & Hkw).
  pose proof (cacheFetched_ok (identities (rowsOf s)) ((λ a, (a, rows !! a)) <$> order missing) (identityCache s)
    (rows ∪ result) Ha) as Hf.
  destruct (cacheFetched _ _ _ _) as [c' result']. destruct Hf as [Hc' Hsame].
  { intros a e (b & [= -> ->] & Hb)%list_elem_of_fmap. rewrite order_law in Hb. rewrite Hrows, decide_True by done.
    split; [done|]. rewrite Hun. by rewrite decide_True by (by apply Hmis'). }
  intros [= <- <-]. split; [|split; [done|left; exists result'; split; [done|intros a; by rewrite Hsame, Hun]]].
  apply idInv_intro; [unfold keyOf; rewrite Hr1; exact Hk|]. by rewrite Hr1.
Qed.

(** The identity store is its table. If the cache agrees with the table before a call,
    it does after it and stays within its limit; a call that works answers what the
    table says and changes it as a store without a cache would; a call that fails
    changes no row. *)
Theorem identity_refines (c : idCall) (s s' : SQLStore) (r : outcome dbError idResult) :
  idInv s → idAdmissible c s → runId c s = (r, s') → idInv s' ∧ idSpec c s r s'.
Proof.
  intros Hs Hadm. unfold idSpec. destruct c as [a key|phone|a|a key|a key g|addresses]; cbn [runId idAnswer idAdmissible] in *.
  - intros (r0 & Hr & ->)%mret_run. apply PutIdentity_ok in Hr as [Hi [[-> ?]|(-> & ? & ?)]]; [| |done..].
    + split; [done|left]. by exists IdUnit.
    + split; [done|by right].
  - intros (r0 & Hr & ->)%mret_run. apply DeleteAll_ok in Hr as [Hi [(-> & ? & _)|(-> & ? & ? & _)]]; [| |done..].
    + split; [done|left]. by exists IdUnit.
    + split; [done|by right].
  - intros (r0 & Hr & ->)%mret_run. apply DeleteIdentity_ok in Hr as [Hi [(-> & ? & _)|(-> & ? & ? & _)]]; [| |done..].
    + split; [done|left]. by exists IdUnit.
    + split; [done|by right].
  - intros (r0 & Hr & ->)%mret_run. apply IsTrusted_ok in Hr as (Hi & Hrows & [->|[-> ?]]); [| |done..].
    + split; [done|left]. eexists. split; [done|]. split; [done|]. by rewrite Hrows.
    + split; [done|by right].
  - destruct Hadm as [Hlen Hw]. intros (r0 & Hr & ->)%mret_run. apply Ensure_ok in Hr as (Hi & Hids & ->); [|done..].
    split; [done|left]. by eexists.
  - unfold mbind, stateM_bind. destruct (GetManyIdentities limit addresses s) as [r0 s0] eqn:Hr.
    apply GetMany_ok in Hr as (Hi & Hrows & [(m & -> & Hm)|[-> Hw]]); [| |done..].
    + intros [= <- <-]. split; [done|left]. eexists. split; [done|]. split; [by exists m|]. by rewrite Hrows.
    + intros [= <- <-]. split; [done|by right].
Qed.

(** ** Generations *)

Definition runAll (cs : list idCall) (s : SQLStore) : SQLStore := foldl (λ s c, (runId c s).2) s cs.

(** The call deletes identities. *)
Definition deletes (c : idCall) (s : SQLStore) : Z :=
  match c with CDelete _ | CDeleteAll _ => if is_ok (runId c s).1 then 1 else 0 | _ => 0 end.
Fixpoint deletesOf (cs : list idCall) (s : SQLStore) : Z :=
  match cs with [] => 0 | c :: cs => deletes c s + deletesOf cs (runId c s).2 end.

Definition sameGen (s s' : SQLStore) : Prop := identityDeleteGen s' = identityDeleteGen s.
#[local] Instance sameGen_trans : Transitive sameGen.
Proof. unfold sameGen. intros ???. congruence. Qed.

Lemma sameGen_onDB {A} (m : dbM signalTables A) : moves sameGen (onDB m).
Proof. intros s. unfold onDB, zoom. by destruct (m (sdb s)). Qed.
Lemma sameGen_cached a e : moves sameGen (setCachedIdentityLocked limit a e).
Proof. by intros s. Qed.
Lemma sameGen_get : moves sameGen (get : storeM SQLStore).
Proof. by intros s. Qed.
Lemma sameGen_ret {A} (a : A) : moves sameGen (mret a : storeM A).
Proof. by intros s. Qed.
Lemma sameGen_throw {A} e : moves sameGen (throw e : storeM A).
Proof. by intros s. Qed.
Lemma sameGen_cache c : moves sameGen (modify (setIdentityCache c) : storeM unit).
Proof. by intros s. Qed.
#[local] Hint Resolve sameGen_onDB sameGen_cached sameGen_get sameGen_ret sameGen_throw sameGen_cache : gen.

Ltac same_gen :=
  repeat (first
    [ solve [eauto with gen]
    | apply moves_bind; [apply _| |intros ?]
    | case_decide
    | match goal with |- moves _ (match ?x with _ => _ end) => destruct x end ]).

Lemma sameGen_call c s :
  (∀ a, c ≠ CDelete a) → (∀ p, c ≠ CDeleteAll p) → identityDeleteGen (runId c s).2 = identityDeleteGen s.
Proof.
  intros Hd Hda. revert s. change (moves sameGen (runId c)).
  destruct c as [a key|phone|a|a key|a key g|addresses]; cbn [runId]; [|by destruct (Hda phone)|by destruct (Hd a)|..].
  - unfold PutIdentity. same_gen.
  - unfold IsTrustedIdentity, getIdentity. same_gen.
  - unfold EnsureIdentity, insertAndCheck, getIdentity. same_gen.
  - unfold GetManyIdentities. same_gen.
Qed.

Lemma gen_call c s :
  (0 ≤ identityDeleteGen s < 2 ^ 64)%Z → identityDeleteGen (runId c s).2 = u64 (identityDeleteGen s + deletes c s).
Proof.
  intros Hg. destruct c as [a key|phone|a|a key|a key g|addresses].
  2,3: unfold deletes; cbn [runId]; unfold DeleteAllIdentities, DeleteIdentity, mbind, stateM_bind;
    destruct (onDB _ s) as [r s1] eqn:Hu; apply onDB_update in Hu as [(_ & Hkg & _) [[-> _]|(-> & _ & _)]]; cbn;
    rewrite ?Hkg; [done|]; symmetry; rewrite Z.add_0_r; by apply Z.mod_small.
  all: rewrite sameGen_call by done; cbn; symmetry; rewrite Z.add_0_r; by apply Z.mod_small.
Qed.

Lemma u64_add a b : u64 (u64 a + b) = u64 (a + b).
Proof. unfold u64. apply Zplus_mod_idemp_l. Qed.

Lemma gen_runAll cs : ∀ s,
  (0 ≤ identityDeleteGen s < 2 ^ 64)%Z → identityDeleteGen (runAll cs s) = u64 (identityDeleteGen s + deletesOf cs s).
Proof.
  induction cs as [|c cs IH]; intros s Hg; cbn [runAll foldl deletesOf].
  - rewrite Z.add_0_r. symmetry. by apply Z.mod_small.
  - change (foldl _ _ cs) with (runAll cs (runId c s).2). rewrite IH; rewrite gen_call by done.
    + rewrite u64_add. f_equal. lia.
    + unfold u64. apply Z.mod_pos_bound. lia.
Qed.

(** C17: a deleted identity does not come back. An identity key that was fetched before
    one or more deletions, whatever else happened in between, is refused when it is
    ensured with the generation it was fetched at: nothing is stored or cached. *)
Theorem stale_identity_refused (s : SQLStore) (cs : list idCall) (a : string) (key : list byte) :
  (0 ≤ identityDeleteGen s < 2 ^ 64)%Z → (0 < deletesOf cs s < 2 ^ 64)%Z →
  runId (CEnsure a key (identityDeleteGen s)) (runAll cs s) = (Ok (IdBool false), runAll cs s).
Proof.
  intros Hg Hd. pose proof (gen_runAll cs s Hg) as Hgen. cbn [runId]. unfold EnsureIdentity, mbind, stateM_bind. cbn [get].
  rewrite decide_True; [done|]. rewrite Hgen. unfold u64. intros He.
  assert (identityDeleteGen s + deletesOf cs s = identityDeleteGen s + 2 ^ 64 * ((identityDeleteGen s + deletesOf cs s) / 2 ^ 64))%Z
    by (pose proof (Z.div_mod (identityDeleteGen s + deletesOf cs s) (2 ^ 64)); lia).
  lia.
Qed.

(** The other side of caching an absence. An address is cached as unknown; its key is
    inserted, and then reading it back fails. The table has the key, but the cache
    still says that it is unknown, and every other key is trusted for the address. *)
Theorem unknown_after_failed_read (s : SQLStore) (a : string) (key other : list byte) (fs : list bool) :
  failing (sdb s) = false :: true :: fs → identityCache s !! a = Some None → keyOf s a = None →
  ∃ s', runId (CEnsure a key (identityDeleteGen s)) s = (Err DriverFailed, s') ∧
    keyOf s' a = Some key ∧ runId (CIsTrusted a other) s' = (Ok (IdBool true), s').
Proof.
  intros Hf Hc Hk. destruct s as [[t fl] c g m e mi]. cbn in Hf, Hc. subst fl. unfold keyOf, rowsOf in Hk. cbn in Hk.
  eexists. split_and!.
  - cbn [runId]. unfold EnsureIdentity, mbind, stateM_bind. cbn [get identityDeleteGen identityCache]. rewrite decide_False by tauto.
    rewrite Hc. unfold insertAndCheck, getIdentity, onDB, zoom, mbind, stateM_bind. cbn. reflexivity.
  - unfold keyOf, rowsOf. cbn. rewrite Hk. apply lookup_insert_eq.
  - cbn [runId]. unfold IsTrustedIdentity, mbind, stateM_bind. cbn [get identityCache]. rewrite Hc. reflexivity.
Qed.
End identity.

(** ** On a small store *)

#[export] Instance toyOrder : MapOrder := {| anyKey := λ V m, fst <$> head (map_to_list m); order := λ l, l |}.
#[export] Instance toyOrderLaws : MapOrderLaws.
Proof.
  split; [|done]. intros V m Hm. cbn. destruct (map_to_list m) as [|[k x] l] eqn:Hl.
  - by apply map_to_list_empty_iff in Hl.
  - exists k. split; [done|]. exists x. apply elem_of_map_to_list. rewrite Hl. by left.
Qed.

Definition toyKey (n : nat) : list byte := replicate 32 (z2b (Z.of_nat n)).
Definition toySignal : signalTables :=
  mkSignal {["123:0" := toyKey 1; "123:4" := toyKey 2; "77:0" := toyKey 3]}
    {["123:0" := [x01]; "123:4" := [x02]; "77:4" := [x03]]}
    {[("g", "123:4") := [x05]; ("h", "9:1") := [x06]]}.
Definition toyStore (fs : list bool) : SQLStore := mkSQLStore (mkDatabase toySignal fs) ∅ 7 ∅ ∅ ∅.

Lemma toyStore_inv fs : idInv 2048 (toyStore fs).
Proof.
  split.
  - intros a k. unfold keyOf, rowsOf. cbn. rewrite !lookup_insert_Some, lookup_singleton_Some.
    intros [[_ <-]|[_ [[_ <-]|[_ [_ <-]]]]]; done.
  - split; [intros a e; cbn; by rewrite lookup_empty|]. cbn. rewrite map_size_empty. lia.
Qed.

Lemma identity_refines_witness :
  let '(r, s') := runId 2048 (CGetMany ["123:4"; "5:5"; "123:4"]) (toyStore []) in
  idInv 2048 s' ∧ idSpec (CGetMany ["123:4"; "5:5"; "123:4"]) (toyStore []) r s' ∧
  identityCache s' = {["123:4" := Some (toyKey 2); "5:5" := None]}.
Proof.
  destruct (runId 2048 (CGetMany ["123:4"; "5:5"; "123:4"]) (toyStore [])) as [r s'] eqn:Hr.
  destruct (identity_refines 2048 ltac:(lia) (CGetMany ["123:4"; "5:5"; "123:4"]) (toyStore []) s' r (toyStore_inv []) I Hr) as [Hi Hs].
  split; [exact Hi|]. split; [exact Hs|]. vm_compute in Hr. injection Hr as <- <-. vm_compute. reflexivity.
Defined.

Lemma stale_identity_refused_witness :
  let cs := [CDelete "123:4"; CPutIdentity "5:5" (toyKey 9)] in
  runId 2048 (CEnsure "123:4" (toyKey 2) 7) (runAll 2048 cs (toyStore [])) = (Ok (IdBool false), runAll 2048 cs (toyStore [])) ∧
  keyOf (runAll 2048 cs (toyStore [])) "123:4" = None.
Proof.
  intros cs. split; [|vm_compute; reflexivity].
  apply (stale_identity_refused 2048 (toyStore []) cs "123:4" (toyKey 2)).
  - cbn. lia.
  - vm_compute. split; reflexivity.
Defined.

Definition unknownStore : SQLStore := setIdentityCache {["5:5" := None]} (toyStore [false; true]).
Lemma unknown_after_failed_read_witness :
  ∃ s', runId 2048 (CEnsure "5:5" (toyKey 1) 7) unknownStore = (Err DriverFailed, s') ∧
    keyOf s' "5:5" = Some (toyKey 1) ∧ runId 2048 (CIsTrusted "5:5" (toyKey 6)) s' = (Ok (IdBool true), s').
Proof.
  apply (unknown_after_failed_read 2048 unknownStore "5:5" (toyKey 1) (toyKey 6) []); vm_compute; reflexivity.
Defined.

Lemma toy_short : shortDevices "123" (rowsOf (toyStore [])).
Proof.
  intros d Hd. assert (address "123" d ∈ ["123:0"; "123:4"; "77:0"; "77:4"; "9:1"]) as Hin.
  { destruct Hd as [[v Hv]|[[v Hv]|[g [v Hv]]]]; cbn in Hv; rewrite !lookup_insert_Some, lookup_singleton_Some in Hv;
      rewrite !elem_of_cons; intuition congruence. }
  rewrite !elem_of_cons in Hin. unfold address in Hin. cbn in Hin.
  destruct Hin as [Hd'|[Hd'|[Hd'|[Hd'|[Hd'|Hd']]]]]; try discriminate Hd'; [injection Hd' as Hd'; change ("" +:+ d) with d in Hd'; subst d; cbn; lia..|by apply not_elem_of_nil in Hd'].
Qed.

Lemma MigratePNToLID_spec_witness :
  let '(r, s') := MigratePNToLID true (NewJID "123" DefaultUserServer) (NewJID "4567" HiddenUserServer) 10 20 (toyStore []) in
  r = Ok tt ∧ movedTables "123" "4567_1" toySignal (rowsOf s') ∧
  sessions (rowsOf s') = {["4567_1:0" := [x01]; "4567_1:4" := [x02]; "77:4" := [x03]]}.
Proof.
  destruct (MigratePNToLID true (NewJID "123" DefaultUserServer) (NewJID "4567" HiddenUserServer) 10 20 (toyStore [])) as [r s'] eqn:Hr.
  pose proof (MigratePNToLID_spec true (NewJID "123" DefaultUserServer) (NewJID "4567" HiddenUserServer) 10 20 (toyStore []) s' r) as Hspec.
  cbv zeta in Hspec.
  specialize (Hspec ltac:(apply plain_digits; [discriminate|vm_compute; repeat constructor; discriminate])
    ltac:(vm_compute; intros Hin; repeat (apply elem_of_cons in Hin as [Hin|Hin]; [discriminate Hin|]); by apply not_elem_of_nil in Hin)
    ltac:(vm_compute; discriminate) toy_short Hr).
  change (idle _ 10 (toyStore [])) with true in Hspec. cbv iota in Hspec. destruct Hspec as [_ [(-> & Hm & _)|([e ->] & _)]].
  - split; [reflexivity|]. split; [exact Hm|]. vm_compute in Hr. injection Hr as <-. vm_compute. reflexivity.
  - exfalso. vm_compute in Hr. discriminate Hr.
Defined.
