(* ===== verification/SessionCache.v ===== *)
(** The write-back cache of Signal sessions (src/store/sessioncache.go) and the
    session operations of the device on top of it (src/store/signal.go). A session
    record is shared: whoever loads it from the cache holds the cache's own pointer,
    so records live in a heap. *)
From Stdlib Require Import ZArith Lia.
From Stdlib Require Import Strings.Byte.
From stdpp Require Import prelude gmap strings list fin_maps fin_map_dom.
From S2P Require Import Prelude Jid AppStore Sql SignalStore SignalTheory.

#[local] Open Scope string_scope.

(** [record.Session] of the Signal library with its serializer. *)
Class SessionCodec := {
  session : Type;
  NewSession : session;
  Serialize : session → list byte;
  NewSessionFromBytes : list byte → option session
}.
Class SessionCodecLaws `{SessionCodec} : Prop := {
  session_roundtrip s : NewSessionFromBytes (Serialize s) = Some s
}.

Section sessions.
Context `{SessionCodec} (native : bool).

Record sessionCacheEntry := mkEntry { Dirty : bool; Found : bool; RecordPtr : nat }.

(** [cache]: the one in the context, if there is one. *)
Record sessionState := mkSessions {
  db : SQLStore;
  heap : gmap nat session;
  cache : option (gmap string sessionCacheEntry)
}.

Inductive sessionError := SessionDBError (e : dbError) | Undecodable.
Abbreviation sessM := (stateM sessionState sessionError).

Definition onSQL {A} (m : stateM SQLStore dbError A) : sessM A :=
  zoom db (λ d s, mkSessions d (heap s) (cache s)) SessionDBError m.

(** A new record in the heap. *)
Definition alloc (x : session) : sessM nat := λ s,
  let p := fresh (dom (heap s)) in (Ok p, mkSessions (db s) (<[p := x]> (heap s)) (cache s)).
Definition setCache (c : option (gmap string sessionCacheEntry)) : sessM unit := modify (λ s, mkSessions (db s) (heap s) c).

Definition getCachedSession (addr : string) (s : sessionState) : option nat :=
  c ← cache s; e ← c !! addr; Some (RecordPtr e).

(** Whether it was found, if it is cached. *)
Definition hasCachedSession (addr : string) (s : sessionState) : option bool :=
  c ← cache s; e ← c !! addr; Some (Found e).

Definition LoadSession (addr : string) : sessM nat :=
  s ← get;
  match getCachedSession addr s with
  | Some p => mret p
  | None =>
      raw ← onSQL (GetSession addr);
      match raw with
      | None => alloc NewSession
      | Some raw => match NewSessionFromBytes raw with Some x => alloc x | None => throw Undecodable end
      end
  end.

(** What [p] points to. *)
Definition valueOf (p : nat) (s : sessionState) : session := default NewSession (heap s !! p).

Definition StoreSession (addr : string) (p : nat) : sessM unit :=
  s ← get;
  match cache s with
  | Some c => setCache (Some (<[addr := mkEntry true true p]> c))
  | None => onSQL (PutSession addr (Serialize (valueOf p s)))
  end.

Definition ContainsSession (addr : string) : sessM bool :=
  s ← get;
  match hasCachedSession addr s with
  | Some found => mret found
  | None => onSQL (HasSession addr)
  end.

Definition DeleteCachedSession (addr : string) : sessM unit := onSQL (DeleteSession addr).

(** The loop of [WithCachedSessions] that makes an entry for every address. *)
Fixpoint freshEntries (addresses : list string) (wrapped : gmap string sessionCacheEntry) : sessM (gmap string sessionCacheEntry) :=
  match addresses with
  | [] => mret wrapped
  | a :: addresses => p ← alloc NewSession; freshEntries addresses (<[a := mkEntry false false p]> wrapped)
  end.

(** [loadSession] for every row. *)
Fixpoint loadEntries (rows : list (string * list byte)) (wrapped : gmap string sessionCacheEntry)
    (existing : gmap string bool) : sessM (gmap string sessionCacheEntry * gmap string bool) :=
  match rows with
  | [] => mret (wrapped, existing)
  | (a, raw) :: rows =>
      match NewSessionFromBytes raw with
      | None => loadEntries rows (delete a wrapped) (delete a existing)
      | Some x => p ← alloc x; loadEntries rows (<[a := mkEntry false true p]> wrapped) (<[a := true]> existing)
      end
  end.

(** The rows IterateSessions hands over. *)
Definition sessionRows (addresses : list string) : storeM (list (string * list byte)) :=
  onDB (select (λ t, map_to_list (filter (λ row, row.1 ∈ addresses) (sessions t)))).

Definition WithCachedSessions (addresses : list string) : sessM (gmap string bool) :=
  match addresses with
  | [] => mret ∅
  | _ =>
      wrapped ← freshEntries addresses ∅;
      rows ← onSQL (sessionRows addresses);
      '(wrapped, existing) ← loadEntries rows wrapped (list_to_map ((λ a, (a, false)) <$> addresses));
      _ ← setCache (Some wrapped);
      mret existing
  end.

Definition PutCachedSessions : sessM unit :=
  s ← get;
  match cache s with
  | None => mret tt
  | Some c =>
      let dirty := (λ e, Serialize (valueOf (RecordPtr e) s)) <$> filter (λ row, Dirty row.2 = true) c in
      _ ← onSQL (PutManySessions native dirty);
      setCache (Some ∅)
  end.

(** ** The use of a session

    A caller loads a record, changes it in place and stores it. *)
Definition UpdateSession (addr : string) (f : session → session) : sessM session :=
  p ← LoadSession addr;
  _ ← modify (λ s, mkSessions (db s) (<[p := f (valueOf p s)]> (heap s)) (cache s));
  _ ← StoreSession addr p;
  s ← get; mret (valueOf p s).

(** ** A run with the cache and a run without *)

Inductive sessionCall :=
| LoadCall (addr : string)
| UpdateCall (addr : string) (f : session → session)
| ContainsCall (addr : string).
Inductive sessionAnswer := SessionRecord (x : session) | SessionExists (b : bool).

Definition runSession (c : sessionCall) : sessM sessionAnswer :=
  match c with
  | LoadCall addr => p ← LoadSession addr; s ← get; mret (SessionRecord (valueOf p s))
  | UpdateCall addr f => x ← UpdateSession addr f; mret (SessionRecord x)
  | ContainsCall addr => b ← ContainsSession addr; mret (SessionExists b)
  end.

(** Every call is made, whatever the ones before it returned. *)
Fixpoint runSessions (cs : list sessionCall) (s : sessionState) : list (outcome sessionError sessionAnswer) * sessionState :=
  match cs with
  | [] => ([], s)
  | c :: cs => let '(r, s) := runSession c s in let '(rs, s) := runSessions cs s in (r :: rs, s)
  end.

Definition dbRows (s : sessionState) : signalTables := rowsOf (db s).
Definition rowAt (s : sessionState) (a : string) : option (list byte) := sessions (dbRows s) !! a.

(** A read on a database that works. *)
Lemma read_runs {A} (f : signalTables → A) s :
  working (sdb (db s)) →
  ∃ s', onSQL (onDB (select f)) s = (Ok (f (dbRows s)), s') ∧
    working (sdb (db s')) ∧ dbRows s' = dbRows s ∧ heap s' = heap s ∧ cache s' = cache s.
Proof.
  intros Hw. destruct (stmt_working (λ t, Ok (f t, t)) (sdb (db s)) _ _ Hw eq_refl) as [Hr Hw'].
  unfold onSQL, onDB, zoom, select. rewrite Hr. eexists. by split_and!.
Qed.

Lemma write_runs (f : signalTables → signalTables) s :
  working (sdb (db s)) →
  ∃ s', onSQL (onDB (update f)) s = (Ok tt, s') ∧
    working (sdb (db s')) ∧ dbRows s' = f (dbRows s) ∧ heap s' = heap s ∧ cache s' = cache s.
Proof.
  intros Hw. destruct (stmt_working (λ t, Ok (tt, f t)) (sdb (db s)) _ _ Hw eq_refl) as [Hr Hw'].
  unfold onSQL, onDB, zoom, update. rewrite Hr. eexists. by split_and!.
Qed.
End sessions.
