(* ===== verification/SessionTheory.v ===== *)
(** The session cache answers as the table does, writes nothing before it is flushed,
    and leaves in the table what the calls would have left without it. *)
From Stdlib Require Import ZArith Lia.
From Stdlib Require Import Strings.Byte.
From stdpp Require Import prelude gmap strings list fin_maps fin_map_dom.
From S2P Require Import Prelude Jid AppStore Sql SignalStore SignalTheory SessionCache.

#[local] Open Scope string_scope.

(** ** Inserting every row of a map *)

Lemma insertAll_map {V} (t m : gmap string V) : insertAll id t (map_to_list m) = m ∪ t.
Proof.
  apply map_eq. intros a. destruct (m !! a) as [v|] eqn:Hm.
  - rewrite (lookup_union_Some_l _ _ _ _ Hm). apply (insertAll_in id (map_to_list m) (a, v)).
    + by apply elem_of_map_to_list.
    + done.
    + apply NoDup_fst_map_to_list.
  - rewrite lookup_union_r by done. apply insertAll_other. intros [b v] Hb Hba. cbn in Hba. subst b.
    apply elem_of_map_to_list in Hb. congruence.
Qed.

Lemma putRows_all (ss t : gmap string (list byte)) :
  foldl (λ t a, <[a := default [] (ss !! a)]> t) t (map_to_list ss).*1 = ss ∪ t.
Proof.
  rewrite <- insertAll_map. unfold insertAll. assert (∀ row, row ∈ map_to_list ss → ss !! row.1 = Some row.2) as Hin.
  { intros [a v] Ha. by apply elem_of_map_to_list in Ha. }
  revert t. induction (map_to_list ss) as [|row l IH]; intros t; [done|]. cbn.
  rewrite (Hin row) by (by left). apply IH. intros row' Hr. apply Hin. by right.
Qed.

Lemma putChunks_Ok ss chunks : ∀ d u d',
  putChunks ss chunks d = (Ok u, d') →
  content d' = withSessions (λ t, foldl (λ t a, <[a := default [] (ss !! a)]> t) t (concat chunks)) (content d).
Proof.
  induction chunks as [|c chunks IH]; intros d u d' Hr; cbn [putChunks] in Hr.
  - injection Hr as _ <-. by destruct (content d).
  - inv_run. apply update_Ok in Hx. apply IH in Hr. rewrite Hr, Hx. unfold withSessions. cbn. by rewrite foldl_app.
Qed.

Lemma settles_putChunks ss chunks : settles (putChunks ss chunks).
Proof.
  induction chunks; cbn [putChunks]; [apply settles_ret|]. apply settles_bind; [apply settles_update|done].
Qed.

(** Every session is written, or the call fails and none is. *)
Lemma PutManySessions_cases native ss s r s' :
  PutManySessions native ss s = (r, s') →
  (r = Ok tt ∧ rowsOf s' = withSessions (λ t, ss ∪ t) (rowsOf s)) ∨ ((∃ e, r = Err e) ∧ rowsOf s' = rowsOf s).
Proof.
  assert (∀ (m : dbM signalTables unit), settles m →
    (∀ d u d', m d = (Ok u, d') → content d' = withSessions (λ t, ss ∪ t) (content d)) →
    (∀ d r d', m d = (r, d') → (∃ a, r = Ok a) ∨ content d' = content d) →
    onDB m s = (r, s') →
    (r = Ok tt ∧ rowsOf s' = withSessions (λ t, ss ∪ t) (rowsOf s)) ∨ ((∃ e, r = Err e) ∧ rowsOf s' = rowsOf s)) as Hdb.
  { intros m Hm Hok Hfail. unfold onDB, zoom. specialize (Hm (sdb s)). destruct (m (sdb s)) as [r1 d1] eqn:Hr. intros [= <- <-].
    unfold rowsOf. cbn. destruct r1 as [[]|e| |]; try done.
    - left. split; [done|]. by eapply Hok.
    - right. split; [by eexists|]. by destruct (Hfail _ _ _ Hr) as [[? [=]]|]. }
  assert (∀ (f : signalTables → signalTables) d r d', update f d = (r, d') → (∃ a, r = Ok a) ∨ content d' = content d) as Hupd.
  { intros f d r0 d' [[-> _]|[_ ?]]%update_cases; [left; by eexists|by right]. }
  pose proof (λ t, putRows_all ss t) as Hall. unfold PutManySessions. destruct (map_to_list ss).*1 as [|a [|b l]] eqn:Hl.
  - intros [= <- <-]. left. split; [done|]. unfold withSessions. rewrite <- Hall. by destruct (rowsOf s).
  - apply Hdb; [apply settles_update| |apply Hupd]. intros d u d' ->%update_Ok. unfold withSessions. by rewrite <- Hall.
  - destruct (native || _).
    + apply Hdb; [apply settles_update| |apply Hupd]. intros d u d' ->%update_Ok. unfold withSessions. by rewrite Hall.
    + apply Hdb; [apply settles_inTxn, settles_putChunks| |intros ???; apply inTxn_atomic].
      intros d u d' (d1 & d2 & H1 & H2 & ->)%inTxn_Ok. apply putChunks_Ok in H2. rewrite H2, H1. unfold withSessions.
      rewrite concat_chunk by lia. by rewrite Hall.
Qed.

Section theory.
Context `{SessionCodec} `{!SessionCodecLaws} (native : bool).

Abbreviation entries := (gmap string sessionCacheEntry).

(** The record a row stands for. *)
Definition loads (row : option (list byte)) : option session :=
  match row with None => Some NewSession | Some raw => NewSessionFromBytes raw end.

(** An entry against the row the cache is over and the row the direct run has. *)
Definition entryOk (h : gmap nat session) (row direct : option (list byte)) (e : option sessionCacheEntry) : Prop :=
  match e with
  | None => direct = row
  | Some e => ∃ x, h !! RecordPtr e = Some x ∧ loads direct = Some x ∧ Found e = bool_decide (is_Some direct) ∧
      direct = if Dirty e then Some (Serialize x) else row
  end.

(** No two entries share a record. *)
Definition apart (c : entries) : Prop :=
  ∀ a b e e', c !! a = Some e → c !! b = Some e' → RecordPtr e = RecordPtr e' → a = b.

Definition keepsRest (t t' : signalTables) : Prop := identities t' = identities t ∧ senderKeys t' = senderKeys t.

(** [s] runs with the cache [c], [d] without. *)
Record sim (c : entries) (s d : sessionState) : Prop := mkSim {
  sim_cache : cache s = Some c;
  sim_direct : cache d = None;
  sim_apart : apart c;
  sim_entries a : entryOk (heap s) (rowAt s a) (rowAt d a) (c !! a);
  sim_rest : keepsRest (dbRows s) (dbRows d);
  sim_works : working (sdb (db s));
  sim_directWorks : working (sdb (db d))
}.

Definition grows (h h' : gmap nat session) : Prop := ∀ p x, h !! p = Some x → h' !! p = Some x.

Lemma entryOk_grows h h' row direct e : grows h h' → entryOk h row direct e → entryOk h' row direct e.
Proof. destruct e as [e|]; [|done]. intros Hg (x & Hp & Hx). exists x. split; [by apply Hg|done]. Qed.

(** A load that goes to the table. *)
Lemma LoadSession_miss s a :
  getCachedSession a s = None → working (sdb (db s)) →
  ∃ s', working (sdb (db s')) ∧ dbRows s' = dbRows s ∧ cache s' = cache s ∧ grows (heap s) (heap s') ∧
    match loads (rowAt s a) with
    | Some x => ∃ p, heap s !! p = None ∧ heap s' = <[p := x]> (heap s) ∧ LoadSession a s = (Ok p, s')
    | None => LoadSession a s = (Err Undecodable, s')
    end.
Proof.
  intros Hc Hw. destruct (read_runs (λ t, sessions t !! a) s Hw) as (s1 & Hr & Hw1 & Ht & Hh & Hcc).
  assert (∀ x, ∃ p s', heap s !! p = None ∧ alloc x s1 = (Ok p, s') ∧ heap s' = <[p := x]> (heap s) ∧
    working (sdb (db s')) ∧ dbRows s' = dbRows s ∧ cache s' = cache s) as Halloc.
  { intros x. exists (fresh (dom (heap s1))). eexists. rewrite <- Hh at 1.
    split; [apply not_elem_of_dom, is_fresh|]. split; [reflexivity|]. cbn. by rewrite Hh. }
  assert (∀ k, LoadSession a s = k → (match rowAt s a with
     | None => alloc NewSession
     | Some raw => match NewSessionFromBytes raw with Some x => alloc x | None => throw Undecodable end
     end) s1 = k) as Hrun.
  { intros k <-. unfold LoadSession, mbind, stateM_bind, get, GetSession. rewrite Hc. by rewrite Hr. }
  destruct (LoadSession a s) as [r s'] eqn:HL. specialize (Hrun _ eq_refl). exists s'. unfold loads.
  assert (∀ x p, heap s !! p = None → grows (heap s) (<[p := x]> (heap s))) as Hgrow.
  { intros x p Hp q y Hq. rewrite lookup_insert_ne; [done|]. intros ->. congruence. }
  destruct (rowAt s a) as [raw|]; [destruct (NewSessionFromBytes raw) as [x|]|].
  - destruct (Halloc x) as (p & s2 & Hp & Ha & Hh2 & ? & ? & ?). rewrite Ha in Hrun. injection Hrun as <- <-.
    rewrite Hh2. split_and!; [done..|by apply Hgrow|by exists p].
  - injection Hrun as <- <-. rewrite Hh. split_and!; [done..|by intros ?|done].
  - destruct (Halloc NewSession) as (p & s2 & Hp & Ha & Hh2 & ? & ? & ?). rewrite Ha in Hrun. injection Hrun as <- <-.
    rewrite Hh2. split_and!; [done..|by apply Hgrow|by exists p].
Qed.

Lemma direct_uncached d a : cache d = None → getCachedSession a d = None ∧ hasCachedSession a d = None.
Proof. intros Hd. unfold getCachedSession, hasCachedSession. by rewrite Hd. Qed.

Lemma cached_hit c s a : cache s = Some c →
  getCachedSession a s = RecordPtr <$> c !! a ∧ hasCachedSession a s = Found <$> c !! a.
Proof. intros Hd. unfold getCachedSession, hasCachedSession. rewrite Hd. cbn. by destruct (c !! a). Qed.

Lemma StoreSession_direct d a p x :
  cache d = None → working (sdb (db d)) → heap d !! p = Some x →
  ∃ d', StoreSession a p d = (Ok tt, d') ∧ working (sdb (db d')) ∧
    dbRows d' = withSessions (<[a := Serialize x]>) (dbRows d) ∧ heap d' = heap d ∧ cache d' = None.
Proof.
  intros Hd Hw Hp. destruct (write_runs (withSessions (<[a := Serialize x]>)) d Hw) as (d' & Hr & ? & ? & ? & Hc).
  exists d'. unfold StoreSession, mbind, stateM_bind, get. rewrite Hd. unfold valueOf. rewrite Hp. by rewrite <- Hd, <- Hc.
Qed.

(** What the calls do without the cache. *)
Lemma direct_run call d :
  cache d = None → working (sdb (db d)) →
  ∃ d' r, runSession call d = (r, d') ∧ cache d' = None ∧ working (sdb (db d')) ∧
  match call with
  | LoadCall a => dbRows d' = dbRows d ∧ r = match loads (rowAt d a) with Some x => Ok (SessionRecord x) | None => Err Undecodable end
  | ContainsCall a => dbRows d' = dbRows d ∧ r = Ok (SessionExists (bool_decide (is_Some (rowAt d a))))
  | UpdateCall a f =>
      match loads (rowAt d a) with
      | Some x => r = Ok (SessionRecord (f x)) ∧ dbRows d' = withSessions (<[a := Serialize (f x)]>) (dbRows d)
      | None => r = Err Undecodable ∧ dbRows d' = dbRows d
      end
  end.
Proof.
  intros Hd Hw. destruct call as [a|a f|a]; cbn [runSession].
  - destruct (LoadSession_miss d a (proj1 (direct_uncached d a Hd)) Hw) as (d' & ? & ? & Hc & _ & HL).
    rewrite Hd in Hc. destruct (loads (rowAt d a)) as [x|].
    + destruct HL as (p & _ & Hh & HL). exists d'. eexists. unfold mbind, stateM_bind. rewrite HL. cbn. split_and!; try done.
      unfold valueOf. by rewrite Hh, lookup_insert_eq.
    + exists d'. eexists. unfold mbind, stateM_bind. by rewrite HL.
  - destruct (LoadSession_miss d a (proj1 (direct_uncached d a Hd)) Hw) as (d1 & Hw1 & Ht1 & Hc & _ & HL).
    rewrite Hd in Hc. unfold UpdateSession. destruct (loads (rowAt d a)) as [x|].
    + destruct HL as (p & _ & Hh & HL).
      set (d2 := mkSessions (db d1) (<[p := f x]> (heap d1)) (cache d1)).
      destruct (StoreSession_direct d2 a p (f x)) as (d3 & Hr & ? & Ht3 & Hh3 & Hc3); [done..|by apply lookup_insert_eq|].
      exists d3. eexists. unfold modify, get, mbind, stateM_bind. rewrite HL. unfold valueOf at 1. rewrite Hh, lookup_insert_eq. cbn.
      fold d2. rewrite <- Hh. fold d2. rewrite Hr. unfold valueOf. rewrite Hh3. cbn. rewrite lookup_insert_eq.
      split_and!; try done. rewrite Ht3. cbn. unfold dbRows in *. by rewrite <- Ht1.
    + exists d1. eexists. unfold mbind, stateM_bind. rewrite HL. by split_and!.
  - destruct (read_runs (λ t, bool_decide (is_Some (sessions t !! a))) d Hw) as (d' & Hr & ? & ? & _ & Hc).
    exists d'. eexists. unfold ContainsSession, mbind, stateM_bind, get. rewrite (proj2 (direct_uncached d a Hd)).
    unfold HasSession. rewrite Hr. split_and!; try done. by rewrite Hc.
Qed.

(** ** One call *)

Lemma sim_rows c s d d' : sim c s d → dbRows d' = dbRows d → cache d' = None → working (sdb (db d')) → sim c s d'.
Proof. intros [] Hr ? ?. split; try done; [intros a; unfold rowAt; rewrite Hr; apply sim_entries0|by rewrite Hr]. Qed.

(** A load finds what the direct run sees, in a record that no other address has. *)
Lemma LoadSession_sim c s d a :
  sim c s d →
  ∃ s', sim c s' d ∧ dbRows s' = dbRows s ∧
    match loads (rowAt d a) with
    | Some x => ∃ p, LoadSession a s = (Ok p, s') ∧ heap s' !! p = Some x ∧ ∀ b e, c !! b = Some e → RecordPtr e = p → b = a
    | None => LoadSession a s = (Err Undecodable, s')
    end.
Proof.
  intros Hs. destruct (cached_hit c s a (sim_cache _ _ _ Hs)) as [Hget _].
  pose proof (sim_entries _ _ _ Hs a) as Ha. destruct (c !! a) as [e|] eqn:He; cbn in Ha, Hget.
  - destruct Ha as (x & Hp & Hl & _). exists s. rewrite Hl. split; [done|]. split; [done|]. exists (RecordPtr e).
    split; [|split; [done|]].
    + unfold LoadSession, mbind, stateM_bind, get. by rewrite Hget.
    + intros b e' Hb He'. eapply (sim_apart _ _ _ Hs); eauto.
  - destruct (LoadSession_miss s a Hget (sim_works _ _ _ Hs)) as (s' & ? & Ht & Hc & Hg & HL).
    assert (sim c s' d) as Hs'.
    { destruct Hs. split; try done; [congruence| |by rewrite Ht]. intros b. unfold rowAt. rewrite Ht. eapply entryOk_grows, sim_entries0. done. }
    exists s'. split; [done|]. split; [done|]. rewrite Ha. destruct (loads (rowAt s a)) as [x|]; [|done].
    destruct HL as (p & Hp & Hh & HL). exists p. split; [done|]. split; [by rewrite Hh, lookup_insert_eq|].
    intros b e Hb <-. pose proof (sim_entries _ _ _ Hs b) as He'. rewrite Hb in He'. destruct He' as (y & Hy & _). congruence.
Qed.

(** Changing that record and storing it is storing it in the table of the direct run. *)
Lemma store_sim c s d d' a p x :
  sim c s d → (∀ b e, c !! b = Some e → RecordPtr e = p → b = a) →
  cache d' = None → working (sdb (db d')) → dbRows d' = withSessions (<[a := Serialize x]>) (dbRows d) →
  sim (<[a := mkEntry true true p]> c) (mkSessions (db s) (<[p := x]> (heap s)) (Some (<[a := mkEntry true true p]> c))) d'.
Proof.
  intros [] Hp ? ? Ht. split; try done.
  - intros b b' e e' [[<- <-]|[? Hb]]%lookup_insert_Some [[<- <-]|[? Hb']]%lookup_insert_Some Heq; [done| | |eauto].
    + symmetry. by eapply Hp.
    + by eapply Hp.
  - intros b. unfold rowAt in *. rewrite Ht. cbn. destruct (decide (b = a)) as [->|Hne].
    + rewrite !lookup_insert_eq. exists x. split_and!; [by rewrite lookup_insert_eq|apply session_roundtrip|done|done].
    + rewrite !lookup_insert_ne by done. specialize (sim_entries0 b). destruct (c !! b) as [e|] eqn:Hb; [|done].
      destruct sim_entries0 as (y & Hy & ?). exists y. split; [|done]. rewrite lookup_insert_ne; [done|].
      intros He. by apply Hne, (Hp b e).
  - unfold keepsRest in *. by rewrite Ht.
Qed.

(** A call returns what it returns without the cache, and writes nothing. *)
Lemma call_sim call c s d :
  sim c s d →
  let '(r, s') := runSession call s in let '(r', d') := runSession call d in
  r = r' ∧ dbRows s' = dbRows s ∧ ∃ c', sim c' s' d'.
Proof.
  intros Hs. destruct (direct_run call d (sim_direct _ _ _ Hs) (sim_directWorks _ _ _ Hs)) as (d' & r' & Hd & Hc' & Hw' & Hspec).
  rewrite Hd. destruct call as [a|a f|a]; cbn [runSession].
  - destruct Hspec as [Hrows ->]. destruct (LoadSession_sim c s d a Hs) as (s' & Hs' & Ht & HL).
    unfold mbind, stateM_bind. destruct (loads (rowAt d a)) as [x|].
    + destruct HL as (p & -> & Hp & _). cbn. unfold valueOf. rewrite Hp.
      split; [done|]. split; [done|]. exists c. by eapply sim_rows.
    + rewrite HL. split; [done|]. split; [done|]. exists c. by eapply sim_rows.
  - destruct (LoadSession_sim c s d a Hs) as (s' & Hs' & Ht & HL).
    unfold UpdateSession, mbind, stateM_bind. destruct (loads (rowAt d a)) as [x|].
    + destruct HL as (p & -> & Hp & Hap). destruct Hspec as [-> Hrows]. unfold StoreSession, setCache, modify, get, mbind, stateM_bind. cbn.
      rewrite (sim_cache _ _ _ Hs'). unfold valueOf. cbn. rewrite Hp, lookup_insert_eq. split; [done|]. split; [done|].
      eexists. by eapply store_sim.
    + rewrite HL. destruct Hspec as [-> Hrows]. split; [done|]. split; [done|]. exists c. by eapply sim_rows.
  - destruct Hspec as [Hrows ->]. destruct (cached_hit c s a (sim_cache _ _ _ Hs)) as [_ Hhas].
    unfold ContainsSession, mbind, stateM_bind, get. rewrite Hhas. pose proof (sim_entries _ _ _ Hs a) as Ha.
    destruct (c !! a) as [e|]; cbn.
    + destruct Ha as (x & _ & _ & -> & _). split; [done|]. split; [done|]. exists c. by eapply sim_rows.
    + destruct (read_runs (λ t, bool_decide (is_Some (sessions t !! a))) s (sim_works _ _ _ Hs)) as (s' & Hr & ? & Ht & Hh & Hc).
      unfold HasSession. rewrite Hr. cbn in Ha. unfold rowAt in Ha. split; [unfold rowAt; by rewrite Ha|]. split; [done|]. exists c.
      eapply (sim_rows _ _ d); try done. destruct Hs. split; try done; [congruence| |by rewrite Ht].
      intros b. unfold rowAt. rewrite Ht, Hh. apply sim_entries0.
Qed.

Lemma calls_sim calls : ∀ c s d,
  sim c s d →
  let '(rs, s') := runSessions calls s in let '(rs', d') := runSessions calls d in
  rs = rs' ∧ dbRows s' = dbRows s ∧ ∃ c', sim c' s' d'.
Proof.
  induction calls as [|call calls IH]; intros c s d Hs; cbn [runSessions]; [by eauto|].
  pose proof (call_sim call c s d Hs) as Hc. destruct (runSession call s) as [r s1], (runSession call d) as [r' d1].
  destruct Hc as (<- & Ht & c1 & Hs1). specialize (IH c1 s1 d1 Hs1).
  destruct (runSessions calls s1) as [rs s2], (runSessions calls d1) as [rs' d2]. destruct IH as (<- & Ht2 & Hs2). 
  split; [done|]. split; [congruence|done].
Qed.

(** ** Flushing *)

Lemma PutCachedSessions_cases c s d s0 r s' :
  sim c s d → dbRows s0 = dbRows s → heap s0 = heap s → cache s0 = cache s →
  PutCachedSessions native s0 = (r, s') →
  (r = Ok tt ∧ dbRows s' = dbRows d ∧ cache s' = Some ∅) ∨
  ((∃ e, r = Err e) ∧ dbRows s' = dbRows s ∧ cache s' = cache s ∧ heap s' = heap s).
Proof.
  intros Hs Hrows Hh Hc. unfold PutCachedSessions, mbind, stateM_bind, get. rewrite Hc, (sim_cache _ _ _ Hs).
  set (dirty := (_ <$> _) : gmap string (list byte)).
  assert (withSessions (λ t, dirty ∪ t) (dbRows s) = dbRows d) as Hd.
  { pose proof (sim_rest _ _ _ Hs) as [Hi Hk]. pose proof (sim_entries _ _ _ Hs) as He. unfold rowAt in He.
    destruct (dbRows d) as [ids sess keys]. unfold withSessions. cbn in *. subst ids keys. f_equal. apply map_eq. intros a.
    specialize (He a). subst dirty. destruct (c !! a) as [e|] eqn:Ha; cbn in He.
    - destruct He as (x & Hx & _ & _ & ->). destruct (Dirty e) eqn:Hde.
      + apply lookup_union_Some_l. rewrite lookup_fmap, (proj2 (map_lookup_filter_Some _ _ _ e)); [|by split].
        cbn. unfold valueOf. by rewrite Hh, Hx.
      + rewrite lookup_union_r; [done|]. rewrite lookup_fmap, (proj2 (map_lookup_filter_None _ _ _)); [done|].
        right. intros e' He' Hd'. cbn in Hd'. congruence.
    - rewrite lookup_union_r; [done|]. rewrite lookup_fmap, (proj2 (map_lookup_filter_None _ _ _)); [done|by left]. }
  unfold onSQL, zoom. destruct (PutManySessions native dirty (db s0)) as [r1 s1] eqn:Hr.
  destruct (PutManySessions_cases _ _ _ _ _ Hr) as [[-> Ht]|[[e ->] Ht]]; cbn; intros [= <- <-]; unfold dbRows in *; cbn.
  - left. by rewrite Ht, Hrows.
  - right. split; [by eexists|]. split; [by rewrite Ht, Hrows|split; [by rewrite Hc, (sim_cache _ _ _ Hs)|by rewrite Hh]].
Qed.

(** ** Prefetching *)

(** Whether there is a session, if the row can be read. *)
Definition knows (row : option (list byte)) : option bool :=
  match loads row with Some _ => Some (bool_decide (is_Some row)) | None => None end.

(** The entries stand for the rows [found]. *)
Definition clean (addresses : list string) (h : gmap nat session) (found : gmap string (list byte)) (w : entries) : Prop :=
  apart w ∧ ∀ a e, w !! a = Some e → a ∈ addresses ∧ Dirty e = false ∧ entryOk h (found !! a) (found !! a) (Some e).

Lemma clean_insert addresses h found found' w a p x e :
  clean addresses h found w → h !! p = None → a ∈ addresses → (∀ b, b ≠ a → found' !! b = found !! b) →
  loads (found' !! a) = Some x → e = mkEntry false (bool_decide (is_Some (found' !! a))) p →
  clean addresses (<[p := x]> h) found' (<[a := e]> w).
Proof.
  intros [Hap Hw] Hp Ha Hfound Hx ->.
  assert (∀ b e, w !! b = Some e → RecordPtr e ≠ p) as Hnew.
  { intros b e Hb <-. destruct (Hw b e Hb) as (_ & _ & y & Hy & _). congruence. }
  split.
  - intros b b' e e' [[<- <-]|[? Hb]]%lookup_insert_Some [[<- <-]|[? Hb']]%lookup_insert_Some Heq; [done| | |eauto]; cbn in Heq.
    + by destruct (Hnew b' e').
    + by destruct (Hnew b e).
  - intros b e [[<- <-]|[? Hb]]%lookup_insert_Some.
    + split_and!; [done..|]. exists x. by split_and!; [rewrite lookup_insert_eq| | |].
    + rewrite !Hfound by done. destruct (Hw b e Hb) as (? & ? & y & Hy & ?). split_and!; [done..|]. exists y.
      split; [|done]. by rewrite lookup_insert_ne by (symmetry; by eapply Hnew).
Qed.

Lemma clean_delete addresses h found found' w a :
  clean addresses h found w → (∀ b, b ≠ a → found' !! b = found !! b) → clean addresses h found' (delete a w).
Proof.
  intros [Hap Hw] Hfound. split.
  - intros b b' e e' [_ Hb]%lookup_delete_Some [_ Hb']%lookup_delete_Some. by eapply Hap.
  - intros b e [? Hb]%lookup_delete_Some. rewrite !Hfound by done. by apply Hw.
Qed.

Lemma freshEntries_run addresses l : ∀ w s,
  clean addresses (heap s) ∅ w → (∀ a, a ∈ l → a ∈ addresses) →
  ∃ w' s', freshEntries l w s = (Ok w', s') ∧ clean addresses (heap s') ∅ w' ∧ db s' = db s ∧ cache s' = cache s.
Proof.
  induction l as [|a l IH]; intros w s Hw Hl; cbn [freshEntries]; [by exists w, s|].
  set (p := fresh (dom (heap s))). assert (heap s !! p = None) as Hp by (apply not_elem_of_dom, is_fresh).
  destruct (IH (<[a := mkEntry false false p]> w) (mkSessions (db s) (<[p := NewSession]> (heap s)) (cache s)))
    as (w' & s' & Hr & ? & ? & ?); [|intros; apply Hl; by right|].
  - eapply clean_insert; [done|done|apply Hl; by left|done|done|done].
  - exists w', s'. split; [exact Hr|done].
Qed.

Lemma loadEntries_run addresses rows : ∀ w ex found s,
  clean addresses (heap s) found w → (∀ row, row ∈ rows → row.1 ∈ addresses) →
  (∀ a, a ∈ addresses → ex !! a = knows (found !! a)) →
  ∃ w' ex' s', loadEntries rows w ex s = (Ok (w', ex'), s') ∧ clean addresses (heap s') (insertAll id found rows) w' ∧
    (∀ a, a ∈ addresses → ex' !! a = knows (insertAll id found rows !! a)) ∧ db s' = db s ∧ cache s' = cache s.
Proof.
  induction rows as [|[a raw] rows IH]; intros w ex found s Hw Hin Hex; cbn [loadEntries].
  { by exists w, ex, s. }
  change (insertAll id found ((a, raw) :: rows)) with (insertAll id (<[a := raw]> found) rows).
  assert (∀ row, row ∈ rows → row.1 ∈ addresses) as Hin' by (intros; apply Hin; by right).
  assert (∀ b, b ≠ a → <[a := raw]> found !! b = found !! b) as Hother by (intros; by rewrite lookup_insert_ne).
  destruct (NewSessionFromBytes raw) as [x|] eqn:Hx.
  - set (p := fresh (dom (heap s))). assert (heap s !! p = None) as Hp by (apply not_elem_of_dom, is_fresh).
    destruct (IH (<[a := mkEntry false true p]> w) (<[a := true]> ex) (<[a := raw]> found)
      (mkSessions (db s) (<[p := x]> (heap s)) (cache s))) as (w' & ex' & s' & Hr & ?); [|done| |].
    + eapply clean_insert; [done|done|by apply (Hin (a, raw)); left|done|by rewrite lookup_insert_eq|by rewrite lookup_insert_eq].
    + intros b Hb. destruct (decide (b = a)) as [->|]; [|by rewrite !lookup_insert_ne, Hex].
      rewrite !lookup_insert_eq. unfold knows. cbn. by rewrite Hx.
    + exists w', ex', s'. split; [exact Hr|done].
  - destruct (IH (delete a w) (delete a ex) (<[a := raw]> found) s) as (w' & ex' & s' & Hr & ?); [|done| |].
    + by eapply clean_delete.
    + intros b Hb. destruct (decide (b = a)) as [->|]; [|by rewrite lookup_delete_ne, lookup_insert_ne, Hex].
      rewrite lookup_delete_eq, lookup_insert_eq. unfold knows. cbn. by rewrite Hx.
    + exists w', ex', s'. split; [exact Hr|done].
Qed.

Lemma WithCachedSessions_run addresses s :
  addresses ≠ [] → cache s = None → working (sdb (db s)) →
  ∃ c ex s', WithCachedSessions addresses s = (Ok ex, s') ∧ sim c s' s ∧ dbRows s' = dbRows s ∧
    ∀ a, a ∈ addresses → ex !! a = knows (rowAt s a).
Proof.
  intros Hne Hc Hw. destruct (freshEntries_run addresses addresses ∅ s) as (w1 & s1 & H1 & Hw1 & Hdb1 & Hc1); [|done|].
  { split; intros ???; rewrite ?lookup_empty; done. }
  set (rows := filter (λ row : string * list byte, row.1 ∈ addresses) (sessions (dbRows s))).
  destruct (read_runs (λ t, map_to_list (filter (λ row, row.1 ∈ addresses) (sessions t))) s1) as (s2 & H2 & Hwk2 & Hr2 & Hh2 & Hc2).
  { by rewrite Hdb1. }
  assert (dbRows s1 = dbRows s) as Hr1 by (unfold dbRows; by rewrite Hdb1). rewrite Hr1 in H2, Hr2. fold rows in H2.
  rewrite <- Hh2 in Hw1.
  destruct (loadEntries_run addresses (map_to_list rows) w1 (list_to_map ((λ a, (a, false)) <$> addresses)) ∅ s2 Hw1)
    as (c & ex & s3 & H3 & Hcl & Hex & Hdb3 & Hc3).
  { intros [a raw] Ha. apply elem_of_map_to_list, map_lookup_filter_Some in Ha as [_ Ha]. exact Ha. }
  { intros a Ha. rewrite lookup_empty. cbn. destruct (_ !! a) as [b|] eqn:Hb.
    - apply elem_of_list_to_map_2, list_elem_of_fmap in Hb as (? & [= _ ->] & _). done.
    - apply not_elem_of_list_to_map_2 in Hb. destruct Hb. rewrite <- list_fmap_compose, list_fmap_id. done. }
  rewrite insertAll_map, map_union_empty in Hcl, Hex.
  assert (∀ a, a ∈ addresses → rows !! a = rowAt s a) as Hrows.
  { intros a Ha. unfold rowAt. destruct (sessions (dbRows s) !! a) as [raw|] eqn:Hs.
    - by apply map_lookup_filter_Some.
    - apply map_lookup_filter_None. by left. }
  exists c, ex, (mkSessions (db s3) (heap s3) (Some c)). split; [|split; [|split]].
  - unfold WithCachedSessions. destruct addresses as [|a l]; [done|]. unfold setCache, modify, mbind, stateM_bind, sessionRows.
    by rewrite H1, H2, H3.
  - destruct Hcl as [Hap Hcl]. unfold dbRows in *. split; try done; cbn.
    + intros a. unfold rowAt, dbRows. cbn. rewrite Hdb3, Hr2. destruct (c !! a) as [e|] eqn:He.
      * destruct (Hcl a e He) as (Ha & Hd & x & Hx & Hl & Hf & _). rewrite Hrows in Hl, Hf by done.
        exists x. rewrite Hd. by split_and!.
      * done.
    + unfold keepsRest, dbRows. cbn. by rewrite Hdb3, Hr2.
    + by rewrite Hdb3.
  - unfold dbRows in *. cbn. by rewrite Hdb3.
  - intros a Ha. by rewrite Hex, Hrows.
Qed.

(** C19: sessions through the cache are sessions in the table. After a
    prefetch, which says of each address whether it has a session, every load, update
    and test returns what it returns without the cache, and none of them writes to the
    table. A flush then leaves exactly the table that the calls without the cache
    leave; if the database fails during the flush, nothing is written and the cache is
    kept for another flush. *)
Theorem cached_sessions (addresses : list string) (calls : list sessionCall) (s : sessionState) :
  addresses ≠ [] → cache s = None → working (sdb (db s)) →
  ∃ existing s1, WithCachedSessions addresses s = (Ok existing, s1) ∧
    (∀ a, a ∈ addresses → existing !! a = knows (rowAt s a)) ∧
    let '(answers, s2) := runSessions calls s1 in
    let '(direct, d) := runSessions calls s in
    answers = direct ∧ dbRows s2 = dbRows s ∧
    ∀ s3 r s4,
      dbRows s3 = dbRows s2 → heap s3 = heap s2 → cache s3 = cache s2 → PutCachedSessions native s3 = (r, s4) →
      (r = Ok tt ∧ dbRows s4 = dbRows d ∧ cache s4 = Some ∅) ∨
      ((∃ e, r = Err e) ∧ dbRows s4 = dbRows s ∧ cache s4 = cache s2 ∧ heap s4 = heap s2).
Proof.
  intros Hne Hc Hw. destruct (WithCachedSessions_run addresses s Hne Hc Hw) as (c & ex & s1 & Hr & Hsim & Hrows & Hex).
  exists ex, s1. split; [done|]. split; [done|]. pose proof (calls_sim calls c s1 s Hsim) as Hcalls.
  destruct (runSessions calls s1) as [answers s2], (runSessions calls s) as [direct d].
  destruct Hcalls as (-> & Ht & c2 & Hs2). split; [done|]. split; [by rewrite Ht|].
  intros s3 r s4 ? ? ? Hput. rewrite <- Hrows, <- Ht. by eapply PutCachedSessions_cases.
Qed.

(** Deleting a session does not go through the cache: a record that a call stored
    before comes back with the flush. *)
Theorem deleted_session_returns (a : string) (x : session) (p : nat) (s : sessionState) (c : entries) (e : sessionCacheEntry) :
  cache s = Some c → c !! a = Some e → Dirty e = true → heap s !! RecordPtr e = Some x → working (sdb (db s)) →
  ∃ s1, DeleteCachedSession a s = (Ok tt, s1) ∧ rowAt s1 a = None ∧
    ∀ r s2, PutCachedSessions native s1 = (r, s2) → r = Ok tt → rowAt s2 a = Some (Serialize x).
Proof.
  intros Hc He Hd Hx Hw. destruct (write_runs (withSessions (delete a)) s Hw) as (s1 & Hr & Hw1 & Ht & Hh & Hc1).
  exists s1. split; [exact Hr|]. split; [unfold rowAt; rewrite Ht; apply lookup_delete_eq|].
  intros r s2. unfold PutCachedSessions, mbind, stateM_bind, get. rewrite Hc1, Hc. set (dirty := (_ <$> _) : gmap string (list byte)).
  unfold onSQL, zoom. destruct (PutManySessions native dirty (db s1)) as [r1 d1] eqn:Hput.
  destruct (PutManySessions_cases _ _ _ _ _ Hput) as [[-> Hrows]|[[e' ->] _]]; cbn; intros [= <- <-]; [intros _|done].
  unfold rowAt, dbRows. cbn. rewrite Hrows. apply lookup_union_Some_l. subst dirty.
  rewrite lookup_fmap, (proj2 (map_lookup_filter_Some _ _ _ e)); [|by split]. cbn. unfold valueOf. by rewrite Hh, Hx.
Qed.
End theory.

(** ** Sessions that are byte strings *)

#[local] Instance toyCodec : SessionCodec := {|
  session := list byte;
  NewSession := [];
  Serialize x := x01 :: x;
  NewSessionFromBytes raw := match raw with x01 :: x => Some x | _ => None end
|}.
#[local] Instance toyCodecLaws : SessionCodecLaws.
Proof. by split. Qed.

Definition toyRows : signalTables := mkSignal ∅ {["123:0" := [x01; x07]; "123:4" := [x02]]} ∅.
Definition toyState : sessionState := mkSessions (mkSQLStore (mkDatabase toyRows []) ∅ 0 ∅ ∅ ∅) ∅ None.

Definition toyCalls : list (sessionCall) :=
  [UpdateCall "123:0" (cons x08); LoadCall "123:0"; LoadCall "123:4";
   UpdateCall "5:5" (cons x09); ContainsCall "5:5"].

Lemma cached_sessions_witness :
  let d := (runSessions toyCalls toyState).2 in
  ∃ existing s1, WithCachedSessions ["123:0"; "123:4"; "5:6"] toyState = (Ok existing, s1) ∧
    existing = {["123:0" := true; "5:6" := false]} ∧
    ((runSessions toyCalls s1).1 =
      [Ok (SessionRecord [x08; x07]); Ok (SessionRecord [x08; x07]); Err Undecodable; Ok (SessionRecord [x09]);
       Ok (SessionExists true)]) ∧
    let '(r, s4) := PutCachedSessions false (runSessions toyCalls s1).2 in
    r = Ok tt ∧ sessions (dbRows s4) = {["123:0" := [x01; x08; x07]; "123:4" := [x02]; "5:5" := [x01; x09]]}.
Proof.
  intros d. destruct (cached_sessions false ["123:0"; "123:4"; "5:6"] toyCalls toyState ltac:(discriminate) eq_refl ltac:(constructor))
    as (ex & s1 & Hr & _ & Hrest).
  exists ex, s1. split; [exact Hr|]. vm_compute in Hr. injection Hr as <- <-. split; [vm_compute; reflexivity|].
  split; [vm_compute; reflexivity|].
  destruct (runSessions toyCalls _) as [answers s2] eqn:H2 in Hrest |- *. cbn [snd].
  destruct (runSessions toyCalls toyState) as [direct d'] eqn:Hd. destruct Hrest as (_ & _ & Hflush).
  destruct (PutCachedSessions false s2) as [r s4] eqn:Hp.
  destruct (Hflush s2 r s4 eq_refl eq_refl eq_refl Hp) as [(-> & Ht & _)|([e ->] & _)].
  - split; [reflexivity|]. rewrite Ht. vm_compute in Hd. injection Hd as _ <-. vm_compute. reflexivity.
  - exfalso. vm_compute in H2. injection H2 as _ <-. vm_compute in Hp. discriminate Hp.
Defined.
