(* ===== verification/LidMap.v ===== *)
(** The map between LIDs and phone numbers (src/store/sqlstore/lidmap.go): a table
    with two caches in front of it. Every operation holds the lock while it uses
    the caches and the table; [getLIDMapping] and the batch lookups release it
    between their look at the caches and their query, and the model runs the two
    parts one after the other. *)
From Stdlib Require Import ZArith Lia.
From stdpp Require Import prelude gmap strings list fin_maps fin_map_dom.
From S2P Require Import Prelude Jid AppStore.

#[local] Open Scope string_scope.

Definition maxLIDCacheEntries : Z := 65536.
Definition lidQueryBatchSize : nat := 300.

Record LIDMapping := mkMapping { mLID : JID; mPN : JID }.
#[global] Instance LIDMapping_eq_dec : EqDecision LIDMapping.
Proof. solve_decision. Defined.

(** ** The table

    The rows of whatsmeow_lid_map: lid is the primary key, pn is unique. A fault
    is how one of the next uses of the database fails: a query after it has handed
    over some rows, any other statement and a commit without an effect. *)
Abbreviation lidRows := (gmap string string) (only parsing).

Definition conflicting (lid pn : string) (row : string * string) : Prop := row.1 ≠ lid ∧ row.2 = pn.
#[global] Instance conflicting_dec lid pn row : Decision (conflicting lid pn row).
Proof. unfold conflicting. apply _. Defined.

Definition deleteExistingLIDMappingQuery (lid pn : string) (rows : lidRows) : lidRows :=
  filter (λ row, ¬ conflicting lid pn row) rows.

(** [None]: the unique constraint of pn is violated. *)
Definition putLIDMappingQuery (lid pn : string) (rows : lidRows) : option lidRows :=
  if decide (map_Exists (λ l p, conflicting lid pn (l, p)) rows) then None else Some (<[lid := pn]> rows).

(** ** The caches *)

Definition caches : Type := gmap string string * gmap string string.

(** A missing key reads as the empty string. *)
Definition at_ (m : gmap string string) (k : string) : string := default "" (m !! k).

Record CachedLIDMap := mkLIDMap {
  rows : lidRows;
  dbFaults : list (option nat);
  pnToLIDCache : gmap string string;
  lidToPNCache : gmap string string;
  cacheFilled : bool
}.

Inductive lidError := LIDDriverError | LIDConstraint | NonPNJID | NonLIDJID | InvalidMapping.
Abbreviation lidM := (stateM CachedLIDMap lidError).

Section lidmap.
(** The limit of a cache; the key an iteration over a map starts with; the order in
    which a query returns rows; whether the database is Postgres; and
    [exslices.DeduplicateUnsortedOverwrite]. *)
Context (limit : Z) (firstKey : gmap string string → option string).
Context (scan : lidRows → list (string * string)) (postgres : bool).
Context (DeduplicateUnsortedOverwrite : list LIDMapping → list LIDMapping).

Definition NewCachedLIDMap (rows : lidRows) (faults : list (option nat)) : CachedLIDMap :=
  mkLIDMap rows faults ∅ ∅ false.

Definition evictLIDCacheEntry (cache reverse : gmap string string) : caches :=
  match firstKey cache with
  | Some source =>
      let target := at_ cache source in
      (delete source cache,
       if decide (target ≠ "" ∧ at_ reverse target = source) then delete target reverse else reverse)
  | None => (cache, reverse)
  end.

Definition len (m : gmap string string) : Z := Z.of_nat (base.size m).

Definition cacheMiss (cache reverse : gmap string string) (source : string) : caches :=
  match cache !! source with
  | Some _ => (cache, reverse)
  | None =>
      let '(cache, reverse) :=
        if (limit <=? len cache)%Z then evictLIDCacheEntry cache reverse else (cache, reverse) in
      (<[source := ""]> cache, reverse)
  end.

(** The caches from PN to LID and from LID to PN. *)
Definition cacheMapping (lid pn : string) (cs : caches) : caches :=
  let '(pnToLID, lidToPN) := cs in
  let oldLID := at_ pnToLID pn in
  let lidToPN :=
    if decide (oldLID ≠ "" ∧ oldLID ≠ lid ∧ at_ lidToPN oldLID = pn) then delete oldLID lidToPN else lidToPN in
  let oldPN := at_ lidToPN lid in
  let pnToLID :=
    if decide (oldPN ≠ "" ∧ oldPN ≠ pn ∧ at_ pnToLID oldPN = lid) then delete oldPN pnToLID else pnToLID in
  let '(pnToLID, lidToPN) :=
    if decide (pnToLID !! pn = None ∧ (limit ≤ len pnToLID)%Z) then evictLIDCacheEntry pnToLID lidToPN
    else (pnToLID, lidToPN) in
  let '(lidToPN, pnToLID) :=
    if decide (lidToPN !! lid = None ∧ (limit ≤ len lidToPN)%Z) then evictLIDCacheEntry lidToPN pnToLID
    else (lidToPN, pnToLID) in
  (<[pn := lid]> pnToLID, <[lid := pn]> lidToPN).

Definition setCaches (cs : caches) (s : CachedLIDMap) : CachedLIDMap :=
  mkLIDMap (rows s) (dbFaults s) cs.1 cs.2 (cacheFilled s).
Definition cachesOf (s : CachedLIDMap) : caches := (pnToLIDCache s, lidToPNCache s).

Definition cacheMappingLocked (lid pn : string) : lidM unit :=
  modify (λ s, setCaches (cacheMapping lid pn (cachesOf s)) s).

(** ** Statements *)

(** The next fault. *)
Definition nextFault : lidM (option nat) := λ s,
  match dbFaults s with
  | [] => (Ok None, s)
  | f :: fs => (Ok f, mkLIDMap (rows s) fs (pnToLIDCache s) (lidToPNCache s) (cacheFilled s))
  end.

Definition setRows (rs : lidRows) (s : CachedLIDMap) : CachedLIDMap :=
  mkLIDMap rs (dbFaults s) (pnToLIDCache s) (lidToPNCache s) (cacheFilled s).

Definition exec (f : lidRows → option lidRows) : lidM unit :=
  flt ← nextFault;
  match flt with
  | Some _ => throw LIDDriverError
  | None => s ← get; match f (rows s) with Some rs => modify (setRows rs) | None => throw LIDConstraint end
  end.

Definition doTxn (m : lidM unit) : lidM unit := λ s,
  match (_ ← exec Some; _ ← m; exec Some) s with
  | (Ok a, s') => (Ok a, s')
  | (r, s') => (r, setRows (rows s) s')
  end.

(** A query for the rows with [P]: those handed over, and whether it then fails. *)
Definition query (P : string * string → bool) : lidM (list (string * string) * bool) :=
  flt ← nextFault;
  s ← get;
  let l := List.filter P (scan (rows s)) in
  mret (match flt with Some k => (take k l, true) | None => (l, false) end).

(** ** Operations *)

(** [fn] updates the caller's accumulator. The number of rows, the accumulator, and
    whether the iteration failed. *)
Definition scanManyLids {A} (res : list (string * string) * bool) (fn : string → string → A → A) (acc : A) :
    lidM (nat * A * bool) := λ s,
  (Ok (length res.1, foldl (λ acc row, fn row.1 row.2 acc) acc res.1, res.2),
   foldl (λ s row, setCaches (cacheMapping row.1 row.2 (cachesOf s)) s) s res.1).

Definition setFilled (b : bool) (s : CachedLIDMap) : CachedLIDMap :=
  mkLIDMap (rows s) (dbFaults s) (pnToLIDCache s) (lidToPNCache s) b.

Definition FillCache : lidM unit :=
  _ ← modify (setCaches (∅, ∅));
  res ← query (λ _, true);
  '(count, _, failed) ← scanManyLids res (λ _ _ acc, acc) tt;
  _ ← modify (setFilled (negb failed && (Z.of_nat count <=? limit)%Z));
  if (failed : bool) then throw LIDDriverError else mret tt.

Definition targetJID (targetUser : string) (source : JID) (targetServer : string) : JID :=
  {| User := targetUser; RawAgent := 0; Device := Device source; Integrator := 0; Server := targetServer |}.

(** [toLID]: whether the source is a phone number. [queryRow]: the one row of
    getLIDForPNQuery or getPNForLIDQuery. *)
Definition getLIDMapping (toLID : bool) (source : JID) : lidM JID :=
  let targetServer := if toLID then HiddenUserServer else DefaultUserServer in
  let answer targetUser :=
    if decide (targetUser = "") then EmptyJID else targetJID targetUser source targetServer in
  s ← get;
  let sourceToTarget := if toLID then pnToLIDCache s else lidToPNCache s in
  if decide (is_Some (sourceToTarget !! User source) ∨ cacheFilled s = true)
  then mret (answer (at_ sourceToTarget (User source)))
  else
    '(found, failed) ← query (λ row, bool_decide ((if toLID then row.2 else row.1) = User source));
    if (failed : bool) then throw LIDDriverError
    else
      let targetUser :=
        match found with [] => "" | row :: _ => if toLID then row.1 else row.2 end in
      _ ← (if decide (targetUser = "") then
             modify (λ s, setCaches
               (if toLID then cacheMiss (pnToLIDCache s) (lidToPNCache s) (User source)
                else let '(c, r) := cacheMiss (lidToPNCache s) (pnToLIDCache s) (User source) in (r, c)) s)
           else if toLID then cacheMappingLocked targetUser (User source)
           else cacheMappingLocked (User source) targetUser);
      mret (answer targetUser).

Definition GetLIDForPN (pn : JID) : lidM JID :=
  if decide (Server pn ≠ DefaultUserServer) then throw NonPNJID else getLIDMapping true pn.
Definition GetPNForLID (lid : JID) : lidM JID :=
  if decide (Server lid ≠ HiddenUserServer) then throw NonLIDJID else getLIDMapping false lid.

Definition withUser (j : JID) (user server : string) : JID :=
  {| User := user; RawAgent := RawAgent j; Device := Device j; Integrator := Integrator j; Server := server |}.

(** A Go map with JIDs as keys, in no particular order, as what it maps a key to. *)
Definition jidMap := JID → option JID.
Definition put (k v : JID) (m : jidMap) : jidMap := λ j, if decide (j = k) then Some v else m j.

(** The loops over the cached entries: the result and the JIDs to query, in order.
    missingPNDevices[user] is those of them with that user. *)
Fixpoint cachedLIDs (s : CachedLIDMap) (pns : list JID) (result : jidMap) (missing : list JID) : jidMap * list JID :=
  match pns with
  | [] => (result, missing)
  | pn :: pns =>
      if decide (Server pn ≠ DefaultUserServer) then cachedLIDs s pns result missing
      else if decide (at_ (pnToLIDCache s) (User pn) ≠ "")
      then cachedLIDs s pns (put pn (targetJID (at_ (pnToLIDCache s) (User pn)) pn HiddenUserServer) result) missing
      else cachedLIDs s pns result (if cacheFilled s then missing else (missing ++ [pn])%list)
  end.

Definition putDevices (missing : list JID) (from to server : string) (result : jidMap) : jidMap :=
  foldl (λ result dev, if decide (User dev = from) then put dev (withUser dev to server) result else result) result missing.

(** The result comes with the error. *)
Definition GetManyLIDsForPNs (pns : list JID) : lidM (jidMap * bool) :=
  s ← get;
  let '(result, missing) := cachedLIDs s pns (λ _, None) [] in
  match missing with
  | [] => mret (result, false)
  | _ =>
      res ← query (λ row, bool_decide (row.2 ∈ (User <$> missing)));
      '(_, result, failed) ← scanManyLids res (λ lid pn, putDevices missing pn lid HiddenUserServer) result;
      mret (result, failed)
  end.

Fixpoint cachedPNs (s : CachedLIDMap) (lids : list JID) (result : jidMap) (missing : list JID) : jidMap * list JID :=
  match lids with
  | [] => (result, missing)
  | lid :: lids =>
      if decide (Server lid ≠ HiddenUserServer) then cachedPNs s lids result missing
      else match lidToPNCache s !! User lid with
           | Some pnUser =>
               cachedPNs s lids
                 (if decide (pnUser ≠ "") then put lid (targetJID pnUser lid DefaultUserServer) result else result) missing
           | None => cachedPNs s lids result (if cacheFilled s then missing else (missing ++ [lid])%list)
           end
  end.

(** The second look at the cache, under the lock for writing. *)
Fixpoint recheckPNs (s : CachedLIDMap) (missing : list JID) (users : list string) (result : jidMap) (left : list string) :
    jidMap * list string :=
  match users with
  | [] => (result, left)
  | lid :: users =>
      match lidToPNCache s !! lid with
      | Some pn =>
          recheckPNs s missing users
            (if decide (pn ≠ "") then
               foldl (λ result dev, if decide (User dev = lid) then put dev (targetJID pn dev DefaultUserServer) result else result)
                 result missing
             else result) left
      | None => recheckPNs s missing users result (if cacheFilled s then left else (left ++ [lid])%list)
      end
  end.

(** One query per batch, until one fails; the users found, the result. *)
Fixpoint queryPNs (missing : list JID) (batches : list (list string)) (found : list string) (result : jidMap) :
    lidM (list string * jidMap * bool) :=
  match batches with
  | [] => mret (found, result, false)
  | b :: batches =>
      res ← query (λ row, bool_decide (row.1 ∈ b));
      '(_, (found, result), failed) ← scanManyLids res
        (λ lid pn '(found, result), ((lid :: found), putDevices missing lid pn DefaultUserServer result)) (found, result);
      if (failed : bool) then mret (found, result, true) else queryPNs missing batches found result
  end.

Fixpoint missAll (lids : list string) : lidM unit :=
  match lids with
  | [] => mret tt
  | lid :: lids =>
      _ ← modify (λ s, setCaches (let '(c, r) := cacheMiss (lidToPNCache s) (pnToLIDCache s) lid in (r, c)) s);
      missAll lids
  end.

(** The users without repetition, in the order of their first occurrence. *)
Fixpoint firsts (l : list string) (seen : list string) : list string :=
  match l with
  | [] => []
  | x :: l => if decide (x ∈ seen) then firsts l seen else x :: firsts l (x :: seen)
  end.

Definition GetManyPNsForLIDs (lids : list JID) : lidM (jidMap * bool) :=
  s ← get;
  let '(result, missing) := cachedPNs s lids (λ _, None) [] in
  match firsts (User <$> missing) [] with
  | [] => mret (result, false)
  | users =>
      s ← get;
      let '(result, users) := recheckPNs s missing users result [] in
      match users with
      | [] => mret (result, false)
      | _ =>
          let batches := if postgres then [users] else chunk (length users) lidQueryBatchSize users in
          '(found, result, failed) ← queryPNs missing batches [] result;
          if (failed : bool) then mret (result, true)
          else
            _ ← missAll (List.filter (λ lid, bool_decide (lid ∉ found)) users);
            mret (result, false)
      end
  end.

Definition unlockedPutLIDMapping (lid pn : JID) : lidM unit :=
  if decide (Server lid ≠ HiddenUserServer ∨ Server pn ≠ DefaultUserServer) then throw InvalidMapping
  else
    _ ← exec (λ rs, Some (deleteExistingLIDMappingQuery (User lid) (User pn) rs));
    _ ← exec (putLIDMappingQuery (User lid) (User pn));
    cacheMappingLocked (User lid) (User pn).

Definition PutLIDMapping (lid pn : JID) : lidM unit :=
  if decide (Server lid ≠ HiddenUserServer ∨ Server pn ≠ DefaultUserServer) then throw InvalidMapping
  else
    s ← get;
    if decide (pnToLIDCache s !! User pn = Some (User lid)) then mret tt
    else doTxn (unlockedPutLIDMapping lid pn).

Fixpoint putMappings (ms : list LIDMapping) : lidM unit :=
  match ms with
  | [] => mret tt
  | m :: ms => _ ← unlockedPutLIDMapping (mLID m) (mPN m); putMappings ms
  end.

(** The mappings that are not ignored. *)
Definition keepMapping (s : CachedLIDMap) (m : LIDMapping) : bool :=
  negb (bool_decide (Server (mLID m) ≠ HiddenUserServer ∨ Server (mPN m) ≠ DefaultUserServer)) &&
  negb (bool_decide (pnToLIDCache s !! User (mPN m) = Some (User (mLID m)))).

Definition PutManyLIDMappings (mappings : list LIDMapping) : lidM unit :=
  s ← get;
  match DeduplicateUnsortedOverwrite (List.filter (keepMapping s) mappings) with
  | [] => mret tt
  | ms => doTxn (putMappings ms)
  end.
End lidmap.
