(* ===== verification/LidMapTheory.v ===== *)
(** The LID map returns what its table says: the invariant that relates the two
    caches to the table, and the refinement of the table by every operation. *)
From Stdlib Require Import ZArith Lia.
From stdpp Require Import prelude gmap strings list fin_maps fin_map_dom.
From S2P Require Import Prelude Jid AppStore LidMap.

#[local] Open Scope string_scope.

(** ** Caches of a relation *)

(** [R] is a one-to-one relation between non-empty strings. *)
Record oneToOne (R : string → string → Prop) : Prop := mkOneToOne {
  oto_fun a b b' : R a b → R a b' → b = b';
  oto_inj a a' b : R a b → R a' b → a = a';
  oto_src a b : R a b → a ≠ "";
  oto_tgt a b : R a b → b ≠ ""
}.

(** What an entry may say, but for one key. *)
Definition saysTrueBut (k : option string) (R : string → string → Prop) (c r : gmap string string) : Prop :=
  ∀ a b, Some a ≠ k → c !! a = Some b → (b = "" ∧ ∀ b', ¬ R a b') ∨ (R a b ∧ r !! b = Some a).

Definition goodBut (k k' : option string) (R : string → string → Prop) (c r : gmap string string) : Prop :=
  saysTrueBut k R c r ∧ saysTrueBut k' (flip R) r c.
Definition good := goodBut None None.

Lemma goodBut_flip k k' R c r : goodBut k k' R c r ↔ goodBut k' k (flip R) r c.
Proof. unfold goodBut. tauto. Qed.
Lemma oneToOne_flip R : oneToOne R → oneToOne (flip R).
Proof. intros [Hf Hi Hs Ht]. split; unfold flip; eauto. Qed.

Lemma at_Some m k x : at_ m k = x → x ≠ "" → m !! k = Some x.
Proof. unfold at_. destruct (m !! k); cbn; congruence. Qed.
Lemma table_at_lookup m k x : m !! k = Some x → at_ m k = x.
Proof. unfold at_. by intros ->. Qed.

Section evict.
Context (firstKey : gmap string string → option string).
Context (firstKey_law : ∀ m, m ≠ ∅ → ∃ k, firstKey m = Some k ∧ is_Some (m !! k)).
Context (firstKey_empty : firstKey ∅ = None).

Lemma firstKey_in m k : firstKey m = Some k → is_Some (m !! k).
Proof.
  intros Hk. destruct (decide (m = ∅)) as [->|Hne]; [congruence|].
  destruct (firstKey_law m Hne) as (k' & Hk' & ?). congruence.
Qed.

(** The keys [l] and [p] are related, if at all, to each other. *)
Definition pairOf (R : string → string → Prop) (l p : option string) : Prop :=
  ∀ a b, R a b → (Some a = l ↔ Some b = p).

Lemma evict_good l p R c r :
  oneToOne R → pairOf R l p → goodBut l p R c r →
  goodBut l p R (evictLIDCacheEntry firstKey c r).1 (evictLIDCacheEntry firstKey c r).2.
Proof.
  intros [Hf Hi Hs Ht] Hlp [Hc Hr]. unfold evictLIDCacheEntry.
  destruct (firstKey c) as [x|] eqn:Hx; [|done]. apply firstKey_in in Hx as [y Hy].
  rewrite (table_at_lookup _ _ _ Hy). cbn. split.
  - intros a b Ha [Hax Hab]%lookup_delete_Some. destruct (Hc a b Ha Hab) as [?|[HR Hrb]]; [by left|right].
    split; [done|]. case_decide as Hd; [|done]. apply lookup_delete_Some. split; [|done].
    intros <-. destruct Hd as [_ Hd]. rewrite (table_at_lookup _ _ _ Hrb) in Hd. done.
  - assert (∀ b a, Some b ≠ p → r !! b = Some a → (y ≠ "" ∧ at_ r y = x → b ≠ y) →
      (a = "" ∧ ∀ b', ¬ flip R b b') ∨ (flip R b a ∧ delete x c !! a = Some b)) as Hgo.
    { intros b a Hb Hba Hby. destruct (Hr b a Hb Hba) as [?|[HR Hca]]; [by left|right]. split; [done|].
      apply lookup_delete_Some. split; [|done]. intros ->. simplify_eq. apply Hby; [|done].
      split; [by eapply Ht|]. by apply table_at_lookup. }
    case_decide as Hd.
    + intros b a Hb [Hne Hba]%lookup_delete_Some. apply Hgo; auto.
    + intros b a Hb Hba. apply Hgo; [done..|]. tauto.
Qed.

Lemma evict_len c r :
  (len (evictLIDCacheEntry firstKey c r).1 ≤ Z.max 0 (len c - 1))%Z ∧ (len (evictLIDCacheEntry firstKey c r).2 ≤ len r)%Z.
Proof.
  unfold evictLIDCacheEntry, len. destruct (firstKey c) as [x|] eqn:Hx; cbn.
  - apply firstKey_in in Hx as [y Hy]. rewrite (map_size_delete_Some x c) by eauto.
    split; [lia|]. case_decide; [|lia]. pose proof (map_subseteq_size _ _ (delete_subseteq r (at_ c x))). lia.
  - destruct (decide (c = ∅)) as [->|Hne]; [rewrite map_size_empty; lia|].
    destruct (firstKey_law c Hne) as (k & Hk & _). congruence.
Qed.

(** ** A miss *)

Context (limit : Z) (limit_pos : (1 ≤ limit)%Z).

Lemma len_insert (c : gmap string string) k x : (len (<[k := x]> c) ≤ if decide (c !! k = None) then len c + 1 else len c)%Z.
Proof.
  unfold len. rewrite map_size_insert. destruct (c !! k) as [?|] eqn:Hk; case_decide; try done; lia.
Qed.

Lemma cacheMiss_good R c r x :
  oneToOne R → (∀ y, ¬ R x y) → good R c r →
  let cs := cacheMiss limit firstKey c r x in
  good R cs.1 cs.2 ∧ ((len c ≤ limit)%Z → (len r ≤ limit)%Z → (len cs.1 ≤ limit)%Z ∧ (len cs.2 ≤ limit)%Z).
Proof.
  intros H1 Hx Hg cs. subst cs. unfold cacheMiss. destruct (c !! x) as [y|] eqn:Hcx; [done|].
  set (cs := if (limit <=? len c)%Z then evictLIDCacheEntry firstKey c r else (c, r)).
  assert (good R cs.1 cs.2 ∧ cs.1 !! x = None ∧
    ((len c ≤ limit)%Z → (len r ≤ limit)%Z → (len cs.1 < limit)%Z ∧ (len cs.2 ≤ limit)%Z)) as (Hg' & Hcx' & Hlen).
  { subst cs. destruct (limit <=? len c)%Z eqn:Hl.
    - split_and!; [by apply evict_good| |intros; pose proof (evict_len c r); lia].
      unfold evictLIDCacheEntry. destruct (firstKey c); [|done]. cbn. rewrite lookup_delete_None. by right.
    - split_and!; [done..|]. cbn. lia. }
  destruct cs as [c' r']. cbn in *. split.
  - destruct Hg' as [Hc Hr]. split.
    + intros a b Ha [[<- <-]|[Hne Hab]]%lookup_insert_Some; [by left|by apply Hc].
    + intros b a Hb Hba. destruct (Hr b a Hb Hba) as [?|[HR Ha]]; [by left|right]. split; [done|].
      rewrite lookup_insert_ne; [done|]. intros ->. by apply (Hx b).
  - intros Hlc Hlr. destruct (Hlen Hlc Hlr) as [Hl1 Hl2]. pose proof (len_insert c' x "") as Hi.
    case_decide; lia.
Qed.

(** ** A mapping *)

(** [R] with [l] and [p] related to each other and to nothing else. *)
Definition joined (l p : string) (R : string → string → Prop) : string → string → Prop :=
  λ a b, (a = l ∧ b = p) ∨ (a ≠ l ∧ b ≠ p ∧ R a b).

Lemma joined_oneToOne l p R : l ≠ "" → p ≠ "" → oneToOne R → oneToOne (joined l p R).
Proof. intros Hl Hp [Hf Hi Hs Ht]. split; unfold joined; intros; naive_solver. Qed.

Lemma joined_pair l p R : pairOf (joined l p R) (Some l) (Some p).
Proof. unfold pairOf, joined. intros; naive_solver. Qed.

(** The two caches after the stale entries are gone. *)
Definition dropStale (l p : string) (cs : caches) : caches :=
  let '(pnToLID, lidToPN) := cs in
  let oldLID := at_ pnToLID p in
  let lidToPN :=
    if decide (oldLID ≠ "" ∧ oldLID ≠ l ∧ at_ lidToPN oldLID = p) then delete oldLID lidToPN else lidToPN in
  let oldPN := at_ lidToPN l in
  (if decide (oldPN ≠ "" ∧ oldPN ≠ p ∧ at_ pnToLID oldPN = l) then delete oldPN pnToLID else pnToLID, lidToPN).

Definition makeRoom (k : string) (c r : gmap string string) : caches :=
  if decide (c !! k = None ∧ (limit ≤ len c)%Z) then evictLIDCacheEntry firstKey c r else (c, r).

Lemma cacheMapping_eq l p cs :
  cacheMapping limit firstKey l p cs =
  let '(cp, cl) := dropStale l p cs in
  let '(cp, cl) := makeRoom p cp cl in
  let '(cl, cp) := makeRoom l cl cp in
  (<[p := l]> cp, <[l := p]> cl).
Proof. by destruct cs. Qed.

Lemma dropStale_spec l p cp cl :
  ∃ dl dp : bool,
    dropStale l p (cp, cl) = (if dp then delete (at_ cl l) cp else cp, if dl then delete (at_ cp p) cl else cl) ∧
    (dl = true ↔ at_ cp p ≠ "" ∧ at_ cp p ≠ l ∧ at_ cl (at_ cp p) = p) ∧
    (dp = true ↔ at_ cl l ≠ "" ∧ at_ cl l ≠ p ∧ at_ cp (at_ cl l) = l).
Proof.
  unfold dropStale. cbv zeta.
  destruct (decide (at_ cp p ≠ "" ∧ at_ cp p ≠ l ∧ at_ cl (at_ cp p) = p)) as [Hl|Hl].
  - assert (at_ (delete (at_ cp p) cl) l = at_ cl l) as ->.
    { unfold at_ at 1. rewrite lookup_delete_ne by tauto. done. }
    case_decide as Hp; [exists true, true|exists true, false]; naive_solver.
  - case_decide as Hp; [exists false, true|exists false, false]; naive_solver.
Qed.

Lemma dropStale_good l p R cp cl :
  l ≠ "" → p ≠ "" → oneToOne R → good R cl cp →
  let '(cp', cl') := dropStale l p (cp, cl) in goodBut (Some l) (Some p) (joined l p R) cl' cp'.
Proof.
  intros Hl Hp [Hf Hi Hs Ht] [Hc Hr]. destruct (dropStale_spec l p cp cl) as (dl & dp & -> & Hdl & Hdp). split.
  - intros a b Ha Hab. assert (cl !! a = Some b) as Hab0.
    { destruct dl; [|done]. by apply lookup_delete_Some in Hab as [_ ?]. }
    destruct (Hc a b) as [[-> Hno]|[HR Hb]]; [done..|left|right].
    + split; [done|]. intros b' [[-> _]|(_ & _ & ?)]; [done|by apply (Hno b')].
    + assert (b ≠ p) as Hbp.
      { intros ->. destruct dl.
        - apply lookup_delete_Some in Hab as [Hne _]. by rewrite (table_at_lookup _ _ _ Hb) in Hne.
        - assert (false = true) as [=]. apply Hdl. rewrite (table_at_lookup _ _ _ Hb), (table_at_lookup _ _ _ Hab0).
          split_and!; [by eapply Hs|congruence|done]. }
      split; [right; split_and!; congruence|]. destruct dp; [|done]. apply lookup_delete_Some. split; [|done].
      destruct (proj1 Hdp eq_refl) as (_ & _ & Hat). intros Heq. rewrite Heq, (table_at_lookup _ _ _ Hb) in Hat. congruence.
  - intros b a Hb Hba. assert (cp !! b = Some a) as Hba0.
    { destruct dp; [|done]. by apply lookup_delete_Some in Hba as [_ ?]. }
    destruct (Hr b a) as [[-> Hno]|[HR Ha]]; [done..|left|right].
    + split; [done|]. intros a' [[_ ->]|(_ & _ & ?)]; [done|by apply (Hno a')].
    + unfold flip in HR. assert (a ≠ l) as Hal.
      { intros ->. destruct dp.
        - apply lookup_delete_Some in Hba as [Hne _]. by rewrite (table_at_lookup _ _ _ Ha) in Hne.
        - assert (false = true) as [=]. apply Hdp. rewrite (table_at_lookup _ _ _ Ha), (table_at_lookup _ _ _ Hba0).
          split_and!; [by eapply Ht|congruence|done]. }
      split; [right; split_and!; congruence|]. destruct dl; [|done]. apply lookup_delete_Some. split; [|done].
      destruct (proj1 Hdl eq_refl) as (_ & _ & Hat). intros Heq. rewrite Heq, (table_at_lookup _ _ _ Ha) in Hat. congruence.
Qed.

Lemma makeRoom_good k l p R c r :
  oneToOne R → pairOf R l p → goodBut l p R c r → goodBut l p R (makeRoom k c r).1 (makeRoom k c r).2.
Proof. intros. unfold makeRoom. case_decide; [by apply evict_good|done]. Qed.

Lemma cacheMapping_good l p R cp cl :
  l ≠ "" → p ≠ "" → oneToOne R → good R cl cp →
  let '(cp', cl') := cacheMapping limit firstKey l p (cp, cl) in good (joined l p R) cl' cp'.
Proof.
  intros Hl Hp H1 Hg. rewrite cacheMapping_eq. pose proof (dropStale_good l p R cp cl Hl Hp H1 Hg) as H2.
  destruct (dropStale l p (cp, cl)) as [cp1 cl1].
  pose proof (joined_oneToOne l p R Hl Hp H1) as HJ. pose proof (joined_pair l p R) as HP.
  assert (pairOf (flip (joined l p R)) (Some p) (Some l)) as HP' by (intros a b Hab; symmetry; by apply HP).
  apply goodBut_flip in H2. apply (makeRoom_good p) in H2; [|by apply oneToOne_flip|done].
  destruct (makeRoom p cp1 cl1) as [cp2 cl2]. apply goodBut_flip in H2. cbn in H2.
  apply (makeRoom_good l) in H2; [|done..]. destruct (makeRoom l cl2 cp2) as [cl3 cp3]. destruct H2 as [Hc Hr]. cbn in *.
  assert (∀ a b, joined l p R a b → a ≠ l → b ≠ p) as Hne by (unfold joined; naive_solver).
  assert (∀ a b, joined l p R a b → b ≠ p → a ≠ l) as Hne' by (unfold joined; naive_solver).
  split.
  - intros a b _ [[<- <-]|[Hal Hab]]%lookup_insert_Some; [right; split; [by left|by rewrite lookup_insert_eq]|].
    destruct (Hc a b) as [?|[HR Hb]]; [congruence|done|by left|right]. split; [done|].
    rewrite lookup_insert_ne; [done|]. intros <-. by eapply Hne.
  - intros b a _ [[<- <-]|[Hbp Hba]]%lookup_insert_Some; [right; split; [by left|by rewrite lookup_insert_eq]|].
    destruct (Hr b a) as [?|[HR Ha]]; [congruence|done|by left|right]. split; [done|].
    rewrite lookup_insert_ne; [done|]. intros <-. by eapply Hne'.
Qed.

Lemma makeRoom_sub k c r : (makeRoom k c r).1 ⊆ c ∧ (makeRoom k c r).2 ⊆ r.
Proof.
  unfold makeRoom, evictLIDCacheEntry. case_decide; [|done]. destruct (firstKey c); [|done]. cbn.
  split; [apply delete_subseteq|]. case_decide; [apply delete_subseteq|done].
Qed.

Lemma len_sub (c c' : gmap string string) : c ⊆ c' → (len c ≤ len c')%Z.
Proof. intros Hs%map_subseteq_size. unfold len. lia. Qed.

Lemma makeRoom_len k x c r :
  (len c ≤ limit)%Z → (len (<[k := x]> (makeRoom k c r).1) ≤ limit)%Z.
Proof.
  intros Hc. unfold makeRoom. case_decide as Hd.
  - pose proof (evict_len c r) as [? ?]. pose proof (len_insert (evictLIDCacheEntry firstKey c r).1 k x).
    case_decide; lia.
  - pose proof (len_insert c k x) as Hi. cbn. case_decide as Hk; [|lia].
    destruct (decide (limit ≤ len c)%Z); [by destruct Hd|lia].
Qed.

Lemma cacheMapping_len l p cp cl :
  (len cp ≤ limit)%Z → (len cl ≤ limit)%Z →
  let '(cp', cl') := cacheMapping limit firstKey l p (cp, cl) in (len cp' ≤ limit)%Z ∧ (len cl' ≤ limit)%Z.
Proof.
  intros Hcp Hcl. rewrite cacheMapping_eq. destruct (dropStale_spec l p cp cl) as (dl & dp & -> & _ & _).
  set (cp1 := if dp then _ else cp). set (cl1 := if dl then _ else cl).
  assert (len cp1 ≤ limit)%Z as Hp1 by (subst cp1; destruct dp; [etrans; [apply len_sub, delete_subseteq|]|]; done).
  assert (len cl1 ≤ limit)%Z as Hl1 by (subst cl1; destruct dl; [etrans; [apply len_sub, delete_subseteq|]|]; done).
  pose proof (makeRoom_sub p cp1 cl1) as [_ Hs1]. pose proof (makeRoom_len p l cp1 cl1 Hp1) as Hr1.
  destruct (makeRoom p cp1 cl1) as [cp2 cl2]. cbn in *.
  pose proof (makeRoom_sub l cl2 cp2) as [_ Hs2]. apply len_sub in Hs1.
  pose proof (makeRoom_len l p cl2 cp2 ltac:(lia)) as Hr2.
  destruct (makeRoom l cl2 cp2) as [cl3 cp3]. cbn in *. split; [|done].
  etrans; [|apply Hr1]. apply len_sub. by apply insert_mono.
Qed.

(** ** Complete caches *)

Definition exact (R : string → string → Prop) (cp cl : gmap string string) : Prop :=
  (∀ a b, cl !! a = Some b ↔ R a b) ∧ (∀ a b, cp !! b = Some a ↔ R a b).

Lemma exact_size R cp cl : exact R cp cl → len cp = len cl.
Proof.
  intros [Hl Hp]. unfold len. f_equal. rewrite <- !length_map_to_list, <- (length_fmap prod_swap (map_to_list cl)).
  apply Permutation_length, NoDup_Permutation.
  - apply NoDup_map_to_list.
  - apply (NoDup_fmap_2 _), NoDup_map_to_list. 
  - intros [b a]. rewrite elem_of_map_to_list, list_elem_of_fmap. rewrite Hp, <- Hl. split.
    + intros Hab. exists (a, b). by rewrite elem_of_map_to_list.
    + intros ([a' b'] & [= -> ->] & Hin). by apply elem_of_map_to_list in Hin.
Qed.

Lemma exact_good R cp cl : exact R cp cl → good R cl cp.
Proof.
  intros [Hl Hp]. split; [intros a b|intros b a]; intros _ Hab; right.
  - by rewrite Hp, <- Hl.
  - unfold flip. by rewrite Hl, <- Hp.
Qed.

Lemma dropStale_exact l p R cp cl :
  l ≠ "" → p ≠ "" → oneToOne R → exact R cp cl →
  let '(cp', cl') := dropStale l p (cp, cl) in exact (joined l p R) (<[p := l]> cp') (<[l := p]> cl').
Proof.
  intros Hl Hp H1 He. pose proof (dropStale_good l p R cp cl Hl Hp H1 (exact_good _ _ _ He)) as Hg.
  destruct H1 as [Hf Hi Hs Ht], He as [Hcl Hcp].
  destruct (dropStale_spec l p cp cl) as (dl & dp & Heq & Hdl & Hdp). rewrite Heq in *. destruct Hg as [Hgl Hgp].
  split; intros a b; rewrite lookup_insert_Some.
  - split.
    + intros [[<- <-]|[Hne Hab]]; [by left|]. destruct (Hgl a b) as [[-> Hno]|[? _]]; [congruence|done| |done].
      exfalso. assert (R a "") as Hra; [|by eapply Ht]. apply Hcl. destruct dl; [|done]. by apply lookup_delete_Some in Hab as [].
    + intros [[-> ->]|(Hal & Hbp & HR)]; [by left|right]. split; [done|]. destruct dl; [|by apply Hcl].
      apply lookup_delete_Some. split; [|by apply Hcl]. destruct (proj1 Hdl eq_refl) as (_ & _ & Hat).
      intros Ha. rewrite Ha, (table_at_lookup cl a b) in Hat by (by apply Hcl). done.
  - split.
    + intros [[<- <-]|[Hne Hab]]; [by left|]. destruct (Hgp b a) as [[-> Hno]|[? _]]; [congruence|done| |done].
      exfalso. assert (R "" b) as Hra; [|by eapply Hs]. apply Hcp. destruct dp; [|done]. by apply lookup_delete_Some in Hab as [].
    + intros [[-> ->]|(Hal & Hbp & HR)]; [by left|right]. split; [done|]. destruct dp; [|by apply Hcp].
      apply lookup_delete_Some. split; [|by apply Hcp]. destruct (proj1 Hdp eq_refl) as (_ & _ & Hat).
      intros Ha. rewrite Ha, (table_at_lookup cp b a) in Hat by (by apply Hcp). done.
Qed.

(** With room for the whole relation, nothing is evicted. *)
Lemma cacheMapping_exact l p R cp cl :
  l ≠ "" → p ≠ "" → oneToOne R → exact R cp cl →
  (∀ cp' cl', exact (joined l p R) cp' cl' → (len cl' ≤ limit)%Z) →
  let '(cp', cl') := cacheMapping limit firstKey l p (cp, cl) in exact (joined l p R) cp' cl'.
Proof.
  intros Hl Hp H1 He Hroom. rewrite cacheMapping_eq. pose proof (dropStale_exact l p R cp cl Hl Hp H1 He) as He'.
  destruct (dropStale l p (cp, cl)) as [cp1 cl1]. pose proof (Hroom _ _ He') as Hlen.
  pose proof (exact_size _ _ _ He') as Heq.
  assert (∀ k x (c : gmap string string), c !! k = None → len (<[k := x]> c) = (len c + 1)%Z) as Hins.
  { intros k x c Hk. unfold len. rewrite map_size_insert_None by done. lia. }
  assert (makeRoom p cp1 cl1 = (cp1, cl1)) as ->.
  { unfold makeRoom. case_decide as Hd; [|done]. destruct Hd as [Hn ?]. rewrite (Hins p l cp1 Hn) in Heq. lia. }
  assert (makeRoom l cl1 cp1 = (cl1, cp1)) as ->; [|done].
  unfold makeRoom. case_decide as Hd; [|done]. destruct Hd as [Hn ?]. rewrite (Hins l p cl1 Hn) in Hlen. lia.
Qed.

(** ** The invariant *)

Definition rowsR (rs : lidRows) : string → string → Prop := λ l p, rs !! l = Some p.

Record inv (s : CachedLIDMap) : Prop := mkInv {
  inv_rows : oneToOne (rowsR (rows s));
  inv_good : good (rowsR (rows s)) (lidToPNCache s) (pnToLIDCache s);
  inv_len : (len (pnToLIDCache s) ≤ limit)%Z ∧ (len (lidToPNCache s) ≤ limit)%Z;
  inv_filled : cacheFilled s = true → exact (rowsR (rows s)) (pnToLIDCache s) (lidToPNCache s)
}.

Lemma good_ext R R' c r : (∀ a b, R a b ↔ R' a b) → good R c r → good R' c r.
Proof.
  intros HR [Hc Hr]. split.
  - intros a b Hk Hab. rewrite <- HR. destruct (Hc a b Hk Hab) as [[? Hno]|?]; [left|by right].
    split; [done|]. intros b'. by rewrite <- HR.
  - intros b a Hk Hba. unfold flip. rewrite <- HR. destruct (Hr b a Hk Hba) as [[? Hno]|?]; [left|by right].
    split; [done|]. intros a'. rewrite <- HR. apply Hno.
Qed.
Lemma exact_ext R R' cp cl : (∀ a b, R a b ↔ R' a b) → exact R cp cl → exact R' cp cl.
Proof. intros HR [Hl Hp]. split; intros; rewrite <- HR; auto. Qed.
Lemma joined_id l p R a b : oneToOne R → R l p → joined l p R a b ↔ R a b.
Proof. intros [Hf Hi _ _] Hlp. unfold joined. split; [naive_solver|]. intros Hab.
  destruct (decide (a = l)) as [->|], (decide (b = p)) as [->|]; naive_solver. Qed.

Lemma inv_faults s fs b :
  inv s → inv (mkLIDMap (rows s) fs (pnToLIDCache s) (lidToPNCache s) (cacheFilled s && b)).
Proof. intros [H1 H2 H3 H4]. split; cbn; try done. intros [? _]%andb_true_iff. auto. Qed.

Lemma inv_init rs faults : oneToOne (rowsR rs) → inv (NewCachedLIDMap rs faults).
Proof.
  intros H1. split; cbn; [done| |unfold len; rewrite map_size_empty; lia|done].
  split; intros a b _; by rewrite lookup_empty.
Qed.

(** Caching a row of the table. *)
Lemma inv_cacheRow l p s :
  inv s → rows s !! l = Some p → inv (setCaches (cacheMapping limit firstKey l p (cachesOf s)) s).
Proof.
  intros [H1 Hg Hlen Hf] Hlp. pose proof H1 as [_ _ Hs Ht]. destruct Hlen as [Hlen1 Hlen2].
  pose proof (Hs _ _ Hlp) as Hl. pose proof (Ht _ _ Hlp) as Hp.
  pose proof (cacheMapping_good l p _ _ _ Hl Hp H1 Hg) as Hg'.
  pose proof (cacheMapping_len l p _ _ Hlen1 Hlen2) as Hlen'.
  pose proof (λ He, cacheMapping_exact l p _ _ _ Hl Hp H1 (Hf He)) as He'.
  unfold cachesOf. destruct (cacheMapping limit firstKey l p _) as [cp' cl']. split; cbn; [done| |done|].
  - eapply good_ext; [|done]. intros. by apply joined_id.
  - intros Hfl. eapply exact_ext; [intros; by apply (joined_id l p)|]. apply He'; [done|].
    intros cp cl [Hcl _]. assert (cl = lidToPNCache s) as ->; [|done].
    apply map_eq. intros a. apply option_eq. intros b. rewrite Hcl, joined_id by done. symmetry. by apply (Hf Hfl).
Qed.

Lemma inv_cacheRows l : ∀ s,
  inv s → (∀ a b, (a, b) ∈ l → rows s !! a = Some b) →
  let s' := foldl (λ s row, setCaches (cacheMapping limit firstKey row.1 row.2 (cachesOf s)) s) s l in
  inv s' ∧ rows s' = rows s ∧ cacheFilled s' = cacheFilled s ∧ dbFaults s' = dbFaults s.
Proof.
  induction l as [|[a b] l IH]; intros s Hs Hl; cbn; [done|].
  assert (rows s !! a = Some b) as Hab by (apply Hl; by left).
  destruct (IH _ (inv_cacheRow a b s Hs Hab)) as (? & Hr & Hf & Hd); [intros; cbn; apply Hl; by right|].
  split_and!; [done|exact Hr|exact Hf|exact Hd].
Qed.

(** ** Lookups *)

Context (scan : lidRows → list (string * string)) (scan_law : ∀ rs, scan rs ≡ₚ map_to_list rs).

Definition afterFault (s : CachedLIDMap) : CachedLIDMap :=
  mkLIDMap (rows s) (tail (dbFaults s)) (pnToLIDCache s) (lidToPNCache s) (cacheFilled s).

Lemma nextFault_run s : nextFault s = (Ok (default None (head (dbFaults s))), afterFault s).
Proof. destruct s as [rs [|f fs] cp cl fl]; done. Qed.

Lemma inv_afterFault s : inv s → inv (afterFault s).
Proof. intros Hs. pose proof (inv_faults s (tail (dbFaults s)) true Hs) as H. by rewrite andb_true_r in H. Qed.

Lemma query_run P s : ∃ l failed,
  query scan P s = (Ok (l, failed), afterFault s) ∧
  (∀ a b, (a, b) ∈ l → rows s !! a = Some b ∧ P (a, b) = true) ∧
  (failed = false → ∀ a b, rows s !! a = Some b → P (a, b) = true → (a, b) ∈ l) ∧ NoDup l ∧
  (failed = true → dbFaults s ≠ []).
Proof.
  assert (NoDup (scan (rows s))) as Hnd by (rewrite scan_law; apply NoDup_map_to_list).
  assert (∀ a b, (a, b) ∈ scan (rows s) ↔ rows s !! a = Some b) as Hin.
  { intros a b. rewrite scan_law. apply elem_of_map_to_list. }
  assert (∀ x, x ∈ List.filter P (scan (rows s)) ↔ x ∈ scan (rows s) ∧ P x = true) as Hfil.
  { intros x. rewrite !list_elem_of_In. apply filter_In. }
  assert (NoDup (List.filter P (scan (rows s)))) as Hnd'.
  { apply NoDup_ListNoDup, List.NoDup_filter, NoDup_ListNoDup. done. }
  unfold query. unfold mbind, stateM_bind. rewrite nextFault_run. cbn.
  destruct (default None (head (dbFaults s))) as [k|] eqn:Hk; eexists _, _; (split; [reflexivity|]); cbn.
  - split_and!; [|done|by apply (sublist_NoDup _ _ Hnd'), sublist_take|].
    + intros a b Hab. rewrite <- Hin. apply Hfil.
      rewrite <- (take_drop k (List.filter P (scan (rows s)))). apply elem_of_app. by left.
    + intros _ He. by rewrite He in Hk.
  - split_and!; [|intros _ a b Hab HP; apply Hfil; by rewrite Hin|done|done].
    intros a b Hab. rewrite <- Hin. by apply Hfil.
Qed.

(** [j] is the answer for [source]. *)
Definition answers (S : string → string → Prop) (source : JID) (server : string) (j : JID) : Prop :=
  (∃ u, S (User source) u ∧ j = targetJID u source server) ∨ ((∀ u, ¬ S (User source) u) ∧ j = EmptyJID).

(** The relation in the direction of a lookup. *)
Definition towards (toLID : bool) (rs : lidRows) : string → string → Prop :=
  if toLID then flip (rowsR rs) else rowsR rs.
Definition serverOf (toLID : bool) : string := if toLID then HiddenUserServer else DefaultUserServer.

Lemma cached_answer (toLID : bool) s source :
  inv s →
  let c := if toLID then pnToLIDCache s else lidToPNCache s in
  is_Some (c !! User source) ∨ cacheFilled s = true →
  answers (towards toLID (rows s)) source (serverOf toLID)
    (if decide (at_ c (User source) = "") then EmptyJID else targetJID (at_ c (User source)) source (serverOf toLID)).
Proof.
  intros [H1 [Hgl Hgp] _ Hf] c Hc.
  assert (∀ u, c !! User source = Some u → (u = "" ∧ ∀ u', ¬ towards toLID (rows s) (User source) u') ∨
    (u ≠ "" ∧ towards toLID (rows s) (User source) u)) as Hin.
  { intros u Hu. subst c. unfold towards. destruct H1 as [_ _ Hs Ht]. destruct toLID.
    - destruct (Hgp _ _ ltac:(done) Hu) as [?|[HR _]]; [by left|right]. split; [by eapply Hs|done].
    - destruct (Hgl _ _ ltac:(done) Hu) as [?|[HR _]]; [by left|right]. split; [by eapply Ht|done]. }
  destruct (c !! User source) as [u|] eqn:Hu.
  - rewrite (table_at_lookup _ _ _ Hu). destruct (Hin u eq_refl) as [[-> Hno]|[Hne HR]].
    + right. by rewrite decide_True by done.
    + left. exists u. by rewrite decide_False by done.
  - destruct Hc as [[? ?]|Hfill]; [done|]. right. unfold at_. rewrite Hu. split; [|done].
    destruct (Hf Hfill) as [Hl Hp]. intros u HR. subst c. destruct toLID; cbn in HR; unfold flip in HR.
    + apply Hp in HR. congruence.
    + apply Hl in HR. congruence.
Qed.

Lemma inv_miss (toLID : bool) x s :
  inv s → (∀ u, ¬ towards toLID (rows s) x u) → cacheFilled s = false →
  inv (setCaches (if toLID then cacheMiss limit firstKey (pnToLIDCache s) (lidToPNCache s) x
                  else let '(c, r) := cacheMiss limit firstKey (lidToPNCache s) (pnToLIDCache s) x in (r, c)) s).
Proof.
  intros [H1 Hg [Hlp Hll] Hf] Hno Hnf. destruct toLID.
  - pose proof (cacheMiss_good (flip (rowsR (rows s))) _ _ x (oneToOne_flip _ H1) Hno (proj1 (goodBut_flip _ _ _ _ _) Hg)) as [Hg' Hlen].
    destruct (cacheMiss _ _ _ _ _) as [c r]. destruct (Hlen Hlp Hll). split; cbn; [done| |done|congruence].
    by apply goodBut_flip.
  - pose proof (cacheMiss_good (rowsR (rows s)) _ _ x H1 Hno Hg) as [Hg' Hlen].
    destruct (cacheMiss _ _ _ _ _) as [c r]. destruct (Hlen Hll Hlp). split; cbn; [done|done|done|congruence].
Qed.

Lemma getLIDMapping_ok toLID source s r s' :
  inv s → getLIDMapping limit firstKey scan toLID source s = (r, s') →
  inv s' ∧ rows s' = rows s ∧
  ((∃ j, r = Ok j ∧ answers (towards toLID (rows s)) source (serverOf toLID) j) ∨
   (r = Err LIDDriverError ∧ dbFaults s ≠ [])).
Proof.
  intros Hs. unfold getLIDMapping. fold (serverOf toLID). unfold mbind at 1, stateM_bind at 1. cbn [get].
  case_decide as Hc.
  { intros [= <- <-]. split_and!; [done..|left]. eexists. split; [done|]. by apply cached_answer. }
  unfold mbind at 1, stateM_bind at 1.
  destruct (query_run (λ row, bool_decide ((if toLID then row.2 else row.1) = User source)) s)
    as (l & failed & -> & Hl & Hall & _ & Hfl).
  pose proof (inv_afterFault s Hs) as Ha. assert (cacheFilled s = false) as Hnf by (destruct (cacheFilled s); naive_solver).
  destruct failed.
  { intros [= <- <-]. split_and!; [done..|right]. auto. }
  pose proof (inv_rows s Hs) as [_ _ Hsrc Htgt]. unfold mbind, stateM_bind.
  destruct l as [|[a b] l].
  - rewrite decide_True by done. intros [= <- <-].
    assert (∀ u, ¬ towards toLID (rows s) (User source) u) as Hno.
    { intros u Hu. destruct toLID; cbn in Hu.
      - eapply not_elem_of_nil, (Hall eq_refl u (User source)); [done|]. by apply bool_decide_eq_true.
      - eapply not_elem_of_nil, (Hall eq_refl (User source) u); [done|]. by apply bool_decide_eq_true. }
    split_and!; [by apply (inv_miss toLID _ (afterFault s))|done|left]. eexists. split; [done|]. by right.
  - destruct (Hl a b) as [Hab HP%bool_decide_eq_true]; [by left|].
    rewrite decide_False by (destruct toLID; cbn; [by eapply Hsrc|by eapply Htgt]).
    destruct toLID; cbn in HP; subst; intros [= <- <-];
      (split_and!; [by apply (inv_cacheRow _ _ (afterFault s))|done|left]; eexists; split; [done|]; left; eexists; split; [exact Hab|];
       rewrite decide_False by (cbn; first [by eapply Hsrc|by eapply Htgt]); done).
Qed.

(** ** Filling the cache *)

Definition cacheRows (l : list (string * string)) (cs : caches) : caches :=
  foldl (λ cs row, cacheMapping limit firstKey row.1 row.2 cs) cs l.

Lemma foldl_cacheRows l : ∀ s,
  foldl (λ s row, setCaches (cacheMapping limit firstKey row.1 row.2 (cachesOf s)) s) s l =
  setCaches (cacheRows l (cachesOf s)) s.
Proof.
  induction l as [|row l IH]; intros s; [by destruct s|]. cbn [foldl]. rewrite IH. unfold cacheRows. cbn [foldl].
  unfold setCaches, cachesOf. cbn -[cacheMapping]. by destruct (cacheMapping _ _ _ _ _).
Qed.

Lemma scan_run {A} res (fn : string → string → A → A) acc s :
  scanManyLids limit firstKey res fn acc s =
  (Ok (length res.1, foldl (λ acc row, fn row.1 row.2 acc) acc res.1, res.2), setCaches (cacheRows res.1 (cachesOf s)) s).
Proof. unfold scanManyLids. by rewrite foldl_cacheRows. Qed.

Lemma inv_scan l s :
  inv s → (∀ a b, (a, b) ∈ l → rows s !! a = Some b) → inv (setCaches (cacheRows l (cachesOf s)) s).
Proof. intros Hs Hl. rewrite <- foldl_cacheRows. by apply inv_cacheRows. Qed.

Lemma cacheRows_exact l :
  oneToOne (λ a b, (a, b) ∈ l) → NoDup l → (Z.of_nat (length l) ≤ limit)%Z →
  exact (λ a b, (a, b) ∈ l) (cacheRows l (∅, ∅)).1 (cacheRows l (∅, ∅)).2.
Proof.
  induction l as [|[a b] l IH] using rev_ind.
  { intros _ _ _. cbn. split; intros a b; rewrite lookup_empty; (split; [done|intros []%not_elem_of_nil]). }
  intros H1 Hnd Hlen. rewrite length_app in Hlen. cbn in Hlen.
  assert ((a, b) ∉ l) as Hab by (apply NoDup_app in Hnd as (_ & Hnd & _); intros Hin; apply (Hnd _ Hin); by left).
  assert (NoDup l) as Hnd' by (by apply NoDup_app in Hnd as [? _]).
  assert (∀ x, x ∈ (l ++ [(a, b)])%list ↔ x ∈ l ∨ x = (a, b)) as Hin
    by (intros x; by rewrite elem_of_app, list_elem_of_singleton).
  destruct H1 as [Hf Hi Hs Ht].
  assert (oneToOne (λ a b, (a, b) ∈ l)) as H1'.
  { split; intros *; [intros ? ?; eapply Hf|intros ? ?; eapply Hi|intros ?; eapply Hs|intros ?; eapply Ht]; apply Hin; by left. }
  assert (a ≠ "") as Ha by (eapply (Hs a b); apply Hin; by right).
  assert (b ≠ "") as Hb by (eapply (Ht a b); apply Hin; by right).
  assert (∀ x y, joined a b (λ a b, (a, b) ∈ l) x y ↔ (x, y) ∈ (l ++ [(a, b)])%list) as Hj.
  { intros x y. rewrite Hin. unfold joined. split; [naive_solver|]. intros [Hxy|[= -> ->]]; [right|by left].
    split_and!; [| |done].
    - intros ->. assert (y = b) as ->; [|done]. eapply (Hf a); apply Hin; [by left|by right].
    - intros ->. assert (x = a) as ->; [|done]. eapply (Hi x a b); apply Hin; [by left|by right]. }
  unfold cacheRows in *. rewrite foldl_app. cbn [foldl fst snd]. specialize (IH H1' Hnd' ltac:(lia)).
  destruct (foldl _ _ l) as [cp cl]. cbn in IH.
  pose proof (cacheMapping_exact a b _ cp cl Ha Hb H1' IH) as He.
  destruct (cacheMapping _ _ _ _ _) as [cp' cl']. eapply exact_ext; [apply Hj|]. apply He.
  intros cp1 cl1 [Hcl _]. unfold len. rewrite <- length_map_to_list.
  rewrite (Permutation_length (l' := (l ++ [(a, b)])%list)); [rewrite length_app; cbn; lia|].
  apply NoDup_Permutation; [apply NoDup_map_to_list|done|]. intros [x y]. by rewrite elem_of_map_to_list, Hcl, Hj.
Qed.

Lemma FillCache_ok s r s' :
  inv s → FillCache limit firstKey scan s = (r, s') →
  inv s' ∧ rows s' = rows s ∧ (r = Ok tt ∨ (r = Err LIDDriverError ∧ dbFaults s ≠ [])).
Proof.
  intros Hs. unfold FillCache. unfold mbind at 1, stateM_bind at 1. cbn [modify]. set (s0 := setCaches (∅, ∅) s).
  unfold mbind at 1, stateM_bind at 1. destruct (query_run (λ _, true) s0) as (l & failed & -> & Hl & Hall & Hnd & Hfl).
  unfold mbind, stateM_bind. rewrite scan_run. cbn -[cacheRows]. set (cs := cacheRows l (∅, ∅)).
  set (s1 := setFilled _ _). assert (inv s1) as H1.
  { pose proof (inv_scan l (NewCachedLIDMap (rows s) (tail (dbFaults s))) (inv_init _ _ (inv_rows _ Hs))) as [Hr Hg Hlen _];
      [intros a b Hab; by apply Hl|].
    split; cbn -[cacheRows] in *; [done..|]. intros [Hnf%negb_true_iff Hle%Z.leb_le]%andb_true_iff. subst failed.
    assert (∀ a b, (a, b) ∈ l ↔ rowsR (rows s) a b) as Hin.
    { intros a b. split; [intros Hab; by apply Hl|intros Hab; by apply Hall]. }
    eapply exact_ext; [apply Hin|]. apply cacheRows_exact; [|done..]. destruct Hr as [Hf' Hi' Hs' Ht'].
    split; intros *; rewrite !Hin; eauto. }
  destruct failed; intros [= <- <-]; (split_and!; [done|done|]); [right|by left]. split; [done|by apply Hfl].
Qed.

(** ** Storing mappings *)

Definition joinRows (l p : string) (rs : lidRows) : lidRows := <[l := p]> (deleteExistingLIDMappingQuery l p rs).

Lemma joinRows_R l p rs a b : rowsR (joinRows l p rs) a b ↔ joined l p (rowsR rs) a b.
Proof.
  unfold rowsR, joinRows, joined, deleteExistingLIDMappingQuery, conflicting.
  rewrite lookup_insert_Some, map_lookup_filter_Some. cbn. naive_solver.
Qed.

Lemma joinRows_size l p rs : (len (joinRows l p rs) ≤ len rs + 1)%Z.
Proof.
  unfold joinRows. pose proof (len_insert (deleteExistingLIDMappingQuery l p rs) l p) as Hi.
  assert (len (deleteExistingLIDMappingQuery l p rs) ≤ len rs)%Z by (apply len_sub, map_filter_subseteq).
  case_decide; lia.
Qed.

Lemma oneToOne_ext R R' : (∀ a b, R a b ↔ R' a b) → oneToOne R → oneToOne R'.
Proof. intros HR [Hf Hi Hs Ht]. split; intros *; rewrite <- !HR; eauto. Qed.

Lemma putLIDMappingQuery_ok l p rs :
  putLIDMappingQuery l p (deleteExistingLIDMappingQuery l p rs) = Some (joinRows l p rs).
Proof.
  unfold putLIDMappingQuery. rewrite decide_False; [done|].
  intros (a & b & Hab & Hc). apply map_lookup_filter_Some in Hab as [_ Hab]. done.
Qed.

Definition faultless (s : CachedLIDMap) : Prop := Forall (λ f, f = None) (dbFaults s).

Lemma faultless_after s rs cs : faultless s → faultless (setCaches cs (setRows rs (afterFault s))).
Proof. unfold faultless, afterFault. cbn. destruct (dbFaults s); [done|]. cbn. by intros [_ ?]%Forall_cons. Qed.

Lemma faultless_afterFault s : faultless s → faultless (afterFault s).
Proof. intros Hs. apply (faultless_after s (rows s) (cachesOf s) Hs). Qed.

(** The next statement works. *)
Definition works (s : CachedLIDMap) : Prop := default None (head (dbFaults s)) = None.

Lemma faultless_works s : faultless s → works s.
Proof. unfold faultless, works. destruct (dbFaults s); [done|]. by intros [-> _]%Forall_cons. Qed.

Lemma exec_run f rs s : works s → f (rows s) = Some rs → exec f s = (Ok tt, setRows rs (afterFault s)).
Proof. intros Hs Hf. unfold exec. unfold mbind, stateM_bind. rewrite nextFault_run, Hs. cbn. by rewrite Hf. Qed.

Definition validPair (lid pn : JID) : Prop := Server lid = HiddenUserServer ∧ Server pn = DefaultUserServer.

Lemma unlockedPut_run lid pn s :
  works s → works (afterFault s) → validPair lid pn →
  unlockedPutLIDMapping limit firstKey lid pn s =
  (Ok tt, setCaches (cacheMapping limit firstKey (User lid) (User pn) (cachesOf s))
            (setRows (joinRows (User lid) (User pn) (rows s)) (afterFault (afterFault s)))).
Proof.
  intros Hf Hf' [Hsl Hsp]. unfold unlockedPutLIDMapping. rewrite decide_False by naive_solver.
  unfold mbind, stateM_bind.
  rewrite (exec_run _ (deleteExistingLIDMappingQuery (User lid) (User pn) (rows s))) by done.
  by rewrite (exec_run _ (joinRows (User lid) (User pn) (rows s))) by (done || apply putLIDMappingQuery_ok).
Qed.

Lemma unlockedPut_ok lid pn s :
  inv s → faultless s → validPair lid pn → User lid ≠ "" → User pn ≠ "" →
  (cacheFilled s = true → (len (joinRows (User lid) (User pn) (rows s)) ≤ limit)%Z) →
  ∃ s', unlockedPutLIDMapping limit firstKey lid pn s = (Ok tt, s') ∧ inv s' ∧ faultless s' ∧
    rows s' = joinRows (User lid) (User pn) (rows s) ∧ cacheFilled s' = cacheFilled s.
Proof.
  intros Hs Hf Hv Hl Hp Hroom. rewrite (unlockedPut_run lid pn s (faultless_works _ Hf) (faultless_works _ (faultless_afterFault _ Hf)) Hv).
  set (l := User lid) in *. set (p := User pn) in *.
  eexists. split; [reflexivity|]. cbn -[joinRows cacheMapping].
  split; [|split_and!; [|done|done]];
    [|exact (faultless_afterFault _ (faultless_afterFault s Hf))].
  destruct Hs as [H1 Hg [Hlp Hll] Hfill].
  pose proof (cacheMapping_good l p _ _ _ Hl Hp H1 Hg) as Hg'. pose proof (cacheMapping_len l p _ _ Hlp Hll) as Hlen'.
  pose proof (λ He, cacheMapping_exact l p _ _ _ Hl Hp H1 (Hfill He)) as He'.
  assert (∀ a b, joined l p (rowsR (rows s)) a b ↔ rowsR (joinRows l p (rows s)) a b) as Hj by (intros; by rewrite joinRows_R).
  unfold cachesOf. cbn -[joinRows cacheMapping]. destruct (cacheMapping limit firstKey l p _) as [cp' cl'].
  split; cbn -[joinRows]; [by eapply oneToOne_ext; [apply Hj|apply joined_oneToOne]|by eapply good_ext|done|].
  intros Hfl. eapply exact_ext; [apply Hj|]. apply He'; [done|]. intros cp cl [Hcl _].
  assert (cl = joinRows l p (rows s)) as ->; [|by apply Hroom].
  apply map_eq. intros a. apply option_eq. intros b. by rewrite Hcl, Hj.
Qed.

Lemma doTxn_ok (m : lidM unit) s s' :
  faultless s → m (afterFault s) = (Ok tt, s') → faultless s' →
  doTxn m s = (Ok tt, afterFault s').
Proof.
  intros Hs Hm Hs'. unfold doTxn, mbind, stateM_bind. rewrite (exec_run Some (rows s) s (faultless_works _ Hs) eq_refl).
  replace (setRows (rows s) (afterFault s)) with (afterFault s) by done. rewrite Hm.
  by rewrite (exec_run Some (rows s') s' (faultless_works _ Hs') eq_refl).
Qed.

Lemma PutLIDMapping_run lid pn s :
  faultless s → validPair lid pn → pnToLIDCache s !! User pn ≠ Some (User lid) →
  ∃ s', PutLIDMapping limit firstKey lid pn s = (Ok tt, s') ∧ faultless s' ∧
    rows s' = joinRows (User lid) (User pn) (rows s) ∧ cacheFilled s' = cacheFilled s ∧
    cachesOf s' = cacheMapping limit firstKey (User lid) (User pn) (cachesOf s).
Proof.
  intros Hf Hv Hc. pose proof Hv as [Hsl Hsp]. unfold PutLIDMapping. rewrite decide_False by naive_solver.
  unfold mbind, stateM_bind. cbn [get]. rewrite decide_False by done.
  rewrite (doTxn_ok _ _ _ Hf (unlockedPut_run lid pn (afterFault s) (faultless_works _ (faultless_afterFault _ Hf))
    (faultless_works _ (faultless_afterFault _ (faultless_afterFault _ Hf))) Hv)).
  - eexists. split; [reflexivity|]. split_and!; [|done|done|by unfold cachesOf; cbn -[cacheMapping]; destruct (cacheMapping _ _ _ _ _)].
    exact (faultless_afterFault _ (faultless_afterFault _ (faultless_afterFault _ (faultless_afterFault s Hf)))).
  - exact (faultless_afterFault _ (faultless_afterFault _ (faultless_afterFault s Hf))).
Qed.

Lemma PutLIDMapping_ok lid pn s :
  inv s → faultless s → validPair lid pn → User lid ≠ "" → User pn ≠ "" →
  (cacheFilled s = true → (len (rows s) + 1 ≤ limit)%Z) →
  ∃ s', PutLIDMapping limit firstKey lid pn s = (Ok tt, s') ∧ inv s' ∧ faultless s' ∧
    ∀ a b, rowsR (rows s') a b ↔ joined (User lid) (User pn) (rowsR (rows s)) a b.
Proof.
  intros Hs Hf Hv Hl Hp Hroom. pose proof Hv as [Hsl Hsp]. unfold PutLIDMapping. rewrite decide_False by naive_solver.
  unfold mbind, stateM_bind. cbn [get]. case_decide as Hc.
  - exists s. split_and!; [done..|]. intros a b. destruct Hs as [H1 [_ Hgp] _ _].
    rewrite joined_id; [done|done|]. destruct (Hgp _ _ ltac:(done) Hc) as [[? _]|[HR _]]; done.
  - destruct (unlockedPut_ok lid pn (afterFault s)) as (s' & Hm & Hi & Hfl & Hr & Hfc); [by apply inv_afterFault|
      by apply faultless_afterFault|done..| |].
    { intros Hfl. cbn -[joinRows]. pose proof (joinRows_size (User lid) (User pn) (rows s)). specialize (Hroom Hfl). lia. }
    rewrite (doTxn_ok _ _ s' Hf Hm Hfl). eexists. split_and!; [done|by apply inv_afterFault|by apply faultless_afterFault|].
    intros a b. cbn. rewrite Hr. apply joinRows_R.
Qed.

(** The relation after many mappings that do not contradict each other. *)
Definition joinedAll (ms : list (string * string)) (R : string → string → Prop) : string → string → Prop :=
  λ a b, (a, b) ∈ ms ∨ (R a b ∧ (∀ p, (a, p) ∉ ms) ∧ (∀ l, (l, b) ∉ ms)).

Lemma joinedAll_cons l p ms R a b :
  oneToOne (λ a b, (a, b) ∈ (l, p) :: ms) →
  joinedAll ((l, p) :: ms) R a b ↔ joinedAll ms (joined l p R) a b.
Proof.
  intros [Hf Hi _ _]. unfold joinedAll, joined. setoid_rewrite elem_of_cons.
  assert (∀ p', (l, p') ∈ ms → p' = p) as H1 by (intros p' Hp'; apply (Hf l); [by right|by left]).
  assert (∀ l', (l', p) ∈ ms → l' = l) as H2 by (intros l' Hl'; apply (Hi l' l p); [by right|by left]).
  split.
  - intros [[[= -> ->]|Hin]|(HR & Ha & Hb)]; [|by left|].
    + destruct (decide ((l, p) ∈ ms)) as [?|Hn]; [by left|right]. split_and!; [by left| |].
      * intros p' Hp'. by rewrite (H1 _ Hp') in Hp'.
      * intros l' Hl'. by rewrite (H2 _ Hl') in Hl'.
    + right. split_and!; [right; split_and!; [intros ->; apply (Ha p); by left|intros ->; apply (Hb l); by left|done]|naive_solver..].
  - intros [Hin|([[-> ->]|(Hal & Hbp & HR)] & Ha & Hb)]; [left; by right|left; by left|right].
    split_and!; [done|intros p' [[= -> ->]|?]; [done|by apply (Ha p')]|intros l' [[= -> ->]|?]; [done|by apply (Hb l')]].
Qed.

Definition pairsOf (ms : list LIDMapping) : list (string * string) := (λ m, (User (mLID m), User (mPN m))) <$> ms.
Definition validMapping (m : LIDMapping) : Prop := validPair (mLID m) (mPN m).
#[local] Instance validMapping_dec m : Decision (validMapping m).
Proof. unfold validMapping, validPair. apply _. Defined.

Lemma oneToOne_sub R R' : (∀ a b, R' a b → R a b) → oneToOne R → oneToOne R'.
Proof. intros HR [Hf Hi Hs Ht]. split; intros *; [intros ? ?; eapply Hf|intros ? ?; eapply Hi|intros ?; eapply Hs|intros ?; eapply Ht]; eauto. Qed.

Lemma putMappings_ok ms : ∀ s,
  inv s → faultless s → Forall validMapping ms → oneToOne (λ a b, (a, b) ∈ pairsOf ms) →
  (cacheFilled s = true → (len (rows s) + Z.of_nat (length ms) ≤ limit)%Z) →
  ∃ s', putMappings limit firstKey ms s = (Ok tt, s') ∧ inv s' ∧ faultless s' ∧
    ∀ a b, rowsR (rows s') a b ↔ joinedAll (pairsOf ms) (rowsR (rows s)) a b.
Proof.
  induction ms as [|m ms IH]; intros s Hs Hf Hv H1 Hroom.
  { exists s. split_and!; [done..|]. intros a b. unfold joinedAll. cbn. setoid_rewrite elem_of_nil. naive_solver. }
  apply Forall_cons in Hv as [Hm Hv]. cbn [putMappings pairsOf fmap list_fmap length] in *.
  pose proof (joinRows_size (User (mLID m)) (User (mPN m)) (rows s)) as Hsz.
  destruct (unlockedPut_ok (mLID m) (mPN m) s Hs Hf Hm) as (s1 & Hr1 & Hi1 & Hf1 & Hrows & Hfc).
  - eapply (oto_src _ H1 _ (User (mPN m))). by left.
  - eapply (oto_tgt _ H1 (User (mLID m))). by left.
  - intros Hfl. specialize (Hroom Hfl). lia.
  - unfold mbind, stateM_bind. rewrite Hr1.
    destruct (IH s1 Hi1 Hf1 Hv) as (s' & Hr & Hi & Hf' & Hrel).
    + eapply oneToOne_sub; [|done]. intros a b Hab. by right.
    + rewrite Hfc, Hrows. intros Hfl. specialize (Hroom Hfl). lia.
    + exists s'. split_and!; [done..|]. intros a b. rewrite Hrel, joinedAll_cons by done.
      unfold joinedAll. rewrite Hrows, joinRows_R. done.
Qed.

(** ** Batch lookups *)

(** Every entry of a batch result is right; every JID that has an answer has one. *)
Definition sound (toLID : bool) (rs : lidRows) (js : list JID) (m : jidMap) : Prop :=
  ∀ j t, m j = Some t → j ∈ js ∧ Server j = serverOf (negb toLID) ∧ towards toLID rs (User j) (User t) ∧
    Device t = Device j ∧ Server t = serverOf toLID.
Definition complete (toLID : bool) (rs : lidRows) (js : list JID) (m : jidMap) : Prop :=
  ∀ j u, j ∈ js → Server j = serverOf (negb toLID) → towards toLID rs (User j) u → is_Some (m j).

Lemma put_mono k v (m : jidMap) j : is_Some (m j) → is_Some (put k v m j).
Proof. unfold put. by case_decide. Qed.
Lemma put_Some k v (m : jidMap) j t : put k v m j = Some t → (j = k ∧ t = v) ∨ m j = Some t.
Proof. unfold put. case_decide; naive_solver. Qed.

Lemma putDevices_lookup missing from to server result j :
  putDevices missing from to server result j =
  if decide (j ∈ missing ∧ User j = from) then Some (withUser j to server) else result j.
Proof.
  unfold putDevices. revert result. induction missing as [|d missing IH]; intros result; cbn.
  { rewrite decide_False; [done|]. by intros [[]%not_elem_of_nil _]. }
  rewrite IH. destruct (decide (j ∈ missing ∧ User j = from)) as [[Hj Hu]|Hn].
  { rewrite decide_True; [done|]. split; [by right|done]. }
  destruct (decide (User d = from)) as [Hd|Hd].
  - unfold put. destruct (decide (j = d)) as [->|Hjd]; [by rewrite decide_True by (split; [by left|done])|].
    rewrite decide_False; [done|]. intros [[->|Hj]%elem_of_cons ?]; naive_solver.
  - rewrite decide_False; [done|]. intros [[->|Hj]%elem_of_cons ?]; naive_solver.
Qed.

(** The rows of a query handed to the devices that asked. *)
Lemma foldDevices {A} (src tgt : A → string) missing server l : ∀ result : jidMap,
  let result' := foldl (λ acc row, putDevices missing (src row) (tgt row) server acc) result l in
  (∀ j t, result' j = Some t → result j = Some t ∨
     ∃ row, row ∈ l ∧ j ∈ missing ∧ User j = src row ∧ t = withUser j (tgt row) server) ∧
  (∀ j, is_Some (result j) → is_Some (result' j)) ∧
  (∀ row j, row ∈ l → j ∈ missing → User j = src row → is_Some (result' j)).
Proof.
  induction l as [|x l IH]; intros result; cbn.
  { split_and!; [auto|done|]. by intros row j []%not_elem_of_nil. }
  destruct (IH (putDevices missing (src x) (tgt x) server result)) as (H1 & H2 & H3). cbn in *. split_and!.
  - intros j t Hj. destruct (H1 j t Hj) as [Hput|(row & ? & ?)]; [|right; exists row; split; [by right|done]].
    rewrite putDevices_lookup in Hput. case_decide as Hd; [|by left]. right. exists x. destruct Hd. split_and!; [by left|done..|congruence].
  - intros j Hj. apply H2. rewrite putDevices_lookup. by case_decide.
  - intros row j [->|Hrow]%elem_of_cons Hj Hu; [|by eapply H3]. apply H2. rewrite putDevices_lookup. by rewrite decide_True.
Qed.

Lemma cachedLIDs_ok s js : inv s → ∀ pns result missing result' missing',
  cachedLIDs s pns result missing = (result', missing') →
  (∀ j, j ∈ pns → j ∈ js) → sound true (rows s) js result →
  (∀ j, j ∈ missing → j ∈ js ∧ Server j = DefaultUserServer) →
  sound true (rows s) js result' ∧ (∀ j, is_Some (result j) → is_Some (result' j)) ∧
  (∀ j, j ∈ missing' → j ∈ js ∧ Server j = DefaultUserServer) ∧ (∀ j, j ∈ missing → j ∈ missing') ∧
  (∀ j u, j ∈ pns → Server j = DefaultUserServer → rows s !! u = Some (User j) → is_Some (result' j) ∨ j ∈ missing').
Proof.
  intros Hs. pose proof Hs as [H1 [_ Hgp] _ Hf]. induction pns as [|pn pns IH]; intros result missing result' missing' Hr Hjs Hsnd Hm.
  { injection Hr as <- <-. split_and!; auto. by intros j u []%not_elem_of_nil. }
  cbn in Hr. assert (∀ j, j ∈ pns → j ∈ js) as Hjs' by (intros; apply Hjs; by right).
  case_decide as Hsrv.
  { destruct (IH _ _ _ _ Hr Hjs' Hsnd Hm) as (? & ? & ? & ? & Hc). split_and!; [done..|].
    intros j u [->|Hj]%elem_of_cons ?; [done|]. by apply Hc. }
  case_decide as Hat.
  - set (tgt := at_ (pnToLIDCache s) (User pn)) in *.
    apply IH in Hr as (? & Hmono & ? & ? & Hc); [|done| |done].
    + split_and!; [done|intros; apply Hmono; by apply put_mono|done|done|].
      intros j u [->|Hj]%elem_of_cons ? ?; [left|by eapply Hc]. apply Hmono. unfold put. by rewrite decide_True.
    + intros j t [[-> ->]|Hjt]%put_Some; [|by apply Hsnd]. split_and!; [apply Hjs; by left|done| |done|done].
      pose proof (at_Some _ _ tgt eq_refl Hat) as Hcp. destruct (Hgp _ _ ltac:(done) Hcp) as [[? _]|[HR _]]; done.
  - apply IH in Hr as (? & ? & ? & Hmm & Hc); [|done|done|].
    + split_and!; [done|done|done| |].
      * intros j Hj. apply Hmm. destruct (cacheFilled s); [done|]. apply elem_of_app. by left.
      * intros j u [->|Hj]%elem_of_cons ? Hu; [right|by eapply Hc]. apply Hmm. destruct (cacheFilled s) eqn:Hfl.
        -- destruct (Hf eq_refl) as [_ Hp]. rewrite (table_at_lookup _ (User pn) u) in Hat by (by apply Hp). by eapply (oto_src _ H1) in Hu.
        -- apply elem_of_app. right. by apply list_elem_of_singleton.
    + intros j. destruct (cacheFilled s); [apply Hm|]. intros [?|Hj%list_elem_of_singleton]%elem_of_app; [by apply Hm|subst j].
      split; [|done]. apply Hjs. by left.
Qed.

Lemma GetManyLIDs_ok pns s r s' :
  inv s → GetManyLIDsForPNs limit firstKey scan pns s = (r, s') →
  inv s' ∧ rows s' = rows s ∧ ∃ m failed, r = Ok (m, failed) ∧ sound true (rows s) pns m ∧
    (failed = false → complete true (rows s) pns m) ∧ (failed = true → dbFaults s ≠ []).
Proof.
  intros Hs. unfold GetManyLIDsForPNs. unfold mbind at 1, stateM_bind at 1. cbn [get].
  destruct (cachedLIDs s pns (λ _, None) []) as [result missing] eqn:Hc.
  apply (cachedLIDs_ok s pns Hs) in Hc as (Hsnd & _ & Hmis & _ & Hcomp); [|done|done|by intros ? []%not_elem_of_nil].
  destruct missing as [|m0 ms] eqn:Hme.
  { intros [= <- <-]. split_and!; [done..|]. eexists _, _. split_and!; [done|done| |done].
    intros _ j u Hj Hsrv Hu. destruct (Hcomp j u Hj Hsrv Hu) as [?|[]%not_elem_of_nil]; done. }
  rewrite <- Hme in *. clear Hme. unfold mbind at 1, stateM_bind at 1.
  destruct (query_run (λ row, bool_decide (row.2 ∈ (User <$> missing))) s) as (l & failed & -> & Hl & Hall & _ & Hfl).
  unfold mbind, stateM_bind. rewrite scan_run. cbn -[cacheRows foldl fmap]. intros [= <- <-].
  split_and!; [apply (inv_scan l (afterFault s)); [by apply inv_afterFault|intros a b Hab; by apply Hl]|done|].
  destruct (foldDevices snd fst missing HiddenUserServer l result) as (F1 & F2 & F3). cbn -[foldl] in *.
  eexists _, _. split_and!; [done| | |done].
  - intros j t Hj. destruct (F1 j t Hj) as [?|([a b] & Hab & Hj' & Hu & ->)]; [by apply Hsnd|].
    destruct (Hmis j Hj') as [? ?]. split_and!; [done|done| |done|done]. cbn in *. rewrite Hu. by apply Hl.
  - intros -> j u Hj Hsrv Hu. destruct (Hcomp j u Hj Hsrv Hu) as [?|Hm]; [by apply F2|].
    apply (F3 (u, User j)); [|done|done]. apply Hall; [done|done|]. apply bool_decide_eq_true. apply list_elem_of_fmap. by exists j.
Qed.

Definition unknown (s : CachedLIDMap) (js : list JID) (j : JID) : Prop :=
  j ∈ js ∧ Server j = HiddenUserServer ∧ lidToPNCache s !! User j = None ∧ cacheFilled s = false.

Lemma cachedPNs_ok s js : inv s → ∀ lids result missing result' missing',
  cachedPNs s lids result missing = (result', missing') →
  (∀ j, j ∈ lids → j ∈ js) → sound false (rows s) js result → (∀ j, j ∈ missing → unknown s js j) →
  sound false (rows s) js result' ∧ (∀ j, is_Some (result j) → is_Some (result' j)) ∧
  (∀ j, j ∈ missing' → unknown s js j) ∧ (∀ j, j ∈ missing → j ∈ missing') ∧
  (∀ j u, j ∈ lids → Server j = HiddenUserServer → rows s !! User j = Some u → is_Some (result' j) ∨ j ∈ missing').
Proof.
  intros Hs. pose proof Hs as [H1 [Hgl _] _ Hf]. induction lids as [|lid lids IH]; intros result missing result' missing' Hr Hjs Hsnd Hm.
  { injection Hr as <- <-. split_and!; auto. by intros j u []%not_elem_of_nil. }
  cbn in Hr. assert (∀ j, j ∈ lids → j ∈ js) as Hjs' by (intros; apply Hjs; by right).
  case_decide as Hsrv.
  { destruct (IH _ _ _ _ Hr Hjs' Hsnd Hm) as (? & ? & ? & ? & Hc). split_and!; [done..|].
    intros j u [->|Hj]%elem_of_cons ?; [done|]. by apply Hc. }
  destruct (lidToPNCache s !! User lid) as [pnUser|] eqn:Hcl.
  - destruct (Hgl _ _ ltac:(done) Hcl) as [[-> Hno]|[HR _]].
    + rewrite decide_False in Hr by tauto. destruct (IH _ _ _ _ Hr Hjs' Hsnd Hm) as (? & ? & ? & ? & Hc). split_and!; [done..|].
      intros j u [->|Hj]%elem_of_cons ? Hu; [by destruct (Hno u)|]. by eapply Hc.
    + rewrite decide_True in Hr by (by eapply (oto_tgt _ H1)). apply IH in Hr as (? & Hmono & ? & ? & Hc); [|done| |done].
      * split_and!; [done|intros; apply Hmono; by apply put_mono|done|done|].
        intros j u [->|Hj]%elem_of_cons ? ?; [left|by eapply Hc]. apply Hmono. unfold put. by rewrite decide_True.
      * intros j t [[-> ->]|Hjt]%put_Some; [|by apply Hsnd]. split_and!; [apply Hjs; by left|done..].
  - apply IH in Hr as (? & ? & ? & Hmm & Hc); [|done|done|].
    + split_and!; [done|done|done| |].
      * intros j Hj. apply Hmm. destruct (cacheFilled s); [done|]. apply elem_of_app. by left.
      * intros j u [->|Hj]%elem_of_cons ? Hu; [right|by eapply Hc]. apply Hmm. destruct (cacheFilled s) eqn:Hfl.
        -- destruct (Hf eq_refl) as [Hl _]. apply Hl in Hu. congruence.
        -- apply elem_of_app. right. by apply list_elem_of_singleton.
    + intros j. destruct (cacheFilled s) eqn:Hfl; [apply Hm|].
      intros [?|Hj%list_elem_of_singleton]%elem_of_app; [by apply Hm|subst j].
      split_and!; [apply Hjs; by left|done..].
Qed.

Lemma firsts_elem l : ∀ seen x, x ∈ firsts l seen ↔ x ∈ l ∧ x ∉ seen.
Proof.
  induction l as [|y l IH]; intros seen x; cbn; [split; [by intros []%not_elem_of_nil|by intros [[]%not_elem_of_nil _]]|].
  case_decide as Hy; [|rewrite elem_of_cons]; rewrite IH; rewrite ?elem_of_cons.
  - naive_solver.
  - destruct (decide (x = y)) as [->|]; naive_solver.
Qed.

Lemma recheckPNs_id s missing users : ∀ result left,
  cacheFilled s = false → (∀ u, u ∈ users → lidToPNCache s !! u = None) →
  recheckPNs s missing users result left = (result, (left ++ users)%list).
Proof.
  induction users as [|u users IH]; intros result left Hf Hu; cbn; [by rewrite app_nil_r|].
  rewrite Hu by by left. rewrite IH, Hf; [|done|intros; apply Hu; by right]. by rewrite <- (assoc_L app).
Qed.

Lemma fold_found missing server (l : list (string * string)) : ∀ found result,
  foldl (λ acc row, let '(found, result) := acc in (row.1 :: found, putDevices missing row.1 row.2 server result))
    (found, result) l =
  (rev (fst <$> l) ++ found, foldl (λ acc row, putDevices missing row.1 row.2 server acc) result l)%list.
Proof.
  induction l as [|row l IH]; intros found result; [done|]. cbn [foldl fmap list_fmap rev]. rewrite IH.
  by rewrite <- (assoc_L app).
Qed.

(** All queries of a batch lookup. *)
Lemma queryPNs_ok missing batches : ∀ s found result,
  inv s → ∃ found' result' failed s',
  queryPNs limit firstKey scan missing batches found result s = (Ok (found', result', failed), s') ∧
  inv s' ∧ rows s' = rows s ∧ cacheFilled s' = cacheFilled s ∧ (failed = true → dbFaults s ≠ []) ∧
  (∀ j t, result' j = Some t → result j = Some t ∨
     ∃ p, rows s !! User j = Some p ∧ j ∈ missing ∧ t = withUser j p DefaultUserServer) ∧
  (∀ j, is_Some (result j) → is_Some (result' j)) ∧ (∀ x, x ∈ found → x ∈ found') ∧
  (failed = false → ∀ l p, l ∈ concat batches → rows s !! l = Some p →
     l ∈ found' ∧ ∀ j, j ∈ missing → User j = l → is_Some (result' j)).
Proof.
  induction batches as [|b batches IH]; intros s found result Hs; cbn [queryPNs].
  { eexists _, _, _, _. split; [reflexivity|]. split_and!; auto; [done..|]. by intros _ l p []%not_elem_of_nil. }
  unfold mbind at 1, stateM_bind at 1.
  destruct (query_run (λ row, bool_decide (row.1 ∈ b)) s) as (l & failed & -> & Hl & Hall & _ & Hfl).
  unfold mbind, stateM_bind. rewrite scan_run. cbn -[cacheRows foldl]. rewrite fold_found.
  set (s1 := setCaches _ _). assert (inv s1) as Hs1.
  { apply (inv_scan l (afterFault s)); [by apply inv_afterFault|intros a p Hab; by apply Hl]. }
  destruct (foldDevices fst snd missing DefaultUserServer l result) as (F1 & F2 & F3). cbn -[foldl] in F1, F2, F3.
  set (result1 := foldl _ result l) in *. set (found1 := (rev (fst <$> l) ++ found)%list).
  assert (∀ j t, result1 j = Some t → result j = Some t ∨
     ∃ p, rows s !! User j = Some p ∧ j ∈ missing ∧ t = withUser j p DefaultUserServer) as G1.
  { intros j t Hj. destruct (F1 j t Hj) as [?|([a p] & Hin & ? & Hu & ->)]; [by left|right]. exists p. cbn in *. rewrite Hu.
    split_and!; [by apply Hl|done..]. }
  assert (∀ x, x ∈ found → x ∈ found1) as G2 by (intros; apply elem_of_app; by right).
  destruct failed.
  { eexists _, _, _, _. split; [reflexivity|]. by split_and!. }
  destruct (IH s1 found1 result1 Hs1) as (found' & result' & failed' & s' & Hr & Hi & Hrows & Hfil & Hflt & K1 & K2 & K3 & K4).
  exists found', result', failed', s'. split; [exact Hr|]. cbn in Hrows, Hfil, Hflt, K1, K4.
  split_and!; [done|done|done| | |auto|auto|].
  - intros Hft. specialize (Hflt Hft). by destruct (dbFaults s).
  - intros j t Hj. destruct (K1 j t Hj) as [Hj1|?]; [by apply G1|by right].
  - intros Hft x p [Hx|Hx]%elem_of_app Hxp; [|by eapply K4].
    assert ((x, p) ∈ l) as Hin by (apply Hall; [done|done|by apply bool_decide_eq_true]). split.
    + apply K3, elem_of_app. left. apply list_elem_of_In. rewrite <- in_rev. apply list_elem_of_In, list_elem_of_fmap. by exists (x, p).
    + intros j Hj Hu. by apply K2, (F3 (x, p)).
Qed.

Lemma missAll_ok lids : ∀ s,
  inv s → cacheFilled s = false → (∀ l, l ∈ lids → rows s !! l = None) →
  ∃ s', missAll limit firstKey lids s = (Ok tt, s') ∧ inv s' ∧ rows s' = rows s.
Proof.
  induction lids as [|l lids IH]; intros s Hs Hf Hl; cbn [missAll]; [by exists s|].
  unfold mbind, stateM_bind, modify. set (s1 := setCaches _ s).
  assert (inv s1) as Hs1.
  { apply (inv_miss false l s Hs); [|done]. intros u Hu. cbn in Hu. unfold rowsR in Hu.
    rewrite Hl in Hu by by left. done. }
  destruct (IH s1 Hs1 Hf) as (s' & Hr & ? & ?); [intros; apply Hl; by right|]. by exists s'.
Qed.

Context (postgres : bool).

Lemma GetManyPNs_ok lids s r s' :
  inv s → GetManyPNsForLIDs limit firstKey scan postgres lids s = (r, s') →
  inv s' ∧ rows s' = rows s ∧ ∃ m failed, r = Ok (m, failed) ∧ sound false (rows s) lids m ∧
    (failed = false → complete false (rows s) lids m) ∧ (failed = true → dbFaults s ≠ []).
Proof.
  intros Hs. unfold GetManyPNsForLIDs. unfold mbind at 1, stateM_bind at 1. cbn [get].
  destruct (cachedPNs s lids (λ _, None) []) as [result missing] eqn:Hc.
  apply (cachedPNs_ok s lids Hs) in Hc as (Hsnd & _ & Hmis & _ & Hcomp); [|done|done|by intros ? []%not_elem_of_nil].
  assert (∀ u, u ∈ firsts (User <$> missing) [] ↔ u ∈ (User <$> missing)) as Hus.
  { intros u. rewrite firsts_elem. split; [by intros [? _]|]. split; [done|]. apply not_elem_of_nil. }
  destruct (firsts (User <$> missing) []) as [|u0 us] eqn:Hue.
  { intros [= <- <-]. split_and!; [done..|]. eexists _, _. split_and!; [done|done| |done].
    intros _ j u Hj Hsrv Hu. destruct (Hcomp j u Hj Hsrv Hu) as [?|Hm]; [done|].
    destruct (not_elem_of_nil (User j)). apply Hus, list_elem_of_fmap. by exists j. }
  unfold mbind at 1, stateM_bind at 1. cbn [get]. set (users := u0 :: us) in *.
  assert (∀ u, u ∈ users → lidToPNCache s !! u = None ∧ cacheFilled s = false) as Hun.
  { intros u (j & -> & Hj)%Hus%list_elem_of_fmap. by destruct (Hmis j Hj) as (_ & _ & ? & ?). }
  assert (cacheFilled s = false) as Hnf by (apply (Hun u0); by left).
  rewrite recheckPNs_id by (done || intros; by apply Hun). cbn [app]. unfold users at 1. fold users.
  unfold mbind at 1, stateM_bind at 1. set (batches := if postgres then [users] else _).
  assert (concat batches = users) as Hcat.
  { subst batches. destruct postgres; [apply app_nil_r|]. apply concat_chunk; unfold lidQueryBatchSize; lia. }
  destruct (queryPNs_ok missing batches s [] result Hs) as (found & result1 & failed & s1 & -> & Hi & Hrows & Hfil & Hflt & K1 & K2 & _ & K4).
  rewrite Hcat in K4.
  assert (sound false (rows s) lids result1) as Hsnd1.
  { intros j t Hj. destruct (K1 j t Hj) as [?|(p & Hp & Hm & ->)]; [by apply Hsnd|]. destruct (Hmis j Hm) as (? & ? & _).
    by split_and!. }
  destruct failed.
  { intros [= <- <-]. split_and!; [done..|]. eexists _, _. split_and!; [done..|]. auto. }
  unfold mbind, stateM_bind. destruct (missAll_ok (List.filter (λ lid, bool_decide (lid ∉ found)) users) s1 Hi) as (s2 & -> & Hi2 & Hr2).
  - congruence.
  - intros l [Hl Hnf'%bool_decide_eq_true]%list_elem_of_In%filter_In. apply list_elem_of_In in Hl. rewrite Hrows.
    destruct (rows s !! l) as [p|] eqn:Hlp; [|done]. by destruct (K4 eq_refl l p Hl Hlp).
  - intros [= <- <-]. split_and!; [done|congruence|]. eexists _, _. split_and!; [done|done| |done].
    intros _ j u Hj Hsrv Hu. destruct (Hcomp j u Hj Hsrv Hu) as [?|Hm]; [by apply K2|].
    destruct (K4 eq_refl (User j) u) as [_ HK]; [apply Hus, list_elem_of_fmap; by exists j|done|]. by apply HK.
Qed.
(** ** Storing many mappings *)

Context (dedup : list LIDMapping → list LIDMapping).
Context (dedup_elem : ∀ l x, x ∈ dedup l ↔ x ∈ l) (dedup_length : ∀ l, (length (dedup l) ≤ length l)%nat).

Lemma keepMapping_spec s m :
  keepMapping s m = true ↔ validMapping m ∧ pnToLIDCache s !! User (mPN m) ≠ Some (User (mLID m)).
Proof.
  unfold keepMapping, validMapping, validPair. rewrite andb_true_iff, !negb_true_iff, !bool_decide_eq_false.
  destruct (decide (Server (mLID m) = HiddenUserServer)), (decide (Server (mPN m) = DefaultUserServer)); naive_solver.
Qed.

(** Leaving out mappings that the relation has already changes nothing. *)
Lemma joinedAll_skip ks ms R a b :
  oneToOne R → oneToOne (λ a b, (a, b) ∈ ms) → (∀ x, x ∈ ks → x ∈ ms) → (∀ x, x ∈ ms → x ∈ ks ∨ R x.1 x.2) →
  joinedAll ks R a b ↔ joinedAll ms R a b.
Proof.
  intros [HRf HRi _ _] [Hf Hi _ _] Hsub Hrest. unfold joinedAll. split.
  - intros [?|(HR & Ha & Hb)]; [left; by apply Hsub|].
    destruct (decide ((a, b) ∈ ms)) as [?|Hn]; [by left|right]. split_and!; [done| |].
    + intros p Hp. destruct (Hrest _ Hp) as [?|HR']; [by apply (Ha p)|]. cbn in HR'. by rewrite (HRf _ _ _ HR' HR) in Hp.
    + intros l Hl. destruct (Hrest _ Hl) as [?|HR']; [by apply (Hb l)|]. cbn in HR'. by rewrite (HRi _ _ _ HR' HR) in Hl.
  - intros [Hab|(HR & Ha & Hb)]; [|right; split_and!; [done| |]; naive_solver].
    destruct (decide ((a, b) ∈ ks)) as [?|Hn]; [by left|right]. destruct (Hrest _ Hab) as [?|HR]; [done|].
    split_and!; [done| |].
    + intros p Hp. by rewrite (Hf _ _ _ Hab (Hsub _ Hp)) in Hn.
    + intros l Hl. by rewrite (Hi _ _ _ Hab (Hsub _ Hl)) in Hn.
Qed.

Lemma PutMany_ok ms s :
  inv s → faultless s → oneToOne (λ a b, (a, b) ∈ pairsOf (filter validMapping ms)) →
  (cacheFilled s = true → (len (rows s) + Z.of_nat (length ms) ≤ limit)%Z) →
  ∃ s', PutManyLIDMappings limit firstKey dedup ms s = (Ok tt, s') ∧ inv s' ∧ faultless s' ∧
    ∀ a b, rowsR (rows s') a b ↔ joinedAll (pairsOf (filter validMapping ms)) (rowsR (rows s)) a b.
Proof.
  intros Hs Hf H1 Hroom. unfold PutManyLIDMappings, mbind, stateM_bind. cbn [get].
  set (ks := dedup (List.filter (keepMapping s) ms)).
  assert (∀ m, m ∈ ks ↔ m ∈ ms ∧ keepMapping s m = true) as Hks.
  { intros m. unfold ks. rewrite dedup_elem, !list_elem_of_In. apply filter_In. }
  assert (∀ x, x ∈ pairsOf ks → x ∈ pairsOf (filter validMapping ms)) as Hsub.
  { unfold pairsOf. intros x (m & -> & [Hin Hk]%Hks)%list_elem_of_fmap. apply list_elem_of_fmap. exists m. split; [done|].
    apply list_elem_of_filter. split; [|done]. by apply keepMapping_spec in Hk as [? _]. }
  assert (∀ x, x ∈ pairsOf (filter validMapping ms) → x ∈ pairsOf ks ∨ rowsR (rows s) x.1 x.2) as Hrest.
  { unfold pairsOf. intros x (m & -> & [Hvm Hin]%list_elem_of_filter)%list_elem_of_fmap. cbn.
    destruct (keepMapping s m) eqn:Hk; [left; apply list_elem_of_fmap; exists m; split; [done|by apply Hks]|right].
    assert (pnToLIDCache s !! User (mPN m) = Some (User (mLID m))) as Hc.
    { apply dec_stable. intros Hn. assert (keepMapping s m = true); [by apply keepMapping_spec|congruence]. }
    destruct (proj2 (inv_good s Hs) _ _ ltac:(done) Hc) as [[He _]|[HR _]]; [|done].
    exfalso. apply (oto_src _ H1 (User (mLID m)) (User (mPN m))); [|done]. apply list_elem_of_fmap. exists m.
    split; [done|]. by apply list_elem_of_filter. }
  assert (∀ s', (∀ a b, rowsR (rows s') a b ↔ joinedAll (pairsOf ks) (rowsR (rows s)) a b) →
    ∀ a b, rowsR (rows s') a b ↔ joinedAll (pairsOf (filter validMapping ms)) (rowsR (rows s)) a b) as Hfin.
  { intros s' Hs' a b. rewrite Hs'. apply joinedAll_skip; try done. apply Hs. }
  assert (length ks ≤ length ms)%nat as Hlen.
  { unfold ks. etrans; [apply dedup_length|]. clear. induction ms as [|m ms IH]; cbn; [lia|]. destruct (keepMapping s m); cbn; lia. }
  destruct ks as [|k ks'] eqn:Hkse.
  - exists s. split_and!; [done..|]. apply Hfin. intros a b. unfold joinedAll. cbn. setoid_rewrite elem_of_nil. naive_solver.
  - rewrite <- Hkse in *.
    destruct (putMappings_ok ks (afterFault s)) as (s' & Hm & Hi & Hfl & Hrel).
    + by apply inv_afterFault.
    + by apply faultless_afterFault.
    + apply Forall_forall. intros m [_ Hk]%Hks. by apply keepMapping_spec in Hk as [? _].
    + by eapply oneToOne_sub; [intros a b; apply (Hsub (a, b))|].
    + cbn. intros Hfl. specialize (Hroom Hfl). lia.
    + rewrite (doTxn_ok _ _ s' Hf Hm Hfl). eexists. split_and!; [done|by apply inv_afterFault|by apply faultless_afterFault|].
      by apply (Hfin (afterFault s')).
Qed.
End evict.
