(* ===== verification/LidMapSpec.v ===== *)
(** What the LID map promises: every call behaves as a call on the table alone.
    Two situations outside the hypotheses of that theorem in which it does not. *)
From Stdlib Require Import ZArith Lia.
From stdpp Require Import prelude gmap strings list fin_maps fin_map_dom.
From S2P Require Import Prelude Jid AppStore LidMap LidMapTheory.

#[local] Open Scope string_scope.

Inductive lidCall :=
| CFillCache
| CGetLIDForPN (pn : JID)
| CGetPNForLID (lid : JID)
| CGetManyLIDs (pns : list JID)
| CGetManyPNs (lids : list JID)
| CPut (lid pn : JID)
| CPutMany (ms : list LIDMapping).

Inductive lidResult := RUnit | RJID (j : JID) | RMany (m : jidMap) (failed : bool).

(** The environment: which key an iteration over a map meets first, in which order
    a query returns rows, and the library function that removes duplicates. *)
Record lidEnv := mkEnv {
  firstKey : gmap string string → option string;
  scan : gmap string string → list (string * string);
  postgres : bool;
  dedup : list LIDMapping → list LIDMapping
}.

Class LidEnvLaws (e : lidEnv) : Prop := {
  firstKey_law m : m ≠ ∅ → ∃ k, firstKey e m = Some k ∧ is_Some (m !! k);
  firstKey_empty : firstKey e ∅ = None;
  scan_law rs : scan e rs ≡ₚ map_to_list rs;
  dedup_elem l x : x ∈ dedup e l ↔ x ∈ l;
  dedup_length l : (length (dedup e l) ≤ length l)%nat
}.

Definition runCall (e : lidEnv) (limit : Z) (c : lidCall) : lidM lidResult :=
  match c with
  | CFillCache => _ ← FillCache limit (firstKey e) (scan e); mret RUnit
  | CGetLIDForPN pn => j ← GetLIDForPN limit (firstKey e) (scan e) pn; mret (RJID j)
  | CGetPNForLID lid => j ← GetPNForLID limit (firstKey e) (scan e) lid; mret (RJID j)
  | CGetManyLIDs pns => '(m, failed) ← GetManyLIDsForPNs limit (firstKey e) (scan e) pns; mret (RMany m failed)
  | CGetManyPNs lids => '(m, failed) ← GetManyPNsForLIDs limit (firstKey e) (scan e) (postgres e) lids; mret (RMany m failed)
  | CPut lid pn => _ ← PutLIDMapping limit (firstKey e) lid pn; mret RUnit
  | CPutMany ms => _ ← PutManyLIDMappings limit (firstKey e) (dedup e) ms; mret RUnit
  end.

(** A batch answer for the table [rs]. *)
Definition batchOk (toLID : bool) (s : CachedLIDMap) (js : list JID) (r : outcome lidError lidResult) : Prop :=
  ∃ m failed, r = Ok (RMany m failed) ∧ sound toLID (rows s) js m ∧
    (failed = false → complete toLID (rows s) js m) ∧ (failed = true → dbFaults s ≠ []).

(** A lookup answers what the table says, or reports a failure of the database. *)
Definition lookupOk (toLID : bool) (bad : lidError) (s : CachedLIDMap) (j : JID) (r : outcome lidError lidResult) : Prop :=
  if decide (Server j = serverOf (negb toLID)) then
    (∃ t, r = Ok (RJID t) ∧ answers (towards toLID (rows s)) j (serverOf toLID) t) ∨
    (r = Err LIDDriverError ∧ dbFaults s ≠ [])
  else r = Err bad.

(** What a call does to the table, and what it returns. *)
Definition specCall (c : lidCall) (s : CachedLIDMap) (r : outcome lidError lidResult) (s' : CachedLIDMap) : Prop :=
  match c with
  | CFillCache => rows s' = rows s ∧ (r = Ok RUnit ∨ (r = Err LIDDriverError ∧ dbFaults s ≠ []))
  | CGetLIDForPN pn => rows s' = rows s ∧ lookupOk true NonPNJID s pn r
  | CGetPNForLID lid => rows s' = rows s ∧ lookupOk false NonLIDJID s lid r
  | CGetManyLIDs pns => rows s' = rows s ∧ batchOk true s pns r
  | CGetManyPNs lids => rows s' = rows s ∧ batchOk false s lids r
  | CPut lid pn =>
      if decide (Server lid = HiddenUserServer ∧ Server pn = DefaultUserServer) then
        r = Ok RUnit ∧ ∀ a b, rowsR (rows s') a b ↔ joined (User lid) (User pn) (rowsR (rows s)) a b
      else r = Err InvalidMapping ∧ rows s' = rows s
  | CPutMany ms =>
      r = Ok RUnit ∧ ∀ a b, rowsR (rows s') a b ↔ joinedAll (pairsOf (filter validMapping ms)) (rowsR (rows s)) a b
  end.

(** Mappings are between non-empty users, those stored together do not contradict
    each other, no transaction fails, and a cache that holds the whole table has
    room for them. *)
Definition admissible (limit : Z) (c : lidCall) (s : CachedLIDMap) : Prop :=
  match c with
  | CPut lid pn =>
      faultless s ∧ User lid ≠ "" ∧ User pn ≠ "" ∧ (cacheFilled s = true → (len (rows s) + 1 ≤ limit)%Z)
  | CPutMany ms =>
      faultless s ∧ oneToOne (λ a b, (a, b) ∈ pairsOf (filter validMapping ms)) ∧
      (cacheFilled s = true → (len (rows s) + Z.of_nat (length ms) ≤ limit)%Z)
  | _ => True
  end.

Section spec.
Context (e : lidEnv) `{!LidEnvLaws e} (limit : Z) (limit_pos : (1 ≤ limit)%Z).

Lemma ret_run {A} (m : lidM A) (f : A → lidResult) s r s' :
  (a ← m; mret (f a)) s = (r, s') → ∃ r0, m s = (r0, s') ∧ r = f <$> r0.
Proof. unfold mbind, stateM_bind. destruct (m s) as [[a|x| |] s1]; cbn; intros [= <- <-]; by eexists. Qed.

Lemma lookup_spec toLID bad s j r s' (m : lidM JID) :
  inv limit s →
  (if decide (Server j = serverOf (negb toLID)) then m = getLIDMapping limit (firstKey e) (scan e) toLID j else m = throw bad) →
  (a ← m; mret (RJID a)) s = (r, s') → inv limit s' ∧ rows s' = rows s ∧ lookupOk toLID bad s j r.
Proof.
  intros Hs Hm (r0 & Hr & ->)%ret_run. unfold lookupOk. case_decide as Hsrv; subst m; [|by injection Hr as <- <-].
  destruct (getLIDMapping_ok (firstKey e) firstKey_law firstKey_empty limit limit_pos (scan e) scan_law _ _ _ _ _ Hs Hr)
    as (? & ? & [(t & -> & ?)|[-> ?]]); (split_and!; [done|done|]); [left; by exists t|by right].
Qed.

(** C15: every admissible call on the cached map behaves as on the table alone. Lookups
    are always admissible; a call that stores mappings is when its database
    statements work, its users are not empty (for a single mapping) or its mappings
    one to one (for several), and a cache that holds the whole table has room for
    them. [full_put_forgets] and [failed_commit_stays_cached] below show that
    without room, or when a commit fails, the cache does differ from the table.
    If the caches agree with the table before an admissible call, they agree with it
    after the call and neither exceeds its limit; a lookup, single or batched, from
    either side, answers exactly what the table says, unless it reports a failure of
    the database; storing a mapping replaces whatever the table said of either user;
    invalid servers are refused. *)
Theorem lidmap_refines (c : lidCall) (s : CachedLIDMap) (r : outcome lidError lidResult) (s' : CachedLIDMap) :
  inv limit s → admissible limit c s → runCall e limit c s = (r, s') → inv limit s' ∧ specCall c s r s'.
Proof.
  intros Hs Ha. destruct c as [|pn|lid|pns|lids|lid pn|ms]; cbn [runCall specCall admissible] in *.
  - intros (r0 & Hr & ->)%ret_run.
    destruct (FillCache_ok (firstKey e) firstKey_law firstKey_empty limit limit_pos (scan e) scan_law _ _ _ Hs Hr)
      as (? & ? & [->|[-> ?]]); (split_and!; [done|done|]); [by left|by right].
  - intros Hr. eapply (lookup_spec true NonPNJID) in Hr as (? & ? & ?); [by split_and!|done|].
    unfold GetLIDForPN. cbn. case_decide; [by rewrite decide_False by tauto|by rewrite decide_True].
  - intros Hr. eapply (lookup_spec false NonLIDJID) in Hr as (? & ? & ?); [by split_and!|done|].
    unfold GetPNForLID. cbn. case_decide; [by rewrite decide_False by tauto|by rewrite decide_True].
  - unfold mbind, stateM_bind. destruct (GetManyLIDsForPNs _ _ _ pns s) as [r0 s0] eqn:Hr.
    destruct (GetManyLIDs_ok (firstKey e) firstKey_law firstKey_empty limit limit_pos (scan e) scan_law _ _ _ _ Hs Hr)
      as (? & ? & m & failed & -> & ? & ?). intros [= <- <-]. split_and!; [done..|]. by exists m, failed.
  - unfold mbind, stateM_bind. destruct (GetManyPNsForLIDs _ _ _ _ lids s) as [r0 s0] eqn:Hr.
    destruct (GetManyPNs_ok (firstKey e) firstKey_law firstKey_empty limit limit_pos (scan e) scan_law _ _ _ _ _ Hs Hr)
      as (? & ? & m & failed & -> & ? & ?). intros [= <- <-]. split_and!; [done..|]. by exists m, failed.
  - destruct Ha as (Hf & Hl & Hp & Hroom). intros (r0 & Hr & ->)%ret_run. case_decide as Hv.
    + destruct (PutLIDMapping_ok (firstKey e) firstKey_law firstKey_empty limit limit_pos lid pn s Hs Hf Hv Hl Hp Hroom)
        as (s1 & Hr' & ? & _ & ?). rewrite Hr in Hr'. injection Hr' as -> ->. by split_and!.
    + unfold PutLIDMapping in Hr. rewrite decide_True in Hr; [by injection Hr as <- <-|].
      destruct (decide (Server lid = HiddenUserServer)), (decide (Server pn = DefaultUserServer)); tauto.
  - destruct Ha as (Hf & H1 & Hroom). intros (r0 & Hr & ->)%ret_run.
    destruct (PutMany_ok (firstKey e) firstKey_law firstKey_empty limit limit_pos (dedup e) dedup_elem dedup_length ms s Hs Hf H1 Hroom)
      as (s1 & Hr' & ? & _ & ?). rewrite Hr in Hr'. injection Hr' as -> ->. by split_and!.
Qed.
End spec.

Definition toyEnv : lidEnv :=
  mkEnv (λ m, fst <$> head (map_to_list m)) map_to_list false remove_dups.

#[export] Instance toyEnvLaws : LidEnvLaws toyEnv.
Proof.
  split; cbn.
  - intros m Hm. destruct (map_to_list m) as [|[k x] l] eqn:Hl.
    + by apply map_to_list_empty_iff in Hl.
    + exists k. split; [done|]. exists x. apply elem_of_map_to_list. rewrite Hl. by left.
  - by rewrite map_to_list_empty.
  - done.
  - apply elem_of_remove_dups.
  - induction l as [|x l IH]; cbn; [lia|]. case_decide; cbn; lia.
Qed.

Definition lidJID (user : string) : JID := NewJID user HiddenUserServer.
Definition pnJID (user : string) : JID := NewJID user DefaultUserServer.
Definition toyLidMap : CachedLIDMap := NewCachedLIDMap {["11" := "1"]} [].

Lemma toyRows_oneToOne : oneToOne (rowsR {["11" := "1"]}).
Proof.
  unfold rowsR. split; intros *; rewrite ?lookup_singleton_Some; naive_solver.
Qed.

Lemma lidmap_refines_witness :
  let '(r, s') := runCall toyEnv 2 (CPut (lidJID "11") (pnJID "2")) toyLidMap in
  inv 2 s' ∧ specCall (CPut (lidJID "11") (pnJID "2")) toyLidMap r s' ∧
  (runCall toyEnv 2 (CGetLIDForPN (pnJID "1")) s').1 = Ok (RJID EmptyJID).
Proof.
  destruct (runCall toyEnv 2 (CPut (lidJID "11") (pnJID "2")) toyLidMap) as [r s'] eqn:Hr.
  destruct (lidmap_refines toyEnv 2 ltac:(lia) (CPut (lidJID "11") (pnJID "2")) toyLidMap r s') as [Hi Hc].
  - apply inv_init; [lia|apply toyRows_oneToOne].
  - split_and!; [constructor|discriminate|discriminate|discriminate].
  - exact Hr.
  - split_and!; [exact Hi|exact Hc|]. vm_compute in Hr. injection Hr as <- <-. vm_compute. reflexivity.
Defined.

(** ** Outside the hypotheses *)

(** A full cache that holds the whole table forgets. When the cache was filled, the
    table has as many rows as the cache can hold, and a mapping between two new
    users is stored, then some mapping of the table is no longer found: the lookup
    answers that there is none and never asks the table. *)
Theorem full_put_forgets (e : lidEnv) (Hlaw : ∀ m, m ≠ ∅ → ∃ k, firstKey e m = Some k ∧ is_Some (m !! k))
    (limit : Z) (s : CachedLIDMap) (lid pn : JID) :
  (1 ≤ limit)%Z → inv limit s → faultless s → cacheFilled s = true → len (rows s) = limit →
  validPair lid pn → rows s !! User lid = None → (∀ l, rows s !! l ≠ Some (User pn)) →
  ∃ s' l p,
    runCall e limit (CPut lid pn) s = (Ok RUnit, s') ∧ rows s' !! l = Some p ∧
    runCall e limit (CGetLIDForPN (pnJID p)) s' = (Ok (RJID EmptyJID), s').
Proof.
  intros Hlim [_ _ _ Hex] Hf Hfill Hlen Hv Hl Hp. destruct (Hex Hfill) as [Hcl Hcp].
  assert (pnToLIDCache s !! User pn = None) as Hpn.
  { apply eq_None_not_Some. intros [l Hc]. apply Hcp in Hc. by apply (Hp l). }
  assert (lidToPNCache s !! User lid = None) as Hlid.
  { apply eq_None_not_Some. intros [p Hc]. apply Hcl in Hc. unfold rowsR in Hc. congruence. }
  assert (len (pnToLIDCache s) = limit) as Hsz.
  { rewrite (exact_size _ _ _ (Hex Hfill)), <- Hlen. f_equal. apply map_eq. intros a. apply option_eq. intros b. apply Hcl. }
  destruct (Hlaw (pnToLIDCache s)) as (x & Hx & [l0 Hl0]).
  { intros He. rewrite He in Hsz. unfold len in Hsz. rewrite map_size_empty in Hsz. lia. }
  destruct (PutLIDMapping_run (firstKey e) limit lid pn s Hf Hv) as (s' & Hr & _ & Hrows & Hfl & Hcs); [congruence|].
  exists s', l0, x. cbn [runCall]. unfold mbind, stateM_bind. rewrite Hr. split_and!; [done| |].
  - rewrite Hrows. apply joinRows_R. right. apply Hcp in Hl0. unfold rowsR in Hl0. split_and!; [congruence| |done].
    intros ->. by apply (Hp l0).
  - assert (pnToLIDCache s' !! x = None) as Hnone.
    { assert (at_ (pnToLIDCache s) (User pn) = "" ∧ at_ (lidToPNCache s) (User lid) = "") as [Ha Hb]
        by (unfold at_; by rewrite Hpn, Hlid).
      apply (f_equal fst) in Hcs. cbn -[cacheMapping] in Hcs. rewrite Hcs, cacheMapping_eq. unfold cachesOf.
      destruct (dropStale_spec (User lid) (User pn) (pnToLIDCache s) (lidToPNCache s)) as (dl & dp & -> & Hdl & Hdp).
      assert (dl = false) as -> by (destruct dl; [by destruct (proj1 Hdl eq_refl)|done]).
      assert (dp = false) as -> by (destruct dp; [by destruct (proj1 Hdp eq_refl)|done]). unfold makeRoom at 1.
      rewrite decide_True by (split; [done|lia]). unfold evictLIDCacheEntry at 1. rewrite Hx.
      pose proof (makeRoom_sub (firstKey e) limit (User lid)) as Hsub.
      match goal with |- context [makeRoom _ _ _ ?cl ?cp] => destruct (Hsub cl cp) as [_ Hs2]; destruct (makeRoom _ _ _ cl cp) as [cl3 cp3] end.
      cbn in *. rewrite lookup_insert_ne by congruence. apply (lookup_weaken_None _ _ _ (lookup_delete_eq _ _) Hs2). }
    unfold GetLIDForPN. rewrite decide_False by (cbn; tauto). unfold getLIDMapping, mbind, stateM_bind. cbn [get].
    rewrite decide_True by (right; congruence). cbn. unfold at_. by rewrite Hnone.
Qed.

Definition filledLidMap : CachedLIDMap := (runCall toyEnv 1 CFillCache toyLidMap).2.

Lemma filled_inv : inv 1 filledLidMap.
Proof.
  pose proof (inv_init 1 ltac:(lia) {["11" := "1"]} [] toyRows_oneToOne) as Hi.
  refine (proj1 (FillCache_ok (firstKey toyEnv) firstKey_law firstKey_empty 1 ltac:(lia) (scan toyEnv) scan_law toyLidMap (Ok tt) _ Hi _)).
  vm_compute. reflexivity.
Qed.

Lemma full_put_forgets_witness :
  ∃ s' l p,
    runCall toyEnv 1 (CPut (lidJID "22") (pnJID "2")) filledLidMap = (Ok RUnit, s') ∧ rows s' !! l = Some p ∧
    runCall toyEnv 1 (CGetLIDForPN (pnJID p)) s' = (Ok (RJID EmptyJID), s').
Proof.
  apply (full_put_forgets toyEnv firstKey_law 1 filledLidMap (lidJID "22") (pnJID "2")).
  - lia.
  - apply filled_inv.
  - vm_compute. constructor.
  - vm_compute. reflexivity.
  - vm_compute. reflexivity.
  - split; reflexivity.
  - vm_compute. reflexivity.
  - intros l. change (rows filledLidMap) with ({["11" := "1"]} : gmap string string).
    rewrite lookup_singleton_Some. intros [_ Heq]. discriminate Heq.
Defined.

(** The caches are written inside the transaction. When its commit fails, the table
    is as before but the cache has the new mapping: lookups answer it, and storing
    it once more succeeds without touching the table. *)
Theorem failed_commit_stays_cached (e : lidEnv) (limit : Z) (s : CachedLIDMap) (lid pn : JID) (k : nat) (fs : list (option nat)) :
  dbFaults s = None :: None :: None :: Some k :: fs → validPair lid pn → User lid ≠ "" →
  pnToLIDCache s !! User pn ≠ Some (User lid) →
  ∃ s',
    runCall e limit (CPut lid pn) s = (Err LIDDriverError, s') ∧ rows s' = rows s ∧
    runCall e limit (CGetLIDForPN pn) s' = (Ok (RJID (targetJID (User lid) pn HiddenUserServer)), s') ∧
    runCall e limit (CPut lid pn) s' = (Ok RUnit, s').
Proof.
  intros Hf [Hsl Hsp] Hl Hc. destruct s as [rs fs0 cp cl fl]. cbn in Hf, Hc. subst fs0.
  set (cs := cacheMapping limit (firstKey e) (User lid) (User pn) (cp, cl)).
  assert (cs.1 !! User pn = Some (User lid)) as Hcs.
  { subst cs. rewrite cacheMapping_eq. destruct (dropStale _ _ _) as [cp1 cl1]. destruct (makeRoom _ _ _ cp1 cl1) as [cp2 cl2].
    destruct (makeRoom _ _ _ cl2 cp2) as [cl3 cp3]. apply lookup_insert_eq. }
  exists (mkLIDMap rs fs cs.1 cs.2 fl).
  assert (PutLIDMapping limit (firstKey e) lid pn (mkLIDMap rs fs cs.1 cs.2 fl) = (Ok tt, mkLIDMap rs fs cs.1 cs.2 fl)) as Hagain.
  { unfold PutLIDMapping. rewrite decide_False by naive_solver. unfold mbind, stateM_bind. cbn [get]. by rewrite decide_True. }
  split_and!.
  - cbn [runCall]. unfold mbind, stateM_bind, PutLIDMapping. rewrite decide_False by naive_solver.
    unfold mbind, stateM_bind. cbn [get pnToLIDCache]. rewrite decide_False by done.
    unfold doTxn, mbind, stateM_bind. rewrite (exec_run Some rs) by done.
    rewrite (unlockedPut_run (firstKey e) limit lid pn) by done. reflexivity.
  - done.
  - cbn [runCall]. unfold mbind at 1, stateM_bind at 1, GetLIDForPN. rewrite decide_False by tauto.
    unfold getLIDMapping. unfold mbind, stateM_bind. cbn [get pnToLIDCache]. rewrite decide_True by (left; exists (User lid); exact Hcs).
    by rewrite (table_at_lookup _ _ _ Hcs), decide_False by done.
  - cbn [runCall]. unfold mbind, stateM_bind. by rewrite Hagain.
Qed.

Lemma failed_commit_stays_cached_witness :
  ∃ s',
    runCall toyEnv 8 (CPut (lidJID "11") (pnJID "1")) (NewCachedLIDMap ∅ [None; None; None; Some 0%nat]) =
      (Err LIDDriverError, s') ∧ rows s' = ∅ ∧
    runCall toyEnv 8 (CGetLIDForPN (pnJID "1")) s' = (Ok (RJID (targetJID "11" (pnJID "1") HiddenUserServer)), s') ∧
    runCall toyEnv 8 (CPut (lidJID "11") (pnJID "1")) s' = (Ok RUnit, s').
Proof.
  apply (failed_commit_stays_cached toyEnv 8 (NewCachedLIDMap ∅ [None; None; None; Some 0%nat]) (lidJID "11") (pnJID "1") 0 []);
    [reflexivity|split; reflexivity|discriminate|vm_compute; discriminate].
Defined.
