(* ===== verification/AppState.v ===== *)
(** App state collections: hashing, keys, decoding of snapshots and patches and
    recovery (src/appstate/hash.go, keys.go, decode.go, recovery.go).

    A collection is a map from index MACs to value MACs. The server describes it
    by a snapshot and by patches, each a list of encrypted SET and REMOVE
    mutations; the client keeps the value MACs in its store and a 128-byte
    summation hash beside them, and accepts a patch when the hash after it is
    the one the patch's snapshot MAC signs. *)
From Stdlib Require Import ZArith Lia.
From Stdlib Require Import Strings.Byte.
From stdpp Require Import prelude gmap strings list fin_maps.
From S2P Require Import Prelude Strconv Cbc LTHash AppStore.

(** ** Messages

    The generated protocol types, through the getters the code reads them with:
    a field that is not set reads as its zero value. *)

Inductive operation := SET | REMOVE.
#[global] Instance operation_eq_dec : EqDecision operation.
Proof. solve_decision. Defined.

(** The SyncdRecord of a snapshot and of a mutation. *)
Record SyncdRecord := mkRecord {
  indexBlob : list byte;
  valueBlob : list byte;
  recordKeyID : option (list byte)
}.
Record SyncdMutation := mkMutation { Operation : operation; mRecord : SyncdRecord }.
Record SyncdPatch := mkPatch {
  patchVersion : Z;
  patchMutations : list SyncdMutation;
  patchSnapshotMAC : list byte;
  patchPatchMAC : list byte;
  patchKeyID : option (list byte)
}.
Record SyncdSnapshot := mkSnapshot {
  ssVersion : Z;
  ssRecords : list SyncdRecord;
  ssMac : list byte;
  ssKeyID : option (list byte)
}.

Record RootSecretEntry := mkRootSecret {
  rsID : string; RootSecret : list byte; rsActive : bool; rsEpoch : Z
}.

(** The value a mutation carries: its timestamp and the sub-messages that are
    set, with the fields that the client looks at; the others are the raw
    message. *)
Inductive actionField :=
| MuteAction (muted : bool) (muteEndTimestamp : option Z)
| PinAction (pinned : bool)
| ArchiveChatAction (archived : bool) (rangeTimestamp : Z) (message : option (list byte))
| MarkChatAsReadAction (read : bool) (rangeTimestamp : Z) (message : option (list byte))
| DeleteChatAction (rangeTimestamp : Z) (message : option (list byte))
| LabelAssociationAction (labeled : bool)
| LabelEditAction (name : string) (color : Z) (deleted : bool)
| QuickReplyAction (shortcut message : string) (keywords : list string) (count : Z) (deleted : bool)
    (associatedLabelIDs : list string)
| PushNameSetting (name : string)
| StarAction (starred : bool)
| ContactAction (firstName fullName username : string)
| LidContactAction (firstName fullName username : string)
| ClearChatAction (raw : list byte)
| DeleteMessageForMeAction (raw : list byte)
| UnarchiveChatsSetting (raw : list byte)
| UserStatusMuteAction (raw : list byte)
| WasaRootSecretAction (secrets : list RootSecretEntry)
| NctSaltSyncAction (salt : list byte)
| OtherAction (raw : list byte).
Record SyncActionValue := mkActionValue { actionTimestamp : option Z; actionFields : list actionField }.
Record SyncActionData := mkActionData {
  saIndex : list byte;
  saValue : option SyncActionValue;
  saVersion : Z
}.

(** google.golang.org/protobuf and encoding/json on the messages above. *)
Class AppCodec := {
  unmarshalActionData : list byte → option SyncActionData;
  marshalActionData : SyncActionData → option (list byte);
  marshalPatch : SyncdPatch → option (list byte);
  jsonUnmarshalStrings : list byte → option (list string);
  jsonMarshalStrings : list string → list byte
}.

Record Mutation := mkMut {
  mutKeyID : option (list byte);
  mutOperation : operation;
  mutAction : option SyncActionValue;
  mutVersion : Z;
  mutIndex : list string;
  mutIndexMAC : list byte;
  mutValueMAC : list byte;
  mutPatchVersion : Z
}.

Inductive asError {E : Type} :=
| StoreError (e : E)
| ErrKeyNotFound
| ErrMismatchingLTHash
| ErrMismatchingPatchMAC
| ErrMismatchingContentMAC (i : nat)
| ErrMismatchingIndexMAC (i : nat)
| DecryptFailed (i : nat) (e : cbcError)
| UnmarshalFailed (i : nat)
| IndexUnmarshalFailed (i : nat)
| MarshalFailed
| EncryptFailed (e : cbcError)
| InvalidLTHashLength (n : nat).
Arguments asError E : clear implicits.

Definition absurdE {E} (e : Empty_set) : E := match e with end.

(** ** Hashes *)

Record HashState := mkHashState { hsVersion : Z; hsHash : list byte }.
Definition zeroState : HashState := mkHashState 0 (replicate 128 x00).

(** [l[len(l)-32:]], which panics when [l] is shorter. *)
Definition macSuffix {E} (l : list byte) : outcome E (list byte) :=
  if decide (length l < 32) then Panic else Ok (drop (length l - 32) l).

Section update.
Context `{HKDF} {S E : Type}.
Context (getPrevSetValueMAC : list byte → nat → stateM S E (option (list byte))).

(** The loop of [updateHash] at mutation [i]: what is added, what is removed
    and the index MACs of the warnings. *)
Fixpoint collectMACs (i : nat) (mutations : list SyncdMutation) :
    stateM S E (list (list byte) * list (list byte) * list (list byte)) :=
  match mutations with
  | [] => mret ([], [], [])
  | m :: mutations =>
      added ← (match Operation m with
               | SET => v ← lift (macSuffix (valueBlob (mRecord m))); mret [v]
               | REMOVE => mret []
               end : stateM S E (list (list byte)));
      let indexMAC := indexBlob (mRecord m) in
      removal ← getPrevSetValueMAC indexMAC i;
      '(removed, warning) ← (match removal, Operation m with
                             | Some r, _ => mret ([r], [])
                             | None, REMOVE => mret ([], [indexMAC])
                             | None, SET => mret ([], [])
                             end : stateM S E (list (list byte) * list (list byte)));
      '(added', removed', warnings) ← collectMACs (1 + i) mutations;
      mret (added ++ added', removed ++ removed', warning ++ warnings)
  end.

Definition updateHash (hs : HashState) (mutations : list SyncdMutation) :
    stateM S E (list (list byte) * HashState) :=
  '(added, removed, warnings) ← collectMACs 0 mutations;
  h ← lift (map_err absurdE (SubtractThenAddInPlace WAPatchIntegrity (hsHash hs) removed added));
  mret (warnings, mkHashState (hsVersion hs) h).
End update.

Definition uint64ToBytes (val : Z) : list byte := be_bytes 8 val.

Definition generateSnapshotMAC `{Crypto} (hs : HashState) (name : string) (key : list byte) : list byte :=
  hmacSha256 key (concat [hsHash hs; uint64ToBytes (hsVersion hs); s2b name]).

Definition generatePatchMAC `{Crypto} {E} (patch : SyncdPatch) (name : string) (key : list byte) (version : Z) :
    outcome E (list byte) :=
  macs ← foldr (λ m acc, v ← macSuffix (valueBlob (mRecord m)); l ← acc; Ok (v :: l))
           (Ok []) (patchMutations patch);
  Ok (hmacSha256 key (concat ([patchSnapshotMAC patch] ++ macs ++ [uint64ToBytes version; s2b name]))).

Definition opByte (o : operation) : Z := match o with SET => 0 | REMOVE => 1 end.

Definition generateContentMAC `{Crypto} {E} (o : operation) (data keyID key : list byte) : outcome E (list byte) :=
  let sum := hmacSha512 key (concat [[z2b (opByte o + 1)]; keyID; data;
                                     uint64ToBytes (u64 (Z.of_nat (length keyID + 1)))]) in
  if decide (length sum < 32) then Panic else Ok (take 32 sum).

(** ** Keys *)

Record ExpandedAppStateKeys := mkKeys {
  IndexKey : list byte;
  ValueEncryption : list byte;
  ValueMACKey : list byte;
  SnapshotMACKey : list byte;
  PatchMACKey : list byte
}.

Definition expandAppStateKeys `{HKDF} {E} (keyData : list byte) : outcome E ExpandedAppStateKeys :=
  e ← map_err absurdE (SHA256 keyData [] (s2b "WhatsApp Mutation Keys") 160);
  if decide (length e < 160) then Panic
  else Ok (mkKeys (take 32 e) (take 32 (drop 32 e)) (take 32 (drop 64 e))
                  (take 32 (drop 96 e)) (take 32 (drop 128 e))).

Record Processor (S : Type) := mkProc { keyCache : gmap string ExpandedAppStateKeys; procStore : S }.
Arguments mkProc {S} _ _.
Arguments keyCache {S} _.
Arguments procStore {S} _.

Definition NewProcessor {S} (s : S) : Processor S := mkProc ∅ s.

Section processor.
Context `{Crypto} `{HKDF} `{AppCodec} {S E : Type} `{!AppStateStore S E}.
Notation M := (stateM (Processor S) (asError E)).

(** A call on the store. *)
Definition onStore {A} (m : stateM S E A) : M A :=
  zoom procStore (λ s p, mkProc (keyCache p) s) StoreError m.

Definition getAppStateKey (keyID : option (list byte)) : M ExpandedAppStateKeys :=
  let keyCacheID := EncodeToString (default [] keyID) in
  p ← get;
  match keyCache p !! keyCacheID with
  | Some keys => mret keys
  | None =>
      keyData ← onStore (GetAppStateSyncKey keyID);
      match keyData with
      | Some k =>
          keys ← lift (expandAppStateKeys (KeyData k));
          _ ← modify (λ p, mkProc (<[keyCacheID := keys]> (keyCache p)) (procStore p));
          mret keys
      | None => throw ErrKeyNotFound
      end
  end.

(** [GetMissingKeyIDs]: [seen] are the ids already asked for; a store error is
    logged and the key counts as present. *)
Fixpoint checkMissing (seen : list string) (ids : list (option (list byte))) (s : S) : list (list byte) * S :=
  match ids with
  | [] => ([], s)
  | None :: ids => checkMissing seen ids s
  | Some id :: ids =>
      let stringKeyID := EncodeToString id in
      if decide (stringKeyID ∈ seen) then checkMissing seen ids s
      else
        let '(r, s) := GetAppStateSyncKey (Some id) s in
        let missing := match r with Ok None => true | _ => false end in
        let '(l, s) := checkMissing (stringKeyID :: seen) ids s in
        (if (missing : bool) then id :: l else l, s)
  end.

Record PatchList := mkPatchList {
  plName : string;
  HasMorePatches : bool;
  Patches : list SyncdPatch;
  Snapshot : option SyncdSnapshot
}.

Definition GetMissingKeyIDs (pl : PatchList) (s : S) : list (list byte) * S :=
  checkMissing []
    (match Snapshot pl with
     | Some ss => ssKeyID ss :: (recordKeyID <$> ssRecords ss)
     | None => []
     end ++ (patchKeyID <$> Patches pl)) s.

(** ** Decoding *)

Record patchOutput := mkOutput {
  RemovedMACs : list (list byte);
  AddedMACs : list AppStateMutationMAC;
  Mutations : list Mutation
}.

Definition RemoveMAC (indexMAC : list byte) (out : patchOutput) : patchOutput :=
  mkOutput (RemovedMACs out ++ [indexMAC])
    (filter (λ m, IndexMAC m ≠ indexMAC) (AddedMACs out)) (Mutations out).

Definition AddMAC (indexMAC valueMAC : list byte) (out : patchOutput) : patchOutput :=
  mkOutput (RemovedMACs out) (AddedMACs out ++ [mkMAC indexMAC valueMAC]) (Mutations out).

Definition decodeMutation (m : SyncdMutation) (i : nat) (validateMACs : bool) :
    M (list byte * list byte * list string * SyncActionData) :=
  let keyID := recordKeyID (mRecord m) in
  keys ← getAppStateKey keyID;
  let blob := valueBlob (mRecord m) in
  valueMAC ← lift (macSuffix blob);
  let content := take (length blob - 32) blob in
  _ ← (if validateMACs then
         expectedValueMAC ← lift (generateContentMAC (Operation m) content (default [] keyID) (ValueMACKey keys));
         if decide (expectedValueMAC = valueMAC) then mret tt else throw (ErrMismatchingContentMAC (i + 1))
       else mret tt);
  _ ← (if decide (length content < 16) then lift Panic else mret tt);
  plaintext ← lift (map_err (DecryptFailed (i + 1))
                      (Decrypt (ValueEncryption keys) (take 16 content) (drop 16 content)).1);
  match unmarshalActionData plaintext with
  | None => throw (UnmarshalFailed (i + 1))
  | Some syncAction =>
      let indexMAC := indexBlob (mRecord m) in
      _ ← (if validateMACs then
             if decide (hmacSha256 (IndexKey keys) (saIndex syncAction) = indexMAC) then mret tt
             else throw (ErrMismatchingIndexMAC (i + 1))
           else mret tt);
      match jsonUnmarshalStrings (saIndex syncAction) with
      | None => throw (IndexUnmarshalFailed (i + 1))
      | Some index => mret (indexMAC, valueMAC, index, syncAction)
      end
  end.

Definition indexMACToArray (indexMAC : list byte) : list byte :=
  if decide (length indexMAC ≠ 32) then replicate 32 x00 else indexMAC.

Fixpoint decodeMutationsFrom (i : nat) (mutations : list SyncdMutation) (out : patchOutput)
    (validateMACs : bool) (version : Z) (fakeIndexesToRemove : gmap (list byte) (list byte)) : M patchOutput :=
  match mutations with
  | [] => mret out
  | m :: mutations =>
      '(indexMAC, valueMAC, index, syncAction) ← decodeMutation m i validateMACs;
      let out :=
        match Operation m with
        | REMOVE =>
            let out := RemoveMAC indexMAC out in
            match fakeIndexesToRemove !! indexMACToArray indexMAC with
            | Some altIndexMAC => if decide (length indexMAC = 32) then RemoveMAC altIndexMAC out else out
            | None => out
            end
        | SET => AddMAC indexMAC valueMAC out
        end in
      let mut := mkMut (recordKeyID (mRecord m)) (Operation m) (saValue syncAction) (saVersion syncAction)
                   index indexMAC valueMAC version in
      decodeMutationsFrom (1 + i) mutations
        (mkOutput (RemovedMACs out) (AddedMACs out) (Mutations out ++ [mut])) validateMACs version fakeIndexesToRemove
  end.
Definition decodeMutations := decodeMutationsFrom 0.

Definition storeMACs (name : string) (currentState : HashState) (out : patchOutput) : M unit :=
  _ ← onStore (PutAppStateVersion name (hsVersion currentState) (hsHash currentState));
  _ ← onStore (DeleteAppStateMutationMACs name (RemovedMACs out));
  onStore (PutAppStateMutationMACs name (hsVersion currentState) (AddedMACs out)).

Definition validateSnapshotMAC (name : string) (currentState : HashState) (keyID : option (list byte))
    (expectedSnapshotMAC : list byte) : M ExpandedAppStateKeys :=
  keys ← getAppStateKey keyID;
  if decide (generateSnapshotMAC currentState name (SnapshotMACKey keys) = expectedSnapshotMAC)
  then mret keys else throw ErrMismatchingLTHash.

Definition decodeSnapshot (name : string) (ss : SyncdSnapshot) (initialState : HashState)
    (validateMACs : bool) (newMutationsInput : list Mutation) : M (list Mutation * HashState) :=
  let currentState := mkHashState (ssVersion ss) (hsHash initialState) in
  let encryptedMutations := mkMutation SET <$> ssRecords ss in
  '(_, currentState) ← updateHash (λ _ _, mret None) currentState encryptedMutations;
  _ ← (if validateMACs then
         _ ← validateSnapshotMAC name currentState (ssKeyID ss) (ssMac ss); mret tt
       else mret tt);
  out ← decodeMutations encryptedMutations (mkOutput [] [] newMutationsInput) validateMACs
          (hsVersion currentState) ∅;
  _ ← storeMACs name currentState out;
  mret (Mutations out, currentState).

(** The previous value inside the patch: [None] when the patch does not
    mention the index before, [Some None] when it removed it. *)
Fixpoint previousInPatch (earlier : list SyncdMutation) (indexMAC : list byte) :
    outcome (asError E) (option (option (list byte))) :=
  match earlier with
  | [] => Ok None
  | m :: earlier =>
      if decide (indexBlob (mRecord m) = indexMAC) then
        match Operation m with
        | SET => v ← macSuffix (valueBlob (mRecord m)); Ok (Some (Some v))
        | REMOVE => Ok (Some None)
        end
      else previousInPatch earlier indexMAC
  end.

(** The closure of [validatePatch]: mutations before [maxIndex], latest first,
    then the store. *)
Definition getPrevSetValueMAC (name : string) (mutations : list SyncdMutation)
    (indexMAC : list byte) (maxIndex : nat) : M (option (list byte)) :=
  prev ← lift (previousInPatch (rev (take maxIndex mutations)) indexMAC);
  match prev with
  | Some r => mret r
  | None => onStore (GetAppStateMutationMAC name indexMAC)
  end.

Definition validatePatch (patchName : string) (patch : SyncdPatch) (currentState : HashState)
    (validateMACs : bool) : M (HashState * list (list byte)) :=
  let version := patchVersion patch in
  '(warn, newState) ← updateHash (getPrevSetValueMAC patchName (patchMutations patch))
                        (mkHashState version (hsHash currentState)) (patchMutations patch);
  _ ← (if validateMACs then
         keys ← validateSnapshotMAC patchName newState (patchKeyID patch) (patchSnapshotMAC patch);
         patchMAC ← lift (generatePatchMAC patch patchName (PatchMACKey keys) (patchVersion patch));
         if decide (patchMAC = patchPatchMAC patch) then mret tt else throw ErrMismatchingPatchMAC
       else mret tt);
  mret (newState, warn).

Definition decodePatch (name : string) (patch : SyncdPatch) (currentState : HashState) (validateMACs : bool)
    (newMutations : list Mutation) : M (list Mutation * HashState) :=
  '(newState, _) ← validatePatch name patch currentState validateMACs;
  out ← decodeMutations (patchMutations patch) (mkOutput [] [] newMutations) validateMACs (hsVersion newState) ∅;
  _ ← storeMACs name newState out;
  mret (Mutations out, newState).

Fixpoint decodePatchLoop (name : string) (patches : list SyncdPatch) (currentState : HashState)
    (validateMACs : bool) (newMutations : list Mutation) : M (list Mutation * HashState) :=
  match patches with
  | [] => mret (newMutations, currentState)
  | patch :: patches =>
      '(newMutations, currentState) ← decodePatch name patch currentState validateMACs newMutations;
      decodePatchLoop name patches currentState validateMACs newMutations
  end.

Definition DecodePatches (list_ : PatchList) (initialState : HashState) (validateMACs : bool) :
    M (list Mutation * HashState) :=
  '(newMutations, currentState) ←
    (match Snapshot list_ with
     | Some ss => decodeSnapshot (plName list_) ss initialState validateMACs []
     | None => mret ([], initialState)
     end : M (list Mutation * HashState));
  decodePatchLoop (plName list_) (Patches list_) currentState validateMACs newMutations.

(** ** Recovery from a primary device *)

Record SyncdPlainTextRecord := mkPlain { ptValue : SyncActionData; ptKeyID : option (list byte); ptMac : list byte }.
Record SyncdSnapshotRecovery := mkRecovery {
  recVersion : Z;
  CollectionName : string;
  MutationRecords : list SyncdPlainTextRecord;
  CollectionLthash : list byte
}.

Fixpoint recoverRecords (i : nat) (version : Z) (records : list SyncdPlainTextRecord) :
    M (list AppStateMutationMAC * list Mutation) :=
  match records with
  | [] => mret ([], [])
  | r :: records =>
      keys ← getAppStateKey (ptKeyID r);
      match jsonUnmarshalStrings (saIndex (ptValue r)) with
      | None => throw (IndexUnmarshalFailed (i + 1))
      | Some parsedIndex =>
          let indexMAC := hmacSha256 (IndexKey keys) (saIndex (ptValue r)) in
          '(macs, muts) ← recoverRecords (1 + i) version records;
          mret (mkMAC indexMAC (ptMac r) :: macs,
                mkMut (ptKeyID r) SET (saValue (ptValue r)) (saVersion (ptValue r)) parsedIndex
                  indexMAC (ptMac r) version :: muts)
      end
  end.

Definition ProcessRecovery (recovery : SyncdSnapshotRecovery) : M (list Mutation) :=
  if decide (length (CollectionLthash recovery) ≠ 128)
  then throw (InvalidLTHashLength (length (CollectionLthash recovery)))
  else
    let name := CollectionName recovery in
    let version := recVersion recovery in
    '(macs, mutations) ← recoverRecords 0 version (MutationRecords recovery);
    _ ← onStore (DeleteAppStateVersion name);
    _ ← onStore (PutAppStateVersion name version (CollectionLthash recovery));
    _ ← onStore (PutAppStateMutationMACs name version macs);
    mret mutations.
End processor.
