(* ===== verification/AppStateTheory.v ===== *)
(** The app state processor keeps the collection: the specification of a
    collection as a finite map, and the proof that decoding snapshots and patches
    implements it over any store that keeps its promises. *)
From Stdlib Require Import ZArith Lia.
From Stdlib Require Import Strings.Byte.
From stdpp Require Import prelude gmap strings list fin_maps.
From S2P Require Import Prelude Strconv Cbc LTHash AppStore AppState.

(** ** The specification *)

(** A collection: index MACs to value MACs. *)
Notation collection := (gmap (list byte) (list byte)).

Definition suffix32 (l : list byte) : list byte := drop (length l - 32) l.

Definition applyMutation (V : collection) (m : SyncdMutation) : collection :=
  match Operation m with
  | SET => <[indexBlob (mRecord m) := suffix32 (valueBlob (mRecord m))]> V
  | REMOVE => delete (indexBlob (mRecord m)) V
  end.
Definition applyAll (V : collection) (l : list SyncdMutation) : collection := foldl applyMutation V l.

(** The sum of a function over the values of a collection. *)
Definition sumV (f : list byte → Z) (V : collection) : Z := sumZ (f ∘ snd <$> map_to_list V).

Definition valueOr0 (f : list byte → Z) (o : option (list byte)) : Z :=
  match o with Some x => f x | None => 0%Z end.

Lemma sumV_empty f : sumV f ∅ = 0%Z.
Proof. unfold sumV. by rewrite map_to_list_empty. Qed.

Lemma sumV_delete f V k : sumV f (delete k V) = (sumV f V - valueOr0 f (V !! k))%Z.
Proof.
  destruct (V !! k) as [x|] eqn:Hk; cbn [valueOr0].
  - unfold sumV. rewrite <- (map_to_list_delete V k x Hk).
    rewrite fmap_cons, sumZ_cons. cbn [compose snd]. lia.
  - rewrite delete_id by done. lia.
Qed.

Lemma sumV_insert f V k v : sumV f (<[k := v]> V) = (sumV f V - valueOr0 f (V !! k) + f v)%Z.
Proof.
  rewrite <- insert_delete_eq, <- sumV_delete. unfold sumV.
  rewrite map_to_list_insert by apply lookup_delete_eq.
  rewrite fmap_cons, sumZ_cons. cbn [compose snd]. lia.
Qed.

Lemma sumV_apply f V m :
  sumV f (applyMutation V m) =
  (sumV f V - valueOr0 f (V !! indexBlob (mRecord m)) +
   match Operation m with SET => f (suffix32 (valueBlob (mRecord m))) | REMOVE => 0 end)%Z.
Proof.
  unfold applyMutation. destruct (Operation m); [apply sumV_insert|]. rewrite sumV_delete. lia.
Qed.

(** A 128-byte hash is the hash of a collection. *)
Definition hashOf `{HKDF} (V : collection) (h : list byte) : Prop :=
  length h = 128 ∧ ∀ i, i < 64 → lane i h = u16 (sumV (lane i ∘ expand) V).

Lemma lane_zero n i : lane i (replicate n x00) = 0%Z.
Proof.
  unfold lane. destruct (replicate n x00 !! (2 * i)) as [a|] eqn:Ha; [|done].
  destruct (replicate n x00 !! (2 * i + 1)) as [b|] eqn:Hb; [|done].
  apply lookup_replicate in Ha as [-> _], Hb as [-> _]. done.
Qed.

Lemma hashOf_empty `{HKDF} : hashOf ∅ (replicate 128 x00).
Proof. split; [done|]. intros i _. by rewrite sumV_empty, lane_zero. Qed.

(** The hash determines nothing but itself: two hashes of one collection agree. *)
Lemma hashOf_unique `{HKDF} V h h' : hashOf V h → hashOf V h' → h = h'.
Proof.
  intros [Hl Hh] [Hl' Hh']. apply (lanes_ext 64); [done..|]. intros i Hi. by rewrite Hh, Hh'.
Qed.

(** ** Calls that leave the collections alone *)

Section keeps.
Context {S E : Type} `{AppStateStoreLaws S E}.
Context (name : string).

(** The collection is the same and every cached key is still cached. *)
Definition same (p p' : Processor S) : Prop :=
  view name (procStore p') = view name (procStore p) ∧
  stored name (procStore p') = stored name (procStore p) ∧
  (∀ v, below name v (procStore p) → below name v (procStore p')) ∧
  keyCache p ⊆ keyCache p'.

#[global] Instance same_preorder : PreOrder same.
Proof.
  split; [done|]. intros p1 p2 p3 (H1 & H2 & H3 & H4) (H5 & H6 & H7 & H8).
  split_and!; [congruence..|auto|by transitivity (keyCache p2)].
Qed.

Definition keeps {F A} (m : stateM (Processor S) F A) : Prop :=
  ∀ p r p', m p = (r, p') → same p p'.

Lemma keeps_ret {F A} (a : A) : keeps (mret a : stateM _ F A).
Proof. by intros p r p' [= <- <-]. Qed.
Lemma keeps_lift {F A} (o : outcome F A) : keeps (lift o).
Proof. by intros p r p' [= <- <-]. Qed.
Lemma keeps_throw {F A} (e : F) : keeps (throw e : stateM _ F A).
Proof. by intros p r p' [= <- <-]. Qed.
Lemma keeps_bind {F A B} (m : stateM (Processor S) F A) (f : A → stateM (Processor S) F B) :
  keeps m → (∀ a, keeps (f a)) → keeps (m ≫= f).
Proof.
  intros Hm Hf p r p'. unfold mbind, stateM_bind. destruct (m p) as [r1 p1] eqn:E1.
  apply Hm in E1. destruct r1 as [a|e| |]; [|by intros [= <- <-]..].
  intros E2%Hf. by transitivity p1.
Qed.
End keeps.

Create HintDb keeps.
#[export] Hint Resolve keeps_ret keeps_lift keeps_throw : keeps.

(** Walk through a call built from calls that keep the collections. *)
Ltac keep :=
  repeat first
    [ progress (auto with keeps nocore)
    | progress intros
    | apply keeps_bind; [|intros ?]
    | match goal with |- context [match ?x with _ => _ end] => destruct x end ].

Section processor.
Context `{CryptoLaws} `{HKDFLaws} `{AppCodec} {S E : Type} `{AppStateStoreLaws S E}.
Context (name : string).
Notation M := (stateM (Processor S) (asError E)).
Notation keeps := (keeps (S := S) (E := E) name).

(** The keys a processor holds under an id. *)
Definition cached (p : Processor S) (id : option (list byte)) (keys : ExpandedAppStateKeys) : Prop :=
  keyCache p !! EncodeToString (default [] id) = Some keys.

Lemma same_cached p p' id keys : same name p p' → cached p id keys → cached p' id keys.
Proof. intros (_ & _ & _ & Hc) Hk. by eapply lookup_weaken. Qed.

Lemma onStore_keeps {A} (m : stateM S E A) :
  (∀ s r s', m s = (r, s') →
     view name s' = view name s ∧ stored name s' = stored name s ∧ (∀ v, below name v s → below name v s')) →
  keeps (onStore m).
Proof.
  intros Hm p r p'. unfold onStore, zoom. destruct (m (procStore p)) as [r1 s1] eqn:E1.
  intros [= <- <-]. apply Hm in E1 as (? & ? & ?). by split_and!.
Qed.

Lemma getAppStateKey_run id p r p' :
  getAppStateKey id p = (r, p') → same name p p' ∧ ∀ keys, r = Ok keys → cached p' id keys.
Proof.
  unfold getAppStateKey, cached, mbind at 1, stateM_bind at 1. cbn [get].
  destruct (keyCache p !! _) as [keys|] eqn:Hc.
  { intros [= <- <-]. split; [done|]. by intros ? [= ->]. }
  unfold mbind, stateM_bind, onStore at 1, zoom.
  destruct (GetAppStateSyncKey id (procStore p)) as [r1 s1] eqn:E1.
  apply (get_key_law _ _ _ _ name) in E1 as (Hv & Hst & Hb).
  assert (same name p (mkProc (keyCache p) s1)) as Hs by (by split_and!).
  destruct r1 as [[k|]|e| |]; cbn [map_err]; try (by intros [= <- <-]).
  unfold lift. destruct (expandAppStateKeys (KeyData k)) as [keys|e| |]; try (by intros [= <- <-]).
  cbn [modify keyCache procStore mret stateM_ret]. intros [= <- <-]. split.
  - split_and!; [done..|]. cbn [keyCache]. by apply insert_subseteq.
  - intros ? [= <-]. apply lookup_insert_eq.
Qed.

Lemma getAppStateKey_keeps id : keeps (getAppStateKey id).
Proof. intros p r p' [Hs _]%getAppStateKey_run. exact Hs. Qed.
Hint Resolve getAppStateKey_keeps : keeps.

Lemma validateSnapshotMAC_keeps n hs id mac : keeps (validateSnapshotMAC n hs id mac).
Proof. unfold validateSnapshotMAC. keep. Qed.
Hint Resolve validateSnapshotMAC_keeps : keeps.

Lemma decodeMutation_keeps m i b : keeps (decodeMutation m i b).
Proof. unfold decodeMutation. keep. Qed.
Hint Resolve decodeMutation_keeps : keeps.

Lemma decodeMutationsFrom_keeps muts : ∀ i out b v fake, keeps (decodeMutationsFrom i muts out b v fake).
Proof. induction muts as [|m muts IH]; intros; cbn [decodeMutationsFrom]; keep; apply IH. Qed.
Hint Resolve decodeMutationsFrom_keeps : keeps.

Lemma getPrev_keeps muts i k : keeps (getPrevSetValueMAC name muts i k).
Proof.
  unfold getPrevSetValueMAC. apply keeps_bind; [keep|]. intros [r|]; [keep|].
  apply onStore_keeps. intros s r s' Hr. by apply get_mac_law in Hr as [_ Hr].
Qed.
Hint Resolve getPrev_keeps : keeps.

Lemma collectMACs_keeps (prev : list byte → nat → M (option (list byte))) muts :
  (∀ i k, keeps (prev i k)) → ∀ i, keeps (collectMACs prev i muts).
Proof. intros Hg. induction muts as [|m muts IH]; intros i; cbn [collectMACs]; keep; apply Hg || apply IH. Qed.

Lemma updateHash_keeps (prev : list byte → nat → M (option (list byte))) hs muts :
  (∀ i k, keeps (prev i k)) → keeps (updateHash prev hs muts).
Proof. intros. unfold updateHash. apply keeps_bind; [by apply collectMACs_keeps|keep]. Qed.

Lemma validatePatch_keeps patch hs b : keeps (validatePatch name patch hs b).
Proof. unfold validatePatch. apply keeps_bind; [apply updateHash_keeps; keep|]. intros [w hs']. keep. Qed.
End processor.

(** ** The hash follows the collection *)

Lemma macSuffix_Ok {E} l v : macSuffix (E := E) l = Ok v → v = suffix32 l ∧ 32 ≤ length l.
Proof. unfold macSuffix. case_decide; intros [= <-]. split; [done|lia]. Qed.

Lemma applyAll_snoc V l m : applyAll V (l ++ [m]) = applyMutation (applyAll V l) m.
Proof. unfold applyAll. by rewrite foldl_app. Qed.
Lemma applyAll_app V l k : applyAll V (l ++ k) = applyAll (applyAll V l) k.
Proof. unfold applyAll. by rewrite foldl_app. Qed.

Lemma applyMutation_lookup V m i :
  applyMutation V m !! i =
  if decide (indexBlob (mRecord m) = i)
  then match Operation m with SET => Some (suffix32 (valueBlob (mRecord m))) | REMOVE => None end
  else V !! i.
Proof.
  unfold applyMutation. destruct (Operation m); case_decide as Hi; subst;
    simplify_map_eq; done.
Qed.

Lemma previousInPatch_spec {E} V pre i r :
  previousInPatch (E := E) (rev pre) i = Ok r →
  applyAll V pre !! i = match r with Some x => x | None => V !! i end.
Proof.
  revert r; induction pre as [|m pre IH] using rev_ind; intros r.
  { cbn. by intros [= <-]. }
  rewrite rev_unit, applyAll_snoc, applyMutation_lookup. cbn [previousInPatch].
  case_decide; [|apply IH]. destruct (Operation m); [|by intros [= <-]].
  intros H'. inv_ok. by apply macSuffix_Ok in Hx as [-> _].
Qed.

Section hash.
Context `{CryptoLaws} `{HKDFLaws} `{AppCodec} {S E : Type} `{AppStateStoreLaws S E}.
Context (name : string).
Notation M := (stateM (Processor S) (asError E)).
Notation keeps := (keeps (S := S) (E := E) name).

Definition holds (V : collection) (s : S) : Prop := ∀ i, view name s i = V !! i.

Lemma keeps_holds {A} (m : M A) V p r p' :
  keeps m → m p = (r, p') → holds V (procStore p) → holds V (procStore p').
Proof. intros Hk [Hv _]%Hk Hh i. by rewrite Hv. Qed.

Lemma onStore_Ok {A} (m : stateM S E A) p a p' :
  onStore m p = (Ok a, p') → m (procStore p) = (Ok a, procStore p').
Proof.
  unfold onStore, zoom. destruct (m (procStore p)) as [[x| | |] s]; intros [= <- <-]. done.
Qed.

Lemma getPrev_value V all i k p r p' :
  holds V (procStore p) → getPrevSetValueMAC name all i k p = (Ok r, p') →
  r = applyAll V (take k all) !! i.
Proof.
  intros Hh Hr. unfold getPrevSetValueMAC in Hr. inv_run.
  rewrite (previousInPatch_spec _ _ _ _ Hx). destruct x as [x|]; inv_run; [done|].
  apply onStore_Ok, get_mac_law in Hr as [Hv _]. rewrite (Hv _ eq_refl). apply Hh.
Qed.

Lemma collectMACs_patch V all pre muts p added removed warn p' :
  all = pre ++ muts → holds V (procStore p) →
  collectMACs (getPrevSetValueMAC name all) (length pre) muts p = (Ok (added, removed, warn), p') →
  ∀ f, (sumZ (f <$> added) - sumZ (f <$> removed) = sumV f (applyAll V all) - sumV f (applyAll V pre))%Z.
Proof.
  revert pre p added removed warn. induction muts as [|m muts IH]; intros pre p added removed warn -> Hh Hc f.
  { rewrite app_nil_r. cbn in Hc. inv_run. lia. }
  cbn [collectMACs] in Hc. inv_run.
  destruct x1 as [rem warning]. inv_run. destruct x1 as [[added' removed'] warnings]. inv_run.
  assert (holds V (procStore s)) as Hh1.
  { destruct (Operation m); inv_run; done. }
  pose proof (getPrev_value _ _ _ _ _ _ _ Hh1 Hx0) as Hprev. rewrite take_app_length in Hprev.
  assert (holds V (procStore s0)) as Hh2 by (eapply keeps_holds; [apply getPrev_keeps|done..]).
  assert (s1 = s0) as -> by (destruct x0, (Operation m); inv_run; done).
  replace (1 + length pre) with (length (pre ++ [m])) in Hx2 by (rewrite length_app; cbn; lia).
  replace (pre ++ m :: muts) with ((pre ++ [m]) ++ muts) in * by (by rewrite <- app_assoc).
  specialize (IH (pre ++ [m]) s0 added' removed' warnings eq_refl Hh2 Hx2 f).
  rewrite !fmap_app, !sumZ_app. rewrite applyAll_snoc, sumV_apply, <- Hprev in IH.
  assert (sumZ (f <$> rem) = valueOr0 f x0) as Hrem.
  { destruct x0, (Operation m); inv_run; cbn; lia. }
  assert (sumZ (f <$> x) = match Operation m with SET => f (suffix32 (valueBlob (mRecord m))) | REMOVE => 0 end)%Z
    as Hadd.
  { destruct (Operation m); inv_run; [|done].
    match goal with H : macSuffix _ = Ok _ |- _ => apply macSuffix_Ok in H as [-> _] end. cbn. lia. }
  lia.
Qed.

(** An update that accounts for the difference of two collections turns the
    hash of the one into the hash of the other. *)
Lemma hashOf_update V V' h removed added r :
  hashOf V h →
  (∀ f, (sumZ (f <$> added) - sumZ (f <$> removed) = sumV f V' - sumV f V)%Z) →
  SubtractThenAddInPlace WAPatchIntegrity h removed added = Ok r → hashOf V' r.
Proof.
  intros [Hl Hh] Hsum Hr. destruct (SubtractThenAdd_lanes h removed added Hl) as (r' & Hr' & Hl' & Hlane).
  rewrite Hr in Hr'. injection Hr' as <-. split; [done|]. intros i Hi.
  rewrite Hlane, Hh, u16_shift by done. f_equal. specialize (Hsum (lane i ∘ expand)). lia.
Qed.

Lemma updateHash_patch V patch hs p warn hs' p' :
  holds V (procStore p) → hashOf V (hsHash hs) →
  updateHash (getPrevSetValueMAC name (patchMutations patch)) hs (patchMutations patch) p = (Ok (warn, hs'), p') →
  hsVersion hs' = hsVersion hs ∧ hashOf (applyAll V (patchMutations patch)) (hsHash hs').
Proof.
  intros Hh Hhash Hu. unfold updateHash in Hu. inv_run. destruct x as [[added removed] warnings]. inv_run.
  cbn [hsVersion hsHash]. split; [done|].
  destruct (SubtractThenAddInPlace _ _ _ _) as [h|[]| |] eqn:Eh; cbn [map_err] in Hx0; try discriminate.
  injection Hx0 as <-.
  eapply hashOf_update; [done| |done].
  by apply (collectMACs_patch V _ [] _ _ _ _ _ _ eq_refl Hh Hx).
Qed.
End hash.

(** ** What decoding returns and records *)

Section decode.
Context `{CryptoLaws} `{HKDFLaws} `{AppCodec} {S E : Type} `{AppStateStoreLaws S E}.
Context (name : string).
Notation M := (stateM (Processor S) (asError E)).
Notation keeps := (keeps (S := S) (E := E) name).

(** [mut] is what mutation [m] says, under the keys the processor holds for
    its key id and, when [validate] is set, with both MACs of it verified. *)
Definition decodes (validate : bool) (p : Processor S) (version : Z) (m : SyncdMutation) (mut : Mutation) : Prop :=
  let r := mRecord m in
  let content := take (length (valueBlob r) - 32) (valueBlob r) in
  ∃ keys plaintext sa index,
    cached p (recordKeyID r) keys ∧
    (Decrypt (ValueEncryption keys) (take 16 content) (drop 16 content)).1 = Ok plaintext ∧
    unmarshalActionData plaintext = Some sa ∧
    jsonUnmarshalStrings (saIndex sa) = Some index ∧
    (validate = true →
      generateContentMAC (E := asError E) (Operation m) content (default [] (recordKeyID r)) (ValueMACKey keys) =
        Ok (suffix32 (valueBlob r)) ∧
      hmacSha256 (IndexKey keys) (saIndex sa) = indexBlob r) ∧
    mut = mkMut (recordKeyID r) (Operation m) (saValue sa) (saVersion sa) index (indexBlob r)
            (suffix32 (valueBlob r)) version.

Lemma decodes_same validate p p' version m mut :
  same name p p' → decodes validate p version m mut → decodes validate p' version m mut.
Proof.
  intros Hs (keys & pl & sa & index & Hc & Hrest). exists keys, pl, sa, index.
  split; [by eapply same_cached|done].
Qed.

Lemma decodeMutation_Ok m i validate version p im vm index sa p' :
  decodeMutation m i validate p = (Ok (im, vm, index, sa), p') →
  im = indexBlob (mRecord m) ∧ vm = suffix32 (valueBlob (mRecord m)) ∧ same name p p' ∧
  decodes validate p' version m
    (mkMut (recordKeyID (mRecord m)) (Operation m) (saValue sa) (saVersion sa) index im vm version).
Proof.
  intros Hd. assert (same name p p') as Hs by (by eapply decodeMutation_keeps).
  unfold decodeMutation in Hd. inv_run.
  apply (getAppStateKey_run name) in Hx as [_ Hc]. specialize (Hc _ eq_refl).
  apply macSuffix_Ok in Hx0 as [-> _].
  destruct (unmarshalActionData _) as [sa'|] eqn:Hun; [|done]. inv_run.
  destruct (jsonUnmarshalStrings _) as [index'|] eqn:Hj; [|done]. inv_run.
  set (content := take _ _) in *.
  assert ((Decrypt (ValueEncryption x) (take 16 content) (drop 16 content)).1 = Ok x3) as Hdec.
  { destruct (Decrypt _ _ _).1; cbn [map_err] in Hx3; try discriminate. by injection Hx3 as ->. }
  destruct validate; inv_run; repeat (case_decide; inv_run); subst; split_and!; try done;
    exists x, x3, sa, index; split_and!; done.
Qed.

(** What a record of removals and additions makes of a collection. *)
Definition recorded (V : collection) (out : patchOutput) (i : list byte) : option (list byte) :=
  match addedMAC (reverse (AddedMACs out)) i with
  | Some x => Some x
  | None => if decide (i ∈ RemovedMACs out) then None else V !! i
  end.

Lemma addedMAC_app l k i :
  addedMAC (l ++ k) i = match addedMAC l i with Some x => Some x | None => addedMAC k i end.
Proof using. induction l as [|m l IH]; [done|]. cbn [app addedMAC]. by case_decide. Qed.

Lemma addedMAC_filter l k i :
  addedMAC (filter (λ m, IndexMAC m ≠ k) l) i = if decide (i = k) then None else addedMAC l i.
Proof using.
  induction l as [|m l IH]; [by case_decide|]. rewrite filter_cons. cbn [addedMAC].
  destruct (decide (IndexMAC m ≠ k)) as [Hm|Hm]; cbn [addedMAC]; rewrite IH;
    repeat case_decide; subst; try done; by destruct Hm.
Qed.

Lemma recorded_step V W out m mut :
  (∀ i, recorded V out i = W !! i) →
  ∀ i, recorded V
    (let out := match Operation m with
                | REMOVE => RemoveMAC (indexBlob (mRecord m)) out
                | SET => AddMAC (indexBlob (mRecord m)) (suffix32 (valueBlob (mRecord m))) out
                end in mkOutput (RemovedMACs out) (AddedMACs out) (Mutations out ++ [mut])) i =
    applyMutation W m !! i.
Proof using.
  intros Hrec i. rewrite applyMutation_lookup, <- Hrec. unfold recorded.
  destruct (Operation m); cbn [AddMAC RemoveMAC AddedMACs RemovedMACs].
  - rewrite reverse_snoc. cbn [addedMAC IndexMAC ValueMAC]. by case_decide.
  - rewrite <- filter_reverse, addedMAC_filter.
    destruct (decide (indexBlob (mRecord m) = i)) as [<-|Hi].
    + rewrite decide_True by done. rewrite decide_True; [done|]. apply elem_of_app. right. by left.
    + rewrite decide_False by congruence. destruct (addedMAC _ i); [done|].
      apply decide_ext. rewrite elem_of_app, list_elem_of_singleton. naive_solver.
Qed.

(** Decoding a list of mutations from any point of a patch. *)
Lemma decodeMutationsFrom_Ok V validate version muts : ∀ i out W p out' p',
  (∀ j, recorded V out j = W !! j) →
  decodeMutationsFrom i muts out validate version ∅ p = (Ok out', p') →
  (∀ j, recorded V out' j = applyAll W muts !! j) ∧ same name p p' ∧
  ∃ news, Mutations out' = Mutations out ++ news ∧ Forall2 (decodes validate p' version) muts news.
Proof.
  induction muts as [|m muts IH]; intros i out W p out' p' Hrec Hd.
  { cbn in Hd. inv_run. split_and!; [done..|]. exists []. rewrite app_nil_r. by split. }
  cbn [decodeMutationsFrom] in Hd. inv_run.
  destruct x as [[[im vm] index] sa].
  destruct (decodeMutation_Ok m i validate version _ _ _ _ _ _ Hx) as (-> & -> & Hs1 & Hdec).
  rewrite lookup_empty in Hd.
  set (mut := mkMut _ _ _ _ _ _ _ _) in *.
  apply (IH _ _ (applyMutation W m)) in Hd as (Hrec' & Hs2 & news & Hnews & Hall).
  - split_and!; [done|by transitivity s|]. exists (mut :: news). split.
    + rewrite Hnews. cbn [Mutations]. rewrite <- app_assoc. by destruct (Operation m).
    + constructor; [by eapply decodes_same|done].
  - exact (recorded_step V W out m mut Hrec).
Qed.

Lemma addedMAC_reverse l i : NoDup (IndexMAC <$> l) → addedMAC (reverse l) i = addedMAC l i.
Proof using.
  induction l as [|m l IH]; intros Hnd; [done|]. rewrite reverse_cons, addedMAC_app.
  apply NoDup_cons in Hnd as [Hm Hnd]. rewrite IH by done. cbn [addedMAC].
  destruct (addedMAC l i) as [x|] eqn:Hx; [|done].
  rewrite decide_False; [done|]. intros <-. by rewrite addedMAC_None in Hx.
Qed.

(** Storing what was recorded makes the collection of it. *)
Lemma storeMACs_Ok V hs out p p' :
  holds name V (procStore p) → below name (hsVersion hs) (procStore p) →
  storeMACs name hs out p = (Ok tt, p') →
  NoDup (IndexMAC <$> AddedMACs out) ∧
  (∀ i, view name (procStore p') i = recorded V out i) ∧
  below name (hsVersion hs + 1) (procStore p') ∧ keyCache p' = keyCache p ∧
  stored name (procStore p') = (hsVersion hs, hsHash hs).
Proof.
  intros Hh Hb Hst. unfold storeMACs in Hst. inv_run. destruct x, x0.
  assert (keyCache p' = keyCache p) as Hck.
  { clear -Hx Hx0 Hst. unfold onStore, zoom in *. repeat case_match; simplify_eq; done. }
  apply onStore_Ok in Hx, Hx0, Hst.
  apply put_version_law in Hx as (Hv1 & Hst1 & Hb1). apply delete_macs_law in Hx0 as (Hv2 & Hst2 & Hb2).
  apply put_macs_law in Hst as (Hnd & Hv3 & Hst3 & Hb3); [|auto].
  split_and!; [done| |done|done|congruence]. intros i. rewrite Hv3, Hv2, Hv1, Hh. unfold recorded.
  by rewrite addedMAC_reverse.
Qed.
End decode.

(** ** Patches and snapshots *)

Section sync.
Context `{CryptoLaws} `{HKDFLaws} `{AppCodec} {S E : Type} `{AppStateStoreLaws S E}.
Context (name : string).

(** The store holds collection [V] and the state, the state carries the hash of
    [V], and nothing is stored under a version above the state's. *)
Definition synced (hs : HashState) (p : Processor S) (V : collection) : Prop :=
  holds name V (procStore p) ∧ hashOf V (hsHash hs) ∧ below name (hsVersion hs + 1) (procStore p) ∧
  stored name (procStore p) = (hsVersion hs, hsHash hs).

(** The hash of [V'] at the patch's version is what the patch signs. *)
Definition signed (p : Processor S) (V' : collection) (patch : SyncdPatch) : Prop :=
  ∃ keys h, cached p (patchKeyID patch) keys ∧ hashOf V' h ∧
    generateSnapshotMAC (mkHashState (patchVersion patch) h) name (SnapshotMACKey keys) = patchSnapshotMAC patch ∧
    generatePatchMAC (E := asError E) patch name (PatchMACKey keys) (patchVersion patch) = Ok (patchPatchMAC patch).

Definition signedSnapshot (p : Processor S) (V' : collection) (ss : SyncdSnapshot) : Prop :=
  ∃ keys h, cached p (ssKeyID ss) keys ∧ hashOf V' h ∧
    generateSnapshotMAC (mkHashState (ssVersion ss) h) name (SnapshotMACKey keys) = ssMac ss.

Lemma validateSnapshotMAC_Ok hs id mac p keys p' :
  validateSnapshotMAC (E := E) name hs id mac p = (Ok keys, p') →
  cached p' id keys ∧ generateSnapshotMAC hs name (SnapshotMACKey keys) = mac.
Proof.
  unfold validateSnapshotMAC. intros Hv. inv_run. case_decide; inv_run.
  apply (getAppStateKey_run name) in Hx as [_ Hc]. auto.
Qed.

Lemma validatePatch_Ok V patch hs b p hs' warn p' :
  holds name V (procStore p) → hashOf V (hsHash hs) →
  validatePatch name patch hs b p = (Ok (hs', warn), p') →
  same name p p' ∧ hsVersion hs' = patchVersion patch ∧
  hashOf (applyAll V (patchMutations patch)) (hsHash hs') ∧
  (b = true → signed p' (applyAll V (patchMutations patch)) patch).
Proof.
  intros Hh Hhash Hv. pose proof (validatePatch_keeps name patch hs b _ _ _ Hv) as Hs.
  unfold validatePatch in Hv. inv_run. destruct x as [w hs1]. inv_run.
  apply (updateHash_patch name V) in Hx as [Hver Hnew]; [|done..].
  assert (b = true → signed p' (applyAll V (patchMutations patch)) patch) as Hsig.
  { intros ->. inv_run. case_decide; inv_run. apply validateSnapshotMAC_Ok in Hx as [Hc Hm].
    exists x0, (hsHash hs'). split_and!; [done..| |by subst].
    cbn [hsVersion] in Hver. rewrite <- Hver. by destruct hs'. }
  by split_and!.
Qed.

Lemma synced_initial p :
  holds name ∅ (procStore p) → below name 1 (procStore p) →
  stored name (procStore p) = (0%Z, replicate 128 x00) → synced zeroState p ∅.
Proof. intros Hh Hb Hs. split_and!; [done|apply hashOf_empty|done..]. Qed.

Lemma recorded_nil V muts i : recorded V (mkOutput [] [] muts) i = V !! i.
Proof using. unfold recorded. cbn. rewrite decide_False; [done|apply not_elem_of_nil]. Qed.

Lemma decodePatch_Ok V patch hs b muts p muts' hs' p' :
  synced hs p V → (hsVersion hs < patchVersion patch)%Z →
  decodePatch name patch hs b muts p = (Ok (muts', hs'), p') →
  synced hs' p' (applyAll V (patchMutations patch)) ∧ hsVersion hs' = patchVersion patch ∧
  (∀ id keys, cached p id keys → cached p' id keys) ∧
  (b = true → signed p' (applyAll V (patchMutations patch)) patch) ∧
  ∃ news, muts' = muts ++ news ∧ Forall2 (decodes (E := E) b p' (patchVersion patch)) (patchMutations patch) news.
Proof.
  intros (Hh & Hhash & Hb & _) Hlt Hd. unfold decodePatch in Hd. inv_run. destruct x as [hs1 warn]. inv_run.
  destruct (validatePatch_Ok V _ _ _ _ _ _ _ Hh Hhash Hx) as (Hs1 & Hver & Hnew & Hsig).
  destruct (decodeMutationsFrom_Ok name V b _ _ 0 _ V _ _ _ (recorded_nil V muts) Hx0)
    as (Hrec & Hs2 & news & Hnews & Hall).
  assert (same name p s0) as Hs by (by transitivity s). pose proof Hs as (Hv & _ & Hbel & _).
  destruct x0. destruct (storeMACs_Ok name V hs' x s0 p') as (_ & Hview & Hb' & Hck & Hst'); [|by rewrite Hver; eauto using below_weaken with lia..|done|].
  { intros i. rewrite Hv. apply Hh. }
  assert (∀ id keys, cached s0 id keys → cached p' id keys) as Hc.
  { intros id keys. unfold cached. by rewrite Hck. }
  split_and!.
  - split_and!; [|done..]. intros i. by rewrite Hview, Hrec.
  - done.
  - intros id keys Hk. apply Hc. by eapply same_cached.
  - intros Hbt. destruct (Hsig Hbt) as (keys & h & Hk & Hrest). exists keys, h.
    split; [|done]. apply Hc. by apply (same_cached name _ _ _ _ Hs2).
  - exists news. split; [by rewrite Hnews|]. rewrite Hver in Hall.
    eapply Forall2_impl; [done|]. intros m mut (keys & pl & sa & index & Hk & Hrest).
    exists keys, pl, sa, index. split; [by apply Hc|done].
Qed.
End sync.

Section snapshot.
Context `{CryptoLaws} `{HKDFLaws} `{AppCodec} {S E : Type} `{AppStateStoreLaws S E}.
Context (name : string).

Definition sets (records : list SyncdRecord) : list SyncdMutation := mkMutation SET <$> records.

Lemma applyAll_sets_notin V records i :
  i ∉ indexBlob <$> records → applyAll V (sets records) !! i = V !! i.
Proof using.
  revert V; induction records as [|r records IH]; intros V Hi; [done|].
  rewrite fmap_cons in Hi. apply not_elem_of_cons in Hi as [Hne Hi].
  change (applyAll V (sets (r :: records))) with (applyAll (applyMutation V (mkMutation SET r)) (sets records)).
  rewrite IH, applyMutation_lookup by done. cbn [mRecord]. by rewrite decide_False by congruence.
Qed.

Lemma sumV_sets f records :
  NoDup (indexBlob <$> records) →
  sumV f (applyAll ∅ (sets records)) = sumZ (f <$> (suffix32 ∘ valueBlob <$> records)).
Proof using.
  induction records as [|r records IH] using rev_ind; intros Hnd; [apply sumV_empty|].
  unfold sets in *. rewrite !fmap_app, sumZ_app in *. apply NoDup_app in Hnd as (Hnd & Hr & _).
  cbn [fmap list_fmap]. rewrite applyAll_snoc, sumV_apply, IH by done. cbn [mRecord Operation].
  rewrite (applyAll_sets_notin ∅ records), lookup_empty; [cbn; lia|].
  intros Hin. apply (Hr _ Hin). by left.
Qed.

Lemma collectMACs_snapshot records : ∀ i (p : Processor S) added removed warn p',
  collectMACs (E := asError E) (λ _ _, mret None) i (sets records) p = (Ok (added, removed, warn), p') →
  added = (suffix32 ∘ valueBlob <$> records) ∧ removed = [] ∧ p' = p.
Proof using.
  induction records as [|r records IH]; intros i p added removed warn p' Hc; cbn in Hc; inv_run; [done|].
  apply macSuffix_Ok in Hx2 as [-> _]. destruct x as [[added' removed'] warnings].
  apply IH in Hx as (-> & -> & ->). by inv_run.
Qed.

Lemma decodeMutationsFrom_sets validate version records : ∀ i out p out' p',
  decodeMutationsFrom (S := S) (E := E) i (sets records) out validate version ∅ p = (Ok out', p') →
  AddedMACs out' = AddedMACs out ++ ((λ r, mkMAC (indexBlob r) (suffix32 (valueBlob r))) <$> records).
Proof.
  induction records as [|r records IH]; intros i out p out' p' Hd.
  { cbn in Hd. inv_run. by rewrite app_nil_r. }
  cbn [sets fmap list_fmap decodeMutationsFrom] in Hd. inv_run. destruct x as [[[im vm] index] sa].
  destruct (decodeMutation_Ok name _ i validate version _ _ _ _ _ _ Hx) as (-> & -> & _ & _).
  cbn [Operation] in Hd. apply IH in Hd. rewrite Hd. cbn [AddMAC AddedMACs]. by rewrite <- app_assoc.
Qed.

Lemma updateHash_snapshot records hs (p : Processor S) w hs' p' :
  updateHash (E := asError E) (λ _ _, mret None) hs (sets records) p = (Ok (w, hs'), p') →
  hashOf ∅ (hsHash hs) →
  p' = p ∧ hsVersion hs' = hsVersion hs ∧
  (NoDup (indexBlob <$> records) → hashOf (applyAll ∅ (sets records)) (hsHash hs')).
Proof.
  unfold updateHash. intros Hu Hhash. inv_run. destruct x as [[added removed] warnings]. inv_run.
  apply collectMACs_snapshot in Hx as (-> & -> & ->). cbn [hsVersion hsHash] in *. split_and!; [done..|].
  intros Hnd. destruct (SubtractThenAddInPlace _ _ _ _) as [h|[]| |] eqn:Eh; cbn [map_err] in Hx0; try discriminate.
  injection Hx0 as <-. eapply hashOf_update; [done| |done].
  intros f. rewrite sumV_sets, sumV_empty by done. cbn. lia.
Qed.

Lemma decodeSnapshot_Ok ss hs b muts p muts' hs' p' :
  synced name hs p ∅ → (hsVersion hs < ssVersion ss)%Z →
  decodeSnapshot (E := E) name ss hs b muts p = (Ok (muts', hs'), p') →
  synced name hs' p' (applyAll ∅ (sets (ssRecords ss))) ∧ hsVersion hs' = ssVersion ss ∧
  NoDup (indexBlob <$> ssRecords ss) ∧
  (∀ id keys, cached p id keys → cached p' id keys) ∧
  (b = true → signedSnapshot name p' (applyAll ∅ (sets (ssRecords ss))) ss) ∧
  ∃ news, muts' = muts ++ news ∧ Forall2 (decodes (E := E) b p' (ssVersion ss)) (sets (ssRecords ss)) news.
Proof.
  intros (Hh & Hhash & Hb & _) Hlt Hd. unfold decodeSnapshot in Hd. fold (sets (ssRecords ss)) in Hd.
  inv_run. destruct x as [w hs1]. inv_run.
  destruct (decodeMutationsFrom_Ok name ∅ b _ _ 0 _ ∅ _ _ _ (recorded_nil ∅ muts) Hx1)
    as (Hrec & Hs2 & news & Hnews & Hall).
  pose proof (decodeMutationsFrom_sets _ _ _ _ _ _ _ _ Hx1) as Hadded. cbn [AddedMACs app] in Hadded.
  apply updateHash_snapshot in Hx as (-> & Hver & Hnew); [|done]. cbn [hsVersion] in Hver.
  assert (same name p s0 ∧ (b = true → ∃ keys, cached s0 (ssKeyID ss) keys ∧
    generateSnapshotMAC hs' name (SnapshotMACKey keys) = ssMac ss)) as [Hs1 Hsig].
  { destruct b; inv_run; [|done]. split; [by eapply validateSnapshotMAC_keeps|].
    intros _. apply validateSnapshotMAC_Ok in Hx. eauto. }
  assert (same name p s1) as Hs by (by transitivity s0). pose proof Hs as (Hv & _ & Hbel & _).
  destruct x1. destruct (storeMACs_Ok name ∅ hs' x0 s1 p') as (Hnd & Hview & Hb' & Hck & Hst');
    [|by rewrite Hver; eauto using below_weaken with lia..|done|].
  { intros i. rewrite Hv. apply Hh. }
  rewrite Hadded, <- list_fmap_compose in Hnd. specialize (Hnew Hnd).
  assert (∀ id keys, cached s1 id keys → cached p' id keys) as Hc.
  { intros id keys. unfold cached. by rewrite Hck. }
  split_and!; [split_and!; [|done..]|done|done| | |].
  - intros i. by rewrite Hview, Hrec.
  - intros id keys Hk. apply Hc. by apply (same_cached name _ _ _ _ Hs).
  - intros Hbt. destruct (Hsig Hbt) as (keys & Hk & Hm). exists keys, (hsHash hs').
    split_and!; [by apply Hc, (same_cached name _ _ _ _ Hs2)|done|].
    rewrite <- Hver, <- Hm. by destruct hs'.
  - exists news. split; [by rewrite Hnews|]. rewrite Hver in Hall.
    eapply Forall2_impl; [done|]. intros m mut (keys & pl & sa & index & Hk & Hrest).
    exists keys, pl, sa, index. split; [by apply Hc|done].
Qed.
End snapshot.
