(* ===== verification/AppStateEncode.v ===== *)
(** Building and encoding app state patches (src/appstate/encode.go). *)
From Stdlib Require Import ZArith Lia.
From Stdlib Require Import Strings.Byte.
From stdpp Require Import prelude gmap strings list fin_maps.
From S2P Require Import Prelude Strconv Cbc LTHash Jid AppStore AppState.

#[local] Open Scope string_scope.

(** ** Patch descriptions *)

Record MutationInfo := mkMutationInfo {
  miIndex : list string;
  miVersion : Z;
  miValue : option SyncActionValue
}.

(** Times are nanoseconds since the epoch; [None] is Go's zero time. *)
Record PatchInfo := mkPatchInfo {
  piTimestamp : option Z;
  piType : string;
  piMutations : list MutationInfo
}.

Definition WAPatchCriticalBlock : string := "critical_block".
Definition WAPatchCriticalUnblockLow : string := "critical_unblock_low".
Definition WAPatchRegularLow : string := "regular_low".
Definition WAPatchRegularHigh : string := "regular_high".
Definition WAPatchRegular : string := "regular".
Definition AllPatchNames : list string :=
  [WAPatchCriticalBlock; WAPatchCriticalUnblockLow; WAPatchRegularHigh; WAPatchRegular; WAPatchRegularLow].

Definition IndexMute : string := "mute".
Definition IndexPin : string := "pin_v1".
Definition IndexArchive : string := "archive".
Definition IndexMarkChatAsRead : string := "markChatAsRead".
Definition IndexLabelAssociationChat : string := "label_jid".
Definition IndexLabelAssociationMessage : string := "label_message".
Definition IndexLabelEdit : string := "label_edit".
Definition IndexQuickReply : string := "quick_reply".
Definition IndexSettingPushName : string := "setting_pushName".
Definition IndexStar : string := "star".
Definition IndexDeleteChat : string := "deleteChat".

Definition UnixMilli (t : Z) : Z := (t / 1000000)%Z.
Definition Unix (t : Z) : Z := (t / 1000000000)%Z.

Definition newMutation (index : list string) (version : Z) (field : actionField) : MutationInfo :=
  mkMutationInfo index version (Some (mkActionValue None [field])).

Definition BuildMuteAbs (target : JID) (mute : bool) (muteEndTimestamp : option Z) : PatchInfo :=
  let muteEndTimestamp :=
    match muteEndTimestamp with
    | None => if mute then Some (-1)%Z else None
    | Some t => Some t
    end in
  mkPatchInfo None WAPatchRegularHigh
    [newMutation [IndexMute; JIDString target] 2 (MuteAction mute muteEndTimestamp)].

Definition BuildMute (now : Z) (target : JID) (mute : bool) (muteDuration : Z) : PatchInfo :=
  BuildMuteAbs target mute
    (if (0 <? muteDuration)%Z then Some (UnixMilli (now + muteDuration)) else None).

Definition newPinMutationInfo (target : JID) (pin : bool) : MutationInfo :=
  newMutation [IndexPin; JIDString target] 5 (PinAction pin).

Definition BuildPin (target : JID) (pin : bool) : PatchInfo :=
  mkPatchInfo None WAPatchRegularLow [newPinMutationInfo target pin].

(** The message range: its timestamp in seconds and the key of the last message. *)
Definition newMessageRange (now : Z) (lastMessageTimestamp : option Z) (lastMessageKey : option (list byte)) :
    Z * option (list byte) :=
  (Unix (default now lastMessageTimestamp), lastMessageKey).

Definition BuildArchive (now : Z) (target : JID) (archive : bool) (lastMessageTimestamp : option Z)
    (lastMessageKey : option (list byte)) : PatchInfo :=
  let '(ts, key) := newMessageRange now lastMessageTimestamp lastMessageKey in
  mkPatchInfo None WAPatchRegularLow
    (newMutation [IndexArchive; JIDString target] 3 (ArchiveChatAction archive ts key)
     :: if archive then [newPinMutationInfo target false] else []).

Definition BuildMarkChatAsRead (now : Z) (target : JID) (read : bool) (lastMessageTimestamp : option Z)
    (lastMessageKey : option (list byte)) : PatchInfo :=
  let '(ts, key) := newMessageRange now lastMessageTimestamp lastMessageKey in
  mkPatchInfo None WAPatchRegularLow
    [newMutation [IndexMarkChatAsRead; JIDString target] 3 (MarkChatAsReadAction read ts key)].

Definition BuildDeleteChat (now : Z) (target : JID) (lastMessageTimestamp : option Z)
    (lastMessageKey : option (list byte)) (deleteMedia : bool) : PatchInfo :=
  let '(ts, key) := newMessageRange now lastMessageTimestamp lastMessageKey in
  mkPatchInfo None WAPatchRegularHigh
    [newMutation [IndexDeleteChat; JIDString target; if deleteMedia then "1" else "0"] 6 (DeleteChatAction ts key)].

Definition newLabelChatMutation (target : JID) (labelID : string) (labeled : bool) : MutationInfo :=
  newMutation [IndexLabelAssociationChat; labelID; JIDString target] 3 (LabelAssociationAction labeled).

Definition BuildLabelChat (target : JID) (labelID : string) (labeled : bool) : PatchInfo :=
  mkPatchInfo None WAPatchRegular [newLabelChatMutation target labelID labeled].

Record LabelChatChange := mkLabelChange { LabelID : string; Labeled : bool }.

(** The loop of [BuildLabelChatChanges]: [mutationIndexes] is where the mutation
    of a label stands; a later change of it replaces that one. *)
Fixpoint labelChanges (target : JID) (changes : list LabelChatChange) (mutationIndexes : gmap string nat)
    (mutations : list MutationInfo) : list MutationInfo :=
  match changes with
  | [] => mutations
  | change :: changes =>
      let mutation := newLabelChatMutation target (LabelID change) (Labeled change) in
      match mutationIndexes !! LabelID change with
      | Some index => labelChanges target changes mutationIndexes (<[index := mutation]> mutations)
      | None => labelChanges target changes (<[LabelID change := length mutations]> mutationIndexes)
                  (mutations ++ [mutation])
      end
  end.
Definition BuildLabelChatChanges (target : JID) (changes : list LabelChatChange) : PatchInfo :=
  mkPatchInfo None WAPatchRegular (labelChanges target changes ∅ []).

Definition newLabelMessageMutation (target : JID) (labelID messageID : string) (labeled : bool) : MutationInfo :=
  newMutation [IndexLabelAssociationMessage; labelID; JIDString target; messageID; "0"; "0"] 3
    (LabelAssociationAction labeled).

Definition BuildLabelMessage (target : JID) (labelID messageID : string) (labeled : bool) : PatchInfo :=
  mkPatchInfo None WAPatchRegular [newLabelMessageMutation target labelID messageID labeled].

Definition newLabelEditMutation (labelID labelName : string) (labelColor : Z) (deleted : bool) : MutationInfo :=
  newMutation [IndexLabelEdit; labelID] 3 (LabelEditAction labelName labelColor deleted).

Definition BuildLabelEdit (labelID labelName : string) (labelColor : Z) (deleted : bool) : PatchInfo :=
  mkPatchInfo None WAPatchRegular [newLabelEditMutation labelID labelName labelColor deleted].

Definition newQuickReplyMutation (id shortcut message : string) (keywords : list string) (count : Z)
    (deleted : bool) (associatedLabelIDs : list string) : MutationInfo :=
  newMutation [IndexQuickReply; id] 2
    (QuickReplyAction shortcut message keywords count deleted associatedLabelIDs).

Definition BuildQuickReply (id shortcut message : string) (keywords : list string) (count : Z)
    (associatedLabelIDs : list string) : PatchInfo :=
  mkPatchInfo None WAPatchRegular
    [newQuickReplyMutation id shortcut message keywords count false associatedLabelIDs].

Definition BuildQuickReplyDelete (id : string) : PatchInfo :=
  mkPatchInfo None WAPatchRegular [newQuickReplyMutation id "" "" [] 0 true []].

Definition newSettingPushNameMutation (pushName : string) : MutationInfo :=
  newMutation [IndexSettingPushName] 1 (PushNameSetting pushName).

Definition BuildSettingPushName (pushName : string) : PatchInfo :=
  mkPatchInfo None WAPatchCriticalBlock [newSettingPushNameMutation pushName].

Definition newStarMutation (targetJID senderJID messageID fromMe : string) (starred : bool) : MutationInfo :=
  newMutation [IndexStar; targetJID; messageID; fromMe; senderJID] 2 (StarAction starred).

Definition BuildStar (target sender : JID) (messageID : string) (fromMe starred : bool) : PatchInfo :=
  let isFromMe := if fromMe then "1" else "0" in
  let senderJID := if decide (User target = User sender) then "0" else JIDString sender in
  mkPatchInfo None WAPatchRegularHigh
    [newStarMutation (JIDString target) senderJID messageID isFromMe starred].

(** ** Encoding *)

Section encode.
Context `{Crypto} `{HKDF} `{AppCodec} {S E : Type} `{!AppStateStore S E}.
Notation M := (stateM (Processor S) (asError E)).

(** One mutation: [rnd] is what [rand.Reader] yields for its iv. A mutation
    without a value is a nil dereference. *)
Definition encodeMutation (keyID : list byte) (keys : ExpandedAppStateKeys) (timestamp : Z)
    (info : MutationInfo) (rnd : option (list byte)) : outcome (asError E) SyncdMutation :=
  match miValue info with
  | None => Panic
  | Some value =>
      let value := mkActionValue (Some (UnixMilli timestamp)) (actionFields value) in
      let indexBytes := jsonMarshalStrings (miIndex info) in
      match marshalActionData (mkActionData indexBytes (Some value) (miVersion info)) with
      | None => Err MarshalFailed
      | Some content =>
          encryptedContent ← map_err EncryptFailed (Encrypt (ValueEncryption keys) None content [] rnd).1;
          valueMac ← generateContentMAC SET encryptedContent keyID (ValueMACKey keys);
          let indexMac := hmacSha256 (IndexKey keys) indexBytes in
          Ok (mkMutation SET (mkRecord indexMac (encryptedContent ++ valueMac) (Some keyID)))
      end
  end.

Fixpoint encodeMutations (keyID : list byte) (keys : ExpandedAppStateKeys) (timestamp : Z)
    (rand : nat → option (list byte)) (i : nat) (infos : list MutationInfo) :
    outcome (asError E) (list SyncdMutation) :=
  match infos with
  | [] => Ok []
  | info :: infos =>
      m ← encodeMutation keyID keys timestamp info (rand i);
      ms ← encodeMutations keyID keys timestamp rand (1 + i) infos;
      Ok (m :: ms)
  end.

(** [EncodePatch] up to the final marshalling. *)
Definition compilePatch (now : Z) (rand : nat → option (list byte)) (keyID : list byte)
    (state : HashState) (patchInfo : PatchInfo) : M SyncdPatch :=
  keys ← getAppStateKey (Some keyID);
  let timestamp := default now (piTimestamp patchInfo) in
  mutations ← lift (encodeMutations keyID keys timestamp rand 0 (piMutations patchInfo));
  '(_, state) ← updateHash (λ indexMAC _, onStore (GetAppStateMutationMAC (piType patchInfo) indexMAC))
                  state mutations;
  let state := mkHashState (u64 (hsVersion state + 1)) (hsHash state) in
  let patch := mkPatch 0 mutations
                 (generateSnapshotMAC state (piType patchInfo) (SnapshotMACKey keys)) [] (Some keyID) in
  patchMAC ← lift (generatePatchMAC patch (piType patchInfo) (PatchMACKey keys) (hsVersion state));
  mret (mkPatch 0 mutations (patchSnapshotMAC patch) patchMAC (Some keyID)).

Definition EncodePatch (now : Z) (rand : nat → option (list byte)) (keyID : list byte)
    (state : HashState) (patchInfo : PatchInfo) : M (list byte) :=
  patch ← compilePatch now rand keyID state patchInfo;
  match marshalPatch patch with
  | None => throw MarshalFailed
  | Some result => mret result
  end.
End encode.

(** ** Label changes *)

(** The labels a list mentions, each once, in order of first mention. *)
Fixpoint firstMentions (seen l : list string) : list string :=
  match l with
  | [] => []
  | x :: l => if decide (x ∈ seen) then firstMentions seen l else x :: firstMentions (seen ++ [x]) l
  end.

(** What the last change of a label says. *)
Fixpoint lastLabeled (changes : list LabelChatChange) (l : string) (b : bool) : bool :=
  match changes with
  | [] => b
  | c :: changes => lastLabeled changes l (if decide (LabelID c = l) then Labeled c else b)
  end.

Definition labelMutations (target : JID) (cur : list (string * bool)) : list MutationInfo :=
  (λ lb, newLabelChatMutation target lb.1 lb.2) <$> cur.

Lemma lastLabeled_mentioned changes l b b' :
  l ∈ LabelID <$> changes → lastLabeled changes l b = lastLabeled changes l b'.
Proof.
  revert b b'; induction changes as [|c changes IH]; intros b b' Hl; [by apply elem_of_nil in Hl|].
  cbn [lastLabeled]. case_decide; [done|]. apply IH. rewrite fmap_cons in Hl.
  apply elem_of_cons in Hl as [?|?]; [congruence|done].
Qed.

Lemma firstMentions_elem l : ∀ seen k, l ∈ firstMentions seen k → l ∉ seen.
Proof.
  intros seen k; revert seen; induction k as [|x k IH]; intros seen Hl; [by apply elem_of_nil in Hl|].
  cbn [firstMentions] in Hl. case_decide; [by apply IH|].
  apply elem_of_cons in Hl as [->|Hl]; [done|]. apply IH in Hl. intros Hs. apply Hl, elem_of_app. by left.
Qed.

Lemma lookup_fst_insert (cur : list (string * bool)) i l b b0 :
  cur !! i = Some (l, b0) → (<[i := (l, b)]> cur).*1 = cur.*1.
Proof.
  intros Hi. rewrite list_fmap_insert. apply list_insert_id. by rewrite list_lookup_fmap, Hi.
Qed.

(** Where each label stands. *)
Definition indexes (mi : gmap string nat) (cur : list (string * bool)) : Prop :=
  ∀ l i, mi !! l = Some i ↔ cur.*1 !! i = Some l.

Lemma indexes_snoc mi cur l b :
  l ∉ cur.*1 → indexes mi cur → indexes (<[l := length cur]> mi) (cur ++ [(l, b)])%list.
Proof.
  intros Hfresh Hmi k i. rewrite fmap_app. cbn [fmap list_fmap fst]. destruct (decide (k = l)) as [->|Hne].
  - rewrite lookup_insert_eq. split.
    + intros [= <-]. rewrite lookup_app_r by (by rewrite length_fmap). by rewrite length_fmap, Nat.sub_diag.
    + intros [Hi|[Hle Hi]]%lookup_app_Some.
      * by destruct Hfresh; eapply list_elem_of_lookup_2.
      * apply list_lookup_singleton_Some in Hi as [Hi _]. rewrite length_fmap in *. f_equal. lia.
  - rewrite lookup_insert_ne by done. rewrite (Hmi k i). split; [by apply lookup_app_l_Some|].
    intros [Hi|[Hle Hi]]%lookup_app_Some; [done|]. apply list_lookup_singleton_Some in Hi as [_ Hi]. done.
Qed.

(** A change of a label that has a mutation already. *)
Lemma known_label changes c cur i b0 :
  NoDup cur.*1 → cur !! i = Some (LabelID c, b0) →
  (λ lb, (lb.1, lastLabeled changes lb.1 lb.2)) <$> <[i := (LabelID c, Labeled c)]> cur =
  (λ lb, (lb.1, lastLabeled (c :: changes) lb.1 lb.2)) <$> cur.
Proof.
  intros Hnd Hi. apply list_eq. intros j. rewrite !list_lookup_fmap.
  destruct (decide (i = j)) as [<-|Hij].
  - rewrite list_lookup_insert_eq by (by eapply lookup_lt_Some). rewrite Hi.
    cbn [fmap option_fmap option_map fst snd lastLabeled]. by rewrite decide_True.
  - rewrite list_lookup_insert_ne by done. destruct (cur !! j) as [[l b]|] eqn:Hj; [|done].
    cbn [fmap option_fmap option_map fst snd lastLabeled]. rewrite decide_False; [done|]. intros <-.
    apply Hij. eapply NoDup_lookup; [exact Hnd|by rewrite list_lookup_fmap, Hi|by rewrite list_lookup_fmap, Hj].
Qed.

(** A label that was seen, or is another one, is not affected by a change. *)
Lemma other_mentions changes c seen k :
  LabelID c ∈ seen →
  (λ l, (l, lastLabeled changes l true)) <$> firstMentions seen k =
  (λ l, (l, lastLabeled (c :: changes) l true)) <$> firstMentions seen k.
Proof.
  intros Hc. apply list_fmap_ext. intros j l Hl%list_elem_of_lookup_2%firstMentions_elem.
  cbn [lastLabeled]. rewrite decide_False; [done|]. by intros <-.
Qed.

Lemma labelChanges_spec target changes : ∀ cur mi,
  NoDup cur.*1 → indexes mi cur →
  labelChanges target changes mi (labelMutations target cur) =
  labelMutations target
    (((λ lb, (lb.1, lastLabeled changes lb.1 lb.2)) <$> cur) ++
     ((λ l, (l, lastLabeled changes l true)) <$> firstMentions cur.*1 (LabelID <$> changes)))%list.
Proof.
  induction changes as [|c changes IH]; intros cur mi Hnd Hmi.
  { cbn. rewrite app_nil_r. f_equal. rewrite <- (list_fmap_id cur) at 1.
    apply list_fmap_ext. by intros i [l b]. }
  cbn [labelChanges fmap list_fmap firstMentions]. destruct (mi !! LabelID c) as [i|] eqn:Hc.
  - apply Hmi in Hc as Hci. assert (LabelID c ∈ cur.*1) as Hin by (by eapply list_elem_of_lookup_2).
    rewrite list_lookup_fmap in Hci. destruct (cur !! i) as [[l b0]|] eqn:Hi; [|done]. injection Hci as ->.
    replace (<[i := newLabelChatMutation target (LabelID c) (Labeled c)]> (labelMutations target cur))
      with (labelMutations target (<[i := (LabelID c, Labeled c)]> cur))
      by apply (list_fmap_insert (λ lb, newLabelChatMutation target lb.1 lb.2)).
    pose proof (lookup_fst_insert cur i (LabelID c) (Labeled c) b0 Hi) as Hfst.
    rewrite (IH (<[i := (LabelID c, Labeled c)]> cur) mi) by (unfold indexes; by rewrite Hfst).
    by rewrite Hfst, decide_True, (known_label _ _ _ _ b0), (other_mentions _ c) by done.
  - assert (LabelID c ∉ cur.*1) as Hfresh.
    { intros [i Hi]%list_elem_of_lookup. apply Hmi in Hi. congruence. }
    rewrite decide_False by done.
    replace (length (labelMutations target cur)) with (length cur) by (symmetry; apply length_fmap).
    replace (labelMutations target cur ++ [newLabelChatMutation target (LabelID c) (Labeled c)])%list
      with (labelMutations target (cur ++ [(LabelID c, Labeled c)]))
      by apply (fmap_app (λ lb, newLabelChatMutation target lb.1 lb.2) cur [(LabelID c, Labeled c)]).
    rewrite IH; [|rewrite fmap_app; apply NoDup_app; split_and!; [done| |apply NoDup_singleton];
      by intros l Hl ->%list_elem_of_singleton|by apply indexes_snoc].
    rewrite !fmap_app, <- (assoc_L (++)%list). f_equal. f_equal.
    + apply list_fmap_ext. intros j [l b] Hl. cbn [fst snd lastLabeled]. rewrite decide_False; [done|].
      intros <-. apply Hfresh, list_elem_of_lookup. exists j. by rewrite list_lookup_fmap, Hl.
    + cbn [fmap list_fmap app fst snd lastLabeled]. rewrite decide_True by done. f_equal.
      apply other_mentions, elem_of_app. right. by left.
Qed.

(** A batch of label changes becomes one mutation per label. The
    patch of [BuildLabelChatChanges] has, for every label mentioned and in order
    of first mention, exactly one mutation, carrying what the last change of that
    label says: no two of its mutations have the same index, whatever repeats in
    the input. *)
Theorem BuildLabelChatChanges_spec (target : JID) (changes : list LabelChatChange) :
  piMutations (BuildLabelChatChanges target changes) =
    (λ l, newLabelChatMutation target l (lastLabeled changes l true)) <$>
      firstMentions [] (LabelID <$> changes).
Proof.
  cbn [BuildLabelChatChanges piMutations].
  change (@nil MutationInfo) with (labelMutations target []).
  rewrite labelChanges_spec; [|constructor|intros l i; by rewrite lookup_empty].
  cbn [fmap list_fmap app]. unfold labelMutations. by rewrite <- list_fmap_compose.
Qed.
