(* ===== verification/AppStateSync.v ===== *)
(** App state synchronisation: the theorems on whole patch lists, on patches the
    client encodes itself, and on what a failing store leaves behind. *)
From Stdlib Require Import ZArith Lia.
From Stdlib Require Import Strings.Byte.
From stdpp Require Import prelude gmap strings list fin_maps.
From S2P Require Import Prelude Strconv Cbc LTHash Jid AppStore AppState AppStateTheory AppStateEncode.

(** ** Patch lists *)

Fixpoint increasing (v : Z) (patches : list SyncdPatch) : Prop :=
  match patches with
  | [] => True
  | p :: patches => (v < patchVersion p)%Z ∧ increasing (patchVersion p) patches
  end.

(** The version a list of patches leads to. *)
Definition lastVersion (v : Z) (patches : list SyncdPatch) : Z := foldl (λ _ p, patchVersion p) v patches.

Definition allMutations (patches : list SyncdPatch) : list SyncdMutation := concat (patchMutations <$> patches).

Section lists.
Context `{CryptoLaws} `{HKDFLaws} `{AppCodec} {S E : Type} `{AppStateStoreLaws S E}.

(** Every patch signs the hash of the collection it leads to. *)
Fixpoint signedChain (name : string) (p : Processor S) (V : collection) (patches : list SyncdPatch) : Prop :=
  match patches with
  | [] => True
  | patch :: patches =>
      let V' := applyAll V (patchMutations patch) in
      signed (E := E) name p V' patch ∧ signedChain name p V' patches
  end.

Lemma signed_cached name (p p' : Processor S) V patch :
  (∀ id keys, cached p id keys → cached p' id keys) →
  signed (E := E) name p V patch → signed (E := E) name p' V patch.
Proof. intros Hc (keys & h & Hk & Hrest). exists keys, h. split; [by apply Hc|done]. Qed.

Lemma decodes_cached b (p p' : Processor S) v m mut :
  (∀ id keys, cached p id keys → cached p' id keys) →
  decodes (E := E) b p v m mut → decodes (E := E) b p' v m mut.
Proof.
  intros Hc (keys & pl & sa & index & Hk & Hrest). exists keys, pl, sa, index. split; [by apply Hc|done].
Qed.

Lemma decodePatchLoop_Ok name b patches : ∀ V hs muts (p : Processor S) muts' hs' p',
  synced name hs p V → increasing (hsVersion hs) patches →
  decodePatchLoop (E := E) name patches hs b muts p = (Ok (muts', hs'), p') →
  synced name hs' p' (applyAll V (allMutations patches)) ∧ hsVersion hs' = lastVersion (hsVersion hs) patches ∧
  (∀ id keys, cached p id keys → cached p' id keys) ∧
  (b = true → signedChain name p' V patches) ∧
  ∃ news, muts' = muts ++ news ∧
    Forall2 (λ m mut, ∃ v, decodes (E := E) b p' v m mut) (allMutations patches) news.
Proof.
  induction patches as [|patch patches IH]; intros V hs muts p muts' hs' p' Hsync Hinc Hd.
  { cbn in Hd. inv_run. split_and!; [done..|]. exists []. by rewrite app_nil_r. }
  destruct Hinc as [Hlt Hinc]. cbn [decodePatchLoop] in Hd. inv_run. destruct x as [muts1 hs1].
  destruct (decodePatch_Ok name V _ _ _ _ _ _ _ _ Hsync Hlt Hx) as (Hs1 & Hv1 & Hc1 & Hsig1 & news1 & -> & Hall1).
  rewrite <- Hv1 in Hinc.
  destruct (IH _ _ _ _ _ _ _ Hs1 Hinc Hd) as (Hs2 & Hv2 & Hc2 & Hsig2 & news2 & -> & Hall2).
  change (allMutations (patch :: patches)) with (patchMutations patch ++ allMutations patches).
  rewrite applyAll_app. split_and!; [done|by rewrite Hv2, Hv1|auto| |].
  - intros Hb. split; [|by apply Hsig2]. eapply signed_cached; [done|]. by apply Hsig1.
  - exists (news1 ++ news2). rewrite (assoc_L (++)). split; [done|]. apply Forall2_app; [|done].
    eapply Forall2_impl; [done|]. intros m mut Hm. eexists. by eapply decodes_cached.
Qed.

(** What a list asks of the state it is applied to: a snapshot replaces an
    empty collection, and the versions go up. *)
Definition applicable (list_ : PatchList) (hs : HashState) (V : collection) : Prop :=
  match Snapshot list_ with
  | Some ss => V = ∅ ∧ (hsVersion hs < ssVersion ss)%Z ∧ increasing (ssVersion ss) (Patches list_)
  | None => increasing (hsVersion hs) (Patches list_)
  end.

Definition snapshotMutations (list_ : PatchList) : list SyncdMutation :=
  match Snapshot list_ with Some ss => sets (ssRecords ss) | None => [] end.

Definition endVersion (v : Z) (list_ : PatchList) : Z :=
  lastVersion (match Snapshot list_ with Some ss => ssVersion ss | None => v end) (Patches list_).

Lemma DecodePatches_Ok list_ b V hs (p : Processor S) muts hs' p' :
  synced (plName list_) hs p V → applicable list_ hs V →
  DecodePatches (E := E) list_ hs b p = (Ok (muts, hs'), p') →
  let V0 := applyAll V (snapshotMutations list_) in
  synced (plName list_) hs' p' (applyAll V0 (allMutations (Patches list_))) ∧
  hsVersion hs' = endVersion (hsVersion hs) list_ ∧
  (∀ id keys, cached p id keys → cached p' id keys) ∧
  (b = true → signedChain (plName list_) p' V0 (Patches list_) ∧
    ∀ ss, Snapshot list_ = Some ss → signedSnapshot (plName list_) p' V0 ss) ∧
  Forall2 (λ m mut, ∃ v, decodes (E := E) b p' v m mut)
    (snapshotMutations list_ ++ allMutations (Patches list_)) muts.
Proof.
  intros Hsync Happ Hd. unfold DecodePatches in Hd. inv_run. destruct x as [muts1 hs1].
  unfold applicable, snapshotMutations, endVersion in *. destruct (Snapshot list_) as [ss|] eqn:Hss.
  - destruct Happ as (-> & Hlt & Hinc).
    destruct (decodeSnapshot_Ok _ _ _ _ _ _ _ _ _ Hsync Hlt Hx) as (Hs1 & Hv1 & _ & Hc1 & Hsig1 & news1 & -> & Hall1).
    rewrite <- Hv1 in Hinc.
    destruct (decodePatchLoop_Ok _ _ _ _ _ _ _ _ _ _ Hs1 Hinc Hd) as (Hs2 & Hv2 & Hc2 & Hsig2 & news2 & -> & Hall2).
    split_and!; [done|by rewrite Hv2, Hv1|auto| |].
    + intros Hb. split; [by apply Hsig2|]. intros ? [= <-].
      destruct (Hsig1 Hb) as (keys & h & Hk & Hrest). exists keys, h. split; [by apply Hc2|done].
    + apply Forall2_app; [|done]. eapply Forall2_impl; [done|].
      intros m mut Hm. eexists. by eapply decodes_cached.
  - inv_run.
    destruct (decodePatchLoop_Ok _ _ _ _ _ _ _ _ _ _ Hsync Happ Hd) as (Hs2 & Hv2 & Hc2 & Hsig2 & news2 & -> & Hall2).
    split_and!; [done..| |done]. intros Hb. split; [by apply Hsig2|done].
Qed.
End lists.

(** ** Patches the client encodes *)

(** A message decodes to what was encoded. *)
Class AppCodecLaws `{AppCodec} := {
  unmarshal_marshal d l : marshalActionData d = Some l → unmarshalActionData l = Some d
}.

Section encode.
Context `{CryptoLaws} `{HKDFLaws} `{AppCodecLaws} {S E : Type} `{AppStateStoreLaws S E}.
Context (name : string).
Notation M := (stateM (Processor S) (asError E)).

(** The value of a mutation, with the time of the patch. *)
Definition stamped (timestamp : Z) (value : option SyncActionValue) : option SyncActionValue :=
  (λ v, mkActionValue (Some (UnixMilli timestamp)) (actionFields v)) <$> value.

Definition jsonTrip (info : MutationInfo) : Prop :=
  jsonUnmarshalStrings (jsonMarshalStrings (miIndex info)) = Some (miIndex info).

(** What an encoded mutation is, and what decoding it gives back. *)
Definition encodes (keyID : list byte) (keys : ExpandedAppStateKeys) (timestamp : Z)
    (info : MutationInfo) (m : SyncdMutation) : Prop :=
  Operation m = SET ∧ 32 ≤ length (valueBlob (mRecord m)) ∧
  indexBlob (mRecord m) = hmacSha256 (IndexKey keys) (jsonMarshalStrings (miIndex info)) ∧
  ∀ i (q : Processor S), cached q (Some keyID) keys → jsonTrip info →
    decodeMutation (E := E) m i true q =
    (Ok (indexBlob (mRecord m), suffix32 (valueBlob (mRecord m)), miIndex info,
         mkActionData (jsonMarshalStrings (miIndex info)) (stamped timestamp (miValue info)) (miVersion info)), q) ∧
    recordKeyID (mRecord m) = Some keyID.

Lemma getAppStateKey_cached (q : Processor S) id keys :
  cached q id keys → getAppStateKey (E := E) id q = (Ok keys, q).
Proof.
  unfold cached, getAppStateKey, mbind at 1, stateM_bind at 1. intros Hk. cbn [get]. by rewrite Hk.
Qed.

Lemma encodeMutation_encodes keyID keys ts info rnd m :
  encodeMutation (E := E) keyID keys ts info rnd = Ok m → encodes keyID keys ts info m.
Proof.
  unfold encodeMutation. destruct (miValue info) as [value|] eqn:Hval; [|done].
  destruct (marshalActionData _) as [content|] eqn:Hm; [|done]. intros He. inv_ok.
  rewrite Encrypt_spec in Hx. destruct (NewCipher (ValueEncryption keys)) as [block|] eqn:Hc; [|done].
  destruct rnd as [r|]; [|done]. injection Hx as <-. set (iv := resize BlockSize x00 r) in *.
  set (enc := iv ++ cbcOf block iv content) in *.
  assert (length x0 = 32) as Hl0.
  { unfold generateContentMAC in Hx0. rewrite decide_False in Hx0 by (rewrite hmac512_length; lia).
    injection Hx0 as <-. rewrite length_take, hmac512_length. lia. }
  assert (length iv = BlockSize) as Hiv by apply length_resize.
  assert (length (enc ++ x0) - 32 = length enc) as Hlen by (rewrite length_app; lia).
  split_and!; cbn [Operation mRecord valueBlob indexBlob]; [done|rewrite length_app; lia|done|].
  intros i q Hk Hj. split; [|done].
  unfold decodeMutation, suffix32, macSuffix. cbn [recordKeyID mRecord Operation valueBlob indexBlob].
  unfold mbind, stateM_bind. rewrite (getAppStateKey_cached _ _ _ Hk).
  rewrite Hlen, drop_app_length, take_app_length. rewrite (decide_False (P := length (enc ++ x0) < 32))
    by (rewrite length_app; lia).
  unfold lift. cbn [from_option id]. rewrite Hx0.
  rewrite (decide_True (P := x0 = x0)) by done. cbn [mret stateM_ret].
  rewrite decide_False by (subst enc; rewrite length_app; unfold BlockSize in *; lia).
  cbn [mret stateM_ret]. change 16 with BlockSize. subst enc.
  rewrite take_app_length', drop_app_length' by done.
  rewrite (Decrypt_cbcOf _ _ _ _ Hc Hiv). cbn [fst map_err].
  rewrite (unmarshal_marshal _ _ Hm). cbn [saIndex]. rewrite decide_True by done. cbn [mret stateM_ret].
  rewrite Hj. unfold stamped. rewrite Hval. done.
Qed.

Lemma encodeMutations_encodes keyID keys ts rand infos : ∀ i ms,
  encodeMutations (E := E) keyID keys ts rand i infos = Ok ms → Forall2 (encodes keyID keys ts) infos ms.
Proof.
  induction infos as [|info infos IH]; intros i ms He; cbn [encodeMutations] in He; inv_ok; [constructor|].
  constructor; [by eapply encodeMutation_encodes|by eapply IH].
Qed.

Definition idx (m : SyncdMutation) : list byte := indexBlob (mRecord m).

Lemma previousInPatch_fresh l i : i ∉ idx <$> l → previousInPatch (E := E) l i = Ok None.
Proof using.
  induction l as [|m l IH]; intros Hi; [done|]. rewrite fmap_cons in Hi. apply not_elem_of_cons in Hi as [Hne Hi].
  cbn [previousInPatch]. rewrite decide_False by (unfold idx in *; congruence). auto.
Qed.

Lemma getPrev_fresh all i k (p : Processor S) :
  i ∉ idx <$> take k all →
  getPrevSetValueMAC (E := E) name all i k p = onStore (GetAppStateMutationMAC name i) p.
Proof using.
  intros Hi. unfold getPrevSetValueMAC. rewrite previousInPatch_fresh; [done|].
  by rewrite <- (Permutation_rev (take k all)).
Qed.

(** Without a repeated index the patch never answers for the store. *)
Lemma collectMACs_fresh all muts : ∀ pre (p : Processor S),
  all = pre ++ muts → NoDup (idx <$> all) →
  collectMACs (getPrevSetValueMAC (E := E) name all) (length pre) muts p =
  collectMACs (λ i _, onStore (GetAppStateMutationMAC name i)) (length pre) muts p.
Proof using.
  induction muts as [|m muts IH]; intros pre p Hall Hnd; [done|]. cbn [collectMACs].
  assert (indexBlob (mRecord m) ∉ idx <$> take (length pre) all) as Hm.
  { rewrite Hall, take_app_length. rewrite Hall, fmap_app in Hnd.
    apply NoDup_app in Hnd as (_ & Hd & _). intros Hin. apply (Hd _ Hin). by left. }
  assert (∀ s, collectMACs (getPrevSetValueMAC (E := E) name all) (1 + length pre) muts s =
    collectMACs (λ i _, onStore (GetAppStateMutationMAC name i)) (1 + length pre) muts s) as IH'.
  { intros s. specialize (IH (pre ++ [m]) s). rewrite length_app, Nat.add_comm in IH.
    apply IH; [by rewrite <- app_assoc|done]. }
  apply stateM_bind_ext; [done|]. intros a s1.
  apply stateM_bind_ext; [intros s; by apply getPrev_fresh|]. intros r s2.
  apply stateM_bind_ext; [done|]. intros [rem w] s3.
  by apply stateM_bind_ext.
Qed.

(** The store answers, and answering changes nothing. *)
Definition readable (s : S) : Prop := ∀ i, ∃ v, GetAppStateMutationMAC name i s = (Ok v, s).

Lemma collectMACs_readable muts : ∀ k (q : Processor S),
  readable (procStore q) → Forall (λ m, 32 ≤ length (valueBlob (mRecord m))) muts →
  ∃ res, collectMACs (E := asError E) (λ i _, onStore (GetAppStateMutationMAC name i)) k muts q = (Ok res, q).
Proof using.
  induction muts as [|m muts IH]; intros k q Hr Hlen; [by eexists|]. cbn [collectMACs].
  apply Forall_cons in Hlen as [Hm Hlen]. destruct (IH (1 + k) q Hr Hlen) as [[[a r] w] Hres].
  destruct (Hr (indexBlob (mRecord m))) as [v Hv].
  unfold mbind, stateM_bind, macSuffix. rewrite decide_False by lia.
  assert (onStore (E := E) (GetAppStateMutationMAC name (indexBlob (mRecord m))) q = (Ok v, q)) as Hs.
  { unfold onStore, zoom. rewrite Hv. by destruct q. }
  destruct (Operation m), v as [v|]; cbn [lift mret stateM_ret]; rewrite Hs; cbn [mret stateM_ret];
    rewrite Hres; by eexists.
Qed.

Lemma updateHash_readable muts hs (q : Processor S) :
  readable (procStore q) → NoDup (idx <$> muts) →
  Forall (λ m, 32 ≤ length (valueBlob (mRecord m))) muts → length (hsHash hs) = 128 →
  ∃ warn hs', updateHash (E := asError E) (getPrevSetValueMAC name muts) hs muts q = (Ok (warn, hs'), q).
Proof.
  intros Hr Hnd Hlen Hh. destruct (collectMACs_readable muts 0 q Hr Hlen) as [[[a r] w] Hres].
  pose proof (collectMACs_fresh muts muts [] q eq_refl Hnd) as Hf. cbn [length] in Hf.
  destruct (SubtractThenAdd_lanes (hsHash hs) r a Hh) as (h & Hsub & _).
  unfold updateHash, mbind, stateM_bind. rewrite Hf, Hres. unfold lift. rewrite Hsub. cbn. by repeat eexists.
Qed.

(** A patch that [compilePatch] returned, as the server gives it back: with
    the version it assigned. *)
Definition received (version : Z) (patch : SyncdPatch) : SyncdPatch :=
  mkPatch version (patchMutations patch) (patchSnapshotMAC patch) (patchPatchMAC patch) (patchKeyID patch).

Lemma compilePatch_Ok V now rand keyID hs info p patch p' :
  name = piType info →
  holds name V (procStore p) → hashOf V (hsHash hs) → (0 ≤ hsVersion hs < 2 ^ 64 - 1)%Z →
  compilePatch (E := E) now rand keyID hs info p = (Ok patch, p') →
  NoDup (idx <$> patchMutations patch) →
  ∃ keys h, cached p' (Some keyID) keys ∧
    Forall2 (encodes keyID keys (default now (piTimestamp info))) (piMutations info) (patchMutations patch) ∧
    hashOf (applyAll V (patchMutations patch)) h ∧ patchKeyID patch = Some keyID ∧
    generateSnapshotMAC (mkHashState (hsVersion hs + 1) h) name (SnapshotMACKey keys) = patchSnapshotMAC patch ∧
    generatePatchMAC (E := asError E) (received (hsVersion hs + 1) patch) name (PatchMACKey keys) (hsVersion hs + 1) =
      Ok (patchPatchMAC patch).
Proof.
  intros Hn Hh Hhash Hv Hc Hnd. destruct info as [its ity imuts]. cbn [piType] in Hn. subst ity.
  unfold compilePatch in Hc. cbn [piTimestamp piType piMutations] in *. inv_run.
  destruct x1 as [w hs1]. inv_run. cbn [patchMutations patchSnapshotMAC patchPatchMAC patchKeyID hsVersion] in *.
  pose proof Hx as Hkey. apply (getAppStateKey_run name) in Hkey as [Hs1 Hck]. specialize (Hck _ eq_refl).
  assert (holds name V (procStore s)) as Hhs by (eapply keeps_holds; [apply getAppStateKey_keeps|done..]).
  apply encodeMutations_encodes in Hx0.
  assert (keeps (E := E) name (updateHash (λ i _, onStore (GetAppStateMutationMAC name i)) hs x0)) as Hkeep.
  { apply updateHash_keeps. intros i _. apply onStore_keeps. intros t r t' Ht. by apply get_mac_law in Ht as [_ Ht]. }
  pose proof (Hkeep _ _ _ Hx1) as Hs2.
  assert (hsVersion hs1 = hsVersion hs ∧ hashOf (applyAll V x0) (hsHash hs1)) as [Hver Hnew].
  { apply (updateHash_patch name V (mkPatch 0 x0 [] [] None) hs s w hs1 p'); [done..|]. cbn [patchMutations].
    rewrite <- Hx1. unfold updateHash, mbind, stateM_bind.
    pose proof (collectMACs_fresh x0 x0 [] s eq_refl Hnd) as Hf. cbn [length] in Hf. by rewrite Hf. }
  assert (u64 (hsVersion hs1 + 1) = hsVersion hs + 1)%Z as Hu
    by (rewrite Hver; apply Z.mod_small; lia).
  rewrite Hu in *. exists x, (hsHash hs1). split_and!; try done. by eapply same_cached.
Qed.

Definition decodedAs (keyID : list byte) (timestamp version : Z) (info : MutationInfo) (m : SyncdMutation) : Mutation :=
  mkMut (Some keyID) SET (stamped timestamp (miValue info)) (miVersion info) (miIndex info)
    (idx m) (suffix32 (valueBlob (mRecord m))) version.

Lemma decodeMutations_encoded keyID keys ts v (q : Processor S) infos ms :
  Forall2 (encodes keyID keys ts) infos ms → Forall jsonTrip infos → cached q (Some keyID) keys →
  ∀ i out, ∃ out', decodeMutationsFrom (E := E) i ms out true v ∅ q = (Ok out', q) ∧
    Mutations out' = Mutations out ++ zip_with (decodedAs keyID ts v) infos ms.
Proof using.
  intros Hall Hj Hk. induction Hall as [|info m infos ms (Hop & Hlen & Hidx & Hdec) Hall IH]; intros i out.
  { exists out. by rewrite app_nil_r. }
  apply Forall_cons in Hj as [Hj1 Hj]. destruct (Hdec i q Hk Hj1) as [Hd Hid].
  cbn [decodeMutationsFrom zip_with]. unfold mbind, stateM_bind at 1. rewrite Hd, Hop, Hid.
  match goal with |- context [decodeMutationsFrom _ ms ?o _ _ _ _] => destruct (IH Hj (1 + i) o) as (out' & -> & Hm) end.
  exists out'. split; [done|]. rewrite Hm. cbn [Mutations saValue saVersion]. by rewrite <- (assoc_L (++)).
Qed.
End encode.

(** C8: a patch the client encodes is accepted by every device in the
    same state. Let a processor whose store holds a collection with the hash of
    its state, at a version below 2^64-1, encode a patch in which no two mutations
    have the same index and the strings of each index survive JSON. (A patch
    with one index twice is refused: [EncodePatch] of one is the finding in the
    header.) Then any processor with the same key cached, the same collection and hash, and a
    store that answers the reads of its value MACs, verifies the patch as
    the server returns it (with the next version), arrives at the hash of the
    collection with all mutations applied, and decodes from it exactly the
    indexes, versions and values that were encoded, the values stamped with the
    time of the patch. *)
Theorem EncodePatch_accepted `{CryptoLaws} `{HKDFLaws} `{AppCodecLaws} {S E} `{AppStateStoreLaws S E}
    (V : collection) (now : Z) (rand : nat → option (list byte)) (keyID : list byte) (hs : HashState)
    (info : PatchInfo) (p p' q : Processor S) (patch : SyncdPatch) :
  holds (piType info) V (procStore p) → hashOf V (hsHash hs) → (0 ≤ hsVersion hs < 2 ^ 64 - 1)%Z →
  Forall jsonTrip (piMutations info) →
  compilePatch (E := E) now rand keyID hs info p = (Ok patch, p') →
  NoDup (idx <$> patchMutations patch) →
  (∀ keys, cached p' (Some keyID) keys → cached q (Some keyID) keys) →
  holds (piType info) V (procStore q) → readable (piType info) (procStore q) →
  let version := (hsVersion hs + 1)%Z in
  let back := received version patch in
  ∃ hs' warn out,
    validatePatch (E := E) (piType info) back hs true q = (Ok (hs', warn), q) ∧
    hsVersion hs' = version ∧ hashOf (applyAll V (patchMutations patch)) (hsHash hs') ∧
    decodeMutations (E := E) (patchMutations back) (mkOutput [] [] []) true version ∅ q = (Ok out, q) ∧
    Mutations out =
      zip_with (decodedAs keyID (default now (piTimestamp info)) version) (piMutations info) (patchMutations patch).
Proof.
  intros Hh Hhash Hv Hj Hc Hnd Hck Hhq Hrq version back.
  destruct (compilePatch_Ok (piType info) V _ _ _ _ _ _ _ _ eq_refl Hh Hhash Hv Hc Hnd)
    as (keys & h & Hk & Henc & Hnew & Hid & Hsm & Hpm).
  specialize (Hck _ Hk).
  assert (Forall (λ m, 32 ≤ length (valueBlob (mRecord m))) (patchMutations patch)) as Hlen.
  { eapply Forall2_Forall_r; [done|]. apply Forall_true. by intros info' m (_ & Hl & _). }
  destruct (updateHash_readable (piType info) (patchMutations patch) (mkHashState version (hsHash hs)) q
    Hrq Hnd Hlen (proj1 Hhash)) as (warn & hs' & Hu).
  destruct (updateHash_patch (piType info) V back (mkHashState version (hsHash hs)) q warn hs' q
    Hhq Hhash Hu) as [Hver' Hnew'].
  cbn [hsVersion] in Hver'. pose proof (hashOf_unique _ _ _ Hnew Hnew') as ->.
  destruct (decodeMutations_encoded keyID keys _ version q _ _ Henc Hj Hck 0 (mkOutput [] [] [])) as (out & Hout & Hm).
  exists hs', warn, out. split_and!; try done.
  assert (patchKeyID back = Some keyID) as Hid' by exact Hid.
  assert (patchSnapshotMAC back = generateSnapshotMAC hs' (piType info) (SnapshotMACKey keys)) as Hsm'.
  { change (patchSnapshotMAC back) with (patchSnapshotMAC patch). rewrite <- Hsm. f_equal.
    fold version. rewrite <- Hver'. by destruct hs'. }
  unfold validatePatch, mbind, stateM_bind. change (patchMutations back) with (patchMutations patch).
  change (patchVersion back) with version. rewrite Hu.
  unfold validateSnapshotMAC, mbind, stateM_bind. rewrite Hid', (getAppStateKey_cached _ _ _ Hck).
  rewrite Hsm', decide_True by done. cbn [mret stateM_ret]. unfold lift.
  fold version back in Hpm. rewrite Hpm. by rewrite decide_True.
Qed.

(** C3: decoding implements the collection. Start from a
    state whose hash is the hash of the collection the store holds (an empty one
    when a snapshot comes). Whenever [DecodePatches] succeeds on a snapshot and
    patches with increasing versions, the store holds exactly the collection in
    which all their mutations were applied in order, the returned state carries
    its hash, and the returned mutations are, one by one, what the encrypted ones
    decrypt to. The store is any that keeps the promises of [AppStateStoreLaws];
    repeated indexes, removals of values set in the same patch and values already
    overwritten are all covered. *)
Theorem DecodePatches_refines `{CryptoLaws} `{HKDFLaws} `{AppCodec} {S E} `{AppStateStoreLaws S E}
    (list_ : PatchList) (b : bool) (V : collection) (hs : HashState) (p : Processor S)
    (muts : list Mutation) (hs' : HashState) (p' : Processor S) :
  synced (plName list_) hs p V → applicable list_ hs V →
  DecodePatches (E := E) list_ hs b p = (Ok (muts, hs'), p') →
  synced (plName list_) hs' p'
    (applyAll V (snapshotMutations list_ ++ allMutations (Patches list_))) ∧
  Forall2 (λ m mut, ∃ v, decodes (E := E) b p' v m mut)
    (snapshotMutations list_ ++ allMutations (Patches list_)) muts.
Proof.
  intros Hs Ha Hd. destruct (DecodePatches_Ok _ _ _ _ _ _ _ _ Hs Ha Hd) as (Hs' & _ & _ & _ & Hall).
  by rewrite applyAll_app.
Qed.

(** C4: with MAC validation on, success means that everything
    was signed. The snapshot and every patch carry a snapshot MAC, under the
    cached keys of their key id, of the hash of the very collection they lead to
    (with its version and name), every patch carries a patch MAC over its
    mutations, and every mutation returned passed both its content MAC and its
    index MAC. *)
Theorem DecodePatches_signed `{CryptoLaws} `{HKDFLaws} `{AppCodec} {S E} `{AppStateStoreLaws S E}
    (list_ : PatchList) (V : collection) (hs : HashState) (p : Processor S)
    (muts : list Mutation) (hs' : HashState) (p' : Processor S) :
  synced (plName list_) hs p V → applicable list_ hs V →
  DecodePatches (E := E) list_ hs true p = (Ok (muts, hs'), p') →
  let V0 := applyAll V (snapshotMutations list_) in
  (∀ ss, Snapshot list_ = Some ss → signedSnapshot (plName list_) p' V0 ss) ∧
  signedChain (E := E) (plName list_) p' V0 (Patches list_) ∧
  Forall2 (λ m mut, ∃ v, decodes (E := E) true p' v m mut)
    (snapshotMutations list_ ++ allMutations (Patches list_)) muts.
Proof.
  intros Hs Ha Hd. destruct (DecodePatches_Ok _ _ _ _ _ _ _ _ Hs Ha Hd) as (_ & _ & _ & Hsig & Hall).
  destruct (Hsig eq_refl) as [? ?]. by split_and!.
Qed.

(** ** A small world to evaluate the definitions in *)

#[local] Existing Instance toyCrypto.
#[local] Existing Instance toyCryptoLaws.
#[local] Existing Instance toyHKDF.
#[local] Existing Instance toyHKDFLaws.

#[local] Instance toyCodec : AppCodec := {|
  unmarshalActionData l :=
    match l with
    | b :: index => Some (mkActionData index (Some (mkActionValue (Some 5000%Z) [PinAction (bool_decide (b = x01))])) 5)
    | [] => None
    end;
  marshalActionData d :=
    match saValue d with
    | Some (mkActionValue (Some ts) [PinAction pinned]) =>
        if decide (ts = 5000%Z ∧ saVersion d = 5%Z)
        then Some ((if pinned then x01 else x00) :: saIndex d) else None
    | _ => None
    end;
  marshalPatch _ := None;
  jsonUnmarshalStrings l := Some [b2s l];
  jsonMarshalStrings l := match l with s :: _ => s2b s | [] => [] end
|}.
#[local] Instance toyCodecLaws : AppCodecLaws.
Proof.
  split. intros [index value version] l. cbn.
  destruct value as [[[ts|] [|[] []]]|]; cbn; try done. case_decide as Hd; [|done].
  destruct Hd as [-> ->]. intros [= <-]. by destruct pinned.
Qed.

Definition toyStore : SQLStore := mkSQL (mkTables {[ [x01] := mkSyncKey [x09; x0a] [] 0 ]} ∅ ∅) [].
Definition toyProc : Processor SQLStore := NewProcessor toyStore.
Definition toyInfo (indexes : list string) : PatchInfo :=
  mkPatchInfo (Some 5000000000%Z) "regular_low" ((λ i, newMutation [i] 5 (PinAction true)) <$> indexes).
Definition toyRand (i : nat) : option (list byte) := Some (replicate 16 (z2b (Z.of_nat i + 7))).
Definition toyPatch (indexes : list string) : SyncdPatch :=
  match (compilePatch (E := sqlError) 0 toyRand [x01] zeroState (toyInfo indexes) toyProc).1 with
  | Ok patch => received 1 patch
  | _ => mkPatch 0 [] [] [] None
  end.
Definition toyList : PatchList := mkPatchList "regular_low" false [toyPatch ["a"; "b"]] None.

Lemma toy_synced : synced (S := SQLStore) (E := sqlError) "regular_low" zeroState toyProc ∅.
Proof.
  apply synced_initial; [done| |done]. intros w i [x Hx]. cbn in Hx. by rewrite lookup_empty in Hx.
Qed.

Lemma toy_runs : is_ok (DecodePatches (E := sqlError) toyList zeroState true toyProc).1 = true.
Proof. vm_cast_no_check (eq_refl true). Qed.

Lemma DecodePatches_refines_witness :
  match DecodePatches (E := sqlError) toyList zeroState true toyProc with
  | (Ok (muts, hs'), p') =>
      synced (E := sqlError) "regular_low" hs' p'
        (applyAll ∅ (snapshotMutations toyList ++ allMutations (Patches toyList))) ∧
      Forall2 (λ m mut, ∃ v, decodes (E := sqlError) true p' v m mut)
        (snapshotMutations toyList ++ allMutations (Patches toyList)) muts
  | _ => False
  end.
Proof.
  pose proof toy_runs as Hok.
  destruct (DecodePatches (E := sqlError) toyList zeroState true toyProc) as [[[muts hs']| | |] p'] eqn:Hd;
    [clear Hok|exact (diff_false_true Hok)..].
  refine (DecodePatches_refines toyList true ∅ zeroState toyProc muts hs' p' toy_synced _ Hd).
  vm_compute. split; [reflexivity|exact I].
Defined.

Lemma DecodePatches_signed_witness :
  match DecodePatches (E := sqlError) toyList zeroState true toyProc with
  | (Ok (muts, hs'), p') =>
      let V0 := applyAll ∅ (snapshotMutations toyList) in
      (∀ ss, Snapshot toyList = Some ss → signedSnapshot (plName toyList) p' V0 ss) ∧
      signedChain (E := sqlError) (plName toyList) p' V0 (Patches toyList) ∧
      Forall2 (λ m mut, ∃ v, decodes (E := sqlError) true p' v m mut)
        (snapshotMutations toyList ++ allMutations (Patches toyList)) muts
  | _ => False
  end.
Proof.
  pose proof toy_runs as Hok.
  destruct (DecodePatches (E := sqlError) toyList zeroState true toyProc) as [[[muts hs']| | |] p'] eqn:Hd;
    [clear Hok|exact (diff_false_true Hok)..].
  refine (DecodePatches_signed toyList ∅ zeroState toyProc muts hs' p' toy_synced _ Hd).
  vm_compute. split; [reflexivity|exact I].
Defined.

Definition toyEncoded : stateM (Processor SQLStore) (asError sqlError) SyncdPatch :=
  compilePatch 0 toyRand [x01] zeroState (toyInfo ["a"; "b"]).

Lemma toyEncoded_runs :
  match toyEncoded toyProc with
  | (Ok patch, p') => bool_decide (NoDup (idx <$> patchMutations patch))
  | _ => false
  end = true.
Proof. vm_cast_no_check (eq_refl true). Qed.

Lemma toyStore_readable name : readable (E := sqlError) name toyStore.
Proof. intros i. by eexists. Qed.

Lemma EncodePatch_accepted_witness :
  match toyEncoded toyProc with
  | (Ok patch, p') =>
      let back := received 1 patch in
      ∃ hs' warn out,
        validatePatch (E := sqlError) "regular_low" back zeroState true p' = (Ok (hs', warn), p') ∧
        hsVersion hs' = 1%Z ∧ hashOf (applyAll ∅ (patchMutations patch)) (hsHash hs') ∧
        decodeMutations (E := sqlError) (patchMutations back) (mkOutput [] [] []) true 1 ∅ p' = (Ok out, p') ∧
        Mutations out = zip_with (decodedAs [x01] 5000000000 1) (piMutations (toyInfo ["a"; "b"])) (patchMutations patch)
  | _ => False
  end.
Proof.
  pose proof toyEncoded_runs as Hok.
  destruct (toyEncoded toyProc) as [[patch| | |] p'] eqn:Hd; [|exact (diff_false_true Hok)..].
  assert (procStore p' = toyStore) as Hp.
  { change p' with (@snd (outcome (asError sqlError) SyncdPatch) _ (@Ok _ SyncdPatch patch, p')).
    rewrite <- Hd. by vm_compute. }
  assert (holds (E := sqlError) "regular_low" ∅ toyStore) as Hh by (intros i; reflexivity).
  refine (EncodePatch_accepted ∅ 0 toyRand [x01] zeroState (toyInfo ["a"; "b"]) toyProc p' p' patch
    Hh hashOf_empty _ _ Hd _ (λ keys Hk, Hk) _ _).
  - split; reflexivity || discriminate.
  - repeat constructor.
  - by apply bool_decide_eq_true in Hok.
  - by rewrite Hp.
  - rewrite Hp. apply toyStore_readable.
Defined.

(** ** What a failure leaves behind *)

(** A patch that sets the index ["a"] twice, hashed and signed as [validatePatch]
    demands. *)
Definition toyTwice : SyncdPatch :=
  let run {A} (m : stateM (Processor SQLStore) (asError sqlError) A) := (m toyProc).1 in
  match run (getAppStateKey (Some [x01])) with
  | Ok keys =>
      match encodeMutations (E := sqlError) [x01] keys 5000000000 toyRand 0 (piMutations (toyInfo ["a"; "a"])) with
      | Ok muts =>
          match run (validatePatch "regular_low" (mkPatch 1 muts [] [] (Some [x01])) zeroState false) with
          | Ok (hs, _) =>
              let patch := mkPatch 1 muts (generateSnapshotMAC hs "regular_low" (SnapshotMACKey keys)) [] (Some [x01]) in
              match generatePatchMAC (E := sqlError) patch "regular_low" (PatchMACKey keys) 1 with
              | Ok mac => mkPatch 1 muts (patchSnapshotMAC patch) mac (Some [x01])
              | _ => patch
              end
          | _ => mkPatch 0 [] [] [] None
          end
      | _ => mkPatch 0 [] [] [] None
      end
  | _ => mkPatch 0 [] [] [] None
  end.

Definition twiceRun : outcome (asError sqlError) (list Mutation * HashState) * Processor SQLStore :=
  DecodePatches (mkPatchList "regular_low" false [toyTwice] None) zeroState true toyProc.

(** The stored version and hash after the run, its error, and whether it left
    no value. *)
Lemma twiceRun_facts :
  match twiceRun.1, getAppStateVersion_sql "regular_low" (procStore twiceRun.2) with
  | Err (StoreError ConstraintViolation), (Ok (v, h), _) =>
      bool_decide (v = 1%Z) && negb (bool_decide (lane 0 h = 0%Z)) &&
      bool_decide (map_to_list (macs (tbl (procStore twiceRun.2))) = [])
  | _, _ => false
  end = true.
Proof. vm_cast_no_check (eq_refl true). Qed.

(** Recording a patch is not atomic. The version and hash are
    written before the value MACs and in a statement of their own, so a patch
    that passes every check but sets one index twice (whose second row the
    primary key refuses) makes [DecodePatches] fail with the new version and hash
    already stored, beside MACs that they are not the hash of: whatever
    collection the store holds afterwards, the stored hash is not its hash. *)
Theorem storeMACs_not_atomic :
  (∀ i, view (E := sqlError) "regular_low" (procStore toyProc) i = None) ∧
  twiceRun.1 = Err (StoreError ConstraintViolation) ∧
  ∃ h, (GetAppStateVersion (E := sqlError) "regular_low" (procStore twiceRun.2)).1 = Ok (1%Z, h) ∧
    ∀ V, holds (E := sqlError) "regular_low" V (procStore twiceRun.2) → ¬ hashOf V h.
Proof.
  pose proof twiceRun_facts as Hf. split; [done|].
  cbn [GetAppStateVersion SQLStore_AppStateStore].
  destruct twiceRun as [[?|err| |] p']; cbn [fst snd] in *; try exact (False_ind _ (diff_false_true Hf)).
  destruct err as [e| | | | | | | | | | |]; try exact (False_ind _ (diff_false_true Hf)).
  destruct e; try exact (False_ind _ (diff_false_true Hf)).
  destruct (getAppStateVersion_sql _ _) as [[[v h]| | |] s']; try exact (False_ind _ (diff_false_true Hf)).
  rewrite !andb_true_iff, negb_true_iff, !bool_decide_eq_true, bool_decide_eq_false in Hf.
  destruct Hf as [[-> Hlane] Hmacs]. split; [done|]. exists h. split; [done|].
  intros V HV [_ Hh]. apply Hlane. rewrite (Hh 0) by lia.
  assert (V = ∅) as ->; [|by rewrite sumV_empty].
  apply map_eq. intros i. rewrite <- HV, lookup_empty. cbn. unfold sqlView.
  apply map_to_list_empty_iff in Hmacs. by rewrite Hmacs.
Qed.
