(* ===== verification/AppStateDispatch.v ===== *)
(** What the client makes of a decoded mutation (src/appstate.go): the event it
    emits for it and the changes of the device store, the filter of a full sync
    and the mass insertion of contacts. *)
From Stdlib Require Import ZArith Lia.
From Stdlib Require Import Strings.Byte.
From stdpp Require Import prelude gmap strings list fin_maps.
From S2P Require Import Prelude Strconv Jid Cbc LTHash AppStore AppState AppStateEncode.

#[local] Open Scope string_scope.

Definition IndexContact : string := "contact".
Definition IndexLIDContact : string := "lid_contact".
Definition IndexClearChat : string := "clearChat".
Definition IndexDeleteMessageForMe : string := "deleteMessageForMe".
Definition IndexSettingUnarchiveChats : string := "setting_unarchiveChats".
Definition IndexUserStatusMute : string := "userStatusMute".
Definition IndexNCTSaltSync : string := "nct_salt_sync".
Definition IndexWasaRootSecretAction : string := "wasa_root_secret".

(** ** Events

    Times are milliseconds since the epoch. [Action] fields are the message the
    getter of the mutation's value returns, [None] for nil; the last argument is
    [FromFullSync]. *)
Inductive appEvent {X : Type} :=
| EvAppState (index : list string) (action : option SyncActionValue)
| EvMute (jid : JID) (ts : Z) (act : option actionField) (fromFullSync : bool)
| EvPin (jid : JID) (ts : Z) (act : option actionField) (fromFullSync : bool)
| EvArchive (jid : JID) (ts : Z) (act : option actionField) (fromFullSync : bool)
| EvContact (jid : JID) (ts : Z) (act : option actionField) (fromFullSync : bool)
| EvLIDContact (jid : JID) (ts : Z) (act : option actionField) (fromFullSync : bool)
| EvClearChat (jid : JID) (ts : Z) (act : option actionField) (deleteMedia fromFullSync : bool)
| EvDeleteChat (jid : JID) (ts : Z) (act : option actionField) (deleteMedia fromFullSync : bool)
| EvStar (chat sender : JID) (messageID : string) (ts : Z) (act : option actionField) (isFromMe fromFullSync : bool)
| EvDeleteForMe (chat sender : JID) (messageID : string) (ts : Z) (act : option actionField)
    (isFromMe fromFullSync : bool)
| EvMarkChatAsRead (jid : JID) (ts : Z) (act : option actionField) (fromFullSync : bool)
| EvPushNameSetting (ts : Z) (act : option actionField) (fromFullSync : bool)
| EvUnarchiveChatsSetting (ts : Z) (act : option actionField) (fromFullSync : bool)
| EvUserStatusMute (jid : JID) (ts : Z) (act : option actionField) (fromFullSync : bool)
| EvLabelEdit (ts : Z) (labelID : string) (act : option actionField) (fromFullSync : bool)
| EvLabelAssociationChat (jid : JID) (ts : Z) (labelID : string) (act : option actionField) (fromFullSync : bool)
| EvLabelAssociationMessage (jid : JID) (ts : Z) (labelID messageID : string) (act : option actionField)
    (fromFullSync : bool)
| EvQuickReply (ts : Z) (id : string) (act : option actionField) (fromFullSync : bool)
| EvSyncComplete (name : string) (version : Z) (recovery : bool)
| EvSyncError (name : string) (err : X) (fullSync : bool).
Arguments appEvent X : clear implicits.

(** ** The device store, as the calls made on it

    [callFaults] says whether each of the next calls fails. *)
Inductive mutedUntil := NotMuted | MutedForever | MutedUntil (ms : Z).
Record ContactEntry := mkContact { ceJID : JID; FirstName : string; FullName : string; Username : string; UsernameSet : bool }.
Record MessageSecretInsert := mkSecret { msChat : JID; msSender : JID; msID : string; msSecret : list byte }.

Inductive storeCall :=
| PutMutedUntil (chat : JID) (until : mutedUntil)
| PutPinned (chat : JID) (pinned : bool)
| PutArchived (chat : JID) (archived : bool)
| PutContactName (user : JID) (firstName fullName : string)
| PutContactUsername (user : JID) (username : string)
| PutAllContactNames (contacts : list ContactEntry)
| PutMessageSecrets (inserts : list MessageSecretInsert)
| PutWASARootSecretID (chat : JID) (id : string)
| PutNCTSalt (salt : list byte)
| DeleteNCTSalt
| SaveDevice.

Record Device := mkDevice {
  hasChatSettings : bool;
  hasContacts : bool;
  hasUsernames : bool;                  (* the contact store is a ContactUsernameStore *)
  ownLID : JID;
  PushName : string;
  calls : list storeCall;
  callFaults : list bool
}.

Inductive deviceError := DeviceStoreError.
Notation D := (stateM Device deviceError).

Definition devCall (c : storeCall) : D unit := λ d,
  let '(flt, fs) := match callFaults d with [] => (false, []) | b :: fs => (b, fs) end in
  (if (flt : bool) then Err DeviceStoreError else Ok tt,
   mkDevice (hasChatSettings d) (hasContacts d) (hasUsernames d) (ownLID d) (PushName d) (calls d ++ [c])%list fs).

Definition setPushName (name : string) : D unit :=
  modify (λ d, mkDevice (hasChatSettings d) (hasContacts d) (hasUsernames d) (ownLID d) name (calls d) (callFaults d)).

(** An error that is only logged. *)
Definition logged (m : D unit) : D unit := λ d,
  match m d with
  | (Err _, d) => (Ok tt, d)
  | r => r
  end.

(** ** The getters of the value's messages *)

Definition getField (p : actionField → bool) (v : option SyncActionValue) : option actionField :=
  match v with Some v => head (filter (λ f, p f = true) (actionFields v)) | None => None end.
Definition GetTimestamp (v : option SyncActionValue) : Z :=
  match v with Some v => default 0%Z (actionTimestamp v) | None => 0%Z end.

Definition isMute f := match f with MuteAction _ _ => true | _ => false end.
Definition isPin f := match f with PinAction _ => true | _ => false end.
Definition isArchive f := match f with ArchiveChatAction _ _ _ => true | _ => false end.
Definition isContact f := match f with ContactAction _ _ _ => true | _ => false end.
Definition isLidContact f := match f with LidContactAction _ _ _ => true | _ => false end.
Definition isClearChat f := match f with ClearChatAction _ => true | _ => false end.
Definition isDeleteChat f := match f with DeleteChatAction _ _ => true | _ => false end.
Definition isStar f := match f with StarAction _ => true | _ => false end.
Definition isDeleteForMe f := match f with DeleteMessageForMeAction _ => true | _ => false end.
Definition isMarkRead f := match f with MarkChatAsReadAction _ _ _ => true | _ => false end.
Definition isPushName f := match f with PushNameSetting _ => true | _ => false end.
Definition isUnarchive f := match f with UnarchiveChatsSetting _ => true | _ => false end.
Definition isStatusMute f := match f with UserStatusMuteAction _ => true | _ => false end.
Definition isLabelEdit f := match f with LabelEditAction _ _ _ => true | _ => false end.
Definition isLabelAssociation f := match f with LabelAssociationAction _ => true | _ => false end.
Definition isQuickReply f := match f with QuickReplyAction _ _ _ _ _ _ => true | _ => false end.
Definition isWasa f := match f with WasaRootSecretAction _ => true | _ => false end.
Definition isNctSalt f := match f with NctSaltSyncAction _ => true | _ => false end.

(** First name, full name and user name; empty for nil. *)
Definition contactNames (act : option actionField) : string * string * string :=
  match act with
  | Some (ContactAction a b c) | Some (LidContactAction a b c) => (a, b, c)
  | _ => ("", "", "")
  end.

(** ** NCT salts (src/cstoken.go) *)

Definition storeNCTSalt (salt : list byte) : D unit :=
  if decide (length salt = 0) then mret tt else devCall (PutNCTSalt salt).
Definition clearNCTSalt : D unit := devCall DeleteNCTSalt.

(** ** [dispatchAppState] *)

(** The contact cases: the name, then the user name if the store has them. *)
Definition putContact (jid : JID) (act : option actionField) : D unit :=
  d ← get;
  if (hasContacts d : bool) then
    let '(firstName, fullName, username) := contactNames act in
    _ ← devCall (PutContactName jid firstName fullName);
    if (hasUsernames d : bool) then devCall (PutContactUsername jid username) else mret tt
  else mret tt.

Definition chatSetting (c : storeCall) : D unit :=
  d ← get; if (hasChatSettings d : bool) then devCall c else mret tt.

Definition parsedJID (s : string) : JID := (ParseJID s).1.

(** The active secret with the highest epoch, the earlier one of equals. *)
Fixpoint activeSecret (active : option RootSecretEntry) (l : list RootSecretEntry) : option RootSecretEntry :=
  match l with
  | [] => active
  | secret :: l =>
      activeSecret
        (if rsActive secret && match active with None => true | Some a => (rsEpoch a <? rsEpoch secret)%Z end
         then Some secret else active) l
  end.

Definition putRootSecrets (botJID : JID) (act : option actionField) : D unit :=
  d ← get;
  let inputSecrets := match act with Some (WasaRootSecretAction l) => l | _ => [] end in
  _ ← devCall (PutMessageSecrets ((λ s, mkSecret botJID (ownLID d) (rsID s) (RootSecret s)) <$> inputSecrets));
  if (hasChatSettings d : bool)
  then devCall (PutWASARootSecretID botJID (match activeSecret None inputSecrets with Some s => rsID s | None => "" end))
  else mret tt.

(** The cases of labels, quick replies and bot secrets. *)
Definition labelCases {X} (m : Mutation) (kind : string) (fullSync : bool) :
    outcome deviceError (option (appEvent X) * D unit) :=
  let index := mutIndex m in
  let action := mutAction m in
  let ts := GetTimestamp action in
  let nothing : D unit := mret tt in
  let evt e (upd : D unit) : outcome deviceError (option (appEvent X) * D unit) := Ok (Some e, upd) in
  let skip : outcome deviceError (option (appEvent X) * D unit) := Ok (None, nothing) in
  if decide (kind = IndexLabelEdit) then
    if decide (length index < 2) then Panic
    else evt (EvLabelEdit ts (nth 1 index "") (getField isLabelEdit action) fullSync) nothing
  else if decide (kind = IndexLabelAssociationChat) then
    if decide (length index < 3) then skip
    else evt (EvLabelAssociationChat (parsedJID (nth 2 index "")) ts (nth 1 index "")
                (getField isLabelAssociation action) fullSync) nothing
  else if decide (kind = IndexLabelAssociationMessage) then
    if decide (length index < 6) then skip
    else evt (EvLabelAssociationMessage (parsedJID (nth 2 index "")) ts (nth 1 index "") (nth 3 index "")
                (getField isLabelAssociation action) fullSync) nothing
  else if decide (kind = IndexQuickReply) then
    if decide (length index < 2) then skip
    else evt (EvQuickReply ts (nth 1 index "") (getField isQuickReply action) fullSync) nothing
  else if decide (kind = IndexWasaRootSecretAction) then
    if decide (length index < 2) then skip
    else Ok (None, putRootSecrets (parsedJID (nth 1 index "")) (getField isWasa action))
  else skip.

(** The event and the store update of a [SET] mutation, case by case; reading an
    element the index does not have panics. *)
Definition dispatchSet {X} (m : Mutation) (fullSync : bool) :
    outcome deviceError (option (appEvent X) * D unit) :=
  let index := mutIndex m in
  let action := mutAction m in
  let jid := if decide (1 < length index) then parsedJID (nth 1 index "") else EmptyJID in
  let ts := GetTimestamp action in
  let nothing : D unit := mret tt in
  let evt e (upd : D unit) : outcome deviceError (option (appEvent X) * D unit) := Ok (Some e, upd) in
  let skip : outcome deviceError (option (appEvent X) * D unit) := Ok (None, nothing) in
  match index with
  | [] => Panic
  | kind :: _ =>
      if decide (kind = IndexMute) then
        let act := getField isMute action in
        let until :=
          match act with
          | Some (MuteAction true endTs) =>
              let endTs := default 0%Z endTs in
              if (endTs <? 0)%Z then MutedForever else MutedUntil endTs
          | _ => NotMuted
          end in
        evt (EvMute jid ts act fullSync) (chatSetting (PutMutedUntil jid until))
      else if decide (kind = IndexPin) then
        let act := getField isPin action in
        evt (EvPin jid ts act fullSync)
          (chatSetting (PutPinned jid (match act with Some (PinAction b) => b | _ => false end)))
      else if decide (kind = IndexArchive) then
        let act := getField isArchive action in
        evt (EvArchive jid ts act fullSync)
          (chatSetting (PutArchived jid (match act with Some (ArchiveChatAction b _ _) => b | _ => false end)))
      else if decide (kind = IndexContact) then
        let act := getField isContact action in
        evt (EvContact jid ts act fullSync) (putContact jid act)
      else if decide (kind = IndexLIDContact) then
        let act := getField isLidContact action in
        evt (EvLIDContact jid ts act fullSync) (putContact jid act)
      else if decide (kind = IndexClearChat) then
        evt (EvClearChat jid ts (getField isClearChat action)
               (bool_decide (3 < length index ∧ nth 3 index "" = "1")) fullSync) nothing
      else if decide (kind = IndexDeleteChat) then
        evt (EvDeleteChat jid ts (getField isDeleteChat action)
               (bool_decide (2 < length index ∧ nth 2 index "" = "1")) fullSync) nothing
      else if decide (kind = IndexStar) then
        if decide (length index < 5) then skip
        else
          let sender := if decide (nth 4 index "" = "0") then EmptyJID else parsedJID (nth 4 index "") in
          evt (EvStar jid sender (nth 2 index "") ts (getField isStar action)
                 (bool_decide (nth 3 index "" = "1")) fullSync) nothing
      else if decide (kind = IndexDeleteMessageForMe) then
        if decide (length index < 5) then skip
        else
          let sender := if decide (nth 4 index "" = "0") then EmptyJID else parsedJID (nth 4 index "") in
          evt (EvDeleteForMe jid sender (nth 2 index "") ts (getField isDeleteForMe action)
                 (bool_decide (nth 3 index "" = "1")) fullSync) nothing
      else if decide (kind = IndexMarkChatAsRead) then
        evt (EvMarkChatAsRead jid ts (getField isMarkRead action) fullSync) nothing
      else if decide (kind = IndexSettingPushName) then
        let act := getField isPushName action in
        evt (EvPushNameSetting ts act fullSync)
          (_ ← setPushName (match act with Some (PushNameSetting n) => n | _ => "" end);
           logged (devCall SaveDevice))
      else if decide (kind = IndexSettingUnarchiveChats) then
        evt (EvUnarchiveChatsSetting ts (getField isUnarchive action) fullSync) nothing
      else if decide (kind = IndexUserStatusMute) then
        evt (EvUserStatusMute jid ts (getField isStatusMute action) fullSync) nothing
      else labelCases m kind fullSync
  end.

(** The whole of [dispatchAppState] as an event and a store update, whose error
    is only logged. *)
Definition dispatchParts {X} (m : Mutation) (fullSync : bool) :
    outcome deviceError (option (appEvent X) * D unit) :=
  if decide (mutIndex m = [IndexNCTSaltSync]) then
    Ok (None, match mutOperation m with
              | SET => storeNCTSalt (match getField isNctSalt (mutAction m) with
                                     | Some (NctSaltSyncAction s) => s | _ => [] end)
              | REMOVE => clearNCTSalt
              end)
  else
    match mutOperation m with
    | REMOVE => Ok (None, mret tt)
    | SET => dispatchSet m fullSync
    end.

Definition dispatchAppState {X} (m : Mutation) (fullSync : bool) : D (option (appEvent X)) :=
  '(evt, upd) ← lift (dispatchParts m fullSync);
  _ ← logged upd;
  mret evt.

(** ** Full syncs *)

Record emitFlags := mkFlags {
  EmitAppStateEventsOnFullSync : bool;
  EmitLabelEventsOnFullSync : bool;
  EmitQuickReplyEventsOnFullSync : bool
}.

Definition shouldEmitFullSyncMutation (fl : emitFlags) (index : list string) : bool :=
  if EmitAppStateEventsOnFullSync fl then true
  else
    match index with
    | [] => false
    | kind :: _ =>
        if EmitQuickReplyEventsOnFullSync fl && bool_decide (kind = IndexQuickReply) then true
        else if negb (EmitLabelEventsOnFullSync fl) then false
        else bool_decide (kind ∈ [IndexLabelEdit; IndexLabelAssociationChat; IndexLabelAssociationMessage])
    end.

(** The filtered list reuses the storage of the list it reads, whose elements it
    never reaches before they are read. *)
Fixpoint filterContacts (mutations : list Mutation) : list Mutation * list ContactEntry :=
  match mutations with
  | [] => ([], [])
  | m :: mutations =>
      let '(filtered, contacts) := filterContacts mutations in
      let entry act :=
        let '(firstName, fullName, username) := contactNames act in
        mkContact (parsedJID (nth 1 (mutIndex m) "")) firstName fullName username true in
      if decide (1 < length (mutIndex m) ∧ nth 0 (mutIndex m) "" = IndexContact)
      then (filtered, entry (getField isContact (mutAction m)) :: contacts)
      else if decide (1 < length (mutIndex m) ∧ nth 0 (mutIndex m) "" = IndexLIDContact)
      then (filtered, entry (getField isLidContact (mutAction m)) :: contacts)
      else (m :: filtered, contacts)
  end.

(** The loop of [collectEventsToDispatch]; the list of events is nil-able. *)
Fixpoint collectLoop {X} (fl : emitFlags) (fullSync : bool) (mutations : list Mutation)
    (events : option (list (appEvent X))) : D (option (list (appEvent X))) :=
  match mutations with
  | [] => mret events
  | m :: mutations =>
      let emitMutation := negb fullSync || shouldEmitFullSyncMutation fl (mutIndex m) in
      let events :=
        match events, mutOperation m with
        | Some l, SET => Some (if emitMutation then (l ++ [EvAppState (mutIndex m) (mutAction m)])%list else l)
        | _, _ => events
        end in
      evt ← dispatchAppState m fullSync;
      collectLoop fl fullSync mutations
        (match events, evt with
         | Some l, Some e => Some (if emitMutation then (l ++ [e])%list else l)
         | _, _ => events
         end)
  end.

Definition collectEventsToDispatch {X} (fl : emitFlags) (name : string) (mutations : list Mutation)
    (fullSync : bool) (events : option (list (appEvent X))) : D (option (list (appEvent X))) :=
  mutations ←
    (if bool_decide (name = WAPatchCriticalUnblockLow) && fullSync && negb (EmitAppStateEventsOnFullSync fl)
     then
       let '(mutations, contacts) := filterContacts mutations in
       _ ← devCall (PutAllContactNames contacts);
       mret mutations
     else mret mutations);
  collectLoop fl fullSync mutations events.

(** * What is emitted *)

(** The events of one mutation, by its content alone. *)
Definition eventOf {X} (m : Mutation) (fullSync : bool) : option (appEvent X) :=
  match dispatchParts m fullSync with Ok (e, _) => e | _ => None end.

Definition emits {X} (fl : emitFlags) (fullSync : bool) (m : Mutation) : list (appEvent X) :=
  if negb fullSync || shouldEmitFullSyncMutation fl (mutIndex m)
  then (match mutOperation m with SET => [EvAppState (mutIndex m) (mutAction m)] | REMOVE => [] end) ++
       (match eventOf m fullSync with Some e => [e] | None => [] end)
  else [].

(** Whether a full sync puts contacts into the store in one go. *)
Definition massInsert (fl : emitFlags) (name : string) (fullSync : bool) : bool :=
  bool_decide (name = WAPatchCriticalUnblockLow) && fullSync && negb (EmitAppStateEventsOnFullSync fl).

Definition isContactMutation (m : Mutation) : Prop :=
  1 < length (mutIndex m) ∧ (nth 0 (mutIndex m) "" = IndexContact ∨ nth 0 (mutIndex m) "" = IndexLIDContact).
#[global] Instance isContactMutation_dec m : Decision (isContactMutation m).
Proof. unfold isContactMutation. apply _. Defined.

Definition emitted {X} (fl : emitFlags) (name : string) (fullSync : bool) (mutations : list Mutation) :
    list (appEvent X) :=
  concat (emits fl fullSync <$>
    (if massInsert fl name fullSync then filter (λ m, ¬ isContactMutation m) mutations else mutations)).

Lemma emitted_app {X} fl name fullSync l k :
  @emitted X fl name fullSync (l ++ k) = (emitted fl name fullSync l ++ emitted fl name fullSync k)%list.
Proof.
  unfold emitted. destruct (massInsert _ _ _); by rewrite ?filter_app, fmap_app, concat_app.
Qed.

Lemma filterContacts_fst mutations :
  (filterContacts mutations).1 = filter (λ m, ¬ isContactMutation m) mutations.
Proof.
  induction mutations as [|m mutations IH]; [done|]. cbn [filterContacts].
  destruct (filterContacts mutations) as [f cs]. cbn [fst] in IH. subst f. rewrite filter_cons.
  repeat case_decide; cbn [fst]; unfold isContactMutation in *; tauto || done.
Qed.

Lemma logged_result (m : D unit) d r d' : logged m d = (r, d') → r = Ok tt ∨ r = Panic ∨ r = OutOfFuel.
Proof. unfold logged. destruct (m d) as [[[]|e| |] d1]; intros [= <- <-]; auto. Qed.

Lemma dispatchAppState_event {X} m fullSync d e d' :
  @dispatchAppState X m fullSync d = (Ok e, d') → e = eventOf m fullSync.
Proof.
  unfold dispatchAppState, eventOf. intros Hd. inv_run. destruct x as [evt upd]. inv_run. by rewrite Hx.
Qed.

Lemma collectLoop_events {X} fl fullSync mutations : ∀ events d events' d',
  @collectLoop X fl fullSync mutations events d = (Ok events', d') →
  events' = (λ l, (l ++ concat (emits fl fullSync <$> mutations))%list) <$> events.
Proof.
  induction mutations as [|m mutations IH]; intros events d events' d' Hc; cbn [collectLoop] in Hc.
  { inv_run. destruct events' as [l|]; [|done]. cbn. by rewrite app_nil_r. }
  inv_run. apply dispatchAppState_event in Hx as ->. apply IH in Hc as ->.
  destruct events as [l|]; [|done]. cbn [fmap option_fmap option_map list_fmap concat]. f_equal.
  unfold emits at 2. destruct (negb fullSync || _), (mutOperation m), (eventOf m fullSync); cbn;
    by rewrite <- ?(assoc_L (++)%list).
Qed.

Lemma collectEvents_emitted {X} fl name mutations fullSync events d events' d' :
  @collectEventsToDispatch X fl name mutations fullSync events d = (Ok events', d') →
  events' = (λ l, (l ++ emitted fl name fullSync mutations)%list) <$> events.
Proof.
  unfold collectEventsToDispatch, emitted. fold (massInsert fl name fullSync). intros Hc. inv_run.
  apply collectLoop_events in Hc as ->. destruct (massInsert fl name fullSync); [|by inv_run].
  rewrite <- filterContacts_fst. destruct (filterContacts mutations). by inv_run.
Qed.

(** An update that returns, with or without an error, and neither panics nor
    fails to end. *)
Definition calm {A} (m : D A) : Prop := ∀ d, match (m d).1 with Ok _ | Err _ => True | _ => False end.

Create HintDb calm.
Lemma calm_ret {A} (a : A) : calm (mret a).
Proof. intros d. exact I. Qed.
Lemma calm_get : calm get.
Proof. intros d. exact I. Qed.
Lemma calm_bind {A B} (m : D A) (f : A → D B) : calm m → (∀ a, calm (f a)) → calm (m ≫= f).
Proof.
  intros Hm Hf d. specialize (Hm d). unfold mbind, stateM_bind.
  destruct (m d) as [[a|e| |] d1]; [apply Hf|exact I|done..].
Qed.
Lemma calm_devCall c : calm (devCall c).
Proof. intros d. unfold devCall. by destruct (callFaults d) as [|[] fs]. Qed.
Lemma calm_setPushName n : calm (setPushName n).
Proof. intros d. exact I. Qed.
Lemma calm_logged m : calm m → calm (logged m).
Proof. intros Hm d. specialize (Hm d). unfold logged. by destruct (m d) as [[] ?]. Qed.
#[export] Hint Resolve calm_ret calm_get calm_devCall calm_setPushName calm_logged : calm.

Lemma calm_if {A} (b : bool) (m k : D A) : calm m → calm k → calm (if b then m else k).
Proof. by destruct b. Qed.
#[export] Hint Resolve calm_if : calm.
Ltac calm_step := first [ progress (auto with calm nocore) | apply calm_bind; [|intros ?] ].

Lemma calm_chatSetting c : calm (chatSetting c).
Proof. unfold chatSetting. repeat calm_step. Qed.
Lemma calm_putContact jid act : calm (putContact jid act).
Proof.
  unfold putContact. calm_step; [calm_step|]. apply calm_if; [|calm_step].
  destruct (contactNames act) as [[? ?] ?]. repeat calm_step.
Qed.
Lemma calm_putRootSecrets bot act : calm (putRootSecrets bot act).
Proof. unfold putRootSecrets. repeat calm_step. Qed.
#[export] Hint Resolve calm_chatSetting calm_putContact calm_putRootSecrets : calm.

Definition badIndex (index : list string) : Prop := index = [] ∨ index = [IndexLabelEdit].

Lemma dispatchSet_cases {X} (m : Mutation) (fullSync : bool) :
  match @dispatchSet X m fullSync with
  | Ok (_, upd) => calm upd
  | Panic => badIndex (mutIndex m)
  | _ => False
  end.
Proof.
  unfold dispatchSet, labelCases. destruct (mutIndex m) as [|kind rest] eqn:Hi; [by left|].
  repeat case_decide; try (repeat calm_step; fail); repeat calm_step.
  right. destruct rest as [|r rest]; [by subst|]. cbn in *. lia.
Qed.

Lemma dispatchParts_cases {X} (m : Mutation) (fullSync : bool) :
  match @dispatchParts X m fullSync with
  | Ok (_, upd) => calm upd
  | Panic => mutOperation m = SET ∧ badIndex (mutIndex m)
  | _ => False
  end.
Proof.
  unfold dispatchParts. case_decide.
  - destruct (mutOperation m); [|apply calm_devCall]. unfold storeNCTSalt. case_decide; repeat calm_step.
  - destruct (mutOperation m); [|repeat calm_step]. pose proof (dispatchSet_cases (X := X) m fullSync).
    by destruct (dispatchSet m fullSync) as [[]| | |].
Qed.

(** Dispatching a decoded mutation panics for exactly two shapes of its
    index: a set mutation with an empty index, and a set label edit whose index
    has no second element. In every other case it returns, whatever the device
    store does: a failing store call is only logged. *)
Theorem dispatchAppState_panics {X} (m : Mutation) (fullSync : bool) (d : Device) :
  match (@dispatchAppState X m fullSync d).1 with
  | Ok e => e = eventOf m fullSync
  | Panic => mutOperation m = SET ∧ badIndex (mutIndex m)
  | _ => False
  end ∧
  (mutOperation m = SET → badIndex (mutIndex m) →
   (@dispatchAppState X m fullSync d).1 = Panic).
Proof.
  pose proof (dispatchParts_cases (X := X) m fullSync) as Hc. split.
  - unfold dispatchAppState, eventOf, mbind, stateM_bind, lift.
    destruct (dispatchParts m fullSync) as [[e upd]|[]| |]; try done.
    specialize (calm_logged _ Hc d) as Hl. pose proof (logged_result upd d) as Hr.
    destruct (logged upd d) as [[]  d1]; cbn in Hl |- *; try done.
    by destruct (Hr _ _ eq_refl) as [|[|]].
  - intros Hop Hi. unfold dispatchAppState, dispatchParts, dispatchSet, labelCases. rewrite Hop.
    by destruct Hi as [-> | ->].
Qed.
