(* ===== verification/AppStateClient.v ===== *)
(** The client's side of app state synchronisation (src/appstate.go): fetching
    pages of patches until the server has no more, applying them, sending patches
    with one retry on a conflict, recovering a collection from a primary device
    and asking for missing keys. The server is the list of its answers. *)
From Stdlib Require Import ZArith Lia.
From Stdlib Require Import Strings.Byte.
From stdpp Require Import prelude gmap strings list fin_maps.
From S2P Require Import Prelude Cache Strconv Jid Node Attrs Cbc LTHash AppStore AppState AppStateEncode AppStateDispatch.

#[local] Open Scope string_scope.

(** ** Patch lists

    [ParsePatchList] of src/appstate/decode.go: reading a list of patches from the node the
    server answers with. The protobuf messages and the download of external blobs are
    parameters. *)

(** A reference to an external blob; the client passes it on unread. *)
Record blobRef := mkBlobRef { refBytes : list byte }.

(** google.golang.org/protobuf on the messages a list is made of. A patch comes
    with the reference to its mutations, when they are not in it. *)
Class PatchCodec := {
  unmarshalBlobRef : list byte → option blobRef;
  unmarshalSnapshot : list byte → option SyncdSnapshot;
  unmarshalPatch : list byte → option (SyncdPatch * option blobRef);
  unmarshalMutations : list byte → option (list SyncdMutation)
}.

Inductive parseError :=
| SnapshotUnmarshal
| PatchUnmarshal (i : nat)
| DownloadFailed
| MutationListUnmarshal
| NoMutationsDownloaded
| AttrErrors (l : list attrError).

Section parse.
Context `{PatchCodec}.

(** [DownloadExternalFunc]; calling a nil one panics. *)
Context (downloadExternal : option (blobRef → option (list byte))).

Definition callDownload (ref : blobRef) : outcome parseError (list byte) :=
  match downloadExternal with
  | None => Panic
  | Some f => match f ref with Some d => Ok d | None => Err DownloadFailed end
  end.

Definition contentBytes (n : node) : option (list byte) :=
  match Content n with VBytes l => Some l | _ => None end.

Definition parseSnapshotInternal (collection : node) : outcome parseError (option SyncdSnapshot) :=
  let snapshotNode := GetChildByTag collection ["snapshot"] in
  match contentBytes snapshotNode with
  | Some rawSnapshot =>
      if decide (Tag snapshotNode ≠ "snapshot") then Ok None
      else
        match unmarshalBlobRef rawSnapshot with
        | None => Err SnapshotUnmarshal
        | Some ref =>
            rawData ← callDownload ref;
            match unmarshalSnapshot rawData with
            | None => Err MutationListUnmarshal
            | Some downloaded => Ok (Some downloaded)
            end
        end
  | None => Ok None
  end.

Definition setMutations (patch : SyncdPatch) (muts : list SyncdMutation) : SyncdPatch :=
  mkPatch (patchVersion patch) muts (patchSnapshotMAC patch) (patchPatchMAC patch) (patchKeyID patch).

(** One patch node: [None] when it is skipped. *)
Definition parsePatch (i : nat) (patchNode : node) : outcome parseError (option SyncdPatch) :=
  match contentBytes patchNode with
  | Some rawPatch =>
      if decide (Tag patchNode ≠ "patch") then Ok None
      else
        match unmarshalPatch rawPatch with
        | None => Err (PatchUnmarshal (i + 1))
        | Some (patch, Some ref) =>
            match downloadExternal with
            | None => Ok (Some patch)
            | Some _ =>
                rawData ← callDownload ref;
                match unmarshalMutations rawData with
                | None => Err MutationListUnmarshal
                | Some [] => Err NoMutationsDownloaded
                | Some muts => Ok (Some (setMutations patch muts))
                end
            end
        | Some (patch, None) => Ok (Some patch)
        end
  | None => Ok None
  end.

Fixpoint parsePatches (i : nat) (patchNodes : list node) : outcome parseError (list SyncdPatch) :=
  match patchNodes with
  | [] => Ok []
  | n :: patchNodes =>
      p ← parsePatch i n;
      patches ← parsePatches (S i) patchNodes;
      Ok (match p with Some patch => patch :: patches | None => patches end)
  end.

Definition parsePatchListInternal (collection : node) : outcome parseError (list SyncdPatch) :=
  let patchesNode := GetChildByTag collection ["patches"] in
  parsePatches 0 (GetChildren patchesNode).

Definition ParsePatchList (collection : node) : outcome parseError PatchList :=
  let ag := AttrGetter_of collection in
  snapshot ← parseSnapshotInternal collection;
  patches ← parsePatchListInternal collection;
  let '(name, ag) := attrString "name" ag in
  let '(more, ag) := OptionalBool "has_more_patches" ag in
  match attrsError ag with
  | Some errs => Err (AttrErrors errs)
  | None => Ok (mkPatchList name more patches snapshot)
  end.
End parse.

(** ** The client *)

Inductive clientError {E : Type} :=
| ProcError (e : asError E)                    (* from the processor or its store *)
| StoreFailed (e : E)                          (* from the store of versions and keys *)
| IQFailed                                     (* no answer, or an error answer *)
| ElementMissing (tag : string)
| ParseFailed (e : parseError)
| UnexpectedSnapshot
| NonEmptyInputState
| ContactStoreFailed
| NoKeys
| ErrAppStateUpdate
| ConflictParseFailed (e : parseError)
| ConflictApplyFailed (e : clientError).
Arguments clientError E : clear implicits.

(** The collection attributes of a query, and the encoded patch in it. *)
Record syncQuery := mkQuery { queryAttrs : list (string * value); queryPatch : option (list byte) }.

(** [appStateKeyRequests] holds the time of the last request by key id. *)
Record Client (S E : Type) := mkClient {
  proc : Processor S;
  device : Device;
  flags : emitFlags;
  answers : list (option node);                (* to the next queries; [None]: it fails *)
  queries : list syncQuery;
  dispatched : list (appEvent (clientError E));
  handlerFailures : list bool;                 (* of the next dispatched events *)
  keySearches : list PatchList;                (* goroutines started for missing keys *)
  appStateKeyRequests : gmap string Z;
  keyRequestsSent : list (list (list byte))
}.
Arguments mkClient {S E} _ _ _ _ _ _ _ _ _ _.
Arguments proc {S E} _.
Arguments device {S E} _.
Arguments flags {S E} _.
Arguments answers {S E} _.
Arguments queries {S E} _.
Arguments dispatched {S E} _.
Arguments handlerFailures {S E} _.
Arguments keySearches {S E} _.
Arguments appStateKeyRequests {S E} _.
Arguments keyRequestsSent {S E} _.

Section client.
Context `{Crypto} `{HKDF} `{AppCodec} `{PatchCodec} {S E : Type} `{!AppStateStore S E}.
(** [downloadExternalAppStateBlob]. *)
Context (download : blobRef → option (list byte)).
Notation C := (Client S E).
Notation M := (stateM C (clientError E)).
Notation event := (appEvent (clientError E)).

Definition setProc (p : Processor S) (c : C) : C :=
  mkClient p (device c) (flags c) (answers c) (queries c) (dispatched c) (handlerFailures c) (keySearches c)
    (appStateKeyRequests c) (keyRequestsSent c).
Definition setDevice (d : Device) (c : C) : C :=
  mkClient (proc c) d (flags c) (answers c) (queries c) (dispatched c) (handlerFailures c) (keySearches c)
    (appStateKeyRequests c) (keyRequestsSent c).

Definition onProc {A} (m : stateM (Processor S) (asError E) A) : M A := zoom proc setProc ProcError m.
(** [cli.Store.AppState] is the store the processor was made with. *)
Definition onStates {A} (m : stateM S E A) : M A :=
  zoom (procStore ∘ proc) (λ s c, setProc (mkProc (keyCache (proc c)) s) c) StoreFailed m.
Definition onDevice {A} (m : stateM Device deviceError A) : M A :=
  zoom device setDevice (λ _, ContactStoreFailed) m.

(** [dispatchEvent]: whether a handler failed. *)
Definition dispatchEvent (e : event) : M bool := λ c,
  let '(flt, fs) := match handlerFailures c with [] => (false, []) | b :: fs => (b, fs) end in
  (Ok flt, mkClient (proc c) (device c) (flags c) (answers c) (queries c) (dispatched c ++ [e])%list fs
             (keySearches c) (appStateKeyRequests c) (keyRequestsSent c)).

Definition startKeySearch (pl : PatchList) (c : C) : C :=
  mkClient (proc c) (device c) (flags c) (answers c) (queries c) (dispatched c) (handlerFailures c)
    (keySearches c ++ [pl])%list (appStateKeyRequests c) (keyRequestsSent c).

(** [sendIQ] with a sync query. *)
Definition sendIQ (q : syncQuery) : M node := λ c,
  let '(r, rest) := match answers c with [] => (None, []) | r :: rest => (r, rest) end in
  (match r with Some n => Ok n | None => Err IQFailed end,
   mkClient (proc c) (device c) (flags c) rest (queries c ++ [q])%list (dispatched c) (handlerFailures c)
     (keySearches c) (appStateKeyRequests c) (keyRequestsSent c)).

(** Do [h] on an error and fail with it. *)
Definition onError {A} (m : M A) (h : clientError E → C → C) : M A := λ c,
  match m c with
  | (Err e, c) => (Err e, h e c)
  | r => r
  end.
Definition mapError {A} (f : clientError E → clientError E) (m : M A) : M A := λ c,
  let '(r, c) := m c in (map_err f r, c).

(** ** Fetching *)

Definition parseAnswer (err : parseError → clientError E) (collection : node) : M PatchList :=
  lift (map_err err (ParsePatchList (Some download) collection)).

Definition fetchAppStatePatches (name : string) (fromVersion : Z) (snapshot : bool) : M PatchList :=
  let attrs := (("name", VString name) :: ("return_snapshot", VBool snapshot) ::
                (if snapshot then [] else [("version", VUint64 fromVersion)])) in
  resp ← sendIQ (mkQuery attrs None);
  match GetOptionalChildByTag resp ["sync"; "collection"] with
  | (collection, true) => parseAnswer ParseFailed collection
  | (_, false) => throw (ElementMissing "collection")
  end.

Definition applyAppStatePatches (name : string) (state : HashState) (patches : PatchList) (fullSync : bool)
    (events : option (list event)) : M (HashState * option (list event)) :=
  '(mutations, newState) ←
    onError (onProc (DecodePatches patches state true))
      (λ e, match e with
            | ProcError ErrKeyNotFound => startKeySearch patches
            | _ => snd ∘ dispatchEvent (EvSyncError name e fullSync)
            end);
  c ← get;
  events ← onDevice (collectEventsToDispatch (flags c) name mutations fullSync events);
  mret (newState, events).

(** [live]: neither context has ended. *)
Fixpoint fetchLoop (fuel : nat) (live : bool) (name : string) (fullSync wantSnapshot : bool) (state : HashState)
    (events : option (list event)) : M (HashState * option (list event)) :=
  match fuel with
  | O => lift OutOfFuel
  | Datatypes.S fuel =>
      patches ← onError (fetchAppStatePatches name (hsVersion state) wantSnapshot)
        (λ e, if fullSync && live then snd ∘ dispatchEvent (EvSyncError name e fullSync) else id);
      if negb wantSnapshot && bool_decide (is_Some (Snapshot patches)) then throw UnexpectedSnapshot
      else if bool_decide (is_Some (Snapshot patches)) &&
              negb (bool_decide (hsVersion state = 0%Z ∧ hsHash state = replicate 128 x00))
      then throw NonEmptyInputState
      else
        '(state, events) ← applyAppStatePatches name state patches fullSync events;
        if HasMorePatches patches
        then fetchLoop fuel live name fullSync false state events
        else mret (state, events)
  end.

Definition emitsNothing (fl : emitFlags) : bool :=
  negb (EmitAppStateEventsOnFullSync fl) && negb (EmitLabelEventsOnFullSync fl) &&
  negb (EmitQuickReplyEventsOnFullSync fl).

Definition fetchAppState (live : bool) (name : string) (fullSync onlyIfNotSynced : bool) : M (list event) :=
  _ ← (if fullSync then onStates (DeleteAppStateVersion name) else mret tt);
  '(version, hash) ← onStates (GetAppStateVersion name);
  if negb (version =? 0)%Z && onlyIfNotSynced then mret []
  else
    let fullSync := fullSync || (version =? 0)%Z in
    c ← get;
    let events := if fullSync && emitsNothing (flags c) then None else Some [] in
    '(state, events) ← fetchLoop (1 + length (answers c)) live name fullSync fullSync
                         (mkHashState version hash) events;
    let events := default [] events in
    mret (if fullSync then (events ++ [EvSyncComplete name (hsVersion state) false])%list else events).

Fixpoint dispatchAll (events : list event) : M unit :=
  match events with
  | [] => mret tt
  | e :: events => _ ← dispatchEvent e; dispatchAll events
  end.

Definition FetchAppState (live : bool) (name : string) (fullSync onlyIfNotSynced : bool) : M unit :=
  events ← fetchAppState live name fullSync onlyIfNotSynced;
  dispatchAll events.

(** ** Recovery *)

(** Dispatch until a handler fails. *)
Fixpoint dispatchWhile (events : list event) : M bool :=
  match events with
  | [] => mret true
  | e :: events =>
      failed ← dispatchEvent e;
      if (failed : bool) then mret false else dispatchWhile events
  end.

(** A call whose error is logged and ends the handling. *)
Definition orDone {A} (m : M A) (k : A → M bool) : M bool := λ c,
  match m c with
  | (Ok a, c) => k a c
  | (Err _, c) => (Ok true, c)
  | (Panic, c) => (Panic, c)
  | (OutOfFuel, c) => (OutOfFuel, c)
  end.

(** [result]: what each result parses to, [None] for one without a snapshot;
    [Some None] for a blob that does not parse. *)
Definition handleAppStateRecovery (result : list (option (option SyncdSnapshotRecovery))) : M bool :=
  match result with
  | [] | None :: _ => mret true
  | Some None :: _ => mret true
  | Some (Some snapshot) :: _ =>
      c ← get;
      let events := if emitsNothing (flags c) then None else Some [] in
      let name := CollectionName snapshot in
      let version := recVersion snapshot in
      orDone (onStates (GetAppStateVersion name)) (λ '(currentVersion, _),
        if (version <=? currentVersion)%Z then mret true
        else
          orDone (onProc (ProcessRecovery snapshot)) (λ mutations,
            orDone (onDevice (collectEventsToDispatch (flags c) name mutations true events)) (λ events,
              dispatchWhile (default [] events ++ [EvSyncComplete name version true])%list)))
  end.

(** ** Missing keys *)

Definition day : Z := 24 * 3600 * 1000000000.

Fixpoint filterKeyIDs (now : Z) (rawKeyIDs : list (list byte)) (requests : gmap string Z) :
    list (list byte) * gmap string Z :=
  match rawKeyIDs with
  | [] => ([], requests)
  | keyID :: rawKeyIDs =>
      let stringKeyID := hexEncodeToString keyID in
      let due := match requests !! stringKeyID with
                 | None => true
                 | Some lastRequestTime => bool_decide (lastRequestTime + day < now)%Z
                 end in
      if due && negb (bool_decide (requests !! stringKeyID = None) &&
                      bool_decide (maxAppStateKeyRequestEntries ≤ base.size requests)%nat)
      then
        let '(l, requests) := filterKeyIDs now rawKeyIDs (<[stringKeyID := now]> requests) in
        (keyID :: l, requests)
      else filterKeyIDs now rawKeyIDs requests
  end.

(** [requestAppStateKeys] sends no message without ids. *)
Definition requestAppStateKeys (rawKeyIDs : list (list byte)) (c : C) : C :=
  match rawKeyIDs with
  | [] => c
  | _ => mkClient (proc c) (device c) (flags c) (answers c) (queries c) (dispatched c) (handlerFailures c)
           (keySearches c) (appStateKeyRequests c) (keyRequestsSent c ++ [rawKeyIDs])%list
  end.

Definition requestMissingAppStateKeys (now : Z) (patches : PatchList) (c : C) : C :=
  let '(rawKeyIDs, s) := GetMissingKeyIDs patches (procStore (proc c)) in
  let requests :=
    if decide (maxAppStateKeyRequestEntries ≤ base.size (appStateKeyRequests c))%nat
    then pruneExpiredCache (appStateKeyRequests c) (now - day)
    else appStateKeyRequests c in
  let '(filteredKeyIDs, requests) := filterKeyIDs now rawKeyIDs requests in
  requestAppStateKeys filteredKeyIDs
    (mkClient (mkProc (keyCache (proc c)) s) (device c) (flags c) (answers c) (queries c) (dispatched c)
       (handlerFailures c) (keySearches c) requests (keyRequestsSent c)).

(** ** Sending *)

(** [updateNow], [updateRand]: the clock and the random source of each attempt. *)
Definition sendAttempt (updateNow : Z) (updateRand : nat → option (list byte)) (patch : PatchInfo) :
    M (HashState * node) :=
  '(version, hash) ← onStates (GetAppStateVersion (piType patch));
  latestKeyID ← onStates GetLatestAppStateSyncKeyID;
  match latestKeyID with
  | None => throw NoKeys
  | Some latestKeyID =>
      let state := mkHashState version hash in
      encodedPatch ← onProc (EncodePatch updateNow updateRand latestKeyID state patch);
      resp ← sendIQ (mkQuery [("name", VString (piType patch)); ("version", VUint64 version);
                              ("return_snapshot", VBool false)] (Some encodedPatch));
      match GetOptionalChildByTag resp ["sync"; "collection"] with
      | (respCollection, true) => mret (state, respCollection)
      | (_, false) => throw (ElementMissing "collection")
      end
  end.

(** A conflict: an error answer whose error has the code 409. *)
Definition isConflict (respCollection : node) : bool :=
  match GetOptionalChildByTag respCollection ["error"] with
  | (errorTag, true) => bool_decide ((attrInt "code" (AttrGetter_of errorTag)).1 = 409%Z)
  | (_, false) => false
  end.

Definition isErrorAnswer (respCollection : node) : bool :=
  bool_decide ((OptionalString "type" (AttrGetter_of respCollection)).1 = "error").

(** The attempts by number; [attempts] is how many remain after this one. *)
Fixpoint sendAppState (attempts : nat) (live : bool) (clock : nat → Z) (rand : nat → nat → option (list byte))
    (patch : PatchInfo) : M unit :=
  '(state, respCollection) ← sendAttempt (clock attempts) (rand attempts) patch;
  if isErrorAnswer respCollection then
    match attempts with
    | Datatypes.S attempts =>
        if isConflict respCollection then
          patches ← parseAnswer ConflictParseFailed respCollection;
          '(_, events) ← mapError ConflictApplyFailed
                           (applyAppStatePatches (piType patch) state patches false (Some []));
          _ ← dispatchAll (default [] events);
          sendAppState attempts live clock rand patch
        else throw ErrAppStateUpdate
    | O => throw ErrAppStateUpdate
    end
  else
    events ← fetchAppState live (piType patch) false false;
    dispatchAll events.

Definition SendAppState := sendAppState 1.
End client.
