(* ===== verification/AppStateFetch.v ===== *)
(** Fetching keeps the collection: the client over any store that keeps its
    promises and a server that numbers its patches upwards. *)
From Stdlib Require Import ZArith Lia.
From Stdlib Require Import Strings.Byte.
From stdpp Require Import prelude gmap strings list fin_maps.
From S2P Require Import Prelude Strconv Jid Node Attrs Cbc LTHash AppStore AppState AppStateTheory.
From S2P Require Import AppStateEncode AppStateSync AppStateDispatch AppStateClient.

#[local] Open Scope string_scope.

Section fetch.
Context `{CryptoLaws} `{HKDFLaws} `{AppCodec} `{PatchCodec} {S E : Type} `{AppStateStoreLaws S E}.
Context (download : blobRef → option (list byte)).
Notation C := (Client S E).
Notation M := (stateM C (clientError E)).
Notation event := (appEvent (clientError E)).

(** ** What the answers say *)

(** The page of patches in an answer. *)
Definition page (answer : option node) : option PatchList :=
  match answer with
  | None => None
  | Some resp =>
      match GetOptionalChildByTag resp ["sync"; "collection"] with
      | (collection, true) =>
          match ParsePatchList (Some download) collection with Ok pl => Some pl | _ => None end
      | _ => None
      end
  end.

Definition listMutations (pl : PatchList) : list SyncdMutation :=
  (snapshotMutations pl ++ allMutations (Patches pl))%list.

(** The server answers for the collection that was asked for, with versions
    that go up from [v]. *)
Fixpoint follows (name : string) (v : Z) (answers : list (option node)) : Prop :=
  match answers with
  | [] => True
  | a :: answers =>
      match page a with
      | None => True
      | Some pl =>
          plName pl = name ∧
          match Snapshot pl with
          | Some ss => (v < ssVersion ss)%Z ∧ increasing (ssVersion ss) (Patches pl)
          | None => increasing v (Patches pl)
          end ∧
          follows name (endVersion v pl) answers
      end
  end.

(** ** Steps *)

Lemma onProc_Ok {A} (m : stateM (Processor S) (asError E) A) (c : C) a c' :
  onProc m c = (Ok a, c') → ∃ p', m (proc c) = (Ok a, p') ∧ c' = setProc p' c.
Proof.
  unfold onProc, zoom. destruct (m (proc c)) as [[x| | |] p']; intros [= <- <-]. eauto.
Qed.

Lemma onStates_Ok {A} (m : stateM S E A) (c : C) a c' :
  onStates m c = (Ok a, c') →
  ∃ s', m (procStore (proc c)) = (Ok a, s') ∧ c' = setProc (mkProc (keyCache (proc c)) s') c.
Proof.
  unfold onStates, zoom. cbn [compose]. unfold compose.
  destruct (m (procStore (proc c))) as [[x| | |] s']; intros [= <- <-]. eauto.
Qed.

Lemma onDevice_Ok {A} (m : stateM Device deviceError A) (c : C) a c' :
  onDevice m c = (Ok a, c') → ∃ d', m (device c) = (Ok a, d') ∧ c' = setDevice d' c.
Proof.
  unfold onDevice, zoom. destruct (m (device c)) as [[x| | |] d']; intros [= <- <-]. eauto.
Qed.

Lemma onError_Ok {A} (m : M A) h c a c' : onError m h c = (Ok a, c') → m c = (Ok a, c').
Proof. unfold onError. destruct (m c) as [[x| | |] c1]; intros [= <- <-]; done. Qed.

Lemma fetchAppStatePatches_Ok name v snapshot (c : C) pl c' :
  fetchAppStatePatches download name v snapshot c = (Ok pl, c') →
  ∃ a, answers c = a :: answers c' ∧ page a = Some pl ∧
    proc c' = proc c ∧ device c' = device c ∧ flags c' = flags c.
Proof.
  unfold fetchAppStatePatches, parseAnswer. intros Hf. inv_run. unfold sendIQ in Hx.
  destruct (answers c) as [|[n|] rest] eqn:Ha; try discriminate. injection Hx as <- <-.
  destruct (GetOptionalChildByTag n _) as [col []] eqn:Hcol; inv_run.
  exists (Some n). cbn [answers]. split_and!; try done. unfold page. rewrite Hcol.
  destruct (ParsePatchList _ col); cbn in Hf; congruence.
Qed.

Lemma applyAppStatePatches_Ok name state patches fullSync events (c : C) state' events' c' :
  applyAppStatePatches name state patches fullSync events c = (Ok (state', events'), c') →
  ∃ muts p', DecodePatches patches state true (proc c) = (Ok (muts, state'), p') ∧ proc c' = p' ∧
    answers c' = answers c ∧ flags c' = flags c ∧
    events' = (λ l, (l ++ emitted (flags c) name fullSync muts)%list) <$> events.
Proof.
  unfold applyAppStatePatches. intros Ha. inv_run. destruct x as [muts newState]. inv_run.
  apply onError_Ok, onProc_Ok in Hx as (p' & Hd & ->).
  unfold get in Hx0. injection Hx0 as <- <-.
  apply onDevice_Ok in Hx1 as (d' & Hc & ->). apply collectEvents_emitted in Hc as ->.
  exists muts, p'. by split_and!.
Qed.

(** ** The loop *)

Lemma fetchLoop_Ok live name fullSync fuel : ∀ want V state events (c : C) state' events' c',
  synced name state (proc c) V → (want = true → hsVersion state = 0%Z → V = ∅) →
  follows name (hsVersion state) (answers c) →
  fetchLoop download fuel live name fullSync want state events c = (Ok (state', events'), c') →
  ∃ consumed pls muts,
    answers c = (consumed ++ answers c')%list ∧ page <$> consumed = Some <$> pls ∧
    synced (E := E) name state' (proc c') (applyAll V (concat (listMutations <$> pls))) ∧
    Forall2 (λ m mut, ∃ v, decodes (E := E) true (proc c') v m mut) (concat (listMutations <$> pls)) muts ∧
    events' = (λ l, (l ++ emitted (flags c) name fullSync muts)%list) <$> events ∧
    (∀ id keys, cached (proc c) id keys → cached (proc c') id keys).
Proof.
  induction fuel as [|fuel IH]; intros want V state events c state' events' c' Hs H0v Hf Hl; [discriminate|].
  cbn [fetchLoop] in Hl. inv_run. rename x into pl.
  apply onError_Ok, fetchAppStatePatches_Ok in Hx as (a & Ha & Hp & Hproc & Hdev & Hfl).
  rewrite Ha in Hf. cbn [follows] in Hf. rewrite Hp in Hf. destruct Hf as (Hname & Hinc & Hf).
  rewrite <- Hproc in Hs. subst name.
  destruct (negb want && _) eqn:Hwant; [inv_run|]. destruct (bool_decide _ && _) eqn:Hsnap; [inv_run|].
  assert (applicable pl state V) as Happ.
  { unfold applicable. destruct (Snapshot pl) as [ss|] eqn:Hss; [|done]. split; [|done].
    rewrite bool_decide_true in Hsnap, Hwant by eauto. apply H0v; [by destruct want|]. cbn in Hsnap.
    by apply negb_false_iff, bool_decide_eq_true in Hsnap as [? _]. }
  inv_run. destruct x as [state1 events1].
  apply applyAppStatePatches_Ok in Hx as (muts1 & p1 & Hd & <- & Ha1 & Hfl1 & ->).
  destruct (DecodePatches_Ok _ _ _ _ _ _ _ _ Hs Happ Hd) as (Hs1 & Hv1 & Hc1 & _ & Hall1).
  rewrite <- applyAll_app in Hs1. fold (listMutations pl) in Hs1, Hall1.
  destruct (HasMorePatches pl).
  - rewrite <- Hv1, <- Ha1 in Hf.
    destruct (IH false _ _ _ _ _ _ _ Hs1 ltac:(discriminate) Hf Hl)
      as (consumed & pls & muts & Hcons & Hpages & Hs2 & Hall2 & Hev2 & Hc2).
    exists (a :: consumed), (pl :: pls), (muts1 ++ muts)%list. cbn [fmap list_fmap concat].
    rewrite applyAll_app. split_and!.
    + by rewrite Ha, <- Ha1, Hcons.
    + by rewrite Hp, Hpages.
    + done.
    + apply Forall2_app; [|done]. eapply Forall2_impl; [done|]. intros m mut [v Hm].
      exists v. by eapply decodes_cached.
    + rewrite Hev2, Hfl1, Hfl. destruct events as [l|]; [|done]. cbn. by rewrite emitted_app, (assoc_L (++)%list).
    + rewrite <- Hproc. auto.
  - inv_run. exists [a], [pl], muts1. cbn [fmap list_fmap concat app]. rewrite app_nil_r, Ha1, Hfl.
    split_and!; try done. { by rewrite Hp. } rewrite <- Hproc. auto.
Qed.

Lemma fetchLoop_fuel live name fullSync fuel : ∀ fuel' want state events (c : C),
  (length (answers c) < fuel)%nat → (length (answers c) < fuel')%nat →
  fetchLoop download fuel live name fullSync want state events c =
  fetchLoop download fuel' live name fullSync want state events c.
Proof.
  induction fuel as [|fuel IH]; intros [|fuel'] want state events c Hf Hf'; [lia..|].
  cbn [fetchLoop]. unfold mbind at 1 3, stateM_bind at 1 3.
  destruct (onError _ _ c) as [[pl|e| |] c1] eqn:Hp; [|done..].
  apply onError_Ok, fetchAppStatePatches_Ok in Hp as (a & Ha & _).
  destruct (negb want && _); [done|]. destruct (bool_decide _ && _); [done|].
  unfold mbind at 1 2, stateM_bind at 1 2.
  destruct (applyAppStatePatches name state pl fullSync events c1) as [[[hs' evs']|e| |] c2] eqn:Hap; [|done..].
  apply applyAppStatePatches_Ok in Hap as (_ & _ & _ & _ & Ha2 & _).
  rewrite Ha in Hf, Hf'. cbn in Hf, Hf'.
  destruct (HasMorePatches pl); [|done]. apply IH; rewrite Ha2; lia.
Qed.

(** ** What the loop asks *)

(** A step that asks the server nothing. *)
Definition asksNothing {A} (m : M A) : Prop :=
  ∀ c, answers (m c).2 = answers c ∧ queries (m c).2 = queries c.

Lemma dispatchEvent_asksNothing (e : event) : asksNothing (dispatchEvent e).
Proof. intros c. unfold dispatchEvent. by destruct (handlerFailures c). Qed.

Lemma asksNothing_bind {A B} (m : M A) (k : A → M B) :
  asksNothing m → (∀ a, asksNothing (k a)) → asksNothing (m ≫= k).
Proof.
  intros Hm Hk c. unfold mbind, stateM_bind. specialize (Hm c). destruct (m c) as [[a| | |] c1]; [|done..].
  destruct (Hk a c1) as [-> ->]. done.
Qed.

Lemma asksNothing_onError {A} (m : M A) h :
  asksNothing m → (∀ e c, answers (h e c) = answers c ∧ queries (h e c) = queries c) → asksNothing (onError m h).
Proof.
  intros Hm Hh c. unfold onError. specialize (Hm c). destruct (m c) as [[a|e| |] c1]; [done| |done..].
  cbn in *. destruct (Hh e c1) as [-> ->]. done.
Qed.

Lemma applyAppStatePatches_asksNothing name state pl fullSync events :
  asksNothing (applyAppStatePatches name state pl fullSync events).
Proof.
  apply asksNothing_bind.
  - apply asksNothing_onError.
    + intros c. unfold onProc, zoom. by destruct (DecodePatches _ _ _ _) as [[] ?].
    + intros e c. repeat case_match; try done; apply dispatchEvent_asksNothing.
  - intros [muts state']. apply asksNothing_bind; [done|]. intros c0. apply asksNothing_bind; [|done].
    intros c. unfold onDevice, zoom. by destruct (collectEventsToDispatch _ _ _ _ _ _) as [[] ?].
Qed.

(** A query asks for a snapshot or for what follows a version. *)
Definition asksFor (name : string) (snapshot : bool) (q : syncQuery) : Prop :=
  queryPatch q = None ∧ (("name", VString name) ∈ queryAttrs q) ∧ (("return_snapshot", VBool snapshot) ∈ queryAttrs q).

(** One query uses up one answer, unless none is left; a page is what the answer says. *)
Lemma fetchAppStatePatches_asks name v snapshot (c : C) r c1 :
  fetchAppStatePatches download name v snapshot c = (r, c1) →
  (∃ q, queries c1 = (queries c ++ [q])%list ∧ asksFor name snapshot q) ∧
  (∃ used, answers c = (used ++ answers c1)%list ∧ (length used ≤ 1)%nat ∧
     (used = [] → answers c1 = []) ∧ ∀ pl, r = Ok pl → ∃ a, used = [a] ∧ page a = Some pl).
Proof.
  intros Hf. pose proof Hf as Hok. unfold fetchAppStatePatches, mbind, stateM_bind, sendIQ, parseAnswer in Hf.
  set (q := mkQuery _ _) in Hf.
  assert (asksFor name snapshot q) as Hq by (split_and!; [done|left|right; left]).
  assert (queries c1 = (queries c ++ [q])%list ∧ answers c1 = tail (answers c)) as [Hqs Hans].
  { destruct (answers c) as [|[n|] rest] eqn:Ha; [by injection Hf as <- <-| |by injection Hf as <- <-].
    destruct (GetOptionalChildByTag n _) as [col []]; by injection Hf as <- <-. }
  split; [eauto|]. rewrite Hans. exists (take 1 (answers c)).
  destruct (answers c) as [|a rest] eqn:Ha; (split_and!; [done|rewrite length_take; lia|done|]); intros pl ->;
    apply fetchAppStatePatches_Ok in Hok as (a' & Ha' & Hp & _); rewrite Ha in Ha'; [done|].
  exists a'. injection Ha' as -> _. done.
Qed.

Definition moreFollows (a : option node) : Prop := ∃ pl, page a = Some pl ∧ HasMorePatches pl = true.
Definition lastPage (a : option node) : Prop := ∃ pl, page a = Some pl ∧ HasMorePatches pl = false.

(** What the loop asked and was answered: every answer it used but the last is a
    page that says that more follow, and a result comes after one that says that
    no more do; one query per answer, until none is left. *)
Definition fetched {R} (name : string) (want : bool) (c : C) (run : outcome (clientError E) R * C) : Prop :=
  ∃ pages ending q asked,
    answers c = (pages ++ ending ++ answers run.2)%list ∧ (length ending ≤ 1)%nat ∧
    (ending = [] → answers run.2 = []) ∧ Forall moreFollows pages ∧
    (∀ x, run.1 = Ok x → ∃ a, ending = [a] ∧ lastPage a) ∧
    queries run.2 = (queries c ++ q :: asked)%list ∧ length asked = length pages ∧
    asksFor name want q ∧ Forall (asksFor name false) asked.

Lemma fetchLoop_asks live name fullSync fuel : ∀ want state events (c : C),
  (length (answers c) < fuel)%nat →
  fetched name want c (fetchLoop download fuel live name fullSync want state events c).
Proof.
  induction fuel as [|fuel IH]; intros want state events c Hfuel; [lia|]. cbn [fetchLoop].
  unfold mbind at 1, stateM_bind at 1.
  set (h := λ e : clientError E, if fullSync && live then _ else _).
  assert (∀ e c', answers (h e c') = answers c' ∧ queries (h e c') = queries c') as Hh.
  { intros e c'. unfold h. destruct (fullSync && live); [apply dispatchEvent_asksNothing|done]. }
  unfold onError.
  destruct (fetchAppStatePatches _ _ _ _ c) as [r c1] eqn:Hf.
  apply fetchAppStatePatches_asks in Hf as ((q & Hq & Hfor) & used & Hans & Hlen & Hnil & Hok).
  assert (∀ c2 (r2 : outcome (clientError E) (HashState * option (list event))),
            answers c2 = answers c1 → queries c2 = queries c1 →
            (∀ x, r2 = Ok x → ∃ a, used = [a] ∧ lastPage a) → fetched name want c (r2, c2)) as Hend.
  { intros c2 r2 Ha2 Hq2 Hlast. exists [], used, q, []. cbn [fst snd]. rewrite Ha2, Hq2. by split_and!. }
  destruct r as [pl|e| |]; [|by apply Hend; [apply Hh..|]|by apply Hend..].
  destruct (Hok pl eq_refl) as (a & -> & Hpage).
  destruct (negb want && _); [by apply Hend|]. destruct (bool_decide _ && _); [by apply Hend|].
  unfold mbind, stateM_bind.
  pose proof (applyAppStatePatches_asksNothing name state pl fullSync events c1) as [Ha2 Hq2].
  destruct (applyAppStatePatches name state pl fullSync events c1) as [[[state' events']|e| |] c2]; cbn in Ha2, Hq2;
    [|by apply Hend..].
  destruct (HasMorePatches pl) eqn:Hmore; [|apply Hend; [done..|]; intros; exists a; split; [done|by exists pl]].
  rewrite Hans in Hfuel. cbn in Hfuel.
  destruct (IH false state' events' c2) as (pages & ending & q' & asked & Hans' & Hlen' & Hnil' & Hpages & Hlast & Hqs & Hn & Hq' & Hall);
    [rewrite Ha2; lia|].
  exists (a :: pages), ending, q, (q' :: asked). cbn [length app]. split_and!; try done; try (by constructor; [exists pl|]).
  - by rewrite Hans, <- Ha2, Hans'.
  - by rewrite Hqs, Hq2, Hq, <- (assoc_L (++)%list).
  - by rewrite Hn.
  - by constructor.
Qed.

(** ** The whole fetch *)

(** A full fetch starts from nothing; so does the first one of a collection. *)
Lemma fetchAppState_start name (full : bool) (c c' : C) (u : ()) V hs :
  synced (E := E) name hs (proc c) V →
  (if full then onStates (DeleteAppStateVersion name) else mret tt : M unit) c = (Ok u, c') →
  synced (E := E) name (if full then zeroState else hs) (proc c') (if full then ∅ else V) ∧
  answers c' = answers c ∧ flags c' = flags c ∧ keyCache (proc c') = keyCache (proc c).
Proof.
  intros Hs. destruct full; intros Hx; [|by inv_run].
  apply onStates_Ok in Hx as (s' & Hd & ->). destruct u. apply delete_version_law in Hd as (Hv & Hst & Hb).
  split_and!; [|done..]. split_and!; [|apply hashOf_empty|apply Hb|done].
  intros i. by rewrite lookup_empty.
Qed.
End fetch.


(** C12: fetching app state keeps the stored collection and its hash in step
    with the server. Let the store hold a collection with its version and hash
    (nothing at version 0), and let the server answer for the collection that was
    asked for with versions that go up. Whenever [fetchAppState] succeeds, either it
    had nothing to do (a first sync was asked for and there had been one), or it
    consumed a number of answers, all of them pages of patches, and the store holds
    exactly the collection in which the mutations of these pages were applied in
    order (from nothing in a full sync), together with its version and hash; the
    mutations were all decoded under verified MACs, and the events returned are
    those of these mutations, in order, that the client's settings let through,
    with one event for the end of a full sync. *)
Theorem fetchAppState_synced `{CryptoLaws} `{HKDFLaws} `{AppCodec} `{PatchCodec} {S E} `{AppStateStoreLaws S E}
    (download : blobRef → option (list byte)) (live : bool) (name : string) (full onlyIfNotSynced : bool)
    (V : collection) (hs : HashState) (c c' : Client S E) (events : list (appEvent (clientError E))) :
  synced (E := E) name hs (proc c) V → (hsVersion hs = 0%Z → V = ∅) →
  let start := if full then zeroState else hs in
  follows download name (hsVersion start) (answers c) →
  fetchAppState download live name full onlyIfNotSynced c = (Ok events, c') →
  (onlyIfNotSynced = true ∧ hsVersion start ≠ 0%Z ∧ events = [] ∧ answers c' = answers c ∧
   synced (E := E) name start (proc c') (if full then ∅ else V)) ∨
  ∃ consumed pls muts hs',
    answers c = (consumed ++ answers c')%list ∧ page download <$> consumed = Some <$> pls ∧
    synced (E := E) name hs' (proc c') (applyAll (if full then ∅ else V) (concat (listMutations <$> pls))) ∧
    Forall2 (λ m mut, ∃ v, decodes (E := E) true (proc c') v m mut) (concat (listMutations <$> pls)) muts ∧
    let fullSync := full || (hsVersion start =? 0)%Z in
    events = ((if fullSync && emitsNothing (flags c) then [] else emitted (flags c) name fullSync muts) ++
              (if fullSync then [EvSyncComplete name (hsVersion hs') false] else []))%list.
Proof.
  intros Hs H0v start Hf Hfetch. unfold fetchAppState in Hfetch. inv_run.
  destruct (fetchAppState_start _ _ _ _ _ _ _ Hs Hx) as (Hs1 & Ha1 & Hfl1 & Hk1).
  destruct x0 as [version hash]. apply onStates_Ok in Hx0 as (s' & Hg & ->).
  apply get_version_law in Hg as (Hr & Hv & Hst & Hb). specialize (Hr _ eq_refl).
  fold start in Hs1. destruct Hs1 as (Hh & Hhash & Hbel & Hstored). rewrite Hstored in Hr. injection Hr as -> ->.
  set (c1 := setProc _ _) in *.
  assert (synced (E := E) name start (proc c1) (if full then ∅ else V)) as Hs1.
  { unfold synced, holds. change (procStore (proc c1)) with s'. rewrite Hv, Hst. by split_and!; auto. }
  destruct (negb (hsVersion start =? 0)%Z && onlyIfNotSynced) eqn:Honly.
  { inv_run. left. apply andb_true_iff in Honly as [Hn ->]. split_and!; try done.
    apply negb_true_iff, Z.eqb_neq in Hn. done. }
  right. inv_run. unfold get in Hx0. injection Hx0 as <- <-. destruct x1 as [state evs].
  replace (mkHashState (hsVersion start) (hsHash start)) with start in Hx1 by (by destruct start).
  assert (full || (hsVersion start =? 0)%Z = (hsVersion start =? 0)%Z) as Hfull.
  { subst start. by destruct full. }
  apply (fetchLoop_Ok download live name _ _ _ (if full then ∅ else V)) in Hx1
    as (consumed & pls & muts & Hcons & Hpages & Hs2 & Hall & -> & _); [|done| |].
  - change (flags c1) with (flags s) in Hfetch. change (answers c1) with (answers s) in Hcons.
    rewrite Hfl1 in Hfetch. rewrite Ha1 in Hcons.
    unfold mret, stateM_ret in Hfetch. injection Hfetch as <- <-.
    exists consumed, pls, muts, state. split_and!; try done.
    destruct (full || _), (emitsNothing (flags c)); cbn; by rewrite ?app_nil_r.
  - intros _ Hz. subst start. destruct full; [done|]. by apply H0v.
  - change (answers c1) with (answers s). by rewrite Ha1.
Qed.

(** ** A server with one page *)

#[local] Existing Instance toyCrypto.
#[local] Existing Instance toyCryptoLaws.
#[local] Existing Instance toyHKDF.
#[local] Existing Instance toyHKDFLaws.
#[local] Existing Instance toyCodec.

Definition toyPagePatch : SyncdPatch := toyPatch ["pin_v1"; "a"].
#[local] Instance toyPatchCodec : PatchCodec := {|
  unmarshalBlobRef _ := None;
  unmarshalSnapshot _ := None;
  unmarshalPatch l := match l with [x01] => Some (toyPagePatch, None) | _ => None end;
  unmarshalMutations _ := None
|}.
Definition toyAnswer : node :=
  mkNode "iq" [] (VNodes [mkNode "sync" [] (VNodes [mkNode "collection" [("name", VString "regular_low")]
    (VNodes [mkNode "patches" [] (VNodes [mkNode "patch" [] (VBytes [x01])])])])]).
Definition toyDevice : Device := mkDevice true true true EmptyJID "" [] [].
Definition toyClient : Client SQLStore sqlError :=
  mkClient toyProc toyDevice (mkFlags true true true) [Some toyAnswer; None] [] [] [] [] ∅ [].
Definition toyFetch : outcome (clientError sqlError) (list (appEvent (clientError sqlError))) * Client SQLStore sqlError :=
  fetchAppState (λ _, None) true "regular_low" false false toyClient.

Lemma toyFetch_runs :
  match toyFetch.1 with
  | Ok [EvAppState ["pin_v1"] _; EvPin _ _ (Some (PinAction true)) true; EvAppState ["a"] _; EvSyncComplete _ 1 _] => true
  | _ => false
  end = true.
Proof. vm_cast_no_check (eq_refl true). Qed.

Lemma toy_page : page (λ _, None) (Some toyAnswer) = Some (mkPatchList "regular_low" false [toyPagePatch] None).
Proof. reflexivity. Qed.

Lemma toyPagePatch_version : bool_decide (0 < patchVersion toyPagePatch)%Z = true.
Proof. vm_cast_no_check (eq_refl true). Qed.

Lemma fetchAppState_synced_witness :
  match toyFetch with
  | (Ok events, c') =>
      (false = true ∧ hsVersion zeroState ≠ 0%Z ∧ events = [] ∧ answers c' = answers toyClient ∧
       synced (E := sqlError) "regular_low" zeroState (proc c') ∅) ∨
      ∃ consumed pls muts hs',
        answers toyClient = (consumed ++ answers c')%list ∧ page (λ _, None) <$> consumed = Some <$> pls ∧
        synced (E := sqlError) "regular_low" hs' (proc c') (applyAll ∅ (concat (listMutations <$> pls))) ∧
        Forall2 (λ m mut, ∃ v, decodes (E := sqlError) true (proc c') v m mut) (concat (listMutations <$> pls)) muts ∧
        events = (emitted (mkFlags true true true) "regular_low" true muts ++
                  [EvSyncComplete "regular_low" (hsVersion hs') false])%list
  | _ => False
  end.
Proof.
  pose proof toyFetch_runs as Hok.
  destruct toyFetch as [[events| | |] c'] eqn:Hf; [clear Hok|exact (diff_false_true Hok)..].
  refine (fetchAppState_synced (λ _, None) true "regular_low" false false ∅ zeroState toyClient c' events
    toy_synced (λ _, eq_refl) _ Hf).
  cbn [follows answers toyClient]. rewrite toy_page. cbn [plName Snapshot Patches increasing].
  split; [reflexivity|]. split; [|exact I]. split; [|exact I].
  exact (bool_decide_eq_true_1 _ toyPagePatch_version).
Defined.
