(* ===== verification/AppStateKeys.v ===== *)
(** Asking for missing app state keys, recovering collections and sending
    patches: what the rest of the client's app state code promises. *)
From Stdlib Require Import ZArith Lia.
From Stdlib Require Import Strings.Byte.
From stdpp Require Import prelude gmap strings list fin_maps sorting.
From S2P Require Import Prelude Cache Strconv Jid Node Attrs Cbc LTHash AppStore AppState AppStateTheory.
From S2P Require Import AppStateEncode AppStateSync AppStateDispatch AppStateClient AppStateFetch.

#[local] Open Scope string_scope.

(** ** Requests for keys *)

Section keys.
Context {S E : Type} `{AppStateStore S E}.

(** A time at which the key was asked for is either remembered by an entry that is
    at least as late, or more than a day ago. *)
Definition remembered (now : Z) (requests : gmap string Z) (asked : Z * list byte) : Prop :=
  (asked.1 ≤ now)%Z ∧
  ((∃ t, requests !! hexEncodeToString asked.2 = Some t ∧ (asked.1 ≤ t)%Z) ∨ (asked.1 + day < now)%Z).

Definition due (now : Z) (requests : gmap string Z) (id : list byte) : Prop :=
  match requests !! hexEncodeToString id with None => True | Some t => (t + day < now)%Z end.

Lemma filterKeyIDs_spec now ids : ∀ requests sent requests',
  filterKeyIDs now ids requests = (sent, requests') →
  (base.size requests ≤ maxAppStateKeyRequestEntries → base.size requests' ≤ maxAppStateKeyRequestEntries)%nat ∧
  (∀ k, requests' !! k = requests !! k ∨ requests' !! k = Some now) ∧
  (∀ id, id ∈ sent → id ∈ ids ∧ requests' !! hexEncodeToString id = Some now ∧ due now requests id) ∧
  NoDup sent.
Proof.
  induction ids as [|id ids IH]; intros requests sent requests' Hf; cbn [filterKeyIDs] in Hf.
  { injection Hf as <- <-. split_and!; [done|by left|by intros i ?%elem_of_nil|constructor]. }
  destruct (_ && _) eqn:Hdue.
  - destruct (filterKeyIDs now ids (<[_ := _]> requests)) as [l requests1] eqn:Hrest. injection Hf as <- <-.
    destruct (IH _ _ _ Hrest) as (Hsize & Hkeep & Hsent & Hnd).
    apply andb_true_iff in Hdue as [Hdue Hroom].
    assert (requests1 !! hexEncodeToString id = Some now) as Hnow.
    { destruct (Hkeep (hexEncodeToString id)) as [->|]; [apply lookup_insert_eq|done]. }
    assert (∀ i, i ∈ l → hexEncodeToString i ≠ hexEncodeToString id) as Hne.
    { intros i (_ & _ & Hi)%Hsent Heq. unfold due in Hi. rewrite Heq, lookup_insert_eq in Hi. unfold day in Hi. lia. }
    split_and!.
    + intros Hs. apply Hsize. destruct (requests !! hexEncodeToString id) as [t|] eqn:Hk.
      * by rewrite map_size_insert_Some by eauto.
      * rewrite map_size_insert_None by done. rewrite bool_decide_true in Hroom by done.
        cbn in Hroom. apply negb_true_iff, bool_decide_eq_false in Hroom. lia.
    + intros k. destruct (Hkeep k) as [->|]; [|by right].
      destruct (decide (hexEncodeToString id = k)) as [<-|Hk].
      * right. apply lookup_insert_eq.
      * left. by apply lookup_insert_ne.
    + intros i [->|Hi]%elem_of_cons.
      * split_and!; [by left|done|]. unfold due. destruct (requests !! _); [|done].
        by apply bool_decide_eq_true in Hdue.
      * pose proof (Hne i Hi) as Hn. destruct (Hsent i Hi) as (Hin & Hi' & Hd).
        split_and!; [by right|done|]. unfold due in *. by rewrite lookup_insert_ne in Hd by congruence.
    + constructor; [|done]. intros Hin. by apply (Hne id Hin).
  - destruct (IH _ _ _ Hf) as (Hsize & Hkeep & Hsent & Hnd). split_and!; [done..| |done].
    intros i Hi. destruct (Hsent i Hi) as (? & ? & ?). split_and!; [by right|done..].
Qed.

(** The keys asked for by a call, and the calls of a client at given times. *)
Definition asksFor (now : Z) (pl : PatchList) (c : Client S E) : list (list byte) * Client S E :=
  let c' := requestMissingAppStateKeys now pl c in
  (concat (drop (length (keyRequestsSent c)) (keyRequestsSent c')), c').

Fixpoint askAll (searches : list (Z * PatchList)) (c : Client S E) : list (Z * list byte) * Client S E :=
  match searches with
  | [] => ([], c)
  | (now, pl) :: searches =>
      let '(ids, c) := asksFor now pl c in
      let '(rest, c) := askAll searches c in
      (((λ id, (now, id)) <$> ids) ++ rest, c)%list
  end.

Lemma remembered_later now now' requests asked :
  (now ≤ now')%Z → remembered now requests asked → remembered now' requests asked.
Proof. intros Hle [Ht [Hr|Hr]]; (split; [lia|]); [by left|right; lia]. Qed.

Lemma asksFor_spec now pl (c c' : Client S E) ids past :
  asksFor now pl c = (ids, c') →
  Forall (remembered now (appStateKeyRequests c)) past →
  (base.size (appStateKeyRequests c) ≤ maxAppStateKeyRequestEntries →
   base.size (appStateKeyRequests c') ≤ maxAppStateKeyRequestEntries)%nat ∧
  Forall (remembered now (appStateKeyRequests c')) (past ++ ((λ id, (now, id)) <$> ids))%list ∧
  NoDup ids ∧
  (∀ id asked, id ∈ ids → asked ∈ past → asked.2 = id → (asked.1 + day < now)%Z).
Proof.
  unfold asksFor, requestMissingAppStateKeys. intros Ha Hpast.
  destruct (GetMissingKeyIDs pl (procStore (proc c))) as [raw s].
  set (requests := if decide _ then _ else _) in Ha.
  assert (Forall (remembered now requests) past) as Hpast'.
  { subst requests. case_decide as Hfull; [|done]. eapply Forall_impl; [exact Hpast|].
    intros [t id] [Hn [(t' & Ht' & Hle)|?]]; (split; [done|]); [|by right]. cbn [fst snd] in *.
    destruct (decide (t' < now - day)%Z) as [Hlt|Hge]; [right; cbn; lia|].
    left. exists t'. split; [|done]. unfold pruneExpiredCache. by apply map_lookup_filter_Some. }
  assert (base.size requests ≤ base.size (appStateKeyRequests c))%nat as Hle.
  { subst requests. case_decide; [|done]. unfold pruneExpiredCache. apply map_size_filter. }
  destruct (filterKeyIDs now raw requests) as [sent requests'] eqn:Hf.
  destruct (filterKeyIDs_spec _ _ _ _ _ Hf) as (Hsize & Hkeep & Hsent & Hnd).
  assert (ids = sent ∧ appStateKeyRequests c' = requests') as [-> Hr].
  { unfold requestAppStateKeys in Ha. destruct sent; injection Ha as <- <-; cbn [keyRequestsSent appStateKeyRequests].
    - by rewrite drop_all.
    - by rewrite drop_app_length; cbn; rewrite app_nil_r. }
  rewrite Hr. split_and!; [intros; apply Hsize; lia| |done|].
  - apply Forall_app. split.
    + eapply Forall_impl; [exact Hpast'|]. intros [t id] [Hn [(t' & Ht' & Hle')|?]]; (split; [done|]); [|by right].
      left. cbn [fst snd] in *. destruct (Hkeep (hexEncodeToString id)) as [Hk|Hk]; [exists t'; by rewrite Hk|by exists now].
    + apply Forall_fmap, Forall_forall. intros id Hid. split; [done|]. left. exists now. cbn [fst snd].
      by destruct (Hsent id Hid) as (_ & ? & _).
  - intros id [t i] Hid Hin Heq. cbn in Heq. subst i. rewrite Forall_forall in Hpast'.
    destruct (Hpast' _ Hin) as [_ [(t' & Ht' & Hle')|?]]; [|done]. cbn [fst snd] in *.
    destruct (Hsent id Hid) as (_ & _ & Hd). unfold due in Hd. rewrite Ht' in Hd. lia.
Qed.

(** Two requests in order are for different keys or more than a day apart. *)
Definition spaced (a b : Z * list byte) : Prop := a.2 = b.2 → (a.1 + day < b.1)%Z.

Fixpoint ascending (t : Z) (searches : list (Z * PatchList)) : Prop :=
  match searches with
  | [] => True
  | (now, _) :: searches => (t ≤ now)%Z ∧ ascending now searches
  end.

Lemma spaced_at now ids : NoDup ids → StronglySorted spaced ((λ id, (now, id)) <$> ids).
Proof.
  induction 1 as [|id ids Hid Hnd IH]; [constructor|]. cbn. constructor; [done|].
  apply Forall_fmap, Forall_forall. intros i Hi Heq. cbn in Heq. congruence.
Qed.

Lemma askAll_spaced searches : ∀ t past (c : Client S E) log c',
  ascending t searches → askAll searches c = (log, c') →
  Forall (remembered t (appStateKeyRequests c)) past → StronglySorted spaced past →
  (base.size (appStateKeyRequests c) ≤ maxAppStateKeyRequestEntries)%nat →
  StronglySorted spaced (past ++ log)%list ∧
  (base.size (appStateKeyRequests c') ≤ maxAppStateKeyRequestEntries)%nat.
Proof.
  induction searches as [|[now pl] searches IH]; intros t past c log c' Hasc Hask Hpast Hss Hsize; cbn [askAll] in Hask.
  { injection Hask as <- <-. by rewrite app_nil_r. }
  destruct Hasc as [Hle Hasc]. destruct (asksFor now pl c) as [ids c1] eqn:Ha.
  destruct (askAll searches c1) as [rest c2] eqn:Hrest. injection Hask as <- <-.
  assert (Forall (remembered now (appStateKeyRequests c)) past) as Hpast'.
  { eapply Forall_impl; [done|]. intros a. by apply remembered_later. }
  destruct (asksFor_spec _ _ _ _ _ _ Ha Hpast') as (Hs1 & Hrem & Hnd & Hspace).
  rewrite (assoc_L (++)%list). eapply IH; [done|done|done| |auto].
  apply StronglySorted_app. split_and!; [|done|by apply spaced_at].
  intros a b Hina (id & -> & Hid)%list_elem_of_fmap Heq. cbn in *. by apply (Hspace id a).
Qed.
End keys.

(** A key is asked for at most once a day. Whatever searches for missing keys
    the client runs, at times that do not go backwards and with any store, two
    requests for the same key id are more than 24 hours apart, and the table that
    remembers them never grows beyond its limit, even though expired entries are
    dropped from it and a full table refuses new ones. *)
Theorem key_requests_spaced {S E} `{AppStateStore S E} (start : Z) (searches : list (Z * PatchList))
    (c c' : Client S E) (log : list (Z * list byte)) :
  (base.size (appStateKeyRequests c) ≤ maxAppStateKeyRequestEntries)%nat →
  ascending start searches → askAll searches c = (log, c') →
  StronglySorted spaced log ∧ (base.size (appStateKeyRequests c') ≤ maxAppStateKeyRequestEntries)%nat.
Proof.
  intros Hsize Hasc Hask.
  apply (askAll_spaced searches start [] c log c' Hasc Hask); [constructor|constructor|done].
Qed.

Definition searchFor (id : list byte) : PatchList := mkPatchList "regular" false [mkPatch 1 [] [] [] (Some id)] None.

Lemma key_requests_spaced_witness :
  let day1 := (day + 2)%Z in
  let log := [(1%Z, [x02]); (day1, [x02])] in
  (askAll [(1%Z, searchFor [x02]); (2%Z, searchFor [x02]); (day1, searchFor [x02])] toyClient).1 = log ∧
  StronglySorted spaced log.
Proof.
  split; [vm_compute; reflexivity|].
  refine (proj1 (key_requests_spaced 0 [(1%Z, searchFor [x02]); (2%Z, searchFor [x02]); ((day + 2)%Z, searchFor [x02])]
    toyClient _ _ _ _ eq_refl)).
  - apply Nat.leb_le. vm_compute. reflexivity.
  - vm_compute. repeat split; discriminate.
Defined.

(** ** Recovery *)

Section recovery.
Context `{CryptoLaws} `{HKDFLaws} `{AppCodec} {S E : Type} `{AppStateStoreLaws S E}.
Context (name : string).

(** What a recovered record becomes, under the keys of its key id. *)
Definition recovers (p : Processor S) (version : Z) (r : SyncdPlainTextRecord) (mm : AppStateMutationMAC * Mutation) : Prop :=
  ∃ keys index, cached p (ptKeyID r) keys ∧ jsonUnmarshalStrings (saIndex (ptValue r)) = Some index ∧
    let indexMAC := hmacSha256 (IndexKey keys) (saIndex (ptValue r)) in
    mm = (mkMAC indexMAC (ptMac r),
          mkMut (ptKeyID r) SET (saValue (ptValue r)) (saVersion (ptValue r)) index indexMAC (ptMac r) version).

Lemma recovers_cached p p' version r mm :
  (∀ id keys, cached p id keys → cached p' id keys) → recovers p version r mm → recovers p' version r mm.
Proof. intros Hc (keys & index & Hk & Hrest). exists keys, index. split; [by apply Hc|done]. Qed.

Lemma recoverRecords_Ok version records : ∀ i (p : Processor S) macs muts p',
  recoverRecords (E := E) i version records p = (Ok (macs, muts), p') →
  same name p p' ∧ Forall2 (recovers p' version) records (zip macs muts) ∧ length macs = length muts.
Proof.
  induction records as [|r records IH]; intros i p macs muts p' Hr; cbn [recoverRecords] in Hr.
  { inv_run. by split_and!. }
  inv_run. destruct (getAppStateKey_run name _ _ _ _ Hx) as [Hs1 Hk]. specialize (Hk _ eq_refl).
  destruct (jsonUnmarshalStrings _) as [index|] eqn:Hj; [|inv_run]. inv_run. destruct x0 as [macs1 muts1]. inv_run.
  destruct (IH _ _ _ _ _ Hx0) as (Hs2 & Hall & Hlen).
  split_and!; [by transitivity s| |by cbn; f_equal]. constructor; [|done].
  exists x, index. split_and!; [|done..]. by eapply same_cached.
Qed.

(** The collection of a list of additions. *)
Definition ofMACs (l : list AppStateMutationMAC) : collection :=
  foldr (λ m V, <[IndexMAC m := ValueMAC m]> V) ∅ l.

Lemma ofMACs_lookup l i : ofMACs l !! i = addedMAC l i.
Proof using.
  induction l as [|m l IH]; [apply lookup_empty|]. cbn [ofMACs foldr addedMAC]. case_decide as Hi.
  - rewrite Hi. apply lookup_insert_eq.
  - by rewrite lookup_insert_ne.
Qed.
End recovery.

(** Recovery replaces a collection by what the primary device says. Whenever
    [ProcessRecovery] succeeds, the store holds for the collection exactly the
    sent value MACs under the index MACs computed with the keys of their records
    (none of which repeats), whatever it held before, together with the version
    and hash that were sent, and the returned mutations are the sent values, one
    by one. The hash is taken on trust: the collection is in step again exactly
    when the hash that was sent is its hash. *)
Theorem ProcessRecovery_replaces `{CryptoLaws} `{HKDFLaws} `{AppCodec} {S E} `{AppStateStoreLaws S E}
    (recovery : SyncdSnapshotRecovery) (p p' : Processor S) (mutations : list Mutation) :
  ProcessRecovery (E := E) recovery p = (Ok mutations, p') →
  let name := CollectionName recovery in
  let hs := mkHashState (recVersion recovery) (CollectionLthash recovery) in
  ∃ macs,
    Forall2 (recovers p' (recVersion recovery)) (MutationRecords recovery) (zip macs mutations) ∧
    length macs = length mutations ∧ NoDup (IndexMAC <$> macs) ∧
    holds name (ofMACs macs) (procStore p') ∧ stored name (procStore p') = (hsVersion hs, hsHash hs) ∧
    (synced (E := E) name hs p' (ofMACs macs) ↔ hashOf (ofMACs macs) (CollectionLthash recovery)).
Proof.
  unfold ProcessRecovery. intros Hr. case_decide; [inv_run|]. inv_run. destruct x as [macs muts]. inv_run.
  destruct (recoverRecords_Ok (CollectionName recovery) _ _ _ _ _ _ _ Hx) as (_ & Hall & Hlen). destruct x, x0, x1.
  assert (keyCache p' = keyCache s) as Hck.
  { clear -Hx0 Hx1 Hx2. unfold onStore, zoom in *. repeat case_match; simplify_eq; done. }
  apply onStore_Ok in Hx0, Hx1, Hx2.
  apply delete_version_law in Hx0 as (Hv0 & _ & Hb0). apply put_version_law in Hx1 as (Hv1 & Hst1 & Hb1).
  apply put_macs_law in Hx2 as (Hnd & Hv2 & Hst2 & Hb2); [|auto].
  assert (holds (CollectionName recovery) (ofMACs macs) (procStore p')) as Hh.
  { intros i. rewrite Hv2, Hv1, Hv0, ofMACs_lookup. by destruct (addedMAC macs i). }
  exists macs. split_and!; [|done..|by rewrite Hst2|].
  - eapply Forall2_impl; [done|]. intros r mm. apply recovers_cached. intros id keys. unfold cached. by rewrite Hck.
  - split; [by intros (_ & ? & _)|]. intros Hhash. split_and!; [done..|by rewrite Hst2].
Qed.

#[local] Existing Instance toyCrypto.
#[local] Existing Instance toyCryptoLaws.
#[local] Existing Instance toyHKDF.
#[local] Existing Instance toyHKDFLaws.
#[local] Existing Instance toyCodec.

Definition toyRecovery : SyncdSnapshotRecovery :=
  mkRecovery 7 "regular_low" [mkPlain (mkActionData (s2b "star") None 2) (Some [x01]) (replicate 32 x05)]
    (replicate 128 x03).

Lemma toyRecovery_runs : is_ok (ProcessRecovery (E := sqlError) toyRecovery toyProc).1 = true.
Proof. vm_cast_no_check (eq_refl true). Qed.

Lemma ProcessRecovery_replaces_witness :
  match ProcessRecovery (E := sqlError) toyRecovery toyProc with
  | (Ok mutations, p') =>
      let hs := mkHashState 7 (replicate 128 x03) in
      ∃ macs,
        Forall2 (recovers p' 7) (MutationRecords toyRecovery) (zip macs mutations) ∧
        length macs = length mutations ∧ NoDup (IndexMAC <$> macs) ∧
        holds (E := sqlError) "regular_low" (ofMACs macs) (procStore p') ∧
        stored (E := sqlError) "regular_low" (procStore p') = (hsVersion hs, hsHash hs) ∧
        (synced (E := sqlError) "regular_low" hs p' (ofMACs macs) ↔ hashOf (ofMACs macs) (replicate 128 x03))
  | _ => False
  end.
Proof.
  pose proof toyRecovery_runs as Hok.
  destruct (ProcessRecovery (E := sqlError) toyRecovery toyProc) as [[mutations| | |] p'] eqn:Hr;
    [clear Hok|exact (diff_false_true Hok)..].
  exact (ProcessRecovery_replaces toyRecovery toyProc p' mutations Hr).
Defined.

(** ** Sending *)

Section sends.
Context `{Crypto} `{HKDF} `{AppCodec} `{PatchCodec} {S E : Type} `{AppStateStore S E}.
Context (download : blobRef → option (list byte)).
Notation C := (Client S E).
Notation M := (stateM C (clientError E)).

(** The patches a client has sent. *)
Definition sentPatches (c : C) : list (list byte) := omap queryPatch (queries c).

(** A call that sends at most [n] patches and forgets none, however it ends. *)
Definition costs {A} (n : nat) (m : M A) : Prop :=
  ∀ c r c', m c = (r, c') → ∃ l, sentPatches c' = (sentPatches c ++ l)%list ∧ (length l ≤ n)%nat.

Lemma costs_le {A} n k (m : M A) : costs n m → (n ≤ k)%nat → costs k m.
Proof. intros Hm Hle c r c' (l & Hl & Hn)%Hm. exists l. split; [done|lia]. Qed.

Lemma costs_pure {A} (m : M A) : (∀ c r c', m c = (r, c') → queries c' = queries c) → costs 0 m.
Proof. intros Hm c r c' Hq%Hm. exists []. unfold sentPatches. rewrite Hq, app_nil_r. auto. Qed.

Lemma costs_bind {A B} n k (m : M A) (f : A → M B) : costs n m → (∀ a, costs k (f a)) → costs (n + k) (m ≫= f).
Proof.
  intros Hm Hf c r c'. unfold mbind, stateM_bind. destruct (m c) as [r1 c1] eqn:Hc.
  destruct (Hm _ _ _ Hc) as (l & Hl & Hn).
  destruct r1; [|intros [= <- <-]; exists l; split; [done|lia]..].
  intros (l' & Hl' & Hk)%Hf. exists (l ++ l')%list. rewrite length_app. split; [|lia].
  by rewrite Hl', Hl, (assoc_L (++)%list).
Qed.

Lemma costs_ret {A} (a : A) : costs 0 (mret a).
Proof. apply costs_pure. by intros c r c' [= <- <-]. Qed.
Lemma costs_lift {A} (o : outcome _ A) : costs 0 (lift o).
Proof. apply costs_pure. by intros c r c' [= <- <-]. Qed.
Lemma costs_throw {A} e : costs 0 (throw e : M A).
Proof. apply costs_pure. by intros c r c' [= <- <-]. Qed.
Lemma costs_get : costs 0 (get : M C).
Proof. apply costs_pure. by intros c r c' [= <- <-]. Qed.
Lemma costs_onProc {A} (m : stateM (Processor S) (asError E) A) : costs 0 (onProc m).
Proof. apply costs_pure. intros c r c'. unfold onProc, zoom. destruct (m (proc c)). by intros [= <- <-]. Qed.
Lemma costs_onStates {A} (m : stateM S E A) : costs 0 (onStates m).
Proof.
  apply costs_pure. intros c r c'. unfold onStates, zoom, compose.
  destruct (m (procStore (proc c))). by intros [= <- <-].
Qed.
Lemma costs_onDevice {A} (m : stateM Device deviceError A) : costs 0 (onDevice m).
Proof. apply costs_pure. intros c r c'. unfold onDevice, zoom. destruct (m (device c)). by intros [= <- <-]. Qed.
Lemma costs_dispatch e : costs 0 (dispatchEvent e).
Proof. apply costs_pure. intros c r c'. unfold dispatchEvent. destruct (handlerFailures c); by intros [= <- <-]. Qed.
Lemma costs_sendIQ q : costs (match queryPatch q with Some _ => 1 | None => 0 end) (sendIQ q).
Proof.
  intros c r c'. unfold sendIQ, sentPatches. destruct (answers c); intros [= <- <-]; cbn [queries];
    rewrite omap_app; cbn [omap list_omap]; destruct (queryPatch q); eexists; (split; [done|done]).
Qed.
Lemma costs_onError {A} n (m : M A) h :
  costs n m → (∀ e c, queries (h e c) = queries c) → costs n (onError m h).
Proof.
  intros Hm Hh c r c'. unfold onError. destruct (m c) as [r1 c1] eqn:Hc.
  destruct (Hm _ _ _ Hc) as (l & Hl & Hn). destruct r1; intros [= <- <-]; exists l; split; try done.
  unfold sentPatches in *. by rewrite Hh.
Qed.
Lemma costs_mapError {A} n f (m : M A) : costs n m → costs n (mapError f m).
Proof. intros Hm c r c'. unfold mapError. destruct (m c) as [r1 c1] eqn:Hc. intros [= <- <-]. by eapply Hm. Qed.
Lemma dispatch_queries e (c : C) : queries (dispatchEvent e c).2 = queries c.
Proof. unfold dispatchEvent. by destruct (handlerFailures c). Qed.
End sends.

Create HintDb costs.
#[export] Hint Resolve costs_ret costs_lift costs_throw costs_get costs_onProc costs_onStates costs_onDevice
  costs_dispatch costs_mapError : costs.

(** Calls that send no patch. *)
Ltac free :=
  repeat first
    [ progress (auto with costs nocore)
    | progress intros
    | apply (costs_bind 0 0); [|intros ?]
    | match goal with |- context [match ?x with _ => _ end] => destruct x end ].

Section bound.
Context `{Crypto} `{HKDF} `{AppCodec} `{PatchCodec} {S E : Type} `{AppStateStore S E}.
Context (download : blobRef → option (list byte)).
Notation C := (Client S E).
Notation M := (stateM C (clientError E)).

Lemma parseAnswer_free err col : costs 0 (parseAnswer download err col : M _).
Proof. unfold parseAnswer. free. Qed.
Hint Resolve parseAnswer_free : costs.

Lemma fetchPatches_free name v b : costs 0 (fetchAppStatePatches download name v b : M _).
Proof.
  unfold fetchAppStatePatches. apply (costs_bind 0 0); [apply (costs_sendIQ (mkQuery _ None))|free].
Qed.

Lemma applyPatches_free name hs pl b evs : costs 0 (applyAppStatePatches name hs pl b evs : M _).
Proof.
  unfold applyAppStatePatches. apply (costs_bind 0 0).
  - apply costs_onError; [free|]. intros e c. destruct e as [[]| | | | | | | | | | |]; apply dispatch_queries || done.
  - free.
Qed.
Hint Resolve applyPatches_free : costs.

Lemma fetchLoop_free live name fs fuel : ∀ w hs evs, costs 0 (fetchLoop download fuel live name fs w hs evs : M _).
Proof.
  induction fuel as [|fuel IH]; intros; cbn [fetchLoop]; [free|]. apply (costs_bind 0 0).
  - apply costs_onError; [apply fetchPatches_free|]. intros e c. destruct (fs && live); [apply dispatch_queries|done].
  - intros pl. destruct (negb w && _); [free|]. destruct (bool_decide _ && _); [free|].
    apply (costs_bind 0 0); [free|]. intros [hs' evs']. destruct (HasMorePatches pl); [apply IH|free].
Qed.
Hint Resolve fetchLoop_free : costs.

Lemma fetchAppState_free live name full only : costs 0 (fetchAppState download live name full only : M _).
Proof.
  unfold fetchAppState. apply (costs_bind 0 0); [destruct full; free|intros []].
  apply (costs_bind 0 0); [free|intros [v h]]. destruct (negb _ && _); [free|].
  apply (costs_bind 0 0); [free|intros c]. apply (costs_bind 0 0); [free|intros [hs evs]]. free.
Qed.
Hint Resolve fetchAppState_free : costs.

Lemma dispatchAll_free (evs : list (appEvent (clientError E))) : costs 0 (dispatchAll evs : M _).
Proof. induction evs as [|e evs IH]; cbn [dispatchAll]; [free|]. apply (costs_bind 0 0); [free|done]. Qed.
Hint Resolve dispatchAll_free : costs.

Lemma sendAttempt_costs now rand patch : costs 1 (sendAttempt now rand patch : M _).
Proof.
  unfold sendAttempt. apply (costs_bind 0 1); [free|intros [v h]]. apply (costs_bind 0 1); [free|intros [id|]].
  - apply (costs_bind 0 1); [free|intros enc]. apply (costs_bind 1 0); [apply (costs_sendIQ (mkQuery _ (Some enc)))|free].
  - apply (costs_le 0); [free|lia].
Qed.

Lemma sendAppState_costs attempts live clock rand patch :
  costs (1 + attempts) (sendAppState download attempts live clock rand patch : M _).
Proof.
  induction attempts as [|attempts IH]; cbn [sendAppState].
  - apply (costs_bind 1 0); [apply sendAttempt_costs|intros [hs col]]. destruct (isErrorAnswer col); free.
  - apply (costs_bind 1 (1 + attempts)); [apply sendAttempt_costs|intros [hs col]].
    destruct (isErrorAnswer col); [|apply (costs_le 0); [free|lia]].
    destruct (isConflict col); [|apply (costs_le 0); [free|lia]].
    apply (costs_bind 0 (1 + attempts)); [free|intros pl].
    apply (costs_bind 0 (1 + attempts)); [free|intros [hs' evs]].
    apply (costs_bind 0 (1 + attempts)); [free|done].
Qed.
End bound.
#[export] Hint Resolve parseAnswer_free applyPatches_free fetchLoop_free fetchAppState_free dispatchAll_free : costs.

Section twice.
Context `{Crypto} `{HKDF} `{AppCodec} `{PatchCodec} {S E : Type} `{AppStateStore S E}.
Context (download : blobRef → option (list byte)).
Notation C := (Client S E).

(** The next answer is a conflict. *)
Definition answersConflict (c : C) : Prop :=
  ∃ resp rest col, answers c = Some resp :: rest ∧
    GetOptionalChildByTag resp ["sync"; "collection"] = (col, true) ∧
    isErrorAnswer col = true ∧ isConflict col = true.

Lemma sendAttempt_answer now rand patch (c c' : C) hs col :
  sendAttempt now rand patch c = (Ok (hs, col), c') →
  ∃ resp rest, answers c = Some resp :: rest ∧ GetOptionalChildByTag resp ["sync"; "collection"] = (col, true).
Proof.
  unfold sendAttempt. intros Ha. inv_run. destruct x as [v h]. inv_run. destruct x as [id|]; [|inv_run]. inv_run.
  apply onStates_Ok in Hx as (s' & _ & ->). apply onStates_Ok in Hx0 as (t2 & _ & ->).
  apply onProc_Ok in Hx1 as (p' & _ & ->). unfold sendIQ in Hx2. cbn [setProc answers] in Hx2.
  destruct (answers c) as [|[resp|] rest]; try discriminate. injection Hx2 as <- <-.
  destruct (GetOptionalChildByTag resp _) as [col' []] eqn:Hcol; inv_run. by exists resp, rest.
Qed.
End twice.

(** A change is sent at most twice, and a second time only after a conflict.
    However the server, the store and the processor behave and however the call
    ends, [SendAppState] sends no more than two patches, forgets none of those
    sent before, and the second one only when the server's answer to the first
    was an error with the conflict code; applying the patches of that answer and
    fetching the result send none. *)
Theorem SendAppState_at_most_twice `{Crypto} `{HKDF} `{AppCodec} `{PatchCodec} {S E : Type} `{AppStateStore S E}
    (download : blobRef → option (list byte)) (live : bool) (clock : nat → Z) (rand : nat → nat → option (list byte))
    (patch : PatchInfo) (c : Client S E) :
  ∃ l, sentPatches (SendAppState download live clock rand patch c).2 = (sentPatches c ++ l)%list ∧
    (length l ≤ 2)%nat ∧ (length l = 2%nat → answersConflict c).
Proof.
  unfold SendAppState. cbn [sendAppState]. unfold mbind at 1, stateM_bind at 1.
  destruct (sendAttempt (clock 1) (rand 1) patch c) as [r c1] eqn:Ha.
  destruct (sendAttempt_costs _ _ _ _ _ _ Ha) as (l1 & Hl1 & Hn1).
  destruct r as [[hs col]|e| |]; [|exists l1; split_and!; [done|lia|lia]..].
  destruct (sendAttempt_answer _ _ _ _ _ _ _ Ha) as (resp & rest & Hans & Hcol).
  match goal with |- context [(?k c1).2] => set (cont := k) end.
  assert (∃ n, costs n cont ∧ (n ≤ 1)%nat ∧ (n = 1%nat → answersConflict c)) as (n & Hcont & Hn & Hconf).
  { subst cont. destruct (isErrorAnswer col) eqn:He; [|exists 0%nat; split_and!; [free|lia|lia]].
    destruct (isConflict col) eqn:Hco; [|exists 0%nat; split_and!; [free|lia|lia]].
    exists 1%nat. split_and!; [|lia|by exists resp, rest, col].
    apply (costs_bind 0 1); [free|intros pl]. apply (costs_bind 0 1); [free|intros [hs' evs]].
    apply (costs_bind 0 1); [free|]. intros _. apply (sendAppState_costs download 0). }
  destruct (cont c1) as [r2 c2] eqn:Hk. destruct (Hcont _ _ _ Hk) as (l2 & Hl2 & Hn2).
  exists (l1 ++ l2)%list. cbn [snd]. rewrite length_app. split_and!; [by rewrite Hl2, Hl1, (assoc_L (++)%list)|lia|].
  intros Hlen. apply Hconf. lia.
Qed.
