(* ===== verification/Noise.v ===== *)
(** The Noise channel: AES-GCM (src/util/gcmutil/gcm.go), the handshake state
    (src/socket/noisehandshake.go) and the encrypted socket over the frame socket
    (src/socket/noisesocket.go).

    GCM and X25519 are the class [NoiseCrypto] with their documented behaviour in
    [NoiseLaws]; AES, SHA-256 and HKDF are those of [Crypto] and [HKDF]. *)
From Stdlib Require Import ZArith Lia.
From Stdlib Require Import Strings.Byte.
From stdpp Require Import prelude list strings.
From S2P Require Import Prelude Cbc LTHash FrameSocket.

(** ** AES-GCM *)

(** [cipher.AEAD]: nonce, plaintext or ciphertext, additional data. *)
Record AEAD := mkAEAD {
  Seal : list byte → list byte → list byte → list byte;
  Open : list byte → list byte → list byte → option (list byte)
}.

Class NoiseCrypto `{Crypto} := {
  NewGCM : Block → option AEAD;
  X25519 : list byte → list byte → option (list byte)     (* private, public *)
}.

(** Opening succeeds exactly on what sealing with the same nonce and additional
    data gives, sixteen bytes longer than the plaintext. *)
Class NoiseLaws `{NoiseCrypto} := {
  open_seal block gcm iv c ad p : NewGCM block = Some gcm → Open gcm iv c ad = Some p ↔ c = Seal gcm iv p ad;
  seal_length block gcm iv p ad : NewGCM block = Some gcm → length (Seal gcm iv p ad) = length p + 16
}.

Inductive noiseError :=
| AESInitFailed | GCMInitFailed
| GCMOpenFailed
| X25519Failed
| ShortExpand.

Section gcm.
Context `{NoiseCrypto}.

Definition Prepare (secretKey : list byte) : outcome noiseError AEAD :=
  match NewCipher secretKey with
  | None => Err AESInitFailed
  | Some block => match NewGCM block with Some gcm => Ok gcm | None => Err GCMInitFailed end
  end.

(** GCM panics on a nonce that has not twelve bytes. *)
Definition gcmDecrypt (secretKey iv ciphertext additionalData : list byte) : outcome noiseError (list byte) :=
  gcm ← Prepare secretKey;
  if decide (length iv ≠ 12) then Panic
  else match Open gcm iv ciphertext additionalData with Some p => Ok p | None => Err GCMOpenFailed end.

Definition gcmEncrypt (secretKey iv plaintext additionalData : list byte) : outcome noiseError (list byte) :=
  gcm ← Prepare secretKey;
  if decide (length iv ≠ 12) then Panic else Ok (Seal gcm iv plaintext additionalData).
End gcm.

Definition generateIV (count : Z) : list byte := replicate 8 x00 ++ be_bytes 4 count.

(** ** The handshake state *)

(** [key] is nil before [Start] and after a failed key setup. *)
Record NoiseHandshake := mkNH {
  hash : list byte;
  salt : list byte;
  key : option AEAD;
  counter : Z
}.
Definition NewNoiseHandshake : NoiseHandshake := mkNH [] [] None 0.

Section handshake.
Context `{NoiseCrypto} `{HKDF}.
Notation N := (stateM NoiseHandshake noiseError).

Definition Authenticate (data : list byte) : N unit :=
  modify (λ nh, mkNH (sha256 (hash nh ++ data)) (salt nh) (key nh) (counter nh)).

Definition Start (pattern header : list byte) : N unit :=
  let h := if decide (length pattern = 32) then pattern else sha256 pattern in
  nh ← get;
  match Prepare h with
  | Ok k => _ ← modify (λ nh, mkNH h h (Some k) (counter nh)); Authenticate header
  | _ => _ ← modify (λ nh, mkNH h h None (counter nh)); lift Panic
  end.

Definition postIncrementCounter : N Z :=
  nh ← get;
  let count := u32 (counter nh + 1) in
  _ ← modify (λ nh, mkNH (hash nh) (salt nh) (key nh) count);
  mret (u32 (count - 1)).

(** [nh.key] of a nil interface panics when it is used; the counter has been
    incremented by then, as the arguments are evaluated first. *)
Definition Encrypt (plaintext : list byte) : N (list byte) :=
  count ← postIncrementCounter;
  nh ← get;
  match key nh with
  | None => lift Panic
  | Some k =>
      let ciphertext := Seal k (generateIV count) plaintext (hash nh) in
      _ ← Authenticate ciphertext; mret ciphertext
  end.

Definition Decrypt (ciphertext : list byte) : N (list byte) :=
  count ← postIncrementCounter;
  nh ← get;
  match key nh with
  | None => lift Panic
  | Some k =>
      match Open k (generateIV count) ciphertext (hash nh) with
      | Some plaintext => _ ← Authenticate ciphertext; mret plaintext
      | None => throw GCMOpenFailed
      end
  end.

(** Two successive reads of 32 bytes from one HKDF stream. *)
Definition extractAndExpand (salt data : list byte) : outcome noiseError (list byte * list byte) :=
  let h := hkdfRead data salt [] 64 in
  if decide (length h < 64) then Err ShortExpand else Ok (take 32 h, take 32 (drop 32 h)).

Definition MixIntoKey (data : list byte) : N unit :=
  _ ← modify (λ nh, mkNH (hash nh) (salt nh) (key nh) 0);
  nh ← get;
  '(write, read) ← lift (extractAndExpand (salt nh) data);
  match Prepare read with
  | Ok k => modify (λ nh, mkNH (hash nh) write (Some k) (counter nh))
  | Err e => _ ← modify (λ nh, mkNH (hash nh) write None (counter nh)); throw e
  | Panic => lift Panic
  | OutOfFuel => lift OutOfFuel
  end.

Definition MixSharedSecretIntoKey (priv pub : list byte) : N unit :=
  match X25519 priv pub with
  | None => throw X25519Failed
  | Some secret => MixIntoKey secret
  end.
End handshake.

(** ** The encrypted socket

    [Delivered] logs the plaintexts given to [onFrame]; [Writers] are the frames
    whose sending goroutine has not run yet. *)

Record NoiseSocket := mkNS {
  nsFs : FrameSocket;
  writeKey : AEAD;
  readKey : AEAD;
  writeCounter : Z;
  readCounter : Z;
  destroyed : bool;
  stopped : bool;                       (* stopConsumer is closed *)
  Delivered : list (list byte);
  Writers : list (list byte)
}.

Definition newNoiseSocket (fs : FrameSocket) (writeKey readKey : AEAD) : NoiseSocket :=
  mkNS (SetOnDisconnect true fs) writeKey readKey 0 0 false false [] [].

Definition Finish `{NoiseCrypto} `{HKDF} (nh : NoiseHandshake) (fs : FrameSocket) : outcome noiseError NoiseSocket :=
  '(write, read) ← extractAndExpand (salt nh) [];
  writeKey ← Prepare write;
  readKey ← Prepare read;
  Ok (newNoiseSocket fs writeKey readKey).

Definition setFs (fs : FrameSocket) (ns : NoiseSocket) : NoiseSocket :=
  mkNS fs (writeKey ns) (readKey ns) (writeCounter ns) (readCounter ns) (destroyed ns) (stopped ns)
    (Delivered ns) (Writers ns).

Definition Stop (disconnect allowOnDisconnect : bool) (ns : NoiseSocket) : NoiseSocket :=
  if destroyed ns then ns
  else
    let fs := if allowOnDisconnect then nsFs ns else SetOnDisconnect false (nsFs ns) in
    let fs := if disconnect then Close 1000 fs else fs in
    mkNS fs (writeKey ns) (readKey ns) (writeCounter ns) (readCounter ns) true true (Delivered ns) (Writers ns).

Inductive noiseSendError := CtxError | SocketError (e : socketError).

(** What the context does during the call. *)
Inductive ctxState := Live | Cancelled | CancelledWhileSending.

(** The frame is sealed and its counter used before the goroutine that writes it
    is started; a context that ends while it runs only ends the waiting. *)
Definition NoiseSendFrame (ctx : ctxState) (writeOk : bool) (plaintext : list byte) (ns : NoiseSocket) :
    NoiseSocket * option noiseSendError :=
  match ctx with
  | Cancelled => (ns, Some CtxError)
  | _ =>
      let ciphertext := Seal (writeKey ns) (generateIV (writeCounter ns)) plaintext [] in
      let count := u32 (writeCounter ns + 1) in
      match ctx with
      | CancelledWhileSending =>
          (mkNS (nsFs ns) (writeKey ns) (readKey ns) count (readCounter ns) (destroyed ns) (stopped ns)
             (Delivered ns) (Writers ns ++ [ciphertext]), Some CtxError)
      | _ =>
          let '(fs, err) := SendFrame writeOk ciphertext (nsFs ns) in
          (mkNS fs (writeKey ns) (readKey ns) count (readCounter ns) (destroyed ns) (stopped ns)
             (Delivered ns) (Writers ns), SocketError <$> err)
      end
  end.

(** The scheduler runs the [i]-th waiting goroutine. *)
Definition runWriter (i : nat) (writeOk : bool) (ns : NoiseSocket) : NoiseSocket :=
  match Writers ns !! i with
  | None => ns
  | Some ciphertext =>
      mkNS (fst (SendFrame writeOk ciphertext (nsFs ns))) (writeKey ns) (readKey ns) (writeCounter ns)
        (readCounter ns) (destroyed ns) (stopped ns) (Delivered ns) (delete i (Writers ns))
  end.

Definition receiveEncryptedFrame (ciphertext : list byte) (ns : NoiseSocket) : NoiseSocket :=
  let delivered :=
    match Open (readKey ns) (generateIV (readCounter ns)) ciphertext [] with
    | Some plaintext => Delivered ns ++ [plaintext]
    | None => Delivered ns
    end in
  mkNS (nsFs ns) (writeKey ns) (readKey ns) (writeCounter ns) (u32 (readCounter ns + 1)) (destroyed ns)
    (stopped ns) delivered (Writers ns).

(** The consumer over the frames that arrive before it is stopped. *)
Fixpoint consumeFrames (frames : list (list byte)) (ns : NoiseSocket) : NoiseSocket :=
  match frames with
  | [] => ns
  | f :: frames => if stopped ns then ns else consumeFrames frames (receiveEncryptedFrame f ns)
  end.

Definition NoiseIsConnected (ns : NoiseSocket) : bool := IsConnected (nsFs ns).

(** * Properties *)

Lemma generateIV_inj a b :
  (0 ≤ a < 2 ^ 32)%Z → (0 ≤ b < 2 ^ 32)%Z → generateIV a = generateIV b → a = b.
Proof.
  intros Ha Hb H. unfold generateIV in H. apply app_inv_head in H.
  apply (f_equal be_value) in H. rewrite !be_value_be_bytes in H.
  change (8 * Z.of_nat 4)%Z with 32%Z in H. rewrite !Z.mod_small in H by lia. done.
Qed.

Lemma Prepare_Ok `{NoiseCrypto} k gcm : Prepare k = Ok gcm → ∃ block, NewGCM block = Some gcm.
Proof.
  unfold Prepare. destruct (NewCipher k) as [block|]; [|done].
  destruct (NewGCM block) as [g|] eqn:Hg; [|done]. intros [= <-]. eauto.
Qed.

Lemma Encrypt_run `{NoiseCrypto} p nh gcm :
  key nh = Some gcm →
  let c := Seal gcm (generateIV (u32 (u32 (counter nh + 1) - 1))) p (hash nh) in
  Encrypt p nh = (Ok c, mkNH (sha256 (hash nh ++ c)) (salt nh) (Some gcm) (u32 (counter nh + 1))).
Proof.
  intros Hk. unfold Encrypt, postIncrementCounter, Authenticate, mbind, stateM_bind.
  cbn -[generateIV u32 Seal Open]. by rewrite Hk.
Qed.

Lemma Decrypt_run `{NoiseCrypto} c nh gcm :
  key nh = Some gcm →
  Decrypt c nh =
    match Open gcm (generateIV (u32 (u32 (counter nh + 1) - 1))) c (hash nh) with
    | Some p => (Ok p, mkNH (sha256 (hash nh ++ c)) (salt nh) (Some gcm) (u32 (counter nh + 1)))
    | None => (Err GCMOpenFailed, mkNH (hash nh) (salt nh) (key nh) (u32 (counter nh + 1)))
    end.
Proof.
  intros Hk. unfold Decrypt, postIncrementCounter, Authenticate, mbind, stateM_bind.
  cbn -[generateIV u32 Seal Open]. rewrite Hk. by destruct (Open gcm _ c (hash nh)).
Qed.

(** The state has a usable key. *)
Definition prepared `{NoiseCrypto} (nh : NoiseHandshake) : Prop :=
  ∃ block gcm, NewGCM block = Some gcm ∧ key nh = Some gcm.

Lemma mirror `{NoiseLaws} nh p :
  prepared nh →
  ∃ c nh', Encrypt p nh = (Ok c, nh') ∧ Decrypt c nh = (Ok p, nh') ∧ prepared nh' ∧ salt nh' = salt nh.
Proof.
  intros (block & gcm & Hg & Hk). do 2 eexists. rewrite (Encrypt_run p nh gcm Hk), (Decrypt_run _ nh gcm Hk).
  split; [done|]. rewrite (proj2 (open_seal block gcm _ _ (hash nh) p Hg) eq_refl).
  split_and!; [done| |done]. by exists block, gcm.
Qed.

(** Encryption and decryption of the handshake are each
    other's inverse and move the state in the same way. From one state with a
    prepared key, [Encrypt] of a plaintext gives a ciphertext and a new state if
    and only if [Decrypt] of that ciphertext gives that plaintext and the same new
    state, so two ends that start equal stay equal; what is not such a ciphertext
    is refused, and a refusal uses up one nonce and changes nothing else. *)
Theorem handshake_mirror `{NoiseLaws} (k : list byte) (gcm : AEAD) (nh : NoiseHandshake) :
  Prepare k = Ok gcm → key nh = Some gcm →
  (∀ p c nh', Encrypt p nh = (Ok c, nh') ↔ Decrypt c nh = (Ok p, nh')) ∧
  (∀ p, ∃ c nh', Encrypt p nh = (Ok c, nh') ∧ length c = length p + 16) ∧
  (∀ c, (∀ p, (Encrypt p nh).1 ≠ Ok c) →
    Decrypt c nh = (Err GCMOpenFailed, mkNH (hash nh) (salt nh) (key nh) (u32 (counter nh + 1)))).
Proof.
  intros [block Hg]%Prepare_Ok Hk. split_and!.
  - intros p c nh'. rewrite (Encrypt_run p nh gcm Hk), (Decrypt_run c nh gcm Hk). split.
    + intros [= <- <-]. by rewrite (proj2 (open_seal block gcm _ _ (hash nh) p Hg) eq_refl).
    + destruct (Open gcm _ c (hash nh)) as [p'|] eqn:Ho; [|done]. intros [= -> <-].
      by apply (open_seal block) in Ho as ->.
  - intros p. rewrite (Encrypt_run p nh gcm Hk). do 2 eexists. split; [done|]. by eapply seal_length.
  - intros c Hno. rewrite (Decrypt_run c nh gcm Hk).
    destruct (Open gcm _ c (hash nh)) as [p|] eqn:Ho; [|done].
    apply (open_seal block) in Ho; [|done]. destruct (Hno p). by rewrite (Encrypt_run p nh gcm Hk), Ho.
Qed.

(** ** The transport *)

Definition noiseSendAll (plains : list (list byte)) (ns : NoiseSocket) : NoiseSocket :=
  foldl (λ ns p, (NoiseSendFrame Live true p ns).1) ns plains.

Definition nextCount (c : Z) : Z := u32 (c + 1).

(** The ciphertexts of a list of plaintexts from counter [c] on. *)
Fixpoint sealed (k : AEAD) (c : Z) (plains : list (list byte)) : list (list byte) :=
  match plains with
  | [] => []
  | p :: plains => Seal k (generateIV c) p [] :: sealed k (nextCount c) plains
  end.

Lemma noiseSendAll_spec plains : ∀ ns,
  nsFs (noiseSendAll plains ns) = (sendAll (sealed (writeKey ns) (writeCounter ns) plains) (nsFs ns)).1 ∧
  writeCounter (noiseSendAll plains ns) = Nat.iter (length plains) nextCount (writeCounter ns).
Proof.
  induction plains as [|p plains IH]; intros ns; [done|].
  change (noiseSendAll (p :: plains) ns) with (noiseSendAll plains (NoiseSendFrame Live true p ns).1).
  set (ns1 := (NoiseSendFrame Live true p ns).1).
  assert (nsFs ns1 = (SendFrame true (Seal (writeKey ns) (generateIV (writeCounter ns)) p []) (nsFs ns)).1 ∧
    writeKey ns1 = writeKey ns ∧ writeCounter ns1 = nextCount (writeCounter ns)) as (H1 & H2 & H3).
  { unfold ns1, NoiseSendFrame. by destruct (SendFrame _ _ _). }
  destruct (IH ns1) as [-> ->]. rewrite H1, H2, H3. cbn [sealed sendAll length].
  destruct (SendFrame _ _ _) as [fs e]. cbn [fst]. rewrite Nat.iter_succ_r.
  by destruct (sendAll _ fs).
Qed.

Lemma consume_sealed `{NoiseLaws} block gcm plains : ∀ ns,
  NewGCM block = Some gcm → readKey ns = gcm → stopped ns = false →
  Delivered (consumeFrames (sealed gcm (readCounter ns) plains) ns) = Delivered ns ++ plains ∧
  readCounter (consumeFrames (sealed gcm (readCounter ns) plains) ns) =
    Nat.iter (length plains) nextCount (readCounter ns).
Proof.
  induction plains as [|p plains IH]; intros ns Hg Hk Hs; cbn [sealed consumeFrames length].
  { by rewrite app_nil_r. }
  rewrite Hs. unfold receiveEncryptedFrame. rewrite Hk.
  rewrite (proj2 (open_seal block gcm _ _ [] p Hg) eq_refl).
  edestruct (IH (mkNS (nsFs ns) (writeKey ns) gcm (writeCounter ns) (u32 (readCounter ns + 1)) (destroyed ns)
    (stopped ns) (Delivered ns ++ [p]) (Writers ns))) as [IH1 IH2]; [done..|].
  cbn [readCounter Delivered] in *. fold (nextCount (readCounter ns)) in *. rewrite <- Hk in *. split.
  - rewrite IH1. by rewrite <- app_assoc.
  - rewrite IH2. by rewrite Nat.iter_succ_r.
Qed.

Lemma sealed_small `{NoiseLaws} block gcm plains : ∀ c,
  NewGCM block = Some gcm →
  Forall (λ p, (Z.of_nat (length p) + 16 < FrameMaxSize)%Z) plains →
  Forall (λ d, (Z.of_nat (length d) < FrameMaxSize)%Z) (sealed gcm c plains).
Proof.
  induction plains as [|p plains IH]; intros c Hg Hall; constructor;
    apply Forall_cons in Hall as [Hp Hall]; [|by apply IH].
  rewrite (seal_length block) by done. lia.
Qed.

(** C5: the channel delivers what was sent. Let a connected socket
    and a peer share a key and a counter, the peer's frame layer being at a frame
    boundary. Whatever plaintexts are sent (each at least sixteen bytes under the
    frame limit) and however the bytes are cut into websocket messages on the way,
    the peer hands exactly these plaintexts to its frame handler, in order, and
    its counter is again the sender's. *)
Theorem noise_transport `{NoiseLaws} (k : list byte) (gcm : AEAD) (ns peer : NoiseSocket)
    (plains chunks : list (list byte)) :
  Prepare k = Ok gcm → writeKey ns = gcm → readKey peer = gcm → readCounter peer = writeCounter ns →
  conn (nsFs ns) = true → Header (nsFs ns) = None → stopped peer = false →
  wf_input (nsFs peer) → pending (nsFs peer) = [] → Frames (nsFs peer) = [] →
  Forall (λ p, (Z.of_nat (length p) + 16 < FrameMaxSize)%Z) plains →
  concat (Sent (nsFs (noiseSendAll plains ns))) = concat (Sent (nsFs ns)) ++ concat chunks →
  ∃ r', processAll chunks (nsFs peer) = Ok r' ∧ pending r' = [] ∧
    let peer' := consumeFrames (Frames r') (setFs r' peer) in
    Delivered peer' = Delivered peer ++ plains ∧
    readCounter peer' = writeCounter (noiseSendAll plains ns).
Proof.
  intros [block Hg]%Prepare_Ok Hwk Hrk Hcnt Hconn Hhdr Hstop Hwf Hpend Hfr Hall Hbytes.
  destruct (noiseSendAll_spec plains ns) as [Hfs Hwc]. rewrite Hwk in Hfs.
  pose proof (sealed_small block gcm plains (writeCounter ns) Hg Hall) as Hsmall.
  pose proof (sendAll_sent _ (nsFs ns) Hconn Hsmall) as Hsent. rewrite Hhdr in Hsent.
  rewrite Hfs in Hbytes. destruct (sendAll _ (nsFs ns)) as [fs' es]. cbn [fst] in Hbytes.
  destruct Hsent as [_ Hsent]. rewrite Hsent in Hbytes.
  assert (concat chunks = frame_stream (sealed gcm (writeCounter ns) plains)) as Hchunks.
  { apply app_inv_head in Hbytes. rewrite <- Hbytes. by destruct (sealed _ _ _). }
  destruct (processAll_spec chunks (nsFs peer) Hwf) as (r' & new & Hproc & _ & HF & Hsp).
  rewrite Hpend, Hchunks in Hsp. cbn [app] in Hsp. rewrite split_frame_stream in Hsp by done.
  injection Hsp as Hnew Hpend'. exists r'. split; [done|]. split; [done|]. cbv zeta.
  rewrite HF, Hfr, <- Hnew, <- Hcnt, Hwc, <- Hcnt. cbn [app].
  exact (consume_sealed block gcm plains (setFs r' peer) Hg Hrk Hstop).
Qed.

(** ** Nonces *)

(** A send: its context, the outcome of the write and the plaintext. *)
Record send := mkSend { sendCtx : ctxState; sendOk : bool; sendPlain : list byte }.

Definition runSends (l : list send) (ns : NoiseSocket) : NoiseSocket :=
  foldl (λ ns s, (NoiseSendFrame (sendCtx s) (sendOk s) (sendPlain s) ns).1) ns l.

Definition uses (s : send) : nat := match sendCtx s with Cancelled => 0 | _ => 1 end.

Lemma used_cons s l : sum_list (uses <$> s :: l) = uses s + sum_list (uses <$> l).
Proof. done. Qed.

Lemma used_app l1 l2 : sum_list (uses <$> l1 ++ l2) = sum_list (uses <$> l1) + sum_list (uses <$> l2).
Proof. induction l1 as [|s l1 IH]; [done|]. cbn [app]. rewrite !used_cons, IH. lia. Qed.

Lemma runSends_counter l : ∀ ns,
  (0 ≤ writeCounter ns < 2 ^ 32)%Z →
  writeCounter (runSends l ns) = u32 (writeCounter ns + Z.of_nat (sum_list (uses <$> l))).
Proof.
  induction l as [|s l IH]; intros ns Hr; cbn [runSends foldl].
  { change (sum_list (uses <$> [])) with 0. by rewrite Z.add_0_r, u32_small. }
  fold (runSends l). destruct (sendCtx s) eqn:Hs.
  all: rewrite used_cons; unfold uses at 1; rewrite Hs.
  - unfold NoiseSendFrame. destruct (SendFrame _ _ _) as [fs e]. unfold runSends in *. cbn [fst].
    rewrite IH; cbn [writeCounter]; [|apply u32_range].
    unfold u32. rewrite Zplus_mod_idemp_l. f_equal. lia.
  - cbn [NoiseSendFrame fst]. unfold runSends in *. by rewrite IH.
  - cbn [NoiseSendFrame fst]. unfold runSends in *. rewrite IH; cbn [writeCounter]; [|apply u32_range].
    unfold u32. rewrite Zplus_mod_idemp_l. f_equal. lia.
Qed.

Lemma runSends_key l : ∀ ns, writeKey (runSends l ns) = writeKey ns.
Proof.
  induction l as [|s l IH]; intros ns; [done|]. cbn [runSends foldl]. unfold runSends in IH. rewrite IH.
  unfold NoiseSendFrame. destruct (sendCtx s); cbn; [by destruct (SendFrame _ _ _)|done|done].
Qed.
Lemma runSends_app l1 l2 ns : runSends (l1 ++ l2) ns = runSends l2 (runSends l1 ns).
Proof. apply foldl_app. Qed.

(** The ciphertext that a send hands over: to the goroutine that waits, or to the
    connection in a frame. *)
Definition handsOver (s : send) (ns : NoiseSocket) (c : list byte) : Prop :=
  let ns' := (NoiseSendFrame (sendCtx s) (sendOk s) (sendPlain s) ns).1 in
  Writers ns' = Writers ns ++ [c] ∨
  Sent (nsFs ns') = Sent (nsFs ns) ++ [frameBytes (default [] (Header (nsFs ns))) c].
Definition withKey (k : AEAD) (ns : NoiseSocket) : NoiseSocket :=
  mkNS (nsFs ns) k (readKey ns) (writeCounter ns) (readCounter ns) (destroyed ns) (stopped ns) (Delivered ns) (Writers ns).

Lemma handsOver_sealed s ns c :
  handsOver s ns c → sendCtx s ≠ Cancelled ∧ c = Seal (writeKey ns) (generateIV (writeCounter ns)) (sendPlain s) [].
Proof.
  assert (∀ (l : list (list byte)) x, l ≠ l ++ [x]) as Hne by (intros l x Heq; apply (f_equal length) in Heq; rewrite length_app in Heq; cbn in Heq; lia).
  assert (∀ h a b, frameBytes h a = frameBytes h b → b = a) as Hinj.
  { unfold frameBytes. intros h a b Heq%app_inv_head. by injection Heq. }
  unfold handsOver, NoiseSendFrame, SendFrame. destruct (sendCtx s); cbn [fst].
  - intros H. split; [done|]. destruct (conn (nsFs ns)); cbn [negb] in H; [|destruct H as [H|H]; by apply Hne in H].
    destruct (_ <=? _)%Z; cbn in H; (destruct H as [H|H]; [by apply Hne in H|]); [by apply Hne in H|].
    apply app_inv_head in H. injection H as H. destruct (Header (nsFs ns)); by apply Hinj in H.
  - intros [H|H]; by apply Hne in H.
  - intros [H|H]; [|by apply Hne in H]. split; [done|]. cbn in H. apply app_inv_head in H. by injection H as <-.
Qed.

Lemma runSends_nonce l ns k : (0 ≤ writeCounter ns < 2 ^ 32)%Z →
  writeCounter (runSends l (withKey k ns)) = u32 (writeCounter ns + Z.of_nat (sum_list (uses <$> l))).
Proof. intros Hr. by rewrite runSends_counter. Qed.

(** C9: no nonce is used twice within 2^32 messages, and the next one is. Take two sends
    of any sequence, whatever the contexts, plaintexts and outcomes of the writes. There are two
    nonces under which exactly these two ciphertexts are sealed, the ones that go into a frame or to
    the goroutine that writes it, with whatever cipher the socket has. The nonces differ as long as
    fewer than 2^32 of the sends from the first on used one; a send that fails or is cancelled while
    it writes uses one, a send that finds its context cancelled does not. After exactly 2^32 the
    counter has wrapped and the nonce is the first one's again. *)
Theorem nonces_fresh (l1 l2 : list send) (s1 s2 : send) (ns : NoiseSocket) :
  (0 ≤ writeCounter ns < 2 ^ 32)%Z → sendCtx s1 ≠ Cancelled →
  let used := Z.of_nat (sum_list (uses <$> s1 :: l2)) in
  ∃ nonce1 nonce2,
    (∀ k c, handsOver s1 (runSends l1 (withKey k ns)) c → c = Seal k nonce1 (sendPlain s1) []) ∧
    (∀ k c, handsOver s2 (runSends (l1 ++ s1 :: l2) (withKey k ns)) c → c = Seal k nonce2 (sendPlain s2) []) ∧
    ((used < 2 ^ 32)%Z → nonce1 ≠ nonce2) ∧
    (used = (2 ^ 32)%Z → nonce1 = nonce2).
Proof.
  intros Hr Hs used.
  set (c1 := u32 (writeCounter ns + Z.of_nat (sum_list (uses <$> l1)))).
  assert (0 ≤ c1 < 2 ^ 32)%Z as Hr1 by apply u32_range.
  exists (generateIV c1), (generateIV (u32 (c1 + used))). split; [|split].
  - intros k c [_ ->]%handsOver_sealed. by rewrite runSends_key, runSends_nonce.
  - intros k c [_ ->]%handsOver_sealed. rewrite runSends_key, runSends_nonce by done. f_equal. f_equal.
    unfold c1, used, u32. rewrite Zplus_mod_idemp_l. f_equal.
    rewrite used_app. lia.
  - assert (1 ≤ used)%Z as Hused.
    { unfold used. rewrite used_cons. unfold uses at 1. destruct (sendCtx s1); [lia|done|lia]. }
    split.
    + intros Hlt Heq. apply generateIV_inj in Heq; [|done|apply u32_range].
      unfold u32 in Heq. destruct (decide (c1 + used < 2 ^ 32)%Z).
      * rewrite Z.mod_small in Heq; lia.
      * rewrite (Z.mod_eq _ (2 ^ 32)) in Heq by lia.
        replace ((c1 + used) / 2 ^ 32)%Z with 1%Z in Heq; [lia|].
        apply (Z.div_unique_pos _ _ _ (c1 + used - 2 ^ 32)); lia.
    + intros ->. f_equal. unfold u32. rewrite Z.add_mod, Z_mod_same_full, Z.add_0_r, Z.mod_mod by lia. symmetry. by apply Z.mod_small.
Qed.

(** ** A small world to evaluate the definitions in *)

Definition toyTag (iv ad : list byte) : list byte := resize 16 x00 (drop 8 iv ++ ad).
Definition toyGCM : AEAD := mkAEAD
  (λ iv p ad, p ++ toyTag iv ad)
  (λ iv c ad, if decide (16 ≤ length c ∧ drop (length c - 16) c = toyTag iv ad)
              then Some (take (length c - 16) c) else None).

#[local] Existing Instance toyCrypto.
#[local] Instance toyNoise : NoiseCrypto := {|
  NewGCM _ := Some toyGCM;
  X25519 priv pub := Some (xorBytes priv pub)
|}.
#[local] Instance toyNoiseLaws : NoiseLaws.
Proof.
  split; intros; cbn in *; simplify_eq; cbn.
  - assert (length (toyTag iv ad) = 16) as Ht by apply length_resize.
    split.
    + case_decide as Hd; [|done]. destruct Hd as [Hl Hd]. intros [= <-]. by rewrite <- Hd, take_drop.
    + intros ->. rewrite length_app, Ht, Nat.add_sub, drop_app_length, take_app_length.
      rewrite decide_True; [done|]. split; [lia|done].
  - rewrite length_app. unfold toyTag. by rewrite length_resize.
Qed.

Lemma handshake_mirror_witness :
  let nh := mkNH [x01] [x02] (Some toyGCM) 4294967295 in
  (∀ p c nh', Encrypt p nh = (Ok c, nh') ↔ Decrypt c nh = (Ok p, nh')) ∧
  (∀ p, ∃ c nh', Encrypt p nh = (Ok c, nh') ∧ length c = length p + 16) ∧
  (∀ c, (∀ p, (Encrypt p nh).1 ≠ Ok c) →
    Decrypt c nh = (Err GCMOpenFailed, mkNH (hash nh) (salt nh) (key nh) (u32 (counter nh + 1)))).
Proof.
  exact (handshake_mirror (replicate 32 x00) toyGCM (mkNH [x01] [x02] (Some toyGCM) 4294967295) eq_refl eq_refl).
Defined.

(** A connected socket after the connection header, and its peer. *)
Definition toyConnected : FrameSocket := setOutput None [] (Connect true NewFrameSocket).1.
Definition toySender : NoiseSocket := newNoiseSocket toyConnected toyGCM toyGCM.
Definition toyPeer : NoiseSocket := newNoiseSocket NewFrameSocket toyGCM toyGCM.

(** Messages of five bytes. *)
Fixpoint chop (fuel : nat) (l : list byte) : list (list byte) :=
  match fuel, l with
  | S fuel, _ :: _ => take 5 l :: chop fuel (drop 5 l)
  | _, _ => []
  end.

Lemma noise_transport_witness :
  let ns' := noiseSendAll [[x41]; [x42; x43]] toySender in
  ∃ r', processAll (chop 100 (concat (Sent (nsFs ns')))) (nsFs toyPeer) = Ok r' ∧ pending r' = [] ∧
    let peer' := consumeFrames (Frames r') (setFs r' toyPeer) in
    Delivered peer' = Delivered toyPeer ++ [[x41]; [x42; x43]] ∧ readCounter peer' = writeCounter ns'.
Proof.
  apply (noise_transport (replicate 32 x00) toyGCM toySender toyPeer [[x41]; [x42; x43]]
    (chop 100 (concat (Sent (nsFs (noiseSendAll [[x41]; [x42; x43]] toySender))))));
    first [reflexivity | exact I | repeat constructor].
Defined.

Definition twoSends : send * send := (mkSend CancelledWhileSending true [x41], mkSend Live true [x41]).
(** The same plaintext twice, once while its context ends: two ciphertexts. *)
Lemma nonces_fresh_witness :
  ∃ c1 c2, handsOver twoSends.1 (runSends [] toySender) c1 ∧ handsOver twoSends.2 (runSends [twoSends.1] toySender) c2 ∧
    ∃ nonce1 nonce2, c1 = Seal toyGCM nonce1 [x41] [] ∧ c2 = Seal toyGCM nonce2 [x41] [] ∧ nonce1 ≠ nonce2.
Proof.
  destruct (nonces_fresh [] [] twoSends.1 twoSends.2 toySender ltac:(split; [discriminate|reflexivity]) ltac:(discriminate))
    as (n1 & n2 & H1 & H2 & Hne & _).
  exists (Seal toyGCM (generateIV 0) [x41] []), (Seal toyGCM (generateIV 1) [x41] []).
  assert (handsOver twoSends.1 (runSends [] toySender) (Seal toyGCM (generateIV 0) [x41] [])) as G1 by (left; reflexivity).
  assert (handsOver twoSends.2 (runSends [twoSends.1] toySender) (Seal toyGCM (generateIV 1) [x41] [])) as G2 by (right; vm_compute; reflexivity).
  split; [exact G1|]. split; [exact G2|]. exists n1, n2.
  split; [exact (H1 toyGCM _ G1)|]. split; [exact (H2 toyGCM _ G2)|]. apply Hne. reflexivity.
Defined.

(** A send that is cancelled while its frame is being written can
    put the frames on the wire out of nonce order. The nonce is used before the
    goroutine that writes is started and the lock is released when the context
    ends, so the next send can overtake it: here the second frame is written
    first, both frames reach a peer that holds the right key and counter, and the
    peer delivers neither. *)
Theorem cancelled_send_reorders :
  let ns1 := (NoiseSendFrame CancelledWhileSending true [x41] toySender).1 in
  let ns2 := (NoiseSendFrame Live true [x42] ns1).1 in
  let ns3 := runWriter 0 true ns2 in
  let frames := (split_frames (concat (Sent (nsFs ns3)))).1 in
  frames = [Seal toyGCM (generateIV 1) [x42] []; Seal toyGCM (generateIV 0) [x41] []] ∧
  Delivered (consumeFrames frames toyPeer) = [] ∧
  readCounter (consumeFrames frames toyPeer) = writeCounter ns3.
Proof. vm_compute. repeat split. Qed.
