(* ===== verification/Handshake.v ===== *)
(** The connection handshake (src/handshake.go): Noise XX over the frame socket,
    with the verification of the server's certificate chain. *)
From Stdlib Require Import ZArith Lia.
From Stdlib Require Import Strings.Byte.
From stdpp Require Import prelude list strings.
From S2P Require Import Prelude Cbc LTHash FrameSocket Noise.

(** ** Messages *)

Record ServerHello := mkServerHello {
  shEphemeral : option (list byte);
  shStatic : option (list byte);
  shPayload : option (list byte)
}.
Record HandshakeMessage := mkHandshakeMessage {
  clientHello : option (list byte);                       (* its ephemeral key *)
  serverHello : option ServerHello;
  clientFinish : option (list byte * list byte)           (* static, payload *)
}.
Record NoiseCertificate := mkCert { certDetails : option (list byte); certSignature : option (list byte) }.
Record CertChain := mkChain { leaf : option NoiseCertificate; intermediate : option NoiseCertificate }.
Record Details := mkDetails {
  serial : Z;
  issuerSerial : Z;
  certKey : list byte;
  notBefore : Z;
  notAfter : Z
}.

(** google.golang.org/protobuf on these messages, and the signature check of
    libsignal's ecc package (public key, message, signature). *)
Class HandshakeCodec := {
  ClientPayload : Type;
  marshalHandshake : HandshakeMessage → option (list byte);
  unmarshalHandshake : list byte → option HandshakeMessage;
  marshalClientPayload : ClientPayload → option (list byte);
  unmarshalCertChain : list byte → option CertChain;
  unmarshalDetails : list byte → option Details;
  VerifySignature : list byte → list byte → list byte → bool
}.

(** ** The certificate chain *)

Definition WACertIssuerSerial : Z := 0.

Definition WACertPubKey : list byte :=
  [x14; x23; x75; x57; x4d; x0a; x58; x71; x66; xaa; xe7; x1e; xbe; x51; x64; x37;
   xc4; xa2; x8b; x73; xe3; x69; x5c; x6c; xe1; xf7; xf9; x54; x5d; xa8; xee; x6b].

Inductive certError :=
| CertUnmarshal | CertMissingParts | CertSignatureLength (n : nat) | CertBadIntermediateSignature
| CertDetailsUnmarshal | CertIssuerSerial | CertKeyLength (n : nat) | CertBadLeafSignature
| CertNotYetValid | CertExpired | CertLeafIssuerSerial | CertKeyMismatch.

(** A wall clock time: seconds since the epoch and nanoseconds. [time.Unix]
    takes a signed number of seconds and adds the internal epoch's offset, both
    with wrap-around. *)
Record clock := mkClock { clockSec : Z; clockNsec : Z }.
Definition unixToInternal : Z := 62135596800.
Definition internalSec (sec : Z) : Z := i64 (i64 sec + unixToInternal).

Definition Before (a b : clock) : bool :=
  (internalSec (clockSec a) <? internalSec (clockSec b))%Z ||
  ((internalSec (clockSec a) =? internalSec (clockSec b))%Z && (clockNsec a <? clockNsec b)%Z).

Definition checkCertValidity (now : clock) (cert : Details) : outcome certError unit :=
  if Before now (mkClock (notBefore cert) 0) then Err CertNotYetValid
  else if Before (mkClock (notAfter cert) 0) now then Err CertExpired
  else Ok tt.

Section verify.
Context `{HandshakeCodec}.

Definition verifyServerCert (now : clock) (certDecrypted staticDecrypted certAuthority : list byte) :
    outcome certError unit :=
  match unmarshalCertChain certDecrypted with
  | None => Err CertUnmarshal
  | Some certChain =>
      match intermediate certChain ≫= certDetails, intermediate certChain ≫= certSignature,
            leaf certChain ≫= certDetails, leaf certChain ≫= certSignature with
      | Some intermediateRaw, Some intermediateSignature, Some leafRaw, Some leafSignature =>
          if decide (length intermediateSignature ≠ 64) then Err (CertSignatureLength (length intermediateSignature))
          else if decide (length leafSignature ≠ 64) then Err (CertSignatureLength (length leafSignature))
          else if negb (VerifySignature certAuthority intermediateRaw intermediateSignature)
          then Err CertBadIntermediateSignature
          else
            match unmarshalDetails intermediateRaw with
            | None => Err CertDetailsUnmarshal
            | Some intermediateDetails =>
                if decide (issuerSerial intermediateDetails ≠ WACertIssuerSerial) then Err CertIssuerSerial
                else if decide (length (certKey intermediateDetails) ≠ 32)
                then Err (CertKeyLength (length (certKey intermediateDetails)))
                else if negb (VerifySignature (certKey intermediateDetails) leafRaw leafSignature)
                then Err CertBadLeafSignature
                else
                  _ ← checkCertValidity now intermediateDetails;
                  match unmarshalDetails leafRaw with
                  | None => Err CertDetailsUnmarshal
                  | Some leafDetails =>
                      if decide (issuerSerial leafDetails ≠ serial intermediateDetails) then Err CertLeafIssuerSerial
                      else if decide (certKey leafDetails ≠ staticDecrypted) then Err CertKeyMismatch
                      else checkCertValidity now leafDetails
                  end
            end
      | _, _, _, _ => Err CertMissingParts
      end
  end.
End verify.

(** ** The handshake *)

Inductive handshakeError :=
| HsNoise (e : noiseError)
| HsCert (e : certError)
| HsSend (e : socketError)
| HsMarshal | HsTimeout | HsUnmarshal | HsMissingParts | HsStaticLength (n : nat) | HsNoClientPayload.

Definition NoiseStartPattern : list byte := s2b "Noise_XX_25519_AESGCM_SHA256" ++ [x00; x00; x00; x00].

Record KeyPair := mkKeyPair { Pub : list byte; Priv : list byte }.

(** What the client brings: its identity key, the certificate authority it
    overrides the built-in one with, and its login payload. *)
Record handshakeClient `{HandshakeCodec} := mkClient {
  NoiseKey : KeyPair;
  NoiseCertificateAuthority : option (list byte);
  clientPayload : option ClientPayload
}.

Record HState := mkHState { hsNh : NoiseHandshake; hsFs : FrameSocket }.

Section run.
Context `{NoiseCrypto} `{HKDF} `{HandshakeCodec}.
Notation M := (stateM HState handshakeError).

Definition noise {A} (m : stateM NoiseHandshake noiseError A) : M A :=
  zoom hsNh (λ nh st, mkHState nh (hsFs st)) HsNoise m.

Definition sendFrame (writeOk : bool) (data : list byte) : M unit :=
  λ st, let '(fs, err) := SendFrame writeOk data (hsFs st) in
        (match err with None => Ok tt | Some e => Err (HsSend e) end, mkHState (hsNh st) fs).

Definition marshalM {A} (f : A → option (list byte)) (a : A) : M (list byte) :=
  match f a with Some l => mret l | None => throw HsMarshal end.

(** Everything up to the verified certificate: the server's static key and its
    ephemeral key. [resp] is the response frame, [None] when it does not come
    in time. *)
Definition handshakeStart (cli : handshakeClient) (ephemeralKP : KeyPair) (writeOk : bool)
    (resp : option (list byte)) (now : clock) : M (list byte * list byte) :=
  st ← get;
  _ ← noise (Start NoiseStartPattern (default [] (Header (hsFs st))));
  _ ← noise (Authenticate (Pub ephemeralKP));
  data ← marshalM marshalHandshake (mkHandshakeMessage (Some (Pub ephemeralKP)) None None);
  _ ← sendFrame writeOk data;
  resp ← (match resp with Some r => mret r | None => throw HsTimeout end : M (list byte));
  msg ← (match unmarshalHandshake resp with Some m => mret m | None => throw HsUnmarshal end : M HandshakeMessage);
  match default [] (serverHello msg ≫= shEphemeral), serverHello msg ≫= shStatic, serverHello msg ≫= shPayload with
  | serverEphemeral, Some serverStaticCiphertext, Some certificateCiphertext =>
      if decide (length serverEphemeral ≠ 32) then throw HsMissingParts
      else
        _ ← noise (Authenticate serverEphemeral);
        _ ← noise (MixSharedSecretIntoKey (Priv ephemeralKP) serverEphemeral);
        staticDecrypted ← noise (Decrypt serverStaticCiphertext);
        if decide (length staticDecrypted ≠ 32) then throw (HsStaticLength (length staticDecrypted))
        else
          _ ← noise (MixSharedSecretIntoKey (Priv ephemeralKP) staticDecrypted);
          certDecrypted ← noise (Decrypt certificateCiphertext);
          let certAuthority := default WACertPubKey (NoiseCertificateAuthority cli) in
          _ ← lift (map_err HsCert (verifyServerCert now certDecrypted staticDecrypted certAuthority));
          mret (staticDecrypted, serverEphemeral)
  | _, _, _ => throw HsMissingParts
  end.

(** The client's static key and payload. *)
Definition handshakeFinish (cli : handshakeClient) (writeOk : bool) (serverEphemeral : list byte) : M NoiseSocket :=
  encryptedPubkey ← noise (Encrypt (Pub (NoiseKey cli)));
  _ ← noise (MixSharedSecretIntoKey (Priv (NoiseKey cli)) serverEphemeral);
  payload ← (match clientPayload cli with Some p => mret p | None => throw HsNoClientPayload end : M ClientPayload);
  clientFinishPayloadBytes ← marshalM marshalClientPayload payload;
  encryptedClientFinishPayload ← noise (Encrypt clientFinishPayloadBytes);
  data ← marshalM marshalHandshake
           (mkHandshakeMessage None None (Some (encryptedPubkey, encryptedClientFinishPayload)));
  _ ← sendFrame writeOk data;
  st ← get;
  lift (map_err HsNoise (Finish (hsNh st) (hsFs st))).

Definition doHandshakeM (cli : handshakeClient) (ephemeralKP : KeyPair) (writeOk1 writeOk2 : bool)
    (resp : option (list byte)) (now : clock) : M NoiseSocket :=
  '(_, serverEphemeral) ← handshakeStart cli ephemeralKP writeOk1 resp now;
  handshakeFinish cli writeOk2 serverEphemeral.

Definition doHandshake (cli : handshakeClient) (fs : FrameSocket) (ephemeralKP : KeyPair)
    (writeOk1 writeOk2 : bool) (resp : option (list byte)) (now : clock) :
    outcome handshakeError NoiseSocket * HState :=
  doHandshakeM cli ephemeralKP writeOk1 writeOk2 resp now (mkHState NewNoiseHandshake fs).
End run.

(** * Properties *)

Section cert.
Context `{HandshakeCodec}.

(** A chain from [authority] to [static], valid at [now]. *)
Definition trusted (now : clock) (cert static authority : list byte) : Prop :=
  ∃ chain interRaw interSig leafRaw leafSig inter leafD,
    unmarshalCertChain cert = Some chain ∧
    intermediate chain = Some (mkCert (Some interRaw) (Some interSig)) ∧
    leaf chain = Some (mkCert (Some leafRaw) (Some leafSig)) ∧
    length interSig = 64 ∧ length leafSig = 64 ∧
    VerifySignature authority interRaw interSig = true ∧
    unmarshalDetails interRaw = Some inter ∧ issuerSerial inter = WACertIssuerSerial ∧ length (certKey inter) = 32 ∧
    VerifySignature (certKey inter) leafRaw leafSig = true ∧
    unmarshalDetails leafRaw = Some leafD ∧ issuerSerial leafD = serial inter ∧ certKey leafD = static ∧
    checkCertValidity now inter = Ok tt ∧ checkCertValidity now leafD = Ok tt.

Lemma verifyServerCert_trusted now cert static authority :
  verifyServerCert now cert static authority = Ok tt ↔ trusted now cert static authority.
Proof.
  unfold verifyServerCert, trusted. split.
  - destruct (unmarshalCertChain cert) as [[[[lraw lsig]|] [[iraw isig]|]]|]; cbn; try done.
    all: destruct iraw as [iraw|]; try done; destruct isig as [isig|]; try done.
    all: try (destruct lraw as [lraw|]; try done; destruct lsig as [lsig|]; try done).
    repeat (case_decide; [done|]).
    destruct (VerifySignature authority iraw isig) eqn:Hv1; [|done]. cbn [negb].
    destruct (unmarshalDetails iraw) as [inter|] eqn:Hu1; [|done].
    repeat (case_decide; [done|]).
    destruct (VerifySignature (certKey inter) lraw lsig) eqn:Hv2; [|done]. cbn [negb].
    intros Hc. apply outcome_bind_Ok in Hc as ([] & Hc1 & Hc).
    destruct (unmarshalDetails lraw) as [lf|] eqn:Hu2; [|done].
    repeat (case_decide; [done|]).
    do 7 eexists. split_and!; try reflexivity; try eassumption; by apply dec_stable.
  - intros (chain & iraw & isig & lraw & lsig & inter & lf & C1 & C2 & C3 & H1 & H2 & H3 & C4 & H4 & H5 & H6
      & H7 & H8 & H9 & H10 & H11).
    rewrite C1, C2, C3. cbn [mbind option_bind certDetails certSignature].
    rewrite !decide_False, H3, C4 by auto. cbn [negb]. rewrite !decide_False, H6 by auto.
    cbn [negb]. rewrite H10. cbn [mbind outcome_bind]. by rewrite H7, !decide_False by auto.
Qed.
End cert.

Section soundness.
Context `{NoiseCrypto} `{HKDF} `{HandshakeCodec}.
Notation M := (stateM HState handshakeError).

(** Calls that write nothing. *)
Definition quiet {A} (m : M A) : Prop := ∀ st r st', m st = (r, st') → Sent (hsFs st') = Sent (hsFs st).

Lemma quiet_bind {A B} (m : M A) (f : A → M B) : quiet m → (∀ a, quiet (f a)) → quiet (m ≫= f).
Proof using.
  intros Hm Hf st r st' [(a & s1 & Hm1 & Hf1)|(r1 & Hm1 & _)]%stateM_bind_run.
  - rewrite (Hf _ _ _ _ Hf1). by eapply Hm.
  - by eapply Hm.
Qed.
Lemma quiet_noise {A} (m : stateM NoiseHandshake noiseError A) : quiet (noise m).
Proof using. intros st r st'. unfold noise, zoom. destruct (m (hsNh st)). by intros [= <- <-]. Qed.
Lemma quiet_ret {A} (a : A) : quiet (mret a).
Proof using. by intros st r st' [= <- <-]. Qed.
Lemma quiet_throw {A} e : quiet (throw e : M A).
Proof using. by intros st r st' [= <- <-]. Qed.
Lemma quiet_lift {A} (o : outcome handshakeError A) : quiet (lift o).
Proof using. by intros st r st' [= <- <-]. Qed.
Lemma quiet_get : quiet get.
Proof using. by intros st r st' [= <- <-]. Qed.

#[local] Hint Resolve quiet_noise quiet_ret quiet_throw quiet_lift quiet_get : quiet.
Ltac hush :=
  repeat first
    [ progress (auto with quiet nocore)
    | progress intros
    | apply quiet_bind
    | match goal with |- context [match ?x with _ => _ end] => destruct x end ].

Lemma sendFrame_sent ok data st r st' :
  sendFrame ok data st = (r, st') →
  Sent (hsFs st') = Sent (hsFs st) ∨
  Sent (hsFs st') = Sent (hsFs st) ++ [frameBytes (default [] (Header (hsFs st))) data].
Proof using.
  unfold sendFrame, SendFrame. destruct (conn (hsFs st)); cbn [negb]; [|intros [= _ <-]; by left].
  destruct (FrameMaxSize <=? _)%Z; [intros [= _ <-]; by left|]. intros [= _ <-]. right. cbn.
  by destruct (Header (hsFs st)).
Qed.

(** The client hello is all that the start of the handshake writes. *)
Definition onlyHello (ephemeralKP : KeyPair) (fs fs' : FrameSocket) : Prop :=
  Sent fs' = Sent fs ∨
  ∃ data, marshalHandshake (mkHandshakeMessage (Some (Pub ephemeralKP)) None None) = Some data ∧
    Sent fs' = Sent fs ++ [frameBytes (default [] (Header fs)) data].

Lemma noise_header {A} (m : stateM NoiseHandshake noiseError A) st r st' :
  noise m st = (r, st') → hsFs st' = hsFs st.
Proof using. unfold noise, zoom. destruct (m (hsNh st)). by intros [= <- <-]. Qed.

Lemma marshalM_run {A} (f : A → option (list byte)) a (st : HState) r st' :
  marshalM f a st = (r, st') → st' = st ∧ ∀ data, r = Ok data → f a = Some data.
Proof using. unfold marshalM. destruct (f a); intros [= <- <-]; split; congruence. Qed.

Lemma handshakeStart_run cli eKP ok resp now st r st' :
  handshakeStart cli eKP ok resp now st = (r, st') →
  onlyHello eKP (hsFs st) (hsFs st').
Proof.
  intros Hrun.
  - unfold handshakeStart in Hrun.
    apply stateM_bind_run in Hrun as [(st0 & st1 & [= <- <-] & Hrun)|(r1 & [= <- <-] & Hne & _)]; [|by destruct (Hne st)].
    apply stateM_bind_run in Hrun as [(u1 & st1 & Q1%noise_header & Hrun)|(r1 & Q1%noise_header & _)];
      [|left; by rewrite Q1].
    apply stateM_bind_run in Hrun as [(u2 & st2 & Q2%noise_header & Hrun)|(r1 & Q2%noise_header & _)];
      [|left; by rewrite Q2, Q1].
    apply stateM_bind_run in Hrun as [(data & st3 & Q3 & Hrun)|(r1 & Q3 & _)].
    2:{ left. apply marshalM_run in Q3 as [-> _]. by rewrite Q2, Q1. }
    apply marshalM_run in Q3 as [-> Hdata]. specialize (Hdata _ eq_refl).
    assert (∀ st4, (Sent (hsFs st4) = Sent (hsFs st2) ∨
      Sent (hsFs st4) = Sent (hsFs st2) ++ [frameBytes (default [] (Header (hsFs st2))) data]) →
      onlyHello eKP (hsFs st) (hsFs st4)) as Hhello.
    { intros st4. rewrite Q2, Q1. intros [?|?]; [by left|right; eauto]. }
    apply stateM_bind_run in Hrun as [(u4 & st4 & Q4%sendFrame_sent & Hrun)|(r1 & Q4%sendFrame_sent & _)]; [|by apply Hhello].
    assert (Sent (hsFs st') = Sent (hsFs st4)) as Hq.
    { revert Hrun. match goal with |- ?m st4 = _ → _ => assert (quiet m) as Hq by hush end. apply Hq. }
    apply Hhello. by rewrite Hq.
Qed.
End soundness.

(** ** The transcript

    Noise_XX_25519_AESGCM_SHA256 as its specification has it, for the initiator: [h] is a hash of
    everything before, [ck] a chaining key, a new pair of [ck] and key comes with every secret. *)
Section transcript.
Context `{NoiseCrypto} `{HKDF} `{HandshakeCodec}.

Definition chainKey (ck secret : list byte) : list byte := take 32 (hkdfRead secret ck [] 64).
Definition cipherKey (ck secret : list byte) : list byte := take 32 (drop 32 (hkdfRead secret ck [] 64)).
Definition mixHash (h data : list byte) : list byte := sha256 (h ++ data).

(** What the server sent proves that it knows the key [static]: the ephemeral key [re] and the two
    ciphertexts of its answer, the secrets [dh_ee] of both ephemeral keys and [dh_es] of the client's ephemeral
    key and [static], the keys [k1] and [k2] made of them, under which the ciphertexts open to [static] and to a
    certificate chain that the authority signed for [static]. *)
Definition serverProved (cli : handshakeClient) (header : list byte) (e : KeyPair) (resp : option (list byte)) (now : clock)
    (re static dh_ee dh_es : list byte) (k2 : AEAD) (h : list byte) : Prop :=
  ∃ frame msg staticCiphertext certCiphertext k1 cert,
    resp = Some frame ∧ unmarshalHandshake frame = Some msg ∧
    serverHello msg = Some (mkServerHello (Some re) (Some staticCiphertext) (Some certCiphertext)) ∧ length re = 32 ∧
    let h3 := mixHash (mixHash (mixHash NoiseStartPattern header) (Pub e)) re in
    X25519 (Priv e) re = Some dh_ee ∧
    Prepare (cipherKey NoiseStartPattern dh_ee) = Ok k1 ∧
    Open k1 (generateIV 0) staticCiphertext h3 = Some static ∧ length static = 32 ∧
    X25519 (Priv e) static = Some dh_es ∧
    Prepare (cipherKey (chainKey NoiseStartPattern dh_ee) dh_es) = Ok k2 ∧
    Open k2 (generateIV 0) certCiphertext (mixHash h3 staticCiphertext) = Some cert ∧
    trusted now cert static (default WACertPubKey (NoiseCertificateAuthority cli)) ∧
    h = mixHash (mixHash h3 staticCiphertext) certCiphertext.

(** The client's last message: its own static key under [k2], its payload under a key that is also made
    of the secret [dh_se] of its static key and the server's ephemeral key. *)
Definition clientFinished (cli : handshakeClient) (re dh_ee dh_es dh_se : list byte) (k2 : AEAD) (h data : list byte) : Prop :=
  ∃ k3 p payload, X25519 (Priv (NoiseKey cli)) re = Some dh_se ∧
    let ck2 := chainKey (chainKey NoiseStartPattern dh_ee) dh_es in
    Prepare (cipherKey ck2 dh_se) = Ok k3 ∧
    clientPayload cli = Some p ∧ marshalClientPayload p = Some payload ∧
    let identity := Seal k2 (generateIV 1) (Pub (NoiseKey cli)) h in
    marshalHandshake (mkHandshakeMessage None None (Some (identity, Seal k3 (generateIV 0) payload (mixHash h identity)))) = Some data.

Lemma noise_ok {A} (m : stateM NoiseHandshake noiseError A) st (a : A) st' :
  noise m st = (Ok a, st') → m (hsNh st) = (Ok a, hsNh st') ∧ hsFs st' = hsFs st.
Proof. unfold noise, zoom. destruct (m (hsNh st)) as [[] ?]; cbn; by intros [= <- <-]. Qed.

Lemma Authenticate_ok d nh u nh' : Authenticate d nh = (Ok u, nh') → nh' = mkNH (mixHash (hash nh) d) (salt nh) (key nh) (counter nh).
Proof. by intros [= <- <-]. Qed.

Lemma Start_ok pattern header nh u nh' : Start pattern header nh = (Ok u, nh') → length pattern = 32 →
  ∃ k, nh' = mkNH (mixHash pattern header) pattern (Some k) (counter nh).
Proof.
  unfold Start. intros Hrun Hl. rewrite decide_True in Hrun by done. unfold mbind, stateM_bind in Hrun. cbn in Hrun.
  destruct (Prepare pattern) as [k| | |]; cbn in Hrun; try discriminate. injection Hrun as <- <-. by exists k.
Qed.

Lemma extractAndExpand_ok salt secret a b : extractAndExpand salt secret = Ok (a, b) → a = chainKey salt secret ∧ b = cipherKey salt secret.
Proof. unfold extractAndExpand. case_decide; [done|]. by intros [= <- <-]. Qed.

Lemma Mix_ok priv pub nh u nh' : MixSharedSecretIntoKey priv pub nh = (Ok u, nh') →
  ∃ secret k, X25519 priv pub = Some secret ∧ Prepare (cipherKey (salt nh) secret) = Ok k ∧
    nh' = mkNH (hash nh) (chainKey (salt nh) secret) (Some k) 0.
Proof.
  unfold MixSharedSecretIntoKey. destruct (X25519 priv pub) as [secret|]; [|done]. unfold MixIntoKey, mbind, stateM_bind. cbn.
  destruct (extractAndExpand (salt nh) secret) as [[a b]| | |] eqn:He; try discriminate. apply extractAndExpand_ok in He as [-> ->]. cbn.
  destruct (Prepare (cipherKey (salt nh) secret)) as [k| | |] eqn:Hk; cbn; try discriminate. intros [= <- <-]. by exists secret, k.
Qed.

Lemma Decrypt_ok c nh p nh' : Decrypt c nh = (Ok p, nh') → counter nh = 0%Z →
  ∃ k, key nh = Some k ∧ Open k (generateIV 0) c (hash nh) = Some p ∧ nh' = mkNH (mixHash (hash nh) c) (salt nh) (Some k) 1.
Proof.
  intros Hrun Hc. destruct (key nh) as [k|] eqn:Hk.
  - rewrite (Decrypt_run c nh k Hk), Hc in Hrun. exists k. change (u32 (u32 (0 + 1) - 1)) with 0%Z in Hrun.
    destruct (Open k (generateIV 0) c (hash nh)) as [p'|]; [|done]. injection Hrun as -> <-. done.
  - unfold Decrypt, postIncrementCounter, mbind, stateM_bind in Hrun. cbn in Hrun. rewrite Hk in Hrun. done.
Qed.

Lemma Encrypt_ok d nh c nh' : Encrypt d nh = (Ok c, nh') → (0 ≤ counter nh < 2)%Z →
  ∃ k, key nh = Some k ∧ c = Seal k (generateIV (counter nh)) d (hash nh) ∧ nh' = mkNH (mixHash (hash nh) c) (salt nh) (Some k) (counter nh + 1).
Proof.
  intros Hrun Hc. assert (u32 (counter nh + 1) = (counter nh + 1)%Z) as Hu by (apply u32_small; lia).
  destruct (key nh) as [k|] eqn:Hk.
  - rewrite (Encrypt_run d nh k Hk), Hu, Z.add_simpl_r in Hrun. assert (u32 (counter nh) = counter nh) as Hu' by (apply u32_small; lia). rewrite Hu' in Hrun. injection Hrun as <- <-. by exists k.
  - unfold Encrypt, postIncrementCounter, mbind, stateM_bind in Hrun. cbn in Hrun. rewrite Hk in Hrun. done.
Qed.

Lemma sendFrame_ok ok data st u st' : sendFrame ok data st = (Ok u, st') →
  hsNh st' = hsNh st ∧ Sent (hsFs st') = Sent (hsFs st) ++ [frameBytes (default [] (Header (hsFs st))) data] ∧ Header (hsFs st') = None.
Proof.
  unfold sendFrame, SendFrame. destruct (conn (hsFs st)); cbn [negb]; [|done]. destruct (FrameMaxSize <=? _)%Z; [done|]. destruct ok; [|done].
  intros [= _ <-]. cbn. by destruct (Header (hsFs st)).
Qed.

(** The server's answer, and the state in which the client goes on. *)
Lemma handshakeStart_ok cli e ok resp now fs static re st :
  handshakeStart cli e ok resp now (mkHState NewNoiseHandshake fs) = (Ok (static, re), st) →
  ∃ dh_ee dh_es k2 h hello, serverProved cli (default [] (Header fs)) e resp now re static dh_ee dh_es k2 h ∧
    hsNh st = mkNH h (chainKey (chainKey NoiseStartPattern dh_ee) dh_es) (Some k2) 1 ∧
    marshalHandshake (mkHandshakeMessage (Some (Pub e)) None None) = Some hello ∧
    Sent (hsFs st) = Sent fs ++ [frameBytes (default [] (Header fs)) hello] ∧ Header (hsFs st) = None.
Proof.
  unfold handshakeStart. intros Hrun.
  apply stateM_bind_Ok in Hrun as (st0 & ? & [= <- <-] & Hrun).
  apply stateM_bind_Ok in Hrun as (u1 & st1 & [Hn1 Hf1]%noise_ok & Hrun). apply Start_ok in Hn1 as [k0 Hn1]; [|done]. cbn [hsNh hsFs] in Hn1, Hf1.
  apply stateM_bind_Ok in Hrun as (u2 & st2 & [Hn2%Authenticate_ok Hf2]%noise_ok & Hrun).
  apply stateM_bind_Ok in Hrun as (hello & st3 & [-> Hhello]%marshalM_run & Hrun). specialize (Hhello _ eq_refl).
  apply stateM_bind_Ok in Hrun as (u4 & st4 & (Hn4 & Hs4 & Hh4)%sendFrame_ok & Hrun).
  apply stateM_bind_Ok in Hrun as (frame & st5 & Hresp & Hrun). destruct resp as [frame'|]; [|done]. injection Hresp as <- <-.
  apply stateM_bind_Ok in Hrun as (msg & st6 & Hmsg & Hrun). destruct (unmarshalHandshake frame') as [msg'|] eqn:Hun; [|done]. injection Hmsg as <- <-.
  destruct (serverHello msg') as [[re0 [sCt|] [cCt|]]|] eqn:Hhel; cbn -[NoiseStartPattern] in Hrun; [|done..].
  destruct re0 as [re0|]; cbn [default] in Hrun; [|by rewrite decide_True in Hrun].
  case_decide as Hlen; [done|]. try apply dec_stable in Hlen. unfold id in *.
  apply stateM_bind_Ok in Hrun as (u7 & st7 & [Hn7%Authenticate_ok Hf7]%noise_ok & Hrun).
  apply stateM_bind_Ok in Hrun as (u8 & st8 & [(dh_ee & k1 & Hdh1 & Hk1 & Hn8)%Mix_ok Hf8]%noise_ok & Hrun).
  apply stateM_bind_Ok in Hrun as (static' & st9 & [Hd9 Hf9]%noise_ok & Hrun).
  apply Decrypt_ok in Hd9 as (k1' & Hk1' & Ho1 & Hn9); [|by rewrite Hn8].
  case_decide as Hsl; [done|]. try apply dec_stable in Hsl.
  apply stateM_bind_Ok in Hrun as (u10 & st10 & [(dh_es & k2 & Hdh2 & Hk2 & Hn10)%Mix_ok Hf10]%noise_ok & Hrun).
  apply stateM_bind_Ok in Hrun as (cert & st11 & [Hd11 Hf11]%noise_ok & Hrun).
  apply Decrypt_ok in Hd11 as (k2' & Hk2' & Ho2 & Hn11); [|by rewrite Hn10].
  apply stateM_bind_Ok in Hrun as (u12 & st12 & [Hv ->]%lift_Ok & Hrun). injection Hrun as -> -> <-.
  match type of Hv with map_err HsCert ?v = _ => destruct v as [[]| | |] eqn:Hver; try discriminate Hv end.
  apply verifyServerCert_trusted in Hver.
  rewrite Hn8 in Hk1', Ho1, Hn9. rewrite Hn7, Hn4, Hn2, Hn1 in *. cbn [hash salt key counter] in *. injection Hk1' as <-.
  rewrite Hn9 in *. cbn [hash salt key counter] in *. rewrite Hn10 in *. cbn [hash salt key counter] in *. injection Hk2' as <-.
  exists dh_ee, dh_es, k2, (hash (hsNh st11)), hello. split; [|split; [by rewrite Hn11|split; [done|]]].
  - exists frame', msg', sCt, cCt, k1, cert. split_and!; try done. by rewrite Hn11.
  - rewrite Hf11, Hf10, Hf9, Hf8, Hf7, Hs4, Hf2, Hf1. by rewrite Hh4.
Qed.

Lemma handshakeFinish_ok cli ok re dh_ee dh_es k2 h st ns st' :
  hsNh st = mkNH h (chainKey (chainKey NoiseStartPattern dh_ee) dh_es) (Some k2) 1 →
  handshakeFinish cli ok re st = (Ok ns, st') →
  ∃ dh_se finish, clientFinished cli re dh_ee dh_es dh_se k2 h finish ∧
    Sent (hsFs st') = Sent (hsFs st) ++ [frameBytes (default [] (Header (hsFs st))) finish] ∧ nsFs ns = SetOnDisconnect true (hsFs st') ∧
    let ck3 := chainKey (chainKey (chainKey NoiseStartPattern dh_ee) dh_es) dh_se in
    Prepare (chainKey ck3 []) = Ok (writeKey ns) ∧ Prepare (cipherKey ck3 []) = Ok (readKey ns) ∧ writeCounter ns = 0%Z ∧ readCounter ns = 0%Z.
Proof.
  intros Hst Hrun. unfold handshakeFinish in Hrun.
  apply stateM_bind_Ok in Hrun as (identity & st1 & [He1 Hf1]%noise_ok & Hrun).
  apply Encrypt_ok in He1 as (k & Hk & Hid & Hn1); [|rewrite Hst; cbn; lia]. rewrite Hst in Hk, Hid, Hn1. cbn [hash salt key counter] in *. injection Hk as <-.
  apply stateM_bind_Ok in Hrun as (u2 & st2 & [(dh_se & k3 & Hdh3 & Hk3 & Hn2)%Mix_ok Hf2]%noise_ok & Hrun). rewrite Hn1 in Hk3, Hn2. cbn [hash salt key counter] in *.
  apply stateM_bind_Ok in Hrun as (p & st3 & Hp & Hrun). destruct (clientPayload cli) as [p'|] eqn:Hcp; [|done]. injection Hp as <- <-.
  apply stateM_bind_Ok in Hrun as (payload & st4 & [-> Hpl]%marshalM_run & Hrun). specialize (Hpl _ eq_refl).
  apply stateM_bind_Ok in Hrun as (ct & st5 & [He5 Hf5]%noise_ok & Hrun).
  apply Encrypt_ok in He5 as (k3' & Hk3' & Hct & Hn5); [|rewrite Hn2; cbn; lia]. rewrite Hn2 in Hk3', Hct, Hn5. cbn [hash salt key counter] in *. injection Hk3' as <-.
  apply stateM_bind_Ok in Hrun as (finish & st6 & [-> Hfin]%marshalM_run & Hrun). specialize (Hfin _ eq_refl).
  apply stateM_bind_Ok in Hrun as (u7 & st7 & (Hn7 & Hs7 & Hh7)%sendFrame_ok & Hrun).
  apply stateM_bind_Ok in Hrun as (st8 & ? & [= <- <-] & Hrun). apply lift_Ok in Hrun as [Hrun ->].
  match type of Hrun with map_err HsNoise ?v = _ => destruct v as [ns'| | |] eqn:Hns; try discriminate Hrun end. injection Hrun as ->.
  unfold Finish in Hns. rewrite Hn7, Hn5 in Hns. cbn [salt] in Hns.
  apply outcome_bind_Ok in Hns as ([a b] & [-> ->]%extractAndExpand_ok & Hns).
  apply outcome_bind_Ok in Hns as (wk & Hwk & Hns). apply outcome_bind_Ok in Hns as (rk & Hrk & Hns). injection Hns as <-.
  exists dh_se, finish. split_and!; try done.
  - exists k3, p', payload. split_and!; try done. cbv zeta. rewrite <- Hid, <- Hct. done.
  - by rewrite Hs7, Hf5, Hf2, Hf1.
Qed.
End transcript.

(** C6: no identity before trust. However the handshake ends, either the server proved who it
    is: its answer holds an ephemeral key and two ciphertexts, the first opens, under the key made of
    both ephemeral keys, to a static key, and the second opens, under a key that is also made of
    the client's ephemeral key and that static key, to a certificate chain that is valid now and leads
    from the configured authority (the built-in one by default) to just this static key; or nothing was
    written but the client hello with the ephemeral key, and there is no socket. So neither the client's
    identity key nor its payload ever leaves before the chain is verified. When a socket is
    returned, two frames were written: the hello, and the client's identity and payload sealed under
    keys made of these secrets; the keys of the socket come from all three of them. *)
Theorem handshake_sound `{NoiseCrypto} `{HKDF} `{HandshakeCodec} (cli : handshakeClient) (fs : FrameSocket)
    (ephemeralKP : KeyPair) (ok1 ok2 : bool) (resp : option (list byte)) (now : clock) :
  let '(r, st) := doHandshake cli fs ephemeralKP ok1 ok2 resp now in
  (∃ re static dh_ee dh_es k2 h,
    serverProved cli (default [] (Header fs)) ephemeralKP resp now re static dh_ee dh_es k2 h ∧
    ∀ ns, r = Ok ns → ∃ dh_se hello finish,
      marshalHandshake (mkHandshakeMessage (Some (Pub ephemeralKP)) None None) = Some hello ∧
      clientFinished cli re dh_ee dh_es dh_se k2 h finish ∧
      Sent (hsFs st) = Sent fs ++ [frameBytes (default [] (Header fs)) hello; frameBytes [] finish] ∧
      let ck3 := chainKey (chainKey (chainKey NoiseStartPattern dh_ee) dh_es) dh_se in
      Prepare (chainKey ck3 []) = Ok (writeKey ns) ∧ Prepare (cipherKey ck3 []) = Ok (readKey ns) ∧ writeCounter ns = 0%Z ∧ readCounter ns = 0%Z) ∨
  (onlyHello ephemeralKP fs (hsFs st) ∧ ∀ ns, r ≠ Ok ns).
Proof.
  destruct (doHandshake cli fs ephemeralKP ok1 ok2 resp now) as [r st] eqn:Hrun. unfold doHandshake, doHandshakeM in Hrun.
  apply stateM_bind_run in Hrun as [([static re] & st1 & Q1 & Q2)|(r1 & Q1 & _ & Hne)].
  - apply handshakeStart_ok in Q1 as (dh_ee & dh_es & k2 & h & hello & Hproved & Hst & Hhello & Hsent & Hhdr).
    left. exists re, static, dh_ee, dh_es, k2, h. split; [done|]. intros ns ->.
    destruct (handshakeFinish_ok _ _ _ _ _ _ _ _ _ _ Hst Q2) as (dh_se & finish & Hfin & Hs & _ & Hkeys).
    exists dh_se, hello, finish. split_and!; try done; [|apply Hkeys..]. by rewrite Hs, Hsent, Hhdr, <- app_assoc.
  - apply handshakeStart_run in Q1. right. auto.
Qed.
