(* ===== verification/PreKeys.v ===== *)
(** One-time prekeys: key pairs (src/util/keys/keypair.go), the table of the store
    (src/store/sqlstore/store.go), their upload and the nodes they travel in
    (src/prekeys.go). *)
From Stdlib Require Import ZArith Lia.
From Stdlib Require Import Strings.Byte Sorting.Sorted.
From stdpp Require Import prelude gmap strings list fin_maps sorting.
From S2P Require Import Prelude Strconv Jid Node Attrs Handshake Sql.

#[local] Open Scope Z_scope.

(** ** Key pairs *)

Record PreKey := mkPreKey { pkPair : KeyPair; KeyID : Z; Signature : option (list byte) }.

(** The multiplication of the base point of Curve25519, and the signature of the
    Signal library. *)
Class CurveOps := {
  ScalarBaseMult : list byte → list byte;
  CalculateSignature : list byte → list byte → list byte
}.

Definition DjbType : byte := x05.

Section keys.
Context `{CurveOps}.

Definition NewKeyPairFromPrivateKey (priv : list byte) : KeyPair := mkKeyPair (ScalarBaseMult priv) priv.

Definition clampFirst (b : byte) : byte := z2b (Z.land (b2z b) 248).
Definition clampLast (b : byte) : byte := z2b (Z.lor (Z.land (b2z b) 127) 64).

(** [random]: the 32 bytes drawn. *)
Definition NewKeyPair (random : list byte) : KeyPair :=
  NewKeyPairFromPrivateKey (alter clampLast 31%nat (alter clampFirst 0%nat random)).

Definition NewPreKey (random : list byte) (keyID : Z) : PreKey := mkPreKey (NewKeyPair random) keyID None.

Definition Sign (kp : KeyPair) (keyToSign : KeyPair) : list byte :=
  CalculateSignature (Priv kp) (DjbType :: Pub keyToSign).

Definition CreateSignedPreKey (kp : KeyPair) (random : list byte) (keyID : Z) : PreKey :=
  let newKey := NewPreKey random keyID in
  mkPreKey (pkPair newKey) (KeyID newKey) (Some (Sign kp (pkPair newKey))).

(** ** The table

    The rows of one device: key_id to the private key and whether it is uploaded. *)
Definition maxKeyID : Z := 16777216.
Abbreviation preKeyRows := (gmap Z (list byte * bool)) (only parsing).
Abbreviation preKeyM := (dbM (gmap Z (list byte * bool))) (only parsing).

Definition insertPreKey (id : Z) (priv : list byte) (uploaded : bool) (t : preKeyRows) :
    outcome dbError (unit * preKeyRows) :=
  if decide (t !! id = None ∧ 0 ≤ id < maxKeyID ∧ length priv = 32%nat) then Ok (tt, <[id := (priv, uploaded)]> t)
  else Err ConstraintFailed.

Definition genOnePreKey (random : list byte) (id : Z) (markUploaded : bool) : preKeyM PreKey :=
  let key := NewPreKey random id in
  _ ← stmt (insertPreKey (KeyID key) (Priv (pkPair key)) markUploaded);
  mret key.

(** MAX(key_id), which is NULL, scanned as 0, for an empty table. *)
Definition lastKeyID (t : preKeyRows) : Z := foldr Z.max 0 (fst <$> map_to_list t).

Definition getNextPreKeyID : preKeyM Z :=
  last ← select lastKeyID;
  mret (u32 (last + 1)).

Definition GenOnePreKey (random : list byte) : preKeyM PreKey :=
  nextKeyID ← getNextPreKeyID;
  genOnePreKey random nextKeyID true.

Definition byID (x y : Z * (list byte * bool)) : Prop := x.1 ≤ y.1.
#[global] Instance byID_dec x y : Decision (byID x y).
Proof. unfold byID. apply _. Defined.

(** WHERE uploaded=false ORDER BY key_id LIMIT count. *)
Definition unuploaded (count : nat) (t : preKeyRows) : list (Z * (list byte * bool)) :=
  take count (merge_sort byID (filter (λ row, row.2.2 = false) (map_to_list t))).

Definition scanPreKey (row : Z * (list byte * bool)) : outcome dbError PreKey :=
  if decide (length row.2.1 ≠ 32%nat) then Err BadLength
  else Ok (mkPreKey (NewKeyPairFromPrivateKey row.2.1) row.1 None).

Fixpoint scanAll (rows : list (Z * (list byte * bool))) : outcome dbError (list PreKey) :=
  match rows with
  | [] => Ok []
  | r :: rows => k ← scanPreKey r; ks ← scanAll rows; Ok (k :: ks)
  end.

(** The loop that generates [n] keys from [nextKeyID] on; [random i] are the bytes
    drawn for its i-th key. *)
Fixpoint genLoop (random : nat → list byte) (i n : nat) (nextKeyID : Z) : preKeyM (list PreKey) :=
  match n with
  | O => mret []
  | S n =>
      key ← genOnePreKey (random i) nextKeyID false;
      rest ← genLoop random (S i) n (u32 (nextKeyID + 1));
      mret (key :: rest)
  end.

Definition GetOrGenPreKeys (random : nat → list byte) (count : nat) : preKeyM (list PreKey) :=
  rows ← select (unuploaded count);
  newKeys ← lift (scanAll rows);
  if (length newKeys <? count)%nat then
    nextKeyID ← getNextPreKeyID;
    generated ← genLoop random 0 (count - length newKeys) nextKeyID;
    mret (newKeys ++ generated)
  else mret newKeys.

Definition GetPreKey (id : Z) : preKeyM (option PreKey) :=
  row ← select (λ t, t !! id);
  match row with
  | None => mret None
  | Some r => k ← lift (scanPreKey (id, r)); mret (Some k)
  end.

Definition RemovePreKey (id : Z) : preKeyM unit := update (delete id).

Definition markUploaded (upToID : Z) (t : preKeyRows) : preKeyRows :=
  map_imap (λ id row, Some (if decide (id ≤ upToID) then (row.1, true) else row)) t.
Definition MarkPreKeysAsUploaded (upToID : Z) : preKeyM unit := update (markUploaded upToID).

Definition UploadedPreKeyCount : preKeyM Z :=
  select (λ t, Z.of_nat (length (filter (λ row, row.2.2 = true) (map_to_list t)))).
End keys.

(** ** The rows *)

Definition wfRow (id : Z) (row : list byte * bool) : Prop := 0 ≤ id < maxKeyID ∧ length row.1 = 32%nat.
(** The checks of the table hold. *)
Definition wfRows (t : gmap Z (list byte * bool)) : Prop := ∀ id row, t !! id = Some row → wfRow id row.

(** Rows are only added, and those added are not uploaded. *)
Definition grows (t t' : gmap Z (list byte * bool)) : Prop :=
  t ⊆ t' ∧ ∀ id row, t' !! id = Some row → t !! id = Some row ∨ (row.2 = false ∧ wfRow id row).

#[global] Instance grows_refl : Reflexive grows.
Proof. intros t. split; [done|]. by left. Qed.
#[global] Instance grows_trans : Transitive grows.
Proof.
  intros t1 t2 t3 [Hs1 Hn1] [Hs2 Hn2]. split; [by etrans|]. intros id row [?|?]%Hn2; [by apply Hn1|by right].
Qed.

Lemma grows_wf t t' : grows t t' → wfRows t → wfRows t'.
Proof. intros [_ Hn] Hw id row [?|[_ ?]]%Hn; [by apply Hw|done]. Qed.

Lemma insertPreKey_Ok id priv b t x t' :
  insertPreKey id priv b t = Ok (x, t') → t' = <[id := (priv, b)]> t ∧ t !! id = None ∧ wfRow id (priv, b).
Proof. unfold insertPreKey. case_decide as H; [|done]. intros [= _ <-]. destruct H as (? & ? & ?). by split_and!. Qed.

Lemma grows_insert id priv t : t !! id = None → wfRow id (priv, false) → grows t (<[id := (priv, false)]> t).
Proof.
  intros Hid Hw. split; [by apply insert_subseteq|]. intros j row [[<- <-]|[_ ?]]%lookup_insert_Some; [by right|by left].
Qed.

Lemma lastKeyID_ge t id row : t !! id = Some row → id ≤ lastKeyID t.
Proof.
  intros Hid%elem_of_map_to_list. unfold lastKeyID.
  assert (id ∈ fst <$> map_to_list t) as Hin by (apply list_elem_of_fmap; by exists (id, row)).
  revert Hin. generalize (fst <$> map_to_list t). induction l as [|x l IH]; [by intros []%not_elem_of_nil|].
  intros [->|Hin]%elem_of_cons; cbn; [lia|]. specialize (IH Hin). lia.
Qed.

Lemma lastKeyID_range t : wfRows t → 0 ≤ lastKeyID t < maxKeyID.
Proof.
  intros Hw. unfold lastKeyID.
  assert (Forall (λ id, 0 ≤ id < maxKeyID) (fst <$> map_to_list t)) as Hf.
  { apply Forall_fmap, Forall_forall. intros [id row] Hin%elem_of_map_to_list. by apply Hw in Hin as [? _]. }
  revert Hf. generalize (fst <$> map_to_list t). induction l as [|x l IH]; cbn; [unfold maxKeyID; lia|].
  intros [? ?]%Forall_cons. specialize (IH H0). lia.
Qed.

(** A generated key is above every key of the table. *)
Lemma getNextPreKeyID_Ok d n d' :
  wfRows (content d) → getNextPreKeyID d = (Ok n, d') →
  content d' = content d ∧ n = lastKeyID (content d) + 1.
Proof.
  unfold getNextPreKeyID. intros Hw H. inv_run. apply select_Ok in Hx as [-> Hc]. split; [done|].
  apply lastKeyID_range in Hw. unfold maxKeyID in Hw. apply u32_small. lia.
Qed.

(** ** The rows that are not uploaded, in order *)

Lemma byID_strict l :
  StronglySorted byID l → NoDup (fst <$> l) → StronglySorted Z.lt (fst <$> l).
Proof.
  induction 1 as [|[id row] l Hs IH Hall]; cbn; [constructor|]. intros [Hid Hnd]%NoDup_cons. constructor; [by apply IH|].
  apply Forall_fmap. rewrite Forall_forall in Hall |- *. intros [id' row'] Hin. specialize (Hall _ Hin). unfold byID in Hall. cbn in *.
  assert (id ≠ id'); [|lia]. intros ->. apply Hid, list_elem_of_fmap. by exists (id', row').
Qed.

#[local] Instance byID_trans : Transitive byID.
Proof. unfold byID. intros ???. lia. Qed.
#[local] Instance byID_total : Total byID.
Proof. unfold byID. intros x y. lia. Qed.

Definition waiting (t : gmap Z (list byte * bool)) : list (Z * (list byte * bool)) :=
  merge_sort byID (filter (λ row, row.2.2 = false) (map_to_list t)).

Lemma waiting_elem t row : row ∈ waiting t ↔ t !! row.1 = Some row.2 ∧ row.2.2 = false.
Proof.
  unfold waiting. rewrite (merge_sort_Permutation byID), list_elem_of_filter. destruct row as [id r].
  rewrite elem_of_map_to_list. naive_solver.
Qed.

Lemma waiting_sorted t : StronglySorted Z.lt (fst <$> waiting t).
Proof.
  apply byID_strict; [apply (StronglySorted_merge_sort byID)|].
  apply NoDup_fmap_2_strong.
  - intros [i r] [i' r'] [Hr _]%waiting_elem [Hr' _]%waiting_elem Heq. cbn in *. congruence.
  - unfold waiting. rewrite (merge_sort_Permutation byID). apply NoDup_filter, NoDup_map_to_list.
Qed.

(** ** Getting and generating *)

Section spec.
Context `{CurveOps}.

(** A key made from a private key. *)
Definition derived (k : PreKey) : Prop :=
  Pub (pkPair k) = ScalarBaseMult (Priv (pkPair k)) ∧ Signature k = None.

Lemma genOnePreKey_Ok random id b d k d' :
  genOnePreKey random id b d = (Ok k, d') →
  k = NewPreKey random id ∧ content d !! id = None ∧ wfRow id (Priv (pkPair k), b) ∧
  content d' = <[id := (Priv (pkPair k), b)]> (content d).
Proof.
  unfold genOnePreKey. intros Hr. inv_run. apply stmt_Ok in Hx as [Hx _].
  apply insertPreKey_Ok in Hx as (-> & ? & ?). done.
Qed.

Lemma moves_genOnePreKey random id :
  moves (λ d d', grows (content d) (content d')) (genOnePreKey random id false).
Proof.
  apply moves_bind; [intros ???; apply grows_trans| |intros; intros d; done].
  apply (moves_stmt grows). intros t x t' (-> & ? & ?)%insertPreKey_Ok. by apply grows_insert.
Qed.

Lemma moves_genLoop random n : ∀ i next,
  moves (λ d d', grows (content d) (content d')) (genLoop random i n next).
Proof.
  induction n as [|n IH]; intros i next; cbn [genLoop]; [by intros d|].
  apply moves_bind; [intros ???; apply grows_trans|apply moves_genOnePreKey|intros k].
  apply moves_bind; [intros ???; apply grows_trans|apply IH|by intros ? d].
Qed.

Lemma genLoop_Ok random n : ∀ i next d ks d',
  genLoop random i n next d = (Ok ks, d') →
  KeyID <$> ks = seqZ next (Z.of_nat n) ∧
  (∀ k, k ∈ ks → content d' !! KeyID k = Some (Priv (pkPair k), false) ∧ derived k) ∧
  (∀ id row, content d' !! id = Some row → content d !! id = Some row ∨ id ∈ KeyID <$> ks).
Proof.
  induction n as [|n IH]; intros i next d ks d' Hr; cbn [genLoop] in Hr.
  { inv_run. split_and!; [done|by intros k []%not_elem_of_nil|by left]. }
  inv_run. apply genOnePreKey_Ok in Hx as (Hk & Hnone & [Hid _] & Hc). cbn in Hid.
  pose proof (moves_genLoop random n (S i) (u32 (next + 1)) s) as Hg. rewrite Hx0 in Hg. cbn in Hg.
  rewrite u32_small in Hx0 by (unfold maxKeyID in Hid; lia).
  apply IH in Hx0 as (Hids & Hst & Hnew). assert (KeyID x = next) as Hkid by (by subst x).
  split_and!.
  - rewrite fmap_cons, Hids, Hkid. rewrite (seqZ_cons next (Z.of_nat (S n))) by lia. f_equal. f_equal; lia.
  - intros k [->|Hin]%elem_of_cons; [|by apply Hst]. split; [|by subst x].
    rewrite Hkid. destruct Hg as [Hsub _]. eapply lookup_weaken; [|exact Hsub]. by rewrite Hc, lookup_insert_eq.
  - intros id row [Hs|Hin]%Hnew; [|right; rewrite fmap_cons; by right].
    rewrite Hc in Hs. apply lookup_insert_Some in Hs as [[<- _]|[_ ?]]; [right; rewrite fmap_cons, Hkid; by left|by left].
Qed.

Lemma scanAll_Ok rows : ∀ ks, scanAll rows = Ok ks →
  Forall2 (λ row k, k = mkPreKey (NewKeyPairFromPrivateKey row.2.1) row.1 None) rows ks.
Proof.
  induction rows as [|r rows IH]; intros ks Hs; cbn in Hs; inv_ok; [constructor|].
  unfold scanPreKey in Hx. case_decide; [done|]. injection Hx as <-. constructor; [done|by apply IH].
Qed.

Lemma seqZ_sorted n : ∀ m, StronglySorted Z.lt (seqZ m (Z.of_nat n)).
Proof.
  induction n as [|n IH]; intros m; [constructor|]. rewrite seqZ_cons by lia.
  replace (Z.pred (Z.of_nat (S n))) with (Z.of_nat n) by lia. constructor; [apply IH|].
  apply Forall_forall. intros x Hx%elem_of_seqZ. lia.
Qed.

Lemma StronglySorted_take {A} (R : relation A) n l : StronglySorted R l → StronglySorted R (take n l).
Proof.
  rewrite <- (take_drop n l) at 1. generalize (take n l), (drop n l). intros l1 l2. induction l1 as [|x l1 IH]; cbn; [constructor|].
  intros [Hs Hf]%StronglySorted_inv. apply Forall_app in Hf as [? _]. constructor; [by apply IH|done].
Qed.

Lemma StronglySorted_split {A} (R : relation A) n l x y :
  StronglySorted R l → x ∈ take n l → y ∈ drop n l → R x y.
Proof.
  rewrite <- (take_drop n l) at 1. generalize (take n l), (drop n l). intros l1 l2. induction l1 as [|z l1 IH]; cbn; [by intros _ []%not_elem_of_nil|].
  intros [Hs Hf]%StronglySorted_inv [->|Hx]%elem_of_cons Hy; [|by apply IH].
  rewrite Forall_forall in Hf. apply Hf, elem_of_app. by right.
Qed.

(** The keys read from the table. *)
Lemma scanned count t ks :
  scanAll (unuploaded count t) = Ok ks →
  length ks = length (unuploaded count t) ∧ KeyID <$> ks = fst <$> unuploaded count t ∧
  (∀ k, k ∈ ks → t !! KeyID k = Some (Priv (pkPair k), false) ∧ derived k).
Proof.
  intros Hs%scanAll_Ok.
  assert (∀ row, row ∈ unuploaded count t → t !! row.1 = Some row.2 ∧ row.2.2 = false) as Hin.
  { intros row Hrow. apply waiting_elem. unfold unuploaded in Hrow. fold (waiting t) in Hrow.
    rewrite <- (take_drop count (waiting t)). apply elem_of_app. by left. }
  split_and!; [by symmetry; eapply Forall2_length| |].
  - clear Hin. induction Hs as [|row k rows ks -> Hs IH]; [done|]. by rewrite !fmap_cons, IH.
  - induction Hs as [|row k rows ks -> Hs IH]; [by intros k []%not_elem_of_nil|].
    intros k' [->|Hk']%elem_of_cons; [|apply IH; [intros; apply Hin; by right|done]].
    destruct (Hin row) as [H1 H2]; [by left|]. cbn. rewrite H1. destruct row as [id [p b]]. cbn in *. by subst b.
Qed.

Lemma scanned_sorted count t : StronglySorted Z.lt (fst <$> unuploaded count t).
Proof. unfold unuploaded. rewrite fmap_take. apply StronglySorted_take, waiting_sorted. Qed.

(** A key that is not uploaded was read, or comes after all that were. *)
Lemma scanned_lowest count t id p :
  t !! id = Some (p, false) →
  id ∈ fst <$> unuploaded count t ∨
  (length (unuploaded count t) = count ∧ ∀ x, x ∈ fst <$> unuploaded count t → x < id).
Proof.
  intros Hid. assert (id ∈ fst <$> waiting t) as Hin.
  { apply list_elem_of_fmap. exists (id, (p, false)). split; [done|]. by apply waiting_elem. }
  unfold unuploaded. fold (waiting t). rewrite fmap_take. rewrite <- (take_drop count (fst <$> waiting t)) in Hin.
  apply elem_of_app in Hin as [?|Hd]; [by left|right]. split.
  - rewrite length_take. assert (count < length (waiting t))%nat; [|lia].
    destruct (decide (count < length (waiting t))%nat); [done|]. rewrite drop_ge in Hd by (rewrite length_fmap; lia).
    by apply not_elem_of_nil in Hd.
  - intros x Hx. by eapply StronglySorted_split, Hd; [apply waiting_sorted|].
Qed.

(** Whatever happens, getting keys only adds keys that are not uploaded. *)
Lemma GetOrGenPreKeys_grows random count :
  moves (λ d d', grows (content d) (content d')) (GetOrGenPreKeys random count).
Proof.
  assert (Transitive (λ d d' : database (gmap Z (list byte * bool)), grows (content d) (content d')))
    by (intros ???; apply grows_trans).
  assert (∀ A (f : gmap Z (list byte * bool) → A), moves (λ d d', grows (content d) (content d')) (select f)) as Hsel.
  { intros A f. apply (moves_stmt grows). by intros t a t' [= _ <-]. }
  apply moves_bind; [done|apply Hsel|intros rows].
  apply moves_bind; [done|by intros d|intros ks]. destruct (_ <? _)%nat; [|by intros d].
  apply moves_bind; [done| |intros n; apply moves_bind; [done|apply moves_genLoop|by intros ? d]].
  apply moves_bind; [done|apply Hsel|by intros ? d].
Qed.

Lemma seqZ_app_sorted l m n :
  StronglySorted Z.lt l → (∀ x, x ∈ l → x < m) → StronglySorted Z.lt (l ++ seqZ m (Z.of_nat n)).
Proof.
  induction 1 as [|x l Hs IH Hall]; intros Hlt; [apply seqZ_sorted|]. cbn. constructor.
  - apply IH. intros y Hy. apply Hlt. by right.
  - apply Forall_app. split; [done|]. apply Forall_forall. intros y Hy%elem_of_seqZ. specialize (Hlt x ltac:(by left)). lia.
Qed.

(** The keys a successful call returns. *)
Lemma GetOrGenPreKeys_Ok random count d ks d' :
  wfRows (content d) → GetOrGenPreKeys random count d = (Ok ks, d') →
  length ks = count ∧ StronglySorted Z.lt (KeyID <$> ks) ∧
  (∀ k, k ∈ ks → content d' !! KeyID k = Some (Priv (pkPair k), false) ∧ derived k) ∧
  (∀ k, k ∈ ks → is_Some (content d !! KeyID k) ∨ ∀ id, is_Some (content d !! id) → id < KeyID k) ∧
  (∀ id p, content d' !! id = Some (p, false) → id ∈ KeyID <$> ks ∨ ∀ k, k ∈ ks → KeyID k < id) ∧
  (∀ id, is_Some (content d' !! id) → content d' !! id = content d !! id ∨ id ∈ KeyID <$> ks).
Proof.
  intros Hw Hr. unfold GetOrGenPreKeys in Hr. inv_run.
  apply select_Ok in Hx as [-> Hc]. apply scanned in Hx0 as (Hlen & Hids & Hst).
  assert (∀ k, k ∈ x0 → is_Some (content d !! KeyID k)) as Hold by (intros k Hk; destruct (Hst k Hk) as [-> _]; by eexists).
  pose proof (scanned_sorted count (content d)) as Hsorted. rewrite <- Hids in Hsorted.
  assert (length x0 ≤ count)%nat as Hle by (rewrite Hlen; unfold unuploaded; rewrite length_take; lia).
  assert (∀ id p, content d !! id = Some (p, false) → id ∈ KeyID <$> x0 ∨ (length x0 = count ∧ ∀ k, k ∈ x0 → KeyID k < id)) as Hlow.
  { intros id p Hid. destruct (scanned_lowest count _ id p Hid) as [?|[Hl Hlt]]; [left; by rewrite Hids|right]. split; [congruence|].
    intros k Hk. apply Hlt. rewrite <- Hids. apply list_elem_of_fmap. by exists k. }
  destruct (length x0 <? count)%nat eqn:Hcmp; inv_run.
  - apply Nat.ltb_lt in Hcmp. apply getNextPreKeyID_Ok in Hx as [Hc' ->]; [|by rewrite Hc].
    pose proof (moves_genLoop random (count - length x0) 0 (lastKeyID (content s) + 1) s0) as Hgl. rewrite Hx0 in Hgl. cbn in Hgl.
    apply genLoop_Ok in Hx0 as (Hgids & Hgst & Hnew). rewrite Hc', Hc in *.
    assert (∀ k, k ∈ x1 → lastKeyID (content d) < KeyID k) as Hgen.
    { intros k Hk. assert (KeyID k ∈ KeyID <$> x1) as Hin by (apply list_elem_of_fmap; by exists k).
      rewrite Hgids in Hin. apply elem_of_seqZ in Hin. lia. }
    split_and!.
    + rewrite length_app. apply (f_equal length) in Hgids. rewrite length_fmap, length_seqZ in Hgids. lia.
    + rewrite fmap_app, Hgids. apply seqZ_app_sorted; [done|].
      intros y (k & -> & Hk)%list_elem_of_fmap. destruct (Hold k Hk) as [row Hrow]. apply lastKeyID_ge in Hrow. lia.
    + intros k [Hk|Hk]%elem_of_app; [|by apply Hgst]. destruct (Hst k Hk) as [Hin ?]. split; [|done].
      destruct Hgl as [Hsub _]. by eapply lookup_weaken.
    + intros k [Hk|Hk]%elem_of_app; [left; by apply Hold|right]. intros id [row Hrow]. apply lastKeyID_ge in Hrow.
      specialize (Hgen k Hk). lia.
    + intros id p Hid. rewrite fmap_app. setoid_rewrite elem_of_app. destruct (Hnew id _ Hid) as [Hd|?]; [|left; by right].
      destruct (Hlow id p Hd) as [?|[? _]]; [left; by left|lia].
    + intros id [row Hid]. rewrite fmap_app, elem_of_app. destruct (Hnew id row Hid) as [Hd|?]; [left; congruence|right; by right].
  - apply Nat.ltb_ge in Hcmp. rewrite Hc in *. split_and!; [lia|done|done|intros; left; by apply Hold| |by left].
    intros id p Hid. destruct (Hlow id p Hid) as [?|[_ ?]]; [by left|by right].
Qed.

(** Getting keys for an upload. The call returns exactly as many keys as asked, in
    ascending order of their ids, each stored with its private key and not uploaded;
    keys that were waiting come first, new ones have ids above every key of the
    table; no key that waits with a lower id is left out. Whether the call succeeds
    or not, no row is lost or changed, and every row it added waits for the next
    call. *)
Theorem GetOrGenPreKeys_spec (random : nat → list byte) (count : nat) (d d' : database (gmap Z (list byte * bool)))
    (r : outcome dbError (list PreKey)) :
  wfRows (content d) → GetOrGenPreKeys random count d = (r, d') →
  grows (content d) (content d') ∧
  ∀ ks, r = Ok ks →
    length ks = count ∧ StronglySorted Z.lt (KeyID <$> ks) ∧
    (∀ k, k ∈ ks → content d' !! KeyID k = Some (Priv (pkPair k), false) ∧ derived k) ∧
    (∀ k, k ∈ ks → is_Some (content d !! KeyID k) ∨ ∀ id, is_Some (content d !! id) → id < KeyID k) ∧
    (∀ id p, content d' !! id = Some (p, false) → id ∈ KeyID <$> ks ∨ ∀ k, k ∈ ks → KeyID k < id).
Proof.
  intros Hw Hr. split.
  - pose proof (GetOrGenPreKeys_grows random count d) as Hg. by rewrite Hr in Hg.
  - intros ks ->. destruct (GetOrGenPreKeys_Ok random count d ks d' Hw Hr) as (? & ? & ? & ? & ? & _). by split_and!.
Qed.

(** A strictly sorted list starts with its lowest part. *)
Lemma sorted_take_lowest (l1 : list Z) : ∀ l,
  StronglySorted Z.lt l1 → StronglySorted Z.lt l → (∀ x, x ∈ l1 → x ∈ l) →
  (∀ x, x ∈ l → x ∈ l1 ∨ ∀ y, y ∈ l1 → y < x) → take (length l1) l = l1.
Proof.
  induction l1 as [|x l1 IH]; intros l Hs1 Hs Hin Hlow; [done|].
  apply StronglySorted_inv in Hs1 as [Hs1 Hx1]. rewrite Forall_forall in Hx1.
  destruct l as [|z l]; [by destruct (not_elem_of_nil x); apply Hin; left|].
  apply StronglySorted_inv in Hs as [Hs Hz]. rewrite Forall_forall in Hz.
  assert (x ∈ z :: l) as Hxl by (apply Hin; by left).
  assert (z = x) as ->.
  { apply elem_of_cons in Hxl as [?|Hxl]; [done|]. specialize (Hz x Hxl).
    destruct (Hlow z) as [[?|Hzl]%elem_of_cons|Hlt]; [by left|lia|specialize (Hx1 z Hzl); lia|].
    specialize (Hlt x ltac:(by left)). lia. }
  cbn. f_equal. apply IH; [done..| |].
  - intros y Hy. assert (y ∈ x :: l) as [->|?]%elem_of_cons by (apply Hin; by right); [|done].
    specialize (Hx1 x Hy). lia.
  - intros y Hy. specialize (Hz y Hy). destruct (Hlow y) as [[?|?]%elem_of_cons|Hlt]; [by right|lia|by left|right].
    intros w Hw. apply Hlt. by right.
Qed.

(** Keys that were not marked are returned again. *)
Lemma GetOrGenPreKeys_again random random' count d ks d1 d1' ks' d2 :
  wfRows (content d) → GetOrGenPreKeys random count d = (Ok ks, d1) → content d1' = content d1 →
  GetOrGenPreKeys random' count d1' = (Ok ks', d2) → KeyID <$> ks' = KeyID <$> ks.
Proof.
  intros Hw Hr Hd1 Hr'. apply GetOrGenPreKeys_Ok in Hr as (Hlen & Hsort & Hst & _ & Hlow & _); [|done].
  rewrite <- Hd1 in Hst, Hlow. unfold GetOrGenPreKeys in Hr'. inv_run. apply select_Ok in Hx as [-> Hc]. apply scanned in Hx0 as (Hl & Hids & _).
  assert (fst <$> unuploaded count (content d1') = KeyID <$> ks) as Heq.
  { unfold unuploaded. fold (waiting (content d1')). rewrite fmap_take, <- Hlen, <- (length_fmap KeyID ks).
    apply sorted_take_lowest; [done|apply waiting_sorted| |].
    - intros id (k & -> & Hk)%list_elem_of_fmap. destruct (Hst k Hk) as [Hin _]. apply list_elem_of_fmap.
      exists (KeyID k, (Priv (pkPair k), false)). split; [done|]. by apply waiting_elem.
    - intros id ([i [p b]] & -> & [Hin Hb]%waiting_elem)%list_elem_of_fmap. cbn in *. subst b.
      destruct (Hlow i p Hin) as [?|Hlt]; [by left|right]. intros y (k & -> & Hk)%list_elem_of_fmap. by apply Hlt. }
  assert (length x0 = count) as Hcount.
  { rewrite Hl, <- (length_fmap fst), Heq, length_fmap. done. }
  rewrite Hcount, Nat.ltb_irrefl in Hr'. inv_run. congruence.
Qed.
End spec.

Section single.
Context `{CurveOps}.

Lemma removed_id_is_reused random random' d k d1 d2 k' d3 :
  wfRows (content d) → GenOnePreKey random d = (Ok k, d1) → RemovePreKey (KeyID k) d1 = (Ok tt, d2) →
  GenOnePreKey random' d2 = (Ok k', d3) → KeyID k' = KeyID k.
Proof.
  intros Hw Hg Hr Hg'. unfold GenOnePreKey in Hg. inv_run.
  apply getNextPreKeyID_Ok in Hx as [Hc ->]; [|done]. apply genOnePreKey_Ok in Hg as (-> & Hnone & _ & Hc1).
  apply update_Ok in Hr. cbn in Hr. assert (content d2 = content d) as Hd2.
  { rewrite Hc in Hnone, Hc1. rewrite Hr, Hc1. by apply delete_insert_id. }
  unfold GenOnePreKey in Hg'. inv_run.
  apply getNextPreKeyID_Ok in Hx as [_ ->]; [|by rewrite Hd2]. apply genOnePreKey_Ok in Hg' as (-> & _). cbn. by rewrite Hd2.
Qed.

(** One key for a retry receipt. It gets the id after the largest of the table and is
    stored as uploaded; when the largest id is 16777215, the last the table admits,
    no call succeeds any more; a call that fails changes nothing. Ids are not
    unique over time: removing the newest key makes the next one reuse its id. *)
Theorem GenOnePreKey_spec (random : list byte) (d d' : database (gmap Z (list byte * bool))) (r : outcome dbError PreKey) :
  wfRows (content d) → GenOnePreKey random d = (r, d') →
  (∀ k, r = Ok k →
     KeyID k = lastKeyID (content d) + 1 ∧ KeyID k < maxKeyID ∧ derived k ∧
     content d' = <[KeyID k := (Priv (pkPair k), true)]> (content d) ∧
     ∀ d1 random' k' d2, RemovePreKey (KeyID k) d' = (Ok tt, d1) → GenOnePreKey random' d1 = (Ok k', d2) → KeyID k' = KeyID k) ∧
  (lastKeyID (content d) = maxKeyID - 1 → ∀ k, r ≠ Ok k) ∧
  ((∀ k, r ≠ Ok k) → content d' = content d).
Proof.
  intros Hw Hr.
  assert (∀ k, r = Ok k → KeyID k = lastKeyID (content d) + 1 ∧ KeyID k < maxKeyID ∧ derived k ∧
     content d' = <[KeyID k := (Priv (pkPair k), true)]> (content d)) as Hk.
  { intros k ->. unfold GenOnePreKey in Hr. inv_run. apply getNextPreKeyID_Ok in Hx as [Hc ->]; [|done].
    apply genOnePreKey_Ok in Hr as (-> & _ & [? _] & Hc'). rewrite Hc' , Hc. cbn in *. split_and!; (done || lia). }
  split_and!.
  - intros k ->. destruct (Hk k eq_refl) as (? & ? & ? & ?). split_and!; [done..|]. intros d1 random' k' d2 Hd1 Hd2.
    by eapply removed_id_is_reused.
  - intros Hmax k ->. destruct (Hk k eq_refl) as (? & ? & _). lia.
  - intros Hno. unfold GenOnePreKey, getNextPreKeyID, genOnePreKey, mbind, stateM_bind, select, stmt in Hr.
    destruct (default false (head (failing d))); cbn in Hr; [by simplify_eq|].
    destruct (default false (head (tail (failing d)))); cbn in Hr; [by simplify_eq|].
    destruct (insertPreKey _ _ _ _) as [[[] t]| | |]; cbn in Hr; simplify_eq; try done.
    exfalso. injection Hr as <- _. by eapply Hno.
Qed.
End single.

(** ** Marking *)

Lemma markUploaded_lookup id t i :
  markUploaded id t !! i = (λ row, if decide (i ≤ id) then (row.1, true) else row) <$> t !! i.
Proof. unfold markUploaded. rewrite map_lookup_imap. by destruct (t !! i). Qed.

Section toy.
#[local] Instance toyCurve : CurveOps := {| ScalarBaseMult := @rev byte; CalculateSignature _ m := m |}.
Definition toyRandom (i : nat) : list byte := replicate 32 (z2b (Z.of_nat i)).
Definition toyPreKeys : database (gmap Z (list byte * bool)) :=
  mkDatabase {[7 := (replicate 32 x01, false); 9 := (replicate 32 x02, true)]} [].

Lemma toyPreKeys_wf : wfRows (content toyPreKeys).
Proof.
  cbn. intros id row. rewrite lookup_insert_Some, lookup_singleton_Some. unfold wfRow, maxKeyID.
  intros [[<- <-]|(_ & <- & <-)]; cbn; lia.
Qed.

Lemma GetOrGenPreKeys_spec_witness :
  let '(r, d') := GetOrGenPreKeys toyRandom 3 toyPreKeys in
  (KeyID <$> default [] (match r with Ok ks => Some ks | _ => None end)) = [7; 10; 11] ∧
  grows (content toyPreKeys) (content d') ∧
  ∀ ks, r = Ok ks →
    length ks = 3%nat ∧ StronglySorted Z.lt (KeyID <$> ks) ∧
    (∀ k, k ∈ ks → content d' !! KeyID k = Some (Priv (pkPair k), false) ∧ derived k) ∧
    (∀ k, k ∈ ks → is_Some (content toyPreKeys !! KeyID k) ∨ ∀ id, is_Some (content toyPreKeys !! id) → id < KeyID k) ∧
    (∀ id p, content d' !! id = Some (p, false) → id ∈ KeyID <$> ks ∨ ∀ k, k ∈ ks → KeyID k < id).
Proof.
  destruct (GetOrGenPreKeys toyRandom 3 toyPreKeys) as [r d'] eqn:Hr. split.
  - vm_compute in Hr. injection Hr as <- <-. vm_compute. reflexivity.
  - apply (GetOrGenPreKeys_spec toyRandom 3 toyPreKeys d' r toyPreKeys_wf Hr).
Defined.

Lemma GenOnePreKey_spec_witness :
  ∃ k d', GenOnePreKey (toyRandom 0) toyPreKeys = (Ok k, d') ∧ KeyID k = 10 ∧
  ∀ d1 random' k' d2, RemovePreKey (KeyID k) d' = (Ok tt, d1) → GenOnePreKey random' d1 = (Ok k', d2) → KeyID k' = 10.
Proof.
  destruct (GenOnePreKey (toyRandom 0) toyPreKeys) as [r d'] eqn:Hr.
  pose proof (GenOnePreKey_spec (toyRandom 0) toyPreKeys d' r toyPreKeys_wf Hr) as [Hs _].
  destruct r as [k| | |]; [|exfalso; vm_compute in Hr; discriminate Hr..].
  assert (KeyID k = 10) as Hk by (vm_compute in Hr; injection Hr as <- _; reflexivity).
  exists k, d'. split; [reflexivity|]. split; [exact Hk|]. intros d1 random' k' d2 H1 H2.
  destruct (Hs k eq_refl) as (_ & _ & _ & _ & Hre). rewrite (Hre d1 random' k' d2 H1 H2). exact Hk.
Defined.
End toy.
