(* ===== verification/DeviceStore.v ===== *)
(** The device table (src/store/sqlstore/container.go) and the device that is kept in
    memory ([Device] of src/store/store.go): saving, loading and deleting; and the payload
    a client introduces itself with ([ClientPayload], src/store/clientpayload.go). *)
From Stdlib Require Import ZArith Lia.
From Stdlib Require Import Strings.Byte.
From stdpp Require Import prelude gmap strings list.
From S2P Require Import Prelude Strconv Jid Cbc LTHash Noise Handshake Sql PreKeys Proto.

#[local] Open Scope string_scope.

(** The signed identity of the device that the account's main device vouched for. *)
Record Account := mkAccount { aDetails : list byte; aSignature : list byte; aSignatureKey : list byte; aDeviceSignature : list byte }.

Record storeDevice := mkStoreDevice {
  NoiseKey : KeyPair; IdentityKey : KeyPair; SignedPreKey : PreKey; devRegistrationID : Z; AdvSecretKey : list byte;
  devID : option JID; devLID : JID; devAccount : option Account; Platform : string; devBusinessName : string; devPushName : string;
  FacebookUUID : list byte; LIDMigrationTimestamp : Z; CompanionMetaNonce : string;
  Initialized : bool; Deleted : bool
}.

(** A row, under the text of its JID. *)
Record storedDevice := mkStored {
  rowLID : sqlValue; rowRegistrationID : Z; rowNoise : list byte; rowIdentity : list byte; rowPreKey : list byte; rowPreKeyID : Z;
  rowPreKeySig : list byte; rowAdv : list byte; rowAccount : Account; rowPlatform : string; rowBusinessName : string; rowPushName : string;
  rowUUID : option (list byte); rowMigration : Z; rowNonce : string
}.

Inductive deviceStoreError := DeviceIDMustBeSet | DeviceDeleted | DeviceDB (e : dbError) | ScanFailed | InvalidKeyLength.

Definition nilUUID : list byte := replicate 16 x00.

(** What an update of a row that is there already keeps: all but six columns. *)
Definition updateRow (old new : storedDevice) : storedDevice :=
  mkStored (rowLID new) (rowRegistrationID old) (rowNoise old) (rowIdentity old) (rowPreKey old) (rowPreKeyID old) (rowPreKeySig old) (rowAdv old)
    (rowAccount old) (rowPlatform new) (rowBusinessName new) (rowPushName new) (rowUUID old) (rowMigration new) (rowNonce new).

Definition putDeviceRow (jid : string) (row : storedDevice) (t : gmap string storedDevice) : gmap string storedDevice :=
  <[jid := match t !! jid with Some old => updateRow old row | None => row end]> t.

Section container.
Context `{CurveOps}.
Abbreviation devices := (database (gmap string storedDevice)).
Abbreviation containerM := (stateM devices deviceStoreError).

(** [None]: a field is missing, which panics. *)
Definition rowOf (d : storeDevice) : option storedDevice :=
  account ← devAccount d; sig ← Signature (SignedPreKey d);
  Some (mkStored (Value (devLID d)) (devRegistrationID d) (Priv (NoiseKey d)) (Priv (IdentityKey d)) (Priv (pkPair (SignedPreKey d))) (KeyID (SignedPreKey d))
          sig (AdvSecretKey d) account (Platform d) (devBusinessName d) (devPushName d)
          (if decide (FacebookUUID d = nilUUID) then None else Some (FacebookUUID d)) (LIDMigrationTimestamp d) (CompanionMetaNonce d)).

Definition scanDevice (jid : string) (row : storedDevice) : outcome deviceStoreError storeDevice :=
  match Scan EmptyJID (SqlText jid), Scan EmptyJID (rowLID row) with
  | (id, None), (lid, None) =>
      if decide (length (rowNoise row) ≠ 32%nat ∨ length (rowIdentity row) ≠ 32%nat ∨ length (rowPreKey row) ≠ 32%nat ∨ length (rowPreKeySig row) ≠ 64%nat)
      then Err InvalidKeyLength
      else Ok (mkStoreDevice (NewKeyPairFromPrivateKey (rowNoise row)) (NewKeyPairFromPrivateKey (rowIdentity row))
                 (mkPreKey (NewKeyPairFromPrivateKey (rowPreKey row)) (rowPreKeyID row) (Some (rowPreKeySig row))) (rowRegistrationID row) (rowAdv row)
                 (Some id) lid (Some (rowAccount row)) (rowPlatform row) (rowBusinessName row) (rowPushName row) (default nilUUID (rowUUID row))
                 (rowMigration row) (rowNonce row) true false)
  | _, _ => Err ScanFailed
  end.

Definition onTable {A} (m : dbM (gmap string storedDevice) A) : containerM A := zoom id (λ d _, d) DeviceDB m.

Definition GetDevice (jid : JID) : containerM (option storeDevice) :=
  row ← onTable (select (λ t, pair (JIDString jid) <$> t !! JIDString jid));
  match row with Some (k, row) => d ← lift (scanDevice k row); mret (Some d) | None => mret None end.

(** [rows]: in the order in which the database gives them. *)
Definition GetAllDevices (rows : gmap string storedDevice → list (string * storedDevice)) : containerM (list storeDevice) :=
  l ← onTable (select rows);
  lift (foldr (λ r acc, d ← scanDevice r.1 r.2; ds ← acc; mret (d :: ds)) (Ok []) l).
(** [random]: for the keys, the registration number and the secret. *)
Record deviceRandom := mkRandom { rNoise : list byte; rIdentity : list byte; rPreKey : list byte; rRegistration : Z; rSecret : list byte }.
Definition NewDevice (r : deviceRandom) : storeDevice :=
  let identity := NewKeyPair (rIdentity r) in
  mkStoreDevice (NewKeyPair (rNoise r)) identity (CreateSignedPreKey identity (rPreKey r) 1) (rRegistration r) (rSecret r)
    None EmptyJID None "" "" "" nilUUID 0 "" false false.
Definition GetFirstDevice (rows : gmap string storedDevice → list (string * storedDevice)) (r : deviceRandom) : containerM storeDevice :=
  ds ← GetAllDevices rows; mret (match ds with d :: _ => d | [] => NewDevice r end).

(** ** The device in memory

    [PutDevice] initializes the stores of the device whether or not the row was written. *)
Abbreviation deviceM := (stateM (storeDevice * devices) deviceStoreError).
Definition inDatabase {A} (m : containerM A) : deviceM A := zoom snd (λ t s, (s.1, t)) id m.

Definition setInitialized (d : storeDevice) : storeDevice :=
  let 'mkStoreDevice nk ik spk rid adv id lid acc pf bn pn fb lm nonce _ del := d in mkStoreDevice nk ik spk rid adv id lid acc pf bn pn fb lm nonce true del.
Definition setDeleted (d : storeDevice) : storeDevice :=
  let 'mkStoreDevice nk ik spk rid adv _ _ acc pf bn pn fb lm nonce init _ := d in
  mkStoreDevice nk ik spk rid adv None EmptyJID acc pf bn pn fb lm nonce init true.

Definition PutDevice : deviceM unit := λ s,
  let d := s.1 in
  match devID d with
  | None => (Err DeviceIDMustBeSet, s)
  | Some id =>
      match rowOf d with
      | None => (Panic, s)
      | Some row =>
          let '(r, t) := onTable (update (putDeviceRow (JIDString id) row)) s.2 in (r, (setInitialized d, t))
      end
  end.
Definition DeleteDevice : deviceM unit := λ s,
  match devID s.1 with
  | None => (Err DeviceIDMustBeSet, s)
  | Some id => inDatabase (onTable (update (delete (JIDString id)))) s
  end.

(** The two are exclusive of each other. *)
Definition Save : deviceM unit := s ← get; if Deleted s.1 then throw DeviceDeleted else PutDevice.
Definition Delete : deviceM unit :=
  s ← get;
  if Deleted s.1 then mret tt
  else _ ← DeleteDevice; modify (λ s, (setDeleted s.1, s.2)).
End container.

(** * Properties *)

(** What a device must be like to come back from its row: its keys are pairs, it is
    paired, and its addresses have a text. *)
Record storable `{CurveOps} (d : storeDevice) (id : JID) (account : Account) (sig : list byte) : Prop := mkStorable {
  st_id : devID d = Some id;
  st_id_text : Scan EmptyJID (SqlText (JIDString id)) = (id, None);
  st_lid_text : Scan EmptyJID (Value (devLID d)) = (devLID d, None);
  st_account : devAccount d = Some account;
  st_sig : Signature (SignedPreKey d) = Some sig;
  st_sig_len : length sig = 64%nat;
  st_keys : Forall (λ k, length (Priv k) = 32%nat ∧ Pub k = ScalarBaseMult (Priv k)) [NoiseKey d; IdentityKey d; pkPair (SignedPreKey d)];
  st_live : Deleted d = false
}.

Lemma key_of_pair `{CurveOps} k : Pub k = ScalarBaseMult (Priv k) → NewKeyPairFromPrivateKey (Priv k) = k.
Proof. intros Hk. destruct k as [pub priv]. unfold NewKeyPairFromPrivateKey. cbn in *. by subst. Qed.

Lemma scan_row `{CurveOps} d id account sig row :
  storable d id account sig → rowOf d = Some row → scanDevice (JIDString id) row = Ok (setInitialized d).
Proof.
  intros [Hid Hidt Hlid Hacc Hsig Hsl Hkeys Hdel]. unfold rowOf. rewrite Hacc, Hsig. intros [= <-]. unfold scanDevice. cbn [rowLID].
  rewrite Hidt, Hlid. cbn [rowNoise rowIdentity rowPreKey rowPreKeySig rowPreKeyID].
  apply Forall_cons in Hkeys as [[Hn1 Hn2] Hkeys]. apply Forall_cons in Hkeys as [[Hi1 Hi2] Hkeys]. apply Forall_cons in Hkeys as [[Hp1 Hp2] _].
  rewrite decide_False by tauto. cbn [rowRegistrationID rowAdv rowAccount rowPlatform rowBusinessName rowPushName rowUUID rowMigration rowNonce].
  rewrite !key_of_pair by done. destruct d as [nk ik [kp kid ks] rid adv did lid acc pf bn pn fb lm nonce init del]. cbn in *. subst. do 2 f_equal.
  by case_decide.
Qed.

Lemma put_working `{CurveOps} d id account sig row (t : database (gmap string storedDevice)) :
  storable d id account sig → working t → rowOf d = Some row →
  ∃ t', Save (d, t) = (Ok tt, (setInitialized d, t')) ∧ working t' ∧ content t' = putDeviceRow (JIDString id) row (content t).
Proof.
  intros Hd Hw Hrow. destruct (stmt_working (λ t, Ok (tt, putDeviceRow (JIDString id) row t)) t tt _ Hw eq_refl) as [Hrun Hw'].
  eexists. split; [|split; [exact Hw'|done]]. unfold Save, mbind, stateM_bind. cbn. rewrite (st_live _ _ _ _ Hd). unfold PutDevice. cbn.
  rewrite (st_id _ _ _ _ Hd), Hrow. unfold onTable, zoom, update. cbn. by rewrite Hrun.
Qed.

(** A device that is saved is loaded again. Saving a paired device whose
    JID has no row yet, while the database works, succeeds, and loading it by its JID
    gives exactly the device: keys, account, addresses, names and counters. *)
Theorem saved_device_loads `{CurveOps} d id account sig (t : database (gmap string storedDevice))
    (Hd : storable d id account sig) (Hw : working t) (Hfresh : content t !! JIDString id = None) :
  ∃ d' t' t'', Save (d, t) = (Ok tt, (d', t')) ∧ d' = setInitialized d ∧ GetDevice id t' = (Ok (Some (setInitialized d)), t'').
Proof.
  assert (∃ row, rowOf d = Some row) as [row Hrow] by (unfold rowOf; rewrite (st_account _ _ _ _ Hd), (st_sig _ _ _ _ Hd); by eexists).
  destruct (put_working _ _ _ _ _ _ Hd Hw Hrow) as (t' & Hsave & Hw' & Hc). unfold putDeviceRow in Hc. rewrite Hfresh in Hc.
  destruct (stmt_working (λ t : gmap string storedDevice, Ok (pair (JIDString id) <$> t !! JIDString id, t)) t' (Some (JIDString id, row)) (content t') Hw')
    as [Hrun _]. { by rewrite Hc, lookup_insert_eq. }
  exists (setInitialized d), t'. eexists. split; [exact Hsave|]. split; [done|].
  unfold GetDevice, onTable, select, mbind, stateM_bind, zoom. cbn. rewrite Hrun. cbn. unfold lift. by rewrite (scan_row _ _ _ _ _ Hd Hrow).
Qed.

(** A device that is paired under a JID that has a row keeps that row's keys: it is
    another device that is loaded later. *)
Lemma saved_over_row `{CurveOps} d id account sig t old row :
  storable d id account sig → working t → content t !! JIDString id = Some old → rowOf d = Some row →
  ∃ d' t', Save (d, t) = (Ok tt, (d', t')) ∧ content t' !! JIDString id = Some (updateRow old row).
Proof.
  intros Hd Hw Hold Hrow. destruct (put_working _ _ _ _ _ _ Hd Hw Hrow) as (t' & Hsave & _ & Hc). exists (setInitialized d), t'.
  split; [exact Hsave|]. rewrite Hc. unfold putDeviceRow. rewrite Hold. apply lookup_insert_eq.
Qed.

(** ** A run *)

#[local] Existing Instance toyCurve.
Definition toyPair (b : byte) : KeyPair := NewKeyPairFromPrivateKey (replicate 32 b).
Definition toyAccount : Account := mkAccount [x01] (replicate 64 x02) (replicate 32 x03) (replicate 64 x04).
Definition toyID : JID := Build_JID "9" 0 1 0 DefaultUserServer.
Definition toyLID : JID := Build_JID "99" 0 1 0 HiddenUserServer.
Definition toyDevice : storeDevice :=
  mkStoreDevice (toyPair x01) (toyPair x02) (mkPreKey (toyPair x03) 1 (Some (replicate 64 x05))) 7 [x06]
    (Some toyID) toyLID (Some toyAccount) "android" "" "Me" nilUUID 0 "n" false false.
Lemma saved_device_loads_witness :
  ∃ t' t'', Save (toyDevice, mkDatabase ∅ []) = (Ok tt, (setInitialized toyDevice, t'))
    ∧ GetDevice toyID t' = (Ok (Some (setInitialized toyDevice)), t'').
Proof.
  destruct (saved_device_loads toyDevice toyID toyAccount (replicate 64 x05) (mkDatabase ∅ [])
              ltac:(split; [reflexivity|vm_compute; reflexivity|vm_compute; reflexivity|reflexivity|reflexivity|reflexivity|by repeat constructor|reflexivity])
              ltac:(by constructor) eq_refl) as (d' & t' & t'' & Hs & -> & Hg).
  exists t', t''. split; [exact Hs|exact Hg].
Defined.

(** * The client payload

    The message a client introduces itself with (src/store/clientpayload.go): the version of
    WhatsApp web, what a device tells when it registers, and what when it logs in. *)
Module ClientPayload.

(** ** Versions *)

Record WAVersionContainer := mkVersion { primary : Z; secondary : Z; tertiary : Z }.
#[global] Instance version_eq_dec : EqDecision WAVersionContainer.
Proof. solve_decision. Defined.

Inductive versionError := NotThreeParts | PartNotANumber (index : nat).
Definition ParseVersion (version : string) : outcome versionError WAVersionContainer :=
  match Split x2e version with
  | [p1; p2; p3] =>
      part1 ← map_err (λ _, PartNotANumber 0) (Atoi p1);
      part2 ← map_err (λ _, PartNotANumber 1) (Atoi p2);
      part3 ← map_err (λ _, PartNotANumber 2) (Atoi p3);
      Ok (mkVersion (u32 part1) (u32 part2) (u32 part3))
  | _ => Err NotThreeParts
  end.
Definition LessThan (vc other : WAVersionContainer) : bool :=
  (primary vc <? primary other)%Z
  || ((primary vc =? primary other)%Z && (secondary vc <? secondary other)%Z)
  || ((primary vc =? primary other)%Z && (secondary vc =? secondary other)%Z && (tertiary vc <? tertiary other)%Z).
Definition IsZero (vc : WAVersionContainer) : bool := bool_decide (vc = mkVersion 0 0 0).
Definition versionString (vc : WAVersionContainer) : string :=
  Itoa (primary vc) +:+ "." +:+ Itoa (secondary vc) +:+ "." +:+ Itoa (tertiary vc).
Definition ProtoAppVersion (vc : WAVersionContainer) : proto :=
  PMsg [("Primary", PInt (primary vc)); ("Secondary", PInt (secondary vc)); ("Tertiary", PInt (tertiary vc))].

(** ** What all devices tell

    The global variables of the package. *)
Record payloads := mkPayloads { waVersion : WAVersionContainer; BaseClientPayload : proto; DeviceProps : proto }.

Definition initialVersion : WAVersionContainer := mkVersion 2 3000 1049558099.
Definition initialBase : proto :=
  PMsg [("UserAgent", PMsg
           [("Platform", PInt 14); ("ReleaseChannel", PInt 0); ("AppVersion", ProtoAppVersion initialVersion); ("Mcc", PString "000"); ("Mnc", PString "000");
            ("OsVersion", PString "0.1"); ("Manufacturer", PString ""); ("Device", PString "Desktop"); ("OsBuildNumber", PString "0.1");
            ("LocaleLanguageIso6391", PString "en"); ("LocaleCountryIso31661Alpha2", PString "US")]);
        ("WebInfo", PMsg [("WebSubPlatform", PInt 0)]); ("ConnectType", PInt 1); ("ConnectReason", PInt 1)].
Definition initialProps : proto :=
  PMsg [("Os", PString "whatsmeow"); ("Version", ProtoAppVersion (mkVersion 0 1 0));
        ("HistorySyncConfig", PMsg
           ([("StorageQuotaMb", PInt 10240)]
            ++ ((λ k, (k, PBool true)) <$> ["InlineInitialPayloadInE2EeMsg"; "SupportCallLogHistory"; "SupportBotUserAgentChatHistory"; "SupportCagReactionsAndPolls";
                 "SupportBizHostedMsg"; "SupportRecentSyncChunkMessageCountTuning"; "SupportHostedGroupMsg"; "SupportFbidBotChatHistory"; "SupportMessageAssociation";
                 "SupportGroupHistory"; "SupportManusHistory"; "SupportHatchHistory"; "SupportInlineContacts"])
            ++ [("ThumbnailSyncDaysLimit", PInt 60)])%list);
        ("PlatformType", PInt 0); ("RequireFullSync", PBool false)].
Definition initialPayloads : payloads := mkPayloads initialVersion initialBase initialProps.

Definition setUserAgent (f : proto → proto) (base : proto) : proto := setField "UserAgent" (f (default (PMsg []) (field "UserAgent" base))) base.
Definition SetWAVersion (version : WAVersionContainer) (g : payloads) : payloads :=
  if IsZero version then g
  else mkPayloads version (setUserAgent (setField "AppVersion" (ProtoAppVersion version)) (BaseClientPayload g)) (DeviceProps g).
Definition SetOSInfo (name : string) (version : WAVersionContainer) (g : payloads) : payloads :=
  let text := PString (versionString version) in
  mkPayloads (waVersion g) (setUserAgent (λ a, setField "OsBuildNumber" text (setField "OsVersion" text a)) (BaseClientPayload g))
    (setField "Version" (ProtoAppVersion version) (setField "Os" (PString name) (DeviceProps g))).

(** ** The payload of a device *)

Section payload.
Context `{ProtoCodec} `{CurveOps}.
Context (md5 : list byte → list byte).

Definition versionHash (vc : WAVersionContainer) : list byte := md5 (s2b (versionString vc)).
Definition setFields (fields : list (string * proto)) (m : proto) : proto := foldl (λ m f, setField f.1 f.2 m) m fields.
(** A signed prekey has a signature; without one the conversion to a slice panics. *)
Definition getRegistrationPayload (g : payloads) (d : storeDevice) : option proto :=
  signature ← Signature (SignedPreKey d);
  Some (setFields
    [("DevicePairingData", PMsg
       [("ERegid", PBytes (be_bytes 4 (devRegistrationID d))); ("EKeytype", PBytes [DjbType]); ("EIdent", PBytes (Pub (IdentityKey d)));
        ("ESkeyID", PBytes (tail (be_bytes 4 (KeyID (SignedPreKey d))))); ("ESkeyVal", PBytes (Pub (pkPair (SignedPreKey d)))); ("ESkeySig", PBytes signature);
        ("BuildHash", PBytes (versionHash (waVersion g))); ("DeviceProps", PBytes (default [] (Marshal (DeviceProps g))))]);
     ("Passive", PBool false); ("Pull", PBool false)] (BaseClientPayload g)).
Definition getLoginPayload (g : payloads) (id : JID) : proto :=
  let payload := setFields [("Username", PInt (UserInt id)); ("Device", PInt (Device id)); ("Passive", PBool true); ("Pull", PBool true); ("LidDbMigrated", PBool true)]
                   (BaseClientPayload g) in
  if has "Lc" payload then payload else setField "Lc" (PInt 1) payload.
Definition GetClientPayload (g : payloads) (d : storeDevice) : outcome Empty_set proto :=
  match devID d with
  | Some id => if decide (id = EmptyJID) then Panic else Ok (getLoginPayload g id)
  | None => match getRegistrationPayload g d with Some p => Ok p | None => Panic end
  end.
End payload.

(** * Properties *)

(** The text of a version is read back as the version. *)
Lemma ParseVersion_versionString (vc : WAVersionContainer) :
  (0 ≤ primary vc < 2 ^ 32)%Z → (0 ≤ secondary vc < 2 ^ 32)%Z → (0 ≤ tertiary vc < 2 ^ 32)%Z → ParseVersion (versionString vc) = Ok vc.
Proof.
  destruct vc as [p s t]. cbn [primary secondary tertiary]. intros Hp Hs Ht.
  assert (∀ n, (0 ≤ n < 2 ^ 32)%Z → x2e ∉ s2b (Itoa n) ∧ Atoi (Itoa n) = Ok n) as Hn.
  { intros n Hn. split; [|apply ParseInt_FormatInt; lia]. unfold Itoa, FormatInt. destruct (Z.ltb_spec n 0); [lia|].
    rewrite s2b_b2s. by apply digits_no_sep. }
  destruct (Hn p Hp) as [Hp1 Hp2], (Hn s Hs) as [Hs1 Hs2], (Hn t Ht) as [Ht1 Ht2].
  unfold ParseVersion, versionString. cbn [primary secondary tertiary].
  rewrite Split_app, Split_app, Split_none by done. rewrite Hp2, Hs2, Ht2. cbn [map_err mbind outcome_bind].
  unfold u32. by rewrite !Z.mod_small by lia.
Qed.

(** [LessThan] orders versions strictly. *)
Lemma LessThan_spec v w : LessThan v w = true ↔
  (primary v < primary w)%Z ∨ (primary v = primary w ∧ ((secondary v < secondary w)%Z ∨ (secondary v = secondary w ∧ (tertiary v < tertiary w)%Z))).
Proof. unfold LessThan. rewrite !orb_true_iff, !andb_true_iff, !Z.ltb_lt, !Z.eqb_eq. lia. Qed.
Lemma LessThan_strict v w : LessThan v w = true → LessThan w v = false.
Proof. intros Hl. apply not_true_iff_false. rewrite LessThan_spec in *. lia. Qed.
Lemma LessThan_trans u v w : LessThan u v = true → LessThan v w = true → LessThan u w = true.
Proof. rewrite !LessThan_spec. lia. Qed.
End ClientPayload.
