(* ===== verification/PreKeyUpload.v ===== *)
(** Prekeys on the wire (src/prekeys.go): the nodes they are sent and received as,
    and the upload of a batch. *)
From Stdlib Require Import ZArith Lia.
From Stdlib Require Import Strings.Byte Sorting.Sorted.
From stdpp Require Import prelude gmap strings list fin_maps.
From S2P Require Import Prelude Strconv Jid Node Attrs Requests Handshake Sql PreKeys.

#[local] Open Scope string_scope.

Definition WantedPreKeyCount : Z := 50.
Definition MinPreKeyCount : Z := 5.

(** ** Nodes *)

Definition preKeyToNode (key : PreKey) : node :=
  let keyID := be_bytes 4 (KeyID key) in
  let children :=
    [mkNode "id" [] (VBytes (drop 1 keyID)); mkNode "value" [] (VBytes (Pub (pkPair key)))] in
  match Signature key with
  | None => mkNode "key" [] (VNodes children)
  | Some sig => mkNode "skey" [] (VNodes (children ++ [mkNode "signature" [] (VBytes sig)])%list)
  end.

Definition preKeysToNodes (prekeys : list PreKey) : list node := preKeyToNode <$> prekeys.

Inductive preKeyError :=
| MissingTag (tag : string)
| UnexpectedContent (tag : string) (typ : string)
| UnexpectedLength (tag : string) (len : nat)
| ErrorNode (n : node)
| InvalidRegistrationID
| InvalidIdentityKey
| InvalidPreKey (e : preKeyError)
| InvalidSignedPreKey (e : preKeyError).

(** One of the three children of a key: its tag, its content, the length. *)
Definition bytesChild (n : node) (tag : string) (len : nat) : outcome preKeyError (list byte) :=
  let c := GetChildByTag n [tag] in
  if decide (Tag c ≠ tag) then Err (MissingTag tag)
  else match Content c with
       | VBytes b => if decide (length b = len) then Ok b else Err (UnexpectedLength tag (length b))
       | v => Err (UnexpectedContent tag (typeName v))
       end.

(** The received key has no private part. *)
Record receivedKey := mkReceived { rKeyID : Z; rPub : list byte; rSignature : option (list byte) }.

Definition nodeToPreKey (n : node) : outcome preKeyError receivedKey :=
  id ← bytesChild n "id" 3;
  pub ← bytesChild n "value" 32;
  if decide (Tag n = "skey") then
    sig ← bytesChild n "signature" 64;
    Ok (mkReceived (be_value (x00 :: id)) pub (Some sig))
  else Ok (mkReceived (be_value (x00 :: id)) pub None).

(** [prekey.NewBundle]. *)
Record Bundle := mkBundle {
  bRegistrationID : Z;
  bDeviceID : Z;
  bPreKey : option (Z * list byte);
  bSignedPreKeyID : Z;
  bSignedPreKey : list byte;
  bSignedPreKeySignature : list byte;
  bIdentityKey : list byte
}.

Definition contentOf (n : node) (len : nat) : option (list byte) :=
  match Content n with VBytes b => if decide (length b = len) then Some b else None | _ => None end.

(** The signature of the signed prekey is dereferenced without a check. *)
Definition nodeToPreKeyBundle (deviceID : Z) (n : node) : outcome preKeyError Bundle :=
  let '(errorNode, ok) := GetOptionalChildByTag n ["error"] in
  if ok && bool_decide (Tag errorNode = "error") then Err (ErrorNode errorNode)
  else
    match contentOf (GetChildByTag n ["registration"]) 4 with
    | None => Err InvalidRegistrationID
    | Some registrationBytes =>
        let keysNode := match GetOptionalChildByTag n ["keys"] with (k, true) => k | (_, false) => n end in
        match contentOf (GetChildByTag keysNode ["identity"]) 32 with
        | None => Err InvalidIdentityKey
        | Some identityKey =>
            let '(preKeyNode, ok) := GetOptionalChildByTag keysNode ["key"] in
            preKey ← (if ok then k ← map_err InvalidPreKey (nodeToPreKey preKeyNode); Ok (Some (rKeyID k, rPub k)) else Ok None);
            signed ← map_err InvalidSignedPreKey (nodeToPreKey (GetChildByTag keysNode ["skey"]));
            match rSignature signed with
            | None => Panic
            | Some sig =>
                Ok (mkBundle (be_value registrationBytes) deviceID preKey (rKeyID signed) (rPub signed) sig identityKey)
            end
        end
    end.

Inductive fetchError := RequestFailed (e : iqError) | EmptyResponse.

(** The answers for the users of a response, the last one for a repeated user: a bundle
    or an error. *)
Definition preKeyResp := (Bundle + preKeyError)%type.

Fixpoint respLoop (children : list node) (respData : gmap JID preKeyResp) : outcome fetchError (gmap JID preKeyResp) :=
  match children with
  | [] => Ok respData
  | child :: children =>
      if decide (Tag child ≠ "user") then respLoop children respData
      else
        let jid := (attrJID "jid" (AttrGetter_of child)).1 in
        match nodeToPreKeyBundle (Device jid) child with
        | Ok bundle => respLoop children (<[jid := inl bundle]> respData)
        | Err e => respLoop children (<[jid := inr e]> respData)
        | Panic => Panic
        | OutOfFuel => OutOfFuel
        end
  end.

Definition preKeyRequests (users : list JID) : list node :=
  (λ user, mkNode "user" [("jid", VJID user); ("reason", VString "identity")] VNil) <$> users.

Section fetch.
Context (answer : infoQuery → outcome iqError node).

Definition fetchPreKeys (users : list JID) : outcome fetchError (gmap JID preKeyResp) :=
  resp ← map_err RequestFailed
    (answer (mkInfoQuery "encrypt" "get" ServerJID EmptyJID "" "" (VNodes [mkNode "key" [] (VNodes (preKeyRequests users))])));
  match GetChildren resp with
  | [] => Err EmptyResponse
  | _ => respLoop (GetChildren (GetChildByTag resp ["list"])) ∅
  end.

(** The bundles by address. A user that the server left out has neither a bundle nor an
    error: it is in the map with a nil bundle. *)
Definition keepBundles (respData : gmap JID preKeyResp) (retryDevices : list JID) : gmap JID (option Bundle) :=
  foldl (λ bundles jid, match respData !! jid with
                        | None => <[jid := None]> bundles
                        | Some (inl bundle) => <[jid := Some bundle]> bundles
                        | Some (inr _) => bundles
                        end) ∅ retryDevices.
Definition fetchPreKeysNoError (retryDevices : list JID) : outcome fetchError (gmap JID (option Bundle)) :=
  match retryDevices with
  | [] => Ok ∅
  | _ =>
      match fetchPreKeys retryDevices with
      | Ok respData => Ok (keepBundles respData retryDevices)
      | Err _ => Ok ∅
      | Panic => Panic
      | OutOfFuel => OutOfFuel
      end
  end.
End fetch.

(** [getServerPreKeyCount]: the value is used whether or not there was an error. *)
Definition getServerPreKeyCount (resp : option node) : Z :=
  match resp with
  | None => 0
  | Some resp => (attrInt "value" (AttrGetter_of (GetChildByTag resp ["count"]))).1
  end.

(** ** Upload *)

Section upload.
Context `{CurveOps}.

Record uploader := mkUploader {
  preKeys : database (gmap Z (list byte * bool));
  lastPreKeyUpload : option Z;
  PreKeysUploaded : bool
}.

Inductive uploadResult :=
| UploadSkipped                            (* shadow client, or turned off *)
| UploadCancelled
| NoKeys
| UploadFailed (ks : list PreKey) | MarkFailed (ks : list PreKey) | UploadDone (ks : list PreKey).

Definition uploadContent (registrationID : Z) (identityPub : list byte) (signed : PreKey) (ks : list PreKey) : list node :=
  [mkNode "registration" [] (VBytes (be_bytes 4 registrationID)); mkNode "type" [] (VBytes [DjbType]);
   mkNode "identity" [] (VBytes identityPub); mkNode "list" [] (VNodes (preKeysToNodes ks)); preKeyToNode signed].

(** [countResp] answers the request for the count, [sent] tells whether the upload
    was answered with a result; [now] and [after] are the times the clock shows. *)
Definition uploadPreKeys (skip : bool) (initialUpload : bool) (random : nat → list byte) (now after : Z)
    (countResp : option node) (sent : bool) (u : uploader) : outcome Empty_set uploadResult * uploader :=
  if skip then (Ok UploadSkipped, u)
  else if match lastPreKeyUpload u with Some t => (now <? t + 600 * 1000000000)%Z | None => false end &&
          (WantedPreKeyCount <=? getServerPreKeyCount countResp)%Z
  then (Ok UploadCancelled, u)
  else
    let wantedCount := if initialUpload then 812%Z else WantedPreKeyCount in
    let '(r, db) := GetOrGenPreKeys random (Z.to_nat wantedCount) (preKeys u) in
    let u := mkUploader db (lastPreKeyUpload u) (PreKeysUploaded u) in
    match r with
    | Ok ks =>
        if negb sent then (Ok (UploadFailed ks), u)
        else
          match last ks with
          | None => (Panic, u)
          | Some k =>
              let '(r, db) := MarkPreKeysAsUploaded (KeyID k) db in
              match r with
              | Ok _ => (Ok (UploadDone ks), mkUploader db (Some after) true)
              | _ => (Ok (MarkFailed ks), mkUploader db (lastPreKeyUpload u) (PreKeysUploaded u))
              end
          end
    | _ => (Ok NoKeys, u)
    end.
End upload.

(** ** What the nodes carry *)

Definition wireKey (k : PreKey) : Prop :=
  (0 ≤ KeyID k < maxKeyID)%Z ∧ length (Pub (pkPair k)) = 32 ∧ ∀ sig, Signature k = Some sig → length sig = 64.

Lemma keyID_roundtrip id : (0 ≤ id < maxKeyID)%Z → be_value (x00 :: drop 1 (be_bytes 4 id)) = id.
Proof.
  intros Hid. change (drop 1 (be_bytes 4 id)) with (be_bytes 3 id).
  change (be_value (x00 :: be_bytes 3 id)) with (be_value (be_bytes 3 id)).
  rewrite be_value_be_bytes. apply Z.mod_small. exact Hid.
Qed.

Lemma bytesChild_ok n tag b len :
  firstChild tag (GetChildren n) = Some (mkNode tag [] (VBytes b)) → length b = len → bytesChild n tag len = Ok b.
Proof.
  intros Hf <-. unfold bytesChild, GetChildByTag. cbn. rewrite Hf. cbn. by rewrite decide_False, decide_True by tauto.
Qed.

Lemma nodeToPreKey_preKeyToNode k :
  wireKey k → nodeToPreKey (preKeyToNode k) = Ok (mkReceived (KeyID k) (Pub (pkPair k)) (Signature k)).
Proof.
  intros (Hid & Hpub & Hsig). unfold nodeToPreKey.
  rewrite (bytesChild_ok _ "id" (drop 1 (be_bytes 4 (KeyID k)))), (bytesChild_ok _ "value" (Pub (pkPair k)))
    by (done || by unfold preKeyToNode; destruct (Signature k)).
  cbn -[be_value be_bytes drop bytesChild preKeyToNode]. rewrite (keyID_roundtrip _ Hid).
  destruct (Signature k) as [sig|] eqn:Hs.
  - rewrite decide_True by (unfold preKeyToNode; by rewrite Hs).
    rewrite (bytesChild_ok _ "signature" sig); [done| |by apply Hsig]. unfold preKeyToNode. by rewrite Hs.
  - rewrite decide_False; [done|]. unfold preKeyToNode. by rewrite Hs.
Qed.

(** The answer for a user whose device uploaded these keys. *)
Definition bundleNode (attrs : list (string * value)) (registrationID : Z) (identityPub : list byte)
    (preKey : option PreKey) (signed : PreKey) : node :=
  mkNode "user" attrs (VNodes
    ([mkNode "registration" [] (VBytes (be_bytes 4 registrationID)); mkNode "type" [] (VBytes [DjbType]);
      mkNode "identity" [] (VBytes identityPub)] ++
     match preKey with Some k => [preKeyToNode k] | None => [] end ++ [preKeyToNode signed])%list).

(** What one client uploads another one gets. Out of the nodes of an upload, handed on
    by the server for a user, the receiver rebuilds exactly the registration id, the
    identity key, the prekey with its id (or none) and the signed prekey with its id
    and signature. *)
Theorem bundle_roundtrip (attrs : list (string * value)) (registrationID deviceID : Z) (identityPub : list byte)
    (preKey : option PreKey) (signed : PreKey) (sig : list byte) :
  (0 ≤ registrationID < 2 ^ 32)%Z → length identityPub = 32 →
  (∀ k, preKey = Some k → wireKey k ∧ Signature k = None) → wireKey signed → Signature signed = Some sig →
  nodeToPreKeyBundle deviceID (bundleNode attrs registrationID identityPub preKey signed) =
  Ok (mkBundle registrationID deviceID ((λ k, (KeyID k, Pub (pkPair k))) <$> preKey)
        (KeyID signed) (Pub (pkPair signed)) sig identityPub).
Proof.
  intros Hreg Hid Hpre Hsigned Hsig. set (n := bundleNode _ _ _ _ _).
  assert (Tag (preKeyToNode signed) = "skey") as Htag by (unfold preKeyToNode; by rewrite Hsig).
  assert (∀ k, preKey = Some k → Tag (preKeyToNode k) = "key") as Hktag.
  { intros k Hk. destruct (Hpre k Hk) as [_ Hno]. unfold preKeyToNode. by rewrite Hno. }
  assert (firstChild "error" (GetChildren n) = None ∧ firstChild "keys" (GetChildren n) = None ∧
    firstChild "registration" (GetChildren n) = Some (mkNode "registration" [] (VBytes (be_bytes 4 registrationID))) ∧
    firstChild "identity" (GetChildren n) = Some (mkNode "identity" [] (VBytes identityPub)) ∧
    firstChild "key" (GetChildren n) = preKeyToNode <$> preKey ∧
    firstChild "skey" (GetChildren n) = Some (preKeyToNode signed)) as (He & Hks & Hr & Hi & Hk & Hs).
  { subst n. destruct preKey as [k|]; cbn -[preKeyToNode be_bytes];
      rewrite ?(Hktag k eq_refl), ?Htag; cbn -[preKeyToNode be_bytes]; split_and!; reflexivity. }
  unfold nodeToPreKeyBundle, GetChildByTag. cbn -[be_bytes be_value nodeToPreKey n].
  rewrite He, Hks, Hr. cbn -[be_bytes be_value nodeToPreKey n].
  unfold contentOf at 1. cbn -[be_bytes be_value nodeToPreKey n].
  rewrite decide_True by apply length_be_bytes. cbn -[be_bytes be_value nodeToPreKey n]. rewrite Hi.
  unfold contentOf. cbn -[be_bytes be_value nodeToPreKey n]. rewrite decide_True by exact Hid.
  rewrite Hk, Hs. rewrite (be_value_be_bytes 4 registrationID), Z.mod_small by done.
  destruct preKey as [k|]; cbn -[nodeToPreKey n].
  - destruct (Hpre k eq_refl) as [Hwk Hno]. rewrite !nodeToPreKey_preKeyToNode by done. cbn. by rewrite Hsig.
  - rewrite nodeToPreKey_preKeyToNode by done. cbn. by rewrite Hsig.
Qed.

Lemma bundle_roundtrip_witness :
  let k := mkPreKey (mkKeyPair (replicate 32 x01) []) 70000 None in
  let s := mkPreKey (mkKeyPair (replicate 32 x02) []) 1 (Some (replicate 64 x03)) in
  nodeToPreKeyBundle 3 (bundleNode [] 16777217 (replicate 32 x04) (Some k) s) =
  Ok (mkBundle 16777217 3 (Some (70000%Z, replicate 32 x01)) 1 (replicate 32 x02) (replicate 64 x03) (replicate 32 x04)).
Proof.
  intros k s. apply (bundle_roundtrip [] 16777217 3 (replicate 32 x04) (Some k) s (replicate 64 x03)).
  - lia.
  - reflexivity.
  - intros k' [= <-]. split; [|reflexivity]. split; [cbn; unfold maxKeyID; lia|]. split; [reflexivity|discriminate].
  - split; [cbn; unfold maxKeyID; lia|]. split; [reflexivity|]. intros sig [= <-]. reflexivity.
  - reflexivity.
Defined.

(** A user node without a signed prekey but with the children of a key crashes the
    receiver: the missing child is read as the node itself, which is no skey, and the
    signature it does not have is dereferenced. *)
Theorem bundle_without_skey_panics (deviceID : Z) (reg identityPub id value : list byte) :
  length reg = 4 → length identityPub = 32 → length id = 3 → length value = 32 →
  nodeToPreKeyBundle deviceID
    (mkNode "user" [] (VNodes [mkNode "registration" [] (VBytes reg); mkNode "identity" [] (VBytes identityPub);
                               mkNode "id" [] (VBytes id); mkNode "value" [] (VBytes value)])) = Panic.
Proof.
  intros Hr Hi Hid Hv. set (n := mkNode _ _ _).
  assert (firstChild "error" (GetChildren n) = None ∧ firstChild "keys" (GetChildren n) = None ∧
    firstChild "registration" (GetChildren n) = Some (mkNode "registration" [] (VBytes reg)) ∧
    firstChild "identity" (GetChildren n) = Some (mkNode "identity" [] (VBytes identityPub)) ∧
    firstChild "key" (GetChildren n) = None ∧ firstChild "skey" (GetChildren n) = None) as (He & Hks & Hr' & Hi' & Hk & Hs)
    by (split_and!; reflexivity).
  unfold nodeToPreKeyBundle, GetChildByTag, contentOf. cbn -[be_value nodeToPreKey n].
  rewrite He, Hks, Hr'. cbn -[be_value nodeToPreKey n]. rewrite decide_True by exact Hr.
  rewrite Hi'. cbn -[be_value nodeToPreKey n]. rewrite decide_True by exact Hi. rewrite Hk, Hs. unfold nodeToPreKey.
  rewrite (bytesChild_ok _ "id" id), (bytesChild_ok _ "value" value) by done. done.
Qed.

(** ** What an upload does to the table *)

Section theory.
Context `{CurveOps}.

Definition wanted (initialUpload : bool) : nat := Z.to_nat (if initialUpload then 812 else WantedPreKeyCount).

Lemma last_sorted (l : list PreKey) k : last l = Some k → StronglySorted Z.lt (KeyID <$> l) →
  k ∈ l ∧ ∀ k', k' ∈ l → (KeyID k' ≤ KeyID k)%Z.
Proof.
  intros Hl Hs. apply last_Some in Hl as [l' ->]. split; [apply elem_of_app; right; by apply list_elem_of_singleton|].
  rewrite fmap_app in Hs. intros k' [Hk|Hk%list_elem_of_singleton]%elem_of_app; [|subst; lia].
  assert (KeyID k' < KeyID k)%Z; [|lia].
  eapply (StronglySorted_split Z.lt (length (KeyID <$> l')) ((KeyID <$> l') ++ (KeyID <$> [k]))%list); [done| |].
  - rewrite take_app_length. apply list_elem_of_fmap. by exists k'.
  - rewrite drop_app_length. by left.
Qed.

(** Marking up to the last of the returned keys marks those keys and no others. *)
Lemma mark_exactly random count d ks d1 k id :
  wfRows (content d) → GetOrGenPreKeys random count d = (Ok ks, d1) → last ks = Some k →
  (id ∉ KeyID <$> ks → markUploaded (KeyID k) (content d1) !! id = content d !! id) ∧
  (∀ k', k' ∈ ks → markUploaded (KeyID k) (content d1) !! KeyID k' = Some (Priv (pkPair k'), true)).
Proof.
  intros Hw Hr Hl. pose proof (GetOrGenPreKeys_grows random count d) as [Hsub _]. rewrite Hr in Hsub. cbn in Hsub.
  apply GetOrGenPreKeys_Ok in Hr as (_ & Hsort & Hst & _ & Hlow & Hnew); [|done].
  destruct (last_sorted ks k Hl Hsort) as [Hk Hmax]. split.
  - intros Hid. rewrite markUploaded_lookup. destruct (content d1 !! id) as [[p b]|] eqn:Hrow.
    + destruct (Hnew id) as [Heq|?]; [by eexists| |done]. rewrite <- Heq, Hrow. cbn. case_decide as Hle; [|done].
      destruct b; [done|]. destruct (Hlow id p Hrow) as [?|Hlt]; [done|]. specialize (Hlt k Hk). lia.
    + cbn. symmetry. by eapply lookup_weaken_None.
  - intros k' Hk'. rewrite markUploaded_lookup. destruct (Hst k' Hk') as [-> _]. cbn. by rewrite decide_True by by apply Hmax.
Qed.

(** C18: uploading prekeys never panics. After an upload that worked, exactly the keys that
    were sent are marked, at least fifty, and every other row is as before. After an
    upload that failed at any point no row has changed but for new keys that wait,
    and when the request had been made, the next attempt sends the same ids. *)
Theorem uploadPreKeys_exact (skip initialUpload : bool) (random : nat → list byte) (now after : Z)
    (countResp : option node) (sent : bool) (u u' : uploader) (r : outcome Empty_set uploadResult) :
  wfRows (content (preKeys u)) →
  uploadPreKeys skip initialUpload random now after countResp sent u = (r, u') →
  r ≠ Panic ∧
  (∀ ks, r = Ok (UploadDone ks) →
     length ks = wanted initialUpload ∧
     (∀ k, k ∈ ks → content (preKeys u') !! KeyID k = Some (Priv (pkPair k), true) ∧ derived k) ∧
     ∀ id, id ∉ KeyID <$> ks → content (preKeys u') !! id = content (preKeys u) !! id) ∧
  ((∀ ks, r ≠ Ok (UploadDone ks)) → grows (content (preKeys u)) (content (preKeys u'))) ∧
  (∀ ks random' ks' d, r = Ok (UploadFailed ks) ∨ r = Ok (MarkFailed ks) →
     GetOrGenPreKeys random' (wanted initialUpload) (preKeys u') = (Ok ks', d) → KeyID <$> ks' = KeyID <$> ks).
Proof.
  intros Hw. unfold uploadPreKeys. fold (wanted initialUpload).
  destruct skip; [intros [= <- <-]; split_and!; try done; naive_solver|].
  destruct (_ && _); [intros [= <- <-]; split_and!; try done; naive_solver|].
  pose proof (GetOrGenPreKeys_grows random (wanted initialUpload) (preKeys u)) as Hg.
  destruct (GetOrGenPreKeys random (wanted initialUpload) (preKeys u)) as [[ks| | |] db] eqn:Hr; cbn in Hg.
  2-4: intros [= <- <-]; split_and!; try done; naive_solver.
  pose proof (GetOrGenPreKeys_again random) as Hagain.
  destruct sent; cbn [negb].
  2: { intros [= <- <-]. split_and!; [done|done|done|]. intros ks0 random' ks' d [[= <-]|?] Hr'; [|done].
       by eapply (Hagain random'). }
  pose proof (GetOrGenPreKeys_Ok _ _ _ _ _ Hw Hr) as (Hlen & _ & Hst & _).
  destruct (last ks) as [k|] eqn:Hl.
  2: { apply last_None in Hl. subst ks. cbn in Hlen. by destruct initialUpload. }
  destruct (MarkPreKeysAsUploaded (KeyID k) db) as [rm db'] eqn:Hm. apply update_cases in Hm as [[-> Hc]|[-> Hc]].
  - intros [= <- <-]. split_and!; [done| |naive_solver|naive_solver].
    intros ks0 [= <-]. cbn. rewrite Hc. split; [done|]. split.
    + intros k' Hk'. split; [|by apply Hst]. by eapply (mark_exactly random).
    + intros id Hid. by eapply (mark_exactly random).
  - intros [= <- <-]. cbn. rewrite Hc. split_and!; [done|done|done|].
    intros ks0 random' ks' d [?|[= <-]] Hr'; [done|]. by eapply (Hagain random').
Qed.
End theory.

#[local] Existing Instance toyCurve.
Definition toyUploader : uploader := mkUploader toyPreKeys None false.

Lemma uploadPreKeys_exact_witness :
  let '(r, u') := uploadPreKeys false false toyRandom 0 1 None true toyUploader in
  (∃ ks, r = Ok (UploadDone ks)) ∧
  (∀ ks, r = Ok (UploadDone ks) →
     length ks = 50 ∧
     (∀ k, k ∈ ks → content (preKeys u') !! KeyID k = Some (Priv (pkPair k), true) ∧ derived k) ∧
     ∀ id, id ∉ KeyID <$> ks → content (preKeys u') !! id = content (preKeys toyUploader) !! id).
Proof.
  destruct (uploadPreKeys false false toyRandom 0 1 None true toyUploader) as [r u'] eqn:Hr.
  pose proof (uploadPreKeys_exact false false toyRandom 0 1 None true toyUploader u' r toyPreKeys_wf Hr) as (_ & Hd & _).
  split; [|exact Hd].
  assert (match r with Ok (UploadDone _) => true | _ => false end = true) as Hk.
  { change r with (fst (r, u')). rewrite <- Hr. vm_compute. reflexivity. }
  destruct r as [[| | |ks|ks|ks]| | |]; try discriminate Hk. exists ks. reflexivity.
Defined.
