(* ===== verification/MessageInfo.v ===== *)
(** What a message node says about its message: [parseMessageSource],
    [parseMessageInfo] and their helpers of src/message.go, with the types of
    src/types/message.go and the alternate numbers of bots (src/types/botmap.go). *)
From Stdlib Require Import ZArith Lia.
From Stdlib Require Import Strings.Byte.
From stdpp Require Import prelude strings list.
From S2P Require Import Prelude Strconv Jid Node Attrs.

#[local] Open Scope string_scope.

(** ** Reading attributes one after the other *)

Definition attrM (A : Type) : Type := AttrUtility → A * AttrUtility.
#[export] Instance attrM_ret : MRet attrM := λ A a au, (a, au).
#[export] Instance attrM_bind : MBind attrM := λ A B f m au, let '(a, au) := m au in f a au.

(** ** Types *)

Record BroadcastRecipient := mkRecipient { rLID : JID; rPN : JID }.

Record MessageSource := mkSource {
  Chat : JID;
  Sender : JID;
  IsFromMe : bool;
  IsGroup : bool;
  AddressingMode : string;
  SenderAlt : JID;
  RecipientAlt : JID;
  BroadcastListOwner : JID;
  BroadcastRecipients : list BroadcastRecipient
}.
Definition AddressingModeLID : string := "lid".

Record MsgBotInfo := mkBotInfo {
  EditType : string;
  EditTargetID : string;
  EditSenderTimestampMS : goTime;
  ClientThreadID : string
}.
Definition EditTypeInner : string := "inner".
Definition EditTypeLast : string := "last".
Definition EditTypeFull : string := "full".

Record MsgMetaInfo := mkMetaInfo {
  TargetID : string;
  TargetSender : JID;
  TargetChat : JID;
  DeprecatedLIDSession : option bool;
  ThreadMessageID : string;
  ThreadMessageSenderJID : JID
}.

(** [V]: what [parseVerifiedNameContent] makes of a verified_name node. *)
Record MessageInfo (V : Type) := mkInfo {
  source : MessageSource;
  ID : string;
  ServerID : Z;
  Type_ : string;
  PushName : string;
  Timestamp : goTime;
  Category : string;
  Multicast : bool;
  MediaType : string;
  Edit : string;
  botInfo : MsgBotInfo;
  metaInfo : MsgMetaInfo;
  VerifiedName : option V
}.
Arguments mkInfo {V}.
Arguments source {V}.
Arguments ID {V}.
Arguments ServerID {V}.
Arguments Type_ {V}.
Arguments PushName {V}.
Arguments Timestamp {V}.
Arguments Category {V}.
Arguments Multicast {V}.
Arguments MediaType {V}.
Arguments Edit {V}.
Arguments botInfo {V}.
Arguments metaInfo {V}.
Arguments VerifiedName {V}.

Inductive messageError := NotLoggedIn | AttrErrors (es : list attrError).

(** [ag.Error()] after the reads. *)
Definition checked {A} (r : A * AttrUtility) : outcome messageError A :=
  match attrsError r.2 with None => Ok r.1 | Some es => Err (AttrErrors es) end.

(** ** Where a message comes from *)

Definition setServer (server : string) (j : JID) : JID :=
  {| User := User j; RawAgent := RawAgent j; Device := Device j; Integrator := Integrator j; Server := server |}.

(** Hosted users read as the users they stand for. *)
Definition unhost (from : JID) : JID :=
  if decide (Server from = HostedServer) then setServer DefaultUserServer from
  else if decide (Server from = HostedLIDServer) then setServer HiddenUserServer from
  else from.

Definition emptySource (mode : string) : MessageSource :=
  mkSource EmptyJID EmptyJID false false mode EmptyJID EmptyJID EmptyJID [].

Definition isOwn (clientID clientLID : JID) (user : string) : bool :=
  bool_decide (user = User clientID ∨ user = User clientLID).

(** One [to] child of the participants of a broadcast. *)
Definition broadcastRecipient (child : node) : BroadcastRecipient :=
  let cag := AttrGetter_of child in
  let '(mainJID, cag) := attrJID "jid" cag in
  if decide (Server mainJID = HiddenUserServer) then mkRecipient mainJID (OptionalJIDOrEmpty "peer_recipient_pn" cag).1
  else mkRecipient (OptionalJIDOrEmpty "peer_recipient_lid" cag).1 mainJID.

Definition broadcastRecipients (n : node) : list BroadcastRecipient :=
  match GetOptionalChildByTag n ["participants"] with
  | (participants, true) => broadcastRecipient <$> filter (λ c, Tag c = "to") (GetChildren participants)
  | _ => []
  end.

(** The branch of groups and broadcast lists. *)
Definition groupSource (clientID clientLID : JID) (n : node) (requireParticipant : bool) (from : JID) (mode : string) :
    attrM MessageSource :=
  sender ← (if requireParticipant then attrJID "participant" else OptionalJIDOrEmpty "participant");
  alt ← OptionalJIDOrEmpty "participant_pn";
  alt ← (if IsEmpty alt && negb (bool_decide (mode = AddressingModeLID)) then OptionalJIDOrEmpty "participant_lid" else mret alt);
  let mine := isOwn clientID clientLID (User sender) in
  if decide (Server from = BroadcastServer) then
    owner ← OptionalJIDOrEmpty "recipient";
    mret (mkSource from sender mine true mode alt EmptyJID owner (if mine then broadcastRecipients n else []))
  else mret (mkSource from sender mine true mode alt EmptyJID EmptyJID []).

(** The branch of messages from another device of the user. *)
Definition ownSource (from : JID) (mode : string) : attrM MessageSource :=
  let from := unhost from in
  recipient ← OptionalJID "recipient";
  let chat := match recipient with Some r => r | None => ToNonAD from end in
  alt ← OptionalJIDOrEmpty
    (if decide (Server chat = HiddenUserServer ∨ Server chat = HostedLIDServer) then "peer_recipient_pn" else "peer_recipient_lid");
  mret (mkSource chat from true false mode EmptyJID alt EmptyJID []).

(** The branch of everybody else. *)
Definition directSource (from : JID) (mode : string) : attrM MessageSource :=
  let from := unhost from in
  let chat := ToNonAD from in
  alt ← OptionalJIDOrEmpty
    (if decide (Server from = HiddenUserServer ∨ Server chat = HostedLIDServer) then "sender_pn" else "sender_lid");
  mret (mkSource chat from false false mode alt EmptyJID EmptyJID []).

(** The branch of bots reads the meta node instead. *)
Definition botSource (n : node) (from : JID) (mode : string) : MessageSource * AttrUtility :=
  let ag := AttrGetter_of (GetChildByTag n ["meta"]) in
  let '(target, ag) := OptionalJID "target_chat_jid" ag in
  (mkSource (match target with Some t => ToNonAD t | None => from end) from false false mode EmptyJID EmptyJID EmptyJID [], ag).

(** An alternate address without a device gets the sender's. *)
Definition fillAltDevice (s : MessageSource) : MessageSource :=
  if negb (IsEmpty (SenderAlt s)) && bool_decide (Device (SenderAlt s) = 0%Z) then
    mkSource (Chat s) (Sender s) (IsFromMe s) (IsGroup s) (AddressingMode s) (set_device (Device (Sender s)) (SenderAlt s))
      (RecipientAlt s) (BroadcastListOwner s) (BroadcastRecipients s)
  else s.

Definition sourceOf (clientID clientLID : JID) (n : node) (requireParticipant : bool) : MessageSource * AttrUtility :=
  let ag := AttrGetter_of n in
  let '(from, ag) := attrJID "from" ag in
  let '(mode, ag) := OptionalString "addressing_mode" ag in
  if decide (Server from = GroupServer ∨ Server from = BroadcastServer) then
    groupSource clientID clientLID n requireParticipant from mode ag
  else if decide (Server from = NewsletterServer) then
    (mkSource from from false false mode EmptyJID EmptyJID EmptyJID [], ag)
  else if isOwn clientID clientLID (User from) then ownSource from mode ag
  else if IsBot from then botSource n from mode
  else directSource from mode ag.

(** [clientID] and [clientLID]: the JIDs of the logged in device. *)
Definition parseMessageSource (clientID clientLID : JID) (n : node) (requireParticipant : bool) :
    outcome messageError MessageSource :=
  if IsEmpty clientID then Err NotLoggedIn
  else checked (let '(s, ag) := sourceOf clientID clientLID n requireParticipant in (fillAltDevice s, ag)).

(** ** The rest of a message's data *)

Definition emptyBotInfo : MsgBotInfo := mkBotInfo "" "" ZeroTime "".
Definition parseMsgBotInfo (n : node) : MsgBotInfo :=
  let ag := AttrGetter_of (GetChildByTag n ["bot"]) in
  let '(edit, ag) := OptionalString "edit" ag in
  let '((target, ts), ag) :=
    if decide (edit = EditTypeInner ∨ edit = EditTypeLast ∨ edit = EditTypeFull) then
      (target ← OptionalString "edit_target_id"; ts ← attrUnixMilli "sender_timestamp_ms"; mret (target, ts) : attrM _) ag
    else (("", ZeroTime), ag) in
  mkBotInfo edit target ts (OptionalString "client_thread_id" ag).1.

Definition emptyMetaInfo : MsgMetaInfo := mkMetaInfo "" EmptyJID EmptyJID None "" EmptyJID.
Definition metaInfoReads : attrM MsgMetaInfo :=
  target ← OptionalString "target_id";
  sender ← OptionalJIDOrEmpty "target_sender_jid";
  chat ← OptionalJIDOrEmpty "target_chat_jid";
  deprecated ← GetBool "deprecated_lid_session" false;
  thread ← OptionalString "thread_msg_id";
  threadSender ← OptionalJIDOrEmpty "thread_msg_sender_jid";
  mret (mkMetaInfo target sender chat (if (deprecated : bool * bool).2 then Some deprecated.1 else None) thread threadSender).
Definition parseMsgMetaInfo (n : node) : MsgMetaInfo := (metaInfoReads (AttrGetter_of (GetChildByTag n ["meta"]))).1.

Section info.
(** [parseVerifiedNameContent]: the certificate of a verified_name node. *)
Context {V : Type} (parseVerifiedNameContent : node → option V).

Definition addChild (info : MessageInfo V) (child : node) : MessageInfo V :=
  let 'mkInfo src id sid ty pn ts cat mc mt ed bot meta vn := info in
  if decide (Tag child = "multicast") then mkInfo src id sid ty pn ts cat true mt ed bot meta vn
  else if decide (Tag child = "verified_name") then
    mkInfo src id sid ty pn ts cat mc mt ed bot meta (parseVerifiedNameContent child)
  else if decide (Tag child = "bot") then mkInfo src id sid ty pn ts cat mc mt ed (parseMsgBotInfo child) meta vn
  else if decide (Tag child = "meta") then mkInfo src id sid ty pn ts cat mc mt ed bot (parseMsgMetaInfo child) vn
  else if decide (Tag child = "franking" ∨ Tag child = "trace") then info
  else
    match GetString "mediatype" false (AttrGetter_of child) with
    | ((mediaType, true), _) => mkInfo src id sid ty pn ts cat mc mediaType ed bot meta vn
    | _ => info
    end.

Definition parseMessageInfo (clientID clientLID : JID) (n : node) : outcome messageError (MessageInfo V) :=
  src ← parseMessageSource clientID clientLID n true;
  info ← checked
    ((id ← attrString "id"; sid ← OptionalInt "server_id"; t ← attrUnixTime "t"; notify ← OptionalString "notify";
      category ← OptionalString "category"; type ← OptionalString "type"; edit ← OptionalString "edit";
      mret (mkInfo src id sid type notify t category false "" edit emptyBotInfo emptyMetaInfo None) : attrM _) (AttrGetter_of n));
  Ok (foldl addChild info (GetChildren n)).
End info.

(** * Properties *)

Lemma attrM_bind_run {A B} (m : attrM A) (f : A → attrM B) au :
  (m ≫= f) au = f (m au).1 (m au).2.
Proof. unfold mbind, attrM_bind. by destruct (m au). Qed.

Lemma fillAltDevice_same s :
  Chat (fillAltDevice s) = Chat s ∧ Sender (fillAltDevice s) = Sender s ∧ IsFromMe (fillAltDevice s) = IsFromMe s ∧
  IsGroup (fillAltDevice s) = IsGroup s.
Proof. unfold fillAltDevice. by destruct (_ && _). Qed.

(** The shape of a source, by the server and the user of the sender's address. *)
Definition sourceShape (clientID clientLID from : JID) (s : MessageSource) : Prop :=
  if decide (Server from = GroupServer ∨ Server from = BroadcastServer) then
    IsGroup s = true ∧ Chat s = from ∧ IsFromMe s = isOwn clientID clientLID (User (Sender s))
  else IsGroup s = false ∧
    if decide (Server from = NewsletterServer) then IsFromMe s = false ∧ Chat s = from ∧ Sender s = from
    else if isOwn clientID clientLID (User from) then IsFromMe s = true ∧ Sender s = unhost from
    else IsFromMe s = false ∧
      if IsBot from then Sender s = from else Sender s = unhost from ∧ Chat s = ToNonAD (unhost from).

Lemma sourceOf_shape clientID clientLID n req :
  sourceShape clientID clientLID (attrJID "from" (AttrGetter_of n)).1 (sourceOf clientID clientLID n req).1.
Proof.
  unfold sourceOf, sourceShape. destruct (attrJID "from" _) as [from ag1]. destruct (OptionalString _ _) as [mode ag2]. cbn [fst].
  case_decide as Hg.
  - unfold groupSource. rewrite !attrM_bind_run. case_decide; rewrite ?attrM_bind_run; by cbn.
  - case_decide as Hn; [by cbn|]. destruct (isOwn _ _ _).
    + unfold ownSource. rewrite !attrM_bind_run. by cbn.
    + destruct (IsBot from).
      * unfold botSource. destruct (OptionalJID _ _). by cbn.
      * unfold directSource. rewrite attrM_bind_run. by cbn.
Qed.

Lemma unhost_user from : User (unhost from) = User from.
Proof. unfold unhost. repeat case_decide; done. Qed.
Lemma unhost_server from : Server (unhost from) ≠ HostedServer ∧ Server (unhost from) ≠ HostedLIDServer.
Proof. unfold unhost. repeat case_decide; done. Qed.

(** ** The alternate address a node names *)

Definition jidAt (n : node) (key : string) : JID :=
  match lookupAttr key (Attrs n) with Some (VJID j) => j | _ => EmptyJID end.
Definition stringAt (n : node) (key : string) : string :=
  match lookupAttr key (Attrs n) with Some (VString s) => s | _ => "" end.

(** A group's message names the other address of its participant, somebody else's
    direct message that of its sender. *)
Definition namedAlt (n : node) (from : JID) (s : MessageSource) : JID :=
  if IsGroup s then
    if IsEmpty (jidAt n "participant_pn") && negb (bool_decide (stringAt n "addressing_mode" = "lid"))
    then jidAt n "participant_lid" else jidAt n "participant_pn"
  else if bool_decide (Server from = NewsletterServer) || IsFromMe s || IsBot from then EmptyJID
  else if bool_decide (Server (Sender s) = HiddenUserServer) then jidAt n "sender_pn" else jidAt n "sender_lid".

Lemma OptionalJIDOrEmpty_at n key au : auAttrs au = Attrs n →
  (OptionalJIDOrEmpty key au).1 = jidAt n key ∧ auAttrs (OptionalJIDOrEmpty key au).2 = Attrs n.
Proof.
  intros Ha. unfold OptionalJIDOrEmpty, GetJID, jidAt. rewrite Ha. destruct (lookupAttr key (Attrs n)) as [[]|]; by cbn.
Qed.
Lemma attrJID_at n key au : auAttrs au = Attrs n → auAttrs (attrJID key au).2 = Attrs n.
Proof. intros Ha. unfold attrJID, GetJID. rewrite Ha. destruct (lookupAttr key (Attrs n)) as [[]|]; by cbn. Qed.
Lemma OptionalString_at n key au : auAttrs au = Attrs n →
  (OptionalString key au).1 = stringAt n key ∧ auAttrs (OptionalString key au).2 = Attrs n.
Proof.
  intros Ha. unfold OptionalString, GetString, stringAt. rewrite Ha. destruct (lookupAttr key (Attrs n)) as [[]|]; by cbn.
Qed.

Lemma groupSource_alt clientID clientLID n req from mode au :
  auAttrs au = Attrs n → mode = stringAt n "addressing_mode" →
  let s := (groupSource clientID clientLID n req from mode au).1 in SenderAlt s = namedAlt n from s.
Proof.
  intros Ha Hm. unfold groupSource. rewrite !attrM_bind_run.
  set (mine := isOwn _ _). unfold namedAlt.
  destruct req; [pose proof (attrJID_at n "participant" au Ha) as Hr
                |pose proof (proj2 (OptionalJIDOrEmpty_at n "participant" au Ha)) as Hr];
    (destruct (OptionalJIDOrEmpty_at n "participant_pn" _ Hr) as [Hv Hn];
     destruct (OptionalJIDOrEmpty_at n "participant_lid" _ Hn) as [Hv' _];
     rewrite Hv, Hm; change AddressingModeLID with "lid";
     case_decide; rewrite ?attrM_bind_run; cbn;
     destruct (IsEmpty (jidAt n "participant_pn") && negb (bool_decide (stringAt n "addressing_mode" = "lid"))); done).
Qed.

Lemma sourceOf_alt clientID clientLID n req :
  let s := (sourceOf clientID clientLID n req).1 in
  SenderAlt s = namedAlt n (attrJID "from" (AttrGetter_of n)).1 s.
Proof.
  unfold sourceOf. pose proof (attrJID_at n "from" (AttrGetter_of n) eq_refl) as Ha.
  destruct (attrJID "from" _) as [from ag1]. cbn [fst snd] in *.
  pose proof (OptionalString_at n "addressing_mode" ag1 Ha) as [Hm Ha2]. destruct (OptionalString _ _) as [mode ag2]. cbn [fst snd] in *.
  case_decide as Hg; [by apply groupSource_alt|]. unfold namedAlt.
  case_decide as Hn; [cbn; by rewrite bool_decide_true by done|]. rewrite (bool_decide_false _ Hn).
  destruct (isOwn _ _ _); [unfold ownSource; rewrite !attrM_bind_run; by cbn|].
  destruct (IsBot from); [unfold botSource; destruct (OptionalJID _ _); by cbn|].
  unfold directSource. rewrite attrM_bind_run. cbn.
  assert (Server (ToNonAD (unhost from)) ≠ HostedLIDServer) as Hc by apply (unhost_server from).
  case_decide as Hd; [rewrite bool_decide_true by tauto|rewrite bool_decide_false by tauto]; by apply OptionalJIDOrEmpty_at.
Qed.

(** C20: whose message a node is. When [parseMessageSource] succeeds for a logged in
    device, the message is in a group exactly when it comes from a group or broadcast
    address; it counts as the user's own exactly when it is not a newsletter's and the
    sender's user is that of the device's phone number or LID; the sender of a direct
    message that is not a bot's is never a hosted address, and the chat of somebody
    else's direct message, unless it is a bot's or a newsletter's, is the sender without
    its device. The alternate address of the sender is the one the node names for it; if
    that has no device it is given the sender's, and else it is left as it is. *)
Theorem parseMessageSource_spec (clientID clientLID : JID) (n : node) (requireParticipant : bool) (s : MessageSource) :
  parseMessageSource clientID clientLID n requireParticipant = Ok s →
  let from := (attrJID "from" (AttrGetter_of n)).1 in
  IsEmpty clientID = false ∧
  (IsGroup s = true ↔ Server from = GroupServer ∨ Server from = BroadcastServer) ∧
  (IsFromMe s = true ↔ Server from ≠ NewsletterServer ∧ (User (Sender s) = User clientID ∨ User (Sender s) = User clientLID)) ∧
  (IsGroup s = false → Server from ≠ NewsletterServer → IsBot from = false →
     Server (Sender s) ≠ HostedServer ∧ Server (Sender s) ≠ HostedLIDServer ∧ (IsFromMe s = false → Chat s = ToNonAD (Sender s))) ∧
  let named := namedAlt n from s in
  (IsEmpty named = true ∨ Device named ≠ 0%Z → SenderAlt s = named) ∧
  (IsEmpty named = false → Device named = 0%Z →
     User (SenderAlt s) = User named ∧ Server (SenderAlt s) = Server named ∧ Device (SenderAlt s) = Device (Sender s)).
Proof.
  unfold parseMessageSource. destruct (IsEmpty clientID); [done|]. intros Hs. cbv zeta. set (from := (attrJID _ _).1). split; [done|].
  pose proof (sourceOf_shape clientID clientLID n requireParticipant) as Hshape. fold from in Hshape.
  pose proof (sourceOf_alt clientID clientLID n requireParticipant) as Halt. cbv zeta in Halt. fold from in Halt.
  destruct (sourceOf _ _ _ _) as [s0 ag]. unfold checked in Hs. cbn [fst snd] in Hs, Hshape, Halt. destruct (attrsError ag); [done|]. injection Hs as <-.
  assert (namedAlt n from (fillAltDevice s0) = namedAlt n from s0) as Hna
    by (unfold namedAlt; by destruct (fillAltDevice_same s0) as (_ & -> & -> & ->)).
  rewrite Hna. destruct (fillAltDevice_same s0) as (-> & -> & -> & ->).
  unfold sourceShape, isOwn in Hshape. split; [case_decide; destruct Hshape as [-> _]; split; done || tauto|]. split; [|split].
  - case_decide as Hg.
    + destruct Hshape as (_ & _ & ->). rewrite bool_decide_eq_true. split; [|tauto]. intros Ho. split; [|done].
      intros Hn. rewrite Hn in Hg. by destruct Hg.
    + destruct Hshape as [_ Hshape]. case_decide as Hn; [destruct Hshape as (-> & _); split; [done|tauto]|].
      case_bool_decide as Ho.
      * destruct Hshape as [-> ->]. rewrite unhost_user. tauto.
      * destruct Hshape as [-> Hshape]. split; [done|]. intros [_ Hu]. exfalso. apply Ho.
        destruct (IsBot from); [by rewrite <- Hshape|]. destruct Hshape as [Hsn _]. by rewrite <- (unhost_user from), <- Hsn.
  - intros Hgf Hn Hb. case_decide; [by destruct Hshape; congruence|]. destruct Hshape as [_ Hshape]. rewrite decide_False in Hshape by done.
    rewrite Hb in Hshape. pose proof (unhost_server from) as [? ?].
    case_bool_decide; [destruct Hshape as [-> ->]; by split_and!|]. destruct Hshape as (_ & -> & ->). by split_and!.
  - clear Hshape. rewrite <- Halt. unfold fillAltDevice. split.
    + intros [->|Hd]; [done|]. by rewrite (bool_decide_false _ Hd), andb_false_r.
    + intros -> Hd. by rewrite (bool_decide_true _ Hd).
Qed.

Definition toyMessageNode : node :=
  mkNode "message" [("from", VJID (NewADJID "49151" 0 3)); ("id", VString "A1"); ("sender_lid", VJID (NewJID "777" HiddenUserServer))] VNil.

Lemma parseMessageSource_spec_witness :
  let own := NewJID "4917" DefaultUserServer in
  ∃ s, parseMessageSource own EmptyJID toyMessageNode true = Ok s ∧ IsFromMe s = false ∧
    Chat s = NewJID "49151" DefaultUserServer ∧ Device (SenderAlt s) = 3%Z ∧
    (IsGroup s = false → Server (Sender s) ≠ HostedServer).
Proof.
  intros own. destruct (parseMessageSource own EmptyJID toyMessageNode true) as [s| | |] eqn:Hs; [|vm_compute in Hs; discriminate Hs..].
  exists s. split; [reflexivity|].
  destruct (parseMessageSource_spec own EmptyJID toyMessageNode true s Hs) as (_ & _ & Hme & Hd & _).
  split; [|split; [|split]].
  - vm_compute in Hs. injection Hs as <-. reflexivity.
  - vm_compute in Hs. injection Hs as <-. reflexivity.
  - vm_compute in Hs. injection Hs as <-. reflexivity.
  - intros Hg. apply Hd; [exact Hg|vm_compute; discriminate|vm_compute; reflexivity].
Defined.

(** Before the device knows its LID, an address without a user counts as its own. *)
Example server_counts_as_own :
  (IsFromMe <$> parseMessageSource (NewJID "4917" DefaultUserServer) EmptyJID
    (mkNode "message" [("from", VJID ServerJID)] VNil) true) = Ok true.
Proof. reflexivity. Qed.
