(* ===== verification/Connection.v ===== *)
(** The life of a connection (src/client.go, src/connectionevents.go, src/keepalive.go):
    connecting, disconnecting and reconnecting as steps of a state machine, with the
    goroutines in between as tasks. *)
From Stdlib Require Import ZArith Lia.
From Stdlib Require Import Strings.Byte.
From stdpp Require Import prelude gmap strings list.
From S2P Require Import Prelude Strconv Jid Node Attrs MessageInfo.

#[local] Open Scope string_scope.

(** ** Reasons of failures *)

Definition ConnectFailureLoggedOut : Z := 401.
Definition ConnectFailureTempBanned : Z := 402.
Definition ConnectFailureMainDeviceGone : Z := 403.
Definition ConnectFailureClientOutdated : Z := 405.
Definition ConnectFailureUnknownLogout : Z := 406.
Definition ConnectFailureCATExpired : Z := 413.
Definition ConnectFailureCATInvalid : Z := 414.
Definition ConnectFailureInternalServerError : Z := 500.
Definition ConnectFailureServiceUnavailable : Z := 503.

Definition IsLoggedOut (reason : Z) : bool :=
  bool_decide (reason = ConnectFailureLoggedOut ∨ reason = ConnectFailureMainDeviceGone ∨ reason = ConnectFailureUnknownLogout).
Definition NumberString (reason : Z) : string := Itoa reason.
(** The crypto auth token is to be renewed. *)
Definition catReason (reason : Z) : bool := bool_decide (reason = ConnectFailureCATInvalid ∨ reason = ConnectFailureCATExpired).

Inductive connectionEvent :=
| Disconnected
| LoggedOut (onConnect : bool) (reason : Z)
| StreamReplaced
| ManualLoginReconnect
| StreamError (code : string) (raw : node)
| TemporaryBan (code expire : Z)
| ClientOutdated
| CATRefreshError
| ConnectFailure (reason : Z) (message : string) (raw : node).

(** What [exhttp] calls a network error, an answer to the dial with a status, a dial
    without one, a handshake that failed otherwise. *)
Inductive dialError := NetworkError | StatusError (code : Z) | DialFailed | HandshakeFailed.
Inductive connectError := ShadowNoConnect | DeviceDeleted | AlreadyConnected | DialError (e : dialError).
Definition isRetryableConnectError (e : connectError) : bool :=
  match e with
  | DialError NetworkError | DialError DialFailed => true
  | DialError (StatusError code) => bool_decide (code ∈ [408; 500; 501; 502; 503; 504]%Z)
  | _ => false
  end.
(** A dial may also succeed and its connection be closed before the handler of
    disconnections is set, which then nothing tells. *)
Inductive dialResult := Dialed | DialedAndLost | NotDialed (e : dialError).

(** ** State

    A socket has the number of its connection, and so has its queue of nodes, which ends
    after the connection did. *)
Record sock := mkSock { sOpen : bool; destroyed : bool; notifies : bool }.
Record nodeQueue := mkQueue { pending : list node; ended : bool }.

Inductive task :=
| OnDisconnect (i : nat) (remote : bool)
| FinishDisconnect (remote : bool) (queueWait : option nat)
| AutoReconnect | AutoReconnectWait | AutoReconnectDial   (* at the head of the loop, in the delay, after it *)
| Restart | RestartDial                                     (* after a 515, and after its [Disconnect] *)
| KeepAliveReset                                            (* after the [Disconnect] of a keep-alive that failed *)
| Reset.                                                    (* a full queue *)

Record connection := mkConnection {
  sockets : list sock;
  queues : list nodeQueue;
  socket : option nat;
  handlerQueueWait : option nat;
  expectedDisconnect : bool;
  forceAutoReconnect : bool;
  AutoReconnectErrors : Z;
  isLoggedIn : bool;
  storeID : bool;             (* [Store.ID != nil] *)
  storeDeleted : bool;
  tasks : list task;
  dispatched : list connectionEvent;
  crashed : bool
}.

Record settings := mkSettings {
  isShadow : bool; EnableAutoReconnect : bool; InitialAutoReconnect : bool; DisableLoginAutoReconnect : bool; hasRefreshCAT : bool
}.

(** What the outside decides in a step: whether waiting for a queue succeeded, the dial,
    whether the device was deleted and the token renewed, and what the hook for failed
    reconnections says. *)
Record choices := mkChoices { waited : bool; dial : dialResult; deletes : bool; refreshes : bool; hook : bool }.

Definition handlerQueueSize : nat := 256.

Section connection.
Context (cfg : settings).

Definition set_sockets v (s : connection) := mkConnection v (queues s) (socket s) (handlerQueueWait s) (expectedDisconnect s) (forceAutoReconnect s) (AutoReconnectErrors s) (isLoggedIn s) (storeID s) (storeDeleted s) (tasks s) (dispatched s) (crashed s).
Definition set_queues v (s : connection) := mkConnection (sockets s) v (socket s) (handlerQueueWait s) (expectedDisconnect s) (forceAutoReconnect s) (AutoReconnectErrors s) (isLoggedIn s) (storeID s) (storeDeleted s) (tasks s) (dispatched s) (crashed s).
Definition set_socket v (s : connection) := mkConnection (sockets s) (queues s) v (handlerQueueWait s) (expectedDisconnect s) (forceAutoReconnect s) (AutoReconnectErrors s) (isLoggedIn s) (storeID s) (storeDeleted s) (tasks s) (dispatched s) (crashed s).
Definition set_handlerQueueWait v (s : connection) := mkConnection (sockets s) (queues s) (socket s) v (expectedDisconnect s) (forceAutoReconnect s) (AutoReconnectErrors s) (isLoggedIn s) (storeID s) (storeDeleted s) (tasks s) (dispatched s) (crashed s).
Definition set_flags expected force (s : connection) := mkConnection (sockets s) (queues s) (socket s) (handlerQueueWait s) expected force (AutoReconnectErrors s) (isLoggedIn s) (storeID s) (storeDeleted s) (tasks s) (dispatched s) (crashed s).
Definition set_AutoReconnectErrors v (s : connection) := mkConnection (sockets s) (queues s) (socket s) (handlerQueueWait s) (expectedDisconnect s) (forceAutoReconnect s) v (isLoggedIn s) (storeID s) (storeDeleted s) (tasks s) (dispatched s) (crashed s).
Definition set_isLoggedIn v (s : connection) := mkConnection (sockets s) (queues s) (socket s) (handlerQueueWait s) (expectedDisconnect s) (forceAutoReconnect s) (AutoReconnectErrors s) v (storeID s) (storeDeleted s) (tasks s) (dispatched s) (crashed s).
Definition set_store id deleted (s : connection) := mkConnection (sockets s) (queues s) (socket s) (handlerQueueWait s) (expectedDisconnect s) (forceAutoReconnect s) (AutoReconnectErrors s) (isLoggedIn s) id deleted (tasks s) (dispatched s) (crashed s).
Definition set_tasks v (s : connection) := mkConnection (sockets s) (queues s) (socket s) (handlerQueueWait s) (expectedDisconnect s) (forceAutoReconnect s) (AutoReconnectErrors s) (isLoggedIn s) (storeID s) (storeDeleted s) v (dispatched s) (crashed s).
Definition emit e (s : connection) := mkConnection (sockets s) (queues s) (socket s) (handlerQueueWait s) (expectedDisconnect s) (forceAutoReconnect s) (AutoReconnectErrors s) (isLoggedIn s) (storeID s) (storeDeleted s) (tasks s) (dispatched s ++ [e])%list (crashed s).
Definition crash (s : connection) := mkConnection (sockets s) (queues s) (socket s) (handlerQueueWait s) (expectedDisconnect s) (forceAutoReconnect s) (AutoReconnectErrors s) (isLoggedIn s) (storeID s) (storeDeleted s) (tasks s) (dispatched s) true.
Definition spawn t (s : connection) : connection := set_tasks (tasks s ++ [t])%list s.

(** ** Sockets *)

Definition expectDisconnect (s : connection) : connection := set_flags true false s.
Definition resetExpectedDisconnect (s : connection) : connection := set_flags false false s.

(** [FrameSocket.Close]; the code of a normal closure is not zero. *)
Definition closeFrames (i : nat) (remote : bool) (s : connection) : connection :=
  match sockets s !! i with
  | Some k =>
      if sOpen k then
        let s := set_sockets (<[i := mkSock false (destroyed k) (notifies k)]> (sockets s)) s in
        if notifies k then spawn (OnDisconnect i remote) s else s
      else s
  | None => s
  end.
(** [NoiseSocket.Stop]. *)
Definition stop (i : nat) (disconnect allowOnDisconnect : bool) (s : connection) : connection :=
  match sockets s !! i with
  | Some k =>
      if destroyed k then s
      else
        let s := set_sockets (<[i := mkSock (sOpen k) true (notifies k && allowOnDisconnect)]> (sockets s)) s in
        if disconnect then closeFrames i false s else s
  | None => s
  end.
Definition socketConnected (i : nat) (s : connection) : bool := match sockets s !! i with Some k => sOpen k | None => false end.

(** A queue ends when its connection is closed and nothing that is still handled is left
    in it. Of a connection that is closed, only stream errors are. *)
Definition isStreamError (n : node) : bool := bool_decide (Tag n = "stream:error").
Definition canEnd (i : nat) (s : connection) : bool :=
  negb (socketConnected i s) && match queues s !! i with Some q => forallb (λ n, negb (isStreamError n)) (pending q) | None => false end.
Definition endQueue (i : nat) (s : connection) : connection := set_queues (alter (λ _, mkQueue [] true) i (queues s)) s.
Definition queueEnded (i : nat) (s : connection) : bool := match queues s !! i with Some q => ended q | None => false end.

(** The five seconds in which the queue may end. Errors it handles meanwhile are as well
    handled before. [None]: the choice is not possible. *)
Definition awaitQueue (c : choices) (s : connection) : option connection :=
  match handlerQueueWait s with
  | None => Some s
  | Some q =>
      if queueEnded q s then Some (set_handlerQueueWait None s)
      else if waited c then if canEnd q s then Some (set_handlerQueueWait None (endQueue q s)) else None
      else Some s
  end.
Definition unlockedDisconnect (c : choices) (s : connection) : option connection :=
  awaitQueue c (match socket s with Some i => set_socket None (stop i true false s) | None => s end).

Definition unlockedConnect (c : choices) (s : connection) : option (option connectError * connection) :=
  if isShadow cfg then Some (Some ShadowNoConnect, s)
  else if storeDeleted s then Some (Some DeviceDeleted, s)
  else
    s ← (if bool_decide (socket s = None) && bool_decide (is_Some (handlerQueueWait s)) then unlockedDisconnect c s else Some s);
    match socket s with
    | Some i => if socketConnected i s then Some (Some AlreadyConnected, s) else s ← unlockedDisconnect c s; Some (None, s)
    | None => Some (None, s)
    end ≫= λ '(err, s),
    match err with
    | Some e => Some (Some e, s)
    | None =>
        let s := resetExpectedDisconnect s in
        let connected alive :=
          let i := length (sockets s) in
          Some (None, set_handlerQueueWait (Some i) (set_socket (Some i)
                  (set_queues (queues s ++ [mkQueue [] false])%list (set_sockets (sockets s ++ [mkSock alive false true])%list s)))) in
        match dial c with
        | NotDialed e => Some (Some (DialError e), s)
        | Dialed => connected true
        | DialedAndLost => connected false
        end
    end.

Definition connect (c : choices) (s : connection) : option (option connectError * connection) := unlockedConnect c s.
Definition ConnectContext (c : choices) (s : connection) : option (option connectError * connection) :=
  '(err, s) ← unlockedConnect c s;
  match err with
  | Some e => if isRetryableConnectError e && InitialAutoReconnect cfg && EnableAutoReconnect cfg
              then Some (None, spawn AutoReconnect (emit Disconnected s)) else Some (Some e, s)
  | None => Some (None, s)
  end.
Definition Disconnect (c : choices) (s : connection) : option connection := unlockedDisconnect c (expectDisconnect s).
Definition ResetConnection (s : connection) : connection :=
  let s := set_flags (expectedDisconnect s) true s in
  match socket s with Some i => stop i true true s | None => s end.

(** ** Disconnections and reconnections *)

Definition onDisconnect (i : nat) (remote : bool) (s : connection) : connection :=
  let s := stop i false false s in
  if decide (socket s = Some i) then spawn (FinishDisconnect remote (handlerQueueWait s)) (set_socket None s) else s.

(** It waits for the queue, which may outlive the client's context. *)
Definition finishDisconnect (remote : bool) (queueWait : option nat) (s : connection) : option connection :=
  if match queueWait with Some q => negb (queueEnded q s) | None => false end then None
  else if bool_decide (is_Some (socket s)) || negb (bool_decide (handlerQueueWait s = queueWait)) then Some s
  else if expectedDisconnect s then Some s
  else
    let forced := forceAutoReconnect s in
    let s := set_flags false false s in
    if forced || remote then Some (spawn AutoReconnect (emit Disconnected s)) else Some s.

(** One round of the loop in three steps. *)
Definition autoReconnect (s : connection) : connection :=
  if negb (EnableAutoReconnect cfg) || negb (storeID s) then s
  else spawn AutoReconnectWait (set_AutoReconnectErrors (AutoReconnectErrors s + 1) s).
Definition autoReconnectDial (c : choices) (s : connection) : option connection :=
  '(err, s) ← connect c s;
  match err with
  | None | Some AlreadyConnected => Some s
  | Some _ => if expectedDisconnect s || negb (hook c) then Some s
              else Some (spawn AutoReconnectWait (set_AutoReconnectErrors (AutoReconnectErrors s + 1) s))
  end.

(** ** Nodes about the connection *)

(** [Store.Delete]: a failure is only logged. *)
Definition deleteStore (c : choices) (s : connection) : connection := if deletes c && negb (storeDeleted s) then set_store false true s else s.
Definition refreshCAT (c : choices) (s : connection) : connection := if refreshes c then s else emit CATRefreshError (expectDisconnect s).

Definition handleStreamError (c : choices) (n : node) (s : connection) : connection :=
  let s := set_isLoggedIn false s in
  let code := match lookupAttr "code" (Attrs n) with Some (VString code) => code | _ => "" end in
  let conflictType := (OptionalString "type" (AttrGetter_of (GetOptionalChildByTag n ["conflict"]).1)).1 in
  if decide (code = "515") then if DisableLoginAutoReconnect cfg then emit ManualLoginReconnect s else spawn Restart s
  else if decide (code = "401" ∧ conflictType = "device_removed") then
    deleteStore c (emit (LoggedOut false ConnectFailureLoggedOut) (expectDisconnect s))
  else if decide (conflictType = "replaced") then emit StreamReplaced (expectDisconnect s)
  else if decide (code = "503") then s
  else if hasRefreshCAT cfg && bool_decide (code = NumberString ConnectFailureCATInvalid ∨ code = NumberString ConnectFailureCATExpired) then refreshCAT c s
  else emit (StreamError code n) s.

(** A reason of a token that cannot be renewed is a call of a function that is nil. *)
Definition handleConnectFailure (c : choices) (n : node) (s : connection) : connection :=
  let '((reason, message), ag) := (reason ← attrInt "reason"; message ← OptionalString "message"; mret (reason, message) : attrM _) (AttrGetter_of n) in
  let transient := bool_decide (reason = ConnectFailureServiceUnavailable ∨ reason = ConnectFailureInternalServerError) in
  let s := if transient || catReason reason then s else expectDisconnect s in
  if IsLoggedOut reason then deleteStore c (emit (LoggedOut true reason) s)
  else if decide (reason = ConnectFailureTempBanned) then emit (TemporaryBan (attrInt "code" ag).1 ((attrInt "expire" ag).1 * 1000000000)) s
  else if decide (reason = ConnectFailureClientOutdated) then emit ClientOutdated s
  else if catReason reason then if hasRefreshCAT cfg then refreshCAT c s else crash s
  else if transient then s
  else emit (ConnectFailure reason message n) s.

(** The handler of a node of the queue. What other nodes do is elsewhere. *)
Definition handleNode (c : choices) (n : node) (s : connection) : connection :=
  if isStreamError n then handleStreamError c n s
  else if decide (Tag n = "failure") then handleConnectFailure c n s
  else s.

(** ** Steps *)

Inductive action :=
| Run (k : nat)                           (* the [k]th goroutine, to its next pause *)
| CancelReconnect (k : nat)               (* a delay ends early: an expected disconnect, or the context *)
| UserConnect | UserDisconnect | UserReset
| RemoteClose (i : nat)                   (* the reader of a connection ends *)
| Receive (i : nat) (n : node)            (* a frame of a connection *)
| Handle (i : nat)                        (* its queue handles the next node *)
| EndQueue (i : nat)
| KeepAliveFailed.

Definition runTask (c : choices) (t : task) (s : connection) : option connection :=
  match t with
  | OnDisconnect i remote => Some (onDisconnect i remote s)
  | FinishDisconnect remote queueWait => finishDisconnect remote queueWait s
  | AutoReconnect => Some (autoReconnect s)
  | AutoReconnectWait => Some (spawn AutoReconnectDial s)
  | AutoReconnectDial => autoReconnectDial c s
  | Restart => spawn RestartDial <$> Disconnect c s
  | RestartDial => snd <$> connect c s
  | KeepAliveReset => Some (spawn AutoReconnect (resetExpectedDisconnect s))
  | Reset => Some (ResetConnection s)
  end.

(** A full queue makes the client reset the connection once. *)
Definition enqueueNode (i : nat) (n : node) (s : connection) : connection :=
  match queues s !! i with
  | Some q =>
      if decide (length (pending q) < handlerQueueSize)%nat then set_queues (<[i := mkQueue (pending q ++ [n]) (ended q)]> (queues s)) s
      else if forceAutoReconnect s then s else spawn Reset (set_flags (expectedDisconnect s) true s)
  | None => s
  end.

(** Of a connection that is closed, a node that is no stream error is dropped. *)
Definition handleNext (c : choices) (i : nat) (s : connection) : option connection :=
  match queues s !! i with
  | Some (mkQueue (n :: rest) false) =>
      let s := set_queues (<[i := mkQueue rest false]> (queues s)) s in
      if socketConnected i s || isStreamError n then Some (handleNode c n s) else Some s
  | _ => None
  end.

Definition act (c : choices) (a : action) (s : connection) : option connection :=
  if crashed s then None
  else
    match a with
    | Run k => t ← tasks s !! k; runTask c t (set_tasks (delete k (tasks s)) s)
    | CancelReconnect k => t ← tasks s !! k; match t with AutoReconnectWait => Some (set_tasks (delete k (tasks s)) s) | _ => None end
    | UserConnect => snd <$> ConnectContext c s
    | UserDisconnect => Disconnect c s
    | UserReset => Some (ResetConnection s)
    | RemoteClose i => if socketConnected i s then Some (closeFrames i true s) else None
    | Receive i n => if socketConnected i s then Some (enqueueNode i n s) else None
    | Handle i => handleNext c i s
    | EndQueue i => if canEnd i s then Some (endQueue i s) else None
    | KeepAliveFailed =>
        (* only with reconnections; the failures before it and their events are left out *)
        if EnableAutoReconnect cfg then spawn KeepAliveReset <$> Disconnect c s else None
    end.

Fixpoint run (l : list (choices * action)) (s : connection) : option connection :=
  match l with [] => Some s | (c, a) :: l => s ← act c a s; run l s end.

(** A client that has not connected yet. *)
Definition initial (id : bool) : connection := mkConnection [] [] None None false false 0 false id false [] [] false.
End connection.

(** * Properties *)

#[local] Open Scope list_scope.

(** ** One connection at a time *)

(** Only the client's socket is open, one that was stopped is closed, and so is one that
    a disconnection is told of. *)
Record invOf (socks : list sock) (current : option nat) (ts : list task) : Prop := mkInv {
  inv_open i k : socks !! i = Some k → sOpen k = true → current = Some i;
  inv_destroyed i k : socks !! i = Some k → destroyed k = true → sOpen k = false;
  inv_task i r : OnDisconnect i r ∈ ts → ∃ k, socks !! i = Some k ∧ sOpen k = false
}.
Definition inv (s : connection) : Prop := invOf (sockets s) (socket s) (tasks s).

Lemma inv_sub socks current ts ts' : invOf socks current ts → (∀ i r, OnDisconnect i r ∈ ts' → OnDisconnect i r ∈ ts) → invOf socks current ts'.
Proof. intros [Ho Hd Ht] Hsub. split; [exact Ho|exact Hd|]. intros i r Hin. exact (Ht i r (Hsub _ _ Hin)). Qed.
Definition plainTask (t : task) : bool := match t with OnDisconnect _ _ => false | _ => true end.
Lemma inv_spawn socks current ts t : plainTask t = true → invOf socks current ts → invOf socks current (ts ++ [t]).
Proof. intros Ht Hi. apply (inv_sub _ _ _ _ Hi). intros i r [Hin|Hin]%elem_of_app; [done|]. apply list_elem_of_singleton in Hin as <-. done. Qed.

(** Replacing a socket by one that is not open. *)
Lemma inv_close socks current ts i k k' :
  invOf socks current ts → socks !! i = Some k → sOpen k' = false → invOf (<[i := k']> socks) current ts.
Proof.
  intros [Ho Hd Ht] Hi Hk. pose proof (lookup_lt_Some _ _ _ Hi) as Hlt. split.
  - intros j x. destruct (decide (i = j)) as [<-|]; [rewrite list_lookup_insert_eq by done; intros [= <-]; congruence|].
    rewrite list_lookup_insert_ne by done. apply Ho.
  - intros j x. destruct (decide (i = j)) as [<-|]; [rewrite list_lookup_insert_eq by done; by intros [= <-]|].
    rewrite list_lookup_insert_ne by done. apply Hd.
  - intros j r (x & Hx & Hc)%Ht. destruct (decide (i = j)) as [<-|].
    + exists k'. by rewrite list_lookup_insert_eq.
    + exists x. by rewrite list_lookup_insert_ne.
Qed.
Lemma inv_told socks current ts i k r : invOf socks current ts → socks !! i = Some k → sOpen k = false → invOf socks current (ts ++ [OnDisconnect i r]).
Proof.
  intros [Ho Hd Ht] Hi Hk. split; [exact Ho|exact Hd|]. intros j r' [Hin|Hin]%elem_of_app; [by eapply Ht|]. apply list_elem_of_singleton in Hin as [= -> ->]. by exists k.
Qed.

Lemma closeFrames_inv i remote s : inv s → inv (closeFrames i remote s).
Proof.
  unfold inv, closeFrames. intros Hi. destruct (sockets s !! i) as [k|] eqn:Hk; [|done]. destruct (sOpen k) eqn:Ho; [|done].
  pose proof (inv_close _ _ _ _ _ (mkSock false (destroyed k) (notifies k)) Hi Hk eq_refl) as Hc. destruct (notifies k); [|exact Hc].
  eapply inv_told; [exact Hc|apply list_lookup_insert_eq; by eapply lookup_lt_Some|done].
Qed.
Lemma closeFrames_closed i remote s : socketConnected i (closeFrames i remote s) = false.
Proof.
  unfold socketConnected, closeFrames. destruct (sockets s !! i) as [k|] eqn:Hk; [|by rewrite Hk]. destruct (sOpen k) eqn:Ho; [|by rewrite Hk].
  destruct (notifies k); cbn; by rewrite list_lookup_insert_eq by (by eapply lookup_lt_Some).
Qed.
Lemma closeFrames_socket i remote s : socket (closeFrames i remote s) = socket s.
Proof. unfold closeFrames. destruct (sockets s !! i) as [k|]; [|done]. destruct (sOpen k); [|done]. by destruct (notifies k). Qed.

(** A socket is stopped together with its connection, or when that is closed. *)
Lemma stop_inv i disconnect allow s : inv s → disconnect = true ∨ socketConnected i s = false → inv (stop i disconnect allow s).
Proof.
  unfold inv, stop. intros Hi Hd. destruct (sockets s !! i) as [k|] eqn:Hk; [|done]. destruct (destroyed k) eqn:Hdes; [done|].
  destruct disconnect.
  - unfold closeFrames. cbn. rewrite list_lookup_insert_eq by (by eapply lookup_lt_Some). cbn [sOpen].
    destruct (sOpen k) eqn:Ho; [|by apply (inv_close _ _ _ i k)]. cbn. rewrite list_insert_insert_eq.
    generalize (notifies k && allow). intros b. pose proof (inv_close _ _ _ _ _ (mkSock false true b) Hi Hk eq_refl) as Hc.
    destruct b; [|exact Hc].
    cbn. eapply inv_told; [exact Hc|apply list_lookup_insert_eq; by eapply lookup_lt_Some|done].
  - destruct Hd as [|Hd]; [done|]. unfold socketConnected in Hd. rewrite Hk in Hd. by apply (inv_close _ _ _ i k).
Qed.
Lemma stop_closed i allow s : inv s → socketConnected i (stop i true allow s) = false.
Proof.
  intros Hi. unfold stop. destruct (sockets s !! i) as [k|] eqn:Hk; [|by unfold socketConnected; rewrite Hk].
  destruct (destroyed k) eqn:Hdes; [|apply closeFrames_closed]. unfold socketConnected. rewrite Hk. exact (inv_destroyed _ _ _ Hi _ _ Hk Hdes).
Qed.
Lemma stop_socket i disconnect allow s : socket (stop i disconnect allow s) = socket s.
Proof.
  unfold stop. destruct (sockets s !! i) as [k|]; [|done]. destruct (destroyed k); [done|]. destruct disconnect; [|done]. by rewrite closeFrames_socket.
Qed.

Lemma inv_forget i s : inv s → socket s = Some i → socketConnected i s = false → inv (set_socket None s).
Proof.
  intros [Ho Hd Ht] Hs Hc. split; [|exact Hd|exact Ht]. cbn. intros j k Hk Hopen. pose proof (Ho _ _ Hk Hopen) as Hj. rewrite Hs in Hj.
  injection Hj as ->. unfold socketConnected in Hc. rewrite Hk in Hc. congruence.
Qed.

Lemma awaitQueue_same c s s' : awaitQueue c s = Some s' → sockets s' = sockets s ∧ socket s' = socket s ∧ tasks s' = tasks s
  ∧ expectedDisconnect s' = expectedDisconnect s ∧ dispatched s' = dispatched s.
Proof.
  unfold awaitQueue. destruct (handlerQueueWait s); [|by intros [= <-]]. destruct (queueEnded _ s); [by intros [= <-]|].
  destruct (waited c); [|by intros [= <-]]. destruct (canEnd _ s); [by intros [= <-]|done].
Qed.
Lemma inv_same s s' : sockets s' = sockets s → socket s' = socket s → tasks s' = tasks s → inv s → inv s'.
Proof. unfold inv. by intros -> -> ->. Qed.

Lemma unlockedDisconnect_inv c s s' : inv s → unlockedDisconnect c s = Some s' → inv s' ∧ socket s' = None.
Proof.
  unfold unlockedDisconnect. intros Hi (Hk & Hs & Ht & _)%awaitQueue_same. rewrite Hs. destruct (socket s) as [i|] eqn:Hi'.
  - split; [|done]. apply (inv_same _ _ Hk Hs Ht). eapply (inv_forget i); [apply stop_inv; [done|by left]|by rewrite stop_socket|by apply stop_closed].
  - split; [|done]. by apply (inv_same _ _ Hk Hs Ht).
Qed.

Lemma dialed_inv alive s : inv s → socket s = None →
  invOf (sockets s ++ [mkSock alive false true]) (Some (length (sockets s))) (tasks s).
Proof.
  intros [Ho Hd Ht] Hs. split.
  - intros i k [Hk|[-> [= <-]]]%lookup_snoc_Some Hopen; [|done]. destruct Hk as [_ Hk]. pose proof (Ho _ _ Hk Hopen). congruence.
  - intros i k [[_ Hk]|[-> [= <-]]]%lookup_snoc_Some; [exact (Hd _ _ Hk)|done].
  - intros i r (k & Hk & Hc)%Ht. exists k. split; [by apply lookup_app_l_Some|done].
Qed.
Lemma unlockedConnect_inv cfg c s err s' : inv s → unlockedConnect cfg c s = Some (err, s') → inv s'.
Proof.
  unfold unlockedConnect. intros Hi. destruct (isShadow cfg); [by intros [= <- <-]|]. destruct (storeDeleted s); [by intros [= <- <-]|].
  intros (s1 & H1 & ([err2 s2] & H2 & Hdial)%bind_Some)%bind_Some.
  assert (inv s1) as Hi1 by (destruct (_ && _); [by eapply unlockedDisconnect_inv in H1 as [? _]|by injection H1 as <-]).
  assert (inv s2 ∧ (err2 = None → socket s2 = None)) as [Hi2 Hnone].
  { destruct (socket s1) as [i|] eqn:Hs; [|by injection H2 as <- <-].
    destruct (socketConnected i s1); [by injection H2 as <- <-|]. apply bind_Some in H2 as (s3 & H3 & [= <- <-]).
    by eapply unlockedDisconnect_inv in H3 as [? ?]. }
  destruct err2; [by injection Hdial as <- <-|]. destruct (dial c) as [| |e]; [injection Hdial as <- <-; exact (dialed_inv true _ Hi2 (Hnone eq_refl))|injection Hdial as <- <-; exact (dialed_inv false _ Hi2 (Hnone eq_refl))|by injection Hdial as <- <-].
Qed.

Lemma inv_emit e s : inv s → inv (emit e s).
Proof. done. Qed.
Lemma onDisconnect_inv i remote s : inv s → socketConnected i s = false → inv (onDisconnect i remote s).
Proof.
  intros Hi Hc. unfold onDisconnect. assert (inv (stop i false false s)) as Hs by (apply stop_inv; [done|by right]). case_decide as Hsock; [|done].
  eapply (inv_spawn _ _ (tasks (set_socket None (stop i false false s)))); [done|]. apply (inv_forget i); [done|done|].
  unfold stop. destruct (sockets s !! i) as [k|] eqn:Hk; [|done]. destruct (destroyed k); [done|]. unfold socketConnected in *.
  cbn. rewrite Hk in Hc. by rewrite list_lookup_insert_eq by (by eapply lookup_lt_Some).
Qed.
Lemma handleNode_inv cfg c n s : inv s → inv (handleNode cfg c n s).
Proof.
  intros Hi. unfold handleNode. destruct (isStreamError n); [|case_decide; [|done]].
  - unfold handleStreamError, deleteStore, refreshCAT. repeat (case_decide || case_match); try done; by apply inv_spawn.
  - unfold handleConnectFailure, deleteStore, refreshCAT. destruct (_ : (Z * string) * _) as [[reason message] ag].
    destruct (_ || _) eqn:?; repeat (case_decide || case_match); done.
Qed.

Lemma runTask_inv cfg c t s s' : inv s → (∀ i r, t = OnDisconnect i r → socketConnected i s = false) → runTask cfg c t s = Some s' → inv s'.
Proof.
  intros Hi Ht. destruct t as [i r|r q| | | | | | |]; cbn [runTask].
  - intros [= <-]. apply onDisconnect_inv; [done|by eapply Ht].
  - unfold finishDisconnect. repeat case_match; intros; simplify_eq; first [done|by apply inv_spawn].
  - unfold autoReconnect. intros [= <-]. destruct (_ || _); [done|]. by apply inv_spawn.
  - intros [= <-]. by apply inv_spawn.
  - unfold autoReconnectDial. intros ([err s1] & Hc%unlockedConnect_inv & Hrest)%bind_Some; [|done].
    destruct err as [e|]; [|by injection Hrest as <-]. destruct e; try (by injection Hrest as <-);
      (destruct (_ || _); injection Hrest as <-; [done|by apply inv_spawn]).
  - intros (s1 & Hd%unlockedDisconnect_inv & ->)%fmap_Some; [|done]. destruct Hd as [Hd _]. by apply inv_spawn.
  - intros ([err s1] & Hc%unlockedConnect_inv & ->)%fmap_Some; done.
  - intros [= <-]. by apply inv_spawn.
  - intros [= <-]. unfold ResetConnection. cbn. destruct (socket s) as [i|]; [|done]. apply stop_inv; [done|by left].
Qed.

Lemma inv_delete k t s : inv s → tasks s !! k = Some t → inv (set_tasks (delete k (tasks s)) s).
Proof. intros Hi _. apply (inv_sub _ _ _ _ Hi). intros i r. cbn. rewrite delete_take_drop. intros [Hin%subseteq_take|Hin%subseteq_drop]%elem_of_app; done. Qed.

Lemma inv_told_closed s i r : inv s → OnDisconnect i r ∈ tasks s → socketConnected i s = false.
Proof. intros Hi (k & Hk & Hc)%(inv_task _ _ _ Hi). unfold socketConnected. by rewrite Hk. Qed.

Lemma act_inv cfg c a s s' : inv s → act cfg c a s = Some s' → inv s'.
Proof.
  intros Hi. unfold act. destruct (crashed s); [done|]. destruct a as [k|k| | | |i|i n|i|i|].
  - intros (t & Ht & Hrun)%bind_Some. eapply (runTask_inv _ _ _ _ _ (inv_delete _ _ _ Hi Ht)); [|exact Hrun].
    intros i r ->. apply list_elem_of_lookup_2 in Ht. exact (inv_told_closed _ _ _ Hi Ht).
  - intros (t & Ht & Hrun)%bind_Some. destruct t; try done. injection Hrun as <-. by eapply inv_delete.
  - intros ([err s1] & Hc & ->)%fmap_Some. unfold ConnectContext in Hc. apply bind_Some in Hc as ([err0 s0] & Hc & Hrest). apply unlockedConnect_inv in Hc; [|done].
    destruct err0 as [e|]; [|by injection Hrest as <- <-]. destruct (_ && _); injection Hrest as <- <-; [by apply inv_spawn|done].
  - intros Hd%unlockedDisconnect_inv; [|done]. by destruct Hd.
  - intros [= <-]. unfold ResetConnection. cbn. destruct (socket s) as [i|]; [|done]. apply stop_inv; [done|by left].
  - destruct (socketConnected i s); [|done]. intros [= <-]. by apply closeFrames_inv.
  - destruct (socketConnected i s); [|done]. intros [= <-]. unfold enqueueNode. destruct (queues s !! i); [|done].
    case_decide; [done|]. destruct (forceAutoReconnect s); [done|]. by apply inv_spawn.
  - unfold handleNext. destruct (queues s !! i) as [[[|n rest] [|]]|]; try done. destruct (_ || _); intros [= <-]; [by apply handleNode_inv|done].
  - destruct (canEnd i s); [|done]. by intros [= <-].
  - destruct (EnableAutoReconnect cfg); [|done]. intros (s1 & Hd%unlockedDisconnect_inv & ->)%fmap_Some; [|done]. destruct Hd as [Hd _]. by apply inv_spawn.
Qed.
Lemma run_inv cfg l s s' : inv s → run cfg l s = Some s' → inv s'.
Proof.
  revert s. induction l as [|[c a] l IH]; intros s Hi; cbn [run]; [by intros [= <-]|].
  intros (s1 & Ha & Hrun)%bind_Some. exact (IH _ (act_inv _ _ _ _ _ Hi Ha) Hrun).
Qed.
Lemma initial_inv id : inv (initial id).
Proof. split; cbn; [by intros i k Hk|by intros i k Hk|]. intros i r Hin. by apply not_elem_of_nil in Hin. Qed.

(** C31: a client has at most one connection. Whatever the user, the server, the
    timers and the goroutines do and in whatever order, every connection of the client
    that is open is its current socket, so that there are never two; and a connection
    whose end is still to be handled is closed. *)
Theorem one_connection cfg id l s (Hrun : run cfg l (initial id) = Some s) :
  (∀ i, socketConnected i s = true → socket s = Some i)
  ∧ (∀ i j, socketConnected i s = true → socketConnected j s = true → i = j)
  ∧ (∀ i remote, OnDisconnect i remote ∈ tasks s → socketConnected i s = false).
Proof.
  apply (run_inv _ _ _ _ (initial_inv id)) in Hrun as Hi. assert (∀ i, socketConnected i s = true → socket s = Some i) as Hone.
  { intros i. unfold socketConnected. destruct (sockets s !! i) as [k|] eqn:Hk; [|done]. exact (inv_open _ _ _ Hi i k Hk). }
  split; [exact Hone|]. split; [|intros i r; by apply inv_told_closed].
  intros i j Hci%Hone Hcj%Hone. congruence.
Qed.

(** ** An expected disconnection *)

Definition restarts (n : node) : Prop := isStreamError n = true ∧ lookupAttr "code" (Attrs n) = Some (VString "515").
Definition isDisconnected (e : connectionEvent) : bool := match e with Disconnected => true | _ => false end.

(** Nothing that was begun before is about to connect. *)
Definition calmTask (t : task) : Prop := match t with OnDisconnect _ _ | FinishDisconnect _ _ | Reset => True | _ => False end.
Record calm (s : connection) : Prop := mkCalm {
  calm_expected : expectedDisconnect s = true;
  calm_tasks : Forall calmTask (tasks s);
  calm_queues : Forall (λ q, Forall (λ n, ¬ restarts n) (pending q)) (queues s)
}.
(** Steps that are not a wish to connect, of the user, of the keep-alive or of the server. *)
Definition calmAction (a : action) : Prop := match a with UserConnect | KeepAliveFailed => False | Receive _ n => ¬ restarts n | _ => True end.
(** What has been connected and reported so far. *)
Definition history (s : connection) : nat * list connectionEvent :=
  (length (sockets s), List.filter isDisconnected (dispatched s)).

Definition stays (s s' : connection) : Prop := calm s → calm s' ∧ history s' = history s.
Lemma stays_refl s : stays s s.
Proof. by intros. Qed.
Lemma stays_trans s1 s2 s3 : stays s1 s2 → stays s2 s3 → stays s1 s3.
Proof. intros H1 H2 Hc. destruct (H1 Hc) as [Hc2 Hh1]. destruct (H2 Hc2) as [Hc3 Hh2]. split; [done|congruence]. Qed.
Lemma stays_spawn t s : calmTask t → stays s (spawn t s).
Proof. intros Ht [He Hts Hq]. split; [|done]. split; [done| |done]. cbn. apply Forall_app. by repeat constructor. Qed.
Lemma stays_emit e s : isDisconnected e = false → stays s (emit e s).
Proof. intros He [Hx Hts Hq]. split; [done|]. unfold history. cbn. rewrite List.filter_app. cbn. by rewrite He, app_nil_r. Qed.
Lemma stays_same s s' : expectedDisconnect s' = true → tasks s' = tasks s → queues s' = queues s → length (sockets s') = length (sockets s) →
  dispatched s' = dispatched s → stays s s'.
Proof. intros He Ht Hq Hk Hd [_ Hts Hqs]. unfold history. rewrite Hk, Hd. split; [split|]; [done|by rewrite Ht|by rewrite Hq|done]. Qed.

Lemma stays_close i remote s : stays s (closeFrames i remote s).
Proof.
  intros Hs. pose proof Hs as [He Ht Hq]. revert Hs. unfold closeFrames. destruct (sockets s !! i) as [k|]; [|apply stays_refl]. destruct (sOpen k); [|apply stays_refl].
  assert (stays s (set_sockets (<[i := mkSock false (destroyed k) (notifies k)]> (sockets s)) s)) as Hset
    by (apply stays_same; [done..|apply length_insert|done]).
  destruct (notifies k); [|exact Hset]. eapply stays_trans; [exact Hset|by apply stays_spawn].
Qed.
Lemma stays_stop i disconnect allow s : stays s (stop i disconnect allow s).
Proof.
  intros Hs. pose proof Hs as [He Ht Hq]. revert Hs. unfold stop. destruct (sockets s !! i) as [k|]; [|apply stays_refl]. destruct (destroyed k); [apply stays_refl|].
  assert (stays s (set_sockets (<[i := mkSock (sOpen k) true (notifies k && allow)]> (sockets s)) s)) as Hset
    by (apply stays_same; [done..|apply length_insert|done]).
  destruct disconnect; [|exact Hset]. eapply stays_trans; [exact Hset|apply stays_close].
Qed.
Lemma stays_end i s : stays s (endQueue i s).
Proof.
  intros [He Ht Hq]. split; [|done]. split; [done|done|]. by apply Forall_alter.
Qed.
Lemma stays_await c s s' : awaitQueue c s = Some s' → stays s s'.
Proof.
  unfold awaitQueue. destruct (handlerQueueWait s) as [q|]; [|intros [= <-]; apply stays_refl].
  destruct (queueEnded q s); [intros [= <-] [He Ht Hq]; by apply stays_same|].
  destruct (waited c); [|intros [= <-]; apply stays_refl]. destruct (canEnd q s); [|done]. intros [= <-].
  eapply stays_trans; [apply (stays_end q)|]. intros [He Ht Hq]. by apply stays_same.
Qed.
Lemma stays_unlockedDisconnect c s s' : unlockedDisconnect c s = Some s' → stays s s'.
Proof.
  unfold unlockedDisconnect. intros Ha%stays_await. eapply stays_trans; [|exact Ha]. destruct (socket s); [|apply stays_refl].
  eapply stays_trans; [apply (stays_stop n true false)|]. intros [He Ht Hq]. by apply stays_same.
Qed.
Lemma stays_expect s : stays s (expectDisconnect s).
Proof. by apply stays_same. Qed.
Lemma stays_reset s : stays s (ResetConnection s).
Proof.
  unfold ResetConnection. assert (stays s (set_flags (expectedDisconnect s) true s)) as Hf by (intros [He ? ?]; by apply stays_same).
  cbn. destruct (socket s); [|exact Hf]. eapply stays_trans; [exact Hf|apply stays_stop].
Qed.

Lemma stays_delete c s : stays s (deleteStore c s).
Proof. unfold deleteStore. destruct (_ && _); [intros [He ? ?]; by apply stays_same|apply stays_refl]. Qed.
Lemma stays_refresh c s : stays s (refreshCAT c s).
Proof. unfold refreshCAT. destruct (refreshes c); [apply stays_refl|]. eapply stays_trans; [apply stays_expect|by apply stays_emit]. Qed.
Lemma stays_node cfg c n s : ¬ restarts n → stays s (handleNode cfg c n s).
Proof.
  intros Hn. unfold handleNode. destruct (isStreamError n) eqn:Hse; [|case_decide; [|apply stays_refl]].
  - unfold handleStreamError. set (s0 := set_isLoggedIn false s). assert (stays s s0) as H0 by (intros [He ? ?]; by apply stays_same).
    eapply stays_trans; [exact H0|]. case_decide as Hcode.
    { exfalso. apply Hn. split; [done|]. destruct (lookupAttr "code" (Attrs n)) as [[]|]; try done. by subst. }
    case_decide; [eapply stays_trans; [apply stays_expect|]; eapply stays_trans; [by apply (stays_emit (LoggedOut false ConnectFailureLoggedOut))|apply stays_delete]|].
    case_decide; [eapply stays_trans; [apply stays_expect|by apply stays_emit]|]. case_decide; [apply stays_refl|].
    destruct (_ && _); [apply stays_refresh|by apply stays_emit].
  - unfold handleConnectFailure. destruct (_ : (Z * string) * _) as [[reason message] ag].
    set (s0 := if _ || _ then s else _). assert (stays s s0) as H0 by (unfold s0; destruct (_ || _); [apply stays_refl|apply stays_expect]).
    eapply stays_trans; [exact H0|]. destruct (IsLoggedOut reason); [eapply stays_trans; [by apply (stays_emit (LoggedOut true reason))|apply stays_delete]|].
    case_decide; [by apply stays_emit|]. case_decide; [by apply stays_emit|].
    destruct (catReason reason); [destruct (hasRefreshCAT cfg); [apply stays_refresh|intros [He ? ?]; by apply stays_same]|].
    destruct (bool_decide _); [apply stays_refl|by apply stays_emit].
Qed.

Lemma stays_task cfg c t s s' : calmTask t → runTask cfg c t s = Some s' → stays s s'.
Proof.
  destruct t as [i r|r q| | | | | | |]; cbn [calmTask runTask]; try done; intros _.
  - intros [= <-]. unfold onDisconnect. eapply stays_trans; [apply (stays_stop i false false)|]. case_decide; [|apply stays_refl].
    eapply stays_trans; [|by apply stays_spawn]. intros [He ? ?]. by apply stays_same.
  - unfold finishDisconnect. intros Hf Hs. destruct (match q with Some q => _ | None => _ end); [done|].
    destruct (_ || _); [injection Hf as <-; by apply stays_refl|]. rewrite (calm_expected _ Hs) in Hf. injection Hf as <-. by apply stays_refl.
  - intros [= <-]. apply stays_reset.
Qed.
Lemma stays_act cfg c a s s' : calmAction a → act cfg c a s = Some s' → stays s s'.
Proof.
  intros Ha. unfold act. destruct (crashed s); [done|]. intros Hact Hs. pose proof Hs as [He Ht Hq]. revert Hs. destruct a as [k|k| | | |i|i n|i|i|]; try done.
  - apply bind_Some in Hact as (t & Hk & Hrun). pose proof (proj1 (Forall_lookup _ _) Ht _ _ Hk) as Hct.
    eapply stays_trans; [|exact (stays_task _ _ _ _ _ Hct Hrun)]. intros _. split; [|done]. split; [done|by apply Forall_delete|done].
  - apply bind_Some in Hact as (t & Hk & Hrun). pose proof (proj1 (Forall_lookup _ _) Ht _ _ Hk) as Hct. by destruct t.
  - eapply stays_trans; [apply stays_expect|by eapply stays_unlockedDisconnect].
  - injection Hact as <-. apply stays_reset.
  - destruct (socketConnected i s); [|done]. injection Hact as <-. apply stays_close.
  - destruct (socketConnected i s); [|done]. injection Hact as <-. unfold enqueueNode. destruct (queues s !! i) as [q|] eqn:Hi; [|apply stays_refl].
    pose proof (proj1 (Forall_lookup _ _) Hq _ _ Hi) as Hqi. case_decide.
    + intros _. split; [|done]. split; [done|done|]. apply Forall_insert; [done|]. cbn. apply Forall_app. by repeat constructor.
    + destruct (forceAutoReconnect s); [apply stays_refl|]. eapply stays_trans; [|by apply stays_spawn]. intros _. by apply stays_same.
  - unfold handleNext in Hact. destruct (queues s !! i) as [[[|n rest] [|]]|] eqn:Hi; try done.
    pose proof (proj1 (Forall_lookup _ _) Hq _ _ Hi) as Hqi. apply Forall_cons in Hqi as [Hn Hrest].
    assert (stays s (set_queues (<[i := mkQueue rest false]> (queues s)) s)) as Hset
      by (intros _; split; [|done]; split; [done|done|by apply Forall_insert]).
    destruct (_ || _); injection Hact as <-; [|exact Hset]. eapply stays_trans; [exact Hset|by apply stays_node].
  - destruct (canEnd i s); [|done]. injection Hact as <-. apply stays_end.
Qed.

(** *** How a disconnection comes to be expected *)

(** A stream error or failure after which the client is not to come back: another client
    took the connection, the device was removed, or the server refuses the client for any
    reason but an error of its own or the crypto auth token. *)
Definition errorCodeOf (n : node) : string := match lookupAttr "code" (Attrs n) with Some (VString code) => code | _ => "" end.
Definition conflictOf (n : node) : string := (OptionalString "type" (AttrGetter_of (GetOptionalChildByTag n ["conflict"]).1)).1.
Definition finalNode (n : node) : Prop :=
  (Tag n = "stream:error" ∧ errorCodeOf n ≠ "515" ∧ (conflictOf n = "replaced" ∨ errorCodeOf n = "401" ∧ conflictOf n = "device_removed")) ∨
  (Tag n = "failure" ∧ (attrInt "reason" (AttrGetter_of n)).1 ∉ [500; 503; 413; 414]%Z).

(** The user disconnects, or the handler gets such a node. *)
Definition ending (a : action) (s : connection) : Prop :=
  a = UserDisconnect ∨
  ∃ i n rest, a = Handle i ∧ queues s !! i = Some (mkQueue (n :: rest) false) ∧
    (socketConnected i s = true ∨ isStreamError n = true) ∧ finalNode n.

(** No goroutine and no node of a queue is about to connect. *)
Definition quiet (s : connection) : Prop :=
  Forall calmTask (tasks s) ∧ Forall (λ q, Forall (λ n, ¬ restarts n) (pending q)) (queues s).
Lemma quiet_expect s : quiet s → calm (expectDisconnect s).
Proof. by intros [Ht Hq]. Qed.

(** Such a node is handled as if the disconnection had been expected already. *)
Lemma handleNode_final cfg c n s : finalNode n → handleNode cfg c n s = handleNode cfg c n (expectDisconnect s).
Proof.
  intros [(Ht & Hc & Hk)|[Ht Hr]]; unfold handleNode, isStreamError; rewrite Ht.
  - cbn [bool_decide decide decide_rel]. rewrite bool_decide_true by done. unfold handleStreamError. fold (errorCodeOf n). fold (conflictOf n).
    rewrite !(decide_False (P := errorCodeOf n = "515")) by done. case_decide; [done|].
    rewrite !(decide_True (P := conflictOf n = "replaced")) by tauto. done.
  - rewrite bool_decide_false by done. rewrite !decide_True by done. unfold handleConnectFailure. rewrite !attrM_bind_run.
    set (reason := (attrInt "reason" _).1) in *. cbn [mret attrM_ret]. unfold attrM_ret.
    rewrite !(bool_decide_false (reason = ConnectFailureServiceUnavailable ∨ reason = ConnectFailureInternalServerError))
      by (intros [Hx|Hx]; rewrite Hx in Hr; set_solver).
    assert (catReason reason = false) as ->
      by (apply bool_decide_false; intros [Hx|Hx]; rewrite Hx in Hr; set_solver).
    done.
Qed.
Lemma finalNode_stays n : finalNode n → ¬ restarts n.
Proof.
  intros [(_ & Hc & _)|[Ht _]] [Hs Hcode]; [|unfold isStreamError in Hs; by rewrite Ht in Hs].
  apply Hc. unfold errorCodeOf. by rewrite Hcode.
Qed.

Lemma ending_calm cfg c a s s' : quiet s → ending a s → act cfg c a s = Some s' → calm s' ∧ history s' = history s.
Proof.
  intros Hq Ha. unfold act. destruct (crashed s); [done|]. destruct Ha as [->|(i & n & rest & -> & Hi & Hconn & Hn)].
  - intros Hd. unfold Disconnect in Hd. exact (stays_unlockedDisconnect _ _ _ Hd (quiet_expect s Hq)).
  - unfold handleNext. rewrite Hi. set (s1 := set_queues _ s).
    assert (socketConnected i s1 || isStreamError n = true) as -> by (change (socketConnected i s1) with (socketConnected i s); destruct Hconn as [-> | ->]; [done|by rewrite orb_true_r]).
    intros [= <-]. rewrite handleNode_final by done. apply (stays_node cfg c n (expectDisconnect s1)); [by apply finalNode_stays|].
    apply quiet_expect. destruct Hq as [Ht Hqs]. split; [done|]. apply Forall_insert; [done|].
    pose proof (proj1 (Forall_lookup _ _) Hqs _ _ Hi) as Hp. by apply Forall_cons in Hp as [_ ?].
Qed.

(** C32: an expected disconnection is final. Let no goroutine be about to connect and
    no restart (a 515) be queued, and let the user disconnect, or let the client handle a
    stream error or failure after which it is not to come back. Then, as long as nobody asks
    for a connection anew (the user, a keep-alive that failed, a 515), neither a node that still
    arrives, nor the end of a connection, a full queue, [ResetConnection] or a goroutine that
    runs late makes the client connect again or report that it was disconnected. Outside of this
    a disconnection may be undone: [disconnect_undone] below, and a keep-alive that fails at the
    same time. *)
Theorem expected_disconnect_final cfg c a l s s' (Hquiet : quiet s) (Hending : ending a s)
    (Hrun : run cfg ((c, a) :: l) s = Some s') (Hl : Forall (λ x, calmAction x.2) l) :
  expectedDisconnect s' = true ∧ history s' = history s ∧ (∀ t, t ∈ tasks s' → calmTask t).
Proof.
  cbn [run] in Hrun. apply bind_Some in Hrun as (s1 & Hact & Hrun). destruct (ending_calm _ _ _ _ _ Hquiet Hending Hact) as [Hcalm Hh1].
  assert (calm s' ∧ history s' = history s1) as [[He Ht _] Hh].
  { clear -Hcalm Hrun Hl. revert s1 Hcalm Hrun. induction Hl as [|[c a] l Ha _ IH]; intros s Hs; cbn [run]; [by intros [= <-]|].
    intros (s1 & Hact & Hrun)%bind_Some. destruct (stays_act _ _ _ _ _ Ha Hact Hs) as [Hs1 Hh1].
    destruct (IH s1 Hs1 Hrun) as [Hs2 Hh2]. split; [done|congruence]. }
  split; [done|]. split; [congruence|]. by apply Forall_forall.
Qed.

(** ** Runs *)

Definition toySettings : settings := mkSettings false true true false false.
Definition usual : choices := mkChoices true Dialed true true true.
Definition streamError (code : string) (children : list node) : node := mkNode "stream:error" [("code", VString code)] (VNodes children).
Definition usually (l : list action) : list (choices * action) := (λ a, (usual, a)) <$> l.
Definition runOf (l : list action) : option connection := run toySettings (usually l) (initial true).

(** A connection is lost and made again. *)
Definition reconnected : list action :=
  [UserConnect; RemoteClose 0; Run 0; EndQueue 0; Run 0; Run 0; Run 0; Run 0].
Definition reconnectedState : connection := Eval vm_compute in default (initial true) (runOf reconnected).
Lemma reconnected_run : run toySettings (usually reconnected) (initial true) = Some reconnectedState.
Proof. vm_compute. reflexivity. Qed.
Lemma one_connection_witness :
  socketConnected 1 reconnectedState = true ∧ socketConnected 0 reconnectedState = false ∧ socket reconnectedState = Some 1%nat
  ∧ dispatched reconnectedState = [Disconnected].
Proof.
  destruct (one_connection toySettings true (usually reconnected) reconnectedState reconnected_run) as (Hone & _ & _).
  split; [reflexivity|]. split; [reflexivity|]. split; [apply (Hone 1%nat); reflexivity|reflexivity].
Defined.

(** The user disconnects; or the connection is replaced by that of another client. *)
Definition connectedState : connection := Eval vm_compute in default (initial true) (runOf [UserConnect]).
Definition disconnection : list (choices * action) := usually [UserReset; EndQueue 0; UserDisconnect].
Definition disconnectedEnd : connection :=
  Eval vm_compute in default (initial true) (run toySettings ((mkChoices false Dialed true true true, UserDisconnect) :: disconnection) connectedState).
Lemma disconnected_run :
  run toySettings ((mkChoices false Dialed true true true, UserDisconnect) :: disconnection) connectedState = Some disconnectedEnd.
Proof. vm_compute. reflexivity. Qed.

Definition replacedNode : node := streamError "" [mkNode "conflict" [("type", VString "replaced")] VNil].
Definition toldState : connection := Eval vm_compute in default (initial true) (runOf [UserConnect; Receive 0 replacedNode]).
Definition afterwards : list (choices * action) := usually [RemoteClose 0; Run 0; EndQueue 0; Run 0; UserReset].
Definition replacedEnd : connection :=
  Eval vm_compute in default (initial true) (run toySettings ((usual, Handle 0) :: afterwards) toldState).
Lemma replaced_run : run toySettings ((usual, Handle 0) :: afterwards) toldState = Some replacedEnd.
Proof. vm_compute. reflexivity. Qed.
Lemma replaced_final : finalNode replacedNode.
Proof. left. split; [reflexivity|]. split; [discriminate|]. left. reflexivity. Qed.

Lemma expected_disconnect_final_witness :
  (expectedDisconnect connectedState = false ∧ expectedDisconnect disconnectedEnd = true ∧ history disconnectedEnd = (1%nat, []) ∧
   socketConnected 0 disconnectedEnd = false) ∧
  (dispatched replacedEnd = [StreamReplaced] ∧ expectedDisconnect replacedEnd = true ∧ history replacedEnd = (1%nat, []) ∧
   tasks replacedEnd = [] ∧ socketConnected 0 replacedEnd = false).
Proof.
  destruct (expected_disconnect_final toySettings _ _ _ connectedState disconnectedEnd ltac:(split; repeat constructor)
    (or_introl eq_refl) disconnected_run ltac:(repeat constructor)) as (He1 & Hh1 & _).
  destruct (expected_disconnect_final toySettings _ _ _ toldState replacedEnd
    ltac:(split; [repeat constructor|repeat constructor; intros [_ Hc]; discriminate Hc])
    (or_intror (ex_intro _ 0%nat (ex_intro _ replacedNode (ex_intro _ [] (conj eq_refl (conj eq_refl (conj (or_introl eq_refl) replaced_final)))))))
    replaced_run ltac:(repeat constructor)) as (He2 & Hh2 & _).
  split.
  - split; [reflexivity|]. split; [exact He1|]. split; [rewrite Hh1; reflexivity|reflexivity].
  - split; [reflexivity|]. split; [exact He2|]. split; [rewrite Hh2; reflexivity|split; reflexivity].
Defined.

(** The delay of a reconnection ends before [Disconnect] is called, and the goroutine gets
    the socket's lock after it: the client connects although it was disconnected. *)
Definition undone : list action :=
  [UserConnect; RemoteClose 0; Run 0; EndQueue 0; Run 0; Run 0; Run 0; UserDisconnect; Run 0].
Lemma disconnect_undone : ∃ s, runOf undone = Some s ∧ socketConnected 1 s = true ∧ expectedDisconnect s = false.
Proof. eexists. split; [vm_compute; reflexivity|done]. Qed.

(** A connection that ends after the handshake and before its handler of disconnections
    is set: the client keeps the dead socket, and nothing is going to happen. *)
Lemma lost_connection_unnoticed :
  ∃ s, run toySettings [(mkChoices true DialedAndLost true true true, UserConnect); (usual, EndQueue 0)] (initial true) = Some s
    ∧ socket s = Some 0%nat ∧ socketConnected 0 s = false ∧ tasks s = [] ∧ dispatched s = [].
Proof. eexists. split; [vm_compute; reflexivity|done]. Qed.

(** A failure that says that the device was logged out is dropped when the connection
    closes before the queue comes to it, and the client reconnects. *)
Definition dropped : list action :=
  [UserConnect; Receive 0 (mkNode "failure" [("reason", VString "401")] VNil); RemoteClose 0; Handle 0; Run 0; EndQueue 0; Run 0; Run 0; Run 0; Run 0].
Lemma failure_dropped : ∃ s, runOf dropped = Some s ∧ socketConnected 1 s = true ∧ dispatched s = [Disconnected].
Proof. eexists. split; [vm_compute; reflexivity|done]. Qed.

(** A failure of the crypto auth token where no function renews it. *)
Lemma token_failure_crashes :
  ∃ s, runOf [UserConnect; Receive 0 (mkNode "failure" [("reason", VString "413")] VNil); Handle 0] = Some s ∧ crashed s = true.
Proof. eexists. split; [vm_compute; reflexivity|done]. Qed.
