(* ===== verification/Receipts.v ===== *)
(** Receipts and acknowledgements (src/receipt.go): the nodes sent in answer to a
    stanza, the receipts marking messages as read, and incoming receipts; with the
    table of bots (src/types/botmap.go) and what the client does to the outside. *)
From Stdlib Require Import ZArith Lia.
From Stdlib Require Import Strings.Byte.
From stdpp Require Import prelude strings list.
From S2P Require Import Prelude Strconv Jid Node Attrs Decoder MessageInfo.

#[local] Open Scope string_scope.

(** ** The bots' phone numbers *)

(** Users of the bot server and of the phone number server. *)
Definition BotJIDMap : list (string * string) := [
  ("867051314767696", "13135550002");
  ("1061492271844689", "13135550005");
  ("245886058483988", "13135550009");
  ("3509905702656130", "13135550012");
  ("1059680132034576", "13135550013");
  ("715681030623646", "13135550014");
  ("1644971366323052", "13135550015");
  ("582497970646566", "13135550019");
  ("645459357769306", "13135550022");
  ("294997126699143", "13135550023");
  ("1522631578502677", "13135550027");
  ("719421926276396", "13135550030");
  ("1788488635002167", "13135550031");
  ("24232338603080193", "13135550033");
  ("689289903143209", "13135550035");
  ("871626054177096", "13135550039");
  ("362351902849370", "13135550042");
  ("1744617646041527", "13135550043");
  ("893887762270570", "13135550046");
  ("1155032702135830", "13135550047");
  ("333931965993883", "13135550048");
  ("853748013058752", "13135550049");
  ("1559068611564819", "13135550053");
  ("890487432705716", "13135550054");
  ("240254602395494", "13135550055");
  ("1578420349663261", "13135550062");
  ("322908887140421", "13135550065");
  ("3713961535514771", "13135550067");
  ("997884654811738", "13135550070");
  ("403157239387035", "13135550081");
  ("535242369074963", "13135550082");
  ("946293427247659", "13135550083");
  ("3664707673802291", "13135550084");
  ("1821827464894892", "13135550085");
  ("1760312477828757", "13135550086");
  ("439480398712216", "13135550087");
  ("1876735582800984", "13135550088");
  ("984025089825661", "13135550089");
  ("1001336351558186", "13135550090");
  ("3739346336347061", "13135550091");
  ("3632749426974980", "13135550092");
  ("427864203481615", "13135550093");
  ("1434734570493055", "13135550094");
  ("992873449225921", "13135550095");
  ("813087747426445", "13135550096");
  ("806369104931434", "13135550098");
  ("1220982902403148", "13135550099");
  ("1365893374104393", "13135550100");
  ("686482033622048", "13135550200");
  ("1454999838411253", "13135550201");
  ("718584497008509", "13135550202");
  ("743520384213443", "13135550301");
  ("1147715789823789", "13135550302");
  ("1173034540372201", "13135550303");
  ("974785541030953", "13135550304");
  ("1122200255531507", "13135550305");
  ("899669714813162", "13135550306");
  ("631880108970650", "13135550307");
  ("435816149330026", "13135550308");
  ("1368717161184556", "13135550309");
  ("7849963461784891", "13135550310");
  ("3609617065968984", "13135550312");
  ("356273980574602", "13135550313");
  ("1043447920539760", "13135550314");
  ("1052764336525346", "13135550315");
  ("2631118843732685", "13135550316");
  ("510505411332176", "13135550317");
  ("1945664239227513", "13135550318");
  ("1518594378764656", "13135550319");
  ("1378821579456138", "13135550320");
  ("490214716896013", "13135550321");
  ("1028577858870699", "13135550322");
  ("308915665545959", "13135550323");
  ("845884253678900", "13135550324");
  ("995031308616442", "13135550325");
  ("2787365464763437", "13135550326");
  ("1532790990671645", "13135550327");
  ("302617036180485", "13135550328");
  ("723376723197227", "13135550329");
  ("8393570407377966", "13135550330");
  ("1931159970680725", "13135550331");
  ("401073885688605", "13135550332");
  ("2234478453565422", "13135550334");
  ("814748673882312", "13135550335");
  ("26133635056281592", "13135550336");
  ("1439804456676119", "13135550337");
  ("889851503172161", "13135550338");
  ("1018283232836879", "13135550339");
  ("1012781386779537", "13135559000");
  ("823280953239532", "13135559001");
  ("1597090934573334", "13135559002");
  ("485965054020343", "13135559003");
  ("1033381648363446", "13135559004");
  ("491802010206446", "13135559005");
  ("1017139033184870", "13135559006");
  ("499638325922174", "13135559008");
  ("468946335863664", "13135559009");
  ("1570389776875816", "13135559010");
  ("1004342694328995", "13135559011");
  ("1012240323971229", "13135559012");
  ("392171787222419", "13135559013");
  ("952081212945019", "13135559016");
  ("444507875070178", "13135559017");
  ("1274819440594668", "13135559018");
  ("1397041101147050", "13135559019");
  ("425657699872640", "13135559020");
  ("532292852562549", "13135559021");
  ("705863241720292", "13135559022");
  ("476449815183959", "13135559023");
  ("488071553854222", "13135559024");
  ("468693832665397", "13135559025");
  ("517422564037340", "13135559026");
  ("819805466613825", "13135559027");
  ("1847708235641382", "13135559028");
  ("716282970644228", "13135559029");
  ("521655380527741", "13135559030");
  ("476193631941905", "13135559031");
  ("485600497445562", "13135559032");
  ("440217235683910", "13135559033");
  ("523342446758478", "13135559034");
  ("514784864360240", "13135559035");
  ("505790121814530", "13135559036");
  ("420008964419580", "13135559037");
  ("492141680204555", "13135559038");
  ("388462787271952", "13135559039");
  ("423473920752072", "13135559040");
  ("489574180468229", "13135559041");
  ("432360635854105", "13135559042");
  ("477878201669248", "13135559043");
  ("351656951234045", "13135559044");
  ("430178036732582", "13135559045");
  ("434537312944552", "13135559046");
  ("1240614300631808", "13135559047");
  ("473135945605128", "13135559048");
  ("423669800729310", "13135559049");
  ("3685666705015792", "13135559050");
  ("504196509016638", "13135559051");
  ("346844785189449", "13135559052");
  ("504823088911074", "13135559053");
  ("402669415797083", "13135559054");
  ("490939640234431", "13135559055");
  ("875124128063715", "13135559056");
  ("468788962654605", "13135559057");
  ("562386196354570", "13135559058");
  ("372159285928791", "13135559059");
  ("531017479591050", "13135559060");
  ("1328873881401826", "13135559061");
  ("1608363646390484", "13135559062");
  ("1229628561554232", "13135559063");
  ("348802211530364", "13135559064");
  ("3708535859420184", "13135559065");
  ("415517767742187", "13135559066");
  ("479330341612638", "13135559067");
  ("480785414723083", "13135559068");
  ("387299107507991", "13135559069");
  ("333389813188944", "13135559070");
  ("391794130316996", "13135559071");
  ("457893470576314", "13135559072");
  ("435550496166469", "13135559073");
  ("1620162702100689", "13135559074");
  ("867491058616043", "13135559075");
  ("816224117357759", "13135559076");
  ("334065176362830", "13135559077");
  ("489973170554709", "13135559078");
  ("473060669049665", "13135559079");
  ("1221505815643060", "13135559080");
  ("889000703096359", "13135559081");
  ("475235961979883", "13135559082");
  ("3434445653519934", "13135559084");
  ("524503026827421", "13135559085");
  ("1179639046403856", "13135559086");
  ("471563305859144", "13135559087");
  ("533896609192881", "13135559088");
  ("365443583168041", "13135559089");
  ("836082305329393", "13135559090");
  ("1056787705969916", "13135559091");
  ("503312598958357", "13135559092");
  ("3718606738453460", "13135559093");
  ("826066052850902", "13135559094");
  ("1033611345091888", "13135559095");
  ("3868390816783240", "13135559096");
  ("7462677740498860", "13135559097");
  ("436288576108573", "13135559098");
  ("1047559746718900", "13135559099");
  ("1099299455255491", "13135559100");
  ("1202037301040633", "13135559101");
  ("1720619402074074", "13135559102");
  ("1030422235101467", "13135559103");
  ("827238979523502", "13135559104");
  ("1516443722284921", "13135559105");
  ("1174442747196709", "13135559106");
  ("1653165225503842", "13135559107");
  ("1037648777635013", "13135559108");
  ("551617757299900", "13135559109");
  ("1158813558718726", "13135559110");
  ("2463236450542262", "13135559111");
  ("1550393252501466", "13135559112");
  ("2057065188042796", "13135559113");
  ("506163028760735", "13135559114");
  ("2065249100538481", "13135559115");
  ("1041382867195858", "13135559116");
  ("886500209499603", "13135559117");
  ("1491615624892655", "13135559118");
  ("486563697299617", "13135559119");
  ("1175736513679463", "13135559120");
  ("491811473512352", "13165550064")].

Definition botAlternate (j : JID) : option JID :=
  if decide (j = NewJID (User j) BotServer) then
    match list_find (λ row, row.1 = User j) BotJIDMap with
    | Some (_, (_, pn)) => Some (NewJID pn DefaultUserServer)
    | None => None
    end
  else None.

(** ** What the client does to the outside

    [Sent]: a node handed to the socket, which logs a failure; [Dispatched]: an event
    handed to the event handlers, and whether one of them failed; [Started]: a call
    that Go runs in a goroutine of its own, where it is started. *)
Inductive effect (E : Type) := Sent (n : node) | Dispatched (e : E) (failed : bool) | Started (e : E).
Arguments Sent {E}.
Arguments Dispatched {E}.
Arguments Started {E}.

Abbreviation logM E := (stateM (list (effect E)) Empty_set).

Inductive handlerResult := HandlerOk | HandlerFailed | HandlerPanicked.

(** [dispatchEvent]: the handlers run until one reports a failure; a panic is
    recovered and counts as none. *)
Fixpoint runHandlers {E} (handlers : list (E → handlerResult)) (e : E) : bool :=
  match handlers with
  | [] => false
  | handler :: handlers =>
      match handler e with
      | HandlerOk => runHandlers handlers e
      | HandlerFailed => true
      | HandlerPanicked => false
      end
  end.

Section effects.
(** What a handler answers may depend on all that has happened before. *)
Context {E : Type} (handlers : list (list (effect E) → E → handlerResult)).

Definition dispatchEvent (e : E) : logM E bool := λ log,
  let failed := runHandlers ((λ h, h log) <$> handlers) e in (Ok failed, (log ++ [Dispatched e failed])%list).
Definition sendNode (n : node) : logM E unit := modify (λ log, (log ++ [Sent n])%list).
End effects.

(** ** Acknowledgements *)

Definition NackParsingError : Z := 487.
Definition NackUnrecognizedStanza : Z := 488.
Definition NackInvalidProtobuf : Z := 491.
Definition NackMissingMessageSecret : Z := 495.

(** Indexing the attributes; a missing key reads as nil. *)
Definition attr (n : node) (key : string) : value := default VNil (lookupAttr key (Attrs n)).

(** Copying an attribute that is there. *)
Definition copyAttr (n : node) (key : string) (attrs : list (string * value)) : list (string * value) :=
  match lookupAttr key (Attrs n) with Some v => setAttr key v attrs | None => attrs end.

(** The recipient of an acknowledgement: a bot's phone number for a bot. *)
Definition ackRecipient (n : node) (recipient : value) : value :=
  match recipient with
  | VJID j =>
      if decide (Server j = BotServer ∧ Tag n = "message") then
        match botAlternate j with Some alt => VJID alt | None => recipient end
      else recipient
  | _ => recipient
  end.

Definition ackAttrs (n : node) (error : Z) : list (string * value) :=
  let attrs := [("class", VString (Tag n)); ("id", attr n "id"); ("to", attr n "from")] in
  let attrs := copyAttr n "participant" attrs in
  let attrs :=
    match lookupAttr "recipient" (Attrs n) with
    | Some recipient => setAttr "recipient" (ackRecipient n recipient) attrs
    | None => attrs
    end in
  let attrs := if decide (Tag n = "message") then attrs else copyAttr n "type" attrs in
  if decide (error = 0%Z) then attrs else setAttr "error" (VInt error) attrs.

Definition ackNode (n : node) (error : Z) : node := mkNode "ack" (ackAttrs n error) VNil.
Definition sendAck {E} (n : node) (error : Z) : logM E unit := sendNode (ackNode n error).

(** [maybeDeferredAck] around a call: with [synchronous] the acknowledgement follows
    the call unless it failed or the context was cancelled. *)
Definition withAck {E} (synchronous cancelled : bool) (n : node) (body : logM E bool) : logM E unit :=
  if synchronous then
    failed ← body;
    if (cancelled || failed)%bool then mret tt else sendAck n 0
  else
    _ ← sendAck n 0;
    _ ← body;
    mret tt.

(** ** Receipts for messages *)

Definition ReceiptTypeSender : string := "sender".
Definition ReceiptTypeRetry : string := "retry".
Definition ReceiptTypeRead : string := "read".
Definition ReceiptTypeReadSelf : string := "read-self".
Definition ReceiptTypeInactive : string := "inactive".
Definition ReceiptTypePeerMsg : string := "peer_msg".

Definition buildBaseReceipt (id : string) (n : node) : list (string * value) :=
  copyAttr n "participant" (copyAttr n "recipient" [("id", VString id); ("to", attr n "from")]).

(** [active]: whether the client sends active receipts. *)
Definition messageReceipt {V} (active : bool) (info : MessageInfo V) (n : node) : node :=
  let attrs := buildBaseReceipt (ID info) n in
  mkNode "receipt"
    (if IsFromMe (source info) then
       setAttr "type" (VString (if decide (Type_ info = "peer_msg") then ReceiptTypePeerMsg else ReceiptTypeSender)) attrs
     else if active then attrs
     else setAttr "type" (VString ReceiptTypeInactive) attrs) VNil.

(** [readReceiptsOff]: whether the privacy settings turn read receipts off. *)
Inductive markReadError := NoMessageIDs | TooManyReceiptTypes.
Definition MarkRead (readReceiptsOff : bool) (ids : list string) (timestamp : Z) (chat sender : JID) (receiptTypeExtra : list string) :
    outcome markReadError node :=
  match ids with
  | [] => Err NoMessageIDs
  | id0 :: more =>
      match receiptTypeExtra with
      | _ :: _ :: _ => Err TooManyReceiptTypes
      | _ =>
          let receiptType := default ReceiptTypeRead (head receiptTypeExtra) in
          let receiptType :=
            if (bool_decide (Server chat = NewsletterServer) || readReceiptsOff) && bool_decide (receiptType = ReceiptTypeRead)
            then ReceiptTypeReadSelf else receiptType in
          let attrs := [("id", VString id0); ("type", VString receiptType); ("to", VJID chat); ("t", VInt64 timestamp)] in
          let attrs :=
            if negb (IsEmpty sender) && negb (bool_decide (Server chat ∈ [DefaultUserServer; HiddenUserServer; MessengerServer]))
            then attrs ++ [("participant", VJID (ToNonAD sender))] else attrs in
          Ok (mkNode "receipt" attrs
            (match more with
             | [] => VNil
             | _ => VNodes [mkNode "list" [] (VNodes ((λ id, mkNode "item" [("id", VString id)] VNil) <$> more))]
             end))
      end
  end%list.

(** ** Incoming receipts *)

Record Receipt := mkReceipt {
  rSource : MessageSource;
  MessageIDs : list string;
  rTimestamp : goTime;
  rType : string;
  MessageSender : JID
}.

Inductive receiptError := BadSource (e : messageError) | MissingParticipants | BadReceiptAttrs (es : list attrError).

(** The ids of a receipt: its own and those of its list. *)
Definition receiptIDs (mainMessageID : string) (n : node) : list string :=
  match GetChildren n with
  | [c] =>
      if decide (Tag c = "list") then
        mainMessageID :: omap (λ item,
          match lookupAttr "id" (Attrs item) with
          | Some (VString id) => if decide (Tag item = "item") then Some id else None
          | _ => None
          end) (GetChildren c)
      else [mainMessageID]
  | _ => [mainMessageID]
  end.

(** The receipt, and the participants of one for several users. *)
Definition parseReceipt (clientID clientLID : JID) (n : node) : outcome receiptError (Receipt * option (list node)) :=
  source ← map_err BadSource (parseMessageSource clientID clientLID n false);
  let '(t, ag) := attrUnixTime "t" (AttrGetter_of n) in
  let '(type, ag) := OptionalString "type" ag in
  let '(sender, ag) := OptionalJIDOrEmpty "recipient" ag in
  let receipt ids := mkReceipt source ids t type sender in
  if IsGroup source && IsEmpty (Sender source) then
    match GetChildrenByTag n "participants" with
    | [] => Err MissingParticipants
    | ps => Ok (receipt [], Some ps)
    end
  else
    let '(mainMessageID, ag) := attrString "id" ag in
    if OK ag then Ok (receipt (receiptIDs mainMessageID n), None) else Err (BadReceiptAttrs (Errors ag)).

(** The receipt of one user of a grouped receipt, unless it cannot be read. *)
Definition userReceipt (partialReceipt : Receipt) (key : string) (child : node) : option Receipt :=
  if decide (Tag child ≠ "user") then None
  else
    let '(t, ag) := attrUnixTime "t" (AttrGetter_of child) in
    let '(j, ag) := attrJID "jid" ag in
    let 'mkSource chat _ me grp mode alt ralt owner rs := rSource partialReceipt in
    if OK ag then Some (mkReceipt (mkSource chat j me grp mode alt ralt owner rs) [key] t (rType partialReceipt) (MessageSender partialReceipt))
    else None.

Section incoming.
(** [event]: the event a receipt is dispatched as; [tryHandleRetryReceipt] sends its
    own acknowledgement. *)
Context {E : Type} (handlers : list (list (effect E) → E → handlerResult)) (event : Receipt → E).
Context (synchronous cancelled : bool) (tryHandleRetryReceipt : Receipt → node → logM E unit).

Fixpoint dispatchReceipts (receipts : list Receipt) (failed : bool) : logM E bool :=
  match receipts with
  | [] => mret failed
  | r :: receipts => f ← dispatchEvent handlers (event r); dispatchReceipts receipts (f || failed)
  end.

Definition handleGroupedReceipt (partialReceipt : Receipt) (participants : node) : logM E bool :=
  let key := (attrString "key" (AttrGetter_of participants)).1 in
  dispatchReceipts (omap (userReceipt partialReceipt key) (GetChildren participants)) false.

(** Only the verdict of the last group counts. *)
Fixpoint handleParticipants (receipt : Receipt) (participants : list node) (failed : bool) : logM E bool :=
  match participants with
  | [] => mret failed
  | p :: participants => failed ← handleGroupedReceipt receipt p; handleParticipants receipt participants failed
  end.

Definition handleReceipt (clientID clientLID : JID) (n : node) : logM E unit :=
  match parseReceipt clientID clientLID n with
  | Ok (receipt, Some participants) => withAck synchronous cancelled n (handleParticipants receipt participants false)
  | Ok (receipt, None) =>
      if decide (rType receipt = ReceiptTypeRetry) then
        _ ← tryHandleRetryReceipt receipt n;
        _ ← dispatchEvent handlers (event receipt);
        mret tt
      else withAck synchronous cancelled n (dispatchEvent handlers (event receipt))
  | Err _ => sendAck n NackParsingError
  | Panic | OutOfFuel => mret tt
  end.
End incoming.

(** * Properties *)

(** A read receipt names exactly the messages it was made for, in order. *)
Theorem MarkRead_ids (off : bool) (ids : list string) (timestamp : Z) (chat sender : JID) (extra : list string) (n : node) :
  MarkRead off ids timestamp chat sender extra = Ok n →
  receiptIDs (attrString "id" (AttrGetter_of n)).1 n = ids.
Proof.
  unfold MarkRead. destruct ids as [|id0 more]; [done|].
  assert (∀ ty, receiptIDs id0 (mkNode "receipt" ty
    match more with [] => VNil | _ => VNodes [mkNode "list" [] (VNodes ((λ id, mkNode "item" [("id", VString id)] VNil) <$> more))] end) = id0 :: more) as Hids.
  { intros ty. destruct more as [|id1 more]; [done|]. unfold receiptIDs, GetChildren. cbn [Content]. rewrite decide_True by done. f_equal.
    cbn [Content]. induction (id1 :: more) as [|id l IH]; [done|]. cbn. by rewrite IH. }
  destruct extra as [|? [|? ?]]; [| |done]; intros [= <-]; destruct (negb (IsEmpty sender) && _); apply Hids.
Qed.

(** An acknowledgement carries the class, id and sender of what it answers. *)
Lemma lookup_setAttr k v k' attrs : lookupAttr k' (setAttr k v attrs) = if decide (k = k') then Some v else lookupAttr k' attrs.
Proof.
  induction attrs as [|[k0 v0] attrs IH]; cbn; [by repeat case_decide|].
  destruct (decide (k0 = k)) as [->|]; cbn; repeat case_decide; try done; congruence.
Qed.

Lemma lookup_copyAttr n k k' attrs :
  k ≠ k' → lookupAttr k' (copyAttr n k attrs) = lookupAttr k' attrs.
Proof. intros Hk. unfold copyAttr. destruct (lookupAttr k (Attrs n)); [|done]. by rewrite lookup_setAttr, decide_False. Qed.

Lemma ackNode_addressed (n : node) (error : Z) :
  attr (ackNode n error) "class" = VString (Tag n) ∧ attr (ackNode n error) "id" = attr n "id" ∧
  attr (ackNode n error) "to" = attr n "from" ∧
  (lookupAttr "error" (Attrs n) = None → attr (ackNode n error) "error" = if decide (error = 0%Z) then VNil else VInt error).
Proof.
  unfold ackNode, ackAttrs, attr. cbn [Attrs].
  assert (∀ k, k ∉ ["participant"; "recipient"; "type"; "error"] →
    lookupAttr k (ackAttrs n error) = lookupAttr k [("class", VString (Tag n)); ("id", attr n "id"); ("to", attr n "from")]) as Hk.
  { intros k Hk. unfold ackAttrs. rewrite !not_elem_of_cons in Hk. destruct Hk as (? & ? & ? & ? & _).
    repeat first [case_decide | case_match]; rewrite ?lookup_setAttr, ?decide_False, ?lookup_copyAttr, ?lookup_setAttr, ?decide_False, ?lookup_copyAttr by done; done. }
  unfold ackAttrs in Hk. rewrite !Hk by (cbn; set_solver). split_and!; [done..|]. intros _.
  destruct (decide (error = 0%Z)) as [->|]; [|by rewrite lookup_setAttr, decide_True].
  repeat first [case_decide | case_match]; rewrite ?lookup_copyAttr, ?lookup_setAttr, ?decide_False, ?lookup_copyAttr by done; done.
Qed.

(** With several groups in one receipt, a failed handler of an earlier group does not
    keep the acknowledgement back. *)
Example failed_group_acknowledged :
  let user j := mkNode "user" [("jid", VJID (NewJID j DefaultUserServer)); ("t", VString "5")] VNil in
  let n := mkNode "receipt" [("from", VJID (NewJID "1-2" GroupServer)); ("id", VString "R"); ("t", VString "5")]
    (VNodes [mkNode "participants" [("key", VString "A")] (VNodes [user "11"]); mkNode "participants" [("key", VString "B")] (VNodes [user "12"])]) in
  let fails (_ : list (effect Receipt)) r := if decide (MessageIDs r = ["A"]) then HandlerFailed else HandlerOk in
  snd <$> [handleReceipt [fails] id true false (λ _ _, mret tt) (NewJID "99" DefaultUserServer) EmptyJID n []]
  = [[Dispatched (mkReceipt (mkSource (NewJID "1-2" GroupServer) (NewJID "11" DefaultUserServer) true true "" EmptyJID EmptyJID EmptyJID []) ["A"] (UnixSec 5) "" EmptyJID) true;
      Dispatched (mkReceipt (mkSource (NewJID "1-2" GroupServer) (NewJID "12" DefaultUserServer) true true "" EmptyJID EmptyJID EmptyJID []) ["B"] (UnixSec 5) "" EmptyJID) false;
      Sent (ackNode n 0)]].
Proof. vm_compute. reflexivity. Qed.
