(* ===== verification/EventBuffer.v ===== *)
(** The buffers of events in the store (src/store/sqlstore/store.go): plaintexts of
    decrypted messages that their handlers have not finished with, and sent messages
    kept for retries; and decryption through the first buffer ([bufferedDecrypt] of
    src/message.go).

    The Signal library decrypts by statements on the same database, so that its
    sessions and the buffer change in one transaction; what the store keeps in memory
    is not part of it. *)
From Stdlib Require Import ZArith Lia.
From Stdlib Require Import Strings.Byte.
From stdpp Require Import prelude gmap strings list fin_maps.
From S2P Require Import Prelude Jid Cbc Sql.

#[local] Open Scope string_scope.

(** Errors of the Signal library that the client tells apart. *)
Inductive signalError := UntrustedIdentity | OldCounter | NoSenderKeyForUser | OtherSignalError | SignalDB (e : dbError).

(** [rowPlaintext]: NULL once the handlers are done with the event. *)
Record bufferRow := mkRow { rowPlaintext : option (list byte); serverTime : Z; insertTime : Z }.

(** A row of the retry buffer: its format, payload and time. *)
Record outgoingRow := mkOutgoing { format : string; payload : list byte; sentAt : Z }.

(** [R]: what the Signal library keeps. *)
Record eventTables (R : Type) := mkTables {
  ratchets : R;
  bufferedEvents : gmap (list byte) bufferRow;
  outgoingEvents : gmap (string * string) outgoingRow
}.
Arguments mkTables {R}.
Arguments ratchets {R}.
Arguments bufferedEvents {R}.
Arguments outgoingEvents {R}.

Section buffer.
(** [X]: what the Signal store keeps in memory. *)
Context {X R : Type}.
Abbreviation tables := (eventTables R).

Definition setBuffered (f : gmap (list byte) bufferRow → gmap (list byte) bufferRow) (t : tables) : tables :=
  mkTables (ratchets t) (f (bufferedEvents t)) (outgoingEvents t).
Definition setOutgoing (f : gmap (string * string) outgoingRow → gmap (string * string) outgoingRow) (t : tables) : tables :=
  mkTables (ratchets t) (bufferedEvents t) (f (outgoingEvents t)).

Definition GetBufferedEvent (hash : list byte) : dbM tables (option bufferRow) := select (λ t, bufferedEvents t !! hash).

(** The hash is the primary key. *)
Definition PutBufferedEvent (hash plaintext : list byte) (server now : Z) : dbM tables unit :=
  stmt (λ t, match bufferedEvents t !! hash with
             | Some _ => Err ConstraintFailed
             | None => Ok (tt, setBuffered (<[hash := mkRow (Some plaintext) server now]>) t)
             end).

Definition ClearBufferedEventPlaintext (hash : list byte) : dbM tables unit :=
  update (setBuffered (alter (λ row, mkRow None (serverTime row) (insertTime row)) hash)).

Definition dayMs : Z := 24 * 3600 * 1000.
Definition DeleteOldBufferedHashes (now : Z) : dbM tables unit :=
  update (setBuffered (filter (λ row, (now - 14 * dayMs <= insertTime row.2)%Z))).

(** ** The retry buffer *)

Definition GetOutgoingEvent (pick : list outgoingRow → option outgoingRow) (chatJID altChatJID : string) (id : string) :
    dbM tables (string * list byte) :=
  stmt (λ t,
    match pick (omap (λ chat, outgoingEvents t !! (chat, id)) (remove_dups [chatJID; altChatJID])) with
    | Some row => Ok ((format row, payload row), t)
    | None => Err NoRows
    end).

Definition AddOutgoingEvent (chatJID id format : string) (payload : list byte) (now : Z) : dbM tables unit :=
  update (setOutgoing (<[(chatJID, id) := mkOutgoing format payload now]>)).

Definition DeleteOldOutgoingEvents (now : Z) : dbM tables unit :=
  update (setOutgoing (filter (λ row, (now - 7 * dayMs <= sentAt row.2)%Z))).

(** ** Decrypting through the buffer *)

Inductive decryptError :=
| BufferReadFailed (e : dbError)
| EventAlreadyProcessed (at_ : Z)
| SignalFailed (e : signalError)
| SaveFailed (e : dbError)
| TxnFailed (e : dbError)
| NotBytes
| ParseFailed
| BadPadding
| EmptyPlaintext.

Abbreviation decryptM := (stateM (X * database tables) decryptError).

(** The Signal library on the tables: it does not know the buffers. *)
Definition onRatchets {A} (m : stateM (X * database R) signalError A) : decryptM A :=
  zoom (λ s, (s.1, mkDatabase (ratchets (content s.2)) (failing s.2)))
    (λ r s, (r.1, mkDatabase (mkTables (content r.2) (bufferedEvents (content s.2)) (outgoingEvents (content s.2))) (failing r.2)))
    SignalFailed m.

Definition sql {A} (err : dbError → decryptError) (m : dbM tables A) : decryptM A := zoom snd (λ d s, (s.1, d)) err m.

(** [DoDecryptionTxn]: any failure rolls the tables back, and only the tables. *)
Definition DoDecryptionTxn {A} (m : decryptM A) : decryptM A := λ s,
  match (_ ← sql TxnFailed (select (λ _, tt)); a ← m; _ ← sql TxnFailed (select (λ _, tt)); mret a) s with
  | (Ok a, s') => (Ok a, s')
  | (r, s') => (r, (s'.1, mkDatabase (content s.2) (failing s'.2)))
  end.

(** What the hash of a ciphertext is taken of. *)
Definition hashData (ciphertext : list byte) (extra : list string) : list byte :=
  ciphertext ++ concat ((λ part, x00 :: s2b part) <$> extra) ++ [x00; x00].

Context `{Crypto}.
Definition ciphertextHash (ciphertext : list byte) (extra : list string) : list byte := sha256 (hashData ciphertext extra).

(** [enabled]: EnableDecryptedEventBuffer; [now] in milliseconds. Without the buffer
    the hash is all zero. *)
Definition bufferedDecrypt (enabled : bool) (ciphertext : list byte) (serverTimestamp now : Z)
    (decrypt : stateM (X * database R) signalError (list byte)) (extra : list string) : decryptM (list byte * list byte) :=
  if negb enabled then plaintext ← onRatchets decrypt; mret (plaintext, replicate 32 x00)
  else
    let hash := ciphertextHash ciphertext extra in
    buf ← sql BufferReadFailed (GetBufferedEvent hash);
    match buf with
    | Some row =>
        match rowPlaintext row with
        | None => throw (EventAlreadyProcessed (insertTime row))
        | Some plaintext => mret (plaintext, hash)
        end
    | None =>
        plaintext ← DoDecryptionTxn
          (plaintext ← onRatchets decrypt;
           _ ← sql SaveFailed (PutBufferedEvent hash plaintext serverTimestamp now);
           mret plaintext);
        mret (plaintext, hash)
    end.

(** ** Padding *)

(** Asked of non-empty plaintexts only; Go would panic on an empty one. *)
Definition isValidPadding (plaintext : list byte) : bool :=
  match last plaintext with
  | None => false
  | Some b =>
      let n := Z.to_nat (b2z b) in
      bool_decide (n ≤ length plaintext)%nat && bool_decide (drop (length plaintext - n) plaintext = replicate n b)
  end.

Definition unpadMessage (plaintext : list byte) (version : Z) : outcome decryptError (list byte) :=
  if decide (version = 3%Z) then Ok plaintext
  else match last plaintext with
       | None => Err EmptyPlaintext
       | Some b => if isValidPadding plaintext then Ok (take (length plaintext - Z.to_nat (b2z b)) plaintext) else Err BadPadding
       end.

(** [random]: the random byte. *)
Definition padMessage (random : byte) (plaintext : list byte) : list byte :=
  let pad := z2b (Z.land (b2z random) 15) in
  let pad := if decide (pad = x00) then x0f else pad in
  plaintext ++ replicate (Z.to_nat (b2z pad)) pad.
End buffer.

(** * Properties *)

Abbreviation decryptM X R := (stateM (X * database (eventTables R)) decryptError).

Section theory.
Context {X R : Type} `{Crypto}.
Abbreviation tables := (eventTables R).
Implicit Types d : X * database tables.

Definition tabs d : tables := content d.2.
Definition rowsOf d : gmap (list byte) bufferRow := bufferedEvents (tabs d).

Lemma sql_run {A} err (m : dbM tables A) d r d' :
  sql err m d = (r, d') → ∃ r0, m d.2 = (r0, d'.2) ∧ r = map_err err r0 ∧ d'.1 = d.1.
Proof. unfold sql, zoom. cbn. destruct (m d.2) as [r0 d0] eqn:Hm. intros [= <- <-]. by exists r0. Qed.

Lemma onRatchets_run {A} (m : stateM (X * database R) signalError A) d r d' :
  onRatchets m d = (r, d') →
  rowsOf d' = rowsOf d ∧ outgoingEvents (tabs d') = outgoingEvents (tabs d) ∧
  ∃ r0 x, m (d.1, mkDatabase (ratchets (tabs d)) (failing d.2)) = (r0, x) ∧ r = map_err SignalFailed r0 ∧
    ratchets (tabs d') = content x.2 ∧ d'.1 = x.1.
Proof.
  unfold onRatchets, zoom. destruct (m _) as [r0 x] eqn:Hm. intros [= <- <-]. split; [done|]. split; [done|]. by exists r0, x.
Qed.

(** The transaction commits what its body did, or leaves everything as it was. *)
Lemma DoDecryptionTxn_cases {A} (m : decryptM X R A) d r d' :
  DoDecryptionTxn m d = (r, d') →
  (∃ a d1 d2, r = Ok a ∧ tabs d1 = tabs d ∧ m d1 = (Ok a, d2) ∧ tabs d' = tabs d2) ∨
  ((∀ a, r ≠ Ok a) ∧ tabs d' = tabs d).
Proof.
  unfold DoDecryptionTxn. match goal with |- (match ?x with _ => _ end) = _ → _ => destruct x as [[a1| | |] d1] eqn:Hr end;
    intros [= <- <-]; [|right; split; [done|done]..].
  left. inv_run. apply sql_run in Hx as (r0 & Hx & Hok & _), Hx1 as (r1 & Hx1 & Hok1 & _).
  destruct r0 as [u0| | |]; try discriminate Hok. destruct r1 as [u1| | |]; try discriminate Hok1.
  apply select_Ok in Hx as [_ Hx], Hx1 as [_ Hx1]. exists a1, s, s0. unfold tabs. split_and!; [done|done|done|congruence].
Qed.

(** What a decryption through the buffer does: it returns what the buffer holds, or
    refuses what the handlers are done with, or decrypts and keeps the plaintext, or
    fails and changes nothing. *)
Inductive buffered (hash : list byte) (now : Z) (d : X * database tables) (r : outcome decryptError (list byte * list byte))
    (d' : X * database tables) : Prop :=
| FromBuffer row p :
    rowsOf d !! hash = Some row → rowPlaintext row = Some p → r = Ok (p, hash) → tabs d' = tabs d → buffered hash now d r d'
| Processed row :
    rowsOf d !! hash = Some row → rowPlaintext row = None → r = Err (EventAlreadyProcessed (insertTime row)) →
    tabs d' = tabs d → buffered hash now d r d'
| Decrypted p row :
    rowsOf d !! hash = None → r = Ok (p, hash) → rowPlaintext row = Some p → insertTime row = now →
    rowsOf d' = <[hash := row]> (rowsOf d) → buffered hash now d r d'
| NotDecrypted :
    (∀ a, r ≠ Ok a) → tabs d' = tabs d → buffered hash now d r d'.

Lemma bufferedDecrypt_cases ciphertext server now decrypt extra d r d' :
  bufferedDecrypt true ciphertext server now decrypt extra d = (r, d') →
  buffered (ciphertextHash ciphertext extra) now d r d'.
Proof.
  unfold bufferedDecrypt. cbn [negb]. set (hash := ciphertextHash _ _).
  intros [(buf & d1 & H1 & H2)|(r1 & H1 & Hno & Hr)]%stateM_bind_run; apply sql_run in H1 as (r0 & H1 & Hmap & _).
  - destruct r0 as [b| | |]; try discriminate Hmap. injection Hmap as ->. apply select_Ok in H1 as [Hb Ht]. change (tabs d1 = tabs d) in Ht.
    destruct b as [row|].
    + destruct (rowPlaintext row) as [p|] eqn:Hp; injection H2 as <- <-; [by eapply FromBuffer|by eapply Processed].
    + apply stateM_bind_run in H2 as [(p & d2 & H2 & H3)|(r2 & H2 & Hno & Hr)].
      * injection H3 as <- <-. apply DoDecryptionTxn_cases in H2 as [(a & d3 & d4 & [= <-] & Ht3 & Hm & Ht4)|[Hno _]]; [|by destruct (Hno p)].
        apply stateM_bind_Ok in Hm as (p' & d5 & Hdec & Hm). apply stateM_bind_Ok in Hm as (u & d6 & Hput & [= <- <-]).
        apply onRatchets_run in Hdec as (Hrows & _). apply sql_run in Hput as (r3 & Hput & Hok & _).
        destruct r3 as [u3| | |]; try discriminate Hok. apply stmt_Ok in Hput as [Hput _].
        destruct (bufferedEvents (content d5.2) !! hash) eqn:H5; [discriminate Hput|]. injection Hput as _ Hput.
        eapply (Decrypted _ _ _ _ _ p' (mkRow (Some p') server now)); [by symmetry|done|done|done|].
        unfold rowsOf in *. rewrite Ht4. unfold tabs in *. rewrite <- Hput. cbn. by rewrite Hrows, Ht3, Ht.
      * apply DoDecryptionTxn_cases in H2 as [(a & _ & _ & -> & _)|[_ Ht2]]; [by destruct (Hno a)|].
        apply NotDecrypted; [done|congruence].
  - apply NotDecrypted; [done|]. eapply stmt_failed; [exact H1|]. intros a ->. by apply (Hno a).
Qed.

(** ** Deliveries *)

(** The server delivers a message once more when it has no acknowledgement. *)
Inductive delivery :=
| Deliver (ciphertext : list byte) (extra : list string) (server now : Z)
    (decrypt : stateM (X * database R) signalError (list byte)) (handled : bool)
| Prune (now : Z).

(** What the handlers were given, whether they finished with it, and whether the
    buffered plaintext could then be cleared; a failure of that is only logged. *)
Record handling := mkHandling { hHash : list byte; hPlain : list byte; hDone : bool; hCleared : bool }.
Definition finished (h : handling) : bool := hDone h && hCleared h.

Definition deliver (x : delivery) (d : X * database tables) : option handling * (X * database tables) :=
  match x with
  | Prune now => (None, (d.1, (DeleteOldBufferedHashes now d.2).2))
  | Deliver ciphertext extra server now decrypt handled =>
      match bufferedDecrypt true ciphertext server now decrypt extra d with
      | (Ok (plaintext, hash), d1) =>
          if handled then
            match ClearBufferedEventPlaintext hash d1.2 with
            | (Ok _, d2) => (Some (mkHandling hash plaintext true true), (d1.1, d2))
            | (_, d2) => (Some (mkHandling hash plaintext true false), (d1.1, d2))
            end
          else (Some (mkHandling hash plaintext false false), d1)
      | (_, d1) => (None, d1)
      end
  end.

Fixpoint deliveries (xs : list delivery) (d : X * database tables) : list handling * (X * database tables) :=
  match xs with
  | [] => ([], d)
  | x :: xs => let '(h, d) := deliver x d in let '(hs, d) := deliveries xs d in ((option_list h ++ hs)%list, d)
  end.

Definition timeOf (x : delivery) : Z := match x with Deliver _ _ _ now _ _ => now | Prune now => now end.
Definition within (t0 : Z) (x : delivery) : Prop := (t0 <= timeOf x <= t0 + 14 * dayMs)%Z.

(** A row that a further delivery of the same hash may find. *)
Definition agrees (h : handling) (row : bufferRow) : Prop :=
  rowPlaintext row = None ∨ (finished h = false ∧ rowPlaintext row = Some (hPlain h)).
Definition recorded (rows : gmap (list byte) bufferRow) (h : handling) : Prop :=
  ∃ row, rows !! hHash h = Some row ∧ agrees h row.
Definition recent (t0 : Z) (rows : gmap (list byte) bufferRow) : Prop := map_Forall (λ _ row, (t0 <= insertTime row)%Z) rows.

Lemma pruned t0 x rows : (x <= t0 + 14 * dayMs)%Z → recent t0 rows → filter (λ row : list byte * bufferRow, (x - 14 * dayMs <= insertTime row.2)%Z) rows = rows.
Proof. intros Hx Hr. apply map_filter_id. intros h row Hrow%Hr. cbn in *. lia. Qed.

(** What handlers were given before restricts what a delivery gives them, and stays recorded. *)
Lemma deliver_step t0 x d h d' :
  within t0 x → recent t0 (rowsOf d) → deliver x d = (h, d') →
  recent t0 (rowsOf d') ∧ (∀ g, h = Some g → recorded (rowsOf d') g) ∧
  ∀ g, recorded (rowsOf d) g → recorded (rowsOf d') g ∧ (∀ g', h = Some g' → hHash g' = hHash g → finished g = false ∧ hPlain g' = hPlain g).
Proof.
  intros Hx Hrec. destruct x as [c extra server now decrypt handled|now]; cbn [deliver].
  2:{ intros [= <- <-]. unfold within, timeOf in Hx.
      assert (rowsOf (d.1, (DeleteOldBufferedHashes now d.2).2) = rowsOf d) as Hsame; [|by rewrite Hsame].
      destruct (DeleteOldBufferedHashes now d.2) as [r d1] eqn:Hd. apply update_cases in Hd as [[_ Hd]|[_ Hd]];
        unfold rowsOf, tabs in *; cbn [snd]; rewrite Hd; cbn; [|done]. apply (pruned t0); [lia|done]. }
  destruct (bufferedDecrypt _ _ _ _ _ _ d) as [r d1] eqn:Hb. apply bufferedDecrypt_cases in Hb.
  set (hash := ciphertextHash c extra) in Hb. unfold within, timeOf in Hx.
  assert ((∀ p h', r ≠ Ok (p, h')) ∧ rowsOf d1 = rowsOf d ∨
    ∃ p row, r = Ok (p, hash) ∧ rowPlaintext row = Some p ∧ (t0 <= insertTime row)%Z ∧ rowsOf d1 = <[hash := row]> (rowsOf d) ∧
      (rowsOf d !! hash = None ∨ rowsOf d !! hash = Some row)) as Hcases.
  { destruct Hb as [row p Hrow Hp -> Ht|row Hrow Hp -> Ht|p row Hrow -> Hp Hins Ht|Hno Ht].
    - right. exists p, row. assert (rowsOf d1 = rowsOf d) as -> by by unfold rowsOf; rewrite Ht.
      rewrite insert_id by done. split_and!; [done..|by eapply Hrec|done|by right].
    - left. split; [done|by unfold rowsOf; rewrite Ht].
    - right. exists p, row. split_and!; [done..|lia|done|by left].
    - left. split; [by intros|by unfold rowsOf; rewrite Ht]. }
  destruct Hcases as [[Hno Ht]|(p & row & -> & Hp & Hins & Ht & Hwas)].
  { assert (h = None ∧ d' = d1 → recent t0 (rowsOf d') ∧ (∀ g, h = Some g → recorded (rowsOf d') g) ∧
      ∀ g, recorded (rowsOf d) g → recorded (rowsOf d') g ∧ (∀ g', h = Some g' → hHash g' = hHash g → finished g = false ∧ hPlain g' = hPlain g)) as Hdone
      by (intros [-> ->]; rewrite Ht; split_and!; done).
    destruct r as [[p h']| | |]; [by destruct (Hno p h')|..]; intros [= <- <-]; by apply Hdone. }
  intros Hd.
  assert (∃ hd hc, let done_ := hd && hc in h = Some (mkHandling hash p hd hc) ∧
    rowsOf d' = <[hash := if done_ then mkRow None (serverTime row) (insertTime row) else row]> (rowsOf d)) as (hd & hc & -> & ->).
  { destruct handled; [|injection Hd as <- <-; by exists false, false].
    destruct (ClearBufferedEventPlaintext hash d1.2) as [rc d2] eqn:Hc.
    apply update_cases in Hc as [[-> Hc]|[-> Hc]]; injection Hd as <- <-; unfold rowsOf, tabs in *; cbn [snd]; rewrite Hc.
    - exists true, true. split; [done|]. cbn. by rewrite Ht, alter_insert_eq.
    - by exists true, false. }
  set (row' := if hd && hc then _ else _). assert (agrees (mkHandling hash p hd hc) row' ∧ (t0 <= insertTime row')%Z) as [Hagree Hins']
    by (unfold agrees, finished; cbn [hDone hCleared hPlain]; subst row'; destruct (hd && hc); split; [by left|done|by right|done]).
  split_and!.
  - by apply map_Forall_insert_2.
  - intros g [= <-]. exists row'. by rewrite lookup_insert_eq.
  - intros g (row0 & Hrow0 & Hg). split.
    + destruct (decide (hHash g = hash)) as [Heq|Hne]; [|exists row0; by rewrite lookup_insert_ne].
      exists row'. rewrite Heq, lookup_insert_eq. split; [done|]. rewrite Heq in Hrow0.
      assert (row0 = row) as -> by (destruct Hwas as [Hw|Hw]; congruence).
      destruct Hg as [Hg|[Hg1 Hg2]]; [congruence|]. subst row'. destruct (hd && hc); [by left|by right].
    + intros g' [= <-] Heq. cbn in Heq. rewrite <- Heq in Hrow0.
      assert (row0 = row) as -> by (destruct Hwas as [Hw|Hw]; congruence).
      destruct Hg as [Hg|[Hg1 Hg2]]; [congruence|]. cbn. split; [done|congruence].
Qed.

(** Of two handlings of one ciphertext the earlier one failed or could not be cleared,
    and the later one has the same plaintext. *)
Definition once (hs : list handling) : Prop :=
  ∀ i j g g', (i < j)%nat → hs !! i = Some g → hs !! j = Some g' → hHash g' = hHash g →
    (hDone g = false ∨ hCleared g = false) ∧ hPlain g' = hPlain g.

Lemma deliveries_once t0 xs d hs d' :
  Forall (within t0) xs → recent t0 (rowsOf d) → deliveries xs d = (hs, d') →
  once hs ∧ (∀ g, recorded (rowsOf d) g → ∀ g', g' ∈ hs → hHash g' = hHash g → finished g = false ∧ hPlain g' = hPlain g).
Proof.
  intros Hxs. revert d hs d'. induction Hxs as [|x xs Hx _ IH]; intros d hs d' Hrec; cbn.
  { intros [= <- <-]. split; [by intros ???? _ ?|]. intros g _ g' []%not_elem_of_nil. }
  destruct (deliver x d) as [h d1] eqn:Hd. destruct (deliveries xs d1) as [hs1 d2] eqn:Hds. intros [= <- <-].
  destruct (deliver_step _ _ _ _ _ Hx Hrec Hd) as (Hrec1 & Hnew & Hold).
  destruct (IH _ _ _ Hrec1 Hds) as [Honce Hlater]. split.
  - destruct h as [h|]; cbn; [|done]. intros [|i] [|j] g g' Hij; cbn; try lia; [|by apply Honce; lia].
    intros [= <-] Hj%list_elem_of_lookup_2 Hh. destruct (Hlater h (Hnew _ eq_refl) g' Hj Hh) as [Hf Hp].
    split; [by apply andb_false_iff|done].
  - intros g Hg g' Hin. destruct (Hold g Hg) as [Hg1 Hh]. apply elem_of_app in Hin as [Hin|Hin]; [|by apply Hlater].
    destruct h as [h|]; cbn in Hin; [apply list_elem_of_singleton in Hin as ->; by apply Hh|by apply not_elem_of_nil in Hin].
Qed.

(** C21: handling messages once, through the event buffer. However often the
    server delivers messages within the fourteen days the buffer keeps its rows,
    whichever statements of the database and whichever decryptions fail, and whatever
    the handlers do: a ciphertext reaches the handlers once more only if they failed
    the time before, or if the buffered plaintext could not be cleared after they
    finished, a failure that is only logged; and each time they are given the same
    plaintext, although the ratchet that decrypted it has moved on. *)
Theorem handled_once t0 xs d :
  Forall (within t0) xs → recent t0 (rowsOf d) → once (deliveries xs d).1.
Proof. intros Hxs Hrec. destruct (deliveries xs d) as [hs d'] eqn:Hd. by apply (deliveries_once t0 xs d hs d'). Qed.

(** ** Padding and the data hashed *)

Lemma isValidPadding_app (p : list byte) b : (0 < b2z b)%Z → isValidPadding (p ++ replicate (Z.to_nat (b2z b)) b)%list = true.
Proof.
  intros Hb. unfold isValidPadding. destruct (Z.to_nat (b2z b)) as [|n] eqn:Hn; [lia|].
  rewrite replicate_S_end, app_assoc, last_snoc, <- app_assoc, <- replicate_S_end, Hn, length_app, length_replicate.
  rewrite bool_decide_true by lia. replace (length p + S n - S n)%nat with (length p) by lia.
  rewrite drop_app_length. by rewrite bool_decide_true.
Qed.

(** Padded messages of the second version are unpadded to what they were; those of the
    third are not padded. *)
Theorem unpad_pad random p :
  unpadMessage (padMessage random p) 2 = Ok p ∧ unpadMessage p 3 = Ok p ∧
  (length p < length (padMessage random p) ≤ length p + 15)%nat.
Proof.
  unfold padMessage. set (pad := if decide _ then _ else _).
  assert (0 < b2z pad ≤ 15)%Z as Hpad.
  { subst pad. case_decide as Hz; [by vm_compute|].
    pose proof (Z.land_nonneg (b2z random) 15). assert (Z.land (b2z random) 15 < 16)%Z by
      (change 15%Z with (Z.ones 4); rewrite Z.land_ones by lia; apply Z.mod_pos_bound; lia).
    assert (b2z (z2b (Z.land (b2z random) 15)) = Z.land (b2z random) 15) as Hb by (apply b2z_z2b_small; lia).
    assert (Z.land (b2z random) 15 ≠ 0%Z) by (intros Hl; rewrite Hl in Hz; by apply Hz). lia. }
  split_and!; [|done|rewrite length_app, length_replicate; lia..].
  unfold unpadMessage. rewrite decide_False by lia. rewrite isValidPadding_app by lia.
  destruct (Z.to_nat (b2z pad)) as [|n] eqn:Hn; [lia|].
  rewrite replicate_S_end, app_assoc, last_snoc, <- app_assoc, <- replicate_S_end, length_app, length_replicate, Hn.
  f_equal. replace (length p + S n - S n)%nat with (length p) by lia. apply take_app_length.
Qed.

(** Different messages are hashed from different data: the additional parts are the same
    in number and have no NUL. *)
Lemma elem_of_rev' (l : list byte) : x00 ∈ l ↔ x00 ∈ rev l.
Proof. rewrite !list_elem_of_In. apply in_rev. Qed.
Lemma split_last_nul (a b p q : list byte) : x00 ∉ p → x00 ∉ q → (a ++ x00 :: p = b ++ x00 :: q)%list → a = b ∧ p = q.
Proof.
  intros Hp Hq Heq. apply (f_equal (@rev byte)) in Heq. rewrite !rev_app_distr in Heq. cbn in Heq. rewrite <- !app_assoc in Heq. cbn in Heq.
  assert (∀ x y u v : list byte, x00 ∉ x → x00 ∉ y → (x ++ x00 :: u = y ++ x00 :: v)%list → x = y ∧ u = v) as Hsplit.
  { clear. induction x as [|h x IH]; intros [|h' y] u v Hx Hy; cbn; intros Heq; inversion Heq; subst; [done|set_solver..|].
    destruct (IH y u v) as [-> ->]; [set_solver..|done|done]. }
  destruct (Hsplit _ _ _ _ (λ Hin, Hp (proj2 (elem_of_rev' p) Hin)) (λ Hin, Hq (proj2 (elem_of_rev' q) Hin)) Heq) as [Hpq Hab].
  apply (f_equal (@rev byte)) in Hpq, Hab. rewrite !rev_involutive in *. done.
Qed.
Lemma hashData_inj c c' extra extra' :
  length extra = length extra' → Forall (λ part, x00 ∉ s2b part) extra → Forall (λ part, x00 ∉ s2b part) extra' →
  hashData c extra = hashData c' extra' → c = c' ∧ extra = extra'.
Proof.
  unfold hashData. intros Hlen Hx Hx'. rewrite !app_assoc. intros Heq%app_inv_tail. revert extra' c c' Hlen Hx Hx' Heq.
  induction extra as [|part extra IH] using rev_ind; intros extra' c c' Hlen;
    destruct extra' as [|part' extra' _] using rev_ind; rewrite ?length_app in Hlen; cbn in Hlen; try lia.
  - cbn. rewrite !app_nil_r. done.
  - rewrite !Forall_app, !Forall_singleton, !fmap_app, !concat_app. cbn. rewrite !app_nil_r, !app_assoc.
    intros [Hx Hp] [Hx' Hp'] Heq. apply split_last_nul in Heq as [Heq Hpart%s2b_inj]; [|done..].
    apply IH in Heq as [-> ->]; [by subst|lia|done..].
Qed.
End theory.

#[local] Existing Instance toyCrypto.

(** A decryption that works once. *)
Definition toyRatchet : stateM (unit * database bool) signalError (list byte) :=
  λ s, (if content s.2 then Err OldCounter else Ok [x41], (tt, mkDatabase true (failing s.2))).

(** A message delivered three times, its handlers failing at first. *)
Definition threeTimes : list delivery :=
  [Deliver [x01] ["a@s.whatsapp.net"] 0 5 toyRatchet false; Deliver [x01] ["a@s.whatsapp.net"] 0 6 toyRatchet true; Prune 7;
   Deliver [x01] ["a@s.whatsapp.net"] 0 8 toyRatchet true].

Example three_deliveries : let h := ciphertextHash [x01] ["a@s.whatsapp.net"] in
  (deliveries threeTimes (tt, mkDatabase (mkTables false ∅ ∅) [])).1 = [mkHandling h [x41] false false; mkHandling h [x41] true true].
Proof. by vm_compute. Qed.

(** When clearing fails after the handlers finished, the next delivery reaches them again. *)
Example uncleared_delivery : let h := ciphertextHash [x01] ["a@s.whatsapp.net"] in
  (deliveries [Deliver [x01] ["a@s.whatsapp.net"] 0 5 toyRatchet true; Deliver [x01] ["a@s.whatsapp.net"] 0 6 toyRatchet true]
    (tt, mkDatabase (mkTables false ∅ ∅) [false; false; false; false; true])).1 =
  [mkHandling h [x41] true false; mkHandling h [x41] true true].
Proof. by vm_compute. Qed.

Lemma handled_once_witness :
  once (deliveries threeTimes (tt, mkDatabase (mkTables false ∅ ∅) [])).1 ∧ length (deliveries threeTimes (tt, mkDatabase (mkTables false ∅ ∅) [])).1 = 2%nat.
Proof.
  split; [|by vm_compute]. apply (handled_once 5).
  - repeat constructor; by vm_compute.
  - apply (map_Forall_empty (M := gmap (list byte))).
Defined.
