(* ===== verification/MsgSecret.v ===== *)
(** Messages encrypted under the secret of another message: votes, reactions, edits
    and comments (src/msgsecret.go), and the table of message secrets
    (src/store/sqlstore/store.go), which is read under either address of a chat and
    of a sender. *)
From Stdlib Require Import ZArith Lia.
From Stdlib Require Import Strings.Byte.
From stdpp Require Import prelude gmap strings list fin_maps.
From S2P Require Import Prelude Strconv Jid AppStore Sql SignalStore Cbc LTHash Noise MessageInfo.

#[local] Open Scope string_scope.

(** ** The table *)

(** The key of a row: chat, sender, message id; [lidRows]: phone number of a LID. *)
Record secretTables := mkSecrets {
  secretRows : gmap (string * string * string) (list byte);
  lidRows : gmap string string
}.
Abbreviation secretM := (stateM (database secretTables) dbError).

Record MessageSecretInsert := mkSecretInsert { sChat : JID; sSender : JID; sID : string; sSecret : list byte }.

Section table.
(** [sqlite]: whether LIKE ignores case; [firstRow]: which row a query returns first. *)
Context (sqlite : bool) (firstRow : list (list byte * string) → option (list byte * string)).

(** A JID as it is stored; the empty one is NULL. *)
Definition jidText (j : JID) : option string := match Value j with SqlText s => Some s | _ => None end.

(** ON CONFLICT DO NOTHING. *)
Definition insertSecret (chat sender id : string) (secret : list byte) (rows : gmap (string * string * string) (list byte)) :=
  match rows !! (chat, sender, id) with Some _ => rows | None => <[(chat, sender, id) := secret]> rows end.

(** NULL violates the primary key of the table in PostgreSQL; in SQLite there is then a
    row that no query finds, which is left out here. *)
Definition putRow (i : MessageSecretInsert) (t : secretTables) : option secretTables :=
  match jidText (ToNonAD (sChat i)), jidText (ToNonAD (sSender i)) with
  | Some chat, Some sender => Some (mkSecrets (insertSecret chat sender (sID i) (sSecret i) (secretRows t)) (lidRows t))
  | _, _ => if sqlite then Some t else None
  end.

Fixpoint putRows (inserts : list MessageSecretInsert) (t : secretTables) : option secretTables :=
  match inserts with [] => Some t | i :: inserts => t ← putRow i t; putRows inserts t end.

Definition orViolated (t : option secretTables) : outcome dbError (unit * secretTables) :=
  match t with Some t => Ok (tt, t) | None => Err ConstraintFailed end.

Definition PutMessageSecret (chat sender : JID) (id : string) (secret : list byte) : secretM unit :=
  stmt (λ t, orViolated (putRow (mkSecretInsert chat sender id secret) t)).

Definition putMessageSecretsChunk (inserts : list MessageSecretInsert) : secretM unit :=
  stmt (λ t, orViolated (putRows inserts t)).

Fixpoint putSecretChunks (chunks : list (list MessageSecretInsert)) : secretM unit :=
  match chunks with [] => mret tt | c :: chunks => _ ← putMessageSecretsChunk c; putSecretChunks chunks end.

Definition complete (i : MessageSecretInsert) : bool :=
  negb (IsEmpty (sChat i)) && negb (IsEmpty (sSender i)) && negb (bool_decide (sID i = "")) && negb (bool_decide (sSecret i = [])).

Definition PutMessageSecrets (inserts : list MessageSecretInsert) : secretM unit :=
  let inserts := List.filter complete inserts in
  if (length inserts =? 0)%nat then mret tt
  else if (length inserts <=? 500)%nat then putMessageSecretsChunk inserts
  else inTxn (putSecretChunks (chunk (length inserts) 500 inserts)).

(** The CASE expression of the query: the other address, if there is one. *)
Definition alternate (lids : gmap string string) (j : string) : option string :=
  if like sqlite "%@lid" j then (λ pn, pn +:+ "@s.whatsapp.net") <$> lids !! sqlReplace j "@lid" ""
  else if like sqlite "%@s.whatsapp.net" j then
    (λ row, row.2.1 +:+ "@lid") <$> list_find (λ row, row.2 = sqlReplace j "@s.whatsapp.net" "") (map_to_list lids)
  else None.

(** The rows of a message under either address of its chat and sender. *)
Definition secretMatches (t : secretTables) (chat sender : string) (id : string) : list (list byte * string) :=
  omap (λ row : string * string * string * list byte,
    let '(c, s, i, key) := row in
    if decide (i = id ∧ (c = chat ∨ alternate (lidRows t) chat = Some c) ∧ (s = sender ∨ alternate (lidRows t) sender = Some s))
    then Some (key, s) else None) (map_to_list (secretRows t)).

(** The secret and the sender it is stored under; nothing when there is no row. *)
Definition GetMessageSecret (chat sender : JID) (id : string) : secretM (option (list byte * JID)) :=
  stmt (λ t,
    match jidText (ToNonAD chat), jidText (ToNonAD sender) with
    | Some chat, Some sender =>
        match firstRow (secretMatches t chat sender id) with
        | None => Ok (None, t)
        | Some (key, s) => match Scan EmptyJID (SqlText s) with (j, None) => Ok (Some (key, j), t) | _ => Err DriverFailed end
        end
    | _, _ => Ok (None, t)
    end).
End table.

(** ** Keys *)

Definition EncSecretPollVote : string := "Poll Vote".
Definition EncSecretReaction : string := "Enc Reaction".
Definition EncSecretComment : string := "Enc Comment".
Definition EncSecretEventResponse : string := "Event Response".
Definition EncSecretEventEdit : string := "Event Edit".
Definition EncSecretMessageEdit : string := "Message Edit".
Definition EncSecretPollEdit : string := "Poll Edit".
Definition EncSecretPollAddOption : string := "Poll Add Option".
Definition EncSecretBotMsg : string := "Bot Message".

Inductive secretError := SecretDB (e : dbError) | SecretNotFound | SecretNotLoggedIn | SecretGCM (e : noiseError) | BadSender.

Section secrets.
Context `{NoiseCrypto} `{HKDF}.

Definition orPanic {A} (m : outcome Empty_set A) : outcome secretError A := map_err (Empty_set_rect (λ _, secretError)) m.

Definition applyBotMessageHKDF (messageSecret : list byte) : outcome secretError (list byte) :=
  orPanic (SHA256 messageSecret [] (s2b EncSecretBotMsg) 32).

Definition useCaseSecret (modificationType : string) (modificationSender : JID) (origMsgID : string) (origMsgSender : JID) : list byte :=
  (s2b origMsgID ++ s2b (JIDString (ToNonAD origMsgSender)) ++ s2b (JIDString (ToNonAD modificationSender)) ++ s2b modificationType)%list.

(** The key and the additional data. *)
Definition generateMsgSecretKey (modificationType : string) (modificationSender : JID) (origMsgID : string) (origMsgSender : JID)
    (origMsgSecret : list byte) : outcome secretError (list byte * list byte) :=
  secretKey ← orPanic (SHA256 origMsgSecret [] (useCaseSecret modificationType modificationSender origMsgID origMsgSender) 32);
  Ok (secretKey,
    if decide (modificationType ∈ [EncSecretPollVote; EncSecretEventResponse; ""]) then
      (s2b origMsgID ++ x00 :: s2b (JIDString (ToNonAD modificationSender)))%list
    else []).

Definition sealSecret (keyData : list byte * list byte) (iv plaintext : list byte) : outcome secretError (list byte) :=
  map_err SecretGCM (gcmEncrypt keyData.1 iv plaintext keyData.2).
Definition openSecret (keyData : list byte * list byte) (iv ciphertext : list byte) : outcome secretError (list byte) :=
  map_err SecretGCM (gcmDecrypt keyData.1 iv ciphertext keyData.2).

Definition decryptBotMessage (messageSecret iv payload : list byte) (messageID : string) (targetSenderJID infoSender : JID) :
    outcome secretError (list byte) :=
  secret ← applyBotMessageHKDF messageSecret;
  keyData ← generateMsgSecretKey "" infoSender messageID targetSenderJID secret;
  openSecret keyData iv payload.

(** ** Which message a secret is of *)

Record MessageKey := mkMessageKey { FromMe : bool; RemoteJID : string; Participant : string; KeyMsgID : string }.

Definition parsed (r : JID * option jidError) : outcome secretError JID :=
  match r with (j, None) => Ok j | (_, Some _) => Err BadSender end.

(** [chat] and [sender]: of the message that carries the key. *)
Definition getOrigSenderFromKey (chat sender : JID) (k : MessageKey) : outcome secretError JID :=
  if FromMe k then Ok sender
  else if decide (Server chat = DefaultUserServer ∨ Server chat = HiddenUserServer) then parsed (ParseJID (RemoteJID k))
  else
    let '(j, e) := ParseJID (Participant k) in
    if decide (Server j ≠ DefaultUserServer ∧ Server j ≠ HiddenUserServer) then Err BadSender else parsed (j, e).

(** ** Encrypting and decrypting *)

Context (sqlite : bool) (firstRow : list (list byte * string) → option (list byte * string)).
Abbreviation secretsM := (stateM (database secretTables) secretError).

Definition lookupSecret (chat sender : JID) (id : string) : secretsM (option (list byte * JID)) :=
  zoom (λ d, d) (λ d _, d) SecretDB (GetMessageSecret sqlite firstRow chat sender id).

Definition encryptMsgSecret (ownID chat origSender : JID) (origMsgID useCase : string) (iv plaintext : list byte) :
    secretsM (list byte) :=
  if IsEmpty ownID then throw SecretNotLoggedIn
  else
    found ← lookupSecret chat origSender origMsgID;
    match found with
    | None => throw SecretNotFound
    | Some (baseEncKey, origSender) =>
        lift (keyData ← generateMsgSecretKey useCase ownID origMsgID origSender baseEncKey; sealSecret keyData iv plaintext)
    end.

(** Only a failed authentication is tried again with the sender the secret came from. *)
Definition decryptWith (useCase : string) (sender : JID) (origMsgID : string) (origSender storedOrigSender : JID)
    (baseEncKey iv payload : list byte) : outcome secretError (list byte) :=
  keyData ← generateMsgSecretKey useCase sender origMsgID origSender baseEncKey;
  match openSecret keyData iv payload with
  | Err (SecretGCM GCMOpenFailed) as r =>
      if decide (origSender = storedOrigSender) then r
      else
        keyData ← generateMsgSecretKey useCase sender origMsgID storedOrigSender baseEncKey;
        openSecret keyData iv payload
  | r => r
  end.

Definition decryptMsgSecret (chat sender : JID) (useCase : string) (iv payload : list byte) (origMsgKey : MessageKey) :
    secretsM (list byte) :=
  origSender ← lift (getOrigSenderFromKey chat sender origMsgKey);
  found ← lookupSecret chat origSender (KeyMsgID origMsgKey);
  match found with
  | None => throw SecretNotFound
  | Some (baseEncKey, storedOrigSender) =>
      lift (decryptWith useCase sender (KeyMsgID origMsgKey) origSender storedOrigSender baseEncKey iv payload)
  end.

(** The use of a secret-encrypted message, by the kind it names; an edit of the
    options of a poll has the label of a poll edit. *)
Inductive SecretEncType := EVENT_EDIT | POLL_EDIT | POLL_ADD_OPTION | MESSAGE_EDIT | OtherEncType.
Definition secretTypeOf (t : SecretEncType) : option string :=
  match t with
  | EVENT_EDIT => Some EncSecretEventEdit
  | POLL_EDIT | POLL_ADD_OPTION => Some EncSecretPollEdit
  | MESSAGE_EDIT => Some EncSecretMessageEdit
  | OtherEncType => None
  end.

(** [HashPollOptions]. *)
Definition HashPollOptions (optionNames : list string) : list (list byte) := (λ o, sha256 (s2b o)) <$> optionNames.

(** The key of a message that votes on or comments another one. *)
Definition getKeyFromInfo {V} (info : MessageInfo V) : MessageKey :=
  mkMessageKey (IsFromMe (source info)) (JIDString (Chat (source info)))
    (if IsGroup (source info) then JIDString (Sender (source info)) else "") (ID info).
End secrets.

(** * Properties *)

(** What a query returns first is one of its rows. *)
Class FirstRowLaws (firstRow : list (list byte * string) → option (list byte * string)) : Prop := {
  firstRow_in l x : firstRow l = Some x → x ∈ l;
  firstRow_some l : l ≠ [] → is_Some (firstRow l)
}.

(** [j] reads back from its stored text. *)
Lemma Scan_text (j : JID) :
  text_safe j → RawAgent j = 0%Z → Device j = 0%Z → Integrator j = 0%Z → Server j ≠ "" → User j ≠ "" →
  Scan EmptyJID (SqlText (JIDString j)) = (j, None).
Proof.
  intros (? & ? & ? & ? & ?) Ha Hd Hi Hs Hu. unfold JIDString. rewrite decide_False by done. rewrite Ha, Hd.
  rewrite !decide_False by lia. rewrite decide_True.
  - unfold Scan. rewrite ParseJID_plain by done. destruct j; cbn in *; by subst.
  - unfold slen. destruct (User j); [done|cbn; lia].
Qed.

Section table_theory.
Context (sqlite : bool) (firstRow : list (list byte * string) → option (list byte * string)) `{!FirstRowLaws firstRow}.

(** Asking for [asked] finds what is stored under [stored]. *)
Definition addresses (lids : gmap string string) (asked stored : string) : Prop :=
  stored = asked ∨ alternate sqlite lids asked = Some stored.

Lemma secretMatches_in t chat sender id key s :
  (key, s) ∈ secretMatches sqlite t chat sender id ↔
  ∃ c, secretRows t !! (c, s, id) = Some key ∧ addresses (lidRows t) chat c ∧ addresses (lidRows t) sender s.
Proof.
  unfold secretMatches. rewrite list_elem_of_omap. split.
  - intros ([[[c s'] i] key'] & Hin%elem_of_map_to_list & Hrow). cbn in Hrow. case_decide as Hd; [|done].
    injection Hrow as -> ->. destruct Hd as (-> & ? & ?). by exists c.
  - intros (c & Hrow & Hc & Hs). exists (c, s, id, key). split; [by apply elem_of_map_to_list|].
    cbn. by rewrite decide_True.
Qed.

(** A lookup answers a row of the message under either address of its chat and its
    sender, and finds nothing only when there is none. *)
Lemma GetMessageSecret_spec chat sender id c s d :
  working d → jidText (ToNonAD chat) = Some c → jidText (ToNonAD sender) = Some s →
  let t := content d in
  ∃ r d', GetMessageSecret sqlite firstRow chat sender id d = (r, d') ∧ content d' = content d ∧ working d' ∧
    ((r = Ok None ∧ ∀ c' s', addresses (lidRows t) c c' → addresses (lidRows t) s s' → secretRows t !! (c', s', id) = None) ∨
     ∃ key c' s', secretRows t !! (c', s', id) = Some key ∧ addresses (lidRows t) c c' ∧ addresses (lidRows t) s s' ∧
       r = match Scan EmptyJID (SqlText s') with (j, None) => Ok (Some (key, j)) | _ => Err DriverFailed end).
Proof.
  intros Hw Hc Hs t. unfold GetMessageSecret. rewrite Hc, Hs.
  assert (∀ r, (∃ a, r = Ok a) ∨ r = Err DriverFailed →
    let f : secretTables → outcome dbError (option (list byte * JID) * secretTables) := λ t, match r with Ok a => Ok (a, t) | _ => Err DriverFailed end in
    ∃ d', stmt f d = (r, d') ∧ content d' = content d ∧ working d') as Hrun.
  { intros r Hr f. unfold stmt, working in *. destruct (failing d) as [|b l]; cbn.
    - destruct Hr as [[a ->]| ->]; subst f; cbn; eexists; by split_and!.
    - apply Forall_cons in Hw as [-> Hw]. destruct Hr as [[a ->]| ->]; subst f; cbn; eexists; by split_and!. }
  assert (∀ f f', f (content d) = f' (content d) → stmt (A := option (list byte * JID)) f d = stmt f' d) as Hext.
  { intros f f' Hf. unfold stmt. by rewrite Hf. }
  destruct (firstRow (secretMatches sqlite t c s id)) as [[key s']|] eqn:Hfirst.
  - pose proof (firstRow_in _ _ Hfirst) as Hin. apply secretMatches_in in Hin. destruct Hin as (c' & Hrow & Hc' & Hs').
    set (r := match Scan EmptyJID (SqlText s') with (j, None) => Ok (Some (key, j)) | _ => Err DriverFailed end : outcome dbError _).
    destruct (Hrun r) as (d' & Hd' & ? & ?).
    { subst r. destruct (Scan EmptyJID (SqlText s')) as [j [e|]]; [by right|left; by eexists]. }
    exists r, d'. split; [|split; [done|split; [done|right; by exists key, c', s']]].
    rewrite <- Hd'. apply Hext. fold t. rewrite Hfirst. subst r. by destruct (Scan EmptyJID (SqlText s')) as [j [e|]].
  - destruct (Hrun (Ok None)) as (d' & Hd' & ? & ?); [left; by eexists|].
    exists (Ok None), d'. split; [|split; [done|split; [done|left; split; [done|]]]].
    + rewrite <- Hd'. apply Hext. fold t. by rewrite Hfirst.
    + intros c' s' Hc' Hs'. destruct (secretRows t !! (c', s', id)) as [key|] eqn:Hrow; [|done].
      assert ((key, s') ∈ secretMatches sqlite t c s id) as Hin by (apply secretMatches_in; by exists c').
      destruct (firstRow_some (secretMatches sqlite t c s id)) as [x Hx]; [|congruence].
      intros Hnil. rewrite Hnil in Hin. by apply not_elem_of_nil in Hin.
Qed.

(** The message has one row, with a sender that reads back. *)
Definition storedSecret (t : secretTables) (id : string) (c : string) (sender : JID) (key : list byte) : Prop :=
  secretRows t !! (c, JIDString sender, id) = Some key ∧
  (∀ c' s', is_Some (secretRows t !! (c', s', id)) → c' = c ∧ s' = JIDString sender) ∧
  text_safe sender ∧ RawAgent sender = 0%Z ∧ Device sender = 0%Z ∧ Integrator sender = 0%Z ∧ Server sender ≠ "" ∧ User sender ≠ "".

(** The addresses asked for stand for those stored. *)
Definition reaches (t : secretTables) (chat sender : JID) (c : string) (stored : JID) : Prop :=
  ∃ c' s', jidText (ToNonAD chat) = Some c' ∧ jidText (ToNonAD sender) = Some s' ∧
    addresses (lidRows t) c' c ∧ addresses (lidRows t) s' (JIDString stored).

Lemma GetMessageSecret_stored chat sender id c stored key d :
  working d → storedSecret (content d) id c stored key → reaches (content d) chat sender c stored →
  ∃ d', GetMessageSecret sqlite firstRow chat sender id d = (Ok (Some (key, stored)), d') ∧ content d' = content d.
Proof.
  intros Hw (Hrow & Honly & Hsafe) (c' & s' & Hc & Hs & Hc' & Hs').
  destruct (GetMessageSecret_spec chat sender id c' s' d Hw Hc Hs) as (r & d' & Hr & Ht & _ & [[-> Hno]|(key' & c1 & s1 & Hrow' & _ & _ & ->)]).
  - rewrite (Hno _ _ Hc' Hs') in Hrow. done.
  - destruct (Honly c1 s1) as [-> ->]; [by eexists|]. rewrite Hrow in Hrow'. injection Hrow' as <-.
    rewrite Scan_text in Hr by tauto. by exists d'.
Qed.
End table_theory.

Section roundtrip.
Context `{NoiseCrypto} `{!NoiseLaws} `{HKDF} `{!HKDFLaws}.
Context (sqlite : bool) (firstRow : list (list byte * string) → option (list byte * string)) `{!FirstRowLaws firstRow}.

Lemma SHA256_run key salt info : SHA256 key salt info 32 = Ok (hkdfRead key salt info 32).
Proof. unfold SHA256. change (Z.to_nat 32) with 32%nat. rewrite hkdf_length by lia. done. Qed.

Definition keyDataOf (useCase : string) (modSender : JID) (id : string) (origSender : JID) (secret : list byte) : list byte * list byte :=
  (hkdfRead secret [] (useCaseSecret useCase modSender id origSender) 32,
   if decide (useCase ∈ [EncSecretPollVote; EncSecretEventResponse; ""])
   then (s2b id ++ x00 :: s2b (JIDString (ToNonAD modSender)))%list else []).

Lemma generateMsgSecretKey_run useCase modSender id origSender secret :
  generateMsgSecretKey useCase modSender id origSender secret = Ok (keyDataOf useCase modSender id origSender secret).
Proof. unfold generateMsgSecretKey. rewrite SHA256_run. done. Qed.

Lemma keyDataOf_same useCase a a' id o o' secret :
  ToNonAD a = ToNonAD a' → ToNonAD o = ToNonAD o' → keyDataOf useCase a id o secret = keyDataOf useCase a' id o' secret.
Proof. intros Ha Ho. unfold keyDataOf, useCaseSecret. by rewrite Ha, Ho. Qed.

(** Keys of thirty-two bytes are accepted. *)
Definition aes256 : Prop := ∀ key, length key = 32%nat → ∃ block gcm, NewCipher key = Some block ∧ NewGCM block = Some gcm.

Lemma seal_open (Haes : aes256) keyData iv plaintext :
  length keyData.1 = 32%nat → length iv = 12%nat →
  ∃ c, sealSecret keyData iv plaintext = Ok c ∧ openSecret keyData iv c = Ok plaintext.
Proof.
  intros Hk Hiv. destruct (Haes _ Hk) as (block & gcm & Hb & Hg).
  exists (Seal gcm iv plaintext keyData.2). unfold sealSecret, openSecret, gcmEncrypt, gcmDecrypt, Prepare. rewrite Hb, Hg. cbn.
  rewrite decide_False by lia. cbn. split; [done|]. rewrite decide_False by lia.
  rewrite (proj2 (open_seal block gcm iv _ keyData.2 plaintext Hg)) by done. done.
Qed.

Lemma decryptWith_run useCase sender id orig stored sealed secret iv c plaintext :
  openSecret (keyDataOf useCase sender id sealed secret) iv c = Ok plaintext →
  ToNonAD orig = ToNonAD sealed ∨
  (stored = sealed ∧ openSecret (keyDataOf useCase sender id orig secret) iv c = Err (SecretGCM GCMOpenFailed)) →
  decryptWith useCase sender id orig stored secret iv c = Ok plaintext.
Proof.
  intros Ho Hcase. unfold decryptWith. rewrite !generateMsgSecretKey_run. cbn -[keyDataOf openSecret].
  destruct Hcase as [Hor|[-> Hfail]].
  - by rewrite (keyDataOf_same _ sender sender _ orig sealed), Ho.
  - rewrite Hfail. case_decide as Heq; [subst; congruence|done].
Qed.

(** C22: what one client encrypts under a message's secret another decrypts.
    Both hold the secret of the message, each in a single row under either address of
    the chat and the sender; the sender of the encrypted message is the encrypting
    user; and the sender named by the message key is the one the encrypting client
    has the secret from, or the decrypting client has it from the same sender and the
    ciphertext does not authenticate under the named one. Then encryption succeeds and
    decryption returns the plaintext, and neither changes a table. Not covered: two
    clients that stored the secret under different addresses of the sender when the
    key names the decrypting client's, and a key from oneself when the new message
    came from the other address, which the code knows to be wrong. *)
Theorem secret_message_roundtrip (Haes : aes256) (useCase id : string) (secret iv plaintext : list byte)
    (ownID chatA origA storedA : JID) (cA : string) (dA : database secretTables)
    (chatB senderB origB storedB : JID) (cB : string) (k : MessageKey) (dB : database secretTables) :
  length iv = 12%nat → IsEmpty ownID = false →
  working dA → storedSecret (content dA) id cA storedA secret → reaches sqlite (content dA) chatA origA cA storedA →
  working dB → storedSecret (content dB) id cB storedB secret → reaches sqlite (content dB) chatB origB cB storedB →
  KeyMsgID k = id → getOrigSenderFromKey chatB senderB k = Ok origB →
  ToNonAD senderB = ToNonAD ownID →
  ∃ c dA', encryptMsgSecret sqlite firstRow ownID chatA origA id useCase iv plaintext dA = (Ok c, dA') ∧ content dA' = content dA ∧
    (ToNonAD origB = ToNonAD storedA ∨
     (storedB = storedA ∧ openSecret (keyDataOf useCase senderB id origB secret) iv c = Err (SecretGCM GCMOpenFailed)) →
     ∃ dB', decryptMsgSecret sqlite firstRow chatB senderB useCase iv c k dB = (Ok plaintext, dB') ∧ content dB' = content dB).
Proof.
  intros Hiv Hown HwA HsA HrA HwB HsB HrB <- Horig Hsame.
  destruct (GetMessageSecret_stored _ firstRow _ _ _ _ _ _ _ HwA HsA HrA) as (dA' & HgA & HtA).
  destruct (GetMessageSecret_stored _ firstRow _ _ _ _ _ _ _ HwB HsB HrB) as (dB' & HgB & HtB).
  destruct (seal_open Haes (keyDataOf useCase ownID (KeyMsgID k) storedA secret) iv plaintext) as (c & Hc & Ho); [by apply hkdf_length; lia|done|].
  exists c, dA'. split; [|split; [done|]].
  - unfold encryptMsgSecret, lookupSecret, zoom. rewrite Hown. unfold mbind, stateM_bind. rewrite HgA. cbn. unfold lift.
    by rewrite generateMsgSecretKey_run; cbn; rewrite Hc.
  - intros Hcase. exists dB'. split; [|done]. unfold decryptMsgSecret, lookupSecret, zoom, mbind, stateM_bind, lift.
    rewrite Horig, HgB. cbn -[decryptWith].
    assert (keyDataOf useCase senderB (KeyMsgID k) storedA secret = keyDataOf useCase ownID (KeyMsgID k) storedA secret) as Hkeys
      by by apply keyDataOf_same.
    rewrite (decryptWith_run _ _ _ _ _ storedA _ _ _ plaintext) by (by rewrite ?Hkeys || done). done.
Qed.
End roundtrip.

(** ** Sealing and opening an example *)

#[local] Existing Instance toyCrypto.
#[local] Existing Instance toyNoise.
#[local] Existing Instance toyNoiseLaws.
#[local] Existing Instance toyHKDF.
#[local] Existing Instance toyHKDFLaws.

#[local] Instance headLaws : FirstRowLaws (@head (list byte * string)).
Proof. split; intros [|y l]; cbn; [done|intros ? [= ->]; left|done|by eexists]. Qed.

Definition pollGroup : JID := NewJID "5" "g.us".
Definition pollAuthor : JID := NewJID "10" DefaultUserServer.
Definition pollAuthorLID : JID := NewJID "11" HiddenUserServer.
Definition voter : JID := NewJID "20" DefaultUserServer.
Definition pollTables (sender : JID) : secretTables :=
  mkSecrets {[ ("5@g.us", JIDString sender, "M") := replicate 32 x07 ]} {[ "11" := "10" ]}.

Lemma poll_stored sender :
  sender = pollAuthor ∨ sender = pollAuthorLID → storedSecret (pollTables sender) "M" "5@g.us" sender (replicate 32 x07).
Proof.
  intros Hs. split; [by destruct Hs; subst|]. split.
  - intros c' s' [x Hx]. unfold pollTables in Hx. cbn [secretRows] in Hx. apply lookup_singleton_Some in Hx as [Heq _].
    by injection Heq.
  - destruct Hs; subst; (split; [by apply (bool_decide_unpack _); vm_compute|done]).
Qed.

(** The voter has the secret from the LID of the author and asks for it by phone number;
    the author has it under its phone number and is asked by LID. *)
Lemma secret_message_roundtrip_witness :
  ∃ c dA', encryptMsgSecret false head voter pollGroup pollAuthor "M" EncSecretPollVote (replicate 12 x01) [x41]
      (mkDatabase (pollTables pollAuthorLID) []) = (Ok c, dA') ∧ content dA' = pollTables pollAuthorLID ∧
    (ToNonAD pollAuthorLID = ToNonAD pollAuthorLID ∨
     (pollAuthor = pollAuthorLID ∧ openSecret (keyDataOf EncSecretPollVote voter "M" pollAuthorLID (replicate 32 x07)) (replicate 12 x01) c = Err (SecretGCM GCMOpenFailed)) →
     ∃ dB', decryptMsgSecret false head pollGroup voter EncSecretPollVote (replicate 12 x01) c (mkMessageKey false "5@g.us" "11@lid" "M")
       (mkDatabase (pollTables pollAuthor) []) = (Ok [x41], dB') ∧ content dB' = pollTables pollAuthor).
Proof.
  apply (secret_message_roundtrip false head) with (secret := replicate 32 x07) (cA := "5@g.us") (storedA := pollAuthorLID)
    (cB := "5@g.us") (storedB := pollAuthor) (origB := pollAuthorLID) (id := "M").
  - intros key Hk. cbn. rewrite decide_True by done. eexists _, _. done.
  - done.
  - done.
  - constructor.
  - apply poll_stored. by right.
  - exists "5@g.us", "10@s.whatsapp.net". split_and!; [by vm_compute..|by left|right; by vm_compute].
  - constructor.
  - apply poll_stored. by left.
  - exists "5@g.us", "11@lid". split_and!; [by vm_compute..|by left|right; by vm_compute].
  - done.
  - by vm_compute.
  - done.
Defined.
