(* ===== verification/Contacts.v ===== *)
(** The contacts of the store (src/store/sqlstore/store.go): names kept in a table, with
    a bounded cache of what was read (types.ContactInfo of src/types/user.go).

    The cache is keyed by JID and the table by its text. *)
From Stdlib Require Import ZArith Lia.
From Stdlib Require Import Strings.Byte.
From stdpp Require Import prelude gmap strings list fin_maps.
From S2P Require Import Prelude Jid Cache AppStore Sql.

#[local] Open Scope string_scope.

(** ** Rows *)

Record ContactInfo := mkContact {
  Found : bool;
  FirstName : string;
  FullName : string;
  cPushName : string;
  BusinessName : string;
  Username : string;
  RedactedPhone : string
}.

(** The columns may be NULL. *)
Record contactRow := mkContactRow {
  first_name : option string;
  full_name : option string;
  push_name : option string;
  business_name : option string;
  redacted_phone : option string;
  username : option string
}.
Definition emptyRow : contactRow := mkContactRow None None None None None None.

(** [nullRows]: rows with no JID, which SQLite admits in a primary key. *)
Record contactTables := mkContactTables { contactRows : gmap string contactRow; nullRows : list contactRow }.

Definition infoOf (r : contactRow) : ContactInfo :=
  mkContact true (default "" (first_name r)) (default "" (full_name r)) (default "" (push_name r))
    (default "" (business_name r)) (default "" (username r)) (default "" (redacted_phone r)).
Definition noContact : ContactInfo := mkContact false "" "" "" "" "" "".

(** What the queries set. *)
Definition setPushName (name : string) (r : contactRow) : contactRow :=
  mkContactRow (first_name r) (full_name r) (Some name) (business_name r) (redacted_phone r) (username r).
Definition setBusinessName (name : string) (r : contactRow) : contactRow :=
  mkContactRow (first_name r) (full_name r) (push_name r) (Some name) (redacted_phone r) (username r).
Definition setNames (first full : string) (r : contactRow) : contactRow :=
  mkContactRow (Some first) (Some full) (push_name r) (business_name r) (redacted_phone r) (username r).
Definition setUsername (name : string) (r : contactRow) : contactRow :=
  mkContactRow (first_name r) (full_name r) (push_name r) (business_name r) (redacted_phone r) (Some name).
Definition setRedactedPhone (phone : string) (r : contactRow) : contactRow :=
  mkContactRow (first_name r) (full_name r) (push_name r) (business_name r) (Some phone) (username r).

(** ** Entries *)

Record ContactEntry := mkEntry { ceJID : JID; ceFirstName : string; ceFullName : string; ceUsername : string; UsernameSet : bool }.
Record ContactUsernameEntry := mkUsername { cuJID : JID; cuUsername : string }.
Record RedactedPhoneEntry := mkPhone { rpJID : JID; rpPhone : string }.

Definition maxContactCacheEntries : nat := 256.
Definition contactBatchSize : nat := 300.

(** The in-place removal of duplicates: a later entry takes the place of an earlier one
    of its JID. [positions]: of each JID in [out]. *)
Fixpoint dedupUsernames (entries out : list ContactUsernameEntry) (positions : gmap JID nat) : list ContactUsernameEntry :=
  match entries with
  | [] => out
  | e :: entries =>
      match positions !! cuJID e with
      | Some position => dedupUsernames entries (<[position := e]> out) positions
      | None => dedupUsernames entries (out ++ [e]) (<[cuJID e := length out]> positions)
      end
  end%list.
Definition deduplicateContactUsernamesLastWriteWins (entries : list ContactUsernameEntry) : list ContactUsernameEntry :=
  dedupUsernames entries [] ∅.

Definition splitContactNameEntries (contacts : list ContactEntry) : list ContactEntry * list ContactEntry :=
  let named c := UsernameSet c || negb (bool_decide (ceUsername c = "")) in
  (List.filter named contacts, List.filter (λ c, negb (named c)) contacts).

(** ** The store *)

Record contactStore := mkContactStore { contactDB : database contactTables; contactCache : gmap JID ContactInfo }.
Abbreviation contactM := (stateM contactStore dbError).

Definition onContacts {A} (m : dbM contactTables A) : contactM A :=
  zoom contactDB (λ d s, mkContactStore d (contactCache s)) id m.
Definition setContactCache (f : gmap JID ContactInfo → gmap JID ContactInfo) (s : contactStore) : contactStore :=
  mkContactStore (contactDB s) (f (contactCache s)).

Section store.
(** [sqlite]: the dialect; [anyContact]: the entry a full cache gives up; [deduplicate]:
    exslices.DeduplicateUnsortedOverwriteFunc; [rowOrder]: the order of the rows of a
    query. *)
Context (sqlite : bool) (anyContact : gmap JID ContactInfo → option JID).
Context (deduplicate : ∀ A, (A → JID) → list A → list A).
Context (rowOrder : list (option string * contactRow) → list (option string * contactRow)).

Definition jidKey (j : JID) : option string := match Value j with SqlText s => Some s | _ => None end.

(** INSERT … ON CONFLICT DO UPDATE of one row. *)
Definition upsertRow (key : option string) (f : contactRow → contactRow) (t : contactTables) : outcome dbError (unit * contactTables) :=
  match key with
  | Some k => Ok (tt, mkContactTables (<[k := f (default emptyRow (contactRows t !! k))]> (contactRows t)) (nullRows t))
  | None => if sqlite then Ok (tt, mkContactTables (contactRows t) (nullRows t ++ [f emptyRow])) else Err ConstraintFailed
  end.

(** Of many rows: PostgreSQL updates none twice. *)
Definition upsertMany {A} (key : A → string) (f : A → contactRow → contactRow) (batch : list A) : dbM contactTables unit :=
  stmt (λ t,
    if negb sqlite && negb (bool_decide (NoDup (key <$> batch))) then Err ConstraintFailed
    else Ok (tt, mkContactTables (foldl (λ rows e, <[key e := f e (default emptyRow (rows !! key e))]> rows) (contactRows t) batch) (nullRows t))).

Fixpoint upsertBatches {A} (key : A → string) (f : A → contactRow → contactRow) (batches : list (list A)) : dbM contactTables unit :=
  match batches with
  | [] => mret tt
  | b :: batches => _ ← upsertMany key f b; upsertBatches key f batches
  end.
Definition batchesOf {A} (l : list A) : list (list A) := chunk (length l) contactBatchSize l.

Definition setCachedContactLocked (user : JID) (info : ContactInfo) (cache : gmap JID ContactInfo) : gmap JID ContactInfo :=
  putBoundedCache anyContact cache user info maxContactCacheEntries.

(** A row, or none; NULL columns read as empty. *)
Definition lookupContact (user : JID) (t : contactTables) : ContactInfo :=
  match jidKey user with
  | Some k => match contactRows t !! k with Some row => infoOf row | None => noContact end
  | None => noContact
  end.

Definition getContact (user : JID) : contactM ContactInfo :=
  s ← get;
  match contactCache s !! user with
  | Some cached => mret cached
  | None =>
      info ← onContacts (select (lookupContact user));
      _ ← modify (setContactCache (setCachedContactLocked user info));
      mret info
  end.

(** The cached entry is a pointer: what is set in it is seen by all later reads. *)
Definition setCached (user : JID) (f : ContactInfo → ContactInfo) : contactM unit :=
  modify (setContactCache (alter f user)).

Definition PutPushName (user : JID) (pushName : string) : contactM (bool * string) :=
  cached ← getContact user;
  if decide (cPushName cached = pushName) then mret (false, "")
  else
    _ ← onContacts (stmt (upsertRow (jidKey user) (setPushName pushName)));
    _ ← setCached user (λ c, mkContact true (FirstName c) (FullName c) pushName (BusinessName c) (Username c) (RedactedPhone c));
    mret (true, cPushName cached).

Definition PutBusinessName (user : JID) (businessName : string) : contactM (bool * string) :=
  cached ← getContact user;
  if decide (BusinessName cached = businessName) then mret (false, "")
  else
    _ ← onContacts (stmt (upsertRow (jidKey user) (setBusinessName businessName)));
    _ ← setCached user (λ c, mkContact true (FirstName c) (FullName c) (cPushName c) businessName (Username c) (RedactedPhone c));
    mret (true, BusinessName cached).

Definition PutContactName (user : JID) (firstName fullName : string) : contactM unit :=
  cached ← getContact user;
  if decide (FirstName cached = firstName ∧ FullName cached = fullName) then mret tt
  else
    _ ← onContacts (stmt (upsertRow (jidKey user) (setNames firstName fullName)));
    setCached user (λ c, mkContact true firstName fullName (cPushName c) (BusinessName c) (Username c) (RedactedPhone c)).

Definition PutContactUsername (user : JID) (name : string) : contactM unit :=
  cached ← getContact user;
  if decide (Username cached = name) then mret tt
  else
    _ ← onContacts (stmt (upsertRow (jidKey user) (setUsername name)));
    setCached user (λ c, mkContact true (FirstName c) (FullName c) (cPushName c) (BusinessName c) name (RedactedPhone c)).

Fixpoint cacheUsernames (entries : list ContactUsernameEntry) : contactM unit :=
  match entries with
  | [] => mret tt
  | e :: entries =>
      _ ← setCached (cuJID e) (λ c, mkContact true (FirstName c) (FullName c) (cPushName c) (BusinessName c) (cuUsername e) (RedactedPhone c));
      cacheUsernames entries
  end.

Definition PutManyContactUsernames (entries : list ContactUsernameEntry) : contactM unit :=
  match entries with
  | [] => mret tt
  | _ =>
      let entries := deduplicateContactUsernamesLastWriteWins entries in
      _ ← onContacts (inTxn (upsertBatches (λ e, JIDString (cuJID e)) (λ e, setUsername (cuUsername e)) (batchesOf entries)));
      cacheUsernames entries
  end.

(** The cache is dropped as a whole. *)
Definition PutAllContactNames (contacts : list ContactEntry) : contactM unit :=
  match contacts with
  | [] => mret tt
  | _ =>
      let '(withUsername, withoutUsername) := splitContactNameEntries (deduplicate _ ceJID contacts) in
      _ ← onContacts (inTxn (
        _ ← upsertBatches (λ e, JIDString (ceJID e)) (λ e r, setUsername (ceUsername e) (setNames (ceFirstName e) (ceFullName e) r))
              (batchesOf withUsername);
        upsertBatches (λ e, JIDString (ceJID e)) (λ e, setNames (ceFirstName e) (ceFullName e)) (batchesOf withoutUsername)));
      modify (setContactCache (λ _, ∅))
  end.

(** An entry that has the phone number already stays. *)
Definition uncachePhone (cache : gmap JID ContactInfo) (e : RedactedPhoneEntry) : gmap JID ContactInfo :=
  match cache !! rpJID e with
  | Some cached => if decide (RedactedPhone cached = rpPhone e) then cache else delete (rpJID e) cache
  | None => delete (rpJID e) cache
  end.

Definition PutManyRedactedPhones (entries : list RedactedPhoneEntry) : contactM unit :=
  match entries with
  | [] => mret tt
  | _ =>
      let entries := deduplicate _ rpJID entries in
      _ ← onContacts (inTxn (upsertBatches (λ e, JIDString (rpJID e)) (λ e, setRedactedPhone (rpPhone e)) (batchesOf entries)));
      modify (setContactCache (λ cache, foldl uncachePhone cache entries))
  end.

Definition GetContact (user : JID) : contactM ContactInfo := getContact user.

(** The rows up to one whose JID cannot be read. *)
Fixpoint readContacts (rows : list (option string * contactRow)) : list (JID * ContactInfo) * option dbError :=
  match rows with
  | [] => ([], None)
  | (k, row) :: rows =>
      match Scan EmptyJID (match k with Some k => SqlText k | None => SqlNull end) with
      | (j, None) => let '(l, e) := readContacts rows in ((j, infoOf row) :: l, e)
      | (_, Some _) => ([], Some DriverFailed)
      end
  end.
Definition allRows (t : contactTables) : list (option string * contactRow) :=
  (prod_map Some id <$> map_to_list (contactRows t)) ++ ((λ r, (None, r)) <$> nullRows t).

(** The contacts read, and the error that ended the iteration. *)
Definition GetAllContacts : contactM (gmap JID ContactInfo * option dbError) :=
  r ← onContacts (select (λ t, readContacts (rowOrder (allRows t))));
  let '(l, e) := r in
  _ ← modify (setContactCache (λ cache, foldl (λ c x, setCachedContactLocked x.1 x.2 c) cache l));
  mret (foldl (λ (m : gmap JID ContactInfo) x, <[x.1 := x.2]> m) ∅ l, e).
End store.
