(* ===== verification/ContactsTheory.v ===== *)
(** The contact cache never answers with anything but the table's row: every operation
    of the contact store does what it would do without the cache. *)
From Stdlib Require Import ZArith Lia.
From Stdlib Require Import Strings.Byte.
From stdpp Require Import prelude gmap strings list fin_maps fin_map_dom.
From S2P Require Import Prelude Strconv Jid Cache AppStore Sql Contacts.

#[local] Open Scope string_scope.

(** ** JIDs that the table can tell apart *)

Definition storable (j : JID) : Prop := text_safe j ∧ Integrator j = 0%Z ∧ Server j ≠ "".
#[global] Instance storable_dec j : Decision (storable j).
Proof. unfold storable. apply _. Defined.

Lemma storable_key j : storable j → jidKey j = Some (JIDString j).
Proof.
  intros (_ & _ & Hs). unfold jidKey, Value. rewrite decide_False; [done|]. unfold slen. destruct (Server j); [done|cbn; lia].
Qed.
Lemma storable_parse j : storable j → ParseJID (JIDString j) = (j, None).
Proof.
  intros (Ht & Hi & Hs). pose proof Ht as (Hwf & Hu1 & Hu2 & Hu3 & Hs'). destruct Hwf as (Ha & Hd & _).
  destruct j as [user agent device integ server]; cbn in *; subst integ.
  unfold JIDString; cbn. rewrite decide_False by done.
  case_decide; [by apply ParseJID_agent_device|]. assert (agent = 0%Z) as -> by lia.
  case_decide; [by apply ParseJID_device|]. assert (device = 0%Z) as -> by lia.
  case_decide as Hl; [by apply ParseJID_plain|].
  assert (user = "") as -> by (destruct user; [done|unfold slen in Hl; cbn in Hl; lia]).
  unfold ParseJID. by rewrite Split_none.
Qed.
Lemma storable_inj j j' : storable j → storable j' → JIDString j = JIDString j' → j = j'.
Proof. intros Hj Hj' Heq. apply storable_parse in Hj, Hj'. congruence. Qed.

(** ** Rows after many upserts *)

(** What a batch does to one row, in the order of its entries. *)
Definition upserted {A} (f : A → contactRow → contactRow) (r : option contactRow) (l : list A) : option contactRow :=
  foldl (λ r e, Some (f e (default emptyRow r))) r l.

Lemma foldl_upsert {A} (key : A → string) f (l : list A) (rows : gmap string contactRow) k :
  foldl (λ rows e, <[key e := f e (default emptyRow (rows !! key e))]> rows) rows l !! k =
  upserted f (rows !! k) (List.filter (λ e, bool_decide (key e = k)) l).
Proof.
  revert rows. induction l as [|e l IH]; intros rows; [done|]. cbn [foldl List.filter]. rewrite IH.
  case_bool_decide as Hk; [by subst; rewrite lookup_insert_eq|by rewrite lookup_insert_ne].
Qed.

(** The law of the removal of duplicates: of each JID the last entry stays. *)
Definition keepsLast {A} (key : A → JID) (l l' : list A) : Prop :=
  ∀ j, List.filter (λ e, bool_decide (key e = j)) l' = option_list (last (List.filter (λ e, bool_decide (key e = j)) l)).
Class DeduplicateLaws (deduplicate : ∀ A, (A → JID) → list A → list A) : Prop := {
  deduplicate_last A (key : A → JID) (l : list A) : keepsLast key l (deduplicate A key l)
}.
Class AnyContactLaws (anyContact : gmap JID ContactInfo → option JID) : Prop := {
  anyContact_in m : m ≠ ∅ → ∃ k, anyContact m = Some k ∧ is_Some (m !! k)
}.

Lemma filter_snoc {A} (P : A → bool) l x : List.filter P (l ++ [x]) = (List.filter P l ++ if P x then [x] else [])%list.
Proof. rewrite List.filter_app. done. Qed.

Lemma dedupUsernames_last entries : ∀ past out positions,
  (∀ j, match positions !! j with
        | Some i => ∃ e, out !! i = Some e ∧ cuJID e = j
        | None => List.filter (λ e, bool_decide (cuJID e = j)) past = []
        end) →
  (∀ i e, out !! i = Some e → positions !! cuJID e = Some i) →
  keepsLast cuJID past out → keepsLast cuJID (past ++ entries) (dedupUsernames entries out positions).
Proof.
  induction entries as [|e entries IH]; intros past out positions Hpos Hout Hlast; [by rewrite app_nil_r|]. cbn [dedupUsernames].
  replace (past ++ e :: entries)%list with ((past ++ [e]) ++ entries)%list by by rewrite <- app_assoc.
  destruct (positions !! cuJID e) as [i|] eqn:Hi.
  - pose proof (Hpos (cuJID e)) as Hp. rewrite Hi in Hp. destruct Hp as (e0 & He0 & Hj0).
    assert (∀ i' e', <[i:=e]> out !! i' = Some e' → positions !! cuJID e' = Some i') as Hout'.
    { intros i' e' [(<- & -> & _)|[_ Ho]]%list_lookup_insert_Some; [done|by apply Hout]. }
    apply IH; [|done|].
    + intros j. pose proof (Hpos j) as Hpj. destruct (positions !! j) as [i'|] eqn:Hj.
      * destruct Hpj as (e' & He' & <-). destruct (decide (i' = i)) as [->|Hne].
        { exists e. rewrite list_lookup_insert_eq by by eapply lookup_lt_Some. split; [done|]. congruence. }
        exists e'. by rewrite list_lookup_insert_ne.
      * rewrite filter_snoc, Hpj, bool_decide_false; [done|]. intros <-. congruence.
    + intros j. rewrite filter_snoc. rewrite <- (take_drop_middle _ _ _ He0) in Hlast.
      rewrite insert_take_drop by by eapply lookup_lt_Some.
      specialize (Hlast j). rewrite !List.filter_app in *. cbn [List.filter] in *. rewrite Hj0 in Hlast.
      case_bool_decide as Hcj; [|by rewrite app_nil_r].
      assert (List.filter (λ e, bool_decide (cuJID e = j)) (take i out) = [] ∧ List.filter (λ e, bool_decide (cuJID e = j)) (drop (S i) out) = []) as [-> ->].
      { destruct (last _) as [x|]; cbn in Hlast.
        - apply (f_equal length) in Hlast. rewrite length_app in Hlast. cbn in Hlast.
          split; apply length_zero_iff_nil; lia.
        - by destruct (List.filter _ (take i out)). }
      by rewrite last_snoc.
  - pose proof (Hpos (cuJID e)) as Hp. rewrite Hi in Hp. apply IH.
    + intros j. destruct (decide (j = cuJID e)) as [->|Hne].
      * rewrite lookup_insert_eq. exists e. split; [|done]. by rewrite lookup_app_r, Nat.sub_diag by lia.
      * rewrite lookup_insert_ne by done. pose proof (Hpos j) as Hpj. destruct (positions !! j).
        { destruct Hpj as (e' & He' & ?). exists e'. split; [|done]. by apply lookup_app_l_Some. }
        by rewrite filter_snoc, Hpj, bool_decide_false.
    + intros i e' [Ho|[Hl Ho]]%lookup_app_Some.
      * rewrite lookup_insert_ne; [by apply Hout|]. intros Heq. apply Hout in Ho. congruence.
      * destruct (i - length out)%nat as [|n] eqn:Hn; [|done]. injection Ho as <-. rewrite lookup_insert_eq. f_equal. lia.
    + intros j. rewrite !filter_snoc, Hlast. case_bool_decide as Hcj; [|by rewrite !app_nil_r].
      subst j. rewrite Hp. done.
Qed.

(** The removal of duplicate user names keeps of each JID the last one. *)
Lemma deduplicate_usernames entries : keepsLast cuJID entries (deduplicateContactUsernamesLastWriteWins entries).
Proof. apply (dedupUsernames_last entries []); [done..|]. intros j. done. Qed.

Lemma size_alter {K V} `{Countable K} (f : V → V) k (m : gmap K V) : size (alter f k m) = size m.
Proof. by rewrite <- !(size_dom (D := gset K)), dom_alter_L. Qed.

(** ** The cache *)

Section theory.
Context (sqlite : bool) (anyContact : gmap JID ContactInfo → option JID) `{!AnyContactLaws anyContact}.
Context (deduplicate : ∀ A, (A → JID) → list A → list A) `{!DeduplicateLaws deduplicate}.
Context (rowOrder : list (option string * contactRow) → list (option string * contactRow)).
Context (rowOrder_perm : ∀ l, rowOrder l ≡ₚ l).

Definition tablesOf (s : contactStore) : contactTables := content (contactDB s).

(** Every row is of a JID that its text gives back. *)
Definition wellKeyed (t : contactTables) : Prop :=
  nullRows t = [] ∧ map_Forall (λ k _, ∃ j, storable j ∧ k = JIDString j) (contactRows t).
(** What is cached is what the table has. *)
Definition coherent (cache : gmap JID ContactInfo) (t : contactTables) : Prop :=
  map_Forall (λ j info, storable j ∧ info = lookupContact j t) cache.
Definition contactInv (s : contactStore) : Prop :=
  wellKeyed (tablesOf s) ∧ coherent (contactCache s) (tablesOf s) ∧ (size (contactCache s) ≤ maxContactCacheEntries)%nat.

Lemma setCachedContact_ok (j : JID) info (cache : gmap JID ContactInfo) t :
  storable j → info = lookupContact j t → coherent cache t → (size cache ≤ maxContactCacheEntries)%nat →
  let cache' := setCachedContactLocked anyContact j info cache in
  coherent cache' t ∧ (size cache' ≤ maxContactCacheEntries)%nat ∧ cache' !! j = Some info.
Proof.
  intros Hj Hinfo Hc Hsize. cbn. unfold setCachedContactLocked, putBoundedCache. case_decide as Hfull.
  - destruct Hfull as [Hnone Hfull].
    destruct (anyContact_in cache) as (old & -> & Hold).
    { intros ->. rewrite map_size_empty in Hfull. unfold maxContactCacheEntries in Hfull. lia. }
    assert (old ≠ j) by (intros ->; rewrite Hnone in Hold; by destruct Hold).
    split_and!; [|rewrite map_size_insert_None by (by rewrite lookup_delete_ne); rewrite map_size_delete_Some by done; unfold maxContactCacheEntries in *; lia|apply lookup_insert_eq].
    apply map_Forall_insert_2; [done|]. by apply map_Forall_delete.
  - split_and!; [by apply map_Forall_insert_2| |apply lookup_insert_eq].
    destruct (cache !! j) as [v|] eqn:Hkey; [rewrite map_size_insert_Some by eauto; done|].
    rewrite map_size_insert_None by done. apply not_and_l in Hfull as [?|?]; [done|lia].
Qed.

(** A call that keeps the invariant, answers on a working database, and relates the
    tables before and after when it answers. *)
Definition keeps {A} (m : contactM A) (Q : contactTables → A → contactTables → Prop) : Prop :=
  ∀ s r s', contactInv s → m s = (r, s') →
    contactInv s' ∧ (working (contactDB s) → working (contactDB s') ∧ ∃ a, r = Ok a) ∧
    match r with Ok a => Q (tablesOf s) a (tablesOf s') | _ => tablesOf s' = tablesOf s end.

Lemma select_runs {A T} (f : T → A) (d : database T) r d' :
  select f d = (r, d') → content d' = content d ∧ (r = Ok (f (content d)) ∨ r = Err DriverFailed) ∧ (working d → working d' ∧ r = Ok (f (content d))).
Proof.
  unfold select, stmt, working. destruct (failing d) as [|b l]; cbn; [by intros [= <- <-]; split_and!; [|left|]|].
  destruct b; cbn; intros [= <- <-]; (split_and!; [done|by (left + right)|]); by intros [? ?]%Forall_cons.
Qed.

Lemma getContact_keeps j s r s' :
  storable j → contactInv s → getContact anyContact j s = (r, s') →
  contactInv s' ∧ tablesOf s' = tablesOf s ∧
  (working (contactDB s) → working (contactDB s') ∧ r = Ok (lookupContact j (tablesOf s))) ∧
  ((r = Ok (lookupContact j (tablesOf s)) ∧ contactCache s' !! j = Some (lookupContact j (tablesOf s))) ∨ r = Err DriverFailed).
Proof.
  intros Hj (Hk & Hc & Hs). unfold getContact, get, mbind, stateM_bind. destruct (contactCache s !! j) as [info|] eqn:Hcached.
  - intros [= <- <-]. destruct (Hc _ _ Hcached) as [_ ->]. split_and!; [done..|]. left. done.
  - unfold onContacts, zoom. destruct (select _ _) as [r1 d1] eqn:Hsel. apply select_runs in Hsel as (Ht & Hr & Hw). fold (tablesOf s) in *.
    destruct Hr as [->| ->]; cbn.
    + intros [= <- <-]. destruct (setCachedContact_ok j (lookupContact j (tablesOf s)) (contactCache s) (tablesOf s)) as (? & ? & ?); [done..|].
      unfold contactInv, tablesOf in *. cbn. rewrite Ht. split_and!; [done..| |by left]. intros Hwk. split; [by apply Hw|done].
    + intros [= <- <-]. unfold contactInv, tablesOf in *. cbn. rewrite Ht. split_and!; [done..| |by right]. intros Hwk. by destruct (Hw Hwk).
Qed.

(** An upsert of one row. *)
Definition withRow (j : JID) (f : contactRow → contactRow) (t : contactTables) : contactTables :=
  mkContactTables (<[JIDString j := f (default emptyRow (contactRows t !! JIDString j))]> (contactRows t)) (nullRows t).

Lemma lookup_withRow_ne j j' f t : storable j → storable j' → j ≠ j' → lookupContact j' (withRow j f t) = lookupContact j' t.
Proof.
  intros Hj Hj' Hne. unfold lookupContact. rewrite storable_key by done. cbn. rewrite lookup_insert_ne; [done|].
  intros Heq. by apply Hne, storable_inj.
Qed.
Lemma lookup_withRow j f t (i : ContactInfo → ContactInfo) :
  storable j → (∀ r, infoOf (f r) = i (infoOf r)) → infoOf (f emptyRow) = i noContact →
  lookupContact j (withRow j f t) = i (lookupContact j t).
Proof.
  intros Hj Hf Hf0. unfold lookupContact. rewrite storable_key by done. cbn. rewrite lookup_insert_eq.
  destruct (contactRows t !! JIDString j); cbn; [apply Hf|apply Hf0].
Qed.

Lemma alter_inv s j row i l :
  storable j → (∀ r, infoOf (row r) = i (infoOf r)) → infoOf (row emptyRow) = i noContact →
  contactInv s → contactCache s !! j = Some (lookupContact j (tablesOf s)) →
  contactInv (mkContactStore (mkDatabase (withRow j row (tablesOf s)) l) (alter i j (contactCache s))).
Proof.
  intros Hj Hrow Hrow0 ((Hn & Hk) & Hc & Hs) Hcached. split; [split; [done|]|split; [|cbn; by rewrite size_alter]].
  - apply map_Forall_insert_2; [by exists j|done].
  - intros j' info Hj'. cbn in Hj'. destruct (decide (j = j')) as [<-|Hne].
    + rewrite lookup_alter_eq, Hcached in Hj'. injection Hj' as <-. split; [done|]. symmetry. by apply lookup_withRow.
    + rewrite lookup_alter_ne in Hj' by done. destruct (Hc _ _ Hj') as [Hs' ->]. split; [done|]. symmetry. by apply lookup_withRow_ne.
Qed.

(** Reading a contact and setting some of its columns. *)
Lemma put_keeps {A} j (row : contactRow → contactRow) (i : ContactInfo → ContactInfo) (same : ContactInfo → bool) (no : A) (yes : ContactInfo → A) :
  storable j → (∀ r, infoOf (row r) = i (infoOf r)) → infoOf (row emptyRow) = i noContact →
  keeps (cached ← getContact anyContact j;
         if same cached then mret no
         else _ ← onContacts (stmt (upsertRow sqlite (jidKey j) row)); _ ← setCached j i; mret (yes cached))
    (λ t a t', if same (lookupContact j t) then a = no ∧ t' = t else a = yes (lookupContact j t) ∧ t' = withRow j row t).
Proof.
  intros Hj Hrow Hrow0 s r s' Hinv Hrun. unfold mbind at 1, stateM_bind at 1 in Hrun.
  destruct (getContact anyContact j s) as [r1 s1] eqn:Hget. destruct (getContact_keeps _ _ _ _ Hj Hinv Hget) as (Hinv1 & Ht1 & Hw1 & Hr1).
  destruct Hr1 as [[-> Hcached]| ->].
  2:{ injection Hrun as <- <-. split_and!; [done| |done]. intros Hw. by destruct (Hw1 Hw). }
  destruct (same (lookupContact j (tablesOf s))).
  { injection Hrun as <- <-. split_and!; [done| |done..]. intros Hw. split; [by apply Hw1|by eexists]. }
  unfold mbind, stateM_bind, onContacts, zoom in Hrun.
  destruct (stmt _ (contactDB s1)) as [r2 d2] eqn:Hst.
  assert (tablesOf s1 = tablesOf s) as Heq by done.
  unfold stmt in Hst. rewrite storable_key in Hst by done. cbn [upsertRow] in Hst. fold (tablesOf s1) in Hst. fold (withRow j row (tablesOf s1)) in Hst.
  destruct (failing (contactDB s1)) as [|[|] l] eqn:Hfail; cbn [head tail default] in Hst; injection Hst as <- <-; cbn in Hrun; injection Hrun as <- <-.
  2:{ split_and!; [done| |done]. intros Hw. apply Hw1 in Hw as [Hw _]. unfold working in Hw. rewrite Hfail in Hw. by apply Forall_cons in Hw as [? _]. }
  all: split; [|split; [intros Hw; apply Hw1 in Hw as [Hw _]; unfold working in *; rewrite Hfail in Hw; split; [|by eexists]; try apply Forall_cons in Hw as [_ Hw]; done|cbn; by rewrite Heq]].
  all: unfold setContactCache; cbn [contactDB contactCache]; apply (alter_inv s1); [done..|]; by rewrite Heq.
Qed.

(** ** Many entries at once *)

Definition keyOf {A} (key : A → JID) (e : A) : string := JIDString (key e).

(** Of each row the last entry wins, and no other row changes. *)
Definition lastWins {A} (key : A → JID) (f : A → contactRow → contactRow) (entries : list A) (t t' : contactTables) : Prop :=
  nullRows t' = nullRows t ∧
  ∀ k, contactRows t' !! k =
    match last (List.filter (λ e, bool_decide (keyOf key e = k)) entries) with
    | Some e => Some (f e (default emptyRow (contactRows t !! k)))
    | None => contactRows t !! k
    end.

Lemma in_filter {A} (P : A → bool) (e : A) l : e ∈ List.filter P l ↔ e ∈ l ∧ P e = true.
Proof. rewrite !list_elem_of_In. apply filter_In. Qed.
Lemma last_in {A} (l : list A) x : last l = Some x → x ∈ l.
Proof. intros Hl. apply last_Some in Hl as [l' ->]. set_solver. Qed.

Lemma keepsLast_in {A} (key : A → JID) l l' : keepsLast key l l' → ∀ e, e ∈ l' → e ∈ l.
Proof.
  intros Hk e He. assert (e ∈ List.filter (λ x, bool_decide (key x = key e)) l') as Hin by (apply in_filter; by rewrite bool_decide_true).
  rewrite Hk in Hin. destruct (last _) as [x|] eqn:Hl; cbn in Hin; [|by apply not_elem_of_nil in Hin].
  apply list_elem_of_singleton in Hin as ->. by apply last_in, in_filter in Hl as [? _].
Qed.

Lemma filter_ext_elem {A} (P Q : A → bool) l : (∀ e, e ∈ l → P e = Q e) → List.filter P l = List.filter Q l.
Proof. intros HPQ. apply filter_ext_in. intros e He. by apply HPQ, list_elem_of_In. Qed.

(** Without duplicates a row has the last entry of its JID. *)
Lemma keepsLast_key {A} (key : A → JID) l l' k :
  keepsLast key l l' → (∀ e, e ∈ l → storable (key e)) →
  List.filter (λ e, bool_decide (keyOf key e = k)) l' = option_list (last (List.filter (λ e, bool_decide (keyOf key e = k)) l)).
Proof.
  intros Hkeep Hst. destruct (List.filter (λ e, bool_decide (keyOf key e = k)) l) as [|e0 rest] eqn:Hl.
  - destruct (List.filter _ l') as [|e rest] eqn:Hl'; [done|].
    assert (e ∈ List.filter (λ e, bool_decide (keyOf key e = k)) l') as [He Hk]%in_filter by (rewrite Hl'; by left).
    apply (keepsLast_in key l) in He; [|done].
    assert (e ∈ List.filter (λ e, bool_decide (keyOf key e = k)) l) as Hin by by apply in_filter. rewrite Hl in Hin. by apply not_elem_of_nil in Hin.
  - assert (e0 ∈ List.filter (λ e, bool_decide (keyOf key e = k)) l) as [He0 Hk0%bool_decide_eq_true]%in_filter by (rewrite Hl; by left).
    assert (∀ e, e ∈ l → bool_decide (keyOf key e = k) = bool_decide (key e = key e0)) as Hsame.
    { intros e He. apply bool_decide_ext. rewrite <- Hk0. unfold keyOf. split; [intros Hj|congruence]. apply storable_inj; auto. }
    rewrite <- Hl, (filter_ext_elem _ _ l Hsame), <- Hkeep. apply filter_ext_elem. intros e He. apply Hsame. by apply (keepsLast_in key l l').
Qed.

Definition applyAll {A} (key : A → JID) (f : A → contactRow → contactRow) (entries : list A) (t : contactTables) : contactTables :=
  mkContactTables (foldl (λ rows e, <[keyOf key e := f e (default emptyRow (rows !! keyOf key e))]> rows) (contactRows t) entries) (nullRows t).

Lemma applyAll_lookup {A} (key : A → JID) f l t k :
  contactRows (applyAll key f l t) !! k = upserted f (contactRows t !! k) (List.filter (λ e, bool_decide (keyOf key e = k)) l).
Proof. apply (foldl_upsert (keyOf key)). Qed.

Lemma applyAll_lastWins {A} (key : A → JID) f l l' t :
  keepsLast key l l' → (∀ e, e ∈ l → storable (key e)) → lastWins key f l t (applyAll key f l' t).
Proof.
  intros Hkeep Hst. split; [done|]. intros k. rewrite applyAll_lookup, (keepsLast_key key l) by done.
  by destruct (last _).
Qed.

Lemma upsertBatches_Ok {A} (key : A → JID) f (bs : list (list A)) d u d' :
  upsertBatches sqlite (keyOf key) f bs d = (Ok u, d') → content d' = applyAll key f (concat bs) (content d).
Proof.
  revert d. induction bs as [|b bs IH]; intros d Hr; cbn [upsertBatches] in Hr.
  - injection Hr as _ <-. by destruct (content d).
  - inv_run. apply stmt_Ok in Hx as [Hx _]. destruct (negb sqlite && _); [discriminate Hx|]. injection Hx as _ Hx.
    apply IH in Hr. rewrite Hr, <- Hx. unfold applyAll. cbn. by rewrite foldl_app.
Qed.

Lemma upsertBatches_succeeds {A} (key : A → JID) f (bs : list (list A)) :
  NoDup (keyOf key <$> concat bs) → succeeds (upsertBatches sqlite (keyOf key) f bs).
Proof.
  induction bs as [|b bs IH]; cbn [upsertBatches concat]; [intros _; apply succeeds_ret|].
  rewrite fmap_app, NoDup_app. intros (Hb & _ & Hbs). apply succeeds_bind; [|intros _; by apply IH].
  apply succeeds_stmt. intros t. rewrite (bool_decide_true (NoDup _)) by done. rewrite andb_false_r. by eexists _, _.
Qed.

Lemma keepsLast_NoDup {A} (key : A → JID) l l' :
  keepsLast key l l' → (∀ e, e ∈ l → storable (key e)) → NoDup (keyOf key <$> l').
Proof.
  intros Hkeep Hst. apply NoDup_alt. intros i j k Hi Hj.
  apply list_lookup_fmap_Some in Hi as (ei & Hei & Hi), Hj as (ej & Hej & Hj).
  destruct (decide (i = j)) as [|Hne]; [done|exfalso].
  assert (length (List.filter (λ e, bool_decide (keyOf key e = k)) l') ≤ 1)%nat as Hle.
  { rewrite (keepsLast_key key l) by done. destruct (last _); cbn; lia. }
  assert (∀ a b ea eb, (a < b)%nat → l' !! a = Some ea → l' !! b = Some eb → keyOf key ea = k → keyOf key eb = k → False) as Htwo.
  { intros a b ea eb Hab Ha Hb Hka Hkb. rewrite <- (take_drop_middle _ _ _ Ha) in Hle. rewrite List.filter_app in Hle. cbn in Hle.
    rewrite bool_decide_true in Hle by done. rewrite length_app in Hle. cbn in Hle.
    assert (eb ∈ List.filter (λ e, bool_decide (keyOf key e = k)) (drop (S a) l')) as Hin.
    { apply in_filter. split; [|by apply bool_decide_true]. apply list_elem_of_lookup. exists (b - S a)%nat. rewrite lookup_drop. rewrite <- Hb. f_equal. lia. }
    destruct (List.filter _ (drop (S a) l')); [by apply not_elem_of_nil in Hin|cbn in Hle; lia]. }
  destruct (decide (i < j)%nat); [by eapply (Htwo i j)|by eapply (Htwo j i); [lia|..]].
Qed.

(** ** The invariant after many entries *)

Lemma lastWins_keyed {A} (key : A → JID) f l t t' :
  wellKeyed t → (∀ e, e ∈ l → storable (key e)) → lastWins key f l t t' → wellKeyed t'.
Proof.
  intros [Hn Hk] Hst [Hn' Hrows]. split; [congruence|]. intros k row Hrow. rewrite Hrows in Hrow.
  destruct (last _) as [e|] eqn:Hl; [|by eapply Hk].
  apply last_in, in_filter in Hl as [He <-%bool_decide_eq_true]. exists (key e). split; [by apply Hst|done].
Qed.

Lemma lastWins_lookup {A} (key : A → JID) f l t t' j :
  (∀ e, e ∈ l → storable (key e)) → storable j → lastWins key f l t t' →
  match last (List.filter (λ e, bool_decide (key e = j)) l) with
  | Some e => lookupContact j t' = infoOf (f e (default emptyRow (contactRows t !! JIDString j)))
  | None => lookupContact j t' = lookupContact j t
  end.
Proof.
  intros Hst Hj [_ Hrows].
  assert (List.filter (λ e, bool_decide (key e = j)) l = List.filter (λ e, bool_decide (keyOf key e = JIDString j)) l) as ->.
  { apply filter_ext_elem. intros e He. apply bool_decide_ext. unfold keyOf. split; [by intros ->|]. intros. apply storable_inj; auto. }
  unfold lookupContact. rewrite storable_key by done. rewrite Hrows. by destruct (last _).
Qed.

(** A transaction of batches, seen from the contact store. *)
Lemma batches_keeps (m : dbM contactTables unit) (Q : contactTables → contactTables → Prop) (after : gmap JID ContactInfo → gmap JID ContactInfo) s r s' :
  succeeds m → (∀ d u d', m d = (Ok u, d') → Q (content d) (content d')) →
  (_ ← onContacts (inTxn m); modify (setContactCache after)) s = (r, s') →
  ((r = Ok tt ∧ Q (tablesOf s) (tablesOf s') ∧ contactCache s' = after (contactCache s)) ∨
   ((∀ a, r ≠ Ok a) ∧ tablesOf s' = tablesOf s ∧ contactCache s' = contactCache s)) ∧
  (working (contactDB s) → working (contactDB s') ∧ ∃ a, r = Ok a).
Proof.
  intros Hm HQ. unfold onContacts, zoom, mbind, stateM_bind. destruct (inTxn m (contactDB s)) as [r1 d1] eqn:Ht.
  assert (working (contactDB s) → working d1 ∧ ∃ a, r1 = Ok a) as Hw.
  { intros Hw. destruct (succeeds_inTxn m Hm _ Hw) as (a & d' & Hr & Hw'). rewrite Ht in Hr. injection Hr as -> ->. split; [done|by eexists]. }
  destruct r1 as [u|e| |]; cbn; intros [= <- <-].
  - split; [left|intros Hwk; split; [by apply Hw|by eexists]]. apply inTxn_Ok in Ht as (d2 & d3 & Hd2 & Hm' & Hd3).
    unfold tablesOf. cbn. split_and!; [done| |done]. rewrite Hd3, <- Hd2. by eapply HQ.
  - split; [right|intros Hwk; destruct (Hw Hwk) as [_ [? [=]]]]. apply inTxn_atomic in Ht as [[? [=]]|Ht]. split_and!; done.
  - split; [right|intros Hwk; destruct (Hw Hwk) as [_ [? [=]]]]. apply inTxn_atomic in Ht as [[? [=]]|Ht]. split_and!; done.
  - split; [right|intros Hwk; destruct (Hw Hwk) as [_ [? [=]]]]. apply inTxn_atomic in Ht as [[? [=]]|Ht]. split_and!; done.
Qed.

Lemma keeps_of_batches (m : dbM contactTables unit) (Q : contactTables → contactTables → Prop) after :
  succeeds m → (∀ d u d', m d = (Ok u, d') → Q (content d) (content d')) →
  (∀ s t', contactInv s → Q (tablesOf s) t' →
    wellKeyed t' ∧ coherent (after (contactCache s)) t' ∧ (size (after (contactCache s)) ≤ maxContactCacheEntries)%nat) →
  keeps (_ ← onContacts (inTxn m); modify (setContactCache after)) (λ t _ t', Q t t').
Proof.
  intros Hm HQ Hinv s r s' Hs Hr. destruct (batches_keeps _ _ _ _ _ _ Hm HQ Hr) as [[(-> & Hq & Hc)|(Hno & Ht & Hc)] Hw].
  - split_and!; [|done|done]. unfold contactInv. rewrite Hc. by apply Hinv.
  - split_and!; [|done|].
    + unfold contactInv. rewrite Hc, Ht. by apply Hs.
    + destruct r as [a| | |]; try done. by destruct (Hno a).
Qed.

Lemma concat_batches {A} (l : list A) : concat (batchesOf l) = l.
Proof. apply concat_chunk; [unfold contactBatchSize; lia|done]. Qed.

Lemma upsert_all_ok {A} (key : A → JID) f l l' :
  keepsLast key l l' → (∀ e, e ∈ l → storable (key e)) →
  succeeds (upsertBatches sqlite (keyOf key) f (batchesOf l')) ∧
  ∀ d u d', upsertBatches sqlite (keyOf key) f (batchesOf l') d = (Ok u, d') → lastWins key f l (content d) (content d').
Proof.
  intros Hk Hst. split.
  - apply upsertBatches_succeeds. rewrite concat_batches. by eapply keepsLast_NoDup.
  - intros d u d' Hr. apply upsertBatches_Ok in Hr as ->. rewrite concat_batches. by apply applyAll_lastWins.
Qed.

(** Editing the cached entries of a list. *)
Lemma foldl_alter {A} (key : A → JID) (g : A → ContactInfo → ContactInfo) l (cache : gmap JID ContactInfo) j :
  foldl (λ c e, alter (g e) (key e) c) cache l !! j =
  (λ i, foldl (λ i e, g e i) i (List.filter (λ e, bool_decide (key e = j)) l)) <$> cache !! j.
Proof.
  revert cache. induction l as [|e l IH]; intros cache; cbn; [by destruct (cache !! j)|]. rewrite IH.
  case_bool_decide as Hj; [subst; rewrite lookup_alter_eq|rewrite lookup_alter_ne by done]; by destruct (cache !! _).
Qed.
Lemma foldl_alter_size {A} (key : A → JID) (g : A → ContactInfo → ContactInfo) l (cache : gmap JID ContactInfo) :
  size (foldl (λ c e, alter (g e) (key e) c) cache l) = size cache.
Proof. revert cache. induction l as [|e l IH]; intros cache; cbn; [done|]. by rewrite IH, size_alter. Qed.

Definition nameCached (e : ContactUsernameEntry) (c : ContactInfo) : ContactInfo :=
  mkContact true (FirstName c) (FullName c) (cPushName c) (BusinessName c) (cuUsername e) (RedactedPhone c).

Lemma cacheUsernames_run l s : cacheUsernames l s = (Ok tt, setContactCache (λ c, foldl (λ c e, alter (nameCached e) (cuJID e) c) c l) s).
Proof.
  revert s. induction l as [|e l IH]; intros s; cbn; [by destruct s|]. unfold mbind, stateM_bind. cbn. rewrite IH. done.
Qed.

Lemma usernames_keeps l :
  (∀ e, e ∈ l → storable (cuJID e)) →
  keeps (PutManyContactUsernames sqlite l) (λ t _ t', lastWins cuJID (λ e, setUsername (cuUsername e)) l t t').
Proof.
  intros Hst. destruct l as [|e0 l0] eqn:Hl.
  { intros s r s' Hs [= <- <-]. split_and!; [done|intros; split; [done|by eexists]|by split]. }
  rewrite <- Hl in *. assert (PutManyContactUsernames sqlite l = (_ ← onContacts (inTxn (upsertBatches sqlite (keyOf cuJID) (λ e, setUsername (cuUsername e)) (batchesOf (deduplicateContactUsernamesLastWriteWins l))));
    cacheUsernames (deduplicateContactUsernamesLastWriteWins l))) as -> by by rewrite Hl.
  pose proof (deduplicate_usernames l) as Hkeep. set (l' := deduplicateContactUsernamesLastWriteWins l) in *.
  destruct (upsert_all_ok cuJID (λ e, setUsername (cuUsername e)) l l') as [Hm HQ]; [done..|].
  intros s r s' Hs Hr.
  refine (keeps_of_batches _ _ (λ c, foldl (λ c e, alter (nameCached e) (cuJID e) c) c l') Hm HQ _ s r s' Hs _).
  - clear s r s' Hs Hr. intros s t' (Hk & Hc & Hsize) Hq. split_and!; [by eapply lastWins_keyed| |by rewrite foldl_alter_size].
    intros j info Hj. rewrite foldl_alter, Hkeep in Hj. destruct (contactCache s !! j) as [i0|] eqn:Hi0; [|done]. cbn in Hj. injection Hj as <-.
    destruct (Hc _ _ Hi0) as [Hst' ->]. split; [done|]. pose proof (lastWins_lookup cuJID _ l _ _ j Hst Hst' Hq) as Hlook.
    destruct (last _) as [e|]; cbn; rewrite Hlook; [|done]. unfold lookupContact. rewrite storable_key by done.
    by destruct (contactRows (tablesOf s) !! JIDString j).
  - rewrite <- Hr. apply stateM_bind_ext; [done|]. intros _ s1. by rewrite cacheUsernames_run.
Qed.

Lemma filter_filter {A} (P Q : A → bool) l : List.filter P (List.filter Q l) = List.filter Q (List.filter P l).
Proof. induction l as [|x l IH]; [done|]. cbn. destruct (P x) eqn:HP, (Q x) eqn:HQ; cbn; rewrite ?HP, ?HQ, ?IH; done. Qed.

Definition named (e : ContactEntry) : bool := UsernameSet e || negb (bool_decide (ceUsername e = "")).
(** What a contact entry sets: the user name only when it has one or says that it has none. *)
Definition entryRow (e : ContactEntry) (r : contactRow) : contactRow :=
  if named e then setUsername (ceUsername e) (setNames (ceFirstName e) (ceFullName e) r) else setNames (ceFirstName e) (ceFullName e) r.

Lemma names_split l l' t :
  keepsLast ceJID l l' → (∀ e, e ∈ l → storable (ceJID e)) →
  let '(a, b) := splitContactNameEntries l' in
  lastWins ceJID entryRow l t
    (applyAll ceJID (λ e, setNames (ceFirstName e) (ceFullName e)) b
       (applyAll ceJID (λ e r, setUsername (ceUsername e) (setNames (ceFirstName e) (ceFullName e) r)) a t)).
Proof.
  intros Hk Hst. change (splitContactNameEntries l') with (List.filter named l', List.filter (λ c, negb (named c)) l').
  split; [done|]. intros k. rewrite !applyAll_lookup.
  rewrite (filter_filter _ named l'), (filter_filter _ (λ c, negb (named c)) l'), (keepsLast_key ceJID l) by done.
  destruct (last _) as [e|]; [|done]. cbn. unfold entryRow. by destruct (named e).
Qed.

Lemma filter_NoDup {A B} (key : A → B) (P : A → bool) l : NoDup (key <$> l) → NoDup (key <$> List.filter P l).
Proof.
  induction l as [|x l IH]; [done|]. cbn. rewrite NoDup_cons. intros [Hx Hl]. destruct (P x); [|by apply IH]. cbn. rewrite NoDup_cons.
  split; [|by apply IH]. intros (y & Hxy & [Hy _]%in_filter)%list_elem_of_fmap. apply Hx, list_elem_of_fmap. by exists y.
Qed.

Lemma names_keeps l :
  (∀ e, e ∈ l → storable (ceJID e)) → keeps (PutAllContactNames sqlite deduplicate l) (λ t _ t', lastWins ceJID entryRow l t t').
Proof.
  intros Hst. destruct l as [|e0 l0] eqn:Hl.
  { intros s r s' Hs [= <- <-]. split_and!; [done|intros; split; [done|by eexists]|by split]. }
  rewrite <- Hl in *. pose proof (deduplicate_last _ ceJID l) as Hkeep. set (l' := deduplicate _ ceJID l) in *.
  set (a := List.filter named l'). set (b := List.filter (λ c, negb (named c)) l').
  set (fa := λ (e : ContactEntry) r, setUsername (ceUsername e) (setNames (ceFirstName e) (ceFullName e) r)).
  set (fb := λ e : ContactEntry, setNames (ceFirstName e) (ceFullName e)).
  assert (PutAllContactNames sqlite deduplicate l =
    (_ ← onContacts (inTxn (_ ← upsertBatches sqlite (keyOf ceJID) fa (batchesOf a); upsertBatches sqlite (keyOf ceJID) fb (batchesOf b)));
     modify (setContactCache (λ _, ∅)))) as -> by by (subst a b l'; rewrite Hl).
  assert (NoDup (keyOf ceJID <$> l')) as Hnd by by eapply keepsLast_NoDup.
  apply keeps_of_batches.
  - apply succeeds_bind; [|intros _]; apply upsertBatches_succeeds; rewrite concat_batches; by apply filter_NoDup.
  - intros d u d' Hr. inv_run. apply upsertBatches_Ok in Hx, Hr. rewrite Hr, Hx, !concat_batches.
    apply (names_split l l'); done.
  - intros s t' (Hk & Hc & Hsize) Hq. split_and!; [by eapply lastWins_keyed|done|]. rewrite map_size_empty. lia.
Qed.

Lemma uncache_lookup l (cache : gmap JID ContactInfo) j info :
  foldl uncachePhone cache l !! j = Some info →
  cache !! j = Some info ∧ ∀ e, e ∈ l → rpJID e = j → RedactedPhone info = rpPhone e.
Proof.
  revert cache. induction l as [|e l IH]; intros cache; cbn.
  { intros Hj. split; [done|]. by intros e []%not_elem_of_nil. }
  intros [Hj Hl]%IH. unfold uncachePhone in Hj.
  assert (cache !! j = Some info ∧ (rpJID e = j → RedactedPhone info = rpPhone e)) as [Hc He].
  { destruct (cache !! rpJID e) as [c|] eqn:Hce; [case_decide as Hd|];
      try (apply lookup_delete_Some in Hj as [? ?]; split; [done|by intros]).
    split; [done|]. intros <-. congruence. }
  split; [done|]. intros e' [->|He']%elem_of_cons; [done|by apply Hl].
Qed.
Lemma uncache_size l (cache : gmap JID ContactInfo) : (size (foldl uncachePhone cache l) ≤ size cache)%nat.
Proof.
  revert cache. induction l as [|e l IH]; intros cache; cbn; [done|]. etrans; [apply IH|]. unfold uncachePhone.
  assert (size (delete (rpJID e) cache) ≤ size cache)%nat.
  { destruct (cache !! rpJID e) eqn:He; [rewrite map_size_delete_Some by done; lia|by rewrite delete_id]. }
  destruct (cache !! rpJID e); [case_decide|]; lia.
Qed.

(** With an empty phone number a row may appear that the cache does not know of; see
    [empty_phone_stays_unfound]. *)
Lemma phones_keeps l :
  (∀ e, e ∈ l → storable (rpJID e) ∧ rpPhone e ≠ "") →
  keeps (PutManyRedactedPhones sqlite deduplicate l) (λ t _ t', lastWins rpJID (λ e, setRedactedPhone (rpPhone e)) l t t').
Proof.
  intros Hst. assert (∀ e, e ∈ l → storable (rpJID e)) as Hst' by (intros; by apply Hst). destruct l as [|e0 l0] eqn:Hl.
  { intros s r s' Hs [= <- <-]. split_and!; [done|intros; split; [done|by eexists]|by split]. }
  rewrite <- Hl in *. pose proof (deduplicate_last _ rpJID l) as Hkeep. set (l' := deduplicate _ rpJID l) in *.
  assert (PutManyRedactedPhones sqlite deduplicate l =
    (_ ← onContacts (inTxn (upsertBatches sqlite (keyOf rpJID) (λ e, setRedactedPhone (rpPhone e)) (batchesOf l')));
     modify (setContactCache (λ cache, foldl uncachePhone cache l')))) as -> by by (subst l'; rewrite Hl).
  destruct (upsert_all_ok rpJID (λ e, setRedactedPhone (rpPhone e)) l l') as [Hm HQ]; [done..|].
  apply keeps_of_batches; [done..|]. intros s t' (Hk & Hc & Hsize) Hq.
  split_and!; [by eapply lastWins_keyed| |etrans; [apply uncache_size|done]].
  intros j info [Hj Hsame]%uncache_lookup. destruct (Hc _ _ Hj) as [Hsj ->]. split; [done|].
  pose proof (lastWins_lookup rpJID _ l _ _ j Hst' Hsj Hq) as Hlook. destruct (last _) as [e|] eqn:Hlast; rewrite Hlook; [|done].
  assert (e ∈ l' ∧ rpJID e = j) as [He Hje].
  { pose proof (Hkeep j) as Hkj. rewrite Hlast in Hkj. cbn in Hkj.
    assert (e ∈ List.filter (λ e, bool_decide (rpJID e = j)) l') as [? ?%bool_decide_eq_true]%in_filter by (rewrite Hkj; by left). done. }
  specialize (Hsame e He Hje). apply (keepsLast_in rpJID l) in He; [|done]. destruct (Hst e He) as [_ Hne].
  unfold lookupContact in *. rewrite storable_key in * by done. destruct (contactRows (tablesOf s) !! JIDString j) as [row|]; cbn in *; [|done].
  unfold infoOf. cbn. by rewrite Hsame.
Qed.

(** Reading all contacts. *)
Lemma readContacts_all rows t :
  wellKeyed t → (∀ x, x ∈ rows → ∃ k, x.1 = Some k ∧ contactRows t !! k = Some x.2) →
  ∃ l, readContacts rows = (l, None) ∧ Forall (λ x, storable x.1 ∧ x.2 = lookupContact x.1 t) l ∧
    (∀ k row, (Some k, row) ∈ rows → ∃ j, k = JIDString j ∧ j ∈ l.*1) ∧ ∀ j, j ∈ l.*1 → is_Some (contactRows t !! JIDString j).
Proof.
  intros [_ Hk]. induction rows as [|[k row] rows IH]; intros Hrows; cbn [readContacts].
  { exists []. split_and!; [done|done| |]; [intros k row Hin|intros j Hin]; by apply not_elem_of_nil in Hin. }
  destruct (Hrows (k, row)) as (k' & Hk' & Hrow); [by left|]. cbn in Hk', Hrow. subst k.
  destruct (Hk _ _ Hrow) as (j & Hj & ->). unfold Scan. rewrite storable_parse by done.
  destruct IH as (l & -> & Hall & Hin & Hdom); [intros x Hx; apply Hrows; by right|].
  exists ((j, infoOf row) :: l). split_and!; [done| | |].
  - constructor; [|done]. split; [done|]. unfold lookupContact. rewrite storable_key by done. cbn. by rewrite Hrow.
  - intros k row' [[= -> ->]|Hr]%elem_of_cons; [exists j; split; [done|by left]|].
    destruct (Hin _ _ Hr) as (j' & -> & Hj'). exists j'. split; [done|by right].
  - intros j' [->|Hj']%elem_of_cons; [cbn; by rewrite Hrow|by apply Hdom].
Qed.

Lemma cacheAll_ok (l : list (JID * ContactInfo)) (cache : gmap JID ContactInfo) t :
  Forall (λ x, storable x.1 ∧ x.2 = lookupContact x.1 t) l → coherent cache t → (size cache ≤ maxContactCacheEntries)%nat →
  let cache' := foldl (λ c x, setCachedContactLocked anyContact x.1 x.2 c) cache l in
  coherent cache' t ∧ (size cache' ≤ maxContactCacheEntries)%nat.
Proof.
  intros Hl. revert cache. induction Hl as [|x l [Hx Hi] _ IH]; intros cache Hc Hs; [done|]. cbn.
  destruct (setCachedContact_ok x.1 x.2 cache t) as (? & ? & _); [done..|]. by apply IH.
Qed.

Lemma collect_lookup (l : list (JID * ContactInfo)) (m : gmap JID ContactInfo) (g : JID → ContactInfo) j info :
  Forall (λ x, x.2 = g x.1) l → (∀ j i, m !! j = Some i → i = g j) →
  foldl (λ (m : gmap JID ContactInfo) x, <[x.1 := x.2]> m) m l !! j = Some info ↔ (j ∈ l.*1 ∨ is_Some (m !! j)) ∧ info = g j.
Proof.
  intros Hl. revert m. induction Hl as [|x l Hx _ IH]; intros m Hm; cbn.
  { rewrite elem_of_nil. split; [|intros [[[]|[i Hi]] ->]; rewrite Hi; f_equal; by apply Hm].
    intros Hj. split; [right; by eexists|by apply Hm]. }
  rewrite IH.
  - rewrite elem_of_cons, lookup_insert_is_Some. destruct (decide (x.1 = j)) as [<-|Hne]; [|naive_solver].
    split; [intros [_ ->]; split; [left; by left|done]|intros [_ ->]; split; [right; by left|done]].
  - intros j' i. rewrite lookup_insert_Some. intros [[<- <-]|[_ Hi]]; [done|by apply Hm].
Qed.

Lemma GetAll_keeps :
  keeps (GetAllContacts anyContact rowOrder) (λ t a t', t' = t ∧ a.2 = None ∧
    ∀ j info, a.1 !! j = Some info ↔ storable j ∧ Found info = true ∧ info = lookupContact j t).
Proof.
  intros s r s' (Hk & Hc & Hs). unfold GetAllContacts, onContacts, zoom, mbind, stateM_bind.
  destruct (select _ _) as [r1 d1] eqn:Hsel. apply select_runs in Hsel as (Ht & Hr & Hw). fold (tablesOf s) in *.
  assert (∀ x, x ∈ rowOrder (allRows (tablesOf s)) ↔ ∃ k, x.1 = Some k ∧ contactRows (tablesOf s) !! k = Some x.2) as Hrows.
  { intros [k row]. rewrite rowOrder_perm. unfold allRows. destruct Hk as [-> _]. cbn. rewrite app_nil_r, list_elem_of_fmap. cbn.
    split; [intros ([k' row'] & [= -> ->] & Hin%elem_of_map_to_list); by exists k'|].
    intros (k' & -> & Hin). exists (k', row). split; [done|by apply elem_of_map_to_list]. }
  destruct (readContacts_all (rowOrder (allRows (tablesOf s))) (tablesOf s)) as (l & Hread & Hall & Hin & Hdom); [done|intros; by apply Hrows|].
  rewrite Hread in *. destruct (cacheAll_ok l (contactCache s) (tablesOf s)) as [Hc' Hs']; [done..|].
  destruct Hr as [->| ->]; cbn; intros [= <- <-]; unfold contactInv, tablesOf in *; cbn; rewrite Ht.
  2:{ split_and!; [done..| |done]. intros Hwk. by destruct (Hw Hwk). }
  split; [by split_and!|]. split; [intros Hwk; split; [by apply Hw|by eexists]|]. split_and!; [done..|].
  intros j info. rewrite (collect_lookup l ∅ (λ j, lookupContact j (content (contactDB s)))).
  2:{ eapply Forall_impl; [exact Hall|]. by intros x [_ ?]. }
  2:{ by intros ?? ?%lookup_empty_Some. }
  split.
  - intros [[Hj|[? []%lookup_empty_Some]] ->]. assert (storable j) as Hst.
    { apply list_elem_of_fmap in Hj as (x & -> & Hx). rewrite Forall_forall in Hall. by apply Hall in Hx as [? _]. }
    split_and!; [done| |done]. destruct (Hdom j Hj) as [row Hrow]. unfold lookupContact. rewrite storable_key by done. by rewrite Hrow.
  - intros (Hst & Hf & ->). split; [left|done]. unfold lookupContact in Hf. rewrite storable_key in Hf by done.
    destruct (contactRows _ !! JIDString j) as [row|] eqn:Hrow; [|done].
    destruct (Hin (JIDString j) row) as (j' & Hj' & Hin'); [apply Hrows; by exists (JIDString j)|].
    assert (storable j') as Hst'. { apply list_elem_of_fmap in Hin' as (x & -> & Hx). rewrite Forall_forall in Hall. by apply Hall in Hx as [? _]. }
    by rewrite (storable_inj j j').
Qed.

(** ** Histories *)

Inductive contactOp :=
| OpPushName (j : JID) (name : string)
| OpBusinessName (j : JID) (name : string)
| OpName (j : JID) (first full : string)
| OpUsername (j : JID) (name : string)
| OpUsernames (l : list ContactUsernameEntry)
| OpNames (l : list ContactEntry)
| OpPhones (l : list RedactedPhoneEntry)
| OpGet (j : JID)
| OpGetAll.

Inductive contactAnswer := Renamed (changed : bool) (old : string) | Done | Info (i : ContactInfo) | All (m : gmap JID ContactInfo) (e : option dbError).

Definition runContact (op : contactOp) : contactM contactAnswer :=
  match op with
  | OpPushName j n => r ← PutPushName sqlite anyContact j n; mret (Renamed r.1 r.2)
  | OpBusinessName j n => r ← PutBusinessName sqlite anyContact j n; mret (Renamed r.1 r.2)
  | OpName j f n => _ ← PutContactName sqlite anyContact j f n; mret Done
  | OpUsername j n => _ ← PutContactUsername sqlite anyContact j n; mret Done
  | OpUsernames l => _ ← PutManyContactUsernames sqlite l; mret Done
  | OpNames l => _ ← PutAllContactNames sqlite deduplicate l; mret Done
  | OpPhones l => _ ← PutManyRedactedPhones sqlite deduplicate l; mret Done
  | OpGet j => i ← GetContact anyContact j; mret (Info i)
  | OpGetAll => r ← GetAllContacts anyContact rowOrder; mret (All r.1 r.2)
  end.

(** The operation on the table alone. *)
Definition contactSpec (op : contactOp) (t : contactTables) (a : contactAnswer) (t' : contactTables) : Prop :=
  match op with
  | OpPushName j n =>
      let old := cPushName (lookupContact j t) in
      if bool_decide (old = n) then a = Renamed false "" ∧ t' = t else a = Renamed true old ∧ t' = withRow j (setPushName n) t
  | OpBusinessName j n =>
      let old := BusinessName (lookupContact j t) in
      if bool_decide (old = n) then a = Renamed false "" ∧ t' = t else a = Renamed true old ∧ t' = withRow j (setBusinessName n) t
  | OpName j f n =>
      a = Done ∧ if bool_decide (FirstName (lookupContact j t) = f ∧ FullName (lookupContact j t) = n) then t' = t else t' = withRow j (setNames f n) t
  | OpUsername j n => a = Done ∧ if bool_decide (Username (lookupContact j t) = n) then t' = t else t' = withRow j (setUsername n) t
  | OpUsernames l => a = Done ∧ lastWins cuJID (λ e, setUsername (cuUsername e)) l t t'
  | OpNames l => a = Done ∧ lastWins ceJID entryRow l t t'
  | OpPhones l => a = Done ∧ lastWins rpJID (λ e, setRedactedPhone (rpPhone e)) l t t'
  | OpGet j => a = Info (lookupContact j t) ∧ t' = t
  | OpGetAll => t' = t ∧ ∃ m, a = All m None ∧ ∀ j info, m !! j = Some info ↔ storable j ∧ Found info = true ∧ info = lookupContact j t
  end.

(** The JIDs have texts of their own, and redacted numbers are not empty. *)
Definition storableOp (op : contactOp) : Prop :=
  match op with
  | OpPushName j _ | OpBusinessName j _ | OpName j _ _ | OpUsername j _ | OpGet j => storable j
  | OpUsernames l => ∀ e, e ∈ l → storable (cuJID e)
  | OpNames l => ∀ e, e ∈ l → storable (ceJID e)
  | OpPhones l => ∀ e, e ∈ l → storable (rpJID e) ∧ rpPhone e ≠ ""
  | OpGetAll => True
  end.

Lemma keeps_map {A B} (m : contactM A) (f : A → B) Q (Q' : contactTables → B → contactTables → Prop) :
  keeps m Q → (∀ t a t', Q t a t' → Q' t (f a) t') → keeps (a ← m; mret (f a)) Q'.
Proof.
  intros Hm HQ s r s' Hs Hr. unfold mbind, stateM_bind in Hr. destruct (m s) as [r1 s1] eqn:Hms.
  destruct (Hm _ _ _ Hs Hms) as (Hi & Hw & Hq). destruct r1 as [a| | |]; cbn in Hr; injection Hr as <- <-.
  - split; [done|]. split; [intros Hwk; split; [by apply Hw|by eexists]|by apply HQ].
  - split; [done|]. split; [|done]. intros Hwk. by destruct (Hw Hwk) as [_ [? [=]]].
  - split; [done|]. split; [|done]. intros Hwk. by destruct (Hw Hwk) as [_ [? [=]]].
  - split; [done|]. split; [|done]. intros Hwk. by destruct (Hw Hwk) as [_ [? [=]]].
Qed.

Lemma keeps_ext {A} (m m' : contactM A) Q : (∀ s, m s = m' s) → keeps m' Q → keeps m Q.
Proof. intros Hext Hm s r s' Hs. rewrite Hext. by apply Hm. Qed.

Lemma decide_bool {A} (P : Prop) `{Decision P} (a b : A) : (if decide P then a else b) = if bool_decide P then a else b.
Proof. by case_decide; case_bool_decide. Qed.

Lemma runContact_keeps op : storableOp op → keeps (runContact op) (contactSpec op).
Proof.
  destruct op as [j n|j n|j f n|j n|l|l|l|j|]; cbn [runContact storableOp]; intros Hop.
  - eapply keeps_map. { eapply keeps_ext; [|apply (put_keeps j (setPushName n) (λ c, mkContact true (FirstName c) (FullName c) n (BusinessName c) (Username c) (RedactedPhone c))
        (λ c, bool_decide (cPushName c = n)) (false, "") (λ c, (true, cPushName c))); done].
      intros s. apply stateM_bind_ext; [done|]. intros c s1. by rewrite decide_bool. }
    intros t a t'. cbn. case_bool_decide; intros [-> ->]; done.
  - eapply keeps_map. { eapply keeps_ext; [|apply (put_keeps j (setBusinessName n) (λ c, mkContact true (FirstName c) (FullName c) (cPushName c) n (Username c) (RedactedPhone c))
        (λ c, bool_decide (BusinessName c = n)) (false, "") (λ c, (true, BusinessName c))); done].
      intros s. apply stateM_bind_ext; [done|]. intros c s1. by rewrite decide_bool. }
    intros t a t'. cbn. case_bool_decide; intros [-> ->]; done.
  - eapply keeps_map. { eapply keeps_ext; [|apply (put_keeps j (setNames f n) (λ c, mkContact true f n (cPushName c) (BusinessName c) (Username c) (RedactedPhone c))
        (λ c, bool_decide (FirstName c = f ∧ FullName c = n)) tt (λ _, tt)); done].
      intros s. apply stateM_bind_ext; [done|]. intros c s1. by rewrite decide_bool. }
    intros t a t'. cbn. case_bool_decide; intros [_ ->]; done.
  - eapply keeps_map. { eapply keeps_ext; [|apply (put_keeps j (setUsername n) (λ c, mkContact true (FirstName c) (FullName c) (cPushName c) (BusinessName c) n (RedactedPhone c))
        (λ c, bool_decide (Username c = n)) tt (λ _, tt)); done].
      intros s. apply stateM_bind_ext; [done|]. intros c s1. by rewrite decide_bool. }
    intros t a t'. cbn. case_bool_decide; intros [_ ->]; done.
  - eapply keeps_map; [by apply usernames_keeps|]. by intros.
  - eapply keeps_map; [by apply names_keeps|]. by intros.
  - eapply keeps_map; [by apply phones_keeps|]. by intros.
  - apply (keeps_map _ _ (λ t a t', a = lookupContact j t ∧ t' = t)); [|by intros t a t' [-> ->]]. intros s r s' Hs Hr.
    destruct (getContact_keeps _ _ _ _ Hop Hs Hr) as (Hi & Ht & Hw & Hc). split; [done|].
    split; [intros Hwk; destruct (Hw Hwk) as [? ->]; split; [done|by eexists]|]. destruct Hc as [[-> _]| ->]; done.
  - eapply keeps_map; [apply GetAll_keeps|]. intros t [m e] t' (-> & He & Hm). cbn in *. subst e. split; [done|]. by exists m.
Qed.

(** The answers of calls one after the other. *)
Fixpoint runContacts (ops : list contactOp) (s : contactStore) : list (outcome dbError contactAnswer) * contactStore :=
  match ops with
  | [] => ([], s)
  | op :: ops => let '(r, s) := runContact op s in let '(rs, s) := runContacts ops s in (r :: rs, s)
  end.

(** The table without a cache: a call that fails leaves it as it is. *)
Inductive contactTrace : list contactOp → list (outcome dbError contactAnswer) → contactTables → contactTables → Prop :=
| trace_nil t : contactTrace [] [] t t
| trace_ok op ops a rs t t1 t2 : contactSpec op t a t1 → contactTrace ops rs t1 t2 → contactTrace (op :: ops) (Ok a :: rs) t t2
| trace_failed op ops r rs t t2 : (∀ a, r ≠ Ok a) → contactTrace ops rs t t2 → contactTrace (op :: ops) (r :: rs) t t2.

(** C23: the contact store refines its table. Over any sequence of calls in which
    every JID has a text of its own and no redacted number is empty, whichever
    statements fail, every answer is the one the table alone would give, at the
    moment of the call: the cache of 256 contacts, which calls fill, edit through
    shared pointers, empty and overrun, is not seen. Batches leave in each row the
    last entry of its JID, over batches of three hundred. On a database that works
    every call answers. With an empty redacted number the cache is seen, as
    [empty_phone_stays_unfound] below shows. *)
Theorem contacts_refine (ops : list contactOp) (s : contactStore) :
  Forall storableOp ops → contactInv s →
  let '(rs, s') := runContacts ops s in
  contactInv s' ∧ contactTrace ops rs (tablesOf s) (tablesOf s') ∧ (working (contactDB s) → Forall (λ r, ∃ a, r = Ok a) rs).
Proof.
  intros Hops. revert s. induction Hops as [|op ops Hop _ IH]; intros s Hs; cbn.
  { split_and!; [done|constructor|constructor]. }
  destruct (runContact op s) as [r s1] eqn:Hr. destruct (runContact_keeps op Hop s r s1 Hs Hr) as (Hi1 & Hw & Hq).
  specialize (IH s1 Hi1). destruct (runContacts ops s1) as [rs s2]. destruct IH as (Hi2 & Htr & Hw2). split; [done|]. split.
  - destruct r as [a| | |]; [by eapply trace_ok|rewrite <- Hq; by eapply trace_failed..].
  - intros Hwk. destruct (Hw Hwk) as [? ?]. constructor; [done|by apply Hw2].
Qed.
End theory.

(** ** A history *)

(** A removal of duplicates that keeps the last entry of each JID. *)
Fixpoint dedupLast A (key : A → JID) (l : list A) : list A :=
  match l with [] => [] | e :: l => if decide (key e ∈ key <$> l) then dedupLast A key l else e :: dedupLast A key l end.
#[local] Instance dedupLast_laws : DeduplicateLaws dedupLast.
Proof.
  split. intros A key l j. induction l as [|e l IH]; [done|]. cbn [dedupLast List.filter]. case_decide as Hin.
  - rewrite IH. case_bool_decide as Hj; [|done]. subst j. rewrite last_cons.
    destruct (last (List.filter _ l)) eqn:Hl; [done|]. apply last_None in Hl.
    apply list_elem_of_fmap in Hin as (e' & He & Hin). assert (e' ∈ List.filter (λ x, bool_decide (key x = key e)) l) as Hin'
      by (apply in_filter; split; [done|by apply bool_decide_eq_true]). rewrite Hl in Hin'. by apply not_elem_of_nil in Hin'.
  - cbn [List.filter]. case_bool_decide as Hj; [|done]. subst j. rewrite IH.
    assert (List.filter (λ x, bool_decide (key x = key e)) l = []) as ->; [|done].
    destruct (List.filter _ l) as [|x rest] eqn:Hl; [done|]. exfalso. apply Hin.
    assert (x ∈ List.filter (λ x, bool_decide (key x = key e)) l) as [Hx Hk%bool_decide_eq_true]%in_filter by (rewrite Hl; by left).
    rewrite <- Hk. apply list_elem_of_fmap. by exists x.
Qed.
Definition anyOf (m : gmap JID ContactInfo) : option JID := fst <$> head (map_to_list m).
#[local] Instance anyOf_laws : AnyContactLaws anyOf.
Proof.
  split. intros m Hm. unfold anyOf. destruct (map_to_list m) as [|[k v] l] eqn:Hl; [by apply map_to_list_empty_iff in Hl|].
  exists k. split; [done|]. exists v. apply elem_of_map_to_list. rewrite Hl. by left.
Qed.

Definition alice : JID := NewJID "10" DefaultUserServer.
Definition bob : JID := NewJID "11" HiddenUserServer.
Definition contactHistory : list contactOp :=
  [OpPushName alice "a"; OpNames [mkEntry alice "A" "A B" "" false; mkEntry bob "B" "" "b" false; mkEntry alice "A2" "" "" false];
   OpUsernames [mkUsername bob "x"; mkUsername alice "y"; mkUsername bob "z"]; OpPhones [mkPhone bob "+1"]; OpGet bob; OpGetAll].

Lemma contacts_refine_witness :
  let '(rs, s') := runContacts true anyOf dedupLast id contactHistory (mkContactStore (mkDatabase (mkContactTables ∅ []) []) ∅) in
  contactInv s' ∧ contactTrace contactHistory rs (mkContactTables ∅ []) (tablesOf s') ∧ (working (mkDatabase (mkContactTables ∅ []) []) → Forall (λ r, ∃ a, r = Ok a) rs).
Proof.
  apply (contacts_refine true anyOf dedupLast id (λ l, Permutation_refl l) contactHistory (mkContactStore (mkDatabase (mkContactTables ∅ []) []) ∅)).
  - assert (storable alice ∧ storable bob) as [? ?] by (split; by apply (bool_decide_unpack _); vm_compute).
    unfold contactHistory. rewrite !Forall_cons, Forall_nil. cbn [storableOp].
    split_and!; try done; intros e; rewrite ?elem_of_cons, elem_of_nil; naive_solver.
  - split_and!; [split; [done|apply (map_Forall_empty (M := gmap string))]|apply (map_Forall_empty (M := gmap JID))|vm_compute; lia].
Defined.

Example contact_history_bob :
  (runContacts true anyOf dedupLast id contactHistory (mkContactStore (mkDatabase (mkContactTables ∅ []) []) ∅)).1 !! 4%nat =
  Some (Ok (Info (mkContact true "B" "" "" "" "z" "+1"))).
Proof. vm_compute. reflexivity. Qed.

(** An empty redacted number for a contact that was read and not found: the table has
    a row, and the cache goes on answering that there is none. *)
Example empty_phone_stays_unfound :
  let ops := [OpGet bob; OpPhones [mkPhone bob ""]; OpGet bob; OpNames [mkEntry alice "A" "" "" false]; OpGet bob] in
  (runContacts true anyOf dedupLast id ops (mkContactStore (mkDatabase (mkContactTables ∅ []) []) ∅)).1 =
  [Ok (Info noContact); Ok Done; Ok (Info noContact); Ok Done; Ok (Info (mkContact true "" "" "" "" "" ""))].
Proof. vm_compute. reflexivity. Qed.
