(* ===== verification/Json.v ===== *)
(** Values of Go's standard library that the calls about businesses and channels use: JSON
    decoded into values of struct types, texts that are trimmed and checked, addresses of
    mail and of the web. *)
From Stdlib Require Import ZArith Lia.
From Stdlib Require Import Strings.Byte.
From stdpp Require Import prelude strings list.
From S2P Require Import Prelude Strconv Jid Proto.

#[local] Open Scope string_scope.

(** ** Documents

    A number is the text it is written as. An object also stands for a Go map or struct
    that is encoded. What is a document, which one a stream begins with, how one is written,
    and which numbers a float holds are parameters, as are net/url, net/mail, the time zones and the content types of
    net/http. *)
Inductive json :=
| JNull
| JBool (b : bool)
| JNum (literal : string)
| JStr (s : string)
| JArr (l : list json)
| JObj (members : list (string * json)).
Record URL := mkURL { Scheme : string; Host : string; Hostname : string }.
Class GoText := {
  parseJSON : list byte → option json;
  firstJSON : list byte → option json;
  printJSON : json → option (list byte);
  ParseFloat : string → bool;
  DecodeBase64 : string → option (list byte);
  ParseRequestURI : string → option URL;
  ParseAddress : string → option string;
  LoadLocation : string → bool;
  DetectContentType : list byte → string
}.

(** ** Types and values

    [TRaw]: json.RawMessage, [TAny]: any, [TText] and [TJson]: a type that reads a text, or a
    document, in its own way, [TQuotedInt]: a number inside of a string, by the tag ",string";
    [TBytes]: bytes in base64. A pointer, slice or map may be nil. *)
Inductive gval :=
| GStr (s : string) | GInt (z : Z) | GBool (b : bool) | GRaw (j : option json) | GJID (j : JID) | GBytes (l : list byte)
| GNil | GPtr (v : gval) | GSlice (l : list gval) | GMap (m : list (string * gval))
| GStruct (fields : list (string * gval)).
Inductive ty :=
| TString | TInt | TBool | TRaw | TAny | TQuotedInt | TBytes
| TText (z : gval) (UnmarshalText : string → option gval)
| TJson (z : gval) (UnmarshalJSON : json → option gval)
| TPtr (t : ty) | TSlice (t : ty) | TMap (t : ty)
| TStruct (fields : list (string * ty)).

Fixpoint zero (t : ty) : gval :=
  match t with
  | TString => GStr "" | TInt | TQuotedInt => GInt 0 | TBytes => GBytes [] | TBool => GBool false | TRaw => GRaw None | TText z _ | TJson z _ => z
  | TAny | TPtr _ | TSlice _ | TMap _ => GNil
  | TStruct fields => GStruct ((fix go (l : list (string * ty)) := match l with [] => [] | (k, t) :: l => (k, zero t) :: go l end) fields)
  end.

(** Names of fields are compared without case; two runes outside of ASCII fold to a letter. *)
Fixpoint foldBytes (l : list byte) : list byte :=
  match l with
  | xc5 :: xbf :: l => x73 :: foldBytes l
  | xe2 :: x84 :: xaa :: l => x6b :: foldBytes l
  | b :: l => (if (65 <=? b2z b)%Z && (b2z b <=? 90)%Z then z2b (b2z b + 32) else b) :: foldBytes l
  | [] => []
  end.
Definition foldName (k : string) : list byte := foldBytes (s2b k).
(** A field of that name, or else the first of that name without case. *)
Definition fieldFor {A} (k : string) (fields : list (string * A)) : option (string * A) :=
  match assoc k fields with
  | Some a => Some (k, a)
  | None => List.find (λ f, bool_decide (foldName f.1 = foldName k)) fields
  end.
Fixpoint setMember {A} (k : string) (a : A) (m : list (string * A)) : list (string * A) :=
  match m with
  | [] => [(k, a)]
  | (k', a') :: m => if decide (k' = k) then (k, a) :: m else (k', a') :: setMember k a m
  end.

Lemma assoc_setMember {A} k (a : A) m : assoc k (setMember k a m) = Some a.
Proof.
  induction m as [|[k' a'] m IH]; cbn [setMember]; [cbn; by rewrite decide_True|].
  case_decide; cbn [assoc]; [by rewrite decide_True|by rewrite decide_False].
Qed.

Section decode.
Context `{GoText}.

(** Whether every number is a float, as decoding into [any] wants. *)
Fixpoint floats (j : json) : bool :=
  match j with
  | JNum literal => ParseFloat literal
  | JArr l => forallb floats l
  | JObj members => (fix go (l : list (string * json)) : bool := match l with [] => true | (_, j) :: l => floats j && go l end) members
  | _ => true
  end.

(** Members of an object one after the other. *)
Fixpoint members {A} (set : string → json → A → A * bool) (l : list (string * json)) (a : A) : A * bool :=
  match l with
  | [] => (a, true)
  | (k, j) :: l => let '(a, ok) := set k j a in let '(a, ok') := members set l a in (a, ok && ok')
  end.
(** Elements into those that are there, or into new ones. *)
Fixpoint elements (decode : json → gval → gval * bool) (z : gval) (l : list json) (old : list gval) : list gval * bool :=
  match l with
  | [] => ([], true)
  | j :: l =>
      let '(v, ok) := decode j (default z (head old)) in
      let '(vs, ok') := elements decode z l (tail old) in (v :: vs, ok && ok')
  end.

(** The tag ",string": a number, or null, inside of a string. *)
Definition quotedInt (s : string) : outcome numError Z :=
  match s2b s with
  | b :: _ => if bool_decide (b = x2d ∨ (48 <= b2z b <= 57)%Z) then ParseInt s else Err ErrSyntax
  | [] => Err ErrSyntax
  end.
(** Bytes are also decoded from their numbers. *)
Fixpoint byteNumbers (l : list json) (old : list byte) : list byte * bool :=
  match l with
  | [] => ([], true)
  | j :: l =>
      let '(bs, ok) := byteNumbers l (tail old) in
      match j with
      | JNum literal =>
          match ParseUint literal with
          | Ok z => if (z <? 256)%Z then (z2b z :: bs, ok) else (default x00 (head old) :: bs, false)
          | _ => (default x00 (head old) :: bs, false)
          end
      | JNull => (default x00 (head old) :: bs, ok)
      | _ => (default x00 (head old) :: bs, false)
      end
  end.

(** Decoding into a value that is there, and whether every part had the right type; the
    parts that had are decoded nevertheless. Null makes pointers, slices, maps and
    interfaces nil and leaves everything else as it is. *)
Fixpoint decode (t : ty) : json → gval → gval * bool :=
  match t with
  | TString => λ j v, match j with JStr s => (GStr s, true) | JNull => (v, true) | _ => (v, false) end
  | TInt => λ j v, match j with
              | JNum literal => match ParseInt literal with Ok z => (GInt z, true) | _ => (v, false) end
              | JNull => (v, true) | _ => (v, false)
              end
  | TBool => λ j v, match j with JBool b => (GBool b, true) | JNull => (v, true) | _ => (v, false) end
  | TRaw => λ j _, (GRaw (Some j), true)
  | TAny => λ j _, match j with JNull => (GNil, true) | _ => (GRaw (Some j), floats j) end
  | TQuotedInt => λ j v, match j with
              | JStr s => if decide (s = "null") then (v, true) else match quotedInt s with Ok z => (GInt z, true) | _ => (v, false) end
              | JNull => (v, true) | _ => (v, false)
              end
  | TBytes => λ j v, match j with
              | JStr s => match DecodeBase64 s with Some l => (GBytes l, true) | None => (v, false) end
              | JArr l => let '(bs, ok) := byteNumbers l (match v with GBytes l => l | _ => [] end) in (GBytes bs, ok)
              | JNull => (GBytes [], true) | _ => (v, false)
              end
  | TText _ UnmarshalText => λ j v, match j with
              | JStr s => match UnmarshalText s with Some v => (v, true) | None => (v, false) end
              | JNull => (v, true) | _ => (v, false)
              end
  | TJson _ UnmarshalJSON => λ j v, match UnmarshalJSON j with Some v => (v, true) | None => (v, false) end
  | TPtr t => λ j v, match j with
              | JNull => (GNil, true)
              | _ => let '(v, ok) := decode t j (match v with GPtr v => v | _ => zero t end) in (GPtr v, ok)
              end
  | TSlice t => λ j v, match j with
              | JArr l => let '(l, ok) := elements (decode t) (zero t) l (match v with GSlice l => l | _ => [] end) in (GSlice l, ok)
              | JNull => (GNil, true) | _ => (v, false)
              end
  | TMap t => λ j v, match j with
              | JObj l =>
                  let '(m, ok) := members (λ k j m, let '(v, ok) := decode t j (zero t) in (setMember k v m, ok)) l
                                    (match v with GMap m => m | _ => [] end) in (GMap m, ok)
              | JNull => (GNil, true) | _ => (v, false)
              end
  | TStruct fields =>
      let decoders := (fix go (l : list (string * ty)) := match l with [] => [] | (k, t) :: l => (k, decode t) :: go l end) fields in
      λ j v, match j with
      | JObj l =>
          let '(s, ok) := members (λ k j s,
            match fieldFor k decoders with
            | Some (name, d) => let '(v, ok) := d j (default GNil (assoc name s)) in (setMember name v s, ok)
            | None => (s, true)
            end) l (match v with GStruct s => s | _ => [] end) in (GStruct s, ok)
      | JNull => (v, true) | _ => (v, false)
      end
  end.

(** [json.Unmarshal] of a document into a new value: an error when it is none, or when
    something in it has the wrong type; with what was decoded. *)
Definition UnmarshalAs (t : ty) (data : list byte) : gval * bool :=
  match parseJSON data with Some j => decode t j (zero t) | None => (zero t, false) end.
Definition DecodeAs (t : ty) (data : list byte) : gval * bool :=
  match firstJSON data with Some j => decode t j (zero t) | None => (zero t, false) end.
Definition UnmarshalRaw (t : ty) (data : json) : gval * bool := decode t data (zero t).
End decode.

(** ** Reading a value *)

Definition fieldOf (k : string) (v : gval) : gval := match v with GStruct s => default GNil (assoc k s) | _ => GNil end.
(** Following pointers that are not nil; [None] for one that is. *)
Fixpoint follow (ks : list string) (v : gval) : option gval :=
  match ks with
  | [] => match v with GPtr v => Some v | GNil => None | v => Some v end
  | k :: ks => match v with GPtr v => follow ks (fieldOf k v) | GStruct _ => follow ks (fieldOf k v) | _ => None end
  end.
Definition stringIn (k : string) (v : gval) : string := match fieldOf k v with GStr s => s | _ => "" end.
Definition sliceIn (k : string) (v : gval) : list gval := match fieldOf k v with GSlice l => l | _ => [] end.

(** ** Texts *)

(** White space as [unicode.IsSpace] knows it, in UTF-8; [None] without any in front. *)
Definition afterSpace (l : list byte) : option (list byte) :=
  match l with
  | (x09 | x0a | x0b | x0c | x0d | x20) :: l => Some l
  | xc2 :: (x85 | xa0) :: l => Some l
  | xe1 :: x9a :: x80 :: l => Some l
  | xe2 :: x80 :: (x80 | x81 | x82 | x83 | x84 | x85 | x86 | x87 | x88 | x89 | x8a | xa8 | xa9 | xaf) :: l => Some l
  | xe2 :: x81 :: x9f :: l => Some l
  | xe3 :: x80 :: x80 :: l => Some l
  | _ => None
  end.
(** The same at the end, for the bytes in reverse order. *)
Definition beforeSpace (l : list byte) : option (list byte) :=
  match l with
  | (x09 | x0a | x0b | x0c | x0d | x20) :: l => Some l
  | (x85 | xa0) :: xc2 :: l => Some l
  | x80 :: x9a :: xe1 :: l => Some l
  | (x80 | x81 | x82 | x83 | x84 | x85 | x86 | x87 | x88 | x89 | x8a | xa8 | xa9 | xaf) :: x80 :: xe2 :: l => Some l
  | x9f :: x81 :: xe2 :: l => Some l
  | x80 :: x80 :: xe3 :: l => Some l
  | _ => None
  end.
Fixpoint trim (space : list byte → option (list byte)) (fuel : nat) (l : list byte) : list byte :=
  match fuel with
  | O => l
  | S fuel => match space l with Some l => trim space fuel l | None => l end
  end.
(** [strings.TrimSpace]: a round for every byte is enough. *)
Definition trimBytes (l : list byte) : list byte :=
  let l := trim afterSpace (length l) l in rev (trim beforeSpace (length l) (rev l)).
Definition TrimSpace (s : string) : string := b2s (trimBytes (s2b s)).
Definition blank (s : string) : bool := bool_decide (TrimSpace s = "").

(** [utf8.ValidString]. *)
Definition inRange (lo hi : Z) (b : byte) : bool := (lo <=? b2z b)%Z && (b2z b <=? hi)%Z.
Definition continuation : byte → bool := inRange 128 191.
Fixpoint validUTF8 (fuel : nat) (l : list byte) : bool :=
  match fuel with
  | O => true
  | S fuel =>
      match l with
      | [] => true
      | b :: l =>
          if inRange 0 127 b then validUTF8 fuel l
          else if inRange 194 223 b then match l with c :: l => continuation c && validUTF8 fuel l | _ => false end
          else if inRange 224 239 b then
            match l with
            | c :: d :: l =>
                inRange (if decide (b = xe0) then 160 else 128) (if decide (b = xed) then 159 else 191) c && continuation d && validUTF8 fuel l
            | _ => false
            end
          else if inRange 240 244 b then
            match l with
            | c :: d :: e :: l =>
                inRange (if decide (b = xf0) then 144 else 128) (if decide (b = xf4) then 143 else 191) c && continuation d && continuation e
                && validUTF8 fuel l
            | _ => false
            end
          else false
      end
  end.
Definition ValidString (s : string) : bool := validUTF8 (length (s2b s)) (s2b s).

(** [strings.ToLower] and [bytes.ToLower], as far as the letters of ASCII go; two runes
    outside of it have a lower case in it. *)
Fixpoint lowerBytes (l : list byte) : list byte :=
  match l with
  | xc4 :: xb0 :: l => x69 :: lowerBytes l
  | xe2 :: x84 :: xaa :: l => x6b :: lowerBytes l
  | b :: l => (if inRange 65 90 b then z2b (b2z b + 32) else b) :: lowerBytes l
  | [] => []
  end.
Definition ToLower (s : string) : string := b2s (lowerBytes (s2b s)).
Definition HasSuffix (s suffix : string) : bool :=
  bool_decide ((length (s2b suffix) <= length (s2b s))%nat ∧ drop (length (s2b s) - length (s2b suffix)) (s2b s) = s2b suffix).

Definition bounded (value : string) (max : Z) : bool := (slen value <=? max)%Z.
