(* ===== verification/Client.v ===== *)
(** The state of the client that its handlers share (src/client.go), the parts of it
    they work on, and the Signal library as they call it. *)
From Stdlib Require Import ZArith Lia.
From Stdlib Require Import Strings.Byte.
From stdpp Require Import prelude gmap strings list fin_maps.
From S2P Require Import Prelude Strconv Jid Node Attrs Decoder Cache Cbc Sql SignalStore SessionCache LidMap LidMapSpec PreKeys PreKeyUpload MessageInfo Receipts EventBuffer MsgSecret Contacts.

#[local] Open Scope string_scope.

(** ** The Signal store in two parts

    What the store keeps in memory, and its tables, which are also the tables of a
    transaction of the event buffer. *)
Record storeMemory := mkMemory {
  memIdentities : gmap string (option (list byte));
  memDeleteGen : Z;
  memMigrated : gmap string unit;
  memEmpty : gmap string Z;
  memMigrating : gset string
}.
Abbreviation signalState := (storeMemory * database signalTables)%type.

Definition toStore (s : signalState) : SQLStore :=
  mkSQLStore s.2 (memIdentities s.1) (memDeleteGen s.1) (memMigrated s.1) (memEmpty s.1) (memMigrating s.1).
Definition ofStore (s : SQLStore) : signalState :=
  (mkMemory (identityCache s) (identityDeleteGen s) (migratedPNSessionsCache s) (emptyPNMigrationCache s) (migratingPNSessions s), sdb s).

Lemma ofStore_toStore s : ofStore (toStore s) = s.
Proof. by destruct s as [[] ?]. Qed.
Lemma toStore_ofStore s : toStore (ofStore s) = s.
Proof. by destruct s. Qed.

Abbreviation signalM := (stateM signalState signalError).
Definition onStore {A} (m : storeM A) : signalM A := zoom toStore (λ s _, ofStore s) SignalDB m.

(** ** The Signal library (libsignal-protocol-go)

    It parses messages, and encrypts and decrypts with what it loads from the store
    and what it puts there. [stateless]: with a store that keeps no session. *)
Class SignalOps `{SessionCodec} := {
  preKeyMessage : Type;
  signalMessage : Type;
  senderKeyMessage : Type;
  distributionMessage : Type;
  NewPreKeySignalMessageFromBytes : list byte → option preKeyMessage;
  NewSignalMessageFromBytes : list byte → option signalMessage;
  NewSenderKeyMessageFromBytes : list byte → option senderKeyMessage;
  NewSenderKeyDistributionMessageFromBytes : list byte → option distributionMessage;
  SerializeDistribution : distributionMessage → list byte;
  cipherDecryptMessage (stateless : bool) (address : string) : preKeyMessage → stateM sessionState signalError (list byte);
  cipherDecrypt (stateless : bool) (address : string) : signalMessage → stateM sessionState signalError (list byte);
  cipherEncrypt (address : string) : list byte → stateM sessionState signalError (list byte * bool);  (* whether a prekey message *)
  builderProcessBundle (address : string) : Bundle → stateM sessionState signalError unit;
  groupDecrypt (group address : string) : senderKeyMessage → stateM sessionState signalError (list byte);
  groupEncrypt (group address : string) : list byte → stateM sessionState signalError (list byte);
  groupCreate (group address : string) : stateM sessionState signalError distributionMessage;
  groupProcess (group address : string) : distributionMessage → stateM sessionState signalError unit
}.

(** ** The client *)

(** The settings that the handlers read. *)
Record config := mkConfig {
  SynchronousAck : bool;
  EnableDecryptedEventBuffer : bool;
  AutoTrustIdentity : bool;
  UseRetryMessageStore : bool;
  AutomaticMessageRerequestFromPhone : bool;
  hasMessengerConfig : bool;
  ManualHistorySyncDownload : bool;
  DisableManualHistorySyncReceipt : bool;
  DisableHistorySyncReceipt : bool;
  DisabledSignal : bool;
  cfgOwnID : JID;
  cfgOwnLID : JID;
  RegistrationID : Z;
  IdentityPub : list byte;
  cfgSignedPreKey : PreKey
}.

(** A counter with the start of its window (src/cache.go). *)
Record counter (K : Type) `{Countable K} := mkCounter { counts : gmap K Z; resetAt : option Z }.
Arguments mkCounter {K _ _}.
Arguments counts {K _ _}.
Arguments resetAt {K _ _}.

Record recentMessages := mkRecents {
  recentMessagesMap : gmap (JID * string) (string * list byte);
  recentMessagesList : list (JID * string);
  recentMessagesPtr : nat
}.

(** [cHeap] and [cCache]: of the sessions; [cPending]: delayed requests to the phone, and whether they were cancelled. *)
Record client `{SessionCodec} (E : Type) := mkClient {
  cMemory : storeMemory;
  cTables : database (eventTables signalTables);
  cHeap : gmap nat session;
  cCache : option (gmap string sessionCacheEntry);
  cSecrets : database secretTables;
  cContacts : contactStore;
  cLids : CachedLIDMap;
  cPreKeys : database (gmap Z (list byte * bool));
  cRecents : recentMessages;
  lastRetryStoreClear : Z;
  lastDecryptedBufferClear : Z;
  messageRetries : counter string;
  incomingRetries : counter (JID * string);
  sessionRecreateHistory : gmap JID Z;
  cPending : gmap string bool;
  cLog : list (effect E)
}.
Arguments mkClient {_ E}.
Arguments cMemory {_ E}.
Arguments cTables {_ E}.
Arguments cHeap {_ E}.
Arguments cCache {_ E}.
Arguments cSecrets {_ E}.
Arguments cContacts {_ E}.
Arguments cLids {_ E}.
Arguments cPreKeys {_ E}.
Arguments cRecents {_ E}.
Arguments lastRetryStoreClear {_ E}.
Arguments lastDecryptedBufferClear {_ E}.
Arguments messageRetries {_ E}.
Arguments incomingRetries {_ E}.
Arguments sessionRecreateHistory {_ E}.
Arguments cPending {_ E}.
Arguments cLog {_ E}.

Section client.
Context `{SessionCodec} {E : Type}.
Abbreviation client := (client E).

Definition set_cMemory (v : storeMemory) (c : client) : client :=
  mkClient v (cTables c) (cHeap c) (cCache c) (cSecrets c) (cContacts c) (cLids c) (cPreKeys c) (cRecents c) (lastRetryStoreClear c) (lastDecryptedBufferClear c) (messageRetries c) (incomingRetries c) (sessionRecreateHistory c) (cPending c) (cLog c).
Definition set_cTables (v : database (eventTables signalTables)) (c : client) : client :=
  mkClient (cMemory c) v (cHeap c) (cCache c) (cSecrets c) (cContacts c) (cLids c) (cPreKeys c) (cRecents c) (lastRetryStoreClear c) (lastDecryptedBufferClear c) (messageRetries c) (incomingRetries c) (sessionRecreateHistory c) (cPending c) (cLog c).
Definition set_cHeap (v : gmap nat session) (c : client) : client :=
  mkClient (cMemory c) (cTables c) v (cCache c) (cSecrets c) (cContacts c) (cLids c) (cPreKeys c) (cRecents c) (lastRetryStoreClear c) (lastDecryptedBufferClear c) (messageRetries c) (incomingRetries c) (sessionRecreateHistory c) (cPending c) (cLog c).
Definition set_cCache (v : option (gmap string sessionCacheEntry)) (c : client) : client :=
  mkClient (cMemory c) (cTables c) (cHeap c) v (cSecrets c) (cContacts c) (cLids c) (cPreKeys c) (cRecents c) (lastRetryStoreClear c) (lastDecryptedBufferClear c) (messageRetries c) (incomingRetries c) (sessionRecreateHistory c) (cPending c) (cLog c).
Definition set_cSecrets (v : database secretTables) (c : client) : client :=
  mkClient (cMemory c) (cTables c) (cHeap c) (cCache c) v (cContacts c) (cLids c) (cPreKeys c) (cRecents c) (lastRetryStoreClear c) (lastDecryptedBufferClear c) (messageRetries c) (incomingRetries c) (sessionRecreateHistory c) (cPending c) (cLog c).
Definition set_cContacts (v : contactStore) (c : client) : client :=
  mkClient (cMemory c) (cTables c) (cHeap c) (cCache c) (cSecrets c) v (cLids c) (cPreKeys c) (cRecents c) (lastRetryStoreClear c) (lastDecryptedBufferClear c) (messageRetries c) (incomingRetries c) (sessionRecreateHistory c) (cPending c) (cLog c).
Definition set_cLids (v : CachedLIDMap) (c : client) : client :=
  mkClient (cMemory c) (cTables c) (cHeap c) (cCache c) (cSecrets c) (cContacts c) v (cPreKeys c) (cRecents c) (lastRetryStoreClear c) (lastDecryptedBufferClear c) (messageRetries c) (incomingRetries c) (sessionRecreateHistory c) (cPending c) (cLog c).
Definition set_cPreKeys (v : database (gmap Z (list byte * bool))) (c : client) : client :=
  mkClient (cMemory c) (cTables c) (cHeap c) (cCache c) (cSecrets c) (cContacts c) (cLids c) v (cRecents c) (lastRetryStoreClear c) (lastDecryptedBufferClear c) (messageRetries c) (incomingRetries c) (sessionRecreateHistory c) (cPending c) (cLog c).
Definition set_cRecents (v : recentMessages) (c : client) : client :=
  mkClient (cMemory c) (cTables c) (cHeap c) (cCache c) (cSecrets c) (cContacts c) (cLids c) (cPreKeys c) v (lastRetryStoreClear c) (lastDecryptedBufferClear c) (messageRetries c) (incomingRetries c) (sessionRecreateHistory c) (cPending c) (cLog c).
Definition set_lastRetryStoreClear (v : Z) (c : client) : client :=
  mkClient (cMemory c) (cTables c) (cHeap c) (cCache c) (cSecrets c) (cContacts c) (cLids c) (cPreKeys c) (cRecents c) v (lastDecryptedBufferClear c) (messageRetries c) (incomingRetries c) (sessionRecreateHistory c) (cPending c) (cLog c).
Definition set_lastDecryptedBufferClear (v : Z) (c : client) : client :=
  mkClient (cMemory c) (cTables c) (cHeap c) (cCache c) (cSecrets c) (cContacts c) (cLids c) (cPreKeys c) (cRecents c) (lastRetryStoreClear c) v (messageRetries c) (incomingRetries c) (sessionRecreateHistory c) (cPending c) (cLog c).
Definition set_messageRetries (v : counter string) (c : client) : client :=
  mkClient (cMemory c) (cTables c) (cHeap c) (cCache c) (cSecrets c) (cContacts c) (cLids c) (cPreKeys c) (cRecents c) (lastRetryStoreClear c) (lastDecryptedBufferClear c) v (incomingRetries c) (sessionRecreateHistory c) (cPending c) (cLog c).
Definition set_incomingRetries (v : counter (JID * string)) (c : client) : client :=
  mkClient (cMemory c) (cTables c) (cHeap c) (cCache c) (cSecrets c) (cContacts c) (cLids c) (cPreKeys c) (cRecents c) (lastRetryStoreClear c) (lastDecryptedBufferClear c) (messageRetries c) v (sessionRecreateHistory c) (cPending c) (cLog c).
Definition set_sessionRecreateHistory (v : gmap JID Z) (c : client) : client :=
  mkClient (cMemory c) (cTables c) (cHeap c) (cCache c) (cSecrets c) (cContacts c) (cLids c) (cPreKeys c) (cRecents c) (lastRetryStoreClear c) (lastDecryptedBufferClear c) (messageRetries c) (incomingRetries c) v (cPending c) (cLog c).
Definition set_cPending (v : gmap string bool) (c : client) : client :=
  mkClient (cMemory c) (cTables c) (cHeap c) (cCache c) (cSecrets c) (cContacts c) (cLids c) (cPreKeys c) (cRecents c) (lastRetryStoreClear c) (lastDecryptedBufferClear c) (messageRetries c) (incomingRetries c) (sessionRecreateHistory c) v (cLog c).
Definition set_cLog (v : list (effect E)) (c : client) : client :=
  mkClient (cMemory c) (cTables c) (cHeap c) (cCache c) (cSecrets c) (cContacts c) (cLids c) (cPreKeys c) (cRecents c) (lastRetryStoreClear c) (lastDecryptedBufferClear c) (messageRetries c) (incomingRetries c) (sessionRecreateHistory c) (cPending c) v.

(** A call for its error as well as its result; a panic is not caught. *)
Definition try {S F G A} (m : stateM S F A) : stateM S G (F + A) := λ s,
  match m s with
  | (Ok a, s) => (Ok (inr a), s)
  | (Err e, s) => (Ok (inl e), s)
  | (Panic, s) => (Panic, s)
  | (OutOfFuel, s) => (OutOfFuel, s)
  end.
(** A deferred [recover]. *)
Definition recovering {S F A} (m recovery : stateM S F A) : stateM S F A := λ s,
  match m s with (Panic, s) => recovery s | r => r end.

Definition logging {F A} (m : logM E A) : stateM client F A := zoom cLog set_cLog (Empty_set_rect (λ _, F)) m.
Definition onLids {F A} (err : lidError → F) (m : lidM A) : stateM client F A := zoom cLids set_cLids err m.
Definition onSecrets {F A} (err : dbError → F) (m : secretM A) : stateM client F A := zoom cSecrets set_cSecrets err m.
Definition onContactStore {F A} (err : dbError → F) (m : contactM A) : stateM client F A := zoom cContacts set_cContacts err m.
Definition onPreKeys {F A} (err : dbError → F) (m : dbM (gmap Z (list byte * bool)) A) : stateM client F A := zoom cPreKeys set_cPreKeys err m.
Definition onEvents {F A} (err : dbError → F) (m : dbM (eventTables signalTables) A) : stateM client F A := zoom cTables set_cTables err m.
Definition decrypting {F A} (err : decryptError → F) (m : decryptM storeMemory signalTables A) : stateM client F A :=
  zoom (λ c, (cMemory c, cTables c)) (λ s c, set_cMemory s.1 (set_cTables s.2 c)) err m.

(** The sessions, outside of a transaction. *)
Definition sessionsOf (c : client) : sessionState :=
  mkSessions (toStore (cMemory c, mkDatabase (ratchets (content (cTables c))) (failing (cTables c)))) (cHeap c) (cCache c).
Definition setSessions (s : sessionState) (c : client) : client :=
  let '(memory, d) := ofStore (db s) in
  let t := content (cTables c) in
  set_cMemory memory (set_cTables (mkDatabase (mkTables (content d) (bufferedEvents t) (outgoingEvents t)) (failing d))
    (set_cHeap (heap s) (set_cCache (cache s) c))).
Definition onSessions {F A} (err : signalError → F) (m : stateM sessionState signalError A) : stateM client F A :=
  zoom sessionsOf setSessions err m.

(** The LID map with its limit, in an environment. *)
Definition maxLIDCacheEntries : Z := 65536.
Definition lidOf (e : lidEnv) (pn : JID) : lidM JID := GetLIDForPN maxLIDCacheEntries (LidMapSpec.firstKey e) (scan e) pn.
Definition pnOf (e : lidEnv) (lid : JID) : lidM JID := GetPNForLID maxLIDCacheEntries (LidMapSpec.firstKey e) (scan e) lid.

(** Calls of the device store that are not made by the Signal library. *)
Definition onSessionStore {F A} (err : sessionError → F) (m : stateM sessionState sessionError A) : stateM client F A :=
  zoom sessionsOf setSessions err m.
Definition onDevice {F A} (err : dbError → F) (m : storeM A) : stateM client F A :=
  zoom (λ c, db (sessionsOf c)) (λ d c, setSessions (mkSessions d (cHeap c) (cCache c)) c) err m.
End client.

(** The Signal library inside a transaction: its sessions are not cached there. *)
Definition inDecryption `{SessionCodec} {A} (m : stateM sessionState signalError A) : signalM A :=
  zoom (λ s, mkSessions (toStore s) ∅ None) (λ s _, ofStore (db s)) id m.
