(* ===== verification/MessageType.v ===== *)
(** What the nodes of a message say about it (src/send.go): its type, the type of its
    media, its buttons and whether it edits another one. The Go functions follow
    wrappers down to the message inside and panic on a wrapper without one. *)
From Stdlib Require Import ZArith Lia.
From stdpp Require Import prelude strings list.
From S2P Require Import Prelude Strconv Jid Node Proto.

#[local] Open Scope string_scope.

Definition ProtocolMessage_REVOKE : Z := 0.
Definition ProtocolMessage_EPHEMERAL_SETTING : Z := 3.
Definition ProtocolMessage_APP_STATE_SYNC_KEY_REQUEST : Z := 7.
Definition ProtocolMessage_MESSAGE_EDIT : Z := 14.
Definition ProtocolMessage_PEER_DATA_OPERATION_REQUEST_MESSAGE : Z := 16.
Definition ProtocolMessage_REQUEST_WELCOME_MESSAGE : Z := 18.

Definition EditAttributeEmpty : string := "".
Definition EditAttributeMessageEdit : string := "1".
Definition EditAttributePinInChat : string := "2".
Definition EditAttributeAdminEdit : string := "3".
Definition EditAttributeSenderRevoke : string := "7".
Definition EditAttributeAdminRevoke : string := "8".
Definition RemoveReactionText : string := "".

(** ** Wrappers *)

(** A wrapper, and whether it only counts with a message in it. *)
Abbreviation wrapperName := (string * bool)%type.

(** What the first wrapper that is set holds. *)
Fixpoint wrapped (wrappers : list wrapperName) (m : proto) : option (option proto) :=
  match wrappers with
  | [] => None
  | (w, needsMessage) :: wrappers =>
      match field w m with
      | None => wrapped wrappers m
      | Some c => match field "Message" c with
                  | None => if (needsMessage : bool) then wrapped wrappers m else Some None
                  | Some inner => Some (Some inner)
                  end
      end
  end.

Fixpoint innermost (fuel : nat) (wrappers : list wrapperName) (m : option proto) : outcome Empty_set proto :=
  match m with
  | None => Panic
  | Some m =>
      match wrapped wrappers m with
      | None => Ok m
      | Some inner => match fuel with 0%nat => OutOfFuel | S fuel => innermost fuel wrappers inner end
      end
  end.
(** Every step down is into a smaller tree. *)
Definition messageIn (wrappers : list wrapperName) (m : proto) : outcome Empty_set proto := innermost (depth m) wrappers (Some m).

Definition viewOnceWrappers : list wrapperName :=
  [("ViewOnceMessage", false); ("ViewOnceMessageV2", false); ("ViewOnceMessageV2Extension", false)].
Definition typeWrappers : list wrapperName :=
  (viewOnceWrappers ++ [("LottieStickerMessage", false); ("EphemeralMessage", false); ("DocumentWithCaptionMessage", false);
                        ("AssociatedChildMessage", true)])%list.
Definition buttonWrappers : list wrapperName := (viewOnceWrappers ++ [("EphemeralMessage", false)])%list.

(** ** Types *)

Definition mediaTypeOf (msg : proto) : string :=
  if bool_decide (is_Some (path ["ExtendedTextMessage"; "Title"] (Some msg))) then "url"
  else if has "ImageMessage" msg then "image"
  else if has "StickerMessage" msg then "sticker"
  else if has "DocumentMessage" msg then "document"
  else if has "AudioMessage" msg then if asBool (path ["AudioMessage"; "PTT"] (Some msg)) then "ptt" else "audio"
  else if has "VideoMessage" msg then if asBool (path ["VideoMessage"; "GifPlayback"] (Some msg)) then "gif" else "video"
  else if has "ContactMessage" msg then "vcard"
  else if has "ContactsArrayMessage" msg then "contact_array"
  else if has "ListMessage" msg then "list"
  else if has "ListResponseMessage" msg then "list_response"
  else if has "ButtonsResponseMessage" msg then "buttons_response"
  else if has "OrderMessage" msg then "order"
  else if has "ProductMessage" msg then "product"
  else if has "InteractiveResponseMessage" msg then "native_flow_response"
  else "".
Definition getMediaTypeFromMessage (msg : proto) : outcome Empty_set string := mediaTypeOf <$> messageIn typeWrappers msg.

Definition typeOf (msg : proto) : string :=
  if has "ReactionMessage" msg || has "EncReactionMessage" msg then "reaction"
  else if has "PollCreationMessage" msg || has "PollUpdateMessage" msg then "poll"
  else if bool_decide (mediaTypeOf msg = "") then "text" else "media".
Definition getTypeFromMessage (msg : proto) : outcome Empty_set string := typeOf <$> messageIn typeWrappers msg.

(** ** Buttons *)

Definition buttonTypeOf (msg : proto) : string :=
  if has "ButtonsMessage" msg then "buttons"
  else if has "ListMessage" msg then "list"
  else if bool_decide (is_Some (path ["InteractiveMessage"; "NativeFlowMessage"] (Some msg))) then "native_flow"
  else if has "InteractiveResponseMessage" msg then "interactive_response"
  else "".
Definition getButtonTypeFromMessage (msg : proto) : outcome Empty_set string := buttonTypeOf <$> messageIn buttonWrappers msg.

Definition listTypeName (t : Z) : string :=
  if decide (t = 0%Z) then "unknown" else if decide (t = 1%Z) then "single_select" else if decide (t = 2%Z) then "product_list" else "".
Definition buttonAttributesOf (msg : proto) : list (string * value) :=
  if has "TemplateMessage" msg then []
  else if has "ListMessage" msg then [("v", VString "2"); ("type", VString (listTypeName (asInt (path ["ListMessage"; "ListType"] (Some msg)))))]
  else [].
Definition getButtonAttributes (msg : proto) : outcome Empty_set (list (string * value)) := buttonAttributesOf <$> messageIn buttonWrappers msg.

(** The loop stops at a missing message without a panic. *)
Definition nativeFlowName (msg : option proto) : string :=
  match asList (path ["InteractiveMessage"; "NativeFlowMessage"; "Buttons"] msg) with
  | [] => "mixed"
  | first :: rest =>
      let name b := asString (field "Name" b) in
      if decide (name first = "") then "mixed"
      else if forallb (λ b, bool_decide (name b = name first)) rest then name first else "mixed"
  end.
Definition buildNativeFlowBizNode (msg : proto) (nowUnix : Z) : node :=
  let inner := match messageIn buttonWrappers msg with Ok m => Some m | _ => None end in
  mkNode "biz" [("actual_actors", VString "2"); ("host_storage", VString "2"); ("privacy_mode_ts", VString (FormatInt nowUnix))]
    (VNodes [mkNode "interactive" [("type", VString "native_flow"); ("v", VString "1")]
               (VNodes [mkNode "native_flow" [("name", VString (nativeFlowName inner)); ("v", VString "9")] VNil]);
             mkNode "quality_control" [("source_type", VString "third_party")] VNil]).

(** ** Edits *)

Definition editOf (msg : proto) : string :=
  if bool_decide (is_Some (path ["ProtocolMessage"; "Key"] (Some msg))) then
    let type := asInt (path ["ProtocolMessage"; "Type"] (Some msg)) in
    if decide (type = ProtocolMessage_REVOKE) then
      if asBool (path ["ProtocolMessage"; "Key"; "FromMe"] (Some msg)) then EditAttributeSenderRevoke else EditAttributeAdminRevoke
    else if decide (type = ProtocolMessage_MESSAGE_EDIT) then
      if bool_decide (is_Some (path ["ProtocolMessage"; "EditedMessage"] (Some msg))) then EditAttributeMessageEdit else EditAttributeEmpty
    else EditAttributeEmpty
  else if has "ReactionMessage" msg && bool_decide (asString (path ["ReactionMessage"; "Text"] (Some msg)) = RemoveReactionText) then
    EditAttributeSenderRevoke
  else if has "KeepInChatMessage" msg && asBool (path ["KeepInChatMessage"; "Key"; "FromMe"] (Some msg))
          && bool_decide (asInt (path ["KeepInChatMessage"; "KeepType"] (Some msg)) = 2%Z) then EditAttributeSenderRevoke
  else if has "PinInChatMessage" msg then EditAttributePinInChat
  else EditAttributeEmpty.
Definition getEditAttribute (msg : proto) : string :=
  match messageIn [("EditedMessage", true)] msg with Ok m => editOf m | _ => EditAttributeEmpty end.

(** * The depth of a message is fuel enough, and wrapping changes nothing *)

Lemma wrapped_depth wrappers m inner : wrapped wrappers m = Some (Some inner) → (depth inner < depth m)%nat.
Proof.
  induction wrappers as [|[w b] wrappers IH]; [done|]. cbn [wrapped]. destruct (field w m) as [c|] eqn:Hc; [|done].
  destruct (field "Message" c) as [i|] eqn:Hi; [|by destruct b]. intros [= <-].
  apply field_depth in Hc, Hi. lia.
Qed.

Lemma wrapped_positive wrappers m o : wrapped wrappers m = Some o → (0 < depth m)%nat.
Proof.
  induction wrappers as [|[w b] wrappers IH]; [done|]. cbn [wrapped]. destruct (field w m) as [c|] eqn:Hc; [|done].
  apply field_depth in Hc. lia.
Qed.

Lemma innermost_ends wrappers fuel m : (∀ m', m = Some m' → depth m' ≤ fuel)%nat → innermost fuel wrappers m ≠ OutOfFuel.
Proof.
  revert m. induction fuel as [|fuel IH]; intros [m|] Hf; try done; cbn.
  - destruct (wrapped wrappers m) as [[inner|]|] eqn:Hw; [apply wrapped_depth in Hw; specialize (Hf m eq_refl); lia| |done].
    apply wrapped_positive in Hw. specialize (Hf m eq_refl). lia.
  - destruct (wrapped wrappers m) as [[inner|]|] eqn:Hw; [|by apply IH|done].
    apply IH. intros m' [= <-]. apply wrapped_depth in Hw. specialize (Hf m eq_refl). lia.
Qed.

Lemma innermost_more wrappers fuel fuel' m : (∀ m', m = Some m' → depth m' ≤ fuel)%nat → (fuel ≤ fuel')%nat →
  innermost fuel' wrappers m = innermost fuel wrappers m.
Proof.
  revert fuel' m. induction fuel as [|fuel IH]; intros fuel' [m|] Hf Hle; try (by destruct fuel').
  - assert (wrapped wrappers m = None ∨ ∃ o, wrapped wrappers m = Some o ∧ o = None) as [Hw|(o & Hw & ->)].
    { destruct (wrapped wrappers m) as [[inner|]|] eqn:Hw; [|by eauto..]. apply wrapped_depth in Hw. specialize (Hf m eq_refl). lia. }
    + destruct fuel'; cbn; by rewrite Hw.
    + apply wrapped_positive in Hw. specialize (Hf m eq_refl). lia.
  - destruct fuel' as [|fuel']; [lia|]. cbn. destruct (wrapped wrappers m) as [[inner|]|] eqn:Hw; [|by apply IH; [done|lia]|done].
    apply IH; [|lia]. intros m' [= <-]. apply wrapped_depth in Hw. specialize (Hf m eq_refl). lia.
Qed.

Lemma messageIn_wrapped wrappers m inner : wrapped wrappers m = Some (Some inner) → messageIn wrappers m = messageIn wrappers inner.
Proof.
  intros Hw. unfold messageIn. pose proof (wrapped_depth _ _ _ Hw) as Hd. destruct (depth m) as [|fuel] eqn:Hm; [lia|].
  cbn [innermost]. rewrite Hw. apply innermost_more; [|lia]. by intros m' [= <-].
Qed.

(** The message inside the wrappers decides. *)
Lemma types_of_wrapped m inner : wrapped typeWrappers m = Some (Some inner) →
  getTypeFromMessage m = getTypeFromMessage inner ∧ getMediaTypeFromMessage m = getMediaTypeFromMessage inner.
Proof. intros Hw. unfold getTypeFromMessage, getMediaTypeFromMessage. by rewrite (messageIn_wrapped _ _ _ Hw). Qed.
Lemma types_end m : getTypeFromMessage m ≠ OutOfFuel ∧ getMediaTypeFromMessage m ≠ OutOfFuel ∧ getButtonTypeFromMessage m ≠ OutOfFuel.
Proof.
  unfold getTypeFromMessage, getMediaTypeFromMessage, getButtonTypeFromMessage, messageIn.
  repeat split; match goal with |- context [innermost ?f ?w ?x] => pose proof (innermost_ends w f x) as Hn; destruct (innermost f w x); try done end;
    exfalso; apply Hn; try done; by intros m' [= <-].
Qed.

(** Sending an empty wrapper panics. *)
Example empty_view_once_panics : getTypeFromMessage (PMsg [("ViewOnceMessage", PMsg [])]) = Panic.
Proof. reflexivity. Qed.
