(* ===== verification/Recents.v ===== *)
(** Sent messages kept for retries (src/retry.go): a ring of the last 256 in memory,
    and the retry buffer in the store. *)
From Stdlib Require Import ZArith Lia.
From Stdlib Require Import Strings.Byte.
From stdpp Require Import prelude gmap strings list fin_maps fin_map_dom.
From S2P Require Import Prelude Strconv Jid Sql SignalStore SessionCache LidMap LidMapSpec Receipts MessageInfo EventBuffer MsgSecret Proto Client.

#[local] Open Scope string_scope.

Definition recentMessagesSize : nat := 256.
Abbreviation recentKey := (JID * string)%type.
Abbreviation cachedRecentMessage := (string * list byte)%type.

(** ** The ring *)

Definition cacheRecent (key : recentKey) (m : cachedRecentMessage) (s : recentMessages) : recentMessages :=
  match recentMessagesMap s !! key with
  | Some _ => mkRecents (<[key := m]> (recentMessagesMap s)) (recentMessagesList s) (recentMessagesPtr s)
  | None =>
      if decide (length (recentMessagesList s) < recentMessagesSize)%nat then
        mkRecents (<[key := m]> (recentMessagesMap s)) (recentMessagesList s ++ [key]) (recentMessagesPtr s)
      else
        let old := default (EmptyJID, "") (recentMessagesList s !! recentMessagesPtr s) in
        mkRecents (<[key := m]> (delete old (recentMessagesMap s))) (<[recentMessagesPtr s := key]> (recentMessagesList s))
          ((recentMessagesPtr s + 1) mod recentMessagesSize)
  end.

(** ** Messages to resend *)

Record RecentMessage := mkRecent { rmWA : option proto; rmFB : option proto }.
Definition noRecent : RecentMessage := mkRecent None None.
Definition RecentIsEmpty (m : RecentMessage) : bool := bool_decide (rmWA m = None ∧ rmFB m = None).

Inductive recentError := MarshalFailed | RetryStoreFailed (e : dbError) | AlternateFailed (e : lidError) | UnmarshalFailed | UnknownFormat.

Section recents.
Context `{SessionCodec} `{ProtoCodec} {E : Type} (cfg : config) (lids : lidEnv).
(** [pick]: the row a query returns first; [GetMessageForRetry]: the embedder's own store. *)
Context (pick : list outgoingRow → option outgoingRow) (GetMessageForRetry : JID → JID → string → option proto).
Abbreviation client := (client E).
Abbreviation recentM := (stateM client recentError).

Definition hour12 : Z := 12 * 3600 * 1000.

(** What is kept of a message: its format and payload. *)
Definition marshalRecent (wa fb : option proto) : outcome recentError (string * option (list byte)) :=
  match wa, fb with
  | Some m, _ => match Marshal m with Some b => Ok ("wa", Some b) | None => Err MarshalFailed end
  | None, Some m => match Marshal m with Some b => Ok ("fb", Some b) | None => Err MarshalFailed end
  | None, None => Ok ("", None)
  end.

(** [now] in milliseconds. *)
Definition addRecentMessage (now : Z) (to : JID) (id : string) (wa fb : option proto) : recentM unit :=
  '(format, payload) ← lift (marshalRecent wa fb);
  _ ← (match payload with
       | Some payload =>
           if UseRetryMessageStore cfg then
             _ ← onEvents RetryStoreFailed (match jidText to with
               | Some chat => AddOutgoingEvent chat id format payload now
               | None => stmt (λ _, Err ConstraintFailed)
               end);
             c ← get;
             if (hour12 <? now - lastRetryStoreClear c)%Z then onEvents RetryStoreFailed (DeleteOldOutgoingEvents now) else mret tt
           else mret tt
       | None => mret tt
       end);
  modify (λ c, set_cRecents (cacheRecent (to, id) (format, default [] payload) (cRecents c)) c).

Definition parseRecentMessage (m : cachedRecentMessage) : outcome recentError RecentMessage :=
  let '(format, buf) := m in
  if decide (format = "wa") then
    match Unmarshal "waE2E.Message" buf with Some m => Ok (mkRecent (Some m) None) | None => Err UnmarshalFailed end
  else if decide (format = "fb") then
    match Unmarshal "waMsgApplication.MessageApplication" buf with Some m => Ok (mkRecent None (Some m)) | None => Err UnmarshalFailed end
  else Err UnknownFormat.

Definition getRecentMessage (to : JID) (id : string) (s : recentMessages) : RecentMessage :=
  match recentMessagesMap s !! (to, id) with
  | None => noRecent
  | Some cached => match parseRecentMessage cached with Ok m => m | _ => noRecent end
  end.

(** The other address of a chat. *)
Definition alternateChat (chat : JID) : recentM JID :=
  if decide (Server chat = DefaultUserServer) then onLids AlternateFailed (lidOf lids chat)
  else if decide (Server chat = HiddenUserServer) then onLids AlternateFailed (pnOf lids chat)
  else mret EmptyJID.

Definition getMessageForRetry (receipt : Receipt) (messageID : string) : recentM (option RecentMessage) :=
  let chat := Chat (rSource receipt) in
  c ← get;
  let msg := getRecentMessage chat messageID (cRecents c) in
  if negb (RecentIsEmpty msg) then mret (Some msg)
  else
    altChat ← alternateChat chat;
    c ← get;
    let msg := getRecentMessage altChat messageID (cRecents c) in
    if negb (IsEmpty altChat) && negb (RecentIsEmpty msg) then mret (Some msg)
    else if UseRetryMessageStore cfg then
      row ← onEvents RetryStoreFailed
        (GetOutgoingEvent pick (default "" (jidText chat)) (default "" (jidText altChat)) messageID);
      m ← lift (parseRecentMessage row);
      mret (Some m)
    else
      match GetMessageForRetry (Sender (rSource receipt)) chat messageID with
      | Some waMsg => mret (Some (mkRecent (Some waMsg) None))
      | None => mret None
      end.
End recents.

(** * Properties *)

#[local] Open Scope list_scope.

(** ** The reference: a queue

    Messages in the order they were first sent; a new one drops the oldest of 256, and
    a message sent again takes the place it has. *)
Abbreviation queue := (list (recentKey * cachedRecentMessage)).

Fixpoint replaceIn (key : recentKey) (m : cachedRecentMessage) (q : queue) : queue :=
  match q with
  | [] => []
  | (k, m') :: q => if decide (k = key) then (k, m) :: q else (k, m') :: replaceIn key m q
  end.
Definition enqueue (key : recentKey) (m : cachedRecentMessage) (q : queue) : queue :=
  if decide (key ∈ q.*1) then replaceIn key m q
  else ((if decide (length q < recentMessagesSize)%nat then q else tail q) ++ [(key, m)])%list.

Definition rotated (s : recentMessages) : list recentKey :=
  (drop (recentMessagesPtr s) (recentMessagesList s) ++ take (recentMessagesPtr s) (recentMessagesList s))%list.

Record ring (s : recentMessages) (q : queue) : Prop := mkRing {
  ring_keys : q.*1 = rotated s;
  ring_nodup : NoDup q.*1;
  ring_map : recentMessagesMap s = list_to_map q;
  ring_size : (length (recentMessagesList s) ≤ recentMessagesSize)%nat;
  ring_ptr : (recentMessagesPtr s < recentMessagesSize)%nat;
  ring_start : (length (recentMessagesList s) < recentMessagesSize)%nat → recentMessagesPtr s = 0%nat
}.

Lemma replaceIn_keys key m q : (replaceIn key m q).*1 = q.*1.
Proof. induction q as [|[k m'] q IH]; [done|]. cbn. case_decide; cbn; congruence. Qed.
Lemma replaceIn_map key m q : key ∈ q.*1 → NoDup q.*1 →
  (list_to_map (replaceIn key m q) : gmap recentKey cachedRecentMessage) = <[key := m]> (list_to_map q).
Proof.
  induction q as [|[k m'] q IH]; cbn; [by intros []%not_elem_of_nil|]. intros Hin [Hk Hq]%NoDup_cons. case_decide as Hd; cbn.
  - subst k. by rewrite insert_insert_eq.
  - apply elem_of_cons in Hin as [->|Hin]; [done|]. rewrite IH by done. by rewrite insert_insert_ne.
Qed.
Lemma list_to_map_snoc' (key : recentKey) (m : cachedRecentMessage) (q : queue) : key ∉ q.*1 →
  (list_to_map (q ++ [(key, m)]) : gmap recentKey cachedRecentMessage) = <[key := m]> (list_to_map q).
Proof. intros Hk. rewrite list_to_map_snoc; done. Qed.

Lemma ring_lookup s q key : ring s q → is_Some (recentMessagesMap s !! key) ↔ key ∈ q.*1.
Proof.
  intros Hr. rewrite (ring_map _ _ Hr). split.
  - intros [m Hm%elem_of_list_to_map_2]. apply list_elem_of_fmap. by exists (key, m).
  - intros Hk. apply not_eq_None_Some. by rewrite <- not_elem_of_list_to_map_2' || intros Hn%not_elem_of_list_to_map_2.
Qed.

(** The ring is the queue, one step. *)
Lemma cacheRecent_enqueue key m s q : ring s q → ring (cacheRecent key m s) (enqueue key m q).
Proof.
  intros Hr. pose proof Hr as [Hkeys Hnd Hmap Hsize Hptr Hstart]. unfold cacheRecent, enqueue.
  destruct (recentMessagesMap s !! key) as [m0|] eqn:Hkey.
  { assert (key ∈ q.*1) as Hin by (apply (ring_lookup s); [done|by eexists]). rewrite decide_True by done.
    split; cbn; rewrite ?replaceIn_keys; try done. rewrite Hmap. by rewrite replaceIn_map. }
  assert (key ∉ q.*1) as Hnin by (intros Hin; apply (ring_lookup s) in Hin; [rewrite Hkey in Hin; by destruct Hin|done]).
  rewrite (decide_False (P := key ∈ q.*1)) by done.
  assert (length q = length (recentMessagesList s)) as Hlen.
  { apply (f_equal length) in Hkeys. rewrite length_fmap in Hkeys. unfold rotated in Hkeys. rewrite length_app, length_drop, length_take in Hkeys. lia. }
  assert (∀ q' : queue, NoDup q'.*1 → key ∉ q'.*1 → NoDup (q' ++ [(key, m)]).*1) as Hsnoc.
  { intros q' Hq' Hk. rewrite fmap_app. apply NoDup_app. split_and!; [done| |apply NoDup_singleton]. by intros k Hk' ->%list_elem_of_singleton. }
  rewrite Hlen. case_decide as Hfull.
  - pose proof (Hstart Hfull) as Hp0. split; cbn.
    + rewrite fmap_app, Hkeys. unfold rotated. cbn. rewrite Hp0. cbn. by rewrite !app_nil_r.
    + by apply Hsnoc.
    + rewrite Hmap. by rewrite list_to_map_snoc'.
    + rewrite length_app. cbn. lia.
    + done.
    + done.
  - set (p := recentMessagesPtr s) in *. set (l := recentMessagesList s) in *.
    assert (length l = recentMessagesSize) as Hl by lia.
    destruct (l !! p) as [old|] eqn:Hold; [|apply lookup_ge_None in Hold; lia]. cbn [default].
    assert (rotated s = old :: drop (S p) l ++ take p l)%list as Hrot.
    { unfold rotated. fold p l. by rewrite (drop_S l old p Hold). }
    destruct q as [|[old' v] q']; [cbn in Hkeys; rewrite Hrot in Hkeys; discriminate Hkeys|].
    rewrite Hrot in Hkeys. cbn in Hkeys. injection Hkeys as -> Hkeys. cbn [fmap list_fmap fst] in *.
    apply NoDup_cons in Hnd as [Hold' Hnd]. apply not_elem_of_cons in Hnin as [Hne Hnin]. cbn [tail].
    assert (take (S p) (<[p:=key]> l) = take p l ++ [key])%list as Htake.
    { rewrite insert_take_drop by lia. rewrite take_app_ge by (rewrite length_take; lia). rewrite length_take.
      replace (S p - p `min` length l)%nat with 1%nat by lia. done. }
    assert (drop (S p) (<[p:=key]> l) = drop (S p) l) as Hdrop by (rewrite drop_insert_lt by lia; done).
    split; cbn [recentMessagesMap recentMessagesList recentMessagesPtr].
    + rewrite fmap_app, Hkeys. cbn [fmap list_fmap fst]. unfold rotated. cbn [recentMessagesList recentMessagesPtr]. destruct (decide (S p = recentMessagesSize)) as [Hlast|Hlast].
      * replace (p + 1)%nat with recentMessagesSize by lia. rewrite Nat.Div0.mod_same, take_0, drop_0, app_nil_r.
        rewrite <- (take_drop (S p) (<[p:=key]> l)), Htake, Hdrop. rewrite (drop_ge l) by lia. by rewrite app_nil_r.
      * rewrite Nat.mod_small by lia. replace (p + 1)%nat with (S p) by lia. rewrite Htake, Hdrop. by rewrite app_assoc.
    + by apply Hsnoc.
    + rewrite list_to_map_snoc' by done. f_equal. rewrite Hmap. cbn. rewrite delete_insert_id; [done|]. by apply not_elem_of_list_to_map_1.
    + rewrite length_insert. lia.
    + apply Nat.mod_upper_bound. done.
    + rewrite length_insert. lia.
Qed.

Definition emptyRecents : recentMessages := mkRecents ∅ [] 0.
Lemma ring_empty : ring emptyRecents [].
Proof. split; try done. - constructor. - cbn. unfold recentMessagesSize. lia. - cbn. unfold recentMessagesSize. lia. Qed.

(** What was sent, in order. *)
Definition sendAll (l : list (recentKey * cachedRecentMessage)) : recentMessages :=
  foldl (λ s x, cacheRecent x.1 x.2 s) emptyRecents l.
Definition queueOf (l : list (recentKey * cachedRecentMessage)) : queue := foldl (λ q x, enqueue x.1 x.2 q) [] l.

Lemma sendAll_ring l : ring (sendAll l) (queueOf l).
Proof.
  induction l as [|x l IH] using rev_ind; [apply ring_empty|]. unfold sendAll, queueOf. rewrite !foldl_app. cbn. by apply cacheRecent_enqueue.
Qed.

Lemma queue_size l : (length (queueOf l) ≤ recentMessagesSize)%nat.
Proof.
  pose proof (sendAll_ring l) as [Hkeys _ _ Hsize _ _]. apply (f_equal length) in Hkeys. unfold rotated in Hkeys.
  rewrite length_fmap, length_app, length_drop, length_take in Hkeys. lia.
Qed.

(** A message first sent stays at its place, and what follows it was sent after it. *)
Lemma replaceIn_mid key m a b k0 m0 : k0 ≠ key →
  ∃ a' b', replaceIn key m (a ++ (k0, m0) :: b)%list = (a' ++ (k0, m0) :: b')%list ∧ b'.*1 = b.*1 ∧ length a' = length a.
Proof.
  intros Hne. induction a as [|[k m1] a IH]; cbn.
  - rewrite decide_False by done. exists [], (replaceIn key m b). by rewrite replaceIn_keys.
  - destruct IH as (a' & b' & -> & Hb & Ha). case_decide; [by exists ((k, m) :: a), b|].
    exists ((k, m1) :: a'), b'. cbn. by rewrite Ha.
Qed.

Lemma queue_keeps l key m l' :
  key ∉ l.*1 → key ∉ l'.*1 → (size (list_to_set l'.*1 : gset recentKey) < recentMessagesSize)%nat →
  ∃ a b, queueOf (l ++ (key, m) :: l') = (a ++ (key, m) :: b)%list ∧ b.*1 ⊆ l'.*1.
Proof.
  intros Hl. assert (∀ l, (queueOf l).*1 ⊆ l.*1) as Hsub.
  { clear. intros l. induction l as [|[k x] l IH] using rev_ind; [done|]. unfold queueOf. rewrite foldl_app. cbn. unfold enqueue at 1.
    fold (queueOf l). rewrite fmap_app. case_decide; [rewrite replaceIn_keys; set_solver|]. rewrite fmap_app.
    assert ((tail (queueOf l)).*1 ⊆ (queueOf l).*1) by (destruct (queueOf l); cbn; set_solver).
    case_decide; set_solver. }
  induction l' as [|[k x] l' IH] using rev_ind; intros Hk Hsize.
  - assert (queueOf (l ++ [(key, m)]) = enqueue key m (queueOf l)) as -> by (unfold queueOf; by rewrite foldl_app).
    unfold enqueue. rewrite decide_False by (intros Hin; by apply Hl, Hsub). eexists _, []. split; [done|set_solver].
  - rewrite fmap_app in *. cbn in Hk, Hsize.
    assert (size (list_to_set l'.*1 : gset recentKey) ≤ size (list_to_set (l'.*1 ++ [k]) : gset recentKey))%nat as Hmono by (apply subseteq_size; set_solver).
    destruct IH as (a & b & Hq & Hb); [set_solver|lia|].
    assert (queueOf (l ++ (key, m) :: l' ++ [(k, x)]) = enqueue k x (queueOf (l ++ (key, m) :: l'))) as ->
      by (unfold queueOf; change ((key, m) :: l' ++ [(k, x)])%list with (((key, m) :: l') ++ [(k, x)])%list; by rewrite app_assoc, foldl_app).
    pose proof (ring_nodup _ _ (sendAll_ring (l ++ (key, m) :: l'))) as Hnd. pose proof (queue_size (l ++ (key, m) :: l')) as Hlen.
    rewrite Hq in *. unfold enqueue. case_decide as Hin.
    + destruct (replaceIn_mid k x a b key m) as (a' & b' & -> & Hb' & _); [set_solver|]. exists a', b'. split; [done|]. rewrite Hb'. set_solver.
    + assert (∀ a0, a0 ++ (key, m) :: b ++ [(k, x)] = (a0 ++ (key, m) :: b) ++ [(k, x)])%list as Hassoc by (intros; by rewrite <- app_assoc).
      case_decide as Hfull; [exists a, (b ++ [(k, x)])%list; split; [by rewrite Hassoc|rewrite fmap_app; set_solver]|].
      destruct a as [|y a]; cbn [tail app]; [|exists a, (b ++ [(k, x)])%list; split; [by rewrite Hassoc|rewrite fmap_app; set_solver]].
      exfalso. cbn in Hnd, Hlen, Hfull, Hin. apply NoDup_cons in Hnd as [_ Hnd].
      assert (size (list_to_set (k :: b.*1) : gset recentKey) = S (length b)) as Hsz.
      { rewrite size_list_to_set; [cbn; by rewrite length_fmap|]. constructor; [set_solver|done]. }
      assert (size (list_to_set (k :: b.*1) : gset recentKey) ≤ size (list_to_set (l'.*1 ++ [k]) : gset recentKey))%nat by (apply subseteq_size; set_solver).
      lia.
Qed.

(** The ring of recent messages is a queue of 256 messages without
    repetitions: whatever messages were sent, a message is found exactly when the queue
    has it, with what was sent last under its chat and id; and a message that was sent
    is found as long as fewer than 256 other ones were sent after it. *)
Theorem recents_refine_queue (l : list (recentKey * cachedRecentMessage)) (key : recentKey) :
  recentMessagesMap (sendAll l) !! key = (list_to_map (queueOf l) : gmap recentKey cachedRecentMessage) !! key ∧
  (length (queueOf l) ≤ recentMessagesSize)%nat ∧ NoDup (queueOf l).*1 ∧
  (key ∉ l.*1 → ∀ m l', key ∉ l'.*1 → (size (list_to_set l'.*1 : gset recentKey) < recentMessagesSize)%nat →
    recentMessagesMap (sendAll (l ++ (key, m) :: l')) !! key = Some m).
Proof.
  split_and!; [by rewrite (ring_map _ _ (sendAll_ring l))|apply queue_size|apply (ring_nodup _ _ (sendAll_ring l))|].
  intros Hl m l' Hl' Hsize. destruct (queue_keeps l key m l' Hl Hl' Hsize) as (a & b & Hq & _).
  pose proof (sendAll_ring (l ++ (key, m) :: l')) as Hr. rewrite (ring_map _ _ Hr). apply elem_of_list_to_map_1; [by apply ring_nodup in Hr|].
  rewrite Hq. set_solver.
Qed.

Lemma recents_refine_queue_witness :
  let k n := (NewJID n DefaultUserServer, n) in
  let l := [(k "1", ("wa", [x01])); (k "2", ("wa", [x02]))] in
  recentMessagesMap (sendAll l) !! k "1" = Some ("wa", [x01]) ∧
  recentMessagesMap (sendAll (l ++ (k "3", ("fb", [])) :: l)) !! k "3" = Some ("fb", []).
Proof.
  cbv zeta. split.
  - rewrite (proj1 (recents_refine_queue _ _)). vm_compute. reflexivity.
  - apply (recents_refine_queue _ (NewJID "3" DefaultUserServer, "3")).
    + by apply (bool_decide_unpack _); vm_compute.
    + by apply (bool_decide_unpack _); vm_compute.
    + apply Nat.ltb_lt. vm_compute. reflexivity.
Defined.

(** A message sent a second time keeps its old place: one more new message and it is gone. *)
Example resent_message_is_dropped :
  let msg n := ((NewJID "1" DefaultUserServer, FormatUint n), ("wa", [] : list byte)) in
  let l := msg <$> seqZ 0 256 in
  recentMessagesMap (sendAll (l ++ [msg 0; msg 256])%Z) !! (msg 0%Z).1 = None ∧
  recentMessagesMap (sendAll (l ++ [msg 0%Z])) !! (msg 0%Z).1 = Some ("wa", []).
Proof. vm_compute. done. Qed.
