(* ===== verification/Devices.v ===== *)
(** Device lists of users (src/user.go, src/notification.go, src/send.go): queried from
    the server, cached, and kept up to date by notifications that carry the hash of the
    list they lead to. *)
From Stdlib Require Import ZArith Lia.
From Stdlib Require Import Strings.Byte.
From stdpp Require Import prelude gmap strings list fin_maps sorting.
From S2P Require Import Prelude Strconv Jid Node Attrs Cache Cbc SignalStore LidMap Requests MessageInfo.

#[local] Open Scope string_scope.

(** ** Hashing a list of devices *)

Section hash.
Context `{Crypto}.

Definition stringLe (s t : string) : Prop := bytesBelow (s2b t) (s2b s) = false.
#[export] Instance stringLe_dec s t : Decision (stringLe s t).
Proof. unfold stringLe. apply _. Defined.

Definition participantListHashV2 (participants : list JID) : string :=
  let participantsStrings := merge_sort stringLe (ADString <$> participants) in
  "2:" +:+ EncodeToString (take 6 (sha256 (concat (s2b <$> participantsStrings)))).
End hash.

Record deviceCache := mkDeviceCache { devices : list JID; dhash : string }.

(** ** Reading lists *)

Definition withDevice (user : JID) (deviceID : Z) : JID := set_device (u16 deviceID) user.

Definition parseDevice (user : JID) (device : node) : option JID :=
  let '((deviceID, ok), _) := GetInt64 "id" true (AttrGetter_of device) in
  let isHosted := (attrBool "is_hosted" (AttrGetter_of device)).1 in
  if decide (Tag device ≠ "device") then None
  else if negb ok then None
  else
    let user := withDevice user deviceID in
    Some (if isHosted then setServer (if decide (Server user = HiddenUserServer) then HostedLIDServer else HostedServer) user else user).

Definition parseDeviceList (user : JID) (deviceNode : node) : list JID :=
  let deviceList := GetChildByTag deviceNode ["device-list"] in
  if decide (Tag deviceNode ≠ "devices" ∨ Tag deviceList ≠ "device-list") then []
  else omap (parseDevice user) (GetChildren deviceList).

Definition parseFBDevice (user : JID) (device : node) : option JID :=
  let '((deviceID, ok), _) := GetInt64 "id" true (AttrGetter_of device) in
  if decide (Tag device ≠ "device") then None else if negb ok then None else Some (withDevice user deviceID).
Definition parseFBDeviceList (user : JID) (deviceList : node) : deviceCache :=
  mkDeviceCache (omap (parseFBDevice user) (GetChildren deviceList)) (attrString "dhash" (AttrGetter_of deviceList)).1.

(** ** Queries *)

Inductive deviceError := UnknownUserServer | DeviceQueryFailed | ListMissing | RelayFailed.

(** The users of a device query (extra data for other queries left out): [None] for a
    user of a server that cannot be asked. *)
Definition usyncUser (jid : JID) : option node :=
  let jid := ToNonAD jid in
  if decide (Server jid = LegacyUserServer) then
    Some (mkNode "user" [] (VNodes [mkNode "contact" [] (VString (JIDString jid))]))
  else if decide (Server jid = DefaultUserServer ∨ Server jid = HiddenUserServer) then
    Some (mkNode "user" [("jid", VJID jid)]
      (if IsBot jid then VNodes [mkNode "bot" [] (VNodes [mkNode "profile" [("persona_id", VString "")] VNil])] else VNil))
  else None.

Definition usyncQuery (id sid mode context : string) (query users : list node) : infoQuery :=
  mkInfoQuery "usync" "get" ServerJID EmptyJID id "" (VNodes [mkNode "usync"
    [("sid", VString sid); ("mode", VString mode); ("last", VString "true"); ("index", VString "0"); ("context", VString context)]
    (VNodes [mkNode "query" [] (VNodes query); mkNode "list" [] (VNodes users)])]).

Definition fbidQuery (id : string) (jids : list JID) : infoQuery :=
  mkInfoQuery "fbid:devices" "get" ServerJID EmptyJID id ""
    (VNodes [mkNode "users" [] (VNodes ((λ j, mkNode "user" [("jid", VJID j)] VNil) <$> jids))]).

(** The JID of a user child. *)
Definition userChild (user : node) : option JID :=
  match lookupAttr "jid" (Attrs user) with Some (VJID j) => if decide (Tag user = "user") then Some j else None | _ => None end.

Section devices.
Context `{Crypto} (firstKey : gmap JID deviceCache → option JID).
(** [ids]: the request ids of the calls; [answer]: what [sendIQ] returns for a query. *)
Context (ids : nat → string) (answer : infoQuery → option node).
Abbreviation deviceM := (stateM (gmap JID deviceCache) deviceError).

Definition putDevicesCache (jid : JID) (l : deviceCache) (cache : gmap JID deviceCache) : gmap JID deviceCache :=
  putBoundedCache firstKey cache jid l maxUserDeviceCacheEntries.

Definition usync (jids : list JID) (mode context : string) (query : list node) : outcome deviceError node :=
  match mapM usyncUser jids with
  | None => Err UnknownUserServer
  | Some users =>
      match answer (usyncQuery (ids 1) (ids 0) mode context query users) with
      | None => Err DeviceQueryFailed
      | Some resp => match GetOptionalChildByTag resp ["usync"; "list"] with (l, true) => Ok l | _ => Err ListMissing end
      end
  end.

(** What is known without asking, and whom to ask for. *)
Fixpoint knownDevices (cache : gmap JID deviceCache) (jids : list JID) : list JID * list JID * list JID :=
  match jids with
  | [] => ([], [], [])
  | jid :: jids =>
      let '(known, toSync, fbToSync) := knownDevices cache jids in
      match cache !! jid with
      | Some (mkDeviceCache (d :: ds) _) => ((d :: ds) ++ known, toSync, fbToSync)
      | _ =>
          if decide (Server jid = MessengerServer) then (known, toSync, jid :: fbToSync)
          else if IsBot jid then (jid :: known, toSync, fbToSync)
          else (known, jid :: toSync, fbToSync)
      end
  end%list.

(** Each user of an answer is cached. *)
Fixpoint storeUsers (parse : JID → node → deviceCache) (users : list node) (acc : list JID) : deviceM (list JID) :=
  match users with
  | [] => mret acc
  | user :: users =>
      match userChild user with
      | None => storeUsers parse users acc
      | Some jid =>
          let l := parse jid (GetChildByTag user ["devices"]) in
          _ ← modify (putDevicesCache jid l);
          storeUsers parse users (acc ++ devices l)%list
      end
  end.

Definition hashedList (jid : JID) (deviceNode : node) : deviceCache :=
  let l := parseDeviceList jid deviceNode in mkDeviceCache l (participantListHashV2 l).

Definition getFBIDDevicesInternal (i : nat) (jids : list JID) : outcome deviceError node :=
  match answer (fbidQuery (ids i) jids) with
  | None => Err DeviceQueryFailed
  | Some resp => match GetOptionalChildByTag resp ["users"] with (l, true) => Ok l | _ => Err ListMissing end
  end.

(** By fifteen at a time. *)
Fixpoint getFBIDDevices (fuel i : nat) (jids : list JID) (acc : list JID) : deviceM (list JID) :=
  match fuel, jids with
  | _, [] => mret acc
  | 0%nat, _ => lift OutOfFuel
  | S fuel, _ =>
      l ← lift (getFBIDDevicesInternal i (take 15 jids));
      acc ← storeUsers parseFBDeviceList (GetChildren l) acc;
      getFBIDDevices fuel (S i) (drop 15 jids) acc
  end.

(** [relay]: of a shadow client, which asks its relay instead. *)
Definition GetUserDevices (relay : option (list JID → option (list JID))) (jids : list JID) : deviceM (list JID) :=
  match relay with
  | Some relay =>
      let others := List.filter (λ j, negb (IsBot j)) jids in
      let bots := List.filter IsBot jids in
      match others with
      | [] => mret bots
      | _ => match relay others with Some resolved => mret (bots ++ resolved)%list | None => throw RelayFailed end
      end
  | None =>
      cache ← get;
      let '(known, toSync, fbToSync) := knownDevices cache jids in
      known ← (match toSync with
               | [] => mret known
               | _ =>
                   l ← lift (usync toSync "query" "message" [mkNode "devices" [("version", VString "2")] VNil]);
                   storeUsers hashedList (GetChildren l) known
               end);
      match fbToSync with
      | [] => mret known
      | _ => getFBIDDevices (length fbToSync) 2 fbToSync known
      end
  end.

(** ** Notifications *)

(** The lists under the two addresses of the user, while the children are handled. *)
Record deviceUpdate := mkUpdate {
  uCache : gmap JID deviceCache;
  uPN : option deviceCache;       (* [None]: not cached *)
  uLID : option deviceCache
}.

Definition setDevices (f : list JID → list JID) (c : deviceCache) : deviceCache := mkDeviceCache (f (devices c)) (dhash c).

(** The list is kept under the hash of the notification or not at all. *)
Definition verifyList (jid : JID) (c : deviceCache) (hash : string) (cache : gmap JID deviceCache) : gmap JID deviceCache :=
  if decide (participantListHashV2 (devices c) = hash) then putDevicesCache jid c cache else delete jid cache.

Definition deviceChange (from : JID) (fromLID : option JID) (child : node) (u : deviceUpdate) : deviceUpdate :=
  let cag := AttrGetter_of child in
  let '(deviceHash, cag) := attrString "device_hash" cag in
  let deviceLIDHash := (OptionalString "device_lid_hash" cag).1 in
  let deviceChild := (GetOptionalChildByTag child ["device"]).1 in
  let changedDeviceJID := (attrJID "jid" (AttrGetter_of deviceChild)).1 in
  let changedDeviceLID := (OptionalJID "lid" (AttrGetter_of deviceChild)).1 in
  let change (edit : JID → list JID → list JID) :=
    let u :=
      if bool_decide (is_Some (uLID u)) && (bool_decide (changedDeviceLID = None) || bool_decide (deviceLIDHash = "")) then
        mkUpdate (match fromLID with Some lid => delete lid (uCache u) | None => uCache u end) (uPN u) None
      else u in
    let pn := setDevices (edit changedDeviceJID) <$> uPN u in
    let lid := match changedDeviceLID with Some d => setDevices (edit d) <$> uLID u | None => uLID u end in
    let cache := match pn with Some c => verifyList from c deviceHash (uCache u) | None => uCache u end in
    let cache :=
      match fromLID, lid, changedDeviceLID with
      | Some fromLID, Some c, Some _ => if decide (deviceLIDHash = "") then cache else verifyList fromLID c deviceLIDHash cache
      | _, _, _ => cache
      end in
    mkUpdate cache pn lid in
  if decide (Tag child = "add") then change (λ d l, l ++ [d])%list
  else if decide (Tag child = "remove") then change (λ d, List.filter (λ existing, negb (bool_decide (existing = d))))
  else if decide (Tag child = "update") then
    mkUpdate (let cache := delete from (uCache u) in match fromLID with Some lid => delete lid cache | None => cache end) (uPN u) (uLID u)
  else u.

(** The list of devices after a notification; the mapping of the addresses is stored
    before, by [StoreLIDPNMapping]. *)
Definition handleDeviceNotification (n : node) (cache : gmap JID deviceCache) : gmap JID deviceCache :=
  let '(from, ag) := attrJID "from" (AttrGetter_of n) in
  let fromLID := (OptionalJID "lid" ag).1 in
  let pn := cache !! from in
  let lid := fromLID ≫= λ l, cache !! l in
  match pn, lid with
  | None, None => cache
  | _, _ => uCache (foldl (λ u child, deviceChange from fromLID child u) (mkUpdate cache pn lid) (GetChildren n))
  end.

Definition handleFBDeviceNotification (n : node) (cache : gmap JID deviceCache) : gmap JID deviceCache :=
  let jid := (attrJID "from" (AttrGetter_of n)).1 in
  putDevicesCache jid (parseFBDeviceList jid (GetChildByTag n ["devices"])) cache.

Definition handleOwnDevicesNotification (ownID ownLID : JID) (n : node) (fromJID : JID) (cache : gmap JID deviceCache) :
    gmap JID deviceCache :=
  let ownLID := ToNonAD ownLID in
  let ownID := ToNonAD ownID in
  if IsEmpty ownID then cache
  else
    let fromJIDPlain := ToNonAD fromJID in
    match (if decide (fromJIDPlain = ownID) then Some ownLID else if decide (fromJIDPlain = ownLID) then Some ownID else None) with
    | None => cache
    | Some altJID =>
        let expectedNewHash := (attrString "dhash" (AttrGetter_of n)).1 in
        let newDeviceList := omap (λ child,
          let jid := (attrJID "jid" (AttrGetter_of child)).1 in
          if decide (Tag child = "device" ∧ IsEmpty jid = false) then Some jid else None) (GetChildren n) in
        let altDeviceList := (λ jid, set_device (Device jid) altJID) <$> newDeviceList in
        if decide (participantListHashV2 newDeviceList ≠ expectedNewHash) then delete ownLID (delete ownID cache)
        else putDevicesCache altJID (mkDeviceCache altDeviceList (participantListHashV2 altDeviceList))
               (putDevicesCache fromJIDPlain (mkDeviceCache newDeviceList expectedNewHash) cache)
    end.
End devices.

(** * Properties *)

(** ** The hash does not depend on the order *)

Lemma bytesBelow_irrefl l : bytesBelow l l = false.
Proof. induction l as [|b l IH]; [done|]. cbn. by rewrite Z.ltb_irrefl. Qed.
Lemma bytesBelow_connected s t : bytesBelow s t = false → bytesBelow t s = false → s = t.
Proof.
  revert t; induction s as [|a s IH]; intros [|b t]; try done. cbn.
  destruct (b2z a <? b2z b)%Z eqn:H1; [done|]. destruct (b2z b <? b2z a)%Z eqn:H2; [done|]. intros Hs Ht.
  rewrite (IH _ Hs Ht). f_equal. apply b2z_inj. lia.
Qed.
Lemma bytesBelow_asym s t : bytesBelow s t = true → bytesBelow t s = false.
Proof.
  revert t; induction s as [|a s IH]; intros [|b t]; try done. cbn.
  destruct (b2z a <? b2z b)%Z eqn:H1, (b2z b <? b2z a)%Z eqn:H2; try done; [lia|apply IH].
Qed.
Lemma bytesBelow_cut s t u : bytesBelow s u = true → bytesBelow s t = true ∨ bytesBelow t u = true.
Proof.
  revert t u; induction s as [|a s IH]; intros t [|c u]; try done; [by destruct t; auto|]. destruct t as [|b t]; [by auto|]. cbn.
  repeat case_match; try lia; try done; auto.
Qed.

#[export] Instance stringLe_trans : Transitive stringLe.
Proof.
  intros s t u Hst Htu. unfold stringLe in *. apply not_true_iff_false. intros Hsu.
  destruct (bytesBelow_cut _ (s2b t) _ Hsu) as [H|H]; congruence.
Qed.
#[export] Instance stringLe_antisym : AntiSymm (=) stringLe.
Proof. intros s t Hst Hts. apply s2b_inj. by apply bytesBelow_connected. Qed.
#[export] Instance stringLe_total : Total stringLe.
Proof. intros s t. unfold stringLe. destruct (bytesBelow (s2b t) (s2b s)) eqn:H; [right|by left]. by apply bytesBelow_asym. Qed.

Section verified.
Context `{Crypto} (firstKey : gmap JID deviceCache → option JID).

Lemma participantListHashV2_perm l l' : l ≡ₚ l' → participantListHashV2 l = participantListHashV2 l'.
Proof.
  intros Hl. unfold participantListHashV2. do 6 f_equal. apply (Sorted_unique stringLe); [apply (Sorted_merge_sort _)..|].
  by rewrite !merge_sort_Permutation, Hl.
Qed.

(** ** Notifications *)

Lemma verifyList_lookup jid c h cache k c' : verifyList firstKey jid c h cache !! k = Some c' →
  cache !! k = Some c' ∨ k = jid ∧ c' = c ∧ participantListHashV2 (devices c) = h.
Proof.
  unfold verifyList, putDevicesCache, putBoundedCache. case_decide.
  - intros [[-> ->]|[Hk Hc]]%lookup_insert_Some; [by right|left]. case_decide; [|done]. destruct (firstKey cache); [|done].
    by apply lookup_delete_Some in Hc as [_ ?].
  - intros [_ Hc]%lookup_delete_Some. by left.
Qed.

Lemma verifyList_same jid c c0 h cache : cache !! jid = Some c0 → participantListHashV2 (devices c) = h →
  verifyList firstKey jid c h cache = <[jid := c]> cache.
Proof. intros Hjid Hh. unfold verifyList, putDevicesCache, putBoundedCache. rewrite decide_True by done. rewrite decide_False; [done|]. rewrite Hjid. naive_solver. Qed.

(** What a child of the notification says: whose list changes, and to which hash. *)
Definition announces (from : JID) (fromLID : option JID) (child : node) (jid : JID) (hash : string) : Prop :=
  let '(deviceHash, cag) := attrString "device_hash" (AttrGetter_of child) in
  let deviceLIDHash := (OptionalString "device_lid_hash" cag).1 in
  (Tag child = "add" ∨ Tag child = "remove") ∧
  (jid = from ∧ hash = deviceHash ∨ fromLID = Some jid ∧ hash = deviceLIDHash ∧ hash ≠ "").

Lemma deviceChange_lookup from fromLID child u k c : uCache (deviceChange firstKey from fromLID child u) !! k = Some c →
  uCache u !! k = Some c ∨ ∃ h, announces from fromLID child k h ∧ participantListHashV2 (devices c) = h.
Proof.
  unfold deviceChange, announces. destruct (attrString "device_hash" _) as [deviceHash cag].
  set (lidHash := (OptionalString "device_lid_hash" cag).1). set (d := (attrJID "jid" _).1). set (dl := (OptionalJID "lid" _).1).
  assert (∀ edit : JID → list JID → list JID, (Tag child = "add" ∨ Tag child = "remove") →
    uCache (let u := if bool_decide (is_Some (uLID u)) && (bool_decide (dl = None) || bool_decide (lidHash = "")) then
        mkUpdate (match fromLID with Some lid => delete lid (uCache u) | None => uCache u end) (uPN u) None else u in
      let pn := setDevices (edit d) <$> uPN u in
      let lid := match dl with Some d => setDevices (edit d) <$> uLID u | None => uLID u end in
      let cache := match pn with Some c => verifyList firstKey from c deviceHash (uCache u) | None => uCache u end in
      let cache := match fromLID, lid, dl with
        | Some fromLID, Some c, Some _ => if decide (lidHash = "") then cache else verifyList firstKey fromLID c lidHash cache
        | _, _, _ => cache end in
      mkUpdate cache pn lid) !! k = Some c →
    uCache u !! k = Some c ∨ ∃ h, ((Tag child = "add" ∨ Tag child = "remove") ∧
      (k = from ∧ h = deviceHash ∨ fromLID = Some k ∧ h = lidHash ∧ h ≠ "")) ∧ participantListHashV2 (devices c) = h) as Hchange.
  { intros edit Htag. cbn zeta. match goal with |- context [if ?b then _ else u] => set (u1 := if b then _ else u) end.
    assert (∀ c, uCache u1 !! k = Some c → uCache u !! k = Some c) as Hu1.
    { intros c0. subst u1. destruct (_ && _); [|done]. destruct fromLID; [|done]. cbn [uCache]. by intros [_ ?]%lookup_delete_Some. }
    cbn [uCache].
    set (cache1 := match setDevices (edit d) <$> uPN u1 with Some c => _ | None => _ end).
    assert (∀ c, cache1 !! k = Some c → uCache u !! k = Some c ∨ k = from ∧ participantListHashV2 (devices c) = deviceHash) as H1.
    { intros c0. subst cache1. destruct (setDevices (edit d) <$> uPN u1) as [c1|]; [|by left; apply Hu1].
      intros [Hc|(-> & -> & Hh)]%verifyList_lookup; [left; by apply Hu1|by right]. }
    intros Hc. assert (cache1 !! k = Some c ∨ (∃ l, fromLID = Some l ∧ k = l) ∧ lidHash ≠ "" ∧ participantListHashV2 (devices c) = lidHash) as [Hc1|((l & -> & ->) & Hne & Hh)].
    { destruct fromLID as [l|]; [|by left]. destruct (match dl with Some d => _ | None => uLID u1 end) as [c1|]; [|by left].
      destruct dl; [|by left]. case_decide; [by left|].
      apply verifyList_lookup in Hc as [Hc|(-> & -> & Hh)]; [by left|right]. split; [by exists l|done]. }
    - destruct (H1 _ Hc1) as [?|[-> Hh]]; [by left|right]. exists deviceHash. auto.
    - right. exists lidHash. split; [split; [done|]|done]. right. done. }
  destruct (decide (Tag child = "add")); [|destruct (decide (Tag child = "remove")); [|destruct (decide (Tag child = "update"))]].
  - apply (Hchange (λ d l, l ++ [d])%list). by left.
  - apply (Hchange (λ d, List.filter (λ existing, negb (bool_decide (existing = d))))). by right.
  - intros Hc. left. cbn [uCache] in Hc. destruct fromLID; [apply lookup_delete_Some in Hc as [_ Hc]|]; by apply lookup_delete_Some in Hc as [_ Hc].
  - by left.
Qed.

Lemma deviceChanges_lookup from fromLID children u k c :
  uCache (foldl (λ u child, deviceChange firstKey from fromLID child u) u children) !! k = Some c →
  uCache u !! k = Some c ∨ ∃ child h, child ∈ children ∧ announces from fromLID child k h ∧ participantListHashV2 (devices c) = h.
Proof.
  revert u; induction children as [|child children IH]; intros u; cbn; [by left|].
  intros [Hc|(child' & h & Hin & Ha & Hh)]%IH.
  - apply deviceChange_lookup in Hc as [?|(h & Ha & Hh)]; [by left|right]. exists child, h. split; [by left|done].
  - right. exists child', h. split; [by right|done].
Qed.

(** C24: device lists are adopted only if they are verified. After a
    notification of changed devices every cached list either was cached before or is a
    list of the user of the notification whose hash is one that the notification
    announces for the address it is cached under; and a device that is announced with
    the hash of the cached list and the device is added to that list. The hash does not
    depend on the order of the devices. *)
Theorem cached_devices_verified (n : node) (cache : gmap JID deviceCache) :
  let '(from, ag) := attrJID "from" (AttrGetter_of n) in
  let fromLID := (OptionalJID "lid" ag).1 in
  let cache' := handleDeviceNotification firstKey n cache in
  (∀ jid c, cache' !! jid = Some c → cache !! jid = Some c ∨
     ∃ child h, child ∈ GetChildren n ∧ announces from fromLID child jid h ∧ participantListHashV2 (devices c) = h) ∧
  (∀ c child d, GetChildren n = [child] → Tag child = "add" → cache !! from = Some c → fromLID ≠ Some from →
     (attrJID "jid" (AttrGetter_of (GetOptionalChildByTag child ["device"]).1)).1 = d →
     (attrString "device_hash" (AttrGetter_of child)).1 = participantListHashV2 (devices c ++ [d]) →
     cache' !! from = Some (mkDeviceCache (devices c ++ [d]) (dhash c))) ∧
  (∀ l l', l ≡ₚ l' → participantListHashV2 l = participantListHashV2 l').
Proof.
  unfold handleDeviceNotification. destruct (attrJID "from" _) as [from ag]. set (fromLID := (OptionalJID "lid" ag).1). cbn zeta.
  set (step := λ u child, deviceChange firstKey from fromLID child u). split_and!; [| |apply participantListHashV2_perm].
  - intros jid c Hc.
    assert (cache !! jid = Some c ∨ uCache (foldl step (mkUpdate cache (cache !! from) (fromLID ≫= λ l, cache !! l)) (GetChildren n)) !! jid = Some c) as [?|Hr]
      by (destruct (cache !! from), (fromLID ≫= λ l, cache !! l); auto).
    { by left. }
    by apply deviceChanges_lookup in Hr.
  - intros c child d Hn Htag Hfrom Hne Hd Hhash. rewrite Hfrom, Hn. cbn [foldl]. subst step. cbn beta. unfold deviceChange.
    destruct (attrString "device_hash" _) as [deviceHash cag]. cbn [fst] in Hhash. rewrite decide_True by done. cbn [uLID uPN uCache fmap option_fmap option_map].
    rewrite Hd, Hhash. set (dl := (OptionalJID "lid" _).1). set (lidHash := (OptionalString "device_lid_hash" cag).1).
    set (l := fromLID ≫= λ l, cache !! l).
    match goal with |- context [if ?b then mkUpdate ?x ?y None else ?z] => set (u1 := if b then mkUpdate x y None else z) end.
    assert (uPN u1 = Some c ∧ uCache u1 !! from = Some c) as [Hpn Hc].
    { subst u1. destruct (_ && _); cbn; [|done]. split; [done|]. destruct fromLID as [x|]; [|done]. rewrite lookup_delete_ne; [done|]. by intros ->. }
    rewrite Hpn. cbn [fmap option_fmap option_map].
    rewrite (verifyList_same from (setDevices _ c) c) by done.
    destruct fromLID as [x|]; [|apply lookup_insert_eq]. assert (x ≠ from) by (by intros ->).
    destruct (match dl with Some d => _ | None => uLID u1 end) as [c1|] eqn:Hl; [|apply lookup_insert_eq].
    destruct dl as [dl|]; [|apply lookup_insert_eq]. case_decide; [apply lookup_insert_eq|].
    assert (is_Some (cache !! x)) as [cl Hcl].
    { subst u1 l. cbn in Hl. destruct (cache !! x); [by eexists|]. cbn in Hl. discriminate Hl. }
    unfold verifyList. case_decide; [|rewrite lookup_delete_ne by done; apply lookup_insert_eq].
    unfold putDevicesCache, putBoundedCache. rewrite lookup_insert_ne by done. rewrite decide_False; [apply lookup_insert_eq|].
    intros [Hx _]. rewrite lookup_insert_ne in Hx by done. subst u1. cbn in Hx, Hl. subst l. cbn in Hx, Hl. rewrite Hcl in Hx, Hl. cbn in Hx, Hl.
    rewrite (bool_decide_eq_false_2 (_ = "")) in Hx by done. cbn in Hx. by rewrite Hcl in Hx.
Qed.
End verified.

#[local] Existing Instance toyCrypto.

(** A second device of a phone number is added to the list of its user. *)
Definition alice : JID := NewJID "1" DefaultUserServer.
Definition aliceCache : gmap JID deviceCache := {[ alice := mkDeviceCache [alice] "" ]}.
Definition deviceAdded : node :=
  mkNode "notification" [("from", VJID alice)]
    (VNodes [mkNode "add" [("device_hash", VString (participantListHashV2 [alice; withDevice alice 3]))]
      (VNodes [mkNode "device" [("jid", VJID (withDevice alice 3))] VNil])]).

Lemma cached_devices_verified_witness :
  handleDeviceNotification (λ _, None) deviceAdded aliceCache !! alice = Some (mkDeviceCache [alice; withDevice alice 3] "") ∧
  participantListHashV2 [alice; withDevice alice 3] = participantListHashV2 [withDevice alice 3; alice].
Proof.
  destruct (cached_devices_verified (λ _, None) deviceAdded aliceCache) as (_ & Hadd & Hperm). split; [|apply Hperm; constructor].
  refine (Hadd (mkDeviceCache [alice] "") _ (withDevice alice 3) eq_refl eq_refl _ _ eq_refl _); [by vm_compute|discriminate|by vm_compute].
Defined.
