(* ===== verification/ReportingToken.v ===== *)
(** Reporting tokens (src/reportingtoken.go): what of a message's protobuf encoding a
    token is computed of, and the token's node. *)
From Stdlib Require Import ZArith Lia.
From Stdlib Require Import Strings.Byte.
From stdpp Require Import prelude strings list sorting.
From S2P Require Import Prelude Jid Node Cbc LTHash Noise MessageInfo MsgSecret Proto.

#[local] Open Scope string_scope.

(** ** Varints of Go's encoding/binary *)

Definition MaxVarintLen64 : nat := 10.

(** The value and how many bytes it took; 0 when the bytes end too early, negative when
    the value overflows. *)
Fixpoint uvarint (i : nat) (s x : Z) (buf : list byte) : Z * Z :=
  match buf with
  | [] => (0, 0)
  | b :: buf =>
      if decide (i = MaxVarintLen64) then (0, - (Z.of_nat i + 1))
      else if b2z b <? 128 then
        if bool_decide (i = MaxVarintLen64 - 1)%nat && (1 <? b2z b) then (0, - (Z.of_nat i + 1))
        else (Z.lor x (Z.shiftl (b2z b) s), Z.of_nat i + 1)
      else uvarint (S i) (s + 7) (Z.lor x (Z.shiftl (Z.land (b2z b) 127) s)) buf
  end%Z.
Definition Uvarint (buf : list byte) : Z * Z := uvarint 0 0 0 buf.

Fixpoint putUvarint (n : nat) (x : Z) : list byte :=
  match n with
  | O => []
  | S n => if (x <? 128)%Z then [z2b x] else z2b (Z.lor (Z.land x 127) 128) :: putUvarint n (Z.shiftr x 7)
  end.
Definition PutUvarint (x : Z) : list byte := putUvarint MaxVarintLen64 x.

(** ** The content of a token *)

Inductive reportingField := mkField { FieldNumber : Z; IsMessage : bool; Subfields : list reportingField }.

Definition wireVarint : Z := 0.
Definition wire64bit : Z := 1.
Definition wireBytes : Z := 2.
Definition wire32bit : Z := 5.

Fixpoint getConfigForField (fields : list reportingField) (fieldNum : Z) : option reportingField :=
  match fields with
  | [] => None
  | f :: fields => if decide (FieldNumber f = fieldNum) then Some f else getConfigForField fields fieldNum
  end.

Abbreviation tokenField := (Z * list byte)%type.

(** [data[from:to]]. The bytes behind the end of [data], which a slice with spare
    capacity has, count as out of range. *)
Definition sliceOf (data : list byte) (from to : Z) : outcome Empty_set (list byte) :=
  if decide (0 <= from <= to ∧ to <= Z.of_nat (length data))%Z
  then Ok (take (Z.to_nat (to - from)) (drop (Z.to_nat from) data)) else Panic.
Definition sliceFrom (data : list byte) (from : Z) : outcome Empty_set (list byte) := sliceOf data from (Z.of_nat (length data)).

(** Where a value that is not looked at ends; [None] for an unknown wire type. *)
Definition skipValue (data : list byte) (wireType i : Z) : outcome Empty_set (option Z) :=
  if decide (wireType = wireVarint) then buf ← sliceFrom data i; Ok (Some (i64 (i + (Uvarint buf).2)))
  else if decide (wireType = wire64bit) then Ok (Some (i64 (i + 8)))
  else if decide (wireType = wireBytes) then
    buf ← sliceFrom data i; let '(l, n) := Uvarint buf in Ok (Some (i64 (i + (n + i64 l))))
  else if decide (wireType = wire32bit) then Ok (Some (i64 (i + 4)))
  else Ok None.

Section token.
(** [sort.Slice] by the number of the field: it does not keep the order of equal ones. *)
Context (sortFields : list tokenField → list tokenField).

Definition tokenOf (fields : list tokenField) : list byte := concat (snd <$> sortFields fields).

(** One value that is looked at: the field, if it counts, and where it ends. [rec]: the
    content of a submessage. *)
Definition takeValue (rec : list byte → list reportingField → outcome Empty_set (list byte)) (data : list byte)
    (cfg : reportingField) (tag wireType fieldStart i : Z) : outcome Empty_set (option (list tokenField * Z)) :=
  let fieldNum := FieldNumber cfg in
  if decide (wireType = wireBytes) then
    buf ← sliceFrom data i;
    let '(l, n) := Uvarint buf in
    let valStart := i64 (i + n) in
    let valEnd := i64 (valStart + i64 l) in
    if IsMessage cfg || negb (bool_decide (length (Subfields cfg) = 0%nat)) then
      value ← sliceOf data valStart valEnd;
      sub ← rec value (Subfields cfg);
      Ok (Some (match sub with
                | [] => []
                | _ => [(fieldNum, PutUvarint tag ++ PutUvarint (Z.of_nat (length sub)) ++ sub)%list]
                end, valEnd))
    else value ← sliceOf data fieldStart valEnd; Ok (Some ([(fieldNum, value)], valEnd))
  else
    stop ← skipValue data wireType i;
    match stop with
    | None => Ok None
    | Some stop => value ← sliceOf data fieldStart stop; Ok (Some ([(fieldNum, value)], stop))
    end.

Fixpoint extractLoop (fuel : nat) (data : list byte) (config : list reportingField) (i : Z) (fields : list tokenField) :
    outcome Empty_set (list byte) :=
  match fuel with
  | O => OutOfFuel
  | S fuel =>
      if (Z.of_nat (length data) <=? i)%Z then Ok (tokenOf fields)
      else
        buf ← sliceFrom data i;
        let '(tag, tagLen) := Uvarint buf in
        if (tagLen <=? 0)%Z then Ok (tokenOf fields)
        else
          let fieldNum := Z.shiftr tag 3 in
          let wireType := Z.land tag 7 in
          match getConfigForField config fieldNum with
          | None =>
              stop ← skipValue data wireType (i + tagLen);
              match stop with None => Ok [] | Some stop => extractLoop fuel data config stop fields end
          | Some cfg =>
              taken ← takeValue (λ value sub, extractLoop fuel value sub 0 []) data cfg tag wireType i (i + tagLen);
              match taken with
              | None => Ok []
              | Some (new, stop) => extractLoop fuel data config stop (fields ++ new)%list
              end
          end
  end.

(** Every round reads at least a byte, and a submessage is shorter than what has it. *)
Definition extractReportingTokenContent (data : list byte) (config : list reportingField) : outcome Empty_set (list byte) :=
  extractLoop (S (length data)) data config 0 [].
End token.

(** ** The fields that count *)

(** src/reportingfields.json *)
Definition getReportingFields : list reportingField := [
  mkField 1 false [];
  mkField 3 false [mkField 2 false []; mkField 3 false []; mkField 8 false []; mkField 11 false []; mkField 17 false [mkField 21 false []; mkField 22 false []]; mkField 25 false []];
  mkField 4 false [mkField 1 false []; mkField 16 false []; mkField 17 false [mkField 21 false []; mkField 22 false []]];
  mkField 5 false [mkField 3 false []; mkField 4 false []; mkField 5 false []; mkField 16 false []; mkField 17 false [mkField 21 false []; mkField 22 false []]];
  mkField 6 false [mkField 1 false []; mkField 17 false [mkField 21 false []; mkField 22 false []]; mkField 30 false []];
  mkField 7 false [mkField 2 false []; mkField 7 false []; mkField 10 false []; mkField 17 false [mkField 21 false []; mkField 22 false []]; mkField 20 false []];
  mkField 8 false [mkField 2 false []; mkField 7 false []; mkField 9 false []; mkField 17 false [mkField 21 false []; mkField 22 false []]; mkField 21 false []];
  mkField 9 false [mkField 2 false []; mkField 6 false []; mkField 7 false []; mkField 13 false []; mkField 17 false [mkField 21 false []; mkField 22 false []]; mkField 20 false []];
  mkField 12 false [mkField 1 false []; mkField 2 false []; mkField 14 true []; mkField 15 false []];
  mkField 18 false [mkField 6 false []; mkField 16 false []; mkField 17 false [mkField 21 false []; mkField 22 false []]];
  mkField 26 false [mkField 4 false []; mkField 5 false []; mkField 8 false []; mkField 13 false []; mkField 17 false [mkField 21 false []; mkField 22 false []]];
  mkField 28 false [mkField 1 false []; mkField 2 false []; mkField 4 false []; mkField 5 false []; mkField 6 false []; mkField 7 false [mkField 21 false []; mkField 22 false []]];
  mkField 37 false [mkField 1 true []];
  mkField 49 false [mkField 2 false []; mkField 3 false [mkField 1 false []; mkField 2 false []]; mkField 5 false [mkField 21 false []; mkField 22 false []]; mkField 8 false [mkField 1 false []; mkField 2 false []]];
  mkField 53 false [mkField 1 true []];
  mkField 55 false [mkField 1 true []];
  mkField 58 false [mkField 1 true []];
  mkField 59 false [mkField 1 true []];
  mkField 60 false [mkField 2 false []; mkField 3 false [mkField 1 false []; mkField 2 false []]; mkField 5 false [mkField 21 false []; mkField 22 false []]; mkField 8 false [mkField 1 false []; mkField 2 false []]];
  mkField 64 false [mkField 2 false []; mkField 3 false [mkField 1 false []; mkField 2 false []]; mkField 5 false [mkField 21 false []; mkField 22 false []]; mkField 8 false [mkField 1 false []; mkField 2 false []]];
  mkField 66 false [mkField 2 false []; mkField 6 false []; mkField 7 false []; mkField 13 false []; mkField 17 false [mkField 21 false []; mkField 22 false []]; mkField 20 false []];
  mkField 74 false [mkField 1 true []];
  mkField 87 false [mkField 1 true []];
  mkField 88 false [mkField 1 false []; mkField 2 false [mkField 1 false []]; mkField 3 false [mkField 21 false []; mkField 22 false []]];
  mkField 92 false [mkField 1 true []];
  mkField 93 false [mkField 1 true []];
  mkField 94 false [mkField 1 true []]].

Definition EncSecretReportToken : string := "Report Token".

Section node.
Context `{NoiseCrypto} `{HKDF} (sortFields : list tokenField → list tokenField).

Definition shouldIncludeReportingToken (SendReportingTokens : bool) (message : proto) : bool :=
  SendReportingTokens && negb (has "ReactionMessage" message || has "EncReactionMessage" message ||
    has "EncEventResponseMessage" message || has "PollUpdateMessage" message).

Definition getMessageReportingToken (msgProtobuf : list byte) (msg : proto) (senderJID remoteJID : JID) (messageID : string) :
    outcome secretError node :=
  keyData ← generateMsgSecretKey EncSecretReportToken remoteJID messageID senderJID
    (asBytes (path ["MessageContextInfo"; "MessageSecret"] (Some msg)));
  content ← orPanic (extractReportingTokenContent sortFields msgProtobuf getReportingFields);
  Ok (mkNode "reporting" [] (VNodes
    [mkNode "reporting_token" [("v", VString "2")] (VBytes (take 16 (hmacSha256 keyData.1 content)))])).
End node.

(** * Properties *)

#[local] Open Scope list_scope.

(** ** Varints *)

Lemma land_127 y : (0 ≤ y)%Z → Z.land y 127 = (y `mod` 128)%Z.
Proof. intros. change 127%Z with (Z.ones 7). by rewrite Z.land_ones. Qed.

Lemma more_byte y : (0 ≤ y)%Z → b2z (z2b (Z.lor (Z.land y 127) 128)) = (y `mod` 128 + 128)%Z.
Proof.
  intros Hy. rewrite land_127 by done. pose proof (Z.mod_pos_bound y 128).
  assert (Z.lor (y `mod` 128) 128 = y `mod` 128 + 128)%Z as ->.
  { symmetry. apply Z.add_nocarry_lxor || idtac. rewrite <- Z.lxor_lor; [apply Z.add_nocarry_lxor|].
    all: apply Z.bits_inj'; intros n Hn; rewrite Z.land_spec, Z.bits_0; change 128%Z with (2 ^ 7)%Z; rewrite Z.pow2_bits_eqb by lia;
      destruct (decide (7 = n)%Z) as [<-|]; [rewrite Z.mod_pow2_bits_high by lia; done|rewrite (proj2 (Z.eqb_neq 7 n)) by done; by rewrite andb_false_r]. }
  rewrite b2z_z2b_small; lia.
Qed.

Lemma low_bits y : (0 ≤ y)%Z → Z.land (y `mod` 128 + 128) 127 = (y `mod` 128)%Z.
Proof.
  intros. pose proof (Z.mod_pos_bound y 128). rewrite land_127 by lia. rewrite <- (Z.mul_1_l 128) at 2. rewrite Z.mod_add by lia. by rewrite Z.mod_mod by lia.
Qed.

Lemma join_bits acc y s : (0 ≤ s)%Z → (0 ≤ y)%Z →
  Z.lor (Z.lor acc (Z.shiftl (y `mod` 128) s)) (Z.shiftl (Z.shiftr y 7) (s + 7)) = Z.lor acc (Z.shiftl y s).
Proof.
  intros Hs Hy. rewrite <- Z.lor_assoc. f_equal. apply Z.bits_inj'. intros n Hn.
  rewrite Z.lor_spec. change 128%Z with (2 ^ 7)%Z. destruct (decide (n < s)%Z) as [Hlow|Hlow].
  { rewrite !Z.shiftl_spec_low by lia. done. }
  rewrite !(Z.shiftl_spec _ s) by lia. destruct (decide (n < s + 7)%Z) as [Hmid|Hhigh].
  - rewrite Z.shiftl_spec_low by lia. rewrite Z.mod_pow2_bits_low by lia. by rewrite orb_false_r.
  - rewrite Z.mod_pow2_bits_high by lia. rewrite Z.shiftl_spec, Z.shiftr_spec by lia. cbn [orb]. f_equal. lia.
Qed.

Lemma uvarint_put n i acc y rest : (n + i = MaxVarintLen64)%nat → (1 ≤ n)%nat →
  (0 ≤ y < 2 ^ (64 - 7 * Z.of_nat i))%Z →
  uvarint i (7 * Z.of_nat i) acc (putUvarint n y ++ rest) =
  (Z.lor acc (Z.shiftl y (7 * Z.of_nat i)), Z.of_nat (i + length (putUvarint n y))).
Proof.
  revert i acc y; induction n as [|n IH]; intros i acc y Hi Hn Hy; [lia|]. unfold MaxVarintLen64 in *. cbn [putUvarint].
  destruct (Z.ltb_spec y 128) as [Hsmall|Hbig].
  - cbn [app uvarint]. rewrite decide_False by (unfold MaxVarintLen64; lia). rewrite b2z_z2b_small by lia.
    rewrite (proj2 (Z.ltb_lt y 128)) by done. unfold MaxVarintLen64. case_bool_decide as Hlast.
    + replace i with 9%nat in Hy by lia. cbn in Hy. rewrite (proj2 (Z.ltb_ge 1 y)) by lia. cbn. f_equal. lia.
    + cbn. f_equal. lia.
  - assert (1 ≤ n)%nat.
    { destruct n; [|lia]. replace i with 9%nat in Hy by lia. cbn in Hy. lia. }
    cbn [app uvarint]. rewrite decide_False by (unfold MaxVarintLen64; lia). rewrite more_byte by lia.
    pose proof (Z.mod_pos_bound y 128 ltac:(lia)). rewrite (proj2 (Z.ltb_ge _ 128)) by lia. rewrite low_bits by lia.
    replace (7 * Z.of_nat i + 7)%Z with (7 * Z.of_nat (S i))%Z by lia. rewrite IH; [|lia|lia|].
    + replace (7 * Z.of_nat (S i))%Z with (7 * Z.of_nat i + 7)%Z by lia. rewrite join_bits by lia. f_equal. cbn. lia.
    + rewrite Z.shiftr_div_pow2 by lia. split; [apply Z.div_pos; lia|]. apply Z.div_lt_upper_bound; [lia|].
      replace (64 - 7 * Z.of_nat i)%Z with (7 + (64 - 7 * Z.of_nat (S i)))%Z in Hy by lia.
      assert (0 ≤ 64 - 7 * Z.of_nat (S i))%Z by lia. rewrite Z.pow_add_r in Hy by lia. lia.
Qed.

(** Go's varints read back. *)
Lemma Uvarint_Put x rest : (0 ≤ x < 2 ^ 64)%Z → Uvarint (PutUvarint x ++ rest) = (x, Z.of_nat (length (PutUvarint x))).
Proof.
  intros Hx. unfold Uvarint, PutUvarint. pose proof (uvarint_put MaxVarintLen64 0 0 x rest) as H.
  change (7 * Z.of_nat 0)%Z with 0%Z in H. rewrite H by (unfold MaxVarintLen64; lia). by rewrite Z.lor_0_l, Z.shiftl_0_r.
Qed.

Lemma length_Put x : (1 ≤ length (PutUvarint x))%nat.
Proof. unfold PutUvarint. cbn. case_match; cbn; lia. Qed.

(** ** The reference: encoded messages *)

Inductive pfield :=
| FVarint (num value : Z)
| FFixed64 (num : Z) (l : list byte)
| FFixed32 (num : Z) (l : list byte)
| FBytes (num : Z) (l : list byte)
| FMessage (num : Z) (fields : list pfield).

Definition tagOf (num wire : Z) : list byte := PutUvarint (num * 8 + wire).
Definition lengthPrefixed (l : list byte) : list byte := PutUvarint (Z.of_nat (length l)) ++ l.

Fixpoint encodeField (f : pfield) : list byte :=
  match f with
  | FVarint num value => tagOf num wireVarint ++ PutUvarint value
  | FFixed64 num l => tagOf num wire64bit ++ l
  | FFixed32 num l => tagOf num wire32bit ++ l
  | FBytes num l => tagOf num wireBytes ++ lengthPrefixed l
  | FMessage num fields => tagOf num wireBytes ++ lengthPrefixed (concat (map encodeField fields))
  end.
Definition encodeFields (fields : list pfield) : list byte := concat (map encodeField fields).

Definition numOf (f : pfield) : Z :=
  match f with FVarint num _ | FFixed64 num _ | FFixed32 num _ | FBytes num _ | FMessage num _ => num end.
Definition descends (cfg : reportingField) : bool := IsMessage cfg || negb (bool_decide (length (Subfields cfg) = 0%nat)).

(** Encoded as the protobuf library does; a field whose own fields are asked for is a
    message. *)
Fixpoint wellFormed (config : list reportingField) (f : pfield) : Prop :=
  (0 < numOf f < 2 ^ 29)%Z ∧
  match f with
  | FVarint _ value => (0 ≤ value < 2 ^ 64)%Z
  | FFixed64 _ l => length l = 8%nat
  | FFixed32 _ l => length l = 4%nat
  | FBytes num _ => ∀ cfg, getConfigForField config num = Some cfg → descends cfg = false
  | FMessage num fields =>
      match getConfigForField config num with
      | Some cfg => if descends cfg then (fix go (fs : list pfield) : Prop := match fs with [] => True | f :: fs => wellFormed (Subfields cfg) f ∧ go fs end) fields else True
      | None => True
      end
  end.
Definition wellFormeds (config : list reportingField) : list pfield → Prop :=
  fix go (fs : list pfield) : Prop := match fs with [] => True | f :: fs => wellFormed config f ∧ go fs end.

Lemma wellFormed_num config f : wellFormed config f → (0 < numOf f < 2 ^ 29)%Z.
Proof. destruct f; by intros [? _]. Qed.

Section reference.
Context (sortFields : list tokenField → list tokenField).

(** What a field contributes: the fields that are asked for, in the order of their
    numbers on every level; a message without any is left out. *)
Fixpoint reported (config : list reportingField) (f : pfield) : list tokenField :=
  match getConfigForField config (numOf f) with
  | None => []
  | Some cfg =>
      match f with
      | FMessage num fields =>
          if descends cfg then
            match tokenOf sortFields (concat (map (reported (Subfields cfg)) fields)) with
            | [] => []
            | sub => [(num, tagOf num wireBytes ++ lengthPrefixed sub)]
            end
          else [(num, encodeField f)]
      | _ => [(numOf f, encodeField f)]
      end
  end.
Definition reportedContent (config : list reportingField) (fields : list pfield) : list byte :=
  tokenOf sortFields (concat (map (reported config) fields)).

Lemma config_num config num cfg : getConfigForField config num = Some cfg → FieldNumber cfg = num.
Proof. induction config as [|c config IH]; cbn; [done|]. case_decide; [by intros [= <-]|done]. Qed.

Lemma slice_mid pre mid rest :
  sliceOf (pre ++ mid ++ rest) (Z.of_nat (length pre)) (Z.of_nat (length pre) + Z.of_nat (length mid)) = Ok mid.
Proof.
  unfold sliceOf. rewrite decide_True by (rewrite !length_app; lia). f_equal. rewrite Nat2Z.id, drop_app_length.
  replace (Z.to_nat _) with (length mid) by lia. by rewrite take_app_length.
Qed.
Lemma slice_rest pre rest : sliceFrom (pre ++ rest) (Z.of_nat (length pre)) = Ok rest.
Proof.
  unfold sliceFrom. rewrite length_app. pose proof (slice_mid pre rest []) as H. rewrite app_nil_r in H. rewrite <- H. f_equal. lia.
Qed.

Lemma i64_small z : (- 2 ^ 63 ≤ z < 2 ^ 63)%Z → i64 z = z.
Proof. intros. unfold i64. rewrite Z.mod_small by lia. lia. Qed.

Definition wireOf (f : pfield) : Z :=
  match f with FVarint _ _ => wireVarint | FFixed64 _ _ => wire64bit | FFixed32 _ _ => wire32bit | FBytes _ _ | FMessage _ _ => wireBytes end.
Definition valueOf (f : pfield) : list byte :=
  match f with
  | FVarint _ value => PutUvarint value
  | FFixed64 _ l | FFixed32 _ l => l
  | FBytes _ l => lengthPrefixed l
  | FMessage _ fields => lengthPrefixed (encodeFields fields)
  end.
Lemma encodeField_split f : encodeField f = (tagOf (numOf f) (wireOf f) ++ valueOf f)%list.
Proof. by destruct f. Qed.

Lemma tag_parts num wire : (0 ≤ num)%Z → (0 ≤ wire < 8)%Z → Z.shiftr (num * 8 + wire) 3 = num ∧ Z.land (num * 8 + wire) 7 = wire.
Proof.
  intros. split.
  - rewrite Z.shiftr_div_pow2 by lia. change (2 ^ 3)%Z with 8%Z. rewrite Z.add_comm, Z.div_add by lia. rewrite Z.div_small by lia. lia.
  - change 7%Z with (Z.ones 3). rewrite Z.land_ones by lia. change (2 ^ 3)%Z with 8%Z. rewrite Z.add_comm, Z.mod_add by lia. by apply Z.mod_small.
Qed.

Lemma wireOf_range f : (0 ≤ wireOf f < 8)%Z.
Proof. destruct f; cbn; unfold wireVarint, wire64bit, wire32bit, wireBytes; lia. Qed.

(** A value that is not looked at is passed over. *)
Lemma skip_value config pre f rest :
  wellFormed config f → (Z.of_nat (length (pre ++ encodeField f ++ rest)) < 2 ^ 62)%Z →
  skipValue (pre ++ encodeField f ++ rest) (wireOf f) (Z.of_nat (length (pre ++ tagOf (numOf f) (wireOf f)))) =
  Ok (Some (Z.of_nat (length (pre ++ encodeField f)))).
Proof.
  intros Hf Hsize. rewrite encodeField_split in *. set (tag := tagOf _ _) in *.
  assert (pre ++ (tag ++ valueOf f) ++ rest = (pre ++ tag) ++ valueOf f ++ rest)%list as Hsplit by (by rewrite <- !app_assoc).
  rewrite Hsplit in *. rewrite !length_app in *.
  assert (∀ m l, valueOf f = lengthPrefixed l → m = Z.of_nat (length l) →
    Uvarint (valueOf f ++ rest) = (m, Z.of_nat (length (PutUvarint m)))) as Hlen.
  { intros m l Hl ->. rewrite Hl in *. unfold lengthPrefixed in *. rewrite <- app_assoc. apply Uvarint_Put. rewrite length_app in Hsize. lia. }
  unfold skipValue. rewrite <- (length_app pre tag). destruct f as [num value|num l|num l|num l|num fields]; destruct Hf as [_ Hf]; cbn [wireOf].
  - rewrite decide_True by done. rewrite slice_rest. cbn [mbind outcome_bind]. cbn [valueOf] in *. rewrite Uvarint_Put by done. cbn [snd].
    rewrite length_app, i64_small by lia. do 2 f_equal. lia.
  - rewrite decide_False, decide_True by done. cbn [valueOf] in *. rewrite length_app, i64_small by lia. do 2 f_equal. lia.
  - rewrite !decide_False, decide_True by done. cbn [valueOf] in *. rewrite length_app, i64_small by lia. do 2 f_equal. lia.
  - rewrite !decide_False, decide_True by done. rewrite slice_rest. cbn [mbind outcome_bind]. rewrite (Hlen _ l eq_refl eq_refl).
    cbn [valueOf] in *. unfold lengthPrefixed in *. rewrite (length_app (PutUvarint _)) in *. rewrite (i64_small (Z.of_nat (length l))) by lia. rewrite length_app, i64_small by lia. do 2 f_equal. lia.
  - rewrite !decide_False, decide_True by done. rewrite slice_rest. cbn [mbind outcome_bind]. rewrite (Hlen _ _ eq_refl eq_refl).
    cbn [valueOf] in *. unfold lengthPrefixed in *. rewrite (length_app (PutUvarint _)) in *. rewrite (i64_small (Z.of_nat (length _))) by lia. rewrite length_app, i64_small by lia. do 2 f_equal. lia.
Qed.

(** A value that is looked at becomes what its field contributes. *)
Lemma take_value rec config cfg pre f rest :
  wellFormed config f → getConfigForField config (numOf f) = Some cfg →
  (Z.of_nat (length (pre ++ encodeField f ++ rest)) < 2 ^ 62)%Z →
  (∀ num fields, f = FMessage num fields → descends cfg = true →
     rec (encodeFields fields) (Subfields cfg) = Ok (tokenOf sortFields (concat (map (reported (Subfields cfg)) fields)))) →
  takeValue rec (pre ++ encodeField f ++ rest) cfg (numOf f * 8 + wireOf f) (wireOf f) (Z.of_nat (length pre))
    (Z.of_nat (length (pre ++ tagOf (numOf f) (wireOf f)))) =
  Ok (Some (reported config f, Z.of_nat (length (pre ++ encodeField f)))).
Proof.
  intros Hf Hcfg Hsize Hrec. pose proof (config_num _ _ _ Hcfg) as Hnum. pose proof (skip_value config pre f rest Hf Hsize) as Hskip.
  assert (sliceOf (pre ++ encodeField f ++ rest) (Z.of_nat (length pre)) (Z.of_nat (length (pre ++ encodeField f))) = Ok (encodeField f)) as Hwhole.
  { rewrite length_app, Nat2Z.inj_add. apply slice_mid. }
  assert (∀ l, valueOf f = lengthPrefixed l →
    sliceFrom (pre ++ encodeField f ++ rest) (Z.of_nat (length (pre ++ tagOf (numOf f) (wireOf f)))) = Ok (lengthPrefixed l ++ rest) ∧
    Uvarint (lengthPrefixed l ++ rest) = (Z.of_nat (length l), Z.of_nat (length (PutUvarint (Z.of_nat (length l))))) ∧
    (let valStart := i64 (Z.of_nat (length (pre ++ tagOf (numOf f) (wireOf f))) + Z.of_nat (length (PutUvarint (Z.of_nat (length l))))) in
     i64 (valStart + i64 (Z.of_nat (length l))) = Z.of_nat (length (pre ++ encodeField f)) ∧
     sliceOf (pre ++ encodeField f ++ rest) valStart (Z.of_nat (length (pre ++ encodeField f))) = Ok l)) as Hbytes.
  { intros l Hl. rewrite encodeField_split, Hl in *. set (tag := tagOf _ _) in *. unfold lengthPrefixed in *.
    rewrite !length_app in Hsize.
    assert (pre ++ (tag ++ PutUvarint (Z.of_nat (length l)) ++ l) ++ rest = (pre ++ tag) ++ (PutUvarint (Z.of_nat (length l)) ++ l) ++ rest)%list as Hs1
      by (by rewrite <- !app_assoc).
    split; [rewrite Hs1; apply slice_rest|]. split; [rewrite <- app_assoc; apply Uvarint_Put; lia|]. cbn zeta.
    rewrite (i64_small (Z.of_nat (length l))) by lia. rewrite !length_app. rewrite (i64_small (Z.of_nat (length pre + length tag) + _)) by lia. split; [rewrite i64_small by lia; lia|].
    assert (pre ++ (tag ++ PutUvarint (Z.of_nat (length l)) ++ l) ++ rest = (pre ++ tag ++ PutUvarint (Z.of_nat (length l))) ++ l ++ rest)%list as ->
      by (by rewrite <- !app_assoc).
    rewrite <- (slice_mid (pre ++ tag ++ PutUvarint (Z.of_nat (length l))) l rest). f_equal; rewrite !length_app; lia. }
  cbn zeta in Hbytes. unfold takeValue. rewrite Hnum. destruct f as [num value|num l|num l|num l|num fields]; destruct Hf as [_ Hf]; cbn [wireOf numOf reported] in *; rewrite Hcfg.
  1-3: rewrite decide_False by done; rewrite Hskip; cbn [mbind outcome_bind]; by rewrite Hwhole.
  - rewrite decide_True by done. destruct (Hbytes l eq_refl) as (-> & Hu & Hend & _). cbn [mbind outcome_bind]. rewrite Hu.
    pose proof (Hf cfg Hcfg) as Hd. unfold descends in Hd. rewrite Hd. rewrite Hend, Hwhole. done.
  - rewrite decide_True by done. destruct (Hbytes _ eq_refl) as (-> & Hu & Hend & Hval). cbn [mbind outcome_bind]. rewrite Hu.
    rewrite Hend. fold (descends cfg). destruct (descends cfg) eqn:Hd.
    + rewrite Hval. cbn [mbind outcome_bind]. rewrite (Hrec num fields eq_refl eq_refl). cbn [mbind outcome_bind].
      destruct (tokenOf _ _) eqn:Ht; [done|]. by rewrite <- Ht.
    + by rewrite Hwhole.
Qed.

Lemma extract_fields fuel : ∀ config pre fields acc,
  wellFormeds config fields → (Z.of_nat (length (pre ++ encodeFields fields)) < 2 ^ 62)%Z →
  (length (encodeFields fields) < fuel)%nat →
  extractLoop sortFields fuel (pre ++ encodeFields fields) config (Z.of_nat (length pre)) acc =
  Ok (tokenOf sortFields (acc ++ concat (map (reported config) fields))).
Proof.
  induction fuel as [|fuel IH]; intros config pre fields acc Hw Hsize Hfuel; [lia|]. cbn [extractLoop].
  destruct fields as [|f fields].
  { unfold encodeFields. cbn [map concat]. rewrite app_nil_r. rewrite (proj2 (Z.leb_le _ _)) by lia. by rewrite app_nil_r. }
  destruct Hw as [Hf Hw]. change (encodeFields (f :: fields)) with (encodeField f ++ encodeFields fields) in *. cbn [map concat].
  assert (1 ≤ length (encodeField f))%nat as Hpos.
  { rewrite encodeField_split, length_app. pose proof (length_Put (numOf f * 8 + wireOf f)). unfold tagOf. lia. }
  rewrite !length_app in Hfuel. rewrite (proj2 (Z.leb_gt _ _)) by (rewrite !length_app; lia).
  rewrite slice_rest. cbn [mbind outcome_bind].
  pose proof (wireOf_range f) as Hwire. pose proof (wellFormed_num _ _ Hf) as Hnum.
  destruct (tag_parts (numOf f) (wireOf f)) as [Htn Htw]; [lia|done|].
  assert (Uvarint (encodeField f ++ encodeFields fields) = (numOf f * 8 + wireOf f, Z.of_nat (length (tagOf (numOf f) (wireOf f)))))%Z as ->.
  { rewrite encodeField_split, <- app_assoc. apply Uvarint_Put. lia. }
  pose proof (length_Put (numOf f * 8 + wireOf f)) as Hput. rewrite (proj2 (Z.leb_gt _ 0)) by (unfold tagOf; lia). rewrite Htn, Htw.
  assert (Z.of_nat (length pre) + Z.of_nat (length (tagOf (numOf f) (wireOf f))) = Z.of_nat (length (pre ++ tagOf (numOf f) (wireOf f))))%Z as ->
    by (rewrite length_app; lia).
  destruct (getConfigForField config (numOf f)) as [cfg|] eqn:Hcfg.
  - rewrite (take_value _ config cfg); [|done|done|done|].
    + cbn [mbind outcome_bind]. rewrite (app_assoc pre). rewrite IH; [by rewrite <- app_assoc|done|by rewrite <- app_assoc|lia].
    + intros num sub -> Hd. cbn [numOf] in *. destruct Hf as [_ Hf]. rewrite Hcfg, Hd in Hf. pose proof (IH (Subfields cfg) [] sub [] Hf) as Hsub. cbn [app] in Hsub.
      rewrite encodeField_split in Hsize, Hfuel. cbn [valueOf numOf wireOf] in *. unfold lengthPrefixed in *. rewrite !length_app in Hsize, Hfuel.
      repeat rewrite length_app in Hsize. pose proof (length_Put (num * 8 + wireBytes)). unfold tagOf in *. apply Hsub; lia.
  - assert (reported config f = []) as -> by (destruct f; cbn [reported numOf] in *; by rewrite Hcfg).
    rewrite (skip_value config) by done. cbn [mbind outcome_bind]. rewrite (app_assoc pre). rewrite IH; [done|done|by rewrite <- app_assoc|lia].
Qed.

End reference.

(** ** Sorting *)

Definition byNumber (a b : tokenField) : Prop := (a.1 ≤ b.1)%Z.
Class SortLaws (sortFields : list tokenField → list tokenField) : Prop := {
  sort_perm l : sortFields l ≡ₚ l;
  sort_sorted l : StronglySorted byNumber (sortFields l)
}.

(** The fields that are asked for have different numbers, on every level. *)
Definition asked (config : list reportingField) (fields : list pfield) : list Z :=
  List.filter (λ num, bool_decide (is_Some (getConfigForField config num))) (map numOf fields).
Fixpoint distinct (config : list reportingField) (f : pfield) : Prop :=
  match f with
  | FMessage num fields =>
      match getConfigForField config num with
      | Some cfg =>
          NoDup (asked (Subfields cfg) fields) ∧
          (fix go (fs : list pfield) : Prop := match fs with [] => True | f :: fs => distinct (Subfields cfg) f ∧ go fs end) fields
      | None => True
      end
  | _ => True
  end.
Definition distincts (config : list reportingField) : list pfield → Prop :=
  fix go (fs : list pfield) : Prop := match fs with [] => True | f :: fs => distinct config f ∧ go fs end.

Fixpoint pfield_size (f : pfield) : nat :=
  match f with
  | FMessage _ fields => S ((fix go (fs : list pfield) : nat := match fs with [] => 0%nat | f :: fs => (pfield_size f + go fs)%nat end) fields)
  | _ => 1%nat
  end.
Definition sizes : list pfield → nat :=
  fix go (fs : list pfield) : nat := match fs with [] => 0%nat | f :: fs => (pfield_size f + go fs)%nat end.

Section sorting.
Context (sort1 sort2 : list tokenField → list tokenField) `{!SortLaws sort1, !SortLaws sort2}.

Lemma sorts_agree l : NoDup l.*1 → sort1 l = sort2 l.
Proof.
  intros Hnd. apply (StronglySorted_unique_strong byNumber).
  - intros [n1 b1] [n2 b2] H1 H2 Hle Hge. unfold byNumber in *. cbn in *. assert (n1 = n2) as <- by lia. f_equal.
    rewrite (sort_perm (sortFields := sort1) l) in H1. rewrite (sort_perm (sortFields := sort2) l) in H2. apply list_elem_of_lookup in H1 as [i H1], H2 as [j H2].
    assert (i = j) as <-; [|congruence]. eapply (NoDup_lookup _ _ _ n1 Hnd); by rewrite list_lookup_fmap, ?H1, ?H2.
  - apply sort_sorted.
  - apply sort_sorted.
  - by rewrite !sort_perm.
Qed.

Lemma reported_nums sortFields config f : (reported sortFields config f).*1 `sublist_of` asked config [f].
Proof.
  unfold asked. cbn [map List.filter]. case_bool_decide as Hc.
  - assert (∀ x : tokenField, x.1 = numOf f → [x].*1 `sublist_of` [numOf f]) as Hone by (intros [n b] Hn; cbn in *; by subst).
    destruct f; cbn [reported numOf] in *; destruct (getConfigForField config _); try apply sublist_nil_l; try by apply Hone.
    destruct (descends _); [|by apply Hone]. destruct (tokenOf _ _); [apply sublist_nil_l|by apply Hone].
  - destruct f; cbn [reported numOf] in *; destruct (getConfigForField config _); try done; by destruct Hc; eexists.
Qed.

Lemma reporteds_nums sortFields config fields : (concat (map (reported sortFields config) fields)).*1 `sublist_of` asked config fields.
Proof.
  induction fields as [|f fields IH]; [done|]. cbn [map concat]. rewrite fmap_app.
  assert (asked config (f :: fields) = asked config [f] ++ asked config fields) as ->; [|by apply sublist_app, IH; apply reported_nums].
  unfold asked. cbn [map List.filter]. by case_bool_decide.
Qed.

Lemma reported_agree n : ∀ config fields, (sizes fields ≤ n)%nat → distincts config fields →
  concat (map (reported sort1 config) fields) = concat (map (reported sort2 config) fields).
Proof.
  induction n as [|n IH]; intros config fields Hn Hd; (destruct fields as [|f fields]; [done|]).
  { cbn in Hn. destruct f; cbn in Hn; lia. }
  destruct Hd as [Hf Hd]. cbn [map concat]. fold (distincts config) in Hd.
  assert (1 ≤ pfield_size f)%nat by (destruct f; cbn; lia). cbn in Hn. fold sizes in Hn. rewrite (IH config fields) by (done || lia). f_equal.
  destruct f as [| | | |num sub]; try done. cbn [reported numOf pfield_size distinct] in *. fold sizes in Hn. destruct (getConfigForField config num) as [cfg|]; [|done].
  destruct (descends cfg); [|done]. destruct Hf as [Hnd Hsub]. fold (distincts (Subfields cfg)) in Hsub.
  rewrite (IH (Subfields cfg) sub) by (done || lia). unfold tokenOf. rewrite sorts_agree; [done|]. eapply sublist_NoDup; [done|apply reporteds_nums].
Qed.
End sorting.

(** C25: the content of a reporting token of an encoded message is its reported
    fields: those the table asks for, on every level, in the order of their numbers,
    with the lengths of shortened submessages recomputed. The scan ends, does not
    panic, and passes over everything else. When the fields that are asked for have
    different numbers, the content is the same however equal numbers are sorted. *)
Theorem extractReportingTokenContent_spec (sortFields : list tokenField → list tokenField) (config : list reportingField) (fields : list pfield) :
  SortLaws sortFields → wellFormeds config fields → (Z.of_nat (length (encodeFields fields)) < 2 ^ 62)%Z →
  extractReportingTokenContent sortFields (encodeFields fields) config = Ok (reportedContent sortFields config fields) ∧
  (NoDup (asked config fields) → distincts config fields →
   ∀ sort', SortLaws sort' → reportedContent sort' config fields = reportedContent sortFields config fields).
Proof.
  intros Hsort Hw Hsize. split.
  - unfold extractReportingTokenContent. pose proof (extract_fields sortFields (S (length (encodeFields fields))) config [] fields [] Hw) as H.
    apply H; [done|lia].
  - intros Hnd Hd sort' Hsort'. unfold reportedContent, tokenOf. rewrite (reported_agree sort' sortFields (sizes fields)) by done.
    rewrite (sorts_agree sort' sortFields); [done|]. eapply sublist_NoDup; [done|apply reporteds_nums].
Qed.

(** ** A message, and two orders of equal numbers *)

#[export] Instance byNumber_dec a b : Decision (byNumber a b).
Proof. unfold byNumber. apply _. Defined.
#[export] Instance byNumber_total : Total byNumber.
Proof. intros a b. unfold byNumber. lia. Qed.
#[export] Instance byNumber_trans : Transitive byNumber.
Proof. intros a b c. unfold byNumber. lia. Qed.
#[export] Instance merge_sort_laws : SortLaws (merge_sort byNumber).
Proof. split; intros l; [apply merge_sort_Permutation|]. apply Sorted_StronglySorted, (Sorted_merge_sort _); apply _. Qed.
#[export] Instance merge_sort_rev_laws : SortLaws (λ l, merge_sort byNumber (rev l)).
Proof. split; intros l; [by rewrite merge_sort_Permutation, reverse_Permutation || by rewrite merge_sort_Permutation, <- Permutation_rev|]. apply Sorted_StronglySorted, (Sorted_merge_sort _); apply _. Qed.

(** An image with a caption, a key that is not reported, and quoted text. *)
Definition imageMessage : list pfield :=
  [FMessage 3 [FVarint 7 300; FBytes 3 [x68; x69]; FMessage 17 [FVarint 22 1; FBytes 30 [x00]; FBytes 21 [x71]]]; FBytes 1 [x61]; FFixed64 90 (replicate 8 x00)].

Lemma extractReportingTokenContent_spec_witness :
  extractReportingTokenContent (merge_sort byNumber) (encodeFields imageMessage) getReportingFields =
  Ok (encodeFields [FBytes 1 [x61]; FMessage 3 [FBytes 3 [x68; x69]; FMessage 17 [FBytes 21 [x71]; FVarint 22 1]]]).
Proof.
  destruct (extractReportingTokenContent_spec (merge_sort byNumber) getReportingFields imageMessage _) as [-> _].
  - cbn. repeat split; try lia; intros cfg [= <-]; reflexivity.
  - vm_compute. reflexivity.
  - vm_compute. reflexivity.
Defined.

(** Repeated fields with equal numbers: two orders [sort.Slice] may leave them in. *)
Example equal_numbers_reorder :
  let fields := [FBytes 5 [x61]; FBytes 5 [x62]] in
  let config := [mkField 5 false []] in
  reportedContent (merge_sort byNumber) config fields ≠ reportedContent (λ l, merge_sort byNumber (rev l)) config fields.
Proof. vm_compute. discriminate. Qed.

(** A message that is looked into, but of which no field is asked for, is left out. *)
Example message_without_subfields_is_dropped :
  extractReportingTokenContent (merge_sort byNumber) (encodeFields [FMessage 37 [FMessage 1 [FBytes 1 [x61]]]]) getReportingFields = Ok [].
Proof. vm_compute. reflexivity. Qed.
