(* ===== verification/TcToken.v ===== *)
(** Trusted contact tokens (src/tctoken.go, src/cstoken.go): the table of privacy
    tokens and the salt they are kept with (src/store/sqlstore/store.go), when a token is
    sent, expires and is issued anew. *)
From Stdlib Require Import ZArith Lia.
From Stdlib Require Import Strings.Byte.
From stdpp Require Import prelude gmap strings list fin_maps.
From S2P Require Import Prelude Jid Cache Cbc Sql SignalStore LidMap LidMapSpec MsgSecret Client.

#[local] Open Scope string_scope.

(** ** The tables *)

(** Times are Unix times in seconds; the zero time of a sender is NULL. *)
Record tokenRow := mkTokenRow { rowToken : list byte; rowTime : Z; rowSender : option Z }.
Record PrivacyToken := mkToken { tkUser : JID; tkToken : list byte; tkTimestamp : Z; SenderTimestamp : option Z }.

(** [tokenLids]: phone number of a LID, from the LID map's table. *)
Record tokenTables := mkTokenTables {
  tokenRows : gmap string tokenRow;
  tokenLids : gmap string string;
  nctSalt : option (list byte)
}.
Abbreviation tokenM := (dbM tokenTables).

Definition setTokenRows (f : gmap string tokenRow → gmap string tokenRow) (t : tokenTables) : tokenTables :=
  mkTokenTables (f (tokenRows t)) (tokenLids t) (nctSalt t).
Definition setSalt (salt : option (list byte)) (t : tokenTables) : tokenTables := mkTokenTables (tokenRows t) (tokenLids t) salt.

Section table.
(** [newestRow]: which of the rows with the newest time the query returns. *)
Context (sqlite : bool) (newestRow : list tokenRow → option tokenRow).

Definition tokenKey (j : JID) : string := JIDString (ToNonAD j).

(** The insert with its conflict clause. *)
Definition upsertToken (x : PrivacyToken) (rows : gmap string tokenRow) : gmap string tokenRow :=
  match rows !! tokenKey (tkUser x) with
  | None => <[tokenKey (tkUser x) := mkTokenRow (tkToken x) (tkTimestamp x) (SenderTimestamp x)]> rows
  | Some row =>
      if (rowTime row <=? tkTimestamp x)%Z then
        <[tokenKey (tkUser x) := mkTokenRow (tkToken x) (tkTimestamp x)
            (match SenderTimestamp x with Some s => Some s | None => rowSender row end)]> rows
      else rows
  end.

(** One statement for all of them. Without any it is no SQL, and PostgreSQL refuses to
    update a row twice in it. *)
Definition PutPrivacyTokens (tokens : list PrivacyToken) : tokenM unit :=
  stmt (λ t,
    if decide (tokens = []) then Err DriverFailed
    else if negb sqlite && negb (bool_decide (NoDup (tokenKey ∘ tkUser <$> tokens))) then Err ConstraintFailed
    else Ok (tt, setTokenRows (λ rows, foldl (λ rows x, upsertToken x rows) rows tokens) t)).

(** The rows under both addresses of a user. *)
Definition tokenMatches (t : tokenTables) (user : string) : list tokenRow :=
  omap (λ row : string * tokenRow, if decide (row.1 = user ∨ alternate sqlite (tokenLids t) user = Some row.1) then Some row.2 else None)
    (map_to_list (tokenRows t)).

Definition GetPrivacyToken (user : JID) : tokenM (option PrivacyToken) :=
  select (λ t,
    user' ← jidText (ToNonAD user);
    row ← newestRow (tokenMatches t user');
    Some (mkToken (ToNonAD user) (rowToken row) (rowTime row) (rowSender row))).

Definition PutNCTSalt (salt : list byte) : tokenM unit := update (setSalt (Some salt)).
Definition GetNCTSalt : tokenM (option (list byte)) := select nctSalt.
Definition DeleteNCTSalt : tokenM unit := update (setSalt None).

Definition DeleteExpiredPrivacyTokens (cutoff : Z) : tokenM Z :=
  stmt (λ t,
    let kept := filter (λ row, (cutoff <= rowTime row.2)%Z) (tokenRows t) in
    Ok (Z.of_nat (base.size (tokenRows t) - base.size kept), setTokenRows (λ _, kept) t)).
End table.

(** ** Buckets *)

Definition tcTokenBucketDuration : Z := 604800.
Definition tcTokenNumBuckets : Z := 4.
Definition tcTokenDBPruneInterval : Z := 24 * 3600.
Definition maxTCTokenSenderEntries : nat := 2048.

Definition currentTCTokenCutoffTimestamp (now : Z) : Z :=
  (Z.quot now tcTokenBucketDuration - (tcTokenNumBuckets - 1)) * tcTokenBucketDuration.

(** Asked of times of rows, which are never the zero time. *)
Definition isTCTokenExpired (now timestamp : Z) : bool := (timestamp <? currentTCTokenCutoffTimestamp now)%Z.

Definition shouldSendNewTCToken (now : Z) (senderTimestamp : option Z) : bool :=
  match senderTimestamp with
  | None => true
  | Some s => (Z.quot s tcTokenBucketDuration <? Z.quot now tcTokenBucketDuration)%Z
  end.

Definition PSAUser : string := "0".
Definition shouldSendTCTokenInChatAction (jid : JID) : bool :=
  let jid := ToNonAD jid in
  bool_decide (Server jid = DefaultUserServer ∨ Server jid = HiddenUserServer) && negb (bool_decide (User jid = PSAUser)) && negb (IsBot jid).
Definition shouldSendCsToken : JID → bool := shouldSendTCTokenInChatAction.

(** ** The client's part *)

Record tcClient := mkTc {
  tcDB : database tokenTables;
  tcLids : CachedLIDMap;
  tcTokenSenderTS : gmap JID Z;
  lastTCTokenSenderTSCleanup : option Z;
  lastTCTokenDBPrune : option Z;
  tcTokenDBPruneLock : bool
}.

Inductive tcError := TcNotLoggedIn | TcDB (e : dbError) | TcLid (e : lidError) | IssueFailed.
Abbreviation tcM := (stateM tcClient tcError).

Definition setTcDB (d : database tokenTables) (c : tcClient) : tcClient :=
  mkTc d (tcLids c) (tcTokenSenderTS c) (lastTCTokenSenderTSCleanup c) (lastTCTokenDBPrune c) (tcTokenDBPruneLock c).
Definition setTcLids (l : CachedLIDMap) (c : tcClient) : tcClient :=
  mkTc (tcDB c) l (tcTokenSenderTS c) (lastTCTokenSenderTSCleanup c) (lastTCTokenDBPrune c) (tcTokenDBPruneLock c).
Definition setSenderTS (m : gmap JID Z) (cleanup : option Z) (c : tcClient) : tcClient :=
  mkTc (tcDB c) (tcLids c) m cleanup (lastTCTokenDBPrune c) (tcTokenDBPruneLock c).
Definition setPrune (last : option Z) (lock : bool) (c : tcClient) : tcClient :=
  mkTc (tcDB c) (tcLids c) (tcTokenSenderTS c) (lastTCTokenSenderTSCleanup c) last lock.

Definition onTokens {A} (m : tokenM A) : tcM A := zoom tcDB setTcDB TcDB m.
(** A call whose error is logged. *)
Definition tryTc {A} (m : tcM A) : tcM (tcError + A) := try m.
Definition onTcLids {A} (m : lidM A) : tcM A := zoom tcLids setTcLids TcLid m.

Section client.
Context `{Crypto} (sqlite : bool) (newestRow : list tokenRow → option tokenRow) (lids : lidEnv).
(** [firstKey]: the entry an iteration over a map meets first; [now]: the clock. *)
Context (firstKey : gmap JID Z → option JID) (now : Z).

(** [time.Since] of a time that may be the zero time. *)
Definition elapsed (last : option Z) (interval : Z) : bool :=
  match last with None => true | Some t => (interval <=? now - t)%Z end.

Definition resolveTCTokenStorageLID (jid : JID) : tcM JID :=
  let storageJID := ToNonAD jid in
  if decide (Server storageJID ≠ DefaultUserServer) then mret storageJID
  else
    lid ← tryTc (onTcLids (lidOf lids storageJID));
    mret (match lid with
          | inr lid => if IsEmpty lid then storageJID else ToNonAD lid
          | inl _ => storageJID
          end).

Definition getTCTokenSenderTS (jid : JID) (c : tcClient) : option Z := tcTokenSenderTS c !! ToNonAD jid.

Definition unlockedCleanupTCTokenSenderTSMap (c : tcClient) : tcClient :=
  if elapsed (lastTCTokenSenderTSCleanup c) tcTokenBucketDuration then
    setSenderTS (filter (λ e, (currentTCTokenCutoffTimestamp now <= e.2)%Z) (tcTokenSenderTS c)) (Some now) c
  else c.

Definition putSenderTS (key : JID) (ts : Z) (c : tcClient) : tcClient :=
  let c := unlockedCleanupTCTokenSenderTSMap c in
  setSenderTS (putBoundedCache firstKey (tcTokenSenderTS c) key ts maxTCTokenSenderEntries) (lastTCTokenSenderTSCleanup c) c.

Definition validateAndSetTCTokenSenderTS (jid : JID) (storedSenderTimestamp : option Z) (c : tcClient) : bool * tcClient :=
  let key := ToNonAD jid in
  match tcTokenSenderTS c !! key with
  | Some _ => (true, c)
  | None =>
      match storedSenderTimestamp with
      | Some ts => if isTCTokenExpired now ts then (false, c) else (true, putSenderTS key ts c)
      | None => (false, c)
      end
  end.
Definition setTCTokenSenderTS (jid : JID) (ts : Z) : tcClient → tcClient := putSenderTS (ToNonAD jid) ts.

(** Whether the goroutine that deletes was started: it has the lock then. *)
Definition deleteExpiredPrivacyTokens (c : tcClient) : bool * tcClient :=
  if tcTokenDBPruneLock c then (false, c)
  else if elapsed (lastTCTokenDBPrune c) tcTokenDBPruneInterval then (true, setPrune (Some now) true c)
  else (false, c).
Definition pruneGoroutine : tcM unit :=
  _ ← tryTc (onTokens (DeleteExpiredPrivacyTokens (currentTCTokenCutoffTimestamp now)));
  modify (λ c, setPrune (lastTCTokenDBPrune c) false c).

Definition ensureTCToken (ownID jid : JID) : tcM (option (list byte)) :=
  if IsEmpty ownID then throw TcNotLoggedIn
  else
    _ ← modify (λ c, (deleteExpiredPrivacyTokens c).2);
    storageJID ← resolveTCTokenStorageLID jid;
    existing ← onTokens (GetPrivacyToken sqlite newestRow storageJID);
    match existing with
    | None => mret None
    | Some existing =>
        _ ← modify (λ c, (validateAndSetTCTokenSenderTS storageJID (SenderTimestamp existing) c).2);
        mret (if negb (bool_decide (tkToken existing = [])) && negb (isTCTokenExpired now (tkTimestamp existing))
              then Some (tkToken existing) else None)
    end.

(** [issued]: whether the server answered [issuePrivacyToken] with a result. *)
Definition issuePrivacyTokenAndSave (issued : bool) (jid : JID) (senderTimestamp : Z) : tcM unit :=
  let storageJID := ToNonAD jid in
  if negb issued then throw IssueFailed
  else
    _ ← modify (setTCTokenSenderTS storageJID senderTimestamp);
    existing ← onTokens (GetPrivacyToken sqlite newestRow storageJID);
    match existing with
    | Some existing =>
        if decide (tkToken existing = []) then mret tt
        else onTokens (PutPrivacyTokens sqlite [mkToken (tkUser existing) (tkToken existing) (tkTimestamp existing) (Some senderTimestamp)])
    | None => mret tt
    end.

(** ** Tokens of the salt *)

Definition generateCsToken (jid : JID) : tcM (option (list byte)) :=
  if negb (shouldSendCsToken jid) then mret None
  else
    salt ← tryTc (onTokens GetNCTSalt);
    match salt with
    | inl _ => mret None
    | inr salt =>
        match salt with
        | None | Some [] => mret None
        | Some salt =>
            let token (recipientLID : JID) : option (list byte) :=
              if decide (Server recipientLID = HiddenUserServer) then Some (hmacSha256 salt (s2b (JIDString recipientLID))) else None in
            if decide (Server jid = HiddenUserServer) then mret (token (ToNonAD jid))
            else if decide (Server jid = DefaultUserServer) then
              lid ← tryTc (onTcLids (lidOf lids (ToNonAD jid)));
              mret (match lid with
                    | inl _ => None
                    | inr lid => if IsEmpty lid then None else token (ToNonAD lid)
                    end)
            else mret None
        end
    end.
End client.

(** * Properties *)

(** The query orders by time and takes the first row. *)
Class NewestLaws (newestRow : list tokenRow → option tokenRow) : Prop := {
  newest_in l r : newestRow l = Some r → r ∈ l ∧ ∀ r', r' ∈ l → (rowTime r' ≤ rowTime r)%Z;
  newest_none l : newestRow l = None → l = []
}.

Section theory.
Context `{Crypto} (sqlite : bool) (newestRow : list tokenRow → option tokenRow) `{!NewestLaws newestRow} (lids : lidEnv).
Context (firstKey : gmap JID Z → option JID).

(** Tokens put one after the other into rows that were empty. *)
Definition putAll (l : list PrivacyToken) : gmap string tokenRow := foldl (λ rows x, upsertToken x rows) ∅ l.
Definition newestOf (l : list PrivacyToken) (user : string) (x : PrivacyToken) : Prop :=
  x ∈ l ∧ tokenKey (tkUser x) = user ∧ ∀ y, y ∈ l → tokenKey (tkUser y) = user → (tkTimestamp y ≤ tkTimestamp x)%Z.

Lemma putAll_newest l user :
  match putAll l !! user with
  | Some row => ∃ x, newestOf l user x ∧ rowToken row = tkToken x ∧ rowTime row = tkTimestamp x
  | None => ∀ x, x ∈ l → tokenKey (tkUser x) ≠ user
  end.
Proof.
  induction l as [|x l IH] using rev_ind; [unfold putAll; cbn [foldl]; rewrite lookup_empty; by intros x Hx%not_elem_of_nil|].
  unfold putAll. rewrite foldl_app. cbn [foldl]. fold (putAll l). unfold upsertToken.
  destruct (decide (tokenKey (tkUser x) = user)) as [Hk|Hk].
  - rewrite Hk. destruct (putAll l !! user) as [row|] eqn:Hrow.
    + destruct IH as (y & (Hy & Hyk & Hmax) & Hyt & Hyts). destruct (Z.leb_spec (rowTime row) (tkTimestamp x)) as [Hle|Hgt].
      * rewrite lookup_insert_eq. exists x. split; [|done]. split; [set_solver|]. split; [done|].
        intros z [Hz| ->%list_elem_of_singleton]%elem_of_app Hzk; [|lia]. specialize (Hmax z Hz Hzk). lia.
      * rewrite Hrow. exists y. split; [|done]. split; [set_solver|]. split; [done|].
        intros z [Hz| ->%list_elem_of_singleton]%elem_of_app Hzk; [by apply Hmax|]. lia.
    + rewrite lookup_insert_eq. exists x. split; [|done]. split; [set_solver|]. split; [done|].
      intros z [Hz| ->%list_elem_of_singleton]%elem_of_app Hzk; [by destruct (IH z Hz Hzk)|lia].
  - assert (∀ v, (<[tokenKey (tkUser x) := v]> (putAll l)) !! user = putAll l !! user) as Hne by (intros v; by rewrite lookup_insert_ne).
    assert ((match putAll l !! tokenKey (tkUser x) with
      | Some row => if (rowTime row <=? tkTimestamp x)%Z then <[tokenKey (tkUser x) := mkTokenRow (tkToken x) (tkTimestamp x)
          (match SenderTimestamp x with Some s => Some s | None => rowSender row end)]> (putAll l) else putAll l
      | None => <[tokenKey (tkUser x) := mkTokenRow (tkToken x) (tkTimestamp x) (SenderTimestamp x)]> (putAll l)
      end) !! user = putAll l !! user) as Heq by (destruct (putAll l !! tokenKey (tkUser x)); [destruct (_ <=? _)%Z|]; rewrite ?Hne; done).
    revert IH. rewrite <- Heq. match goal with |- context [?m !! user] => destruct (m !! user) as [row|] end.
    + intros (y & (Hy & Hyk & Hmax) & Hyt). exists y. split; [|done]. split; [set_solver|]. split; [done|].
      intros z [Hz| ->%list_elem_of_singleton]%elem_of_app Hzk; [by apply Hmax|done].
    + intros IH z [Hz| ->%list_elem_of_singleton]%elem_of_app; [by apply IH|done].
Qed.

Lemma cutoff_window now : (0 ≤ now)%Z →
  (now - 4 * tcTokenBucketDuration < currentTCTokenCutoffTimestamp now ≤ now - 3 * tcTokenBucketDuration)%Z.
Proof.
  intros Hn. unfold currentTCTokenCutoffTimestamp, tcTokenBucketDuration, tcTokenNumBuckets. rewrite Z.quot_div_nonneg by lia.
  pose proof (Z.div_mod now 604800). pose proof (Z.mod_pos_bound now 604800). lia.
Qed.

(** The tokens put for a user under either address. *)
Definition tokensOf (t : tokenTables) (l : list PrivacyToken) (user : string) (x : PrivacyToken) : Prop :=
  x ∈ l ∧ (tokenKey (tkUser x) = user ∨ alternate sqlite (tokenLids t) user = Some (tokenKey (tkUser x))).

Lemma tokenMatches_elem t user r : r ∈ tokenMatches sqlite t user ↔
  ∃ k, tokenRows t !! k = Some r ∧ (k = user ∨ alternate sqlite (tokenLids t) user = Some k).
Proof.
  unfold tokenMatches. rewrite list_elem_of_omap. split.
  - intros ([k r'] & Hin%elem_of_map_to_list & Hr). cbn in Hr. case_decide; [|done]. injection Hr as <-. by exists k.
  - intros (k & Hk & Hor). exists (k, r). split; [by apply elem_of_map_to_list|]. cbn. by rewrite decide_True.
Qed.

Lemma tokensOf_rows t l user : tokenRows t = putAll l →
  (∀ r, r ∈ tokenMatches sqlite t user → ∃ x, tokensOf t l user x ∧ rowToken r = tkToken x ∧ rowTime r = tkTimestamp x) ∧
  (∀ x, tokensOf t l user x → ∃ r, r ∈ tokenMatches sqlite t user ∧ (tkTimestamp x ≤ rowTime r)%Z).
Proof.
  intros Ht. split.
  - intros r (k & Hk & Hor)%tokenMatches_elem. rewrite Ht in Hk. pose proof (putAll_newest l k) as Hn. rewrite Hk in Hn.
    destruct Hn as (x & (Hx & <- & _) & Heq). by exists x.
  - intros x [Hx Hor]. pose proof (putAll_newest l (tokenKey (tkUser x))) as Hn. destruct (putAll l !! _) as [r|] eqn:Hk; [|by destruct (Hn x Hx)].
    exists r. split; [apply tokenMatches_elem; exists (tokenKey (tkUser x)); by rewrite Ht|].
    destruct Hn as (y & (_ & _ & Hmax) & _ & ->). by apply Hmax.
Qed.

Lemma resolve_db jid c r c' : resolveTCTokenStorageLID lids jid c = (r, c') → content (tcDB c') = content (tcDB c).
Proof.
  unfold resolveTCTokenStorageLID. case_decide; [by intros [= <- <-]|]. unfold mbind, stateM_bind, tryTc, try, onTcLids, zoom.
  destruct (lidOf lids (ToNonAD jid) (tcLids c)) as [[j|e| |] s]; cbn; by intros [= <- <-].
Qed.

(** C26: however tokens were put into an empty table, the token that is sent
    to a user is the newest that was put under either address of the user: it is not
    empty and less than 28 days old. When none is sent although the lookup worked, there
    is none, or a newest one is empty or more than 21 days old. *)
Theorem ensureTCToken_newest (now : Z) (ownID jid : JID) (l : list PrivacyToken) (c c' : tcClient) (r : option (list byte)) :
  (0 ≤ now)%Z → tokenRows (content (tcDB c)) = putAll l →
  ensureTCToken sqlite newestRow lids firstKey now ownID jid c = (Ok r, c') →
  let mine user := tokensOf (content (tcDB c)) l user in
  ∃ storageJID c1, resolveTCTokenStorageLID lids jid (deleteExpiredPrivacyTokens now c).2 = (Ok storageJID, c1) ∧
  ∀ user, jidText (ToNonAD storageJID) = Some user →
  match r with
  | Some token =>
      ∃ x, mine user x ∧ tkToken x = token ∧ token ≠ [] ∧ (now - tkTimestamp x < 28 * 24 * 3600)%Z ∧
        ∀ y, mine user y → (tkTimestamp y ≤ tkTimestamp x)%Z
  | None =>
      (∀ x, ¬ mine user x) ∨
      ∃ x, mine user x ∧ (∀ y, mine user y → (tkTimestamp y ≤ tkTimestamp x)%Z) ∧
        (tkToken x = [] ∨ (21 * 24 * 3600 < now - tkTimestamp x)%Z)
  end.
Proof.
  intros Hnow Hput Hrun mine. unfold ensureTCToken in Hrun. destruct (IsEmpty ownID); [discriminate Hrun|].
  apply stateM_bind_Ok in Hrun as ([] & c0 & [= <-] & Hrun).
  apply stateM_bind_Ok in Hrun as (storageJID & c1 & Hres & Hrun). exists storageJID, c1. split; [done|]. intros user Huser.
  assert (content (tcDB c1) = content (tcDB c)) as Hdb.
  { rewrite (resolve_db _ _ _ _ Hres). unfold deleteExpiredPrivacyTokens. by repeat case_match. }
  apply stateM_bind_Ok in Hrun as (existing & c2 & Hget & Hrun).
  assert (existing = row ← newestRow (tokenMatches sqlite (content (tcDB c)) user); Some (mkToken (ToNonAD storageJID) (rowToken row) (rowTime row) (rowSender row))) as Hex.
  { unfold onTokens, zoom in Hget. destruct (GetPrivacyToken sqlite newestRow storageJID (tcDB c1)) as [r0 d] eqn:Hq. destruct r0 as [x| | |]; try discriminate Hget.
    injection Hget as <- <-. apply select_Ok in Hq as [-> _]. rewrite Hdb, Huser. done. }
  destruct (tokensOf_rows _ l user Hput) as [Hrows Htoks].
  destruct (newestRow (tokenMatches sqlite (content (tcDB c)) user)) as [row|] eqn:Hnew; cbn in Hex; subst existing.
  - apply newest_in in Hnew as [Hin Hmax]. destruct (Hrows row Hin) as (x & Hx & Htok & Htime).
    assert (∀ y, mine user y → (tkTimestamp y ≤ tkTimestamp x)%Z) as Hall.
    { intros y Hy. destruct (Htoks y Hy) as (r' & Hr' & Hle). specialize (Hmax r' Hr'). lia. }
    apply stateM_bind_Ok in Hrun as ([] & c3 & _ & Hrun). injection Hrun as <- _. cbn [tkToken tkTimestamp].
    pose proof (cutoff_window now Hnow) as Hwin. unfold isTCTokenExpired, tcTokenBucketDuration in *.
    case_bool_decide as Hempty; cbn [negb andb].
    + right. exists x. split_and!; [done..|]. left. congruence.
    + destruct (Z.ltb_spec (rowTime row) (currentTCTokenCutoffTimestamp now)); cbn [negb].
      * right. exists x. split_and!; [done..|]. right. lia.
      * exists x. split_and!; [done|congruence|done|lia|done].
  - injection Hrun as <- _. left. intros x Hx. destruct (Htoks x Hx) as (r' & Hr' & _). apply newest_none in Hnew. rewrite Hnew in Hr'. by apply not_elem_of_nil in Hr'.
Qed.

(** A token survives a put of an older one, and the time it was last issued survives
    every put that does not bring a time. *)
Lemma upsertToken_keeps x rows row : rows !! tokenKey (tkUser x) = Some row →
  ∃ row', upsertToken x rows !! tokenKey (tkUser x) = Some row' ∧ (rowTime row ≤ rowTime row')%Z ∧
    ((tkTimestamp x < rowTime row)%Z → row' = row) ∧ (SenderTimestamp x = None → rowSender row' = rowSender row).
Proof.
  intros Hrow. unfold upsertToken. rewrite Hrow. destruct (Z.leb_spec (rowTime row) (tkTimestamp x)).
  - eexists. split; [apply lookup_insert_eq|]. cbn. split_and!; [lia|lia|]. by intros ->.
  - exists row. by split_and!.
Qed.
End theory.

(** ** A run *)

Fixpoint newestOfRows (l : list tokenRow) : option tokenRow :=
  match l with
  | [] => None
  | r :: l => match newestOfRows l with Some r' => if (rowTime r <? rowTime r')%Z then Some r' else Some r | None => Some r end
  end.
#[export] Instance newestOfRows_laws : NewestLaws newestOfRows.
Proof.
  split.
  - induction l as [|r0 l IH]; [done|]. cbn. destruct (newestOfRows l) as [r'|] eqn:Hl.
    + intros r. destruct (IH r' eq_refl) as [Hin Hmax]. destruct (Z.ltb_spec (rowTime r0) (rowTime r')); intros [= <-].
      * split; [by right|]. intros r1 [-> |Hr1]%elem_of_cons; [lia|by apply Hmax].
      * split; [by left|]. intros r1 [-> |Hr1]%elem_of_cons; [lia|]. specialize (Hmax r1 Hr1). lia.
    + intros r [= <-]. assert (l = []) as ->; [|split; [by left|]; intros r1 ->%list_elem_of_singleton; lia].
      clear -Hl. destruct l as [|r1 l]; [done|]. cbn in Hl. by repeat case_match.
  - intros [|r l]; [done|]. cbn. by repeat case_match.
Qed.

Definition toyLids : lidEnv := mkEnv (λ _, None) map_to_list false id.
#[local] Existing Instance toyCrypto.
Definition contactLID : JID := NewJID "11" HiddenUserServer.
Definition tokensPut : list PrivacyToken :=
  [mkToken contactLID [x01] 1000000 None; mkToken contactLID [x02] 1700000 (Some 5%Z); mkToken contactLID [x03] 1600000 None].
Definition tokenClient : tcClient :=
  mkTc (mkDatabase (mkTokenTables (putAll tokensPut) ∅ None) []) (NewCachedLIDMap ∅ []) ∅ None None false.

Lemma ensureTCToken_newest_witness :
  ∃ x, tokensOf true (content (tcDB tokenClient)) tokensPut "11@lid" x ∧ tkToken x = [x02] ∧ [x02] ≠ [] ∧
    (2000000 - tkTimestamp x < 28 * 24 * 3600)%Z ∧
    ∀ y, tokensOf true (content (tcDB tokenClient)) tokensPut "11@lid" y → (tkTimestamp y ≤ tkTimestamp x)%Z.
Proof.
  destruct (ensureTCToken true newestOfRows toyLids (λ _, None) 2000000 contactLID contactLID tokenClient) as [r c'] eqn:Hrun.
  assert (r = Ok (Some [x02])) as -> by (change r with (r, c').1; rewrite <- Hrun; vm_compute; reflexivity).
  destruct (ensureTCToken_newest true newestOfRows toyLids (λ _, None) 2000000 contactLID contactLID tokensPut tokenClient c' (Some [x02]) ltac:(lia) eq_refl Hrun)
    as (s & c1 & Hs & H).
  assert (s = contactLID) as -> by (vm_compute in Hs; by injection Hs as <-).
  exact (H "11@lid" eq_refl).
Defined.
