(* ===== verification/ChatSettings.v ===== *)
(** The settings of chats (src/store/sqlstore/store.go): one row per chat, whose
    columns are set one at a time. *)
From Stdlib Require Import ZArith Lia.
From stdpp Require Import prelude gmap strings list fin_maps.
From S2P Require Import Prelude Jid Sql MsgSecret AppStateDispatch.

#[local] Open Scope string_scope.

Record settingRow := mkSetting { muted_until : Z; pinned : bool; archived : bool; wasa_root_secret_id : string }.
Abbreviation settingTables := (gmap string settingRow).
Abbreviation settingM := (stateM (database settingTables) dbError).
(** The defaults of the columns. *)
Definition defaultSetting : settingRow := mkSetting 0 false false "".

Record LocalChatSettings := mkSettings { Found : bool; lcsMutedUntil : mutedUntil; Pinned : bool; Archived : bool }.

Section settings.
Context (sqlite : bool).

(** An address without text is no key in PostgreSQL; in SQLite it gives a row that no
    query finds. *)
Definition putChatSettingQuery (chat : JID) (f : settingRow → settingRow) : settingM unit :=
  stmt (λ t, match jidText chat with
             | Some key => Ok (tt, <[key := f (default defaultSetting (t !! key))]> t)
             | None => if sqlite then Ok (tt, t) else Err ConstraintFailed
             end).
Definition settingOf (chat : JID) (t : settingTables) : option settingRow := jidText chat ≫= λ key, t !! key.

(** In seconds; 0 for a chat that is not muted. *)
Definition mutedColumn (until : mutedUntil) : Z :=
  match until with NotMuted => 0 | MutedForever => -1 | MutedUntil ms => ms / 1000 end.
Definition mutedOf (column : Z) : mutedUntil :=
  if (column <? 0)%Z then MutedForever else if (0 <? column)%Z then MutedUntil (column * 1000) else NotMuted.

Definition PutMutedUntil (chat : JID) (until : mutedUntil) : settingM unit :=
  putChatSettingQuery chat (λ r, mkSetting (mutedColumn until) (pinned r) (archived r) (wasa_root_secret_id r)).
Definition PutPinned (chat : JID) (b : bool) : settingM unit :=
  putChatSettingQuery chat (λ r, mkSetting (muted_until r) b (archived r) (wasa_root_secret_id r)).
Definition PutArchived (chat : JID) (b : bool) : settingM unit :=
  putChatSettingQuery chat (λ r, mkSetting (muted_until r) (pinned r) b (wasa_root_secret_id r)).
Definition PutWASARootSecretID (chat : JID) (id : string) : settingM unit :=
  putChatSettingQuery chat (λ r, mkSetting (muted_until r) (pinned r) (archived r) id).

Definition GetWASARootSecretID (chat : JID) : settingM string :=
  select (λ t, match settingOf chat t with Some r => wasa_root_secret_id r | None => "" end).
Definition GetChatSettings (chat : JID) : settingM LocalChatSettings :=
  select (λ t, match settingOf chat t with
               | Some r => mkSettings true (mutedOf (muted_until r)) (pinned r) (archived r)
               | None => mkSettings false NotMuted false false
               end).

(** ** What is set is read, and the other columns stay *)

Definition settingsAt (chat : JID) (t : settingTables) : settingRow := default defaultSetting (settingOf chat t).

Lemma putChatSetting_reads chat chat' f d d' :
  jidText chat ≠ None → putChatSettingQuery chat f d = (Ok tt, d') →
  settingsAt chat' (content d') = if decide (jidText chat' = jidText chat) then f (settingsAt chat (content d)) else settingsAt chat' (content d).
Proof.
  intros Hc [H _]%stmt_Ok. unfold settingsAt, settingOf. destruct (jidText chat) as [key|]; [|done]. injection H as Heq.
  rewrite <- Heq. destruct (jidText chat') as [key'|]; cbn; [|done]. case_decide as Hd.
  - injection Hd as ->. by rewrite lookup_insert_eq.
  - rewrite lookup_insert_ne by congruence. done.
Qed.

(** A time in whole seconds after 1970 survives. *)
Lemma mutedOf_mutedColumn until :
  (∀ ms, until = MutedUntil ms → (0 < ms)%Z ∧ (ms mod 1000 = 0)%Z) → mutedOf (mutedColumn until) = until.
Proof.
  intros Hms. destruct until as [| |ms]; try done. destruct (Hms ms eq_refl) as [H0 Hm]. unfold mutedOf, mutedColumn.
  assert (ms = 1000 * (ms / 1000))%Z as Hd by (apply Z_div_exact_full_2; lia).
  assert (0 < ms / 1000)%Z by lia.
  destruct (Z.ltb_spec (ms / 1000) 0); [lia|]. destruct (Z.ltb_spec 0 (ms / 1000)); [|lia]. f_equal. lia.
Qed.
End settings.
