(* ===== verification/Groups.v ===== *)
(** Groups (src/group.go) and broadcast lists (src/broadcast.go): what the server says of
    them, the cache of members that sending uses, the notifications that keep it up to
    date, and the commands. *)
From Stdlib Require Import ZArith Lia.
From Stdlib Require Import Strings.Byte.
From stdpp Require Import prelude gmap strings list fin_maps.
From S2P Require Import Prelude Strconv Jid Node Attrs Cache Cbc Sql Requests LidMap LidMapSpec MessageInfo Contacts Client TcToken.

#[local] Open Scope string_scope.

(** ** The data (src/types/group.go) *)

Definition GroupMemberAddModeAdmin : string := "admin_add".
Definition GroupMemberAddModeAllMember : string := "all_member_add".
Definition GroupLinkChangeTypeSub : string := "sub_group".

Record GroupName := mkName { Name : string; NameSetAt : goTime; NameSetBy : JID; NameSetByPN : JID }.
Record GroupTopic := mkTopic {
  Topic : string; TopicID : string; TopicSetAt : goTime; TopicSetBy : JID; TopicSetByPN : JID; TopicDeleted : bool
}.
Record GroupParticipant := mkParticipant {
  gpJID : JID;
  PhoneNumber : JID;
  LID : JID;
  gpUsername : string;
  IsAdmin : bool;
  IsSuperAdmin : bool;
  DisplayName : string;
  gpError : Z;
  AddRequest : option (string * goTime)
}.
Record GroupInfo := mkGroup {
  gJID : JID;
  OwnerJID : JID;
  OwnerPN : JID;
  gName : GroupName;
  gTopic : GroupTopic;
  IsLocked : bool;
  IsAnnounce : bool;
  AnnounceVersionID : string;
  IsEphemeral : bool;
  DisappearingTimer : Z;
  IsIncognito : bool;
  IsParent : bool;
  DefaultMembershipApprovalMode : string;
  LinkedParentJID : JID;
  IsDefaultSubGroup : bool;
  IsJoinApprovalRequired : bool;
  gAddressingMode : string;
  GroupCreated : goTime;
  CreatorCountryCode : string;
  ParticipantVersionID : string;
  Participants : list GroupParticipant;
  ParticipantCount : Z;
  MemberAddMode : string;
  Suspended : bool
}.
Record GroupLinkTarget := mkTarget { ltJID : JID; ltName : string; ltNameSetAt : goTime; ltDefaultSub : bool }.

(** What the client keeps of a group (src/client.go). *)
Record groupMetaCache := mkGroupCache { AddressingMode : string; CommunityAnnouncementGroup : bool; Members : list JID }.

(** ** Reading *)

Definition parseAddRequest (child : node) : option (string * goTime) :=
  match GetOptionalChildByTag child ["add_request"] with
  | (addRequest, true) => Some ((code ← attrString "code"; t ← attrUnixTime "expiration"; mret (code, t) : attrM _) (AttrGetter_of addRequest)).1
  | _ => None
  end.

Definition parseParticipant (child : node) : attrM GroupParticipant :=
  pcpType ← OptionalString "type";
  jid ← attrJID "jid";
  display ← OptionalString "display_name";
  username ← OptionalString "username";
  '(pn, lid) ← (if decide (Server jid = HiddenUserServer) then pn ← OptionalJIDOrEmpty "phone_number"; mret (pn, jid)
                else if decide (Server jid = DefaultUserServer) then lid ← OptionalJIDOrEmpty "lid"; mret (jid, lid)
                else mret (EmptyJID, EmptyJID) : attrM (JID * JID));
  errorCode ← OptionalInt "error";
  mret (mkParticipant jid pn lid username (bool_decide (pcpType = "admin" ∨ pcpType = "superadmin")) (bool_decide (pcpType = "superadmin"))
    display errorCode (if decide (errorCode = 0%Z) then None else parseAddRequest child)).
Definition participantOf (child : node) : GroupParticipant := (parseParticipant child (AttrGetter_of child)).1.

(** The bytes of a content; none unless it is bytes. *)
Definition contentBytes (n : node) : list byte := match Content n with VBytes b => b | _ => [] end.

Section children.
Context (children : list node).
(** The cases of the loop set different fields: one is there or not, or the last
    child with its tag counts. *)
Definition hasChild (tag : string) : bool := existsb (λ c, bool_decide (Tag c = tag)) children.
Definition lastChild {A} (tag : string) (read : node → option A) (a : A) : A :=
  foldl (λ a c, if decide (Tag c = tag) then default a (read c) else a) a children.
End children.

Definition parseTopic (child : node) : option GroupTopic :=
  match GetOptionalChildByTag child ["body"] with
  | (body, true) =>
      Some ((id ← attrString "id"; setBy ← OptionalJIDOrEmpty "participant"; setByPN ← OptionalJIDOrEmpty "participant_pn"; t ← attrUnixTime "t";
             mret (mkTopic (b2s (contentBytes body)) id t setBy setByPN false) : attrM _) (AttrGetter_of child)).1
  | _ => None
  end.
Definition noTopic : GroupTopic := mkTopic "" "" ZeroTime EmptyJID EmptyJID false.

Definition timerOf (child : node) : Z := u32 (attrUint64 "expiration" (AttrGetter_of child)).1.

Definition groupFields (children : list node) : attrM GroupInfo :=
  id ← attrString "id";
  owner ← OptionalJIDOrEmpty "creator";
  ownerPN ← OptionalJIDOrEmpty "creator_pn";
  name ← OptionalString "subject";
  nameAt ← OptionalUnixTime "s_t";
  nameBy ← OptionalJIDOrEmpty "s_o";
  nameByPN ← OptionalJIDOrEmpty "s_o_pn";
  created ← OptionalUnixTime "creation";
  country ← OptionalString "creator_country_code";
  announceVersion ← OptionalString "a_v_id";
  participantVersion ← OptionalString "p_v_id";
  count ← OptionalInt "size";
  mode ← OptionalString "addressing_mode";
  mret {|
    gJID := NewJID id GroupServer; OwnerJID := owner; OwnerPN := ownerPN;
    gName := mkName name nameAt nameBy nameByPN;
    gTopic := lastChild children "description" parseTopic noTopic;
    IsLocked := hasChild children "locked";
    IsAnnounce := hasChild children "announcement"; AnnounceVersionID := announceVersion;
    IsEphemeral := hasChild children "ephemeral";
    DisappearingTimer := lastChild children "ephemeral" (Some ∘ timerOf) 0%Z;
    IsIncognito := hasChild children "incognito";
    IsParent := hasChild children "parent";
    DefaultMembershipApprovalMode :=
      lastChild children "parent" (λ c, Some (OptionalString "default_membership_approval_mode" (AttrGetter_of c)).1) "";
    LinkedParentJID := lastChild children "linked_parent" (λ c, Some (attrJID "jid" (AttrGetter_of c)).1) EmptyJID;
    IsDefaultSubGroup := hasChild children "default_sub_group";
    IsJoinApprovalRequired := hasChild children "membership_approval_mode";
    gAddressingMode := mode; GroupCreated := created; CreatorCountryCode := country;
    ParticipantVersionID := participantVersion;
    Participants := participantOf <$> List.filter (λ c, bool_decide (Tag c = "participant")) children;
    ParticipantCount := count;
    MemberAddMode := lastChild children "member_add_mode" (λ c, Some (b2s (contentBytes c))) "";
    Suspended := hasChild children "suspended"
  |}.

(** The group comes with the errors of its own attributes; those of its children are
    logged. *)
Definition parseGroupNode (groupNode : node) : GroupInfo * option (list attrError) :=
  let '(group, ag) := groupFields (GetChildren groupNode) (AttrGetter_of groupNode) in (group, attrsError ag).

Definition parseGroupLinkTargetNode (groupNode : node) : GroupLinkTarget * option (list attrError) :=
  let '(target, ag) :=
    (jid ← OptionalJIDOrEmpty "jid";
     jid ← (if IsEmpty jid then id ← attrString "id"; mret (NewJID id GroupServer) else mret jid : attrM _);
     name ← OptionalString "subject";
     t ← OptionalUnixTime "s_t";
     mret (mkTarget jid name t (bool_decide (Tag (GetChildByTag groupNode ["default_sub_group"]) = "default_sub_group"))) : attrM _)
      (AttrGetter_of groupNode) in
  (target, attrsError ag).

(** ** Usernames, addresses and phone numbers of participants *)

Definition participantUsername (p : GroupParticipant) : option ContactUsernameEntry :=
  if decide (gpUsername p = "") then None
  else
    let lid := ToNonAD (LID p) in
    let lid := if IsEmpty lid && bool_decide (Server (gpJID p) = HiddenUserServer) then ToNonAD (gpJID p) else lid in
    if IsEmpty lid then None else Some (mkUsername lid (gpUsername p)).
Definition groupParticipantUsernames (participants : list GroupParticipant) : list ContactUsernameEntry := omap participantUsername participants.
Definition groupContactUsernames (group : GroupInfo) : list ContactUsernameEntry := groupParticipantUsernames (Participants group).

(** A participant without both addresses leaves an empty mapping in its place. *)
Definition participantPair (p : GroupParticipant) : LIDMapping :=
  if negb (IsEmpty (PhoneNumber p)) && negb (IsEmpty (LID p)) then mkMapping (LID p) (PhoneNumber p) else mkMapping EmptyJID EmptyJID.
Definition participantPhone (p : GroupParticipant) : option RedactedPhoneEntry :=
  if negb (bool_decide (DisplayName p = "")) && negb (IsEmpty (LID p)) then Some (mkPhone (LID p) (DisplayName p)) else None.

(** An attribute that is an address. *)
Definition jidAttr (key : string) (n : node) : option JID := match lookupAttr key (Attrs n) with Some (VJID j) => Some j | _ => None end.

Definition listPair (child : node) (jid : JID) : option LIDMapping :=
  if decide (Server jid = HiddenUserServer) then
    match jidAttr "phone_number" child with Some pn => if IsEmpty pn then None else Some (mkMapping jid pn) | None => None end
  else if decide (Server jid = DefaultUserServer) then
    match jidAttr "lid" child with Some lid => if IsEmpty lid then None else Some (mkMapping lid jid) | None => None end
  else None.

(** The participants of a list, the pairs of their addresses and their usernames. *)
Definition listed (n : node) : list (node * JID) :=
  omap (λ child, match jidAttr "jid" child with
                 | Some jid => if decide (Tag child = "participant") then Some (child, jid) else None
                 | None => None
                 end) (GetChildren n).
Definition parseParticipantList (n : node) : list JID * list LIDMapping * list ContactUsernameEntry :=
  (snd <$> listed n, omap (λ c, listPair c.1 c.2) (listed n), omap (λ c, participantUsername (participantOf c.1)) (listed n)).

Definition parseGroupParticipantRequests (nodes : list node) : list (JID * goTime) * list ContactUsernameEntry :=
  ((λ n, ((p ← parseParticipant n; t ← attrUnixTime "request_time"; mret (gpJID p, t) : attrM _) (AttrGetter_of n)).1) <$> nodes,
   omap (participantUsername ∘ participantOf) nodes).

(** ** Changes *)

Inductive groupError :=
| GroupIQ (e : iqError)
| ErrGroupNotFound | ErrNotInGroup | ErrInviteLinkRevoked | ErrInviteLinkInvalid | ErrGroupInviteLinkUnauthorized | ErrInvalidDisappearingTimer
| GroupElementMissing (tag : string)
| GroupAttrs (es : list attrError)
| UnexpectedBody
| NoInviteCode
| ErrInvalidImageFormat | NoPictureID
| InvalidMode
| ParticipantLID (e : lidError)
| ParticipantToken (e : tcError).

(** What one child of a notification changes; [events.GroupInfo] has the last change of
    each kind, and the list of the unknown ones. *)
Inductive groupChange :=
| Join (reason : string) (l : list JID) | Leave (l : list JID) | Promote (l : list JID) | Demote (l : list JID)
| Locked (locked : bool)
| Deleted (reason : string)
| Renamed (name : GroupName)
| Described (topic : GroupTopic)
| Announced (announce : bool) (version : string)
| NewInviteLink (link : string)
| Ephemeral (timer : option Z)
| Linked (type : string) (group : GroupLinkTarget)
| Unlinked (type reason : string) (group : GroupLinkTarget)
| ApprovalRequired
| SuspendedChange (suspended : bool)
| UnknownChange (child : node).

Definition InviteLinkPrefix : string := "https://chat.whatsapp.com/".

(** A change of participants, with the addresses and names it brings. Its versions are
    read too. *)
Definition participantChange (m : attrM (list JID → groupChange)) (child : node) :
    outcome groupError (groupChange * list LIDMapping * list ContactUsernameEntry) :=
  let '(c, ag) := (_ ← OptionalString "prev_v_id"; _ ← OptionalString "v_id"; m) (AttrGetter_of child) in
  let '(participants, pairs, names) := parseParticipantList child in
  match attrsError ag with None => Ok (c participants, pairs, names) | Some es => Err (GroupAttrs es) end.

Definition linkTarget (child : node) : outcome groupError GroupLinkTarget :=
  match GetOptionalChildByTag child ["group"] with
  | (groupNode, true) => match parseGroupLinkTargetNode groupNode with (target, None) => Ok target | (_, Some es) => Err (GroupAttrs es) end
  | _ => Err (GroupElementMissing "group")
  end.

Definition topicChange (sender : option JID) (t : goTime) (child : node) : outcome groupError (string * bool) :=
  if (GetOptionalChildByTag child ["delete"]).2 then Ok ("", true)
  else match Content (GetChildByTag child ["body"]) with VBytes b => Ok (b2s b, false) | _ => Err UnexpectedBody end.

(** A change that is read from the attributes of the child: an attribute that is
    missing or wrong fails the whole notification. *)
Definition reading (m : attrM groupChange) (child : node) : outcome groupError (groupChange * list LIDMapping * list ContactUsernameEntry) :=
  let '(c, ag) := m (AttrGetter_of child) in
  match attrsError ag with None => Ok (c, [], []) | Some es => Err (GroupAttrs es) end.

Definition parseChange (sender : option JID) (t : goTime) (child : node) :
    outcome groupError (groupChange * list LIDMapping * list ContactUsernameEntry) :=
  let tag := Tag child in
  if decide (tag = "add") then participantChange (reason ← OptionalString "reason"; mret (Join reason)) child
  else if decide (tag = "remove") then participantChange (mret Leave) child
  else if decide (tag = "promote") then participantChange (mret Promote) child
  else if decide (tag = "demote") then participantChange (mret Demote) child
  else if decide (tag = "locked") then Ok (Locked true, [], [])
  else if decide (tag = "unlocked") then Ok (Locked false, [], [])
  else if decide (tag = "delete") then reading (reason ← OptionalString "reason"; mret (Deleted reason)) child
  else if decide (tag = "subject") then
    reading (name ← attrString "subject"; at_ ← attrUnixTime "s_t"; by_ ← OptionalJIDOrEmpty "s_o"; byPN ← OptionalJIDOrEmpty "s_o_pn";
             mret (Renamed (mkName name at_ by_ byPN))) child
  else if decide (tag = "description") then
    '(topic, deleted) ← topicChange sender t child;
    reading (id ← attrString "id"; mret (Described (mkTopic topic id t (default EmptyJID sender) EmptyJID deleted))) child
  else if decide (tag = "announcement" ∨ tag = "not_announcement") then
    reading (v ← attrString "v_id"; mret (Announced (bool_decide (tag = "announcement")) v)) child
  else if decide (tag = "invite") then reading (code ← attrString "code"; mret (NewInviteLink (InviteLinkPrefix +:+ code))) child
  else if decide (tag = "ephemeral") then reading (t ← attrUint64 "expiration"; mret (Ephemeral (Some (u32 t)))) child
  else if decide (tag = "not_ephemeral") then Ok (Ephemeral None, [], [])
  else if decide (tag = "link") then
    group ← linkTarget child;
    reading (type ← attrString "link_type"; mret (Linked type group)) child
  else if decide (tag = "unlink") then
    group ← linkTarget child;
    reading (type ← attrString "unlink_type"; reason ← attrString "unlink_reason"; mret (Unlinked type reason group)) child
  else if decide (tag = "membership_approval_mode") then Ok (ApprovalRequired, [], [])
  else if decide (tag = "suspended") then Ok (SuspendedChange true, [], [])
  else if decide (tag = "unsuspended") then Ok (SuspendedChange false, [], [])
  else Ok (UnknownChange child, [], []).

Record groupEvent := mkGroupEvent {
  geJID : JID;
  geNotify : string;
  geSender : option JID;
  geSenderPN : option JID;
  geTimestamp : goTime;
  PrevParticipantVersionID : string;
  geParticipantVersionID : string;
  geChanges : list groupChange
}.
Definition isParticipantChange (child : node) : bool := bool_decide (Tag child ∈ ["add"; "remove"; "promote"; "demote"]).
(** The version the last change of participants leads from or to. *)
Definition versionOf (key : string) (children : list node) : string :=
  foldl (λ v c, if isParticipantChange c then (OptionalString key (AttrGetter_of c)).1 else v) "" children.

Definition parseGroupChangeWithUsernames (n : node) : outcome groupError (groupEvent * list LIDMapping * list ContactUsernameEntry) :=
  let '(evt, ag) :=
    (from ← attrJID "from"; notify ← OptionalString "notify"; sender ← OptionalJID "participant"; senderPN ← OptionalJID "participant_pn";
     t ← attrUnixTime "t";
     mret (mkGroupEvent from notify sender senderPN t "" "" []) : attrM _) (AttrGetter_of n) in
  match attrsError ag with
  | Some es => Err (GroupAttrs es)
  | None =>
      changes ← mapM (parseChange (geSender evt) (geTimestamp evt)) (GetChildren n);
      Ok (mkGroupEvent (geJID evt) (geNotify evt) (geSender evt) (geSenderPN evt) (geTimestamp evt)
            (versionOf "prev_v_id" (GetChildren n)) (versionOf "v_id" (GetChildren n)) (changes.*1.*1),
          concat (changes.*1.*2), concat (changes.*2))
  end.

Definition parseGroupChange (n : node) : outcome groupError (groupEvent * list LIDMapping) :=
  '(evt, pairs, _) ← parseGroupChangeWithUsernames n; Ok (evt, pairs).

(** The fields [Join] and [Leave] of the event. *)
Definition joins (e : groupEvent) : list JID := foldl (λ l c, match c with Join _ l' => l' | _ => l end) [] (geChanges e).
Definition leaves (e : groupEvent) : list JID := foldl (λ l c, match c with Leave l' => l' | _ => l end) [] (geChanges e).

(** ** The cache of members *)

Definition addMember (members : list JID) (jid : JID) : list JID := if decide (jid ∈ members) then members else (members ++ [jid])%list.

(** The array behind the list after one is removed: its last takes the place. *)
Definition overwriteMember (members : list JID) (jid : JID) : list JID :=
  match list_find (λ existing, existing = jid) members, last members with
  | Some (i, _), Some final => <[i := final]> members
  | _, _ => members
  end.
Definition removeMember (members : list JID) (jid : JID) : list JID :=
  if decide (jid ∈ members) then take (length members - 1) (overwriteMember members jid) else members.

Definition setMembers (f : list JID → list JID) (c : groupMetaCache) : groupMetaCache :=
  mkGroupCache (AddressingMode c) (CommunityAnnouncementGroup c) (f (Members c)).
Definition changeMembers (evt : groupEvent) (members : list JID) : list JID :=
  foldl removeMember (foldl addMember members (joins evt)) (leaves evt).

Definition updateGroupParticipantCache (evt : groupEvent) (cache : gmap JID groupMetaCache) : gmap JID groupMetaCache :=
  match joins evt, leaves evt with
  | [], [] => cache
  | _, _ => alter (setMembers (changeMembers evt)) (geJID evt) cache
  end.

(** ** The client's calls *)

Record groupState := mkGroups { groupCache : gmap JID groupMetaCache; gContacts : contactStore; gTc : tcClient }.
Abbreviation groupM := (stateM groupState groupError).

Definition set_groupCache (c : gmap JID groupMetaCache) (s : groupState) : groupState := mkGroups c (gContacts s) (gTc s).
Definition set_gContacts (c : contactStore) (s : groupState) : groupState := mkGroups (groupCache s) c (gTc s).
Definition set_gTc (c : tcClient) (s : groupState) : groupState := mkGroups (groupCache s) (gContacts s) c.

(** A call whose error is logged. *)
Definition besteffort {F A} (m : stateM groupState F A) : groupM unit := _ ← try m; mret tt.

Section client.
Context `{Crypto} (sqlite : bool) (newestRow : list tokenRow → option tokenRow) (lids : lidEnv).
Context (firstTS : gmap JID Z → option JID) (firstGroup : gmap JID groupMetaCache → option JID) (anyContact : gmap JID ContactInfo → option JID).
Context (deduplicate : ∀ A, (A → JID) → list A → list A) (rowOrder : list (option string * contactRow) → list (option string * contactRow)).
(** [answer]: what [sendIQ] returns; [now] in seconds; [newMessageID]: what
    [GenerateMessageID] returns. *)
Context (answer : infoQuery → outcome iqError node) (now : Z) (ownID : JID) (newMessageID : string).

Definition sendGroupIQ (iqType : string) (jid : JID) (content : node) : outcome groupError node :=
  map_err GroupIQ (answer (mkInfoQuery "w:g2" iqType jid EmptyJID "" "" (VNodes [content]))).

(** [errors.Is] of an error of a query and one of the common ones. *)
Definition isIQ (code : Z) (text : string) (e : groupError) : bool :=
  match e with GroupIQ (IQErrorAnswer _ c t) => bool_decide (c = code ∧ t = text) | _ => false end.
(** The first human error whose code the answer has. *)
Fixpoint humanError (table : list (Z * string * groupError)) (e : groupError) : groupError :=
  match table with [] => e | (code, text, h) :: table => if isIQ code text e then h else humanError table e end.
Definition groupErrors : list (Z * string * groupError) := [(404%Z, "item-not-found", ErrGroupNotFound); (403%Z, "forbidden", ErrNotInGroup)].
Definition linkErrors : list (Z * string * groupError) := [(410%Z, "gone", ErrInviteLinkRevoked); (406%Z, "not-acceptable", ErrInviteLinkInvalid)].

Definition childOf (n : node) (tag : string) : outcome groupError node :=
  match GetOptionalChildByTag n [tag] with (c, true) => Ok c | _ => Err (GroupElementMissing tag) end.

Definition cacheGroupInfo (groupInfo : GroupInfo) : groupM (list LIDMapping * list RedactedPhoneEntry) :=
  _ ← modify (λ s, set_groupCache (putBoundedCache firstGroup (groupCache s) (gJID groupInfo)
    (mkGroupCache (gAddressingMode groupInfo) (IsAnnounce groupInfo && IsDefaultSubGroup groupInfo) (gpJID <$> Participants groupInfo))
    maxGroupCacheEntries) s);
  mret (participantPair <$> Participants groupInfo, omap participantPhone (Participants groupInfo)).

Definition storePairs (pairs : list LIDMapping) : groupM unit :=
  besteffort (zoom (tcLids ∘ gTc) (λ l s, set_gTc (setTcLids l (gTc s)) s) ParticipantLID (PutManyLIDMappings maxLIDCacheEntries (LidMapSpec.firstKey lids) (dedup lids) pairs)).
Definition storePhones (phones : list RedactedPhoneEntry) : groupM unit :=
  besteffort (zoom gContacts set_gContacts id (PutManyRedactedPhones sqlite deduplicate phones)).
Definition storeContactUsernamesBestEffort (entries : list ContactUsernameEntry) : groupM unit :=
  besteffort (zoom gContacts set_gContacts id (PutManyContactUsernames sqlite entries)).

Definition getGroupInfo (jid : JID) : groupM GroupInfo :=
  res ← lift (map_err (humanError groupErrors) (sendGroupIQ "get" jid (mkNode "query" [("request", VString "interactive")] VNil)));
  groupNode ← lift (childOf res "group");
  match parseGroupNode groupNode with
  | (_, Some es) => throw (GroupAttrs es)
  | (groupInfo, None) =>
      '(lidPairs, redactedPhones) ← cacheGroupInfo groupInfo;
      _ ← storePairs lidPairs;
      _ ← storePhones redactedPhones;
      _ ← storeContactUsernamesBestEffort (groupContactUsernames groupInfo);
      mret groupInfo
  end.
Definition GetGroupInfo (jid : JID) : groupM GroupInfo := getGroupInfo jid.
(** [None]: a nil pointer, when the answer was about another group. *)
Definition getCachedGroupData (jid : JID) : groupM (option groupMetaCache) :=
  s ← get;
  match groupCache s !! jid with
  | Some val => mret (Some val)
  | None => _ ← getGroupInfo jid; s ← get; mret (groupCache s !! jid)
  end.

Definition parseGroupNodeAndStoreUsernames (groupNode : node) : groupM GroupInfo :=
  match parseGroupNode groupNode with
  | (_, Some es) => throw (GroupAttrs es)
  | (groupInfo, None) => _ ← storeContactUsernamesBestEffort (groupContactUsernames groupInfo); mret groupInfo
  end.

(** All groups are cached, also those with errors in their attributes. *)
Fixpoint cacheGroups (children : list node) (acc : list GroupInfo * list LIDMapping * list RedactedPhoneEntry) :
    groupM (list GroupInfo * list LIDMapping * list RedactedPhoneEntry) :=
  match children with
  | [] => mret acc
  | child :: children =>
      if decide (Tag child ≠ "group") then cacheGroups children acc
      else
        let parsed := (parseGroupNode child).1 in
        '(pairs, phones) ← cacheGroupInfo parsed;
        let '(infos, allPairs, allPhones) := acc in
        cacheGroups children (infos ++ [parsed], allPairs ++ pairs, allPhones ++ phones)%list
  end.
Definition GetJoinedGroups : groupM (list GroupInfo) :=
  resp ← lift (sendGroupIQ "get" (NewJID "" GroupServer) (mkNode "participating" [] (VNodes [mkNode "participants" [] VNil; mkNode "description" [] VNil])));
  groups ← lift (childOf resp "groups");
  '(infos, pairs, phones) ← cacheGroups (GetChildren groups) ([], [], []);
  _ ← storePairs pairs;
  _ ← storePhones phones;
  _ ← storeContactUsernamesBestEffort (concat (groupContactUsernames <$> infos));
  mret infos.

(** A notification about a group: a new one, or changes. *)
Record joinedGroup := mkJoined { jgReason : string; jgKey : string; jgType : string; jgSender : option JID; jgSenderPN : option JID; jgNotify : string; jgInfo : GroupInfo }.
Definition setMode (mode : string) (g : GroupInfo) : GroupInfo :=
  let '(mkGroup j o op n t l a av e dt i p dm lp ds ja _ c cc pv ps pc mm su) := g in mkGroup j o op n t l a av e dt i p dm lp ds ja mode c cc pv ps pc mm su.
Definition parseGroupCreate (parentNode n : node) : groupM (joinedGroup * list LIDMapping * list RedactedPhoneEntry) :=
  groupNode ← lift (childOf n "group");
  let pag := AttrGetter_of parentNode in
  let ag := AttrGetter_of n in
  match parseGroupNode groupNode with
  | (_, Some es) => throw (GroupAttrs es)
  | (info, None) =>
      let info := if decide (gAddressingMode info = "") then setMode (OptionalString "addressing_mode" pag).1 info else info in
      '(pairs, phones) ← cacheGroupInfo info;
      mret (mkJoined (OptionalString "reason" ag).1 (OptionalString "key" ag).1 (OptionalString "type" ag).1
              (OptionalJID "participant" pag).1 (OptionalJID "participant_pn" pag).1 (OptionalString "notify" pag).1 info, pairs, phones)
  end.

Inductive groupNotification := JoinedGroup (e : joinedGroup) | GroupChanged (e : groupEvent).
Definition applyGroupChange (n : node) : groupM (groupNotification * list LIDMapping * list RedactedPhoneEntry * list ContactUsernameEntry) :=
  '(evt, pairs, names) ← lift (parseGroupChangeWithUsernames n);
  _ ← modify (λ s, set_groupCache (updateGroupParticipantCache evt (groupCache s)) s);
  mret (GroupChanged evt, pairs, [], names).
Definition parseGroupNotificationWithUsernames (n : node) :
    groupM (groupNotification * list LIDMapping * list RedactedPhoneEntry * list ContactUsernameEntry) :=
  match GetChildren n with
  | [child] =>
      if decide (Tag child = "create") then
        '(evt, pairs, phones) ← parseGroupCreate n child;
        mret (JoinedGroup evt, pairs, phones, groupContactUsernames (jgInfo evt))
      else applyGroupChange n
  | _ => applyGroupChange n
  end.

Definition parseGroupNotification (n : node) : groupM (groupNotification * list LIDMapping * list RedactedPhoneEntry) :=
  '(event, pairs, phones, _) ← parseGroupNotificationWithUsernames n; mret (event, pairs, phones).

(** *** Commands *)

Definition GroupServerJID : JID := NewJID "" GroupServer.
Definition onTc {A} (m : tcM A) : groupM A := zoom gTc set_gTc ParticipantToken m.
Definition ensureToken (jid : JID) : groupM (option (list byte)) := onTc (ensureTCToken sqlite newestRow lids firstTS now ownID jid).
Definition phoneOf (lid : JID) : groupM JID :=
  zoom (tcLids ∘ gTc) (λ l s, set_gTc (setTcLids l (gTc s)) s) ParticipantLID (pnOf lids lid).
Definition command (iqType : string) (jid : JID) (content : node) : groupM unit := _ ← lift (sendGroupIQ iqType jid content); mret tt.

(** A participant that is added, with its phone number and its privacy token. *)
Definition withToken (token : option (list byte)) : value :=
  match token with Some (b :: l) => VNodes [mkNode "privacy" [] (VBytes (b :: l))] | _ => VNil end.
Definition participantNode (add : bool) (jid : JID) : groupM node :=
  pn ← (if add && bool_decide (Server jid = HiddenUserServer) then phoneOf jid else mret EmptyJID);
  token ← (if add then ensureToken jid else mret None);
  mret (mkNode "participant" (("jid", VJID jid) :: if IsEmpty pn then [] else [("phone_number", VJID pn)]) (withToken token)).
Fixpoint participantNodes (add : bool) (jids : list JID) : groupM (list node) :=
  match jids with
  | [] => mret []
  | jid :: jids => n ← participantNode add jid; ns ← participantNodes add jids; mret (n :: ns)
  end.

Record ReqCreateGroup := mkReq {
  reqName : string; reqParticipants : list JID; reqEphemeral : option Z; reqAnnounce : bool; reqLocked : bool; reqApproval : bool;
  reqMemberAddMode : string; reqIsParent : bool; reqDefaultApproval : string; reqLinkedParent : JID
}.
Definition createContent (req : ReqCreateGroup) (participants : list node) : list node :=
  (participants
    ++ [mkNode "member_add_mode" [] (VString (if decide (reqMemberAddMode req = "") then GroupMemberAddModeAllMember else reqMemberAddMode req))]
    ++ (if reqIsParent req then
          [mkNode "parent" [("default_membership_approval_mode",
             VString (if decide (reqDefaultApproval req = "") then "request_required" else reqDefaultApproval req))] VNil]
        else if IsEmpty (reqLinkedParent req) then []
        else [mkNode "linked_parent" [("jid", VJID (reqLinkedParent req))] VNil])
    ++ (if reqLocked req then [mkNode "locked" [] VNil] else [])
    ++ (if reqAnnounce req then [mkNode "announcement" [] VNil] else [])
    ++ [match reqEphemeral req with
        | Some timer => mkNode "ephemeral" [("expiration", VUint32 timer); ("trigger", VString "1")] VNil
        | None => mkNode "ephemeral" [("expiration", VInt 0)] VNil
        end]
    ++ [mkNode "membership_approval_mode" [] (VNodes [mkNode "group_join" [("state", VString (if reqApproval req then "on" else "off"))] VNil])])%list.
Definition CreateGroup (req : ReqCreateGroup) : groupM GroupInfo :=
  participants ← participantNodes true (ToNonAD <$> reqParticipants req);
  resp ← lift (sendGroupIQ "set" GroupServerJID
    (mkNode "create" (if decide (reqName req = "") then [] else [("subject", VString (reqName req))]) (VNodes (createContent req participants))));
  groupNode ← lift (childOf resp "group");
  parseGroupNodeAndStoreUsernames groupNode.

Definition UnlinkGroup (parent child : JID) : groupM unit :=
  command "set" parent (mkNode "unlink" [("unlink_type", VString GroupLinkChangeTypeSub)] (VNodes [mkNode "group" [("jid", VJID child)] VNil])).
Definition LinkGroup (parent child : JID) : groupM unit :=
  command "set" parent (mkNode "links" [] (VNodes
    [mkNode "link" [("link_type", VString GroupLinkChangeTypeSub)] (VNodes [mkNode "group" [("jid", VJID child)] VNil])])).
Definition LeaveGroup (jid : JID) : groupM unit :=
  command "set" GroupServerJID (mkNode "leave" [] (VNodes [mkNode "group" [("id", VJID jid)] VNil])).

Definition answeredParticipants (action : node) : groupM (list GroupParticipant) :=
  let participants := participantOf <$> GetChildrenByTag action "participant" in
  _ ← storeContactUsernamesBestEffort (groupParticipantUsernames participants);
  mret participants.
Definition UpdateGroupParticipants (jid : JID) (participantChanges : list JID) (action : string) : groupM (list GroupParticipant) :=
  content ← participantNodes (bool_decide (action = "add")) participantChanges;
  resp ← lift (sendGroupIQ "set" jid (mkNode action [] (VNodes content)));
  requestAction ← lift (childOf resp action);
  answeredParticipants requestAction.
Definition GetGroupRequestParticipants (jid : JID) : groupM (list (JID * goTime)) :=
  resp ← lift (sendGroupIQ "get" jid (mkNode "membership_approval_requests" [] VNil));
  request ← lift (childOf resp "membership_approval_requests");
  let '(participants, usernames) := parseGroupParticipantRequests (GetChildrenByTag request "membership_approval_request") in
  _ ← storeContactUsernamesBestEffort usernames;
  mret participants.
Definition UpdateGroupRequestParticipants (jid : JID) (participantChanges : list JID) (action : string) : groupM (list GroupParticipant) :=
  resp ← lift (sendGroupIQ "set" jid (mkNode "membership_requests_action" []
    (VNodes [mkNode action [] (VNodes ((λ p, mkNode "participant" [("jid", VJID p)] VNil) <$> participantChanges))])));
  request ← lift (childOf resp "membership_requests_action");
  requestAction ← lift (childOf request action);
  answeredParticipants requestAction.

Definition SetGroupName (jid : JID) (name : string) : groupM unit := command "set" jid (mkNode "subject" [] (VBytes (s2b name))).
Definition SetGroupTopic (jid : JID) (previousID newID topic : string) : groupM unit :=
  previousID ← (if decide (previousID = "") then oldInfo ← getGroupInfo jid; mret (TopicID (gTopic oldInfo)) else mret previousID);
  let newID := if decide (newID = "") then newMessageID else newID in
  let deleted := bool_decide (topic = "") in
  command "set" jid (mkNode "description"
    (("id", VString newID) :: (if decide (previousID = "") then [] else [("prev", VString previousID)]) ++
       (if deleted then [("delete", VString "true")] else []))%list
    (VNodes (if deleted then [] else [mkNode "body" [] (VBytes (s2b topic))]))).
Definition SetGroupDescription (jid : JID) (description : string) : groupM unit := SetGroupTopic jid "" "" description.
(** Without bytes the picture is removed. *)
Definition SetGroupPhoto (jid : JID) (avatar : option (list byte)) : outcome groupError string :=
  resp ← map_err (humanError [(406%Z, "not-acceptable", ErrInvalidImageFormat)])
    (map_err GroupIQ (answer (mkInfoQuery "w:profile:picture" "set" ServerJID jid "" ""
      match avatar with Some b => VNodes [mkNode "picture" [("type", VString "image")] (VBytes b)] | None => VNil end)));
  match avatar with
  | None => Ok "remove"
  | Some _ => match lookupAttr "id" (Attrs (GetChildByTag resp ["picture"])) with Some (VString pictureID) => Ok pictureID | _ => Err NoPictureID end
  end.
Definition SetGroupLocked (jid : JID) (locked : bool) : groupM unit :=
  command "set" jid (mkNode (if locked then "locked" else "unlocked") [] VNil).
Definition SetGroupAnnounce (jid : JID) (announce : bool) : groupM unit :=
  command "set" jid (mkNode (if announce then "announcement" else "not_announcement") [] VNil).
Definition SetGroupJoinApprovalMode (jid : JID) (mode : bool) : groupM unit :=
  command "set" jid (mkNode "membership_approval_mode" []
    (VNodes [mkNode "group_join" [("state", VString (if mode then "on" else "off"))] VNil])).
Definition SetGroupMemberAddMode (jid : JID) (mode : string) : groupM unit :=
  if decide (mode = GroupMemberAddModeAdmin ∨ mode = GroupMemberAddModeAllMember)
  then command "set" jid (mkNode "member_add_mode" [] (VBytes (s2b mode)))
  else throw InvalidMode.

Definition GetGroupInviteLink (jid : JID) (reset : bool) : groupM string :=
  resp ← lift (map_err (humanError ((401%Z, "not-authorized", ErrGroupInviteLinkUnauthorized) :: groupErrors))
    (sendGroupIQ (if reset then "set" else "get") jid (mkNode "invite" [] VNil)));
  match lookupAttr "code" (Attrs (GetChildByTag resp ["invite"])) with
  | Some (VString code) => mret (InviteLinkPrefix +:+ code)
  | _ => throw NoInviteCode
  end.
Definition inviteAttrs (inviter : JID) (code : string) (expiration : Z) : list (string * value) :=
  [("code", VString code); ("expiration", VInt64 expiration); ("admin", VJID inviter)].
Definition GetGroupInfoFromInvite (jid inviter : JID) (code : string) (expiration : Z) : groupM GroupInfo :=
  resp ← lift (sendGroupIQ "get" jid (mkNode "query" [] (VNodes [mkNode "add_request" (inviteAttrs inviter code expiration) VNil])));
  groupNode ← lift (childOf resp "group");
  parseGroupNodeAndStoreUsernames groupNode.
Definition JoinGroupWithInvite (jid inviter : JID) (code : string) (expiration : Z) : groupM unit :=
  command "set" jid (mkNode "accept" (inviteAttrs inviter code expiration) VNil).

(** The code of a link (src/user.go). A question mark at the start is no query. *)
Definition stripQuery (link : string) : string :=
  match list_find (λ b, b = x3f) (s2b link) with Some (S i, _) => b2s (take (S i) (s2b link)) | _ => link end.
Definition stripURLPrefix (link prefix : string) : string :=
  if decide (take (length (s2b prefix)) (s2b link) = s2b prefix) then stripQuery (b2s (drop (length (s2b prefix)) (s2b link))) else link.
Definition inviteQuery (iqType code : string) : outcome groupError node :=
  map_err (humanError linkErrors) (sendGroupIQ iqType GroupServerJID (mkNode "invite" [("code", VString (stripURLPrefix code InviteLinkPrefix))] VNil)).
Definition GetGroupInfoFromLink (code : string) : groupM GroupInfo :=
  resp ← lift (inviteQuery "get" code);
  groupNode ← lift (childOf resp "group");
  parseGroupNodeAndStoreUsernames groupNode.
Definition JoinGroupWithLink (code : string) : groupM JID :=
  resp ← lift (inviteQuery "set" code);
  let jidOf n := (attrJID "jid" (AttrGetter_of n)).1 in
  match GetOptionalChildByTag resp ["membership_approval_request"] with
  | (n, true) => mret (jidOf n)
  | _ => groupNode ← lift (childOf resp "group"); mret (jidOf groupNode)
  end.

(** What was parsed before an error comes with it. *)
Fixpoint parseTargets (children : list node) : list GroupLinkTarget * option (list attrError) :=
  match children with
  | [] => ([], None)
  | child :: children =>
      if decide (Tag child = "group") then
        match parseGroupLinkTargetNode child with
        | (_, Some es) => ([], Some es)
        | (target, None) => let '(targets, e) := parseTargets children in (target :: targets, e)
        end
      else parseTargets children
  end.
Definition GetSubGroups (community : JID) : groupM (list GroupLinkTarget * option (list attrError)) :=
  res ← lift (sendGroupIQ "get" community (mkNode "sub_groups" [] VNil));
  groups ← lift (childOf res "sub_groups");
  mret (parseTargets (GetChildren groups)).
Definition GetLinkedGroupsParticipants (community : JID) : groupM (list JID) :=
  res ← lift (sendGroupIQ "get" community (mkNode "linked_groups_participants" [] VNil));
  participants ← lift (childOf res "linked_groups_participants");
  let '(members, pairs, usernames) := parseParticipantList participants in
  _ ← storePairs pairs;
  _ ← storeContactUsernamesBestEffort usernames;
  mret members.

(** ** Broadcast lists *)

Record StatusPrivacy := mkPrivacy { spType : string; spList : list JID; spDefault : bool }.
Definition StatusPrivacyTypeContacts : string := "contacts".
Definition StatusPrivacyTypeBlacklist : string := "blacklist".
Definition StatusPrivacyTypeWhitelist : string := "whitelist".
Definition DefaultStatusPrivacy : list StatusPrivacy := [mkPrivacy StatusPrivacyTypeContacts [] true].

Definition privacyUser (child : node) : option JID :=
  match jidAttr "jid" child with Some jid => if decide (Tag child = "user") then Some jid else None | None => None end.

(** The default is moved to the front: it changes places with the first. *)
Fixpoint privacyLists (children : list node) (outputs : list StatusPrivacy) : outcome groupError (list StatusPrivacy) :=
  match children with
  | [] => Ok outputs
  | l :: children =>
      if decide (Tag l ≠ "list") then privacyLists children outputs
      else
        let '((isDefault, type), ag) := (d ← OptionalBool "default"; t ← attrString "type"; mret (d, t) : attrM _) (AttrGetter_of l) in
        let out := mkPrivacy type (omap privacyUser (GetChildren l)) isDefault in
        let outputs := if isDefault then out :: match outputs with [] => [] | first :: rest => rest ++ [first] end else (outputs ++ [out]) in
        match attrsError ag with Some es => Err (GroupAttrs es) | None => privacyLists children outputs end
  end%list.
Definition GetStatusPrivacy : outcome groupError (list StatusPrivacy) :=
  match map_err GroupIQ (answer (mkInfoQuery "status" "get" ServerJID EmptyJID "" "" (VNodes [mkNode "privacy" [] VNil]))) with
  | Ok resp =>
      outputs ← privacyLists (GetChildren (GetChildByTag resp ["privacy"])) [];
      Ok (match outputs with [] => DefaultStatusPrivacy | _ => outputs end)
  | Err e => if isIQ 404 "item-not-found" e then Ok DefaultStatusPrivacy else Err e
  | Panic => Panic
  | OutOfFuel => OutOfFuel
  end.

Inductive broadcastError := PrivacyFailed (e : groupError) | ContactsFailed (e : dbError) | ErrBroadcastListUnsupported | BroadcastNotLoggedIn.

(** [scanContacts]: the order of an iteration over a map. *)
Definition getStatusBroadcastRecipients (scanContacts : gmap JID ContactInfo → list (JID * ContactInfo)) : stateM contactStore broadcastError (list JID) :=
  options ← lift (map_err PrivacyFailed GetStatusPrivacy);
  match options with
  | [] => lift Panic
  | statusPrivacy :: _ =>
      if decide (spType statusPrivacy = StatusPrivacyTypeWhitelist) then mret (spList statusPrivacy)
      else
        '(contacts, failed) ← zoom id (λ s _, s) ContactsFailed (GetAllContacts anyContact rowOrder);
        match failed with
        | Some e => throw (ContactsFailed e)
        | None =>
            let blacklist := if decide (spType statusPrivacy = StatusPrivacyTypeBlacklist) then spList statusPrivacy else [] in
            mret (omap (λ c, if decide (c.1 ∈ blacklist ∨ FullName c.2 = "") then None else Some c.1) (scanContacts contacts))
        end
  end.
Definition getBroadcastListParticipants (scanContacts : gmap JID ContactInfo → list (JID * ContactInfo)) (jid : JID) :
    stateM contactStore broadcastError (list JID) :=
  if decide (jid ≠ StatusBroadcastJID) then throw ErrBroadcastListUnsupported
  else
    l ← getStatusBroadcastRecipients scanContacts;
    let ownID := ToNonAD ownID in
    if IsEmpty ownID then throw BroadcastNotLoggedIn
    else mret (if existsb (λ p, bool_decide (User p = User ownID)) l then l else (l ++ [ownID])%list).
End client.

(** * Properties *)

#[local] Open Scope list_scope.

Lemma addMember_spec l j : NoDup l → NoDup (addMember l j) ∧ (list_to_set (addMember l j) : gset JID) = list_to_set l ∪ {[j]}.
Proof.
  intros Hl. unfold addMember. case_decide as Hj; [split; [done|set_solver]|]. split; [|set_solver].
  apply NoDup_app. split_and!; [done|set_solver|apply NoDup_singleton].
Qed.

(** Taking the place of the one that leaves keeps the others. *)
Lemma removeMember_perm a j b : j ∉ a → removeMember (a ++ j :: b) j ≡ₚ a ++ b.
Proof.
  intros Ha. unfold removeMember. rewrite decide_True by set_solver. unfold overwriteMember.
  rewrite (list_find_app_r _ a) by (apply list_find_None, Forall_forall; set_solver).
  cbn [list_find]. rewrite decide_True by done. cbn [fmap option_fmap option_map prod_map fst]. rewrite Nat.add_0_l.
  destruct b as [|z b _] using rev_ind.
  - rewrite last_snoc, insert_app_r_alt, Nat.sub_diag by done. cbn [insert list_insert]. rewrite length_app. cbn [length].
    rewrite Nat.add_sub, take_app_length, app_nil_r. done.
  - rewrite (app_comm_cons b), app_assoc, last_snoc. rewrite <- app_assoc. cbn [app].
    rewrite insert_app_r_alt, Nat.sub_diag by done. cbn [insert list_insert].
    rewrite (app_comm_cons b [z] z), app_assoc. replace (length _ - 1)%nat with (length (a ++ z :: b)) by (rewrite !length_app; cbn; rewrite length_app; cbn; lia).
    rewrite take_app_length. by rewrite (Permutation_app_comm b [z]).
Qed.

Lemma removeMember_spec l j : NoDup l → NoDup (removeMember l j) ∧ (list_to_set (removeMember l j) : gset JID) = list_to_set l ∖ {[j]}.
Proof.
  intros Hl. destruct (decide (j ∈ l)) as [Hj|Hj].
  - apply list_elem_of_split in Hj as (a & b & ->). apply NoDup_app in Hl as (Ha & Hd & Hb). apply NoDup_cons in Hb as [Hjb Hb].
    assert (j ∉ a) as Hja by set_solver. pose proof (removeMember_perm a j b Hja) as Hp. split.
    + rewrite Hp. apply NoDup_app. set_solver.
    + rewrite Hp. set_solver.
  - unfold removeMember. rewrite decide_False by done. set_solver.
Qed.

Lemma changeMembers_spec evt l : NoDup l → NoDup (changeMembers evt l) ∧
  (list_to_set (changeMembers evt l) : gset JID) = (list_to_set l ∪ list_to_set (joins evt)) ∖ list_to_set (leaves evt).
Proof.
  intros Hl. unfold changeMembers.
  assert (NoDup (foldl addMember l (joins evt)) ∧ (list_to_set (foldl addMember l (joins evt)) : gset JID) = list_to_set l ∪ list_to_set (joins evt)) as [Hj Hs].
  { revert l Hl. induction (joins evt) as [|j js IH]; intros l Hl; cbn; [set_solver|].
    destruct (addMember_spec l j Hl) as [Hn Hset]. destruct (IH _ Hn) as [? ->]. set_solver. }
  rewrite <- Hs. revert Hj. generalize (foldl addMember l (joins evt)). clear. induction (leaves evt) as [|j js IH]; intros l Hl; cbn; [set_solver|].
  destruct (removeMember_spec l j Hl) as [Hn Hset]. destruct (IH _ Hn) as [? ->]. set_solver.
Qed.

Lemma update_cached evt jid cache c : cache !! jid = Some c → NoDup (Members c) →
  ∃ c', updateGroupParticipantCache evt cache !! jid = Some c' ∧ NoDup (Members c') ∧ AddressingMode c' = AddressingMode c ∧
    (list_to_set (Members c') : gset JID) =
      if decide (geJID evt = jid) then (list_to_set (Members c) ∪ list_to_set (joins evt)) ∖ list_to_set (leaves evt) else list_to_set (Members c).
Proof.
  intros Hc Hn.
  assert (∃ c', alter (setMembers (changeMembers evt)) (geJID evt) cache !! jid = Some c' ∧ NoDup (Members c') ∧ AddressingMode c' = AddressingMode c ∧
    (list_to_set (Members c') : gset JID) =
      if decide (geJID evt = jid) then (list_to_set (Members c) ∪ list_to_set (joins evt)) ∖ list_to_set (leaves evt) else list_to_set (Members c)) as Halter.
  { destruct (decide (geJID evt = jid)) as [->|Hne].
    - rewrite lookup_alter_eq, Hc. cbn. eexists. split; [done|]. destruct (changeMembers_spec evt (Members c) Hn). by split_and!.
    - rewrite lookup_alter_ne by done. by exists c. }
  unfold updateGroupParticipantCache. destruct (joins evt) as [|j js] eqn:Hj; [|done]. destruct (leaves evt) as [|k ks] eqn:Hl; [|done].
  exists c. split_and!; [done|done|done|]. case_decide; set_solver.
Qed.

(** A run of notifications, whatever the answers to each. *)
Definition notify (s : groupState) (n : node) : groupState := (parseGroupNotificationWithUsernames (λ _, None) n s).2.

(** The reference: a set of members, which those named by an [add] element join and
    those named by a [remove] element leave. Of several such elements in one
    notification the last counts. *)
Definition participantsIn (child : node) : list JID :=
  omap (λ p, if decide (Tag p = "participant") then match lookupAttr "jid" (Attrs p) with Some (VJID j) => Some j | _ => None end
             else None) (GetChildren child).
Definition namedBy (tag : string) (n : node) : list JID :=
  foldl (λ l child, if decide (Tag child = tag) then participantsIn child else l) [] (GetChildren n).
Definition readable (n : node) : bool := match parseGroupChangeWithUsernames n with Ok _ => true | _ => false end.
Definition changes (jid : JID) (members : gset JID) (n : node) : gset JID :=
  if readable n && bool_decide (jidAt n "from" = jid)
  then (members ∪ list_to_set (namedBy "add" n)) ∖ list_to_set (namedBy "remove" n) else members.

Lemma listed_participants child : snd <$> listed child = participantsIn child.
Proof.
  unfold listed, participantsIn, jidAttr. induction (GetChildren child) as [|p ps IH]; [done|]. cbn [omap list_omap].
  destruct (lookupAttr "jid" (Attrs p)) as [[]|]; case_decide; cbn; by rewrite ?IH.
Qed.

Lemma participantChange_Ok m child c ps us : participantChange m child = Ok (c, ps, us) →
  ∃ au, c = (m au).1 (participantsIn child).
Proof.
  intros Hp. unfold participantChange, parseParticipantList, mbind, attrM_bind in Hp.
  destruct (OptionalString "prev_v_id" _) as [? a1], (OptionalString "v_id" a1) as [? a2]. exists a2.
  destruct (m a2) as [f ag]. destruct (attrsError ag); [done|]. injection Hp as <- _ _. cbn [fst]. by rewrite <- listed_participants.
Qed.

(** What one element does to the two lists. *)
Definition movesNobody (c : groupChange) : Prop := match c with Join _ _ | Leave _ => False | _ => True end.

Lemma reading_moves m child c ps us : (∀ au, movesNobody (m au).1) → reading m child = Ok (c, ps, us) → movesNobody c.
Proof.
  intros Hm. unfold reading. specialize (Hm (AttrGetter_of child)). destruct (m _) as [c' ag]. destruct (attrsError ag); [done|].
  by intros [= <- _ _].
Qed.

Lemma parseChange_members sender t child c ps us : parseChange sender t child = Ok (c, ps, us) →
  if decide (Tag child = "add") then ∃ reason, c = Join reason (participantsIn child)
  else if decide (Tag child = "remove") then c = Leave (participantsIn child) else movesNobody c.
Proof.
  unfold parseChange.
  case_decide; [intros [au ->]%participantChange_Ok; rewrite attrM_bind_run; by eexists|].
  case_decide; [by intros [au ->]%participantChange_Ok|].
  do 2 (case_decide; [by intros [au ->]%participantChange_Ok|]).
  repeat (case_decide; [first
    [ by intros [= <- _ _]
    | intros Hp; try (apply outcome_bind_Ok in Hp as ([? ?] & _ & Hp)); try (apply outcome_bind_Ok in Hp as (? & _ & Hp));
      eapply reading_moves, Hp; intros au; by rewrite ?attrM_bind_run ]|]).
  by intros [= <- _ _].
Qed.

Lemma mapM_members sender t children : ∀ rs joined left,
  mapM (parseChange sender t) children = Ok rs →
  foldl (λ l c, match c with Join _ l' => l' | _ => l end) joined (rs.*1.*1) =
    foldl (λ l child, if decide (Tag child = "add") then participantsIn child else l) joined children ∧
  foldl (λ l c, match c with Leave l' => l' | _ => l end) left (rs.*1.*1) =
    foldl (λ l child, if decide (Tag child = "remove") then participantsIn child else l) left children.
Proof.
  induction children as [|child children IH]; intros rs joined left; cbn [mapM].
  { by intros [= <-]. }
  intros ([[c ps] us] & Hc & (rs' & Hrs & [= <-])%outcome_bind_Ok)%outcome_bind_Ok.
  apply parseChange_members in Hc. cbn [foldl fmap list_fmap fst].
  destruct (decide (Tag child = "add")) as [Ha|Ha].
  - destruct Hc as [reason ->]. rewrite (decide_False (P := Tag child = "remove")) by congruence. by apply IH.
  - destruct (decide (Tag child = "remove")); [subst c; by apply IH|]. destruct c; by apply IH || done.
Qed.

Lemma parseGroupChange_members n e ps us : parseGroupChangeWithUsernames n = Ok (e, ps, us) →
  joins e = namedBy "add" n ∧ leaves e = namedBy "remove" n ∧ geJID e = jidAt n "from".
Proof.
  unfold parseGroupChangeWithUsernames. rewrite !attrM_bind_run.
  assert ((attrJID "from" (AttrGetter_of n)).1 = jidAt n "from") as Hfrom.
  { unfold attrJID, GetJID, jidAt. cbn [auAttrs AttrGetter_of]. by destruct (lookupAttr "from" (Attrs n)) as [[]|]. }
  rewrite Hfrom. cbn [mret attrM_ret]. unfold attrM_ret. destruct (attrsError _); [done|].
  intros (rs & Hrs & [= <- _ _])%outcome_bind_Ok. destruct (mapM_members _ _ _ _ [] [] Hrs) as [Hj Hl].
  unfold joins, leaves, namedBy. cbn [geChanges geJID]. by rewrite Hj, Hl.
Qed.

Definition isCreate (n : node) : bool := match GetChildren n with [c] => bool_decide (Tag c = "create") | _ => false end.

Lemma notify_change s n : isCreate n = false →
  notify s n = match parseGroupChangeWithUsernames n with
               | Ok (e, _, _) => set_groupCache (updateGroupParticipantCache e (groupCache s)) s
               | _ => s
               end.
Proof.
  intros Hn. unfold notify.
  assert (parseGroupNotificationWithUsernames (λ _, None) n s = applyGroupChange n s) as ->.
  { unfold parseGroupNotificationWithUsernames. unfold isCreate in Hn. destruct (GetChildren n) as [|c [|]]; try done.
    apply bool_decide_eq_false in Hn. by rewrite decide_False. }
  unfold applyGroupChange, lift, mbind, stateM_bind. by destruct (parseGroupChangeWithUsernames n) as [[[e p] u]| | |].
Qed.

(** C28: the cached members of a group follow its notifications. Whatever
    notifications of changes arrive, for this group or others, readable or not, the
    cached list has no repetitions and holds exactly the members it had, with those
    named by the [add] elements and without those named by the [remove] elements of the
    group's readable notifications, in their order; the addressing mode stays.
    Notifications that create a group replace the list and are not covered. *)
Theorem group_members_refine (jid : JID) (ns : list node) (s : groupState) (c : groupMetaCache) :
  Forall (λ n, isCreate n = false) ns → groupCache s !! jid = Some c → NoDup (Members c) →
  ∃ c', groupCache (foldl notify s ns) !! jid = Some c' ∧ NoDup (Members c') ∧ AddressingMode c' = AddressingMode c ∧
    (list_to_set (Members c') : gset JID) = foldl (changes jid) (list_to_set (Members c)) ns.
Proof.
  intros Hns. revert s c. induction Hns as [|n ns Hn _ IH]; intros s c Hc Hnd; cbn; [by exists c|].
  rewrite (notify_change s n Hn). unfold changes at 2, readable.
  destruct (parseGroupChangeWithUsernames n) as [[[e p] u]| | |] eqn:He; try by apply IH.
  destruct (parseGroupChange_members n e p u He) as (<- & <- & <-). cbn [andb]. rewrite <- decide_bool_decide.
  destruct (update_cached e jid _ _ Hc Hnd) as (c1 & Hc1 & Hnd1 & Hm1 & Hs1). rewrite <- Hs1, <- Hm1. by apply IH.
Qed.

(** ** Runs *)

Definition familyGroup : JID := NewJID "123-456" GroupServer.
Definition member (user : string) : JID := NewJID user HiddenUserServer.
Definition familyChange (tag : string) (jid : JID) : node :=
  mkNode "notification" [("from", VJID familyGroup); ("t", VString "1700000000")]
    (VNodes [mkNode tag [] (VNodes [mkNode "participant" [("jid", VJID jid)] VNil])]).
Definition family (l : list JID) : groupMetaCache := mkGroupCache "lid" false l.
Definition toyLidMap : CachedLIDMap := mkLIDMap ∅ [] ∅ ∅ false.
Definition familyState : groupState :=
  mkGroups {[familyGroup := family [member "1"; member "2"; member "3"]]} (mkContactStore (mkDatabase (mkContactTables ∅ []) []) ∅)
    (mkTc (mkDatabase (mkTokenTables ∅ ∅ None) []) toyLidMap ∅ None None false).

Lemma group_members_refine_witness :
  ∃ c', groupCache (foldl notify familyState [familyChange "add" (member "4"); familyChange "remove" (member "1")]) !! familyGroup = Some c' ∧
    NoDup (Members c') ∧ AddressingMode c' = "lid" ∧
    (list_to_set (Members c') : gset JID) =
      foldl (changes familyGroup) (list_to_set [member "1"; member "2"; member "3"]) [familyChange "add" (member "4"); familyChange "remove" (member "1")].
Proof.
  apply (group_members_refine familyGroup _ familyState (family [member "1"; member "2"; member "3"])).
  - repeat constructor.
  - reflexivity.
  - cbn. repeat (constructor; [set_solver|]). constructor.
Defined.

(** A sender that holds the list while a member leaves reads the array behind it: the
    last member is there twice. *)
Example leave_repeats_the_last_member :
  overwriteMember [member "1"; member "2"; member "3"] (member "1") = [member "3"; member "2"; member "3"].
Proof. reflexivity. Qed.
