(* ===== verification/NodeEvents.v ===== *)
(** Events that nodes are parsed to: presence (src/presence.go), calls (src/call.go),
    privacy settings (src/privacysettings.go), media retries (src/mediaretry.go) and
    notifications (src/notification.go), with the data of src/types/events. *)
From Stdlib Require Import ZArith Lia.
From Stdlib Require Import Strings.Byte.
From stdpp Require Import prelude gmap strings list.
From S2P Require Import Prelude Strconv Jid Node Attrs Proto MessageInfo Groups.

#[local] Open Scope string_scope.

(** ** Presence *)

Record Presence := mkPresence { prFrom : JID; Unavailable : bool; LastSeen : goTime }.
Definition parsePresence (n : node) : option Presence :=
  let '(p, ag) :=
    (from ← attrJID "from"; presenceType ← OptionalString "type"; lastSeen ← OptionalString "last";
     last ← (if negb (bool_decide (lastSeen = "")) && negb (bool_decide (lastSeen = "deny")) then attrUnixTime "last" else mret ZeroTime);
     mret (mkPresence from (bool_decide (presenceType = "unavailable")) last) : attrM _) (AttrGetter_of n) in
  if OK ag then Some p else None.

Record ChatPresence := mkChatPresence { cpSource : MessageSource; cpState : string; cpMedia : string }.
(** An unknown state is dispatched as well. *)
Definition parseChatState (clientID clientLID : JID) (n : node) : option ChatPresence :=
  match parseMessageSource clientID clientLID n true, GetChildren n with
  | Ok source, [child] => Some (mkChatPresence source (Tag child) (OptionalString "media" (AttrGetter_of child)).1)
  | _, _ => None
  end.

(** ** Calls *)

Record BasicCallMeta := mkCallMeta { callFrom : JID; callTimestamp : goTime; CallCreator : JID; CallCreatorAlt : JID; CallID : string; GroupJID : JID }.
Record CallRemoteMeta := mkRemoteMeta { RemotePlatform : string; RemoteVersion : string }.
Inductive callEvent :=
| CallOffer (meta : BasicCallMeta) (remote : CallRemoteMeta) (data : node)
| CallOfferNotice (meta : BasicCallMeta) (media type : string) (data : node)
| CallRelayLatency (meta : BasicCallMeta) (data : node)
| CallAccept (meta : BasicCallMeta) (remote : CallRemoteMeta) (data : node)
| CallPreAccept (meta : BasicCallMeta) (remote : CallRemoteMeta) (data : node)
| CallTransport (meta : BasicCallMeta) (remote : CallRemoteMeta) (data : node)
| CallTerminate (meta : BasicCallMeta) (reason : string) (data : node)
| CallReject (meta : BasicCallMeta) (data : node)
| UnknownCallEvent (n : node).

(** Missing attributes are read as empty. *)
Definition basicCallMeta (n child : node) : BasicCallMeta :=
  let ag := AttrGetter_of n in
  let cag := AttrGetter_of child in
  let creator := (attrJID "call-creator" cag).1 in
  mkCallMeta (attrJID "from" ag).1 (attrUnixTime "t" ag).1 creator
    (OptionalJIDOrEmpty (if decide (Server creator = HiddenUserServer) then "caller_pn" else "caller_lid") cag).1
    (attrString "call-id" cag).1 (OptionalJIDOrEmpty "group-jid" cag).1.
Definition callRemoteMeta (n : node) : CallRemoteMeta :=
  mkRemoteMeta (attrString "platform" (AttrGetter_of n)).1 (attrString "version" (AttrGetter_of n)).1.
Definition parseCallEvent (n : node) : callEvent :=
  match GetChildren n with
  | [child] =>
      let meta := basicCallMeta n child in
      let cag := AttrGetter_of child in
      if decide (Tag child = "offer") then CallOffer meta (callRemoteMeta n) child
      else if decide (Tag child = "offer_notice") then CallOfferNotice meta (attrString "media" cag).1 (attrString "type" cag).1 child
      else if decide (Tag child = "relaylatency") then CallRelayLatency meta child
      else if decide (Tag child = "accept") then CallAccept meta (callRemoteMeta n) child
      else if decide (Tag child = "preaccept") then CallPreAccept meta (callRemoteMeta n) child
      else if decide (Tag child = "transport") then CallTransport meta (callRemoteMeta n) child
      else if decide (Tag child = "terminate") then CallTerminate meta (attrString "reason" cag).1 child
      else if decide (Tag child = "reject") then CallReject meta child
      else UnknownCallEvent n
  | _ => UnknownCallEvent n
  end.

(** ** Privacy settings *)

Inductive privacyType := GroupAdd | LastSeenSetting | Status | Profile | ReadReceipts | Online | CallAdd | Messages | Defense | Stickers.
#[global] Instance privacyType_eq_dec : EqDecision privacyType.
Proof. solve_decision. Defined.
Definition privacyTypeOf (name : string) : option privacyType :=
  assoc name [("groupadd", GroupAdd); ("last", LastSeenSetting); ("status", Status); ("profile", Profile); ("readreceipts", ReadReceipts);
              ("online", Online); ("calladd", CallAdd); ("messages", Messages); ("defense", Defense); ("stickers", Stickers)].
(** A struct with one field for each setting. *)
Definition PrivacySettings := privacyType → string.
Definition noSettings : PrivacySettings := λ _, "".
Definition setSetting (t : privacyType) (value : string) (s : PrivacySettings) : PrivacySettings := λ t', if decide (t' = t) then value else s t'.
(** Of the event: what changed. Its new settings are never filled in. *)
Definition PrivacyEvent := list privacyType.

Definition applyPrivacySetting (name value : string) (s : PrivacySettings) : PrivacySettings :=
  match privacyTypeOf name with Some t => setSetting t value s | None => s end.
Definition parsePrivacySettings (privacyNode : node) (settings : PrivacySettings) : PrivacySettings * PrivacyEvent :=
  foldl (λ r child,
    if decide (Tag child = "category") then
      let name := (attrString "name" (AttrGetter_of child)).1 in
      match privacyTypeOf name with
      | Some t => (setSetting t (attrString "value" (AttrGetter_of child)).1 r.1, t :: r.2)
      | None => r
      end
    else r) (settings, []) (GetChildren privacyNode).

(** ** Pictures, blocked users, statuses *)

Record Picture := mkPicture { picJID : JID; picAuthor : JID; picTimestamp : goTime; Remove : bool; PictureID : string }.
Definition parsePicture (ts : goTime) (child : node) : option Picture :=
  let '((jid, author), ag) := (jid ← attrJID "jid"; author ← OptionalJIDOrEmpty "author"; mret (jid, author) : attrM _) (AttrGetter_of child) in
  if decide (Tag child = "delete") then if OK ag then Some (mkPicture jid author ts true "") else None
  else if decide (Tag child = "add" ∨ Tag child = "set") then
    let '(id, ag) := attrString "id" ag in if OK ag then Some (mkPicture jid author ts false id) else None
  else None.

Record BlocklistChange := mkBlockChange { blJID : JID; blAction : string }.
Record BlocklistEvent := mkBlocklistEvent { beAction : string; DHash : string; PrevDHash : string; Changes : list BlocklistChange }.
Definition parseBlocklistChange (child : node) : option BlocklistChange :=
  let '(c, ag) := (jid ← attrJID "jid"; action ← attrString "action"; mret (mkBlockChange jid action) : attrM _) (AttrGetter_of child) in
  if OK ag then Some c else None.
Definition parseBlocklistEvent (n : node) : BlocklistEvent :=
  let ag := AttrGetter_of n in
  mkBlocklistEvent (OptionalString "action" ag).1 (attrString "dhash" ag).1 (OptionalString "prev_dhash" ag).1 (omap parseBlocklistChange (GetChildren n)).

Record UserAbout := mkUserAbout { uaJID : JID; uaTimestamp : goTime; uaStatus : string }.
Definition parseStatusNotification (n : node) : option UserAbout :=
  match GetOptionalChildByTag n ["set"] with
  | (child, true) =>
      match Content child with
      | VBytes status => Some (mkUserAbout (attrJID "from" (AttrGetter_of n)).1 (attrUnixTime "t" (AttrGetter_of n)).1 (b2s status))
      | _ => None
      end
  | _ => None
  end.

(** ** Newsletters *)

Record NewsletterMessage := mkNewsletterMessage {
  nmServerID : Z; nmID : string; nmType : string; nmTimestamp : goTime; ViewsCount : Z;
  ReactionCounts : option (gmap string Z); nmMessage : option proto
}.
Definition reactionCounts (n : node) : gmap string Z :=
  foldl (λ m reaction, <[(attrString "code" (AttrGetter_of reaction)).1 := (attrInt "count" (AttrGetter_of reaction)).1]> m) ∅ (GetChildren n).
Definition newsletterPart `{ProtoCodec} (msg : NewsletterMessage) (subchild : node) : NewsletterMessage :=
  let 'mkNewsletterMessage sid id type t views reactions m := msg in
  if decide (Tag subchild = "plaintext") then
    match Content subchild with
    | VBytes body => mkNewsletterMessage sid id type t views reactions (Unmarshal "waE2E.Message" body)
    | _ => msg
    end
  else if decide (Tag subchild = "views_count") then mkNewsletterMessage sid id type t (attrInt "count" (AttrGetter_of subchild)).1 reactions m
  else if decide (Tag subchild = "reactions") then mkNewsletterMessage sid id type t views (Some (reactionCounts subchild)) m
  else msg.
Definition parseNewsletterMessages `{ProtoCodec} (n : node) : list NewsletterMessage :=
  omap (λ child,
    if decide (Tag child = "message") then
      let ag := AttrGetter_of child in
      Some (foldl newsletterPart (mkNewsletterMessage (attrInt "server_id" ag).1 (attrString "id" ag).1 (attrString "type" ag).1 (attrUnixTime "t" ag).1 0 None None)
              (GetChildren child))
    else None) (GetChildren n).

Record NewsletterLiveUpdate := mkLiveUpdate { nlJID : JID; nlTime : goTime; nlMessages : list NewsletterMessage }.
Definition parseNewsletterNotification `{ProtoCodec} (n : node) : NewsletterLiveUpdate :=
  mkLiveUpdate (attrJID "from" (AttrGetter_of n)).1 (attrUnixTime "t" (AttrGetter_of n)).1 (parseNewsletterMessages (GetChildByTag n ["live_updates"])).

(** What the JSON in an update holds, by the first field of [newsletterEvent] that is set:
    its name and its value. *)
Record MexNotificationData := mkMex { mexTimestamp : goTime; OpName : string }.
Class MexJSON := { mexFields : list byte → option (list (string * proto)) }.
Definition mexNames : list string :=
  ["xwa2_notify_newsletter_on_join"; "xwa2_notify_newsletter_on_leave"; "xwa2_notify_newsletter_on_mute_change"; "xwa2_notify_account_reachout_timelock"].
Record MexEvent := mkMexEvent { mexName : string; mexValue : proto; mexData : MexNotificationData }.
Definition parseMexUpdate `{MexJSON} (n child : node) : option MexEvent :=
  if decide (Tag child = "update") then
    match Content child with
    | VBytes childData =>
        fields ← mexFields childData;
        '(name, v) ← head (omap (λ name, pair name <$> assoc name fields) mexNames);
        Some (mkMexEvent name v (mkMex (OptionalUnixTime "t" (AttrGetter_of n)).1 (OptionalString "op_name" (AttrGetter_of child)).1))
    | _ => None
    end
  else None.

(** ** Media retries *)

Record MediaRetryEvent := mkMediaRetry {
  mrCiphertext : option (list byte); mrIV : list byte; mrError : option Z; mrTimestamp : goTime;
  mrMessageID : string; ChatID : JID; SenderID : JID; FromMe : bool
}.
Inductive mediaRetryError := BadRetryAttrs (es : list attrError) | RmrMissing | BadRmrAttrs (es : list attrError) | EncPMissing | EncIVMissing.
Definition parseMediaRetryNotification (n : node) : outcome mediaRetryError MediaRetryEvent :=
  let '((t, id), ag) := (t ← attrUnixTime "t"; id ← attrString "id"; mret (t, id) : attrM _) (AttrGetter_of n) in
  if negb (OK ag) then Err (BadRetryAttrs (Errors ag))
  else
    match GetOptionalChildByTag n ["rmr"] with
    | (_, false) => Err RmrMissing
    | (rmr, true) =>
        let '((chat, me, sender), rmrAG) :=
          (j ← attrJID "jid"; me ← attrBool "from_me"; sender ← OptionalJIDOrEmpty "participant"; mret (j, me, sender) : attrM _) (AttrGetter_of rmr) in
        if negb (OK rmrAG) then Err (BadRmrAttrs (Errors rmrAG))
        else
          match GetOptionalChildByTag n ["error"] with
          | (errNode, true) => Ok (mkMediaRetry None [] (Some (attrInt "code" (AttrGetter_of errNode)).1) t id chat sender me)
          | _ =>
              match Content (GetChildByTag n ["encrypt"; "enc_p"]), Content (GetChildByTag n ["encrypt"; "enc_iv"]) with
              | VBytes ciphertext, VBytes iv => Ok (mkMediaRetry (Some ciphertext) iv None t id chat sender me)
              | VBytes _, _ => Err EncIVMissing
              | _, _ => Err EncPMissing
              end
          end
    end.

(** ** Offline messages *)

Record OfflineSyncPreview := mkPreview { Total : Z; AppDataChanges : Z; offMessages : Z; Notifications : Z; Receipts : Z }.
Definition offlinePreview (child : node) : OfflineSyncPreview :=
  let count k := (attrInt k (AttrGetter_of child)).1 in
  mkPreview (count "count") (count "appdata") (count "message") (count "notification") (count "receipt").

(** ** Events, and calls in goroutines *)

Inductive nodeEvent :=
| PresenceChanged (p : Presence)
| ChatPresenceChanged (p : ChatPresence)
| CallReceived (c : callEvent)
| PrivacySettingsChanged (e : PrivacyEvent)
| PictureChanged (p : Picture)
| BlocklistChanged (e : BlocklistEvent)
| AboutChanged (a : UserAbout)
| NewsletterUpdated (u : NewsletterLiveUpdate)
| MexReceived (e : MexEvent)
| MediaRetried (e : MediaRetryEvent)
| GroupNotified (e : groupNotification)
| IdentityChanged (jid : JID) (timestamp : goTime)
| QRScannedWithoutMultidevice
| OfflinePreviewed (p : OfflineSyncPreview)
| OfflineCompleted (count : Z)
| QR (codes : list string)
| RotateADVSecret (oldSecret newSecret : string)
| PairSuccess (id lid : JID) (businessName platform : string) (props : option proto)
| PairError (id lid : JID) (businessName platform : string) (props : option proto)
| PairPasskeyRequest (publicKey : proto)
| PairPasskeyError (continuation : bool)
| PairPasskeyConfirmation (code : string) (skipHandoffUX : bool)
| Connected.

Inductive nodeTask :=
| EncryptNotificationTask (n : node)
| AppStateNotificationTask (n : node)
| AccountSyncTask (n : node)
| CodePairTask (n : node)
| PasskeyTask (n : node)
| ABPropsTask (key : string) (n : node)
| PairTask (deviceIdentity : list byte) (reqID businessName platform : string) (id lid : JID) (props : option proto)
| UnifiedSessionTask
| ConnectTask.
