(* ===== verification/Events.v ===== *)
(** What the handlers tell the application (src/types/events/events.go) and what they
    start in goroutines of their own; the message event with its wrappers, and verified
    business names (src/user.go). *)
From Stdlib Require Import ZArith Lia.
From Stdlib Require Import Strings.Byte.
From stdpp Require Import prelude strings list.
From S2P Require Import Prelude Jid Node Attrs Proto MessageInfo Receipts.
From S2P Require NodeEvents.

#[local] Open Scope string_scope.

(** ** Verified names *)

Record VerifiedName := mkVerifiedName {
  vnCertificate : proto; vnDetails : proto; VerifiedLevel : string; vnVersion : Z; HostStorage : Z; ActualActors : Z; PrivacyModeTS : goTime
}.
Abbreviation Info := (MessageInfo VerifiedName).

Section names.
Context `{ProtoCodec}.

(** [None]: no name, or one that cannot be read; the callers only log which. *)
Definition parseVerifiedNameContent (verifiedNameNode : node) : option VerifiedName :=
  match Content verifiedNameNode with
  | VBytes rawCert =>
      cert ← Unmarshal "waVnameCert.VerifiedNameCertificate" rawCert;
      details ← Unmarshal "waVnameCert.VerifiedNameCertificate_Details" (asBytes (field "Details" cert));
      Some ((level ← attrString "verified_level"; v ← attrInt "v"; storage ← attrInt "host_storage"; actors ← attrInt "actual_actors";
             ts ← attrUnixTime "privacy_mode_ts";
             mret (mkVerifiedName cert details level v storage actors ts) : attrM _) (AttrGetter_of verifiedNameNode)).1
  | _ => None
  end.
Definition parseVerifiedName (businessNode : node) : option VerifiedName :=
  if decide (Tag businessNode ≠ "business") then None
  else match GetOptionalChildByTag businessNode ["verified_name"] with (n, true) => parseVerifiedNameContent n | _ => None end.
End names.

(** ** Messages *)

(** [DeviceSentMeta] and [IsNewsletterStatus] are fields of the information about the message in Go. *)
Record MessageEvent := mkMessage {
  mInfo : Info;
  mMessage : option proto;
  DeviceSentMeta : option (string * string);
  IsEphemeral : bool;
  IsViewOnce : bool;
  IsViewOnceV2 : bool;
  IsViewOnceV2Extension : bool;
  IsDocumentWithCaption : bool;
  IsLottieSticker : bool;
  IsBotInvoke : bool;
  IsEdit : bool;
  IsAssociatedChild : bool;
  SourceWebMsg : option proto;
  UnavailableRequestID : string;
  mRetryCount : Z;
  NewsletterMeta : option (goTime * goTime);
  RawMessage : option proto;
  IsNewsletterStatus : bool
}.
Definition newMessage (info : Info) (raw : option proto) (retryCount : Z) : MessageEvent :=
  mkMessage info None None false false false false false false false false false None "" retryCount None raw false.

(** The message in a wrapper, if the message is one. *)
Definition opened (wrapper : string) (m : option proto) : option proto * bool :=
  match path [wrapper; "Message"] m with Some m' => (Some m', true) | None => (m, false) end.

Definition unwrapAssociatedChild (child : proto) (wrapperCtx : option proto) : proto :=
  match wrapperCtx with
  | None => child
  | Some overlay =>
      match field "MessageContextInfo" child with
      | None => setField "MessageContextInfo" overlay child
      | Some dst =>
          let fields := match overlay with PMsg fields => fields | _ => [] end in
          setField "MessageContextInfo" (foldl (λ d f, setField f.1 f.2 d) dst fields) child
      end
  end.

(** Go sets the context of the inner message in place, which a raw message that is not
    the message itself sees as well. *)
Definition UnwrapRaw (evt : MessageEvent) : MessageEvent :=
  let raw := RawMessage evt in
  let '(m, sent) := opened "DeviceSentMessage" raw in
  let meta := if sent then Some (asString (path ["DeviceSentMessage"; "DestinationJID"] raw), asString (path ["DeviceSentMessage"; "Phash"] raw))
              else DeviceSentMeta evt in
  let '(m, botInvoke) := opened "BotInvokeMessage" m in
  let '(m, ephemeral) := opened "EphemeralMessage" m in
  let '(m, child) :=
    match path ["AssociatedChildMessage"; "Message"] m with
    | Some child => (Some (unwrapAssociatedChild child (path ["MessageContextInfo"] m)), true)
    | None => (m, false)
    end in
  let '(m, viewOnce) := opened "ViewOnceMessage" m in
  let '(m, viewOnceV2) := opened "ViewOnceMessageV2" m in
  let '(m, viewOnceExt) := opened "ViewOnceMessageV2Extension" m in
  let '(m, lottie) := opened "LottieStickerMessage" m in
  let '(m, caption) := opened "DocumentWithCaptionMessage" m in
  let '(m, edit) := opened "EditedMessage" m in
  let m := match m, path ["MessageContextInfo"] raw with
           | Some inner, Some ctx => if has "MessageContextInfo" inner then m else Some (setField "MessageContextInfo" ctx inner)
           | _, _ => m
           end in
  mkMessage (mInfo evt) m meta (IsEphemeral evt || ephemeral) (IsViewOnce evt || viewOnce || viewOnceV2 || viewOnceExt)
    (IsViewOnceV2 evt || viewOnceV2 || viewOnceExt) (IsViewOnceV2Extension evt || viewOnceExt) (IsDocumentWithCaption evt || caption)
    (IsLottieSticker evt || lottie) (IsBotInvoke evt || botInvoke) (IsEdit evt || edit) (IsAssociatedChild evt || child)
    (SourceWebMsg evt) (UnavailableRequestID evt) (mRetryCount evt) (NewsletterMeta evt) (RawMessage evt) (IsNewsletterStatus evt).

(** A message of version 3: its transport, its content under the name of its type, and the
    application or transport around that. *)
Record FBMessage := mkFBMessage { fbTransport : option proto; fbMessageOf : option (string * proto); FBApplication : option proto; IGTransport : option proto }.

(** ** Events, and calls in goroutines *)

Definition DecryptFailHide : string := "hide".

Inductive event :=
| MessageReceived (m : MessageEvent)
| FBMessageReceived (info : Info) (m : FBMessage) (retryCount : Z)
| UndecryptableMessage (info : Info) (IsUnavailable : bool) (UnavailableType : string) (DecryptFailMode : string)
| UndecryptedMessage (info : Info) (raw : node)
| ReceiptReceived (r : Receipt)
| PushNameChanged (jid jidAlt : JID) (message : option Info) (old new : string)
| BusinessNameChanged (jid : JID) (message : option Info) (old new : string)
| IdentityChange (jid : JID) (timestamp : Z) (implicit : bool)
| HistorySyncReceived (data notification : proto) (id : string)
| RetryReceiptTask (n : node) (info : Info) (forceIncludeIdentity : bool)
| AckTask (n : node) (error : Z)
| MessageReceiptTask (info : Info) (n : node)
| RequestFromPhoneTask (info : Info) (thenAck : node)
| DelayedRequestTask (info : Info)
| IssueTokenTask (jid : JID) (timestamp : Z)
| DeleteOldHashesTask
| UpdateBusinessNameTask (user userAlt : JID) (message : Info) (name : string)
| UpdatePushNameTask (user userAlt : JID) (message : Info) (name : string)
| HistorySyncTask (id : string) (notification : proto)
| StoreHistoryTask (blob : proto) (nonceChanged : bool)
| ProtocolReceiptTask (id receiptType : string)
| KeyShareTask (keys : proto)
| RetryTask (r : Receipt) (n : node)
| NodeEvent (e : NodeEvents.nodeEvent)
| NodeTask (t : NodeEvents.nodeTask).
