(* ===== verification/Armadillo.v ===== *)
(** Messages of version 3 (src/armadillomessage.go, src/sendfb.go, with the versions and
    wrappers of src/proto/armadilloutil, src/proto/waMsgTransport/extra.go and
    src/proto/waMsgApplication/extra.go). The case of a protobuf oneof is a field under
    its name. *)
From Stdlib Require Import ZArith Lia.
From stdpp Require Import prelude strings list.
From S2P Require Import Prelude Node MessageInfo Proto MessageType Events.

#[local] Open Scope string_scope.

Definition FBMessageVersion : Z := 3.
Definition FBMessageApplicationVersion : Z := 2.
Definition IGMessageApplicationVersion : Z := 3.
Definition FBConsumerMessageVersion : Z := 1.
Definition FBArmadilloMessageVersion : Z := 1.
Definition ConsumerApplicationVersion : Z := 1.
Definition MultiDeviceApplicationVersion : Z := 1.
Definition ArmadilloApplicationVersion : Z := 1.

(** ** Reading *)

Inductive armadilloError := BadTransport | UnsupportedVersion (v : Z) | BadPayload | UnsupportedPayload.

(** A payload of one application in another's message. *)
Definition SubProtocol (payload : list byte) (version : Z) : proto := PMsg [("Payload", PBytes payload); ("Version", PInt version)].

Section read.
Context `{ProtoCodec}.

Definition UnmarshalSub (type : string) (msg : option proto) (expectedVersion : Z) : outcome armadilloError proto :=
  let version := asInt (path ["Version"] msg) in
  if decide (version ≠ expectedVersion) then Err (UnsupportedVersion version)
  else match Unmarshal type (asBytes (path ["Payload"] msg)) with Some m => Ok m | None => Err BadPayload end.

(** The message of an application with the name of its type, by the case of the oneof. *)
Definition decodeSubProtocol (sub : option proto) : outcome armadilloError (string * proto) :=
  let case k := sub ≫= field k in
  let decoded type k version := m ← UnmarshalSub type (case k) version; Ok (type, m) in
  match case "ConsumerMessage", case "BusinessMessage", case "PaymentMessage", case "MultiDevice", case "Voip", case "Armadillo" with
  | Some _, _, _, _, _, _ => decoded "waConsumerApplication.ConsumerApplication" "ConsumerMessage" ConsumerApplicationVersion
  | _, Some m, _, _, _, _ => Ok ("Unsupported_BusinessApplication", m)
  | _, _, Some m, _, _, _ => Ok ("Unsupported_PaymentApplication", m)
  | _, _, _, Some _, _, _ => decoded "waMultiDevice.MultiDevice" "MultiDevice" MultiDeviceApplicationVersion
  | _, _, _, _, Some m, _ => Ok ("Unsupported_Voip", m)
  | _, _, _, _, _, Some _ => decoded "waArmadilloApplication.Armadillo" "Armadillo" ArmadilloApplicationVersion
  | _, _, _, _, _, _ => Err UnsupportedPayload
  end.

(** Two messages: the application and what is in it. *)
Definition decodeFBArmadillo (transport : proto) : outcome armadilloError (proto * option (string * proto)) :=
  application ← UnmarshalSub "waMsgApplication.MessageApplication" (path ["Payload"; "ApplicationPayload"] (Some transport)) FBMessageApplicationVersion;
  match field "Payload" application with
  | None => Ok (application, None)
  | Some payload =>
      match field "SubProtocol" payload with
      | Some sub => m ← decodeSubProtocol (Some sub); Ok (application, Some m)
      | None => Err UnsupportedPayload
      end
  end.

Definition decodeIGArmadillo (transport : proto) : outcome armadilloError (proto * option (string * proto)) :=
  inner ← UnmarshalSub "instamadilloTransportPayload.TransportPayload" (path ["Payload"; "ApplicationPayload"] (Some transport)) IGMessageApplicationVersion;
  Ok (inner, match field "Add" inner, field "Supplement" inner, field "Delete" inner with
             | Some m, _, _ => Some ("Add", m)
             | _, Some m, _ => Some ("Supplement", m)
             | _, _, Some m => Some ("Delete", m)
             | _, _, _ => None
             end).

(** The transport is in the event only when it has no payload. *)
Definition decodeArmadillo (data : list byte) : outcome armadilloError FBMessage :=
  match Unmarshal "waMsgTransport.MessageTransport" data with
  | None => Err BadTransport
  | Some transport =>
      match field "Payload" transport with
      | None => Ok (mkFBMessage (Some transport) None None None)
      | Some _ =>
          let version := asInt (path ["Payload"; "ApplicationPayload"; "Version"] (Some transport)) in
          if decide (version = FBMessageApplicationVersion) then
            '(application, m) ← decodeFBArmadillo transport; Ok (mkFBMessage None m (Some application) None)
          else if decide (version = IGMessageApplicationVersion) then
            '(inner, m) ← decodeIGArmadillo transport; Ok (mkFBMessage None m None (Some inner))
          else Err (UnsupportedVersion version)
      end
  end.
End read.

(** ** The attributes of a message *)

Record messageAttrs := mkMessageAttrs { maType : string; maMediaType : string; maEdit : string; maDecryptFail : string; maPollType : string }.
Definition noAttrs : messageAttrs := mkMessageAttrs "" "" "" "" "".

Inductive fbMessage := ConsumerApplication (m : proto) | ArmadilloMessage (m : proto) | OtherApplication.

(** The first of the cases that is set. *)
Fixpoint caseOf {A} (cases : list (string * A)) (m : option proto) : option A :=
  match cases with
  | [] => None
  | (k, a) :: cases => match m ≫= field k with Some _ => Some a | None => caseOf cases m end
  end.

Definition contentAttrs (content : option proto) : messageAttrs :=
  let media s := mkMessageAttrs "" s "" "" "" in
  default noAttrs (caseOf [
    ("MessageText", mkMessageAttrs "text" "" "" "" ""); ("ExtendedTextMessage", mkMessageAttrs "text" "" "" "" "");
    ("ImageMessage", media "image"); ("StickerMessage", media "sticker");
    ("ViewOnceMessage", media (default "" (caseOf [("ImageMessage", "image"); ("VideoMessage", "video")] (path ["ViewOnceMessage"] content))));
    ("DocumentMessage", media "document");
    ("AudioMessage", media (if asBool (path ["AudioMessage"; "PTT"] content) then "ptt" else "audio"));
    ("VideoMessage", media "video"); ("LocationMessage", media "location"); ("LiveLocationMessage", media "location");
    ("ContactMessage", media "vcard"); ("ContactsArrayMessage", media "contact_array");
    ("PollCreationMessage", mkMessageAttrs "poll" "" "" "" "creation");
    ("PollUpdateMessage", mkMessageAttrs "poll" "" "" DecryptFailHide "vote");
    ("ReactionMessage", mkMessageAttrs "reaction" "" "" DecryptFailHide "");
    ("EditMessage", mkMessageAttrs "" "" EditAttributeMessageEdit DecryptFailHide "")] content).

Definition typed (type : string) (a : messageAttrs) : messageAttrs :=
  if decide (maType a = "") then mkMessageAttrs type (maMediaType a) (maEdit a) (maDecryptFail a) (maPollType a) else a.

Definition getAttrsFromFBConsumerMessage (msg : proto) : messageAttrs :=
  let payload := path ["Payload"] (Some msg) in
  typed "text"
    match payload ≫= field "Content", payload ≫= field "ApplicationData" with
    | Some _, _ =>
        let a := contentAttrs (path ["Content"] payload) in
        if decide (maMediaType a = "") then a else typed "media" a
    | None, Some data =>
        match field "Revoke" data with
        | Some revoke =>
            mkMessageAttrs "" "" (if asBool (path ["Key"; "FromMe"] (Some revoke)) then EditAttributeSenderRevoke else EditAttributeAdminRevoke)
              DecryptFailHide ""
        | None => noAttrs
        end
    | None, None => noAttrs
    end.

Definition getAttrsFromFBMessage (msg : fbMessage) : messageAttrs :=
  match msg with
  | ConsumerApplication m => getAttrsFromFBConsumerMessage m
  | ArmadilloMessage _ => mkMessageAttrs "media" "document" "" "" ""
  | OtherApplication => mkMessageAttrs "text" "" "" "" ""
  end.

(** * Properties *)

Lemma decodeArmadillo_transport `{ProtoCodec} data m transport :
  decodeArmadillo data = Ok m → Unmarshal "waMsgTransport.MessageTransport" data = Some transport →
  fbTransport m = match field "Payload" transport with None => Some transport | Some _ => None end.
Proof.
  unfold decodeArmadillo. intros Hd Ht. rewrite Ht in Hd. destruct (field "Payload" transport); [|by injection Hd as <-].
  case_decide; [|case_decide; [|done]].
  - destruct (decodeFBArmadillo transport) as [[app m']| | |]; try done. by injection Hd as <-.
  - destruct (decodeIGArmadillo transport) as [[app m']| | |]; try done. by injection Hd as <-.
Qed.
