(* ===== verification/Cli.v ===== *)
(** The whole client as its message handlers see it: the state of [Client] with the
    caches of devices and groups, the privacy tokens and the chat settings, and what is
    decided outside of the program. *)
From Stdlib Require Import ZArith Lia.
From Stdlib Require Import Strings.Byte.
From stdpp Require Import prelude gmap strings list fin_maps.
From S2P Require Import Prelude Strconv Jid Node Attrs Cache Cbc Sql SignalStore SessionCache LidMap LidMapSpec Requests PreKeys PreKeyUpload MessageInfo Receipts EventBuffer MsgSecret Contacts Proto Client MessageType Events Recents Devices ReportingToken TcToken ChatSettings Groups.

#[local] Open Scope string_scope.

(** ** Outside of the program

    [clock] in nanoseconds. What the network, the clock and the random source do may
    differ at every moment, which counts the calls that ask them. *)

(** What a query tells about a user (src/types/user.go). *)
Record UserInfo := mkUserInfo {
  uiVerifiedName : option VerifiedName; uiStatus : string; uiPictureID : string; uiDevices : list JID; uiLID : JID; uiUsername : string
}.

Record ShadowRelay := mkRelay {
  relayDevices : list JID → option (list JID);
  relayPreKeys : list JID → option (gmap JID (option Bundle));
  relayEncrypt : list byte → JID → option Bundle → list (string * value) → option (node * bool);
  relayUserInfo : list JID → option (gmap JID UserInfo);
  relayDecrypt : node → JID → bool → option (list byte * option (list byte))   (* with the hash of the ciphertext *)
}.

Class Outside := {
  cfg : config;
  hasChatSettings : bool;
  sendsReportingTokens : bool;
  synchronousNames : bool;
  account : option (list byte);          (* [proto.Marshal(cli.Store.Account)] *)
  shadowRelay : option ShadowRelay;
  clock : nat → Z;
  randomBytes : nat → nat → list byte;
  requestIDs : nat → nat → string;
  answerIQ : nat → infoQuery → outcome iqError node;
  written : nat → node → bool;            (* whether the socket took the frame *)
  waitFor : nat → string → waitResult;    (* for the answer to a message *)
  reconnection : nat → iqWorld;           (* what [retryFrame] meets *)
  contextEnded : nat → bool;
  activeReceipts : nat → bool;
  handlers : list (list (effect event) → event → handlerResult);
  GetMessageForRetry : JID → JID → string → option proto;
  PreRetryCallback : option (Receipt → string → Z → option proto → bool);
  (* the choices of the database and of iterations over maps *)
  onSqlite : bool;
  nativeBatches : bool;
  lidChoices : lidEnv;
  newestToken : list tokenRow → option tokenRow;
  firstSender : gmap JID Z → option JID;
  firstGroup : gmap JID groupMetaCache → option JID;
  firstDevices : gmap JID deviceCache → option JID;
  firstRecreated : gmap JID Z → option JID;
  anyContact : gmap JID ContactInfo → option JID;
  scanContacts : gmap JID ContactInfo → list (JID * ContactInfo);
  deduplicated : ∀ A, (A → JID) → list A → list A;
  contactOrder : list (option string * contactRow) → list (option string * contactRow);
  firstSecret : list (list byte * string) → option (list byte * string);
  firstOutgoing : list outgoingRow → option outgoingRow;
  scanSessions : gmap string bool → list (string * bool);
  sortedFields : list tokenField → list tokenField;
  (* history syncs: their download, their decompression and what is done with one *)
  downloadHistory : nat → proto → option (list byte);
  zlibRead : list byte → option (list byte);
  storesHistory : bool;
  deletesHistoryMedia : bool;
  recoverAppState : nat → string → list proto → bool   (* [AppStateClient.handleAppStateRecovery] *)
}.

(** ** State *)

(** Of the device: what is kept in memory, and the row that [Save] writes. *)
Record deviceRow := mkDeviceRow { LIDMigrationTimestamp : Z; CompanionMetaNonce : string }.
Record deviceState := mkDeviceState { inMemory : deviceRow; historySyncNonce : option string; savedRow : database deviceRow }.

Record cli `{SessionCodec} := mkCli {
  base : client event;
  cDevices : gmap JID deviceCache;
  cGroups : gmap JID groupMetaCache;
  cTokens : tcClient;             (* with the LID map of [base] *)
  cSettings : database settingTables;
  cDevice : deviceState;
  moment : nat
}.

Arguments mkCli {_}.

Section cli.
Context `{SignalOps} `{ProtoCodec} `{Crypto} `{Outside}.

Definition set_base (b : client event) (c : cli) : cli := mkCli b (cDevices c) (cGroups c) (cTokens c) (cSettings c) (cDevice c) (moment c).
Definition set_cDevices (d : gmap JID deviceCache) (c : cli) : cli := mkCli (base c) d (cGroups c) (cTokens c) (cSettings c) (cDevice c) (moment c).
Definition set_cGroups (g : gmap JID groupMetaCache) (c : cli) : cli := mkCli (base c) (cDevices c) g (cTokens c) (cSettings c) (cDevice c) (moment c).
Definition set_cTokens (t : tcClient) (c : cli) : cli := mkCli (base c) (cDevices c) (cGroups c) t (cSettings c) (cDevice c) (moment c).
Definition set_cSettings (d : database settingTables) (c : cli) : cli := mkCli (base c) (cDevices c) (cGroups c) (cTokens c) d (cDevice c) (moment c).
Definition set_moment (n : nat) (c : cli) : cli := mkCli (base c) (cDevices c) (cGroups c) (cTokens c) (cSettings c) (cDevice c) n.

Definition set_cDevice (d : deviceState) (c : cli) : cli := mkCli (base c) (cDevices c) (cGroups c) (cTokens c) (cSettings c) d (moment c).

Definition cliM (F A : Type) : Type := stateM cli F A.
#[local] Instance cliM_ret {F} : MRet (cliM F) := λ A, stateM_ret A.
#[local] Instance cliM_bind {F} : MBind (cliM F) := λ A B, stateM_bind A B.

Definition tick {F} : cliM F nat := λ c, (Ok (moment c), set_moment (S (moment c)) c).
Definition now {F} : cliM F Z := t ← tick; mret (clock t).
Definition seconds {F} : cliM F Z := t ← now; mret (t / 1000000000)%Z.
Definition random {F} (len : nat) : cliM F (list byte) := t ← tick; mret (take len (randomBytes t len)).

Definition onBase {F A} (m : stateM (client event) F A) : cliM F A := zoom base set_base id m.
Definition failing_with {F G A} (err : F → G) (m : cliM F A) : cliM G A := zoom id (λ s _, s) err m.
(** A call whose error is only logged. *)
Definition attempt {F G A} (m : cliM G A) : cliM F unit := _ ← Client.try m; mret tt.

Definition tokensOf (c : cli) : tcClient := setTcLids (cLids (base c)) (cTokens c).
Definition setTokens (t : tcClient) (c : cli) : cli := set_cTokens t (set_base (set_cLids (tcLids t) (base c)) c).
Definition onTokens {F A} (err : tcError → F) (m : tcM A) : cliM F A := zoom tokensOf setTokens err m.

Definition groupsOf (c : cli) : groupState := mkGroups (cGroups c) (cContacts (base c)) (tokensOf c).
Definition setGroups (g : groupState) (c : cli) : cli :=
  set_cGroups (groupCache g) (setTokens (gTc g) (set_base (set_cContacts (gContacts g) (base c)) c)).
Definition onGroups {F A} (err : groupError → F) (m : groupM A) : cliM F A := zoom groupsOf setGroups err m.

Definition onSettings {F A} (err : dbError → F) (m : settingM A) : cliM F A := zoom cSettings set_cSettings err m.

Definition ownID : JID := cfgOwnID cfg.
Definition ownLID : JID := cfgOwnLID cfg.
Definition lidFor (pn : JID) : cliM lidError JID := onBase (onLids id (lidOf lidChoices pn)).
Definition pnFor (lid : JID) : cliM lidError JID := onBase (onLids id (pnOf lidChoices lid)).

(** [sendIQ]. *)
Definition query {F} (err : iqError → F) (q : infoQuery) : cliM F node := t ← tick; lift (map_err err (answerIQ t q)).

(** [sendNode]: whether the socket took it. *)
Definition trySend {F} (n : node) : cliM F bool :=
  t ← tick;
  if written t n then _ ← onBase (logging (sendNode n)); mret true else mret false.
(** A node whose failure is only logged. *)
Definition sendLogged {F} (n : node) : cliM F unit := _ ← trySend n; mret tt.
Definition dispatch {F} (e : event) : cliM F bool := onBase (logging (dispatchEvent handlers e)).
Definition start {F} (e : event) : cliM F unit := onBase (logging (modify (λ log, (log ++ [Started e])%list))).

(** [Save] of the device store, for the two columns that change. *)
Definition onDeviceState {F A} (m : stateM deviceState F A) : cliM F A := zoom cDevice set_cDevice id m.
Definition Save : cliM dbError unit :=
  onDeviceState (s ← get; zoom savedRow (λ d s, mkDeviceState (inMemory s) (historySyncNonce s) d) id (update (λ _, inMemory s))).

(** ** Calls of the parts *)

Definition GetUserDevices (jids : list JID) : cliM deviceError (list JID) :=
  t ← tick;
  zoom cDevices set_cDevices id
    (Devices.GetUserDevices firstDevices (requestIDs t) (λ q, match answerIQ t q with Ok n => Some n | _ => None end)
       (relayDevices <$> shadowRelay) jids).

Definition getCachedGroupData (jid : JID) : cliM groupError (option groupMetaCache) :=
  t ← tick;
  onGroups id (Groups.getCachedGroupData onSqlite lidChoices firstGroup deduplicated (answerIQ t) jid).
Definition getBroadcastListParticipants (jid : JID) : cliM broadcastError (list JID) :=
  t ← tick;
  zoom (cContacts ∘ base) (λ s c, set_base (set_cContacts s (base c)) c) id
    (Groups.getBroadcastListParticipants anyContact contactOrder (answerIQ t) ownID scanContacts jid).
Definition ensureTCToken (jid : JID) : cliM tcError (option (list byte)) :=
  t ← seconds;
  onTokens id (TcToken.ensureTCToken onSqlite newestToken lidChoices firstSender t ownID jid).

(** Contacts, and lists of mappings and usernames whose failure is logged. *)
Definition onContacts {F A} (err : dbError → F) (m : contactM A) : cliM F A := onBase (onContactStore err m).
Definition storeMappings (mappings : list LIDMapping) : cliM lidError unit :=
  onBase (onLids id (PutManyLIDMappings maxLIDCacheEntries (LidMapSpec.firstKey lidChoices) (dedup lidChoices) mappings)).
Definition storeUsernames {F} (entries : list ContactUsernameEntry) : cliM F unit :=
  attempt (onContacts id (PutManyContactUsernames onSqlite entries)).

(** [StoreLIDPNMapping] (src/client.go): a pair in either order. *)
Definition StoreLIDPNMapping {F} (first second : JID) : cliM F unit :=
  if decide (Server first = HiddenUserServer ∧ Server second = DefaultUserServer) then
    attempt (onBase (onLids id (PutLIDMapping maxLIDCacheEntries (LidMapSpec.firstKey lidChoices) first second)))
  else if decide (Server first = DefaultUserServer ∧ Server second = HiddenUserServer) then
    attempt (onBase (onLids id (PutLIDMapping maxLIDCacheEntries (LidMapSpec.firstKey lidChoices) second first)))
  else mret tt.
(** [GetAltJID] (src/store/store.go). *)
Definition GetAltJID (jid : JID) : cliM lidError JID :=
  if decide (Server jid = DefaultUserServer) then lidFor jid
  else if decide (Server jid = HiddenUserServer) then pnFor jid
  else mret EmptyJID.

(** [migrateSessionStore] (src/message.go): a failure is only logged. *)
Definition migrateSessionStore `{MapOrder} {F} (pn lid : JID) : cliM F unit :=
  t ← now; later ← now;
  attempt (onBase (onDevice id (MigratePNToLID onSqlite pn lid t later))).

(** The text of a Signal address. *)
Definition addressString (j : JID) : string := let '(name, device) := SignalAddress j in name +:+ ":" +:+ FormatInt device.

(** [clearUntrustedIdentity] (src/message.go). *)
Definition clearUntrustedIdentity `{MapOrder} (target : JID) : cliM dbError unit :=
  let address := addressString target in
  _ ← onBase (onDevice id (DeleteIdentity maxIdentityCacheEntries address));
  _ ← onBase (onDevice id (DeleteSession address));
  t ← now;
  start (IdentityChange target t true).

(** * Properties *)

Lemma cli_bind {F A B} (m : cliM F A) (f : A → cliM F B) c b c' :
  mbind (M := cliM F) f m c = (Ok b, c') → ∃ a c1, m c = (Ok a, c1) ∧ f a c1 = (Ok b, c').
Proof. apply stateM_bind_Ok. Qed.

Lemma try_inr {S F G A} (m : stateM S F A) c (a : A) c' :
  Client.try (G := G) m c = (Ok (inr a), c') → m c = (Ok a, c').
Proof. unfold Client.try. destruct (m c) as [[x|e| |] s]; by intros [= -> ->]. Qed.

Lemma try_inl {S F G A} (m : stateM S F A) c (e : F) c' :
  Client.try (G := G) m c = (Ok (inl e), c') → m c = (Err e, c').
Proof. unfold Client.try. destruct (m c) as [[x|e'| |] s]; by intros [= -> ->]. Qed.
End cli.
