(* ===== verification/Users.v ===== *)
(** Users (src/user.go): what a query tells about them, resolving phone numbers to
    LIDs, names, bots, business profiles and the block list. The store of contacts is
    there. *)
From Stdlib Require Import ZArith Lia.
From Stdlib Require Import Strings.Byte.
From stdpp Require Import prelude gmap strings list fin_maps.
From S2P Require Import Prelude Strconv Jid Node Attrs Cbc SignalStore SessionCache LidMap LidMapSpec Requests MessageInfo Contacts Proto Client Events Devices TcToken Groups Cli.

#[local] Open Scope string_scope.

Inductive userError :=
| UserIQ (e : iqError)
| UnknownServer (server : string)
| UserElementMissing (tag : string)
| UserAttrs (es : list attrError)
| UserLid (e : lidError)
| ErrBusinessMessageLinkNotFound | ErrContactQRLinkNotFound | ErrUsernameNotFound | NonLID | NonPN | NoLID | MissingProfileJID | RelayUserInfoFailed.

Definition BusinessMessageLinkPrefix : string := "https://wa.me/message/".
Definition ContactQRLinkPrefix : string := "https://wa.me/qr/".
Definition BusinessMessageLinkDirectPrefix : string := "https://api.whatsapp.com/message/".
Definition ContactQRLinkDirectPrefix : string := "https://api.whatsapp.com/qr/".

Definition hasPrefix (prefix link : string) : bool := bool_decide (take (length (s2b prefix)) (s2b link) = s2b prefix).
(** The first of two prefixes that the link has. *)
Definition stripURLPrefixes (link first second : string) : string :=
  if hasPrefix first link then stripURLPrefix link first else stripURLPrefix link second.

(** [strings.TrimSuffix]. *)
Definition TrimSuffix (s suffix : string) : string :=
  let n := (length (s2b s) - length (s2b suffix))%nat in
  if decide (drop n (s2b s) = s2b suffix) then b2s (take n (s2b s)) else s.

(** Content that must be bytes: a Go type assertion that panics. *)
Definition contentString (n : node) : outcome userError string := match Content n with VBytes b => Ok (b2s b) | _ => Panic end.

Record BusinessMessageLinkTarget := mkLinkTarget {
  bmJID : JID; bmPushName : string; bmVerifiedName : string; IsSigned : bool; bmVerifiedLevel : string; bmMessage : string
}.
Record IsOnWhatsAppResponse := mkOnWhatsApp {
  Query : string; oJID : JID; oPhoneNumber : JID; IsIn : bool; oUsername : string; oVerifiedName : option VerifiedName
}.
Record UsernameResolution := mkResolution { rUserLID : JID; rUsername : string; KeyRequired : bool }.
Record BotProfileInfo := mkBotProfile {
  bpJID : JID; bpName : string; bpAttributes : string; bpDescription : string; bpCategory : string; bpIsDefault : bool;
  Prompts : list string; PersonaID : string; Commands : list (string * string); CommandsDescription : string
}.
Record BusinessProfile := mkProfile {
  pJID : JID; pEmail : string; pAddress : string; pDescription : string; Websites : list string; CoverPhotoID : string;
  Categories : list (string * string); ProfileOptions : gmap string string; BusinessHoursTimeZone : string;
  BusinessHours : list (string * string * string * string)
}.
Record BlocklistItem := mkBlocked { biLID : JID; biPN : JID; Active : bool }.
Record Blocklist := mkBlocklist { blAddressingMode : string; DHash : string; Items : list BlocklistItem }.
Record usyncExtras := mkExtras { BotListInfo : list (JID * string); IncludePrivacyToken : bool; xUsername : string; xUsernameKey : string }.
Definition noExtras : usyncExtras := mkExtras [] false "" "".

(** ** Reading *)

Definition parseUSyncUsername (user : node) : string :=
  match Content (GetChildByTag user ["username"]) with
  | VBytes (b :: l) => b2s (b :: l)
  | _ => (OptionalString "username" (AttrGetter_of (GetChildByTag user ["contact"]))).1
  end.

Definition parseUsernameResolution (l : node) : outcome userError UsernameResolution :=
  match GetChildren l with
  | [user] =>
      if decide (Tag user ≠ "user") then Err ErrUsernameNotFound
      else
        let '(type, contactAttrs) := OptionalString "type" (AttrGetter_of (GetChildByTag user ["contact"])) in
        if decide (type = "out") then Err ErrUsernameNotFound
        else
          let lid := ToNonAD (OptionalJIDOrEmpty "jid" (AttrGetter_of user)).1 in
          if IsEmpty lid then Ok (mkResolution EmptyJID "" true)
          else if decide (Server lid ≠ HiddenUserServer) then Err NonLID
          else Ok (mkResolution lid (OptionalString "username" contactAttrs).1 false)
  | _ => Err ErrUsernameNotFound
  end.

Definition parseBlocklist (n : node) : Blocklist * list LIDMapping :=
  let items := omap (λ child,
    let '(blocked, ag) := attrJID "jid" (AttrGetter_of child) in
    match attrsError ag with
    | Some _ => None
    | None => Some (mkBlocked blocked (OptionalJIDOrEmpty "pn_jid" ag).1 (OptionalBool "active" ag).1)
    end) (GetChildren n) in
  (mkBlocklist (attrString "addressing_mode" (AttrGetter_of n)).1 (attrString "dhash" (AttrGetter_of n)).1 items,
   omap (λ i, if Active i && bool_decide (Server (biLID i) = HiddenUserServer ∧ Server (biPN i) = DefaultUserServer)
              then Some (mkMapping (biLID i) (biPN i)) else None) items).

Definition attrOf (key : string) (n : node) : string := (attrString key (AttrGetter_of n)).1.
Definition bytesOf (n : node) (tag : string) : string := b2s (contentBytes (GetChildByTag n [tag])).

Definition businessHours (config : node) : option (string * string * string * string) :=
  if decide (Tag config = "business_hours_config")
  then Some (attrOf "day_of_week" config, attrOf "mode" config, attrOf "open_time" config, attrOf "close_time" config) else None.
Definition parseBusinessProfile (n : node) : outcome userError BusinessProfile :=
  let profileNode := GetChildByTag n ["profile"] in
  match GetJID "jid" true (AttrGetter_of profileNode) with
  | ((jid, true), _) =>
      let hours := GetChildByTag profileNode ["business_hours"] in
      Ok (mkProfile jid (bytesOf profileNode "email") (bytesOf profileNode "address") (bytesOf profileNode "description")
            ((λ w, b2s (contentBytes w)) <$> GetChildrenByTag profileNode "website")
            (attrOf "id" (GetChildByTag profileNode ["cover_photo"]))
            (omap (λ c, if decide (Tag c = "category") then Some (attrOf "id" c, b2s (contentBytes c)) else None)
               (GetChildren (GetChildByTag profileNode ["categories"])))
            (foldl (λ o c, <[Tag c := b2s (contentBytes c)]> o) ∅ (GetChildren (GetChildByTag profileNode ["profile_options"])))
            (attrOf "timezone" hours) (omap businessHours (GetChildren hours)))
  | _ => Err MissingProfileJID
  end.

Definition botCommand (n : node) : outcome userError (string * string) :=
  name ← contentString (GetChildByTag n ["name"]);
  description ← contentString (GetChildByTag n ["description"]);
  Ok (name, description).
Definition botPrompt (n : node) : outcome userError string :=
  emoji ← contentString (GetChildByTag n ["emoji"]);
  text ← contentString (GetChildByTag n ["text"]);
  Ok (emoji +:+ " " +:+ text).
Definition botProfile (user : node) : outcome userError BotProfileInfo :=
  let profile := GetChildByTag (GetChildByTag user ["bot"]) ["profile"] in
  let text tag := contentString (GetChildByTag profile [tag]) in
  name ← text "name";
  attributes ← text "attributes";
  description ← text "description";
  category ← text "category";
  let commandsNode := GetChildByTag profile ["commands"] in
  commandDescription ← contentString (GetChildByTag commandsNode ["description"]);
  commands ← mapM botCommand (GetChildrenByTag commandsNode "command");
  prompts ← mapM botPrompt (GetChildrenByTag (GetChildByTag profile ["prompts"]) "prompt");
  Ok (mkBotProfile (attrJID "jid" (AttrGetter_of user)).1 name attributes description category (GetOptionalChildByTag profile ["default"]).2
        prompts (attrOf "persona_id" profile) commands commandDescription).

(** ** Names *)

Section users.
Context `{SignalOps} `{ProtoCodec} `{Crypto} `{Outside}.
Abbreviation userM := (cliM userError).
#[local] Existing Instances cliM_ret cliM_bind.

Definition alternateOf {F} (user userAlt : JID) : cliM F JID :=
  let userAlt := ToNonAD userAlt in
  if IsEmpty userAlt then r ← Client.try (GetAltJID user); mret (match r with inr j => j | inl _ => EmptyJID end)
  else mret userAlt.

(** A name is stored under both addresses and announced when it changed. *)
Definition nameChanged {F} (put : JID → contactM (bool * string)) (event : JID → string → event) (user userAlt : JID) : cliM F unit :=
  r ← Client.try (onContacts id (put user));
  match r with
  | inl _ | inr (false, _) => mret tt
  | inr (true, previousName) =>
      userAlt ← alternateOf user userAlt;
      _ ← (if IsEmpty userAlt then mret tt else attempt (onContacts id (put userAlt)));
      _ ← dispatch (event userAlt previousName);
      mret tt
  end.
Definition updatePushName {F} (user userAlt : JID) (messageInfo : option Info) (name : string) : cliM F unit :=
  let user := ToNonAD user in
  nameChanged (λ j, PutPushName onSqlite anyContact j name) (λ alt old, PushNameChanged user alt messageInfo old name) user userAlt.
Definition updateBusinessName {F} (user userAlt : JID) (messageInfo : option Info) (name : string) : cliM F unit :=
  nameChanged (λ j, PutBusinessName onSqlite anyContact j name) (λ _ old, BusinessNameChanged user messageInfo old name) user userAlt.

(** The push names of a history sync. *)
Fixpoint handleHistoricalPushNames {F} (names : list proto) : cliM F unit :=
  match names with
  | [] => mret tt
  | user :: names =>
      let name := asString (field "Pushname" user) in
      _ ← (if decide (name = "-") then mret tt
           else match ParseJID (asString (field "ID" user)) with
                | (jid, None) => attempt (onContacts id (PutPushName onSqlite anyContact jid name))
                | _ => mret tt
                end);
      handleHistoricalPushNames names
  end.

(** ** Queries *)

Definition personaOf (x : usyncExtras) (jid : JID) : string :=
  foldl (λ p bot, if decide (User bot.1 = User jid) then bot.2 else p) "" (BotListInfo x).
Definition usyncUserWith (x : usyncExtras) (jid : JID) : userM node :=
  let jid := ToNonAD jid in
  if decide (xUsername x ≠ "") then
    mret (mkNode "user" [] (VNodes [mkNode "contact"
      (("username", VString (xUsername x)) :: if decide (xUsernameKey x = "") then [] else [("pin", VString (xUsernameKey x))]) VNil]))
  else if decide (Server jid = LegacyUserServer) then mret (mkNode "user" [] (VNodes [mkNode "contact" [] (VString (JIDString jid))]))
  else if decide (Server jid = DefaultUserServer ∨ Server jid = HiddenUserServer) then
    content ← (if IsBot jid then mret (VNodes [mkNode "bot" [] (VNodes [mkNode "profile" [("persona_id", VString (personaOf x jid))] VNil])])
               else if IncludePrivacyToken x then
                 token ← Client.try (ensureTCToken jid);
                 mret (match token with inr (Some (b :: l)) => VNodes [mkNode "tctoken" [] (VBytes (b :: l))] | _ => VNil end)
               else mret VNil);
    mret (mkNode "user" [("jid", VJID jid)] content)
  else throw (UnknownServer (Server jid)).
Fixpoint usyncUsers (x : usyncExtras) (jids : list JID) : userM (list node) :=
  match jids with
  | [] => mret []
  | jid :: jids => n ← usyncUserWith x jid; ns ← usyncUsers x jids; mret (n :: ns)
  end.
Definition usync (jids : list JID) (mode context : string) (q : list node) (x : usyncExtras) : userM node :=
  userList ← usyncUsers x jids;
  t ← tick;
  resp ← query UserIQ (usyncQuery (requestIDs t 1) (requestIDs t 0) mode context q userList);
  match GetOptionalChildByTag resp ["usync"; "list"] with (l, true) => mret l | _ => throw (UserElementMissing "list") end.

Definition verifiedNameQuery : node := mkNode "business" [] (VNodes [mkNode "verified_name" [] VNil]).
Definition contactQuery : node := mkNode "contact" [("addressing_mode", VString "lid")] VNil.

(** One user of the answer; the verified name is stored but not returned. *)
Fixpoint userInfos (children : list node) (acc : gmap JID UserInfo * list LIDMapping * list ContactUsernameEntry) :
    userM (gmap JID UserInfo * list LIDMapping * list ContactUsernameEntry) :=
  match children with
  | [] => mret acc
  | child :: children =>
      match userChild child with
      | None => userInfos children acc
      | Some jid =>
          let '(respData, mappings, usernames) := acc in
          let lid := (OptionalJIDOrEmpty "val" (AttrGetter_of (GetChildByTag child ["lid"]))).1 in
          let username := parseUSyncUsername child in
          let info := mkUserInfo None (bytesOf child "status")
            (match lookupAttr "id" (Attrs (GetChildByTag child ["picture"])) with Some (VString s) => s | _ => "" end)
            (parseDeviceList jid (GetChildByTag child ["devices"])) lid username in
          _ ← (match parseVerifiedName (GetChildByTag child ["business"]) with
               | Some v => updateBusinessName jid lid None (asString (field "VerifiedName" (vnDetails v)))
               | None => mret tt
               end);
          userInfos children
            (<[jid := info]> respData,
             if IsEmpty lid then mappings else mappings ++ [mkMapping lid jid],
             if decide (username = "") then usernames else usernames ++ [mkUsername (if IsEmpty lid then jid else lid) username])%list
      end
  end.
Definition GetUserInfo (jids : list JID) : userM (gmap JID UserInfo) :=
  match relayUserInfo <$> shadowRelay with
  | Some relay => match relay jids with Some m => mret m | None => throw RelayUserInfoFailed end
  | None =>
      l ← usync jids "full" "background"
        [verifiedNameQuery; mkNode "status" [] VNil; mkNode "picture" [] VNil; mkNode "devices" [("version", VString "2")] VNil;
         mkNode "lid" [] VNil; mkNode "username" [] VNil] (mkExtras [] true "" "");
      '(respData, mappings, usernames) ← userInfos (GetChildren l) (∅, [], []);
      _ ← attempt (storeMappings mappings);
      _ ← storeUsernames usernames;
      mret respData
  end.

(** The LID of a phone number, with its device. *)
Definition ResolveLID (phone : JID) : userM JID :=
  let device := Device phone in
  let phone := ToNonAD phone in
  if decide (Server phone ≠ DefaultUserServer) then throw NonPN
  else
    lid ← failing_with UserLid (lidFor phone);
    if IsEmpty lid then
      info ← GetUserInfo [phone];
      let lid := match info !! phone with Some i => ToNonAD (uiLID i) | None => EmptyJID end in
      if IsEmpty lid then throw NoLID else mret (set_device device lid)
    else mret (set_device device (ToNonAD lid)).

(** One user of the answer: an address under both of its names, and whether it is one. *)
Definition onWhatsApp (child : node) : option (IsOnWhatsAppResponse * option LIDMapping * option ContactUsernameEntry) :=
  let '((jid, pnJID), _) := (j ← OptionalJIDOrEmpty "jid"; p ← OptionalJIDOrEmpty "pn_jid"; mret (j, p) : attrM _) (AttrGetter_of child) in
  if bool_decide (Tag child ≠ "user") || (IsEmpty jid && IsEmpty pnJID) then None
  else
    let main := if IsEmpty jid then pnJID else jid in
    let contactNode := GetChildByTag child ["contact"] in
    let username := parseUSyncUsername child in
    Some (mkOnWhatsApp (TrimSuffix (b2s (contentBytes contactNode)) ("@" +:+ LegacyUserServer)) main pnJID
            (bool_decide (attrOf "type" contactNode = "in")) username (parseVerifiedName (GetChildByTag child ["business"])),
          if decide (Server main = HiddenUserServer ∧ Server pnJID = DefaultUserServer) then Some (mkMapping main pnJID) else None,
          if decide (username ≠ "" ∧ Server main = HiddenUserServer) then Some (mkUsername main username) else None).
Definition IsOnWhatsApp (phones : list string) : userM (list IsOnWhatsAppResponse * option lidError) :=
  l ← usync ((λ p, NewJID p LegacyUserServer) <$> phones) "query" "interactive"
    [contactQuery; verifiedNameQuery; mkNode "disappearing_mode" [] VNil; mkNode "username" [] VNil] noExtras;
  let found := omap onWhatsApp (GetChildren l) in
  let output := found.*1.*1 in
  r ← (match omap (λ x, x.1.2) found with [] => mret (inr tt) | mappings => Client.try (storeMappings mappings) end);
  match r with
  | inl e => mret (output, Some e)
  | inr _ => _ ← storeUsernames (omap snd found); mret (output, None)
  end.

(** ** Links, bots and profiles *)

Definition qrQuery (iqType : string) (attrs : list (string * value)) : infoQuery :=
  mkInfoQuery "w:qr" iqType EmptyJID EmptyJID "" "" (VNodes [mkNode "qr" attrs VNil]).
Definition notFound (e : userError) (err : iqError) : userError :=
  match err with IQErrorAnswer _ 404 "item-not-found" => e | _ => UserIQ err end.
Definition childFrom (resp : node) (tag : string) : userM node :=
  match GetOptionalChildByTag resp [tag] with (n, true) => mret n | _ => throw (UserElementMissing tag) end.

(** What was read comes with the errors of the attributes. *)
Definition ResolveBusinessMessageLink (code : string) : userM (BusinessMessageLinkTarget * option (list attrError)) :=
  resp ← query (notFound ErrBusinessMessageLinkNotFound)
    (qrQuery "get" [("code", VString (stripURLPrefixes code BusinessMessageLinkPrefix BusinessMessageLinkDirectPrefix))]);
  qrChild ← childFrom resp "qr";
  let '((jid, push), ag) := (j ← attrJID "jid"; p ← attrString "notify"; mret (j, p) : attrM _) (AttrGetter_of qrChild) in
  let message := match GetOptionalChildByTag qrChild ["message"] with (n, true) => b2s (contentBytes n) | _ => "" end in
  let '((isSigned, name, level), _) :=
    match GetOptionalChildByTag qrChild ["business"] with
    | (n, true) => (s ← OptionalBool "is_signed"; v ← OptionalString "verified_name"; l ← OptionalString "verified_level"; mret (s, v, l) : attrM _)
                     (AttrGetter_of n)
    | _ => ((false, "", ""), AttrGetter_of qrChild)
    end in
  mret (mkLinkTarget jid push name isSigned level message, attrsError ag).
Definition ResolveContactQRLink (code : string) : userM (JID * string * string * option (list attrError)) :=
  resp ← query (notFound ErrContactQRLinkNotFound)
    (qrQuery "get" [("code", VString (stripURLPrefixes code ContactQRLinkPrefix ContactQRLinkDirectPrefix))]);
  qrChild ← childFrom resp "qr";
  let '((jid, push, type), ag) :=
    (j ← attrJID "jid"; p ← OptionalString "notify"; t ← attrString "type"; mret (j, p, t) : attrM _) (AttrGetter_of qrChild) in
  mret (jid, push, type, attrsError ag).
Definition GetContactQRLink (revoke : bool) : userM (string * option (list attrError)) :=
  resp ← query UserIQ (qrQuery "set" [("type", VString "contact"); ("action", VString (if revoke then "revoke" else "get"))]);
  qrChild ← childFrom resp "qr";
  let '(code, ag) := attrString "code" (AttrGetter_of qrChild) in
  mret (code, attrsError ag).

Definition GetBotListV2 : userM (list (JID * string)) :=
  resp ← query UserIQ (mkInfoQuery "bot" "get" ServerJID EmptyJID "" "" (VNodes [mkNode "bot" [("v", VString "2")] VNil]));
  botNode ← childFrom resp "bot";
  mret (concat ((λ section,
    if decide (attrOf "type" section = "all") then
      (λ bot, let '((p, j), _) := (p ← attrString "persona_id"; j ← attrJID "jid"; mret (p, j) : attrM _) (AttrGetter_of bot) in (j, p))
        <$> GetChildrenByTag section "bot"
    else []) <$> GetChildrenByTag botNode "section")).
Definition GetBotProfiles (bots : list (JID * string)) : userM (list BotProfileInfo) :=
  l ← usync bots.*1 "query" "interactive" [mkNode "bot" [] (VNodes [mkNode "profile" [("v", VString "1")] VNil])] (mkExtras bots false "" "");
  lift (mapM botProfile (GetChildren l)).

Definition GetBusinessProfile (jid : JID) : userM BusinessProfile :=
  resp ← query UserIQ (mkInfoQuery "w:biz" "get" ServerJID EmptyJID "" ""
    (VNodes [mkNode "business_profile" [("v", VString "244")] (VNodes [mkNode "profile" [("jid", VJID jid)] VNil])]));
  n ← childFrom resp "business_profile";
  lift (parseBusinessProfile n).

(** ** The block list *)

Definition blocklistQuery (iqType : string) (content : value) : infoQuery := mkInfoQuery "blocklist" iqType ServerJID EmptyJID "" "" content.
(** [None]: the list has the hash that was given. *)
Definition GetBlocklist (dhash : string) : userM (option Blocklist) :=
  resp ← query UserIQ (blocklistQuery "get" (if decide (dhash = "") then VNodes [] else VNodes [mkNode "item" [("dhash", VString dhash)] VNil]));
  match GetOptionalChildByTag resp ["list"] with
  | (l, true) =>
      let '(blocklist, mappings) := parseBlocklist l in
      _ ← (match mappings with [] => mret tt | _ => attempt (storeMappings mappings) end);
      mret (Some blocklist)
  | _ => if decide (dhash = "") then throw (UserElementMissing "list") else mret None
  end.

Definition BlocklistChangeActionBlock : string := "block".
(** The two addresses of the user that is blocked. *)
Definition blockedAddresses (jid : JID) (action : string) : userM (JID * JID) :=
  if decide (Server jid = DefaultUserServer) then
    lid ← failing_with UserLid (lidFor jid);
    if IsEmpty lid then
      info ← GetUserInfo [jid];
      let lid := match info !! jid with Some i => uiLID i | None => EmptyJID end in
      if IsEmpty lid then throw NoLID else mret (lid, jid)
    else mret (lid, jid)
  else if decide (Server jid = HiddenUserServer) then
    if decide (action = BlocklistChangeActionBlock) then pn ← failing_with UserLid (pnFor jid); mret (jid, pn)
    else mret (jid, EmptyJID)
  else mret (EmptyJID, EmptyJID).
Definition UpdateBlocklist (jid : JID) (action dhash : string) : userM (option Blocklist) :=
  '(lidJID, pnJID) ← blockedAddresses jid action;
  resp ← query UserIQ (blocklistQuery "set" (VNodes [mkNode "item"
    ([("jid", VJID lidJID); ("action", VString action)]
      ++ (if bool_decide (action = BlocklistChangeActionBlock) && negb (IsEmpty pnJID) then [("pn_jid", VJID pnJID)] else [])
      ++ (if decide (dhash = "") then [] else [("dhash", VString dhash)]))%list VNil]));
  l ← childFrom resp "list";
  if bool_decide (dhash ≠ "") && (attrBool "matched" (AttrGetter_of l)).1 then mret None else mret (Some (parseBlocklist l).1).
End users.
