(* ===== verification/Media.v ===== *)
(** Attachments: their keys, upload, and download with its checks and retries
    (src/upload.go, src/download.go, src/download-to-file.go, src/mediaconn.go). The
    servers are reached by HTTP; what they answer is a parameter. *)
From Stdlib Require Import ZArith Lia.
From Stdlib Require Import Strings.Byte.
From stdpp Require Import prelude strings list.
From S2P Require Import Prelude Strconv Jid Node Attrs Cbc LTHash Requests.

#[local] Open Scope string_scope.

(** ** Media types *)

Definition MediaImage : string := "WhatsApp Image Keys".
Definition MediaVideo : string := "WhatsApp Video Keys".
Definition MediaAudio : string := "WhatsApp Audio Keys".
Definition MediaDocument : string := "WhatsApp Document Keys".
Definition MediaHistory : string := "WhatsApp History Keys".
Definition MediaAppState : string := "WhatsApp App State Keys".
Definition MediaStickerPack : string := "WhatsApp Sticker Pack Keys".
Definition MediaLinkThumbnail : string := "WhatsApp Link Thumbnail Keys".

(** Indexing a Go map with strings as values. *)
Fixpoint stringAt (k : string) (table : list (string * string)) : string :=
  match table with [] => "" | (k', v) :: table => if decide (k' = k) then v else stringAt k table end.

Definition classToMediaType : list (string * string) := [
  ("ImageMessage", MediaImage); ("AudioMessage", MediaAudio); ("VideoMessage", MediaVideo);
  ("DocumentMessage", MediaDocument); ("StickerMessage", MediaImage); ("StickerMetadata", MediaImage);
  ("StickerPackMessage", MediaStickerPack); ("HistorySyncNotification", MediaHistory); ("ExternalBlobReference", MediaAppState)].
Definition classToThumbnailMediaType : list (string * string) := [("ExtendedTextMessage", MediaLinkThumbnail)].
Definition mediaTypeToMMSType : list (string * string) := [
  (MediaImage, "image"); (MediaVideo, "video"); (MediaAudio, "audio"); (MediaDocument, "document");
  (MediaHistory, "md-msg-hist"); (MediaAppState, "md-app-state"); (MediaStickerPack, "sticker-pack"); (MediaLinkThumbnail, "thumbnail-link")].

(** A message with an attachment: the kinds [GetMediaType] tells apart, and its getters. *)
Inductive messageKind := StickerPackItem | ProtoClass (name : string) | TypedMedia (mediaType : string) | UnknownKind.
Record DownloadableMessage := mkDownloadable {
  kind : messageKind;
  DirectPath : string;
  MediaKey : option (list byte);
  FileSHA256 : option (list byte);
  FileEncSHA256 : option (list byte)
}.
Definition GetMediaType (msg : DownloadableMessage) : string :=
  match kind msg with
  | StickerPackItem => MediaImage
  | ProtoClass name => stringAt name classToMediaType
  | TypedMedia mediaType => mediaType
  | UnknownKind => ""
  end.

(** ** Media connections *)

Record MediaConn := mkMediaConn { Auth : string; TTL : Z; AuthTTL : Z; MaxBuckets : Z; FetchedAt : Z; Hosts : list string }.
Definition Expiry (mc : MediaConn) : Z := FetchedAt mc + i64 (TTL mc * 1000000000).

Inductive mediaError :=
| HttpStatus (code : Z)
| Transport (retryable : bool)       (* network and HTTP/2 stream errors are retryable *)
| CtxCanceled | DeadlineExceeded
| BadChecksumLength | TooShortFile | InvalidMediaEncSHA256
| InvalidMediaHMAC | InvalidMediaSHA256 | InvalidUnencryptedMediaSHA256
| DecryptFailed (e : cbcError) | EncryptFailed (e : cbcError)
| NoSlash | QueryFailed | UnexpectedChild | BadMediaConn
| LastHostFailed (e : mediaError)
| UnknownMediaType | NoURLPresent | NothingDownloadableFound
| NoHosts | PostFailed | FileFailed.

Fixpoint mediaHosts (children : list node) : outcome mediaError (list string) :=
  match children with
  | [] => Ok []
  | child :: children =>
      if decide (Tag child ≠ "host") then mediaHosts children
      else
        let '(hostname, cag) := attrString "hostname" (AttrGetter_of child) in
        match attrsError cag with
        | Some _ => Err BadMediaConn
        | None => hosts ← mediaHosts children; Ok (hostname :: hosts)
        end
  end.

(** [resp]: the answer to the query. *)
Definition queryMediaConn (resp : option node) (now : Z) : outcome mediaError MediaConn :=
  match resp with
  | None => Err QueryFailed
  | Some resp =>
      match GetChildren resp with
      | respMC :: _ =>
          if decide (Tag respMC ≠ "media_conn") then Err UnexpectedChild
          else
            let ag := AttrGetter_of respMC in
            let '(auth, ag) := attrString "auth" ag in
            let '(ttl, ag) := attrInt "ttl" ag in
            let '(authTTL, ag) := attrInt "auth_ttl" ag in
            let '(buckets, ag) := attrInt "max_buckets" ag in
            match attrsError ag with
            | Some _ => Err BadMediaConn
            | None => hosts ← mediaHosts (GetChildren respMC); Ok (mkMediaConn auth ttl authTTL buckets now hosts)
            end
      | [] => Err UnexpectedChild
      end
  end.

(** The connection and the cache after the call. *)
Definition refreshMediaConn (resp : option node) (now : Z) (force : bool) (cached : option MediaConn) :
    outcome mediaError MediaConn * option MediaConn :=
  let query := match queryMediaConn resp now with Ok mc => (Ok mc, Some mc) | r => (r, None) end in
  match cached with
  | Some mc => if negb force && (now <? Expiry mc)%Z then (Ok mc, cached) else query
  | None => query
  end.

(** ** Keys *)

Record mediaKeys := mkMediaKeys { mkIV : list byte; cipherKey : list byte; macKey : list byte; refKey : list byte }.

Section media.
Context `{Crypto} `{HKDF}.

Definition getMediaKeys (mediaKey : list byte) (appInfo : string) : outcome mediaError mediaKeys :=
  expanded ← map_err (Empty_set_rect (λ _, mediaError)) (SHA256 mediaKey [] (s2b appInfo) 112);
  Ok (mkMediaKeys (take 16 expanded) (take 32 (drop 16 expanded)) (take 32 (drop 48 expanded)) (drop 80 expanded)).

Definition mediaHMACLength : nat := 10.

Definition validateMedia (iv file macKey : list byte) (mac : option (list byte)) : outcome mediaError unit :=
  if decide (take mediaHMACLength (hmacSha256 macKey (iv ++ file)) = default [] mac) then Ok tt else Err InvalidMediaHMAC.

(** ** Download *)

Inductive httpResponse := Body (data : list byte) (broken : option mediaError) | Failed (e : mediaError) | StatusCode (code : Z).

(** [respond]: what the [i]th request is answered, by its URL; [interrupted]: how the
    wait after it ends early; [retryStatus]: [retryafter.Should]. *)
Context (respond : nat → string → httpResponse) (interrupted : nat → option mediaError) (retryStatus : Z → bool).
Abbreviation mediaM := (stateM nat mediaError).

Definition doMediaDownloadRequest (url : string) : mediaM (list byte * option mediaError) := λ i,
  (match respond i url with
   | Body data broken => Ok (data, broken)
   | Failed e => Err e
   | StatusCode code => Err (HttpStatus code)
   end, S i).

Definition downloadMedia (url : string) : mediaM (list byte) :=
  '(data, broken) ← doMediaDownloadRequest url;
  match broken with None => mret data | Some e => throw e end.

Definition downloadEncryptedMedia (url : string) (checksum : list byte) : mediaM (list byte * list byte) :=
  if decide (length checksum ≠ 32%nat) then throw BadChecksumLength
  else
    data ← downloadMedia url;
    if decide (length data <= mediaHMACLength)%nat then throw TooShortFile
    else if decide (sha256 data ≠ checksum) then throw InvalidMediaEncSHA256
    else mret (take (length data - mediaHMACLength) data, drop (length data - mediaHMACLength) data).

Definition shouldRetryMediaDownload (e : mediaError) : bool :=
  match e with Transport retryable => retryable | HttpStatus code => retryStatus code | _ => false end.

(** Five attempts with waits in between. *)
Fixpoint retrying {A} (attempts : nat) (attempt : mediaM A) (last : mediaError) : mediaM A :=
  match attempts with
  | O => throw last
  | S attempts => λ i,
      match attempt i with
      | (Err e, i') =>
          if shouldRetryMediaDownload e then
            match interrupted i' with Some e' => (Err e', i') | None => retrying attempts attempt e i' end
          else (Err e, i')
      | r => r
      end
  end.
Definition downloadAttempts : nat := 5.

Definition downloadPossiblyEncryptedMediaWithRetries (url : string) (checksum : option (list byte)) :
    mediaM (list byte * option (list byte)) :=
  retrying downloadAttempts
    (match checksum with
     | None => file ← downloadMedia url; mret (file, None)
     | Some checksum => '(file, mac) ← downloadEncryptedMedia url checksum; mret (file, Some mac)
     end) (Transport true).

Definition downloadAndDecrypt (url : string) (mediaKey : option (list byte)) (appInfo : string)
    (fileEncSHA256 fileSHA256 : option (list byte)) : mediaM (list byte) :=
  keys ← lift (getMediaKeys (default [] mediaKey) appInfo);
  '(ciphertext, mac) ← downloadPossiblyEncryptedMediaWithRetries url fileEncSHA256;
  if decide (mediaKey = None ∧ fileEncSHA256 = None ∧ mac = None) then
    match fileSHA256 with
    | Some hash => if decide (length hash = 32%nat ∧ sha256 ciphertext = hash) then mret ciphertext else throw InvalidUnencryptedMediaSHA256
    | None => mret ciphertext
    end
  else
    _ ← lift (validateMedia (mkIV keys) ciphertext (macKey keys) mac);
    data ← lift (map_err DecryptFailed (Decrypt (cipherKey keys) (mkIV keys) ciphertext).1);
    if decide (fileSHA256 = Some (sha256 data) ∧ length (sha256 data) = 32%nat) then mret data else throw InvalidMediaSHA256.

(** base64.URLEncoding *)
Definition urlAlphabet (b : byte) : byte := if decide (b = x2b) then x2d else if decide (b = x2f) then x5f else b.
Definition URLEncode (l : list byte) : string :=
  b2s (map urlAlphabet (b64Encode l) ++ replicate ((3 - length l mod 3) mod 3) x3d)%list.

Definition mediaURL (host directPath : string) (encFileHash : option (list byte)) (mmsType : string) : string :=
  "https://" +:+ host +:+ directPath +:+ "&hash=" +:+ URLEncode (default [] encFileHash) +:+ "&mms-type=" +:+ mmsType +:+ "&__wa-mms=".

(** Errors after which no other host is tried. *)
Definition finalError (e : mediaError) : bool :=
  match e with
  | InvalidMediaSHA256 | CtxCanceled => true
  | HttpStatus code => bool_decide (code = 403 ∨ code = 404 ∨ code = 410)%Z
  | _ => false
  end.

(** [none]: what there is without any host. *)
Fixpoint tryHosts {A} (hosts : list string) (download : string → mediaM A) (none : A) : mediaM A :=
  match hosts with
  | [] => mret none
  | host :: hosts => λ i,
      match download host i with
      | (Err e, i') =>
          if finalError e then (Err e, i')
          else if decide (hosts = []) then (Err (LastHostFailed e), i') else tryHosts hosts download none i'
      | r => r
      end
  end.

Definition mmsTypeOf (mediaType mmsType : string) : string := if decide (mmsType = "") then stringAt mediaType mediaTypeToMMSType else mmsType.
Definition wantedHash (allowNoHash : bool) (fileHash : option (list byte)) : option (list byte) :=
  match fileHash with None => if allowNoHash then None else Some (replicate 32 x00) | _ => fileHash end.
Definition startsWithSlash (s : string) : bool := bool_decide (take 1 (s2b s) = [x2f]).

(** [conn]: what [refreshMediaConn] answers. *)
Definition DownloadMediaWithPath (conn : outcome mediaError MediaConn) (directPath : string)
    (encFileHash fileHash mediaKey : option (list byte)) (mediaType mmsType : string) (allowNoHash : bool) : mediaM (list byte) :=
  let fileHash := wantedHash allowNoHash fileHash in
  if negb (startsWithSlash directPath) then throw NoSlash
  else
    mediaConn ← lift conn;
    tryHosts (Hosts mediaConn)
      (λ host, downloadAndDecrypt (mediaURL host directPath encFileHash (mmsTypeOf mediaType mmsType)) mediaKey mediaType encFileHash fileHash) [].

(** The key of media without a ciphertext hash is ignored. *)
Definition keyFor (encSHA256 mediaKey : option (list byte)) : option (list byte) :=
  match encSHA256 with None => None | Some _ => mediaKey end.

Definition Download (conn : outcome mediaError MediaConn) (msg : DownloadableMessage) : mediaM (list byte) :=
  let mediaType := GetMediaType msg in
  if decide (mediaType = "") then throw UnknownMediaType
  else if decide (DirectPath msg = "") then throw NoURLPresent
  else DownloadMediaWithPath conn (DirectPath msg) (FileEncSHA256 msg) (FileSHA256 msg) (keyFor (FileEncSHA256 msg) (MediaKey msg))
         mediaType (stringAt mediaType mediaTypeToMMSType) false.

(** The first attachment, of the kinds in order. *)
Definition DownloadAny (conn : outcome mediaError MediaConn) (parts : list (option DownloadableMessage)) : mediaM (list byte) :=
  match omap id parts with msg :: _ => Download conn msg | [] => throw NothingDownloadableFound end.

Definition DownloadThumbnail (conn : outcome mediaError MediaConn) (class path : string) (mediaKey sha encSHA : option (list byte)) :
    mediaM (list byte) :=
  let mediaType := stringAt class classToThumbnailMediaType in
  if decide (mediaType = "") then throw UnknownMediaType
  else if decide (path = "") then throw NoURLPresent
  else DownloadMediaWithPath conn path encSHA sha (keyFor encSHA mediaKey) mediaType (stringAt mediaType mediaTypeToMMSType) false.

Definition DownloadMediaWithOnlyPath (conn : outcome mediaError MediaConn) (directPath : string) : mediaM (list byte) :=
  DownloadMediaWithPath conn directPath None None None "" "" true.

(** ** Download to a file *)

Abbreviation fileM := (stateM (nat * File) mediaError).

Definition onFile {A} (f : File → option A * File) : fileM A := λ s,
  let '(r, file) := f s.2 in (match r with Some a => Ok a | None => Err FileFailed end, (s.1, file)).

(** [Seek] to the start; it may fail as the other operations do. *)
Definition seekStart (f : File) : option unit * File :=
  let '(flt, fs) := Cbc.nextFault (faults f) in
  match flt with Fails _ => (None, mkFile (contents f) (pos f) fs) | _ => (Some tt, mkFile (contents f) 0 fs) end.
(** [io.Copy] into the file, and from the file to its end. *)
Definition copyInto (data : list byte) (f : File) : option unit * File :=
  let '(flt, fs) := Cbc.nextFault (faults f) in
  let '(n, failed) := transfer flt (length data) in
  (if (failed || (n <? length data)%nat)%bool then None else Some tt,
   mkFile (writeAt (contents f) (pos f) (take n data)) (pos f + n) fs).
Definition copyFrom (f : File) : option (list byte) * File :=
  let '(flt, fs) := Cbc.nextFault (faults f) in
  match flt with
  | Fails k => (None, mkFile (contents f) (pos f + k `min` (length (contents f) - pos f)) fs)
  | _ => (Some (drop (pos f) (contents f)), mkFile (contents f) (pos f `max` length (contents f)) fs)
  end.
(** [ReadAt]: a read past the end is an error. *)
Definition readAt (n : nat) (off : nat) (f : File) : option (list byte) * File :=
  let '(flt, fs) := Cbc.nextFault (faults f) in
  let b := take n (drop off (contents f)) in
  (match flt with Fails _ => None | _ => if decide (length b = n) then Some b else None end, mkFile (contents f) (pos f) fs).
Definition truncateTo (n : nat) (f : File) : option unit * File := let '(ok, f) := Truncate n f in (if (ok : bool) then Some tt else None, f).

(** The bytes of a body that breaks are written before the error shows. The size and
    what was hashed. [Fallocate] is left out. *)
Definition downloadMediaToFile (url : string) : fileM (nat * list byte) :=
  '(data, broken) ← zoom fst (λ i s, (i, s.2)) id (doMediaDownloadRequest url);
  _ ← onFile (copyInto data);
  match broken with None => mret (length data, sha256 data) | Some e => throw e end.

Definition downloadEncryptedMediaToFile (url : string) (checksum : list byte) : fileM (list byte) :=
  if decide (length checksum ≠ 32%nat) then throw BadChecksumLength
  else
    '(size, hash) ← downloadMediaToFile url;
    if decide (size <= mediaHMACLength)%nat then throw TooShortFile
    else if decide (hash ≠ checksum) then throw InvalidMediaEncSHA256
    else
      mac ← onFile (readAt mediaHMACLength (size - mediaHMACLength));
      _ ← onFile (truncateTo (size - mediaHMACLength));
      mret mac.

Fixpoint retryingToFile {A} (attempts : nat) (attempt : fileM A) (last : mediaError) : fileM A :=
  match attempts with
  | O => throw last
  | S attempts => λ s,
      match attempt s with
      | (Err e, s') =>
          if shouldRetryMediaDownload e then
            match onFile seekStart s' with
            | (Ok _, s') => match interrupted s'.1 with Some e' => (Err e', s') | None => retryingToFile attempts attempt e s' end
            | (_, s') => (Err FileFailed, s')
            end
          else (Err e, s')
      | r => r
      end
  end.

Definition downloadPossiblyEncryptedMediaWithRetriesToFile (url : string) (checksum : option (list byte)) : fileM (option (list byte)) :=
  retryingToFile downloadAttempts
    (match checksum with
     | None => _ ← downloadMediaToFile url; mret None
     | Some checksum => mac ← downloadEncryptedMediaToFile url checksum; mret (Some mac)
     end) (Transport true).

Definition validateMediaFile (iv macKey : list byte) (mac : option (list byte)) : fileM unit :=
  _ ← onFile seekStart;
  file ← onFile copyFrom;
  lift (validateMedia iv file macKey mac).

Definition decryptFile (key iv : list byte) : fileM unit := λ s,
  let '(r, f) := DecryptFile key iv s.2 in (map_err DecryptFailed r, (s.1, f)).

Definition downloadAndDecryptToFile (url : string) (mediaKey : option (list byte)) (appInfo : string)
    (fileEncSHA256 fileSHA256 : option (list byte)) : fileM unit :=
  keys ← lift (getMediaKeys (default [] mediaKey) appInfo);
  mac ← downloadPossiblyEncryptedMediaWithRetriesToFile url fileEncSHA256;
  if decide (mediaKey = None ∧ fileEncSHA256 = None ∧ mac = None) then
    match fileSHA256 with
    | None => mret tt
    | Some hash =>
        _ ← onFile seekStart;
        data ← onFile copyFrom;
        if decide (hash = sha256 data) then mret tt else throw InvalidUnencryptedMediaSHA256
    end
  else
    _ ← validateMediaFile (mkIV keys) (macKey keys) mac;
    _ ← onFile seekStart;
    _ ← decryptFile (cipherKey keys) (mkIV keys);
    _ ← onFile seekStart;
    data ← onFile copyFrom;
    if decide (default [] fileSHA256 = sha256 data) then mret tt else throw InvalidMediaSHA256.

Fixpoint tryHostsToFile (hosts : list string) (download : string → fileM unit) : fileM unit :=
  match hosts with
  | [] => mret tt
  | host :: hosts => λ s,
      match download host s with
      | (Err e, s') =>
          if finalError e then (Err e, s')
          else if decide (hosts = []) then (Err (LastHostFailed e), s') else tryHostsToFile hosts download s'
      | r => r
      end
  end.

Definition DownloadMediaWithPathToFile (conn : outcome mediaError MediaConn) (directPath : string)
    (encFileHash fileHash mediaKey : option (list byte)) (mediaType mmsType : string) (allowNoHash : bool) : fileM unit :=
  let fileHash := wantedHash allowNoHash fileHash in
  if negb (startsWithSlash directPath) then throw NoSlash
  else
    mediaConn ← lift conn;
    tryHostsToFile (Hosts mediaConn)
      (λ host, downloadAndDecryptToFile (mediaURL host directPath encFileHash (mmsTypeOf mediaType mmsType)) mediaKey mediaType encFileHash fileHash).

Definition DownloadToFile (conn : outcome mediaError MediaConn) (msg : DownloadableMessage) : fileM unit :=
  let mediaType := GetMediaType msg in
  if decide (mediaType = "") then throw UnknownMediaType
  else if decide (DirectPath msg = "") then throw NoURLPresent
  else DownloadMediaWithPathToFile conn (DirectPath msg) (FileEncSHA256 msg) (FileSHA256 msg) (keyFor (FileEncSHA256 msg) (MediaKey msg))
         mediaType (stringAt mediaType mediaTypeToMMSType) false.

(** ** Upload *)

Record UploadResponse := mkUpload {
  upURL : string;
  upDirectPath : string;
  Handle : string;
  ObjectID : string;
  upMediaKey : list byte;
  upFileEncSHA256 : list byte;
  upFileSHA256 : list byte;
  FileLength : Z
}.

(** A request as it is posted: its host, its path, its query before escaping, its data. *)
Record uploadRequest := mkUploadRequest { reqHost : string; reqPath : string; reqQuery : list (string * string); reqData : list byte }.

(** [post]: the answer of the server to a request, [None] unless it is a success that
    decodes: the fields it sets. [messenger]: whether there is a MessengerConfig. *)
Context (post : uploadRequest → option (string * string * string * string)) (messenger : bool).

Definition uploadRequestOf (mediaConn : MediaConn) (data fileHash : list byte) (appInfo : string) (newsletter : bool) : option uploadRequest :=
  let token := URLEncode fileHash in
  let mmsType := stringAt appInfo mediaTypeToMMSType in
  let uploadPrefix := if messenger then "wa-msgr/mms" else "mms" in
  let mmsType := if messenger && bool_decide (mmsType = "audio") then "ptt" else mmsType in
  let '(mmsType, uploadPrefix) := if newsletter then ("newsletter-" +:+ mmsType, "newsletter") else (mmsType, uploadPrefix) in
  host ← (if messenger then last (Hosts mediaConn) else head (Hosts mediaConn));
  Some (mkUploadRequest host ("/" +:+ uploadPrefix +:+ "/" +:+ mmsType +:+ "/" +:+ token)
    [("auth", Auth mediaConn); ("token", token)] data).

Definition rawUpload (conn : outcome mediaError MediaConn) (data fileHash : list byte) (appInfo : string) (newsletter : bool)
    (resp : UploadResponse) : outcome mediaError UploadResponse :=
  mediaConn ← conn;
  match uploadRequestOf mediaConn data fileHash appInfo newsletter with
  | None => Err NoHosts
  | Some req =>
      match post req with
      | None => Err PostFailed
      | Some (url, path, handle, object) =>
          Ok (mkUpload url path handle object (upMediaKey resp) (upFileEncSHA256 resp) (upFileSHA256 resp) (FileLength resp))
      end
  end.

(** What [Upload] uploads; [mediaKey]: the random key. *)
Definition encryptedMedia (mediaKey plaintext : list byte) (appInfo : string) : outcome mediaError (list byte) :=
  keys ← getMediaKeys mediaKey appInfo;
  ciphertext ← map_err EncryptFailed (Encrypt (cipherKey keys) (Some (mkIV keys)) plaintext [] None).1;
  Ok (ciphertext ++ take mediaHMACLength (hmacSha256 (macKey keys) (mkIV keys ++ ciphertext)))%list.

Definition Upload (conn : outcome mediaError MediaConn) (mediaKey plaintext : list byte) (appInfo : string) : outcome mediaError UploadResponse :=
  dataToUpload ← encryptedMedia mediaKey plaintext appInfo;
  rawUpload conn dataToUpload (sha256 dataToUpload) appInfo false
    (mkUpload "" "" "" "" mediaKey (sha256 dataToUpload) (sha256 plaintext) (Z.of_nat (length plaintext))).

(** Encrypting through a temporary file, which is read back from its start. *)
Definition UploadReader (conn : outcome mediaError MediaConn) (mediaKey : list byte) (plaintext : Reader) (tempFile : Writer) (appInfo : string) :
    outcome mediaError UploadResponse * Writer :=
  match getMediaKeys mediaKey appInfo with
  | Ok keys =>
      let '(r, tempFile) := EncryptStream (cipherKey keys) (mkIV keys) (macKey keys) plaintext tempFile in
      (u ← map_err EncryptFailed r;
       rawUpload conn (take (cipherSize u) (out tempFile)) (cipherHash u) appInfo false
         (mkUpload "" "" "" "" mediaKey (cipherHash u) (plainHash u) (Z.of_nat (plainSize u))), tempFile)
  | Err e => (Err e, tempFile)
  | Panic => (Panic, tempFile)
  | OutOfFuel => (OutOfFuel, tempFile)
  end.

Definition UploadNewsletter (conn : outcome mediaError MediaConn) (data : list byte) (appInfo : string) : outcome mediaError UploadResponse :=
  rawUpload conn data (sha256 data) appInfo true (mkUpload "" "" "" "" [] [] (sha256 data) (Z.of_nat (length data))).

(** Deleting: nothing without a path, else a request to the first host; [delete]: its
    status, if there was an answer. The query of the path is cut off. *)
Fixpoint beforeQuery (l : list byte) : list byte := match l with [] => [] | b :: l => if decide (b = x3f) then [] else b :: beforeQuery l end.
Definition rawURLEncode (l : list byte) : string := b2s (map urlAlphabet (b64Encode l)).
Definition DeleteMedia (delete : uploadRequest → option Z) (conn : outcome mediaError MediaConn) (appInfo directPath : string)
    (encFileHash : list byte) (encHandle : string) : outcome mediaError unit :=
  if decide (directPath = "") then Ok tt
  else
    mediaConn ← conn;
    match Hosts mediaConn with
    | [] => Err NoHosts
    | host :: _ =>
        let path := s2b directPath in
        let path := if decide (head path = Some x3f) then path else beforeQuery path in
        let token := URLEncode encFileHash in
        let query := [("token", token); ("d_md", rawURLEncode path); ("auth", Auth mediaConn)] in
        let query := if decide (encHandle = "") then query else (query ++ [("e_handle", encHandle)])%list in
        match delete (mkUploadRequest host ("/mms/" +:+ stringAt appInfo mediaTypeToMMSType +:+ "/" +:+ token) query []) with
        | Some code => if (200 <=? code)%Z && (code <? 300)%Z then Ok tt else Err (HttpStatus code)
        | None => Err PostFailed
        end
    end.
End media.

(** * Properties *)

Section theory.
Context `{CryptoLaws} `{HKDFLaws}.
Context (respond : nat → string → httpResponse) (interrupted : nat → option mediaError) (retryStatus : Z → bool).

(** ** What is downloaded was checked *)

Lemma downloadAndDecrypt_verified url key mt enc wanted i data i' :
  downloadAndDecrypt respond interrupted retryStatus url key mt enc wanted i = (Ok data, i') →
  wanted = None ∨ wanted = Some (sha256 data).
Proof.
  unfold downloadAndDecrypt. intros Hrun. inv_run. destruct x0 as [ciphertext mac]. case_decide.
  - destruct wanted as [hash|]; [|by left]. case_decide as Hd; inv_run. right. by destruct Hd as [_ ->].
  - inv_run. case_decide as Hd; inv_run. right. by destruct Hd.
Qed.

Lemma tryHosts_ok {A} (P : A → Prop) hosts (download : string → stateM nat mediaError A) none i a i' :
  (∀ h j b j', download h j = (Ok b, j') → P b) → tryHosts hosts download none i = (Ok a, i') → P a ∨ hosts = [] ∧ a = none.
Proof.
  intros HP. revert i; induction hosts as [|h hosts IH]; intros i; cbn; [intros [= <- _]; by right|].
  destruct (download h i) as [[b|e| |] j] eqn:Hd; try done.
  - intros [= <- <-]. left. by eapply HP.
  - destruct (finalError e); [done|]. case_decide as Hh; [done|]. intros Hrun. destruct (IH j Hrun) as [?|[? _]]; [by left|done].
Qed.

(** ** Hosts that do not have it are passed over *)

(** Answers that make the download go on with the next host. *)
Definition unusable (up : list byte) (r : httpResponse) : Prop :=
  match r with
  | Body data None => sha256 data ≠ sha256 up
  | Body _ (Some e) | Failed e => finalError e = false
  | StatusCode code => finalError (HttpStatus code) = false
  end.

Lemma retrying_unusable {A} n (attempt : stateM nat mediaError A) last :
  (∀ j, interrupted j = None) → finalError last = false →
  (∀ j, ∃ e j', attempt j = (Err e, j') ∧ finalError e = false) →
  ∀ i, ∃ e i', retrying interrupted retryStatus n attempt last i = (Err e, i') ∧ finalError e = false.
Proof.
  intros Hint Hlast Hatt. revert last Hlast; induction n as [|n IH]; intros last Hlast i; cbn; [by exists last, i|].
  destruct (Hatt i) as (e & j & -> & He). destruct (shouldRetryMediaDownload retryStatus e); [|by exists e, j].
  rewrite Hint. by apply IH.
Qed.

Lemma downloadEncryptedMedia_run url checksum i : length checksum = 32%nat →
  downloadEncryptedMedia respond url checksum i =
  (match respond i url with
   | Body data None =>
       if decide (length data <= mediaHMACLength)%nat then Err TooShortFile
       else if decide (sha256 data ≠ checksum) then Err InvalidMediaEncSHA256
       else Ok (take (length data - mediaHMACLength) data, drop (length data - mediaHMACLength) data)
   | Body _ (Some e) | Failed e => Err e
   | StatusCode code => Err (HttpStatus code)
   end, S i).
Proof.
  intros Hl. unfold downloadEncryptedMedia. rewrite decide_False by lia. unfold downloadMedia, doMediaDownloadRequest, mbind, stateM_bind.
  destruct (respond i url) as [data [e|]|e|code]; try done. cbn. by repeat case_decide.
Qed.

Context (Haes : ∀ key, length key = 32%nat → is_Some (NewCipher key)) (Hsha : ∀ l, length (sha256 l) = 32%nat).

Lemma unusable_next up url key mt wanted i :
  (∀ j, interrupted j = None) → (∀ j, unusable up (respond j url)) →
  ∃ e i', downloadAndDecrypt respond interrupted retryStatus url key mt (Some (sha256 up)) wanted i = (Err e, i') ∧ finalError e = false.
Proof.
  intros Hint Hun. unfold downloadAndDecrypt, getMediaKeys. rewrite SHA256_ok by lia.
  cbn [map_err mbind outcome_bind]. unfold mbind at 1, stateM_bind at 1. cbn [lift].
  destruct (retrying_unusable downloadAttempts (λ i, (file ← downloadEncryptedMedia respond url (sha256 up); mret (file.1, Some file.2)) i) (Transport true) Hint eq_refl)
    with (i := i) as (e & i' & Hrun & He).
  - intros j. unfold mbind, stateM_bind. rewrite downloadEncryptedMedia_run by done. specialize (Hun j).
    destruct (respond j url) as [data [e|]|e|code]; [by exists e, (S j)| |by exists e, (S j)|by exists (HttpStatus code), (S j)].
    case_decide; [by exists TooShortFile, (S j)|]. rewrite decide_True by done. by exists InvalidMediaEncSHA256, (S j).
  - exists e, i'. split; [|done]. unfold downloadPossiblyEncryptedMediaWithRetries. unfold mbind at 1, stateM_bind at 1.
    assert (∀ n last i, retrying interrupted retryStatus n ('(file, mac) ← downloadEncryptedMedia respond url (sha256 up); mret (file, Some mac)) last i =
      retrying interrupted retryStatus n (λ i, (file ← downloadEncryptedMedia respond url (sha256 up); mret (file.1, Some file.2)) i) last i) as Heq.
    { clear. induction n as [|n IH]; [done|]. intros last i. cbn.
      assert (('(file, mac) ← downloadEncryptedMedia respond url (sha256 up); mret (file, Some mac)) i =
        (file ← downloadEncryptedMedia respond url (sha256 up); mret (file.1, Some file.2)) i) as ->.
      { unfold mbind, stateM_bind. by destruct (downloadEncryptedMedia _ _ _ _) as [[[]| | |] ?]. }
      match goal with |- context [(?m ≫= ?f) i] => destruct ((m ≫= f) i) as [[|e| |] j] end; try done. destruct (shouldRetryMediaDownload _ _); [|done]. destruct (interrupted j); [done|]. apply IH. }
    by rewrite Heq, Hrun.
Qed.

(** ** The round trip *)

Lemma encryptedMedia_ok mediaKey pt mt : ∃ keys c,
  getMediaKeys mediaKey mt = Ok keys ∧ length (mkIV keys) = BlockSize ∧
  encryptedMedia mediaKey pt mt = Ok (c ++ take mediaHMACLength (hmacSha256 (macKey keys) (mkIV keys ++ c)))%list ∧
  c ≠ [] ∧ Decrypt (cipherKey keys) (mkIV keys) c = (Ok pt, (pt ++ padding (length pt))%list).
Proof.
  unfold encryptedMedia, getMediaKeys. rewrite SHA256_ok by lia. cbn [map_err mbind outcome_bind].
  set (ex := hkdfRead mediaKey [] (s2b mt) (Z.to_nat 112)). assert (length ex = 112%nat) as Hex by (apply hkdf_length; lia).
  set (keys := mkMediaKeys _ _ _ _). assert (length (mkIV keys) = BlockSize) as Hiv by (cbn; rewrite length_take; unfold BlockSize; lia).
  destruct (Haes (cipherKey keys)) as [block Hb]; [cbn; rewrite length_take, length_drop; lia|].
  exists keys, (cbcOf block (mkIV keys) pt). rewrite Encrypt_spec, Hb. rewrite decide_True by done.
  cbn [map_err mbind outcome_bind]. split_and!; try done.
  - intros Hnil. pose proof (length_cbcOf (cipherKey keys) block (mkIV keys) pt Hb Hiv) as Hl. rewrite Hnil in Hl. cbn in Hl. unfold paddedBlocks, BlockSize in Hl. lia.
  - by apply Decrypt_cbcOf.
Qed.

Lemma served_download url mediaKey pt mt up i :
  encryptedMedia mediaKey pt mt = Ok up → respond i url = Body up None →
  downloadAndDecrypt respond interrupted retryStatus url (Some mediaKey) mt (Some (sha256 up)) (Some (sha256 pt)) i = (Ok pt, S i).
Proof.
  intros Hup Hserve. destruct (encryptedMedia_ok mediaKey pt mt) as (keys & c & Hkeys & Hiv & Henc & Hc & Hdec).
  rewrite Henc in Hup. injection Hup as Hup. set (mac := take mediaHMACLength (hmacSha256 (macKey keys) (mkIV keys ++ c))) in *.
  assert (length mac = mediaHMACLength) as Hmac by (subst mac; rewrite length_take, hmac_length; unfold mediaHMACLength; lia).
  unfold downloadAndDecrypt. change (default [] (Some mediaKey)) with mediaKey. rewrite Hkeys. unfold mbind at 1, stateM_bind at 1. unfold lift at 1.
  unfold downloadPossiblyEncryptedMediaWithRetries, downloadAttempts. cbn [retrying]. unfold mbind at 1, stateM_bind at 1. unfold mbind at 1, stateM_bind at 1.
  rewrite downloadEncryptedMedia_run, Hserve by done. subst up. rewrite length_app, Hmac. rewrite decide_False by (destruct c; [done|cbn; lia]).
  rewrite decide_False by (intros Hne; by apply Hne). rewrite Nat.add_sub, take_app_length, drop_app_length. cbn [mret stateM_ret].
  rewrite decide_False by naive_solver. unfold validateMedia. change (default [] (Some mac)) with mac. rewrite decide_True by done. rewrite Hdec.
  unfold lift, mbind, stateM_bind. cbn [map_err fst]. rewrite decide_True by done. done.
Qed.

(** C27: what is uploaded can be downloaded, and nothing else passes for it. An
    upload encrypts every plaintext. As long as the context has not ended, a download with
    the keys and hashes of the upload returns the plaintext as soon as one host serves the
    uploaded data, whatever the hosts before it answer that does not end the search:
    broken transfers, other data, and failures that are not final (403, 404 and 410 are
    final, see [finalError]). And whatever the hosts answer, when there is at
    least one, data that a download with a hash returns has that hash; without any host
    the code returns no data and no error. *)
Theorem media_roundtrip (mc : MediaConn) (mediaKey pt : list byte) (mt path : string) (before after : list string) (host : string) :
  startsWithSlash path = true → Hosts mc = (before ++ host :: after)%list → (∀ j, interrupted j = None) →
  ∃ up, encryptedMedia mediaKey pt mt = Ok up ∧
  let url h := mediaURL h path (Some (sha256 up)) (mmsTypeOf mt "") in
  (∀ i, (∀ h j, h ∈ before → unusable up (respond j (url h))) → (∀ j, respond j (url host) = Body up None) →
    (DownloadMediaWithPath respond interrupted retryStatus (Ok mc) path (Some (sha256 up)) (Some (sha256 pt)) (Some mediaKey) mt "" false i).1 = Ok pt) ∧
  (∀ enc key mms hash i data i', DownloadMediaWithPath respond interrupted retryStatus (Ok mc) path enc (Some hash) key mt mms false i = (Ok data, i') →
    sha256 data = hash).
Proof.
  intros Hpath Hhosts Hint. destruct (encryptedMedia_ok mediaKey pt mt) as (keys & c & _ & _ & Henc & _). eexists. split; [exact Henc|].
  set (up := (c ++ _)%list) in *. cbn zeta. split.
  - intros i Hbefore Hserve. unfold DownloadMediaWithPath. rewrite Hpath. cbn [negb]. unfold lift, mbind, stateM_bind. rewrite Hhosts.
    clear Hhosts. revert i; induction before as [|h before IH]; intros i; cbn [app tryHosts].
    + rewrite (served_download _ mediaKey pt mt up) by done. done.
    + destruct (unusable_next up (mediaURL h path (Some (sha256 up)) (mmsTypeOf mt "")) (Some mediaKey) mt (Some (sha256 pt)) i Hint) as (e & i' & Hrun & He).
      { intros j. apply Hbefore. by left. }
      cbn [wantedHash]. rewrite Hrun, He. rewrite decide_False by (by destruct before). apply IH. intros h' j Hh'. apply Hbefore. by right.
  - intros enc key mms hash i data i'. unfold DownloadMediaWithPath. rewrite Hpath. cbn [negb]. unfold lift, mbind, stateM_bind. intros Hrun.
    eapply (tryHosts_ok (λ data, sha256 data = hash)) in Hrun as [?|[Hnil _]]; [done| |].
    + rewrite Hhosts in Hnil. by destruct before.
    + intros h j b j' [Hn|Hs]%downloadAndDecrypt_verified; [discriminate Hn|by injection Hs].
Qed.

(** ** Downloading into a file *)

Lemma writeAt_empty data : writeAt [] 0 data = data.
Proof. unfold writeAt. cbn. by rewrite ?drop_nil, ?app_nil_r. Qed.

Lemma downloadMediaToFile_run url i data : respond i url = Body data None →
  downloadMediaToFile respond url (i, mkFile [] 0 []) = (Ok (length data, sha256 data), (S i, mkFile data (length data) [])).
Proof.
  intros Hr. unfold downloadMediaToFile, doMediaDownloadRequest, zoom, mbind, stateM_bind. cbn [fst snd]. rewrite Hr. cbn [map_err].
  unfold onFile, copyInto. cbn [Cbc.nextFault faults transfer contents pos snd fst]. rewrite Nat.ltb_irrefl. cbn [orb].
  rewrite firstn_all, writeAt_empty. done.
Qed.

Definition split (data : list byte) : list byte * list byte :=
  (take (length data - mediaHMACLength) data, drop (length data - mediaHMACLength) data).

(** The outcome of one answered request, in memory and in the file. *)
Definition received (enc : option (list byte)) (data : list byte) : outcome mediaError (list byte * option (list byte)) :=
  match enc with
  | None => Ok (data, None)
  | Some checksum =>
      if decide (length checksum ≠ 32%nat) then Err BadChecksumLength
      else if decide (length data <= mediaHMACLength)%nat then Err TooShortFile
      else if decide (sha256 data ≠ checksum) then Err InvalidMediaEncSHA256
      else Ok ((split data).1, Some (split data).2)
  end.
Definition requests (enc : option (list byte)) (i : nat) : nat :=
  match enc with Some checksum => if decide (length checksum ≠ 32%nat) then i else S i | None => S i end.

Lemma received_final enc data e : received enc data = Err e → shouldRetryMediaDownload retryStatus e = false.
Proof. unfold received. destruct enc; [|done]. repeat case_decide; intros [= <-]; done. Qed.

Lemma memory_received url enc i data : respond i url = Body data None →
  downloadPossiblyEncryptedMediaWithRetries respond interrupted retryStatus url enc i = (received enc data, requests enc i).
Proof.
  intros Hr. unfold downloadPossiblyEncryptedMediaWithRetries, downloadAttempts. cbn [retrying].
  assert ((match enc with
     | None => file ← downloadMedia respond url; mret (file, None)
     | Some checksum => '(file, mac) ← downloadEncryptedMedia respond url checksum; mret (file, Some mac)
     end) i = (received enc data, requests enc i)) as Hrun.
  { unfold received, requests. destruct enc as [checksum|].
    - destruct (decide (length checksum ≠ 32%nat)) as [Hl|Hl].
      + apply stateM_fail. unfold downloadEncryptedMedia. by rewrite decide_True.
      + unfold mbind, stateM_bind. rewrite downloadEncryptedMedia_run, Hr by lia. by repeat case_decide.
    - unfold downloadMedia, doMediaDownloadRequest, mbind, stateM_bind. by rewrite Hr. }
  rewrite Hrun. destruct (received enc data) as [|e| |] eqn:He; try done. by rewrite (received_final _ _ _ He).
Qed.

Lemma file_received url enc i data : respond i url = Body data None →
  ∃ file, downloadPossiblyEncryptedMediaWithRetriesToFile respond interrupted retryStatus url enc (i, mkFile [] 0 []) =
    (snd <$> received enc data, (requests enc i, file)) ∧
  ∀ c mac, received enc data = Ok (c, mac) → contents file = c ∧ faults file = [].
Proof.
  intros Hr. unfold downloadPossiblyEncryptedMediaWithRetriesToFile, downloadAttempts. cbn [retryingToFile].
  assert (∃ file, (match enc with
     | None => _ ← downloadMediaToFile respond url; mret None
     | Some checksum => mac ← downloadEncryptedMediaToFile respond url checksum; mret (Some mac)
     end) (i, mkFile [] 0 []) = (snd <$> received enc data, (requests enc i, file)) ∧
     ∀ c mac, received enc data = Ok (c, mac) → contents file = c ∧ faults file = []) as (file & Hrun & Hfile).
  { unfold received, requests. destruct enc as [checksum|].
    - unfold downloadEncryptedMediaToFile. destruct (decide (length checksum ≠ 32%nat)) as [Hl|Hl].
      + eexists. split; [by apply stateM_fail|done].
      + destruct (decide (length data <= mediaHMACLength)%nat) as [Hs|Hs].
        { eexists. split; [|done]. apply stateM_fail. rewrite (stateM_step _ _ _ _ _ (downloadMediaToFile_run url i data Hr)). by rewrite decide_True. }
        destruct (decide (sha256 data ≠ checksum)) as [Hc|Hc].
        { eexists. split; [|done]. apply stateM_fail. rewrite (stateM_step _ _ _ _ _ (downloadMediaToFile_run url i data Hr)).
          rewrite decide_False by done. by rewrite decide_True. }
        eexists. split.
        * erewrite stateM_step; [reflexivity|]. rewrite (stateM_step _ _ _ _ _ (downloadMediaToFile_run url i data Hr)). rewrite decide_False by done. rewrite decide_False by done.
          erewrite stateM_step; [|unfold onFile, readAt; cbn [Cbc.nextFault faults contents pos snd fst]; rewrite decide_True; [reflexivity|rewrite length_take, length_drop; lia]].
          rewrite take_ge by (rewrite length_drop; lia). reflexivity.
        * intros c mac [= <- <-]. cbn. split; [apply resize_le; lia|done].
    - eexists. split; [rewrite (stateM_step _ _ _ _ _ (downloadMediaToFile_run url i data Hr)); reflexivity|]. by intros c mac [= <- <-]. }
  exists file. split; [|done]. rewrite Hrun. destruct (received enc data) as [|e| |] eqn:He; try done. cbn. by rewrite (received_final _ _ _ He).
Qed.

Lemma validateMediaFile_run iv key mac i c p : validateMediaFile iv key mac (i, mkFile c p []) =
  (validateMedia iv c key mac, (i, mkFile c (length c) [])).
Proof. reflexivity. Qed.

(** A file without faults stays one. *)
Lemma decryptLoop_faults fuel block iv n bs bl wp lb f : faults f = [] → faults (decryptLoop fuel block iv n bs bl wp lb f).2 = [].
Proof.
  revert iv bl wp lb f; induction fuel as [|fuel IH]; intros iv bl wp lb [c p fs]; cbn [faults]; intros ->; cbn [decryptLoop]; case_decide; try done.
  set (bufLen := if decide (n < wp + bs)%nat then _ else _). unfold readFull. cbn [Cbc.nextFault faults contents pos]. case_decide; [|done].
  case_decide; [done|]. destruct (CryptBlocks _ _ _) as [[plain iv']|e| |]; try done. unfold fileWriteAt. cbn [Cbc.nextFault faults contents pos transfer].
  case_decide; [done|]. destruct (last plain); [|done]. by apply IH.
Qed.
Lemma DecryptFile_faults key iv f : faults f = [] → faults (DecryptFile key iv f).2 = [].
Proof.
  intros Hf. unfold DecryptFile. destruct (NewCipher key); [|done]. destruct (newCBC iv); try done. unfold Stat. rewrite Hf. cbn [Cbc.nextFault].
  case_decide; [done|]. match goal with |- context [decryptLoop ?a ?b ?c ?d ?e ?g ?h ?i ?j] => pose proof (decryptLoop_faults a b c d e g h i j eq_refl) as Hl; destruct (decryptLoop a b c d e g h i j) as [[lb|e0| |] f'] end; try done.
  case_decide; [done|]. unfold Truncate. cbn in Hl. rewrite Hl. done.
Qed.

(** A download into an empty file does what a download into memory
    does, for whatever data the server sends: it makes the same requests, ends with the
    same error or success, and after a success the file holds exactly the data. *)
Theorem downloadToFile_equals_download (url mt : string) (key enc wanted : option (list byte)) (i : nat) (data : list byte) :
  respond i url = Body data None →
  let '(r, j) := downloadAndDecrypt respond interrupted retryStatus url key mt enc wanted i in
  let '(r', (j', file)) := downloadAndDecryptToFile respond interrupted retryStatus url key mt enc wanted (i, mkFile [] 0 []) in
  j' = j ∧ r' = (λ _, tt) <$> r ∧ ∀ d, r = Ok d → contents file = d.
Proof.
  intros Hr. destruct (encryptedMedia_ok (default [] key) [] mt) as (keys & _ & Hkeys & Hiv & _ & _ & _).
  unfold downloadAndDecrypt, downloadAndDecryptToFile. rewrite Hkeys. rewrite !(stateM_step (lift (Ok keys)) _ _ keys) with (s1 := i) by done.
  rewrite (stateM_step (lift (Ok keys)) _ (i, mkFile [] 0 []) keys (i, mkFile [] 0 [])) by done.
  pose proof (memory_received url enc i data Hr) as Hmem. destruct (file_received url enc i data Hr) as (file & Hfil & Hfile).
  destruct (received enc data) as [[c mac]|e| |] eqn:Hrec.
  2: { erewrite (stateM_fail _ _ _ _ _ Hmem), (stateM_fail _ _ _ _ _ Hfil). by split_and!. }
  2-3: unfold received in Hrec; destruct enc; [by repeat case_decide|done].
  rewrite (stateM_step _ _ _ _ _ Hmem), (stateM_step _ _ _ _ _ Hfil). destruct (Hfile c mac eq_refl) as [Hcont Hfaults].
  destruct file as [cont p fs]. cbn in Hcont, Hfaults. subst cont fs. cbn [snd]. case_decide as Hplain.
  - destruct wanted as [hash|]; [|cbn; split_and!; [done..|by intros d [= <-]]].
    rewrite (stateM_step (onFile seekStart) _ _ tt (requests enc i, mkFile c 0 [])) by done.
    rewrite (stateM_step (onFile copyFrom) _ _ c (requests enc i, mkFile c (length c) [])) by done.
    destruct (decide (hash = sha256 c)) as [->|Hne].
    + rewrite decide_True by done. split_and!; [done..|]. by intros d [= <-].
    + rewrite decide_False by naive_solver. by split_and!.
  - pose proof (validateMediaFile_run (mkIV keys) (macKey keys) mac (requests enc i) c p) as Hval.
    destruct (validateMedia (mkIV keys) c (macKey keys) mac) as [[]|e| |] eqn:Hv.
    2: { rewrite (stateM_fail (lift _) _ _ e (requests enc i)) by done. erewrite (stateM_fail _ _ _ _ _ Hval). by split_and!. }
    2-3: by unfold validateMedia in Hv; case_decide.
    rewrite (stateM_step (lift _) _ _ tt (requests enc i)) by done. rewrite (stateM_step _ _ _ _ _ Hval).
    rewrite (stateM_step (onFile seekStart) _ _ tt (requests enc i, mkFile c 0 [])) by done.
    assert (c ≠ []) as Hc.
    { intros ->. unfold received in Hrec. destruct enc as [checksum|].
      - repeat case_decide; try done. injection Hrec as Hnil _. cbn in Hnil. apply (f_equal length) in Hnil. rewrite length_take in Hnil.
        cbn in Hnil. unfold mediaHMACLength in *. lia.
      - injection Hrec as -> <-. unfold validateMedia in Hv. case_decide as Hm; [|done]. apply (f_equal length) in Hm. cbn in Hm.
        rewrite length_take, hmac_length in Hm. unfold mediaHMACLength in Hm. lia. }
    destruct (proj1 (DecryptFile_Decrypt (cipherKey keys) (mkIV keys) c Hiv) Hc) as [Hres Hcontents].
    pose proof (DecryptFile_faults (cipherKey keys) (mkIV keys) (mkFile c 0 []) eq_refl) as Hff.
    assert (decryptFile (cipherKey keys) (mkIV keys) (requests enc i, mkFile c 0 []) =
      (map_err DecryptFailed ((λ _, tt) <$> (Decrypt (cipherKey keys) (mkIV keys) c).1), (requests enc i, (DecryptFile (cipherKey keys) (mkIV keys) (mkFile c 0 [])).2))) as Hdf.
    { unfold decryptFile. cbn [fst snd]. rewrite <- Hres. by destruct (DecryptFile _ _ _). }
    destruct (DecryptFile (cipherKey keys) (mkIV keys) (mkFile c 0 [])) as [r0 [cont p0 fs]]. cbn [fst snd contents faults] in *. subst fs.
    destruct (Decrypt (cipherKey keys) (mkIV keys) c).1 as [d|e| |] eqn:Hd; cbn in Hdf.
    2: { rewrite (stateM_fail (lift _) _ _ (DecryptFailed e) (requests enc i)) by done. erewrite (stateM_fail _ _ _ _ _ Hdf). by split_and!. }
    2: { unfold mbind, stateM_bind, lift. rewrite Hdf. by split_and!. }
    2: { unfold mbind, stateM_bind, lift. rewrite Hdf. by split_and!. }
    subst cont. rewrite (stateM_step (lift _) _ _ d (requests enc i)) by done. rewrite (stateM_step _ _ _ _ _ Hdf).
    rewrite (stateM_step (onFile seekStart) _ _ tt (requests enc i, mkFile d 0 [])) by done.
    rewrite (stateM_step (onFile copyFrom) _ _ d (requests enc i, mkFile d (length d) [])) by done.
    pose proof (Hsha d) as Hlen. destruct (decide (default [] wanted = sha256 d)) as [Heq|Hne].
    + destruct wanted as [w|]; cbn in Heq; [|rewrite <- Heq in Hlen; done]. subst w. rewrite decide_True by done.
      split_and!; [done..|]. by intros d' [= <-].
    + rewrite decide_False by (intros [-> _]; by apply Hne). by split_and!.
Qed.
End theory.

(** ** Runs *)

#[local] Existing Instance toyCrypto.
#[local] Existing Instance toyCryptoLaws.
#[local] Existing Instance toyHKDF.
#[local] Existing Instance toyHKDFLaws.

Definition toyMediaKey : list byte := replicate 32 x07.
Definition photo : list byte := [x41; x42; x43].
Definition photoUp : list byte := match encryptedMedia toyMediaKey photo MediaImage with Ok up => up | _ => [] end.
Definition photoURL (host : string) : string := mediaURL host "/x" (Some (sha256 photoUp)) "image".
Definition twoHosts : MediaConn := mkMediaConn "" 0 0 0 0 ["a"; "b"].
(** The first host serves damaged data, the second what was uploaded. *)
Definition damagedFirst (i : nat) (url : string) : httpResponse :=
  if decide (url = photoURL "a") then Body (x00 :: x00 :: tail photoUp) None else Body photoUp None.

Lemma toy_aes key : length key = 32%nat → is_Some (NewCipher key).
Proof. intros Hk. cbn. rewrite decide_True by done. by eexists. Defined.
Lemma toy_sha l : length (sha256 l) = 32%nat.
Proof. apply length_resize. Defined.

Lemma media_roundtrip_witness :
  (DownloadMediaWithPath damagedFirst (λ _, None) (λ _, false) (Ok twoHosts) "/x" (Some (sha256 photoUp)) (Some (sha256 photo))
    (Some toyMediaKey) MediaImage "" false 0).1 = Ok photo.
Proof.
  destruct (media_roundtrip damagedFirst (λ _, None) (λ _, false) toy_aes toy_sha twoHosts toyMediaKey photo MediaImage "/x" ["a"] [] "b"
    eq_refl eq_refl (λ _, eq_refl)) as (up & Hup & Hdown & _).
  assert (up = photoUp) as -> by (unfold photoUp; by rewrite Hup).
  apply Hdown.
  - intros h j ->%list_elem_of_singleton. vm_compute. discriminate.
  - intros j. vm_compute. reflexivity.
Defined.

Lemma downloadToFile_equals_download_witness :
  (downloadAndDecryptToFile damagedFirst (λ _, None) (λ _, false) (photoURL "b") (Some toyMediaKey) MediaImage (Some (sha256 photoUp))
    (Some (sha256 photo)) (0%nat, mkFile [] 0 [])).1 = Ok tt.
Proof.
  pose proof (downloadToFile_equals_download damagedFirst (λ _, None) (λ _, false) toy_aes toy_sha (photoURL "b") MediaImage (Some toyMediaKey)
    (Some (sha256 photoUp)) (Some (sha256 photo)) 0 photoUp ltac:(vm_compute; reflexivity)) as H.
  assert ((downloadAndDecrypt damagedFirst (λ _, None) (λ _, false) (photoURL "b") (Some toyMediaKey) MediaImage (Some (sha256 photoUp)) (Some (sha256 photo)) 0).1 = Ok photo) as Hr
    by (vm_compute; reflexivity).
  destruct (downloadAndDecrypt _ _ _ _ _ _ _ _ _) as [r j]. destruct (downloadAndDecryptToFile _ _ _ _ _ _ _ _ _) as [r' [j' file]].
  destruct H as (_ & -> & _). cbn in Hr. by rewrite Hr.
Defined.

(** The same two hosts, but into a file: what the second host sends is written behind
    what the first one sent, and is refused. *)
Example second_host_appends_to_the_file :
  (DownloadMediaWithPathToFile damagedFirst (λ _, None) (λ _, false) (Ok twoHosts) "/x" (Some (sha256 photoUp)) (Some (sha256 photo))
    (Some toyMediaKey) MediaImage "" false (0%nat, mkFile [] 0 [])).1 = Err (LastHostFailed InvalidMediaHMAC).
Proof. vm_compute. reflexivity. Qed.

(** Without any host a download succeeds, with nothing. *)
Example no_hosts_no_error :
  (DownloadMediaWithPath damagedFirst (λ _, None) (λ _, false) (Ok (mkMediaConn "" 0 0 0 0 [])) "/x" (Some (sha256 photoUp)) (Some (sha256 photo))
    (Some toyMediaKey) MediaImage "" false 0).1 = Ok [].
Proof. vm_compute. reflexivity. Qed.
