(* ===== verification/Business.v ===== *)
(** Businesses (src/business.go): what the server tells of orders, linked accounts and
    eligibility, the changes of a profile, its hours and its cover photo, and the messages
    of a business ([BusinessMessages]). The catalog has a file of its own. *)
From Stdlib Require Import ZArith Lia.
From Stdlib Require Import Strings.Byte.
From stdpp Require Import prelude gmap strings list fin_maps.
From S2P Require Import Prelude Strconv Jid Node Attrs Cbc SignalStore SessionCache LidMap LidMapSpec Requests MessageInfo Contacts Proto Json Client Events Devices Media TcToken Groups Cli Users.

#[local] Open Scope string_scope.

(** [Empty what], [TooLong what max]: a text that is validated; [Invalid]: every other
    refusal, under the words of its message. *)
Inductive bizError :=
| BizIQ (e : iqError)
| BizElementMissing (tag inside : string)
| BizAttrs (inside : string) (es : list attrError)
| BizNumber (tag raw : string) (e : numError)
| Empty (what : string) | TooLong (what : string) (max : Z)
| Invalid (what : string)
| BizMedia (e : mediaError) | BizHttpStatus (code : Z)
| MexErrors (errors : list gval) | BizNotSent
| BizGraphQL (status : Z) (codes : list Z) | BizContext | TokenRecoveryRequired | TokenTooManyAttempts | IncorrectNonce.
#[global] Instance outcome_bizRet : MRet (outcome bizError) := λ A, @Ok bizError A.

Definition require (b : bool) (e : bizError) : outcome bizError unit := if b then Ok tt else Err e.
(** [ag.Error()] after reading. *)
Definition readAll {A} (inside : string) (m : attrM A) (n : node) : outcome bizError A :=
  let '(a, ag) := m (AttrGetter_of n) in
  match attrsError ag with None => Ok a | Some es => Err (BizAttrs inside es) end.
Definition childIn (n : node) (tag inside : string) : outcome bizError node :=
  match GetOptionalChildByTag n [tag] with (c, true) => Ok c | _ => Err (BizElementMissing tag inside) end.

(** ** Orders *)

Record OrderPrice := mkOrderPrice { Subtotal : Z; Total : Z; oCurrency : string; PriceStatus : string }.
Record OrderProduct := mkOrderProduct {
  opID : string; opImageID : string; opImageURL : string; opPrice : Z; opCurrency : string; opName : string; opQuantity : Z; opVariantProperties : string
}.
Record OrderDetails := mkOrder { odID : string; CreatedAt : goTime; odCatalogID : string; odPrice : OrderPrice; odProducts : list OrderProduct }.

Definition validateOrderLookup (orderID token : string) : outcome bizError unit :=
  if blank orderID then Err (Empty "order ID")
  else if negb (bounded orderID 256) then Err (TooLong "order ID" 256)
  else if blank token then Err (Empty "order token")
  else if negb (bounded token 8192) then Err (TooLong "order token" 8192)
  else Ok tt.
Definition validateOrderResponseID (requested returned : string) : outcome bizError unit :=
  require (bool_decide (returned = requested)) (Invalid "order response ID").

Definition getStringChild (n : node) (tag : string) : string :=
  match GetOptionalChildByTag n [tag] with (c, true) => b2s (contentBytes c) | _ => "" end.
Definition parseInt64Child (n : node) (tag : string) : outcome bizError Z :=
  let raw := getStringChild n tag in map_err (BizNumber tag raw) (ParseInt raw).
Definition parseIntChild (n : node) (tag : string) : outcome bizError Z :=
  let raw := getStringChild n tag in map_err (BizNumber tag raw) (Atoi raw).

(** A part that may be missing. *)
Definition optionalChild {A} (n : node) (tag : string) (none : A) (read : node → A) : A :=
  match GetOptionalChildByTag n [tag] with (c, true) => read c | _ => none end.
Definition orderPrice (priceNode : node) : outcome bizError OrderPrice :=
  subtotal ← parseInt64Child priceNode "subtotal";
  total ← parseInt64Child priceNode "total";
  Ok (mkOrderPrice subtotal total (getStringChild priceNode "currency") (getStringChild priceNode "price_status")).
Definition orderProduct (n : node) : outcome bizError OrderProduct :=
  price ← parseInt64Child n "price";
  quantity ← parseIntChild n "quantity";
  Ok (mkOrderProduct (getStringChild n "id") (optionalChild n "image" "" (λ i, getStringChild i "id"))
        (optionalChild n "image" "" (λ i, getStringChild i "url")) price (getStringChild n "currency") (getStringChild n "name") quantity
        (optionalChild n "variant_info" "" (λ v, getStringChild v "properties"))).
Definition parseOrderDetailsNode (orderNode : node) : outcome bizError OrderDetails :=
  '(id, createdAt) ← readAll "order" (i ← attrString "id"; t ← attrUnixTime "creation_ts"; mret (i, t) : attrM _) orderNode;
  price ← optionalChild orderNode "price" (Ok (mkOrderPrice 0 0 "" "")) orderPrice;
  products ← mapM orderProduct (GetChildrenByTag orderNode "product");
  Ok (mkOrder id createdAt (optionalChild orderNode "catalog" "" (λ c, getStringChild c "id")) price products).

Definition orderQuery (orderID tokenBase64 : string) : infoQuery :=
  mkInfoQuery "fb:thrift_iq" "get" ServerJID EmptyJID "" "5" (VNodes [mkNode "order" [("op", VString "get"); ("id", VString orderID)]
    (VNodes [mkNode "image_dimensions" [] (VNodes [mkNode "width" [] (VBytes (s2b "100")); mkNode "height" [] (VBytes (s2b "100"))]);
             mkNode "token" [] (VBytes (s2b tokenBase64))])]).

(** ** Linked accounts *)

Definition maxBusinessAccountIDBytes : Z := 256.
Definition maxBusinessAccountNameBytes : Z := 512.
Definition maxBusinessAccountURLBytes : Z := 4096.
Definition maxBusinessEligibilityParamsBytes : Z := 16 * 1024.

Record BusinessFacebookPage := mkPage {
  pageID : string; pageDisplayName : string; ProfileSync : string; pageHasActiveCTWAAd : bool; pageHasCreatedAd : bool;
  pageProfilePictureURL : string; pageShowOnProfile : bool; WhatsAppAsPageButton : bool
}.
Record BusinessFacebookBusiness := mkFacebookBusiness { fbID : string; fbDisplayName : string; fbCatalogID : string; CatalogState : string }.
Record BusinessInstagramProfessional := mkInstagram { igHandle : string; igDisplayName : string; igProfilePictureURL : string; igShowOnProfile : bool }.
Record BusinessWhatsAppAdIdentity := mkAdIdentity { adID : string; adHasActiveCTWAAd : bool; adHasCreatedAd : bool }.
Record BusinessLinkedAccounts := mkLinked {
  FacebookPage : option BusinessFacebookPage; FacebookBusiness : option BusinessFacebookBusiness;
  InstagramProfessional : option BusinessInstagramProfessional; WhatsAppAdIdentity : option BusinessWhatsAppAdIdentity
}.

Definition validateBusinessAccountText (what value : string) (maxBytes : Z) : outcome bizError unit :=
  if decide (value = "") then Err (Empty what)
  else if negb (bounded value maxBytes) then Err (TooLong what maxBytes)
  else Ok tt.
Definition requiredBusinessNodeText (n : node) (tag : string) (maxBytes : Z) : outcome bizError string :=
  child ← childIn n tag (Tag n);
  match Content child with
  | VBytes content => _ ← validateBusinessAccountText tag (b2s content) maxBytes; Ok (b2s content)
  | _ => Err (Invalid (tag +:+ " content type"))
  end.
Definition requiredBusinessNodeBool (n : node) (tag : string) : outcome bizError bool :=
  value ← requiredBusinessNodeText n tag 5;
  match ParseBool value with Some b => Ok b | None => Err (Invalid tag) end.
Definition requiredBusinessEnumAttr (n : node) (attr : string) (allowed : list string) : outcome bizError string :=
  value ← readAll (Tag n) (attrString attr) n;
  if decide (value ∈ allowed) then Ok value else Err (Invalid (Tag n +:+ " " +:+ attr)).
Definition requiredBusinessPictureURL (n : node) : outcome bizError string :=
  picture ← childIn n "profile_picture" (Tag n);
  requiredBusinessNodeText picture "url" maxBusinessAccountURLBytes.
Definition requiredBusinessAdStatus (n : node) : outcome bizError (bool * bool) :=
  status ← childIn n "ad_status" (Tag n);
  readAll (Tag n) (active ← attrBool "has_active_ctwa_ad"; created ← attrBool "has_created_ad"; mret (active, created) : attrM _) status.

Definition parseBusinessFacebookPage (n : node) : outcome bizError BusinessFacebookPage :=
  id ← readAll "Facebook Page" (attrString "id") n;
  _ ← validateBusinessAccountText "Facebook Page ID" id maxBusinessAccountIDBytes;
  displayName ← requiredBusinessNodeText n "display_name" maxBusinessAccountNameBytes;
  pictureURL ← requiredBusinessPictureURL n;
  showOnProfile ← requiredBusinessNodeBool n "show_on_profile";
  profileSync ← optionalChild n "profile_sync" (Ok "") (λ sync, requiredBusinessEnumAttr sync "state" ["disable"; "import"]);
  '(active, created) ← requiredBusinessAdStatus n;
  button ← childIn n "whatsapp_as_page_button" "Facebook Page";
  state ← requiredBusinessEnumAttr button "state" ["off"; "on"];
  Ok (mkPage id displayName profileSync active created pictureURL showOnProfile (bool_decide (state = "on"))).
Definition linkedCatalog (catalog : node) : outcome bizError (string * string) :=
  '(id, state) ← readAll "linked catalog" (i ← attrString "id"; s ← attrString "state"; mret (i, s) : attrM _) catalog;
  _ ← validateBusinessAccountText "catalog ID" id maxBusinessAccountIDBytes;
  if decide (state ∈ ["disable"; "import"]) then Ok (id, state) else Err (Invalid "catalog state").
Definition parseBusinessFacebookBusiness (n : node) : outcome bizError BusinessFacebookBusiness :=
  id ← readAll "Facebook business" (attrString "id") n;
  _ ← validateBusinessAccountText "Facebook business ID" id maxBusinessAccountIDBytes;
  displayName ← requiredBusinessNodeText n "display_name" maxBusinessAccountNameBytes;
  '(catalogID, catalogState) ← optionalChild n "catalog" (Ok ("", "")) linkedCatalog;
  Ok (mkFacebookBusiness id displayName catalogID catalogState).
Definition parseBusinessInstagram (n : node) : outcome bizError BusinessInstagramProfessional :=
  handle ← requiredBusinessNodeText n "ig_handle" maxBusinessAccountNameBytes;
  displayName ← requiredBusinessNodeText n "display_name" maxBusinessAccountNameBytes;
  pictureURL ← requiredBusinessPictureURL n;
  showOnProfile ← requiredBusinessNodeBool n "show_on_profile";
  Ok (mkInstagram handle displayName pictureURL showOnProfile).
Definition parseBusinessWhatsAppAdIdentity (n : node) : outcome bizError BusinessWhatsAppAdIdentity :=
  id ← readAll "WhatsApp ad identity" (attrString "id") n;
  _ ← validateBusinessAccountText "WhatsApp ad identity ID" id maxBusinessAccountIDBytes;
  '(active, created) ← requiredBusinessAdStatus n;
  Ok (mkAdIdentity id active created).

(** One account; of two of a kind the later one counts. *)
Definition linkAccount (n : node) (l : BusinessLinkedAccounts) : outcome bizError BusinessLinkedAccounts :=
  if decide (Tag n = "fb_page") then
    p ← parseBusinessFacebookPage n; Ok (mkLinked (Some p) (FacebookBusiness l) (InstagramProfessional l) (WhatsAppAdIdentity l))
  else if decide (Tag n = "fb_biz") then
    b ← parseBusinessFacebookBusiness n; Ok (mkLinked (FacebookPage l) (Some b) (InstagramProfessional l) (WhatsAppAdIdentity l))
  else if decide (Tag n = "ig_professional") then
    i ← parseBusinessInstagram n; Ok (mkLinked (FacebookPage l) (FacebookBusiness l) (Some i) (WhatsAppAdIdentity l))
  else if decide (Tag n = "whatsapp_ad_identity") then
    a ← parseBusinessWhatsAppAdIdentity n; Ok (mkLinked (FacebookPage l) (FacebookBusiness l) (InstagramProfessional l) (Some a))
  else Ok l.
Fixpoint linkAccounts (nodes : list node) (l : BusinessLinkedAccounts) : outcome bizError BusinessLinkedAccounts :=
  match nodes with [] => Ok l | n :: nodes => l' ← linkAccount n l; linkAccounts nodes l' end.
Definition parseBusinessLinkedAccounts (response : node) : outcome bizError BusinessLinkedAccounts :=
  root ← childIn response "linked_accounts" "business linked accounts response";
  linkAccounts (GetChildren root) (mkLinked None None None None).
Definition businessLinkedAccountsQuery : infoQuery :=
  mkInfoQuery "fb:thrift_iq" "get" ServerJID EmptyJID "" "42" (VNodes [mkNode "linked_accounts" [] VNil]).

(** ** Eligibility *)

Definition BusinessFeatureMetaVerified : string := "meta_verified".
Definition BusinessFeatureMarketingMessages : string := "marketing_messages".
Definition BusinessFeatureGenAI : string := "genai".
Definition BusinessFeatureGenAIImage : string := "genai_image".
Definition BusinessFeatureMetaOne : string := "meta_one".
Definition BusinessFeatureBBPro : string := "bb_pro".
Definition businessEligibilityFeatures : list string :=
  [BusinessFeatureMetaVerified; BusinessFeatureMarketingMessages; BusinessFeatureGenAI; BusinessFeatureGenAIImage; BusinessFeatureMetaOne; BusinessFeatureBBPro].
Definition isBusinessEligibilityFeature (feature : string) : bool := bool_decide (feature ∈ businessEligibilityFeatures).
Record BusinessFeatureEligibility := mkEligibility {
  Feature : string; Status : string; Expiration : Z; AdditionalParams : string; ShowPrivacyInterstitial : option bool; V1Enabled : option bool
}.

Fixpoint featureAttrs (features : list string) (attrs : list (string * value)) : outcome bizError (list (string * value)) :=
  match features with
  | [] => Ok attrs
  | feature :: features =>
      if negb (isBusinessEligibilityFeature feature) then Err (Invalid "unknown business feature")
      else if bool_decide (is_Some (lookupAttr feature attrs)) then Err (Invalid "duplicate business feature")
      else featureAttrs features (attrs ++ [(feature, VString "true")])
  end.
Definition businessEligibilityQuery (features : list string) : outcome bizError infoQuery :=
  let features := match features with [] => businessEligibilityFeatures | _ => features end in
  attrs ← featureAttrs features [];
  Ok (mkInfoQuery "w:biz" "get" ServerJID EmptyJID "" "139" (VNodes [mkNode "features" attrs VNil])).

Definition allowedStatuses (feature : string) : list string :=
  if decide (feature = BusinessFeatureMarketingMessages) then ["FAIL"; "PAUSED"; "SUCCESS"; "WARNING"]
  else if decide (feature = BusinessFeatureBBPro) then ["ELIGIBLE_TO_ONBOARD"; "NOT_ELIGIBLE"; "ONBOARDED"]
  else ["FAIL"; "SUCCESS"].
Definition validateBusinessEligibilityStatus (feature status : string) : outcome bizError unit :=
  require (bool_decide (status ∈ allowedStatuses feature)) (Invalid (feature +:+ " eligibility status")).
Definition found {A} (r : A * bool) : option A := if r.2 then Some r.1 else None.
Definition featureEligibility (n : node) : outcome bizError BusinessFeatureEligibility :=
  let feature := Tag n in
  entry ← readAll feature
    (status ← attrString "status"; expiration ← GetInt64 "expiration" false; params ← OptionalString "additional_params";
     interstitial ← GetBool "should_show_privacy_interstitial_to_new_users" false; v1 ← GetBool "v1_enabled" false;
     mret (mkEligibility feature status (default 0%Z (found expiration)) params (found interstitial) (found v1)) : attrM _) n;
  _ ← validateBusinessEligibilityStatus feature (Status entry);
  if bounded (AdditionalParams entry) maxBusinessEligibilityParamsBytes then Ok entry
  else Err (TooLong (feature +:+ " additional_params") maxBusinessEligibilityParamsBytes).
Definition parseBusinessEligibility (response : node) : outcome bizError (list BusinessFeatureEligibility) :=
  mapM featureEligibility (List.filter (λ n, isBusinessEligibilityFeature (Tag n)) (GetChildren response)).

(** ** Changes of the profile *)

Record BusinessHoursDay := mkHoursDay { dayOfWeek : string; hoursMode : string; openTime : Z; closeTime : Z }.
Record BusinessHoursUpdate := mkHoursUpdate { huTimeZone : string; huDays : list BusinessHoursDay }.
Record BusinessProfileUpdate := mkProfileUpdate {
  puAddress : option string; puEmail : option string; puDescription : option string; puWebsites : option (list string); puHours : option BusinessHoursUpdate
}.
Definition maxBusinessCoverPhotoBytes : Z := 5 * 1024 * 1024.
Definition businessProfileDays : list string := ["sun"; "mon"; "tue"; "wed"; "thu"; "fri"; "sat"].
Definition businessProfileHourModes : list string := ["specific_hours"; "open_24h"; "appointment_only"].
Record businessCoverUploadResponse := mkCoverUpload { MetaHMAC : string; FBID : string; cuTimestamp : string }.

Definition buildBusinessProfileMutationNode (children : list node) : node :=
  mkNode "business_profile" [("v", VString "3"); ("mutation_type", VString "delta")] (VNodes children).

Definition minuteOfDay (t : Z) : bool := (0 <=? t)%Z && (t <=? 1439)%Z.
Definition hoursConfig (day : BusinessHoursDay) : outcome bizError node :=
  let attrs := [("day_of_week", VString (dayOfWeek day)); ("mode", VString (hoursMode day))] in
  if decide (hoursMode day = "specific_hours") then
    if minuteOfDay (openTime day) && minuteOfDay (closeTime day) && bool_decide (openTime day ≠ closeTime day) then
      Ok (mkNode "business_hours_config"
            (attrs ++ [("open_time", VString (Itoa (openTime day))); ("close_time", VString (Itoa (closeTime day)))]) VNil)
    else Err (Invalid "specific hours")
  else if decide (openTime day = 0%Z ∧ closeTime day = 0%Z) then Ok (mkNode "business_hours_config" attrs VNil)
  else Err (Invalid "times of a mode without").
Fixpoint hoursConfigs (days : list BusinessHoursDay) (seen : list string) : outcome bizError (list node) :=
  match days with
  | [] => Ok []
  | day :: days =>
      if negb (bool_decide (dayOfWeek day ∈ businessProfileDays)) then Err (Invalid "business hours day")
      else if bool_decide (dayOfWeek day ∈ seen) then Err (Invalid "duplicate business hours day")
      else if negb (bool_decide (hoursMode day ∈ businessProfileHourModes)) then Err (Invalid "business hours mode")
      else
        config ← hoursConfig day;
        configs ← hoursConfigs days (dayOfWeek day :: seen);
        Ok (config :: configs)
  end.

Section business.
Context `{GoText}.

Definition buildBusinessHoursNode (update : BusinessHoursUpdate) : outcome bizError node :=
  if bool_decide (huTimeZone update = "") || negb (bounded (huTimeZone update) 128) || negb (LoadLocation (huTimeZone update))
  then Err (Invalid "business hours timezone")
  else if (7 <? Z.of_nat (length (huDays update)))%Z then Err (Invalid "business hours days")
  else
    configs ← hoursConfigs (huDays update) [];
    Ok (mkNode "business_hours" [("timezone", VString (TrimSpace (huTimeZone update)))] (VNodes configs)).

Definition validateEmail (email : string) : outcome bizError unit :=
  if negb (bounded email 320) then Err (TooLong "business email" 320)
  else if decide (email = "") then Ok tt
  else match ParseAddress email with
       | Some address => require (bool_decide (address = email)) (Invalid "business email")
       | None => Err (Invalid "business email")
       end.
Definition websiteNode (website : string) : outcome bizError node :=
  if negb (bounded website 2048) then Err (TooLong "business website" 2048)
  else match ParseRequestURI website with
       | Some parsed =>
           if negb (bool_decide (Host parsed = "")) && bool_decide (Scheme parsed ∈ ["http"; "https"])
           then Ok (mkNode "website" [] (VBytes (s2b website))) else Err (Invalid "business website")
       | None => Err (Invalid "business website")
       end.
Definition websiteNodes (websites : list string) : outcome bizError (list node) :=
  if (2 <? Z.of_nat (length websites))%Z then Err (Invalid "business websites")
  else match websites with [] => Ok [mkNode "website" [] (VBytes [])] | _ => mapM websiteNode websites end.

Definition ifSet {A B} (o : option A) (f : A → outcome bizError B) (none : B) : outcome bizError B := match o with Some a => f a | None => Ok none end.
Definition textNode (tag : string) (o : option string) : list node := match o with Some s => [mkNode tag [] (VBytes (s2b s))] | None => [] end.
Definition buildBusinessProfileDelta (update : BusinessProfileUpdate) : outcome bizError node :=
  match update with
  | mkProfileUpdate None None None None None => Err (Empty "business profile update")
  | mkProfileUpdate address email description websites hours =>
      _ ← ifSet address (λ a, require (bounded a 512) (TooLong "business address" 512)) tt;
      _ ← ifSet description (λ d, require (bounded d 1024) (TooLong "business description" 1024)) tt;
      _ ← ifSet email validateEmail tt;
      websites ← ifSet websites websiteNodes [];
      hours ← ifSet hours (λ h, n ← buildBusinessHoursNode h; Ok [n]) [];
      Ok (buildBusinessProfileMutationNode (textNode "address" address ++ textNode "email" email ++ textNode "description" description ++ websites ++ hours))
  end.

(** ** The cover photo *)

Definition buildBusinessCoverPhotoUpdateNode (response : businessCoverUploadResponse) : outcome bizError node :=
  if bool_decide (MetaHMAC response = "" ∨ FBID response = "" ∨ cuTimestamp response = "") then Err (Invalid "business cover photo upload response")
  else Ok (mkNode "cover_photo" [("id", VString (FBID response)); ("op", VString "update"); ("token", VString (MetaHMAC response)); ("ts", VString (cuTimestamp response))] VNil).
Definition buildBusinessCoverPhotoDeleteNode (coverID : string) : outcome bizError node :=
  if blank coverID then Err (Empty "business cover photo ID")
  else if negb (bounded coverID 256) then Err (TooLong "business cover photo ID" 256)
  else Ok (mkNode "cover_photo" [("id", VString coverID); ("op", VString "delete")] VNil).

Context `{SignalOps} `{ProtoCodec} `{Crypto} `{Outside}.
Abbreviation bizM := (cliM bizError).
#[local] Existing Instances cliM_ret cliM_bind.

(** An image with its limit: its hash. *)
Definition validateImage (what : string) (max : Z) (image : list byte) : outcome bizError (list byte) :=
  match image with
  | [] => Err (Empty what)
  | _ =>
      if (max <? Z.of_nat (length image))%Z then Err (TooLong what max)
      else if decide (DetectContentType image ∈ ["image/jpeg"; "image/png"]) then Ok (sha256 image)
      else Err (Invalid (what +:+ " type"))
  end.
Definition validateBusinessCoverPhoto (image : list byte) : outcome bizError (list byte) :=
  validateImage "business cover photo" maxBusinessCoverPhotoBytes image.

(** [conn]: the media connection; [post]: the answer to a posted image, its status and its
    body, or the error of the request. *)
Context (conn : outcome mediaError MediaConn) (post : uploadRequest → string → outcome mediaError (Z * list byte)).

(** The request that uploads an image to a path. *)
Definition imageRequest (mediaConn : MediaConn) (path : string) (hash image : list byte) : outcome bizError uploadRequest :=
  match Hosts mediaConn with
  | [] => Err (BizMedia NoHosts)
  | host :: _ => Ok (mkUploadRequest host (path +:+ URLEncode hash) [("auth", Auth mediaConn); ("token", URLEncode hash)] image)
  end.
Definition coverUploadType : ty := TStruct [("meta_hmac", TString); ("fbid", TString); ("ts", TString)].
Definition uploadBusinessCoverPhoto (image : list byte) : outcome bizError businessCoverUploadResponse :=
  hash ← validateBusinessCoverPhoto image;
  mediaConn ← map_err BizMedia conn;
  request ← imageRequest mediaConn "/pps/biz-cover-photo/" hash image;
  '(status, body) ← map_err BizMedia (post request (DetectContentType image));
  if decide (status ≠ 200%Z) then Err (BizHttpStatus status)
  else
    match DecodeAs coverUploadType body with
    | (v, true) =>
        let response := mkCoverUpload (stringIn "meta_hmac" v) (stringIn "fbid" v) (stringIn "ts" v) in
        _ ← buildBusinessCoverPhotoUpdateNode response; Ok response
    | _ => Err (Invalid "business cover photo upload response")
    end.

(** ** Calls *)

Definition bizSet (content : node) : infoQuery := mkInfoQuery "w:biz" "set" ServerJID EmptyJID "" "" (VNodes [content]).
Definition GetOrderDetails (orderID tokenBase64 : string) : bizM OrderDetails :=
  _ ← lift (validateOrderLookup orderID tokenBase64);
  resp ← query BizIQ (orderQuery orderID tokenBase64);
  orderNode ← lift (childIn resp "order" "response to order query");
  details ← lift (parseOrderDetailsNode orderNode);
  _ ← lift (validateOrderResponseID orderID (odID details));
  mret details.
Definition GetBusinessLinkedAccounts : bizM BusinessLinkedAccounts :=
  response ← query BizIQ businessLinkedAccountsQuery; lift (parseBusinessLinkedAccounts response).
Definition GetBusinessEligibility (features : list string) : bizM (list BusinessFeatureEligibility) :=
  q ← lift (businessEligibilityQuery features); response ← query BizIQ q; lift (parseBusinessEligibility response).
Definition UpdateBusinessProfile (update : BusinessProfileUpdate) : bizM unit :=
  n ← lift (buildBusinessProfileDelta update); _ ← query BizIQ (bizSet n); mret tt.
Definition SetBusinessCoverPhoto (image : list byte) : bizM string :=
  response ← lift (uploadBusinessCoverPhoto image);
  n ← lift (buildBusinessCoverPhotoUpdateNode response);
  _ ← query BizIQ (bizSet (buildBusinessProfileMutationNode [n]));
  mret (FBID response).
Definition DeleteBusinessCoverPhoto (coverID : string) : bizM unit :=
  n ← lift (buildBusinessCoverPhotoDeleteNode coverID);
  _ ← query BizIQ (bizSet (buildBusinessProfileMutationNode [n])); mret tt.
End business.

(** * Properties *)

Lemma require_ok b e u : require b e = Ok u → b = true.
Proof. by destruct b. Qed.
Lemma bizBind_ok {A B} (m : outcome bizError A) (f : A → outcome bizError B) b : (m ≫= f) = Ok b → ∃ a, m = Ok a ∧ f a = Ok b.
Proof. destruct m; cbn; naive_solver. Qed.

(** A child of a node that consists of parts. *)
Lemma firstChild_app tag l l' : firstChild tag (l ++ l') = match firstChild tag l with Some c => Some c | None => firstChild tag l' end.
Proof. induction l as [|c l IH]; [done|]. cbn. by case_decide. Qed.
Lemma firstChild_none tag l : Forall (λ c, Tag c ≠ tag) l → firstChild tag l = None.
Proof. induction 1 as [|c l Hc _ IH]; [done|]. cbn. by rewrite decide_False. Qed.
Lemma bytesOf_child tag n : bytesOf n tag = match firstChild tag (GetChildren n) with Some c => b2s (contentBytes c) | None => b2s (contentBytes n) end.
Proof. unfold bytesOf, GetChildByTag. cbn. by destruct (firstChild tag (GetChildren n)). Qed.

(** How a day that was sent is read. *)
Definition hoursRead (day : BusinessHoursDay) : string * string * string * string :=
  let specific := bool_decide (hoursMode day = "specific_hours") in
  (dayOfWeek day, hoursMode day, if specific then Itoa (openTime day) else "", if specific then Itoa (closeTime day) else "").
Lemma hoursConfig_read day n : hoursConfig day = Ok n → businessHours n = Some (hoursRead day) ∧ Tag n = "business_hours_config".
Proof.
  unfold hoursConfig, hoursRead. case_decide as Hm.
  - destruct (_ && _); [|done]. intros [= <-]. by rewrite bool_decide_true.
  - case_decide; [|done]. intros [= <-]. by rewrite bool_decide_false.
Qed.
Lemma hoursConfigs_read days : ∀ seen ns, hoursConfigs days seen = Ok ns →
  omap businessHours ns = hoursRead <$> days ∧ NoDup (dayOfWeek <$> days) ∧ (∀ d, d ∈ days → dayOfWeek d ∉ seen).
Proof.
  induction days as [|day days IH]; intros seen ns; cbn [hoursConfigs].
  - intros [= <-]. split_and!; [done|by apply NoDup_nil|by intros ? ?%elem_of_nil].
  - destruct (negb _); [done|]. case_bool_decide as Hseen; [done|]. destruct (negb _); [done|].
    intros (c & Hc & (cs & Hcs & [= <-])%bizBind_ok)%bizBind_ok. apply IH in Hcs as (Hr & Hn & Hs). apply hoursConfig_read in Hc as [Hc _]. split_and!.
    + cbn. by rewrite Hc, Hr.
    + apply NoDup_cons. split; [|done]. intros (d & Heq & Hd)%list_elem_of_fmap. apply (Hs d Hd). rewrite Heq. left.
    + intros d [->|Hd]%elem_of_cons; [done|]. specialize (Hs d Hd). set_solver.
Qed.

Section profileTheory.
Context `{GoText}.
Lemma websiteNode_ok w n : websiteNode w = Ok n → n = mkNode "website" [] (VBytes (s2b w)).
Proof. unfold websiteNode. destruct (negb _); [done|]. destruct (ParseRequestURI w) as [p|]; [|done]. destruct (_ && _); [|done]. by intros [= <-]. Qed.
Definition websitesRead (ws : list string) : list string := match ws with [] => [""] | _ => ws end.
Lemma mapM_websites ws : ∀ ns, mapM websiteNode ws = Ok ns → ns = (λ w, mkNode "website" [] (VBytes (s2b w))) <$> ws.
Proof.
  induction ws as [|w ws IH]; intros ns; [by intros [= <-]|]. cbn [mapM].
  intros (n & Hn & (ns' & Hns & [= <-])%bizBind_ok)%bizBind_ok. apply websiteNode_ok in Hn as ->. by rewrite (IH _ Hns).
Qed.
Lemma websiteNodes_ok ws ns : websiteNodes ws = Ok ns → ns = (λ w, mkNode "website" [] (VBytes (s2b w))) <$> websitesRead ws.
Proof.
  unfold websiteNodes. destruct (2 <? _)%Z; [done|]. destruct ws as [|w ws]; [by intros [= <-]|]. apply mapM_websites.
Qed.

Lemma firstChild_text tag o k : firstChild tag (textNode k o) = if decide (k = tag) then (λ s, mkNode k [] (VBytes (s2b s))) <$> o else None.
Proof. destruct o as [s|]; cbn; by case_decide. Qed.
Lemma websites_tag (ws : list string) tag : tag ≠ "website" → firstChild tag ((λ w, mkNode "website" [] (VBytes (s2b w))) <$> ws) = None.
Proof. intros Ht. apply firstChild_none, Forall_fmap, Forall_true. cbn. congruence. Qed.
Lemma filter_text k o : k ≠ "website" → filter (λ c, Tag c = "website") (textNode k o) = [].
Proof. intros Hk. by destruct o; cbn; [rewrite decide_False|]. Qed.
Lemma filter_websites (ws : list string) : filter (λ c, Tag c = "website") ((λ w, mkNode "website" [] (VBytes (s2b w))) <$> ws) = (λ w, mkNode "website" [] (VBytes (s2b w))) <$> ws.
Proof. induction ws as [|w ws IH]; [done|]. by rewrite fmap_cons, filter_cons_True, IH. Qed.
Lemma read_websites (ws : list string) : (λ n, b2s (contentBytes n)) <$> ((λ w, mkNode "website" [] (VBytes (s2b w))) <$> ws) = ws.
Proof. induction ws as [|w ws IH]; [done|]. rewrite !fmap_cons, IH. cbn [contentBytes Content]. by rewrite b2s_s2b. Qed.
(** The node of the hours, and how it is read. *)
Lemma buildBusinessHoursNode_read h n : buildBusinessHoursNode h = Ok n →
  Tag n = "business_hours" ∧ attrOf "timezone" n = TrimSpace (huTimeZone h) ∧ omap businessHours (GetChildren n) = hoursRead <$> huDays h ∧
  NoDup (dayOfWeek <$> huDays h).
Proof.
  unfold buildBusinessHoursNode. destruct (_ || _); [done|]. destruct (7 <? _)%Z; [done|]. intros (cs & Hcs & [= <-])%bizBind_ok.
  by apply hoursConfigs_read in Hcs as (Hr & Hn & _).
Qed.

(** C39: a change of a business profile that is accepted, when the server keeps what
    it was sent, is what reading the profile then gives: the texts, the websites (an empty
    list is kept as one empty website), the time zone without blanks around it, and every
    day, in order and none twice, with its minutes as decimal numbers if its mode has any. *)
Theorem profile_read_back (update : BusinessProfileUpdate) (n : node) (jid : JID) :
  buildBusinessProfileDelta update = Ok n →
  ∃ p, parseBusinessProfile (mkNode "business_profile" [] (VNodes [mkNode "profile" [("jid", VJID jid)] (Content n)])) = Ok p ∧
    pJID p = jid ∧ pAddress p = default "" (puAddress update) ∧ pEmail p = default "" (puEmail update) ∧
    pDescription p = default "" (puDescription update) ∧ Users.Websites p = default [] (websitesRead <$> puWebsites update) ∧
    BusinessHoursTimeZone p = default "" (TrimSpace ∘ huTimeZone <$> puHours update) ∧
    BusinessHours p = default [] ((λ h, hoursRead <$> huDays h) <$> puHours update) ∧
    NoDup (default [] ((λ h, dayOfWeek <$> huDays h) <$> puHours update)).
Proof.
  intros Hn.
  assert (∃ hours, Content n = VNodes (textNode "address" (puAddress update) ++ textNode "email" (puEmail update) ++ textNode "description" (puDescription update)
            ++ ((λ w, mkNode "website" [] (VBytes (s2b w))) <$> default [] (websitesRead <$> puWebsites update)) ++ hours) ∧
          match puHours update with Some h => ∃ c, buildBusinessHoursNode h = Ok c ∧ hours = [c] | None => hours = [] end) as (hours & Hc & Hh).
  { unfold buildBusinessProfileDelta in Hn. destruct update as [a e d w h]. cbn [puAddress puEmail puDescription puWebsites puHours].
    assert (∃ w' h', ifSet w websiteNodes [] = Ok w' ∧ ifSet h (λ h, n ← buildBusinessHoursNode h; Ok [n]) [] = Ok h' ∧
      n = buildBusinessProfileMutationNode (textNode "address" a ++ textNode "email" e ++ textNode "description" d ++ w' ++ h')) as (w' & h' & Hw & Hh & ->).
    { destruct a, e, d, w, h; try done;
        repeat (let x := fresh in let Hx := fresh in apply bizBind_ok in Hn as (x & Hx & Hn)); injection Hn as <-; eauto. }
    exists h'. split.
    - unfold buildBusinessProfileMutationNode. cbn [Content]. do 4 f_equal. destruct w as [w|]; cbn in Hw |- *; [|by injection Hw as <-].
      apply websiteNodes_ok in Hw as ->. done.
    - destruct h as [h|]; cbn in Hh; [|by injection Hh as <-]. apply bizBind_ok in Hh as (c & Hc & [= <-]). eauto. }
  assert (∀ tag, tag ≠ "business_hours" → firstChild tag hours = None) as Hno.
  { intros tag Ht. destruct (puHours update); [|by subst]. destruct Hh as (c & (Htag & _)%buildBusinessHoursNode_read & ->). cbn. by rewrite decide_False by congruence. }
  eexists. split; [unfold parseBusinessProfile; reflexivity|]. cbn [pJID pAddress pEmail pDescription Users.Websites BusinessHoursTimeZone BusinessHours].
  change (GetChildByTag _ ["profile"]) with (mkNode "profile" [("jid", VJID jid)] (Content n)). rewrite Hc.
  set (P := mkNode "profile" _ _).
  assert (∀ k o, k ≠ "website" → k ≠ "business_hours" → firstChild k (GetChildren P) = (λ s, mkNode k [] (VBytes (s2b s))) <$> o →
    bytesOf P k = default "" o) as Hbytes.
  { intros k o _ _ Hf. rewrite bytesOf_child, Hf. destruct o as [s|]; [|done]. cbn [fmap option_fmap option_map contentBytes Content default]. apply b2s_s2b. }
  assert (∀ tag, firstChild tag (GetChildren P) = match firstChild tag (textNode "address" (puAddress update) ++ textNode "email" (puEmail update)
    ++ textNode "description" (puDescription update)) with Some c => Some c | None => if decide (tag = "website") then firstChild tag (GetChildren P) else firstChild tag hours end) as HP.
  { intros tag. unfold P. cbn [GetChildren Content]. rewrite !firstChild_app. destruct (firstChild tag (textNode "address" _)); [done|].
    destruct (firstChild tag (textNode "email" _)); [done|]. destruct (firstChild tag (textNode "description" _)); [done|]. case_decide as Ht; [done|].
    by rewrite websites_tag. }
  assert (GetChildByTag P ["business_hours"] = default P (firstChild "business_hours" hours)) as Hhours.
  { unfold GetChildByTag. cbn [GetOptionalChildByTag]. rewrite HP, !firstChild_app, !firstChild_text. repeat rewrite decide_False by done.
    by destruct (firstChild "business_hours" hours). }
  split_and!; [reflexivity|..].
  1-3: apply Hbytes; [done..|]; rewrite HP, !firstChild_app, !firstChild_text, !Hno by done;
    repeat (rewrite decide_True by done || rewrite decide_False by done); by destruct (puAddress update), (puEmail update), (puDescription update).
  - unfold GetChildrenByTag, P. cbn [GetChildren Content]. rewrite !filter_app, !filter_text, filter_websites by done. cbn [app].
    assert (filter (λ c, Tag c = "website") hours = []) as ->.
    { destruct (puHours update); [|by subst]. destruct Hh as (c & (Htag & _)%buildBusinessHoursNode_read & ->). by rewrite filter_cons_False by congruence. }
    rewrite app_nil_r. apply read_websites.
  - rewrite Hhours. destruct (puHours update) as [h|]; [|by subst]. destruct Hh as (c & (Htag & Hz & _)%buildBusinessHoursNode_read & ->).
    cbn [firstChild]. by rewrite decide_True.
  - rewrite Hhours. destruct (puHours update) as [h|].
    + destruct Hh as (c & (Htag & _ & Hr & _)%buildBusinessHoursNode_read & ->). cbn [firstChild]. by rewrite decide_True.
    + subst hours. unfold P. cbn [firstChild default GetChildren Content fmap option_fmap option_map]. rewrite app_nil_r, !omap_app.
      assert (∀ ws : list string, omap businessHours ((λ w, mkNode "website" [] (VBytes (s2b w))) <$> ws) = []) as ->; [by induction 0|].
      by destruct (puAddress update), (puEmail update), (puDescription update).
  - destruct (puHours update) as [h|]; [|by apply NoDup_nil]. by destruct Hh as (c & (_ & _ & _ & ?)%buildBusinessHoursNode_read & ->).
Qed.
End profileTheory.

(** ** Examples *)

(** Documents, dates and the like are not looked at; every address of the web is one of https. *)
Definition toyText : GoText := {|
  parseJSON _ := None; firstJSON _ := None; printJSON _ := Some []; ParseFloat _ := true; DecodeBase64 _ := None;
  ParseRequestURI s := Some (mkURL "https" s s); ParseAddress s := Some s; LoadLocation s := bool_decide (s = "Europe/Berlin"); DetectContentType _ := "image/png"
|}.
Definition shopHours : BusinessHoursUpdate := mkHoursUpdate "Europe/Berlin" [mkHoursDay "mon" "specific_hours" 540 1020; mkHoursDay "sun" "open_24h" 0 0].
Definition shopUpdate : BusinessProfileUpdate := mkProfileUpdate (Some "Street 1") None (Some "A shop") (Some ["https://shop"]) (Some shopHours).
Definition shopDelta : node := match @buildBusinessProfileDelta toyText shopUpdate with Ok n => n | _ => mkNode "" [] VNil end.
Lemma profile_read_back_witness :
  @buildBusinessProfileDelta toyText shopUpdate = Ok shopDelta ∧
  ∃ p, parseBusinessProfile (mkNode "business_profile" [] (VNodes [mkNode "profile" [("jid", VJID (NewJID "1" DefaultUserServer))] (Content shopDelta)])) = Ok p ∧
    BusinessHours p = [("mon", "specific_hours", "540", "1020"); ("sun", "open_24h", "", "")].
Proof.
  assert (@buildBusinessProfileDelta toyText shopUpdate = Ok shopDelta) as Hb by (vm_compute; reflexivity).
  split; [exact Hb|]. destruct (@profile_read_back toyText shopUpdate shopDelta (NewJID "1" DefaultUserServer) Hb) as (p & Hp & _ & _ & _ & _ & _ & _ & Hh & _).
  exists p. split; [exact Hp|]. rewrite Hh. vm_compute. reflexivity.
Defined.

(** A path that does not exist leads to where it began, so that the options of a profile that
    has none are its other children. *)
Example profile_without_options :
  match parseBusinessProfile (mkNode "business_profile" [] (VNodes [mkNode "profile" [("jid", VJID (NewJID "1" DefaultUserServer))]
    (VNodes [mkNode "email" [] (VBytes (s2b "a@b"))])])) with
  | Ok p => ProfileOptions p !! "email" = Some "a@b"
  | _ => False
  end.
Proof. vm_compute. reflexivity. Qed.

(** * Messages

    The messages that a business sends: products, lists, orders, buttons and flows. What makes
    one acceptable is checked before it is built. *)
Module BusinessMessages.

(** ** Parameters of the builders *)

Record BusinessProductMessageParams := mkProductParams {
  ppOwner : JID; ppProductID : string; ppTitle : string; ppDescription : string; ppCurrencyCode : string; ppPriceAmount1000 : Z;
  ppSalePriceAmount1000 : Z; ppSalePricePresent : bool; ppRetailerID : string; ppURL : string; ppProductImageCount : Z;
  ppProductImage : option proto; ppBody : string; ppFooter : string; ppContextInfo : option proto
}.
(** A section of products or of rows. *)
Record listSection A := mkSection { sTitle : string; sItems : list A }.
Arguments mkSection {A}.
Arguments sTitle {A}.
Arguments sItems {A}.
Record BusinessListRow := mkRow { rowID : string; rowTitle : string; rowDescription : string }.
Abbreviation BusinessProductSection := (listSection string).
Abbreviation BusinessListSection := (listSection BusinessListRow).
Record BusinessProductListMessageParams := mkProductListParams {
  plOwner : JID; plTitle : string; plDescription : string; plButtonText : string; plFooter : string;
  plSections : list BusinessProductSection; plContextInfo : option proto
}.
Record BusinessListMessageParams := mkListParams {
  lmTitle : string; lmDescription : string; lmButtonText : string; lmFooter : string; lmSections : list BusinessListSection; lmContextInfo : option proto
}.
Record BusinessOrderMessageParams := mkOrderParams {
  omOrderID : string; omThumbnail : option (list byte); omItemCount : Z; omStatus : Z; omMessage : string; omOrderTitle : string; omSellerJID : JID;
  omToken : string; omTotalAmount1000 : Z; omTotalCurrencyCode : string; omCatalogType : string; omContextInfo : option proto
}.
Record BusinessNativeFlowButton := mkButton { bName : string; bParamsJSON : string }.
Record BusinessNativeFlowButtonsMessageParams := mkButtonsParams {
  bmTitle : string; bmBody : string; bmFooter : string; bmButtons : list BusinessNativeFlowButton; bmContextInfo : option proto
}.
Record BusinessAddressMessageParams := mkAddressParams { amBody : string; amButtonText : string; amFooter : string; amContextInfo : option proto }.
Record BusinessFlowMessageParams := mkFlowParams {
  fmBody : string; fmButtonText : string; fmFooter : string; FlowID : string; FlowToken : string; FlowAction : string; Screen : string;
  DataJSON : string; fmContextInfo : option proto
}.

(** ** Checks *)

Definition validBusinessOwner (jid : JID) : bool :=
  negb (IsEmpty jid) && bool_decide (User jid ≠ "" ∧ Server jid ∈ [DefaultUserServer; HiddenUserServer]).
Definition validCurrency (code : string) : bool := bool_decide (length (s2b code) = 3%nat) && forallb (inRange 65 90) (s2b code).
(** A field that is left out when it has no value. *)
Definition fieldIf {A} (wrap : A → proto) (k : string) (o : option A) : list (string * proto) := match o with Some a => [(k, wrap a)] | None => [] end.
Definition optionalString (k value : string) : list (string * proto) := fieldIf PString k (if decide (value = "") then None else Some value).
Definition optionalPositive (k : string) (value : Z) : list (string * proto) := fieldIf PInt k (if decide (value = 0%Z) then None else Some value).
Definition contextInfo (c : option proto) : list (string * proto) := fieldIf id "ContextInfo" c.
Definition nonAD (jid : JID) : string := JIDString (ToNonAD jid).

Definition validText (optional : bool) (max : Z) (s : string) : bool := (optional || negb (blank s)) && bounded s max.
Definition validRow (r : BusinessListRow) : bool := validText false 200 (rowID r) && validText false 24 (rowTitle r) && bounded (rowDescription r) 72.
Definition validSection {A} (many : bool) (s : listSection A) : bool :=
  bounded (sTitle s) 24 && negb (bool_decide (sItems s = [])) && negb (many && blank (sTitle s)).

(** The items of a section, none of which may have occurred before. *)
Section sections.
Context {A} (key : A → string) (valid : A → bool) (build : A → proto) (itemsField what : string) (limit : Z).
Fixpoint sectionItems (items : list A) (seen : list string) : outcome bizError (list proto * list string) :=
  match items with
  | [] => Ok ([], seen)
  | item :: items =>
      if negb (valid item) then Err (Invalid what)
      else if bool_decide (key item ∈ seen) then Err (Invalid ("duplicate " +:+ what))
      else '(ps, seen) ← sectionItems items (key item :: seen); Ok (build item :: ps, seen)
  end.
Fixpoint listSections (many : bool) (sections : list (listSection A)) (seen : list string) (count : Z) : outcome bizError (list proto) :=
  match sections with
  | [] => Ok []
  | section :: sections =>
      let n := Z.of_nat (length (sItems section)) in
      if negb (validSection many section) then Err (Invalid (what +:+ " section"))
      else if (limit - count <? n)%Z then Err (TooLong (what +:+ " list") limit)
      else
        '(items, seen) ← sectionItems (sItems section) seen;
        rest ← listSections many sections seen (count + n);
        Ok (PMsg (optionalString "Title" (sTitle section) ++ [(itemsField, PList items)]) :: rest)
  end.
Definition checkedSections (sections : list (listSection A)) : outcome bizError (list proto) :=
  let n := length sections in
  if bool_decide (n = 0%nat) || (10 <? n)%nat then Err (Invalid (what +:+ " sections"))
  else listSections (1 <? n)%nat sections [] 0.
End sections.

Definition productSections : list BusinessProductSection → outcome bizError (list proto) :=
  checkedSections id (validText false 256) (λ id, PMsg [("ProductID", PString id)]) "Products" "product" 30.
Definition rowSections : list BusinessListSection → outcome bizError (list proto) :=
  checkedSections rowID validRow
    (λ r, PMsg ([("RowID", PString (rowID r)); ("Title", PString (rowTitle r))] ++ optionalString "Description" (rowDescription r))) "Rows" "row" 10.

Definition ListMessage_SINGLE_SELECT : Z := 1.
Definition ListMessage_PRODUCT_LIST : Z := 2.
Definition OrderMessage_INQUIRY : Z := 1.
Definition OrderMessage_DECLINED : Z := 3.
Definition OrderMessage_CATALOG : Z := 1.
Definition ButtonsMessage_EMPTY : Z := 1.
Definition ButtonsMessage_TEXT : Z := 2.
Definition ButtonsMessage_Button_NATIVE_FLOW : Z := 2.

(** ** Builders *)

Definition BuildBusinessProductListMessage (params : BusinessProductListMessageParams) : outcome bizError proto :=
  if negb (validBusinessOwner (plOwner params)) then Err (Invalid "business owner JID")
  else if negb (validText false 60 (plTitle params) && bounded (plDescription params) 1024 && validText false 20 (plButtonText params)
                && bounded (plFooter params) 60) then Err (Invalid "business product list text")
  else
    sections ← productSections (plSections params);
    Ok (PMsg [("ListMessage", PMsg
      ([("Title", PString (plTitle params))] ++ optionalString "Description" (plDescription params)
       ++ [("ButtonText", PString (plButtonText params)); ("ListType", PInt ListMessage_PRODUCT_LIST)]
       ++ optionalString "FooterText" (plFooter params)
       ++ [("ProductListInfo", PMsg [("ProductSections", PList sections); ("BusinessOwnerJID", PString (nonAD (plOwner params)))])]
       ++ contextInfo (plContextInfo params)))]).

Definition BuildBusinessListMessage (params : BusinessListMessageParams) : outcome bizError proto :=
  if negb (bounded (lmTitle params) 60 && validText false 1024 (lmDescription params) && validText false 20 (lmButtonText params)
           && bounded (lmFooter params) 60) then Err (Invalid "business list text")
  else
    sections ← rowSections (lmSections params);
    Ok (PMsg [("ListMessage", PMsg
      ([("Title", PString (lmTitle params))] ++ optionalString "Description" (lmDescription params)
       ++ [("ButtonText", PString (lmButtonText params)); ("ListType", PInt ListMessage_SINGLE_SELECT); ("Sections", PList sections)]
       ++ optionalString "FooterText" (lmFooter params) ++ contextInfo (lmContextInfo params)))]).

Definition BuildBusinessOrderMessage (params : BusinessOrderMessageParams) : outcome bizError proto :=
  if negb (validBusinessOwner (omSellerJID params)) then Err (Invalid "seller JID")
  else if negb (validText false 256 (omOrderID params)) || (bool_decide (omToken params ≠ "") && blank (omToken params))
          || (omItemCount params <? 1)%Z || (100 <? omItemCount params)%Z then Err (Invalid "business order identity")
  else if (omStatus params <? OrderMessage_INQUIRY)%Z || (OrderMessage_DECLINED <? omStatus params)%Z || (omTotalAmount1000 params <? 0)%Z
          || negb (validCurrency (omTotalCurrencyCode params)) then Err (Invalid "business order state")
  else if (64 * 1024 <? Z.of_nat (length (default [] (omThumbnail params))))%Z || negb (bounded (omMessage params) 4096)
          || negb (bounded (omOrderTitle params) 256) || negb (bounded (omToken params) 8192) || negb (bounded (omCatalogType params) 128)
       then Err (Invalid "business order field")
  else Ok (PMsg [("OrderMessage", PMsg
    ([("OrderID", PString (omOrderID params))] ++ fieldIf PBytes "Thumbnail" (omThumbnail params)
     ++ [("ItemCount", PInt (omItemCount params)); ("Status", PInt (omStatus params)); ("Surface", PInt OrderMessage_CATALOG)]
     ++ optionalString "Message" (omMessage params) ++ optionalString "OrderTitle" (omOrderTitle params)
     ++ [("SellerJID", PString (nonAD (omSellerJID params)))] ++ optionalString "Token" (omToken params)
     ++ [("TotalAmount1000", PInt (omTotalAmount1000 params)); ("TotalCurrencyCode", PString (omTotalCurrencyCode params))]
     ++ optionalString "CatalogType" (omCatalogType params) ++ contextInfo (omContextInfo params)))]).

Definition buildBusinessInteractiveNativeFlow (body footer name buttonParams : string) (context : option proto) : proto :=
  PMsg [("InteractiveMessage", PMsg
    ([("Body", PMsg [("Text", PString body)])] ++ contextInfo context
     ++ [("NativeFlowMessage", PMsg [("Buttons", PList [PMsg [("Name", PString name); ("ButtonParamsJSON", PString buttonParams)]]); ("MessageVersion", PInt 1)])]
     ++ fieldIf (λ f, PMsg [("Text", PString f)]) "Footer" (if decide (footer = "") then None else Some footer)))].

Section builders.
Context `{GoText}.

Definition BuildBusinessProductMessage (params : BusinessProductMessageParams) : outcome bizError proto :=
  let pricePresent := bool_decide (ppPriceAmount1000 params ≠ 0%Z ∨ ppCurrencyCode params ≠ "") in
  if negb (validBusinessOwner (ppOwner params)) then Err (Invalid "business owner JID")
  else if negb (validText false 256 (ppProductID params) && validText false 256 (ppTitle params)) then Err (Invalid "business product identity")
  else if negb (bounded (ppDescription params) 4096 && bounded (ppRetailerID params) 256 && bounded (ppURL params) 2048 && bounded (ppBody params) 1024
                && bounded (ppFooter params) 60) then Err (Invalid "business product field")
  else if (ppPriceAmount1000 params <? 0)%Z || (ppSalePriceAmount1000 params <? 0)%Z then Err (Invalid "business product price")
  else if negb pricePresent && ((0 <? ppSalePriceAmount1000 params)%Z || ppSalePricePresent params) then Err (Invalid "business product sale price")
  else if pricePresent && negb (validCurrency (ppCurrencyCode params)) then Err (Invalid "business product currency")
  else if (10 <? ppProductImageCount params)%Z then Err (Invalid "business product images")
  else if negb (bool_decide (ppURL params = "")
                || match ParseRequestURI (ppURL params) with
                   | Some parsed => bool_decide (Scheme parsed = "https" ∧ Hostname parsed ≠ "")
                   | None => false
                   end) then Err (Invalid "business product URL")
  else Ok (PMsg [("ProductMessage", PMsg
    ([("Product", PMsg
       (fieldIf id "ProductImage" (ppProductImage params) ++ [("ProductID", PString (ppProductID params)); ("Title", PString (ppTitle params))]
        ++ optionalString "Description" (ppDescription params) ++ optionalString "CurrencyCode" (ppCurrencyCode params)
        ++ (if pricePresent then [("PriceAmount1000", PInt (ppPriceAmount1000 params))] else optionalPositive "PriceAmount1000" (ppPriceAmount1000 params))
        ++ (if ppSalePricePresent params then [("SalePriceAmount1000", PInt (ppSalePriceAmount1000 params))]
            else optionalPositive "SalePriceAmount1000" (ppSalePriceAmount1000 params))
        ++ optionalString "RetailerID" (ppRetailerID params) ++ optionalString "URL" (ppURL params)
        ++ optionalPositive "ProductImageCount" (ppProductImageCount params)));
      ("BusinessOwnerJID", PString (nonAD (ppOwner params)))]
     ++ optionalString "Body" (ppBody params) ++ optionalString "Footer" (ppFooter params) ++ contextInfo (ppContextInfo params)))]).

(** The parameters of a button must be a JSON object. *)
Definition nativeFlowButton (b : BusinessNativeFlowButton) : outcome bizError proto :=
  if negb (validText false 64 (bName b) && validText false 8192 (bParamsJSON b)) then Err (Invalid "business native-flow button")
  else match UnmarshalAs (TMap TAny) (s2b (bParamsJSON b)) with
       | (GMap _, true) => Ok (PMsg [("Type", PInt ButtonsMessage_Button_NATIVE_FLOW);
                                     ("NativeFlowInfo", PMsg [("Name", PString (bName b)); ("ParamsJSON", PString (bParamsJSON b))])])
       | _ => Err (Invalid "business native-flow params")
       end.
Definition BuildBusinessNativeFlowButtonsMessage (params : BusinessNativeFlowButtonsMessageParams) : outcome bizError proto :=
  if negb (validText false 1024 (bmBody params) && bounded (bmTitle params) 60 && bounded (bmFooter params) 60) then Err (Invalid "business native-flow text")
  else if bool_decide (bmButtons params = []) || (3 <? length (bmButtons params))%nat then Err (Invalid "business native-flow buttons")
  else
    buttons ← mapM nativeFlowButton (bmButtons params);
    Ok (PMsg [("ButtonsMessage", PMsg
      ([("ContentText", PString (bmBody params))] ++ optionalString "FooterText" (bmFooter params) ++ [("Buttons", PList buttons)]
       ++ contextInfo (bmContextInfo params)
       ++ (if decide (bmTitle params = "") then [("HeaderType", PInt ButtonsMessage_EMPTY)]
           else [("HeaderType", PInt ButtonsMessage_TEXT); ("Text", PString (bmTitle params))])))]).

Definition marshalled (j : json) : outcome bizError string := match printJSON j with Some l => Ok (b2s l) | None => Err (Invalid "JSON") end.
Definition validButton (buttonText : string) : bool := validText false 20 buttonText && ValidString buttonText.
Definition BuildBusinessAddressMessage (params : BusinessAddressMessageParams) : outcome bizError proto :=
  if negb (validText false 1024 (amBody params) && validButton (amButtonText params) && bounded (amFooter params) 60)
  then Err (Invalid "business address message text")
  else
    buttonParams ← marshalled (JObj [("display_text", JStr (amButtonText params))]);
    Ok (buildBusinessInteractiveNativeFlow (amBody params) (amFooter params) "address_message" buttonParams (amContextInfo params)).

(** The data of a flow, which must be an object if there is any. *)
Definition rawMember (m : string * gval) : string * json := (m.1, match m.2 with GRaw (Some j) => j | _ => JNull end).
Definition flowData (DataJSON : string) : outcome bizError (option json) :=
  if decide (DataJSON = "") then Ok None
  else match parseJSON (s2b DataJSON) with
       | Some j => match decode (TMap TRaw) j (GMap []) with (GMap m, true) => Ok (Some (JObj (rawMember <$> m))) | _ => Err (Invalid "business flow data") end
       | None => Err (Invalid "business flow data")
       end.
Definition flowIdentity (max : Z) (s : string) : bool := validText false max s && ValidString s.
Definition BuildBusinessFlowMessage (params : BusinessFlowMessageParams) : outcome bizError proto :=
  let navigate := bool_decide (FlowAction params = "navigate") in
  let exchange := bool_decide (FlowAction params = "data_exchange") in
  if negb (validText false 1024 (fmBody params) && validButton (fmButtonText params) && bounded (fmFooter params) 60) then Err (Invalid "business flow message text")
  else if negb (flowIdentity 256 (FlowID params) && flowIdentity 8192 (FlowToken params)) then Err (Invalid "business flow identity")
  else if negb (navigate || exchange) then Err (Invalid "business flow action")
  else if negb (ValidString (Screen params) && bounded (Screen params) 256) || (navigate && blank (Screen params)) then Err (Invalid "business flow screen")
  else if exchange && negb (bool_decide (Screen params = "" ∧ DataJSON params = "")) then Err (Invalid "action payload")
  else if negb (ValidString (DataJSON params) && bounded (DataJSON params) (16 * 1024)) then Err (TooLong "business flow data" (16 * 1024))
  else
    data ← flowData (DataJSON params);
    let payload := match data with Some d => [("screen", JStr (Screen params)); ("data", d)] | None => [("screen", JStr (Screen params))] end in
    buttonParams ← marshalled (JObj
      ([("flow_message_version", JStr "3"); ("flow_token", JStr (FlowToken params)); ("flow_id", JStr (FlowID params)); ("flow_cta", JStr (fmButtonText params));
        ("flow_action", JStr (FlowAction params))] ++ if navigate then [("flow_action_payload", JObj payload)] else []));
    Ok (buildBusinessInteractiveNativeFlow (fmBody params) (fmFooter params) "galaxy_message" buttonParams (fmContextInfo params)).
End builders.

(** * Properties *)

(** All items of a list, in order. *)
Definition allItems {A} (sections : list (listSection A)) : list A := concat (sItems <$> sections).
(** What a list must satisfy. *)
Record listFits {A} (key : A → string) (valid : A → bool) (limit : Z) (sections : list (listSection A)) : Prop := mkFits {
  fits_sections : (1 ≤ length sections ≤ 10)%nat;
  fits_titles : Forall (λ s, validSection (1 <? length sections)%nat s = true) sections;
  fits_items : Forall (λ i, valid i = true) (allItems sections);
  fits_distinct : NoDup (key <$> allItems sections);
  fits_limit : (Z.of_nat (length (allItems sections)) ≤ limit)%Z
}.

Section sectionTheory.
Context {A} (key : A → string) (valid : A → bool) (build : A → proto) (itemsField what : string) (limit : Z).
Notation sectionItems := (sectionItems key valid build what).
Notation listSections := (listSections key valid build itemsField what limit).
Definition sectionMessage (s : listSection A) : proto := PMsg (optionalString "Title" (sTitle s) ++ [(itemsField, PList (build <$> sItems s))]).

Lemma sectionItems_sound items : ∀ seen ps seen', sectionItems items seen = Ok (ps, seen') →
  Forall (λ i, valid i = true) items ∧ NoDup (key <$> items) ∧ (∀ i, i ∈ items → key i ∉ seen) ∧
  ps = build <$> items ∧ seen' = (reverse (key <$> items) ++ seen)%list.
Proof.
  induction items as [|i items IH]; intros seen ps seen'; cbn [sectionItems].
  - intros [= <- <-]. split_and!; [constructor|constructor|set_solver|done|done].
  - destruct (valid i) eqn:Hv; cbn [negb]; [|done]. case_bool_decide as Hin; [done|].
    destruct (sectionItems items (key i :: seen)) as [[ps' seen'']|e| |] eqn:Hr; try done. cbn [mbind outcome_bind]. intros [= <- <-].
    apply IH in Hr as (Hf & Hn & Hs & -> & ->). rewrite !fmap_cons, reverse_cons, <- (assoc_L app). split_and!; try done.
    + by constructor.
    + constructor; [|done]. intros (j & Heq & Hj)%list_elem_of_fmap. destruct (Hs j Hj). rewrite Heq. left.
    + intros j [->|Hj]%elem_of_cons; [done|]. specialize (Hs j Hj). set_solver.
Qed.
Lemma sectionItems_complete items : ∀ seen,
  Forall (λ i, valid i = true) items → NoDup (key <$> items) → (∀ i, i ∈ items → key i ∉ seen) →
  sectionItems items seen = Ok (build <$> items, (reverse (key <$> items) ++ seen)%list).
Proof.
  induction items as [|i items IH]; intros seen Hf Hn Hs; [done|]. cbn [sectionItems].
  apply Forall_cons in Hf as [Hv Hf]. rewrite fmap_cons in Hn. apply NoDup_cons in Hn as [Hk Hn].
  rewrite Hv. cbn [negb]. rewrite bool_decide_false by (apply Hs; left). rewrite IH; try done.
  - cbn [mbind outcome_bind]. by rewrite !fmap_cons, reverse_cons, <- (assoc_L app).
  - intros j Hj [Heq|Hj']%elem_of_cons; [|by apply (Hs j); [right|]]. destruct Hk. rewrite <- Heq. by apply list_elem_of_fmap_2.
Qed.

Lemma allItems_cons (s : listSection A) sections : allItems (s :: sections) = (sItems s ++ allItems sections)%list.
Proof. done. Qed.

Lemma listSections_sound many sections : ∀ seen count ps, (count ≤ limit)%Z → listSections many sections seen count = Ok ps →
  Forall (λ s, validSection many s = true) sections ∧ Forall (λ i, valid i = true) (allItems sections) ∧ NoDup (key <$> allItems sections) ∧
  (∀ i, i ∈ allItems sections → key i ∉ seen) ∧ (count + Z.of_nat (length (allItems sections)) ≤ limit)%Z ∧ ps = sectionMessage <$> sections.
Proof.
  induction sections as [|s sections IH]; intros seen count ps Hc; cbn [listSections].
  - intros [= <-]. split_and!; [by apply Forall_nil|by apply Forall_nil|by apply NoDup_nil|by intros ? []%elem_of_nil|cbn; lia|done].
  - destruct (validSection many s) eqn:Hv; cbn [negb]; [|done]. destruct (Z.ltb_spec (limit - count) (Z.of_nat (length (sItems s)))) as [?|Hle]; [done|].
    destruct (sectionItems (sItems s) seen) as [[items seen']|e| |] eqn:Hi; try done. cbn [mbind outcome_bind].
    destruct (listSections many sections seen' (count + Z.of_nat (length (sItems s)))) as [rest|e| |] eqn:Hr; try done. cbn [mbind outcome_bind]. intros [= <-].
    apply sectionItems_sound in Hi as (Hf & Hn & Hs & -> & ->). apply IH in Hr as (Hvs & Hf' & Hn' & Hs' & Hl & ->); [|lia].
    rewrite allItems_cons, fmap_app, length_app. split_and!.
    + by constructor.
    + by apply Forall_app.
    + apply NoDup_app. split_and!; try done. intros k (i & -> & Hi)%list_elem_of_fmap (j & Heq & Hj)%list_elem_of_fmap.
      apply (Hs' j Hj). rewrite <- Heq. apply elem_of_app. left. apply elem_of_reverse. by apply list_elem_of_fmap_2.
    + intros i [Hi|Hi]%elem_of_app; [by apply Hs|]. specialize (Hs' i Hi). set_solver.
    + lia.
    + done.
Qed.
Lemma listSections_complete many sections : ∀ seen count,
  Forall (λ s, validSection many s = true) sections → Forall (λ i, valid i = true) (allItems sections) → NoDup (key <$> allItems sections) →
  (∀ i, i ∈ allItems sections → key i ∉ seen) → (count + Z.of_nat (length (allItems sections)) ≤ limit)%Z →
  listSections many sections seen count = Ok (sectionMessage <$> sections).
Proof.
  induction sections as [|s sections IH]; intros seen count Hvs Hf Hn Hs Hl; [done|]. cbn [listSections].
  rewrite allItems_cons, ?fmap_app, ?length_app in *. apply Forall_cons in Hvs as [Hv Hvs]. apply Forall_app in Hf as [Hf Hf'].
  apply NoDup_app in Hn as (Hn & Hd & Hn'). rewrite Hv. cbn [negb]. rewrite (proj2 (Z.ltb_ge _ _)) by lia.
  rewrite sectionItems_complete; [|done|done|intros i Hi; apply Hs; set_solver]. cbn [mbind outcome_bind].
  rewrite IH; [done|done|done|done| |lia]. intros i Hi [Hk|Hk]%elem_of_app.
  - rewrite elem_of_reverse in Hk. apply (Hd _ Hk). by apply list_elem_of_fmap_2.
  - apply (Hs i); set_solver.
Qed.

Lemma checkedSections_fits sections ps : (0 ≤ limit)%Z →
  checkedSections key valid build itemsField what limit sections = Ok ps ↔ listFits key valid limit sections ∧ ps = sectionMessage <$> sections.
Proof.
  intros H0. unfold checkedSections. split.
  - case_bool_decide as Hn; [done|]. cbn [orb]. destruct (Nat.ltb_spec 10 (length sections)); [done|].
    intros Hok. apply listSections_sound in Hok as (? & ? & ? & ? & ? & ->); [|done]. split; [|done]. split; by try lia.
  - intros [[Hl Ht Hi Hd Hm] ->]. rewrite bool_decide_false by lia. cbn [orb]. rewrite (proj2 (Nat.ltb_ge _ _)) by lia.
    apply listSections_complete; [done|done|done|by intros ? ? ?%elem_of_nil|cbn; lia].
Qed.

(** What a receiver reads out of the sections. *)
Definition readItems (sections : list proto) : list proto := concat ((λ s, asList (field itemsField s)) <$> sections).
Lemma readItems_sections (Hf : itemsField ≠ "Title") sections : readItems (sectionMessage <$> sections) = build <$> allItems sections.
Proof.
  induction sections as [|s sections IH]; [done|]. unfold readItems in *. rewrite fmap_cons. cbn [concat]. fold (allItems (s :: sections)).
  rewrite allItems_cons, fmap_app. cbn [concat fmap list_fmap] in IH |- *. rewrite <- IH. f_equal. unfold sectionMessage, optionalString, fieldIf.
  case_decide; cbn [app field assoc]; rewrite ?decide_True by done; [done|]. rewrite decide_False by done. by rewrite decide_True.
Qed.
End sectionTheory.

Lemma decided_ok {A} (b : bool) (m : outcome bizError A) e r : (if negb b then Err e else m) = Ok r ↔ b = true ∧ m = Ok r.
Proof. destruct b; cbn; naive_solver. Qed.
Lemma bind_ok {A B} (m : outcome bizError A) (f : A → outcome bizError B) b : (m ≫= f) = Ok b ↔ ∃ a, m = Ok a ∧ f a = Ok b.
Proof. destruct m; cbn; naive_solver. Qed.

(** What is checked of the texts of a list of products and of a list of rows. *)
Definition productListTexts (params : BusinessProductListMessageParams) : bool :=
  validBusinessOwner (plOwner params)
  && (validText false 60 (plTitle params) && bounded (plDescription params) 1024 && validText false 20 (plButtonText params) && bounded (plFooter params) 60).
Definition listTexts (params : BusinessListMessageParams) : bool :=
  bounded (lmTitle params) 60 && validText false 1024 (lmDescription params) && validText false 20 (lmButtonText params) && bounded (lmFooter params) 60.
Definition productIDs (sections : list proto) : list string := (λ p, asString (field "ProductID" p)) <$> readItems "Products" sections.
Definition rowsOf (sections : list proto) : list (string * string) :=
  (λ p, (asString (field "RowID" p), asString (field "Title" p))) <$> readItems "Rows" sections.

(** The lists that a business sends. A list of products is built exactly when
    the owner is a user, the texts are within their limits, there are one to ten sections
    with a title if there are several, and at most 30 products that all have different
    identifiers; a list of rows likewise with at most ten rows. And then the message shows
    every product, or row, of every section, in order. *)
Theorem business_lists (p : BusinessProductListMessageParams) (l : BusinessListMessageParams) (m : proto) :
  ((∃ m, BuildBusinessProductListMessage p = Ok m) ↔
     productListTexts p = true ∧ listFits id (validText false 256) 30 (plSections p)) ∧
  (BuildBusinessProductListMessage p = Ok m →
     productIDs (asList (path ["ListMessage"; "ProductListInfo"; "ProductSections"] (Some m))) = allItems (plSections p)) ∧
  ((∃ m, BuildBusinessListMessage l = Ok m) ↔ listTexts l = true ∧ listFits rowID validRow 10 (lmSections l)) ∧
  (BuildBusinessListMessage l = Ok m →
     rowsOf (asList (path ["ListMessage"; "Sections"] (Some m))) = (λ r, (rowID r, rowTitle r)) <$> allItems (lmSections l)).
Proof.
  assert (∀ m, BuildBusinessProductListMessage p = Ok m → productListTexts p = true ∧ listFits id (validText false 256) 30 (plSections p) ∧
    path ["ListMessage"; "ProductListInfo"; "ProductSections"] (Some m) = Some (PList (sectionMessage (λ id, PMsg [("ProductID", PString id)]) "Products" <$> plSections p))) as Hp.
  { intros m'. unfold BuildBusinessProductListMessage. rewrite !decided_ok, bind_ok. intros (Ho & Ht & ps & Hs & [= <-]).
    apply checkedSections_fits in Hs as [Hf ->]; [|lia]. split; [by apply andb_true_iff|]. split; [done|].
    unfold optionalString, fieldIf. repeat case_decide; reflexivity. }
  assert (∀ m, BuildBusinessListMessage l = Ok m → listTexts l = true ∧ listFits rowID validRow 10 (lmSections l) ∧
    path ["ListMessage"; "Sections"] (Some m) = Some (PList (sectionMessage (λ r, PMsg ([("RowID", PString (rowID r)); ("Title", PString (rowTitle r))] ++
      optionalString "Description" (rowDescription r))) "Rows" <$> lmSections l))) as Hl.
  { intros m'. unfold BuildBusinessListMessage. rewrite decided_ok, bind_ok. intros (Ht & ps & Hs & [= <-]).
    apply checkedSections_fits in Hs as [Hf ->]; [|lia]. split; [done|]. split; [done|].
    unfold optionalString, fieldIf. repeat case_decide; reflexivity. }
  split_and!.
  - split; [intros [m' Hm]; destruct (Hp _ Hm) as (? & ? & _); done|]. intros [[Ho Ht]%andb_true_iff Hf]. unfold BuildBusinessProductListMessage.
    eexists. rewrite !decided_ok, bind_ok. split; [done|]. split; [done|]. eexists. split; [by apply checkedSections_fits|reflexivity].
  - intros (_ & _ & ->)%Hp. cbn [asList]. unfold productIDs. rewrite readItems_sections by done. rewrite <- list_fmap_compose. apply list_fmap_id.
  - split; [intros [m' Hm]; destruct (Hl _ Hm) as (? & ? & _); done|]. intros [Ht Hf]. unfold BuildBusinessListMessage.
    eexists. rewrite decided_ok, bind_ok. split; [done|]. eexists. split; [by apply checkedSections_fits|reflexivity].
  - intros (_ & _ & ->)%Hl. cbn [asList]. unfold rowsOf. rewrite readItems_sections by done. by rewrite <- list_fmap_compose.
Qed.

(** ** Examples *)

Definition shopJID : JID := NewJID "15550001111" DefaultUserServer.
Definition twoProducts : BusinessProductListMessageParams :=
  mkProductListParams shopJID "Shop" "" "View" "" [mkSection "A" ["1"; "2"]; mkSection "B" ["3"]] None.
Definition twoRows : BusinessListMessageParams := mkListParams "" "Choose" "View" "" [mkSection "" [mkRow "1" "One" ""; mkRow "2" "Two" "second"]] None.
Definition builtOr (r : outcome bizError proto) : proto := match r with Ok m => m | _ => PMsg [] end.

Lemma business_lists_witness :
  productIDs (asList (path ["ListMessage"; "ProductListInfo"; "ProductSections"] (Some (builtOr (BuildBusinessProductListMessage twoProducts))))) = ["1"; "2"; "3"] ∧
  rowsOf (asList (path ["ListMessage"; "Sections"] (Some (builtOr (BuildBusinessListMessage twoRows))))) = [("1", "One"); ("2", "Two")].
Proof.
  split.
  - refine (proj1 (proj2 (business_lists twoProducts twoRows _)) _). vm_compute. reflexivity.
  - refine (proj2 (proj2 (proj2 (business_lists twoProducts twoRows _))) _). vm_compute. reflexivity.
Defined.
(** A product twice, a second section without a title, and a text of blanks are refused. *)
Example refused_lists :
  map (λ s, BuildBusinessProductListMessage (mkProductListParams shopJID "Shop" "" "View" "" s None))
    [[mkSection "A" ["1"]; mkSection "B" ["1"]]; [mkSection "A" ["1"]; mkSection " " ["2"]]; [mkSection "A" ["  "]]] =
  [Err (Invalid "duplicate product"); Err (Invalid "product section"); Err (Invalid "product")].
Proof. vm_compute. reflexivity. Qed.
End BusinessMessages.
