(* ===== verification/Send.v ===== *)
(** Sending messages (src/send.go): for every device of every recipient the message is
    encrypted with the session of its own, which is made of a prekey bundle when there
    is none yet. *)
From Stdlib Require Import ZArith Lia.
From Stdlib Require Import Strings.Byte.
From stdpp Require Import prelude gmap strings list fin_maps.
From S2P Require Import Prelude Strconv Jid Node Attrs Decoder Cbc LTHash Noise Sql SignalStore SessionCache LidMap LidMapSpec Requests PreKeys PreKeyUpload MessageInfo Receipts EventBuffer MsgSecret Proto Client MessageType Events Recents Devices ReportingToken TcToken ChatSettings Groups Cli Users.

#[local] Open Scope string_scope.

Inductive sendError :=
| ErrRecipientADJID | SendNotLoggedIn | ErrInvalidInlineBotID | ErrSendUnknownServer (server : string)
| MembersFailed (e : groupError) | BroadcastFailed (e : broadcastError) | ResolveFailed (e : userError)
| RecentFailed (e : recentError) | MessageMarshalFailed
| DevicesFailed (e : deviceError) | MappingsFailed (e : option lidError) | SessionsFailed (e : sessionError)
| RelayEncryptFailed | ErrNoSession (address : string) | BundleFailed (e : signalError) | ClearFailed (e : dbError) | EncryptFailed (e : signalError)
| BundlesFailed | SenderKeyFailed (e : signalError) | ErrShadowGroupUnsupported
| SecretFailed (e : secretError) | SettingsFailed (e : dbError) | NoRootSecret | NoOwnLID | BadRootSecret
| ErrShadowV3Unsupported | UnsupportedMessage | PeerUnsupported
| SocketFailed | ErrMessageTimedOut | SendContextEnded | RetryFailed (e : iqError)
| TimerFailed (e : groupError) | NoTimerThere (server : string).

Record SendResponse := mkResponse {
  respTimestamp : goTime; respID : string; respServerID : Z; respSender : JID; PHashMismatch : bool; respChat : JID
}.
(** Whether the server acknowledged another list of participants than was sent. *)
Definition setParticipantHashMismatch (resp : SendResponse) (sent acknowledged : string) : bool * SendResponse :=
  let mismatch := bool_decide (acknowledged ≠ "" ∧ sent ≠ acknowledged) in
  (mismatch, mkResponse (respTimestamp resp) (respID resp) (respServerID resp) (respSender resp) mismatch (respChat resp)).

Record SendRequestExtra := mkExtra {
  reqID : string; InlineBotJID : JID; Peer : bool; MediaHandle : string; reqMeta : option MsgMetaInfo; AdditionalNodes : option (list node)
}.
Definition noExtra : SendRequestExtra := mkExtra "" EmptyJID false "" None None.

Record nodeExtraParams := mkParams {
  botNode : option node; metaNode : option node; additionalNodes : option (list node); addressingMode : string; peerRecipientPN : JID
}.
Definition noParams : nodeExtraParams := mkParams None None None "" EmptyJID.

Definition MuseJID : JID := NewJID "1807055946647697" BotServer.

Definition i32 (z : Z) : Z := (z + 2 ^ 31) `mod` 2 ^ 32 - 2 ^ 31.

(** ** Building messages *)

Definition BuildMessageKey (ownID ownLID chat sender : JID) (id : string) : proto :=
  let other := negb (IsEmpty sender) && bool_decide (User sender ≠ User ownID ∧ User sender ≠ User ownLID) in
  let key := [("FromMe", PBool (negb other)); ("ID", PString id); ("RemoteJID", PString (JIDString chat))] in
  PMsg (if other && bool_decide (Server chat ≠ DefaultUserServer ∧ Server chat ≠ HiddenUserServer ∧ Server chat ≠ MessengerServer)
        then key ++ [("Participant", PString (JIDString (ToNonAD sender)))] else key)%list.
Definition protocolMessage (fields : list (string * proto)) : proto := PMsg [("ProtocolMessage", PMsg fields)].
Definition BuildRevoke (ownID ownLID chat sender : JID) (id : string) : proto :=
  protocolMessage [("Type", PInt ProtocolMessage_REVOKE); ("Key", BuildMessageKey ownID ownLID chat sender id)].
Definition BuildReaction (ownID ownLID chat sender : JID) (id reaction : string) (nowMs : Z) : proto :=
  PMsg [("ReactionMessage", PMsg [("Key", BuildMessageKey ownID ownLID chat sender id); ("Text", PString reaction); ("SenderTimestampMS", PInt nowMs)])].
Definition PeerDataOperationRequestType_HISTORY_SYNC_ON_DEMAND : Z := 3.
Definition PeerDataOperationRequestType_PLACEHOLDER_MESSAGE_RESEND : Z := 4.
Definition peerRequest (type : Z) (fields : list (string * proto)) : proto :=
  protocolMessage [("Type", PInt ProtocolMessage_PEER_DATA_OPERATION_REQUEST_MESSAGE);
    ("PeerDataOperationRequestMessage", PMsg (("PeerDataOperationRequestType", PInt type) :: fields))].
Definition BuildUnavailableMessageRequest (ownID ownLID chat sender : JID) (id : string) : proto :=
  peerRequest PeerDataOperationRequestType_PLACEHOLDER_MESSAGE_RESEND
    [("PlaceholderMessageResendRequest", PList [PMsg [("MessageKey", BuildMessageKey ownID ownLID chat sender id)]])].
(** [t]: the seconds of the last known message. *)
Definition BuildHistorySyncRequest (chat : JID) (id : string) (fromMe : bool) (t count : Z) : proto :=
  peerRequest PeerDataOperationRequestType_HISTORY_SYNC_ON_DEMAND
    [("HistorySyncOnDemandRequest", PMsg [("ChatJID", PString (JIDString chat)); ("OldestMsgID", PString id); ("OldestMsgFromMe", PBool fromMe);
        ("OnDemandMsgCount", PInt (i32 count)); ("OldestMsgTimestampMS", PInt t)])].
Definition BuildEdit (chat : JID) (id : string) (newContent : proto) (nowMs : Z) : proto :=
  PMsg [("EditedMessage", PMsg [("Message", protocolMessage
    [("Key", PMsg [("FromMe", PBool true); ("ID", PString id); ("RemoteJID", PString (JIDString chat))]);
     ("Type", PInt ProtocolMessage_MESSAGE_EDIT); ("EditedMessage", newContent); ("TimestampMS", PInt nowMs)])])].

Section send.
Context `{SignalOps} `{ProtoCodec} `{NoiseCrypto} `{HKDF} `{Outside} `{MapOrder}.
Abbreviation sendM := (cliM sendError).
#[local] Existing Instances cliM_ret cliM_bind.

Definition never {A} (m : outcome Empty_set A) : sendM A := lift (map_err (Empty_set_rect (λ _, sendError)) m).
Definition marshal (m : proto) : sendM (list byte) := match Marshal m with Some b => mret b | None => throw MessageMarshalFailed end.

(** ** One device *)

Definition processBundle (to : JID) (bundle : Bundle) : sendM unit :=
  let process := onBase (onSessions id (builderProcessBundle (addressString to) bundle)) in
  r ← Client.try process;
  match r with
  | inr _ => mret tt
  | inl UntrustedIdentity =>
      if AutoTrustIdentity cfg then
        _ ← failing_with ClearFailed (clearUntrustedIdentity to);
        failing_with BundleFailed process
      else throw (BundleFailed UntrustedIdentity)
  | inl e => throw (BundleFailed e)
  end.

Definition copyAttrs (from to : list (string * value)) : list (string * value) := foldl (λ attrs a, setAttr a.1 a.2 attrs) to from.

Definition pad (plaintext : list byte) : sendM (list byte) :=
  r ← random 1;
  mret (padMessage (default x00 (head r)) plaintext).

Definition encryptMessageForDevice (plaintext : list byte) (to : JID) (bundle : option Bundle) (extraAttrs : list (string * value))
    (existingSessions : gmap string bool) : sendM (node * bool) :=
  match relayEncrypt <$> shadowRelay with
  | Some relay => match relay plaintext to bundle extraAttrs with Some r => mret r | None => throw RelayEncryptFailed end
  | None =>
      let address := addressString to in
      _ ← (match bundle with
           | Some bundle => processBundle to bundle
           | None =>
               sessionExists ← (match existingSessions !! address with
                                | Some b => mret b
                                | None => onBase (onSessionStore SessionsFailed (ContainsSession address))
                                end);
               if (sessionExists : bool) then mret tt else throw (ErrNoSession address)
           end);
      padded ← pad plaintext;
      '(ciphertext, isPreKey) ← onBase (onSessions EncryptFailed (cipherEncrypt address padded));
      let encAttrs := copyAttrs extraAttrs [("v", VString "2"); ("type", VString (if (isPreKey : bool) then "pkmsg" else "msg"))] in
      mret (mkNode "enc" encAttrs (VBytes ciphertext),
            match lookupAttr "type" encAttrs with Some (VString t) => bool_decide (t = "pkmsg") | _ => false end && negb (hasMessengerConfig cfg))
  end.

Definition encryptMessageForDeviceAndWrap (plaintext : list byte) (wireIdentity encryptionIdentity : JID) (bundle : option Bundle)
    (encAttrs : list (string * value)) (existingSessions : gmap string bool) : sendM (node * bool) :=
  '(n, includeDeviceIdentity) ← encryptMessageForDevice plaintext encryptionIdentity bundle encAttrs existingSessions;
  mret (mkNode "to" [("jid", VJID wireIdentity)] (VNodes [n]), includeDeviceIdentity).

(** ** All devices *)

Definition ownDevice (jid : JID) : bool := bool_decide (jid = ownID ∨ jid = ownLID).

(** Under which address each device has its session. A phone number whose LID is known
    has it under the LID, to which it is moved first. *)
Record identities := mkIdentities { idOf : gmap JID JID; addresses : list string; wireOf : gmap string JID }.
Fixpoint encryptionIdentities (lidMappings : JID → option JID) (devices : list JID) (ids : identities) : sendM identities :=
  match devices with
  | [] => mret ids
  | jid :: devices =>
      if ownDevice jid then encryptionIdentities lidMappings devices ids
      else
        identity ← (if decide (Server jid = DefaultUserServer) then
                      match lidMappings jid with
                      | Some lid => if IsEmpty lid then mret jid else _ ← migrateSessionStore jid lid; mret lid
                      | None => mret jid
                      end
                    else mret jid);
        let address := addressString identity in
        encryptionIdentities lidMappings devices
          (mkIdentities (<[jid := identity]> (idOf ids)) (addresses ids ++ [address])%list (<[address := jid]> (wireOf ids)))
  end.

Definition fetchBundles (retryDevices : list JID) : sendM (gmap JID (option Bundle)) :=
  match retryDevices, relayPreKeys <$> shadowRelay with
  | [], _ => mret ∅
  | _, Some relay => mret (default ∅ (relay retryDevices))
  | _, None => t ← tick; lift (map_err (λ _, BundlesFailed) (fetchPreKeysNoError (answerIQ t) retryDevices))
  end.

Definition plaintextFor (msgPlaintext : list byte) (dsmPlaintext : option (list byte)) (jid : JID) : list byte :=
  match dsmPlaintext with
  | Some dsm => if decide (User jid = User ownID ∨ User jid = User ownLID) then dsm else msgPlaintext
  | None => msgPlaintext
  end.

(** A device for which it fails is left out, unless the context has ended. *)
Fixpoint encryptAll (ids : gmap JID JID) (bundles : gmap JID (option Bundle)) (existingSessions : gmap string bool)
    (msgPlaintext : list byte) (dsmPlaintext : option (list byte)) (encAttrs : list (string * value)) (devices : list JID) :
    sendM (list node * bool) :=
  match devices with
  | [] => mret ([], false)
  | jid :: devices =>
      let rest := encryptAll ids bundles existingSessions msgPlaintext dsmPlaintext encAttrs devices in
      if ownDevice jid then rest
      else
        r ← Client.try (encryptMessageForDeviceAndWrap (plaintextFor msgPlaintext dsmPlaintext jid) jid (default EmptyJID (ids !! jid))
                          (mjoin (bundles !! jid)) encAttrs existingSessions);
        match r with
        | inl e => t ← tick; if contextEnded t then throw e else rest
        | inr (n, isPreKey) => '(ns, includeIdentity) ← rest; mret (n :: ns, isPreKey || includeIdentity)
        end
  end.

(** What the new context holds ends with the call. *)
Definition inNewContext {A} (m : sendM A) : sendM A := λ c,
  let '(r, c') := m c in (r, set_base (set_cCache (cCache (base c)) (base c')) c').

Definition encryptMessageForDevices (allDevices : list JID) (msgPlaintext : list byte) (dsmPlaintext : option (list byte))
    (encAttrs : list (string * value)) : sendM (list node * bool) :=
  '(lidMappings, failed) ← onBase (onLids (MappingsFailed ∘ Some) (GetManyLIDsForPNs maxLIDCacheEntries (LidMapSpec.firstKey lidChoices) (scan lidChoices)
    (List.filter (λ j, bool_decide (Server j = DefaultUserServer)) allDevices)));
  if (failed : bool) then throw (MappingsFailed None)
  else
    ids ← encryptionIdentities lidMappings allDevices (mkIdentities ∅ [] ∅);
    inNewContext (
      existingSessions ← onBase (onSessionStore SessionsFailed (WithCachedSessions (addresses ids)));
      bundles ← fetchBundles (omap (λ s : string * bool, if s.2 then None else Some (default EmptyJID (wireOf ids !! s.1))) (scanSessions existingSessions));
      '(participantNodes, includeIdentity) ← encryptAll (idOf ids) bundles existingSessions msgPlaintext dsmPlaintext encAttrs allDevices;
      _ ← onBase (onSessionStore SessionsFailed (PutCachedSessions nativeBatches));
      mret (participantNodes, includeIdentity)).
(** ** The node of a message *)

Definition makeDeviceIdentityNode : sendM node :=
  match account with Some deviceIdentity => mret (mkNode "device-identity" [] (VBytes deviceIdentity)) | None => lift Panic end.
Definition only (o : option node) : list node := match o with Some n => [n] | None => [] end.

Definition getMessageContent (baseNode : node) (message : proto) (msgType : string) (includeIdentity : bool) (extraParams : nodeExtraParams) :
    sendM (list node) :=
  identity ← (if includeIdentity then n ← makeDeviceIdentityNode; mret [n] else mret []);
  let poll := if decide (msgType = "poll")
              then [mkNode "meta" [("polltype", VString (if has "PollUpdateMessage" message then "vote" else "creation"))] VNil] else [] in
  buttonType ← never (getButtonTypeFromMessage message);
  biz ← (if decide (buttonType = "") then mret []
         else if decide (buttonType = "native_flow") then t ← seconds; mret [buildNativeFlowBizNode message t]
         else attrs ← never (getButtonAttributes message); mret [mkNode "biz" [] (VNodes [mkNode buttonType attrs VNil])]);
  mret (baseNode :: identity ++ poll ++ only (botNode extraParams) ++ only (metaNode extraParams)
          ++ default [] (additionalNodes extraParams) ++ biz)%list.

Definition hostedDevice (jid : JID) : bool := bool_decide (Server jid = HostedServer ∨ Server jid = HostedLIDServer).

Definition messageNodeAttrs (to : JID) (id msgType edit : string) (extraParams : nodeExtraParams) : list (string * value) :=
  ([("id", VString id); ("type", VString msgType); ("to", VJID to)]
    ++ (if IsEmpty (peerRecipientPN extraParams) then [] else [("peer_recipient_pn", VJID (peerRecipientPN extraParams))])
    ++ (if decide (addressingMode extraParams = "") then [] else [("addressing_mode", VString (addressingMode extraParams))])
    ++ (if decide (edit = "") then [] else [("edit", VString edit)]))%list.
(** The attributes of every ciphertext. *)
Definition encAttrsOf (message : proto) (msgType mediaType edit : string) (direct : bool) : list (string * value) :=
  ((if direct && negb (bool_decide (mediaType = "")) then [("mediatype", VString mediaType)] else [])
    ++ (if decide (edit ≠ "" ∨ msgType = "reaction" ∨ has "PollUpdateMessage" message = true)
        then [("decrypt-fail", VString DecryptFailHide)] else []))%list.

Definition prepareMessageNode (to : JID) (id : string) (message : proto) (participants : list JID) (plaintext : list byte)
    (dsmPlaintext : option (list byte)) (extraParams : nodeExtraParams) : sendM (node * list JID) :=
  allDevices ← failing_with DevicesFailed (GetUserDevices participants);
  let allDevices := if decide (Server to = GroupServer) then List.filter (λ j, negb (hostedDevice j)) allDevices else allDevices in
  msgType ← never (getTypeFromMessage message);
  mediaType ← never (getMediaTypeFromMessage message);
  let edit := getEditAttribute message in
  '(participantNodes, includeIdentity) ← encryptMessageForDevices allDevices plaintext dsmPlaintext
    (encAttrsOf message msgType mediaType edit (bool_decide (is_Some dsmPlaintext)));
  content ← getMessageContent (mkNode "participants" [] (VNodes participantNodes)) message msgType includeIdentity extraParams;
  mret (mkNode "message" (messageNodeAttrs to id msgType edit extraParams) (VNodes content), allDevices).

(** The message as others get it, and as the user's own devices get it. *)
Definition marshalMessage (to : JID) (message : option proto) : sendM (list byte * option (list byte)) :=
  match message with
  | None => if decide (Server to = NewsletterServer) then mret ([], None) else lift Panic
  | Some message =>
      plaintext ← marshal message;
      if decide (Server to ≠ GroupServer ∧ Server to ≠ NewsletterServer) then
        dsm ← marshal (PMsg (("DeviceSentMessage", PMsg [("DestinationJID", PString (JIDString to)); ("Message", message)])
                  :: match field "MessageContextInfo" message with Some ctx => [("MessageContextInfo", ctx)] | None => [] end));
        mret (plaintext, Some dsm)
      else mret (plaintext, None)
  end.

(** [sendNodeAndGetData]: the node stands for its encoding, which is sent again after a
    reconnection. *)
Definition sendNodeAndGetData (n : node) : sendM node :=
  sent ← trySend n;
  if (sent : bool) then mret n else throw SocketFailed.

Definition append (n : node) (child : node) : node := mkNode (Tag n) (Attrs n) (VNodes (GetChildren n ++ [child])%list).
Definition reporting (message : proto) (plaintext : list byte) (sender to : JID) (id : string) (n : node) : sendM node :=
  if shouldIncludeReportingToken sendsReportingTokens message && bool_decide (is_Some (path ["MessageContextInfo"; "MessageSecret"] (Some message)))
  then token ← lift (map_err SecretFailed (getMessageReportingToken sortedFields plaintext message sender to id)); mret (append n token)
  else mret n.

(** ** To newsletters, groups, own devices and users *)

Definition sendNewsletter (to : JID) (id : string) (message : proto) (mediaID : string) : sendM node :=
  type ← never (getTypeFromMessage message);
  let attrs := ([("to", VJID to); ("id", VString id); ("type", VString type)]
                 ++ (if decide (mediaID = "") then [] else [("media_id", VString mediaID)]))%list in
  let '(edit, message) :=
    if has "EditedMessage" message then
      ([("edit", VString EditAttributeAdminEdit)], path ["EditedMessage"; "Message"; "ProtocolMessage"; "EditedMessage"] (Some message))
    else if has "ProtocolMessage" message && bool_decide (asInt (path ["ProtocolMessage"; "Type"] (Some message)) = ProtocolMessage_REVOKE) then
      ([("edit", VString EditAttributeAdminRevoke)], None)
    else ([], Some message) in
  '(plaintext, _) ← marshalMessage to message;
  media ← (match message with
           | Some message => mediaType ← never (getMediaTypeFromMessage message);
                             mret (if decide (mediaType = "") then [] else [("mediatype", VString mediaType)])
           | None => mret []
           end);
  sendNodeAndGetData (mkNode "message" (attrs ++ edit)%list (VNodes [mkNode "plaintext" media (VBytes plaintext)])).

Definition distribution (group : JID) (skdm : distributionMessage) : proto :=
  PMsg [("GroupID", PString (JIDString group)); ("AxolotlSenderKeyDistributionMessage", PBytes (SerializeDistribution skdm))].

Definition sendGroup (sender to : JID) (participants : list JID) (id : string) (message : proto) (extraParams : nodeExtraParams) :
    sendM (string * node) :=
  if bool_decide (is_Some shadowRelay) then throw ErrShadowGroupUnsupported
  else
    '(plaintext, _) ← marshalMessage to (Some message);
    skdm ← onBase (onSessions SenderKeyFailed (groupCreate (JIDString to) (addressString ownLID)));
    skdPlaintext ← marshal (PMsg [("SenderKeyDistributionMessage", distribution to skdm)]);
    padded ← pad plaintext;
    ciphertext ← onBase (onSessions EncryptFailed (groupEncrypt (JIDString to) (addressString ownLID) padded));
    '(n, allDevices) ← prepareMessageNode to id message participants skdPlaintext None extraParams;
    let phash := participantListHashV2 allDevices in
    mediaType ← never (getMediaTypeFromMessage message);
    let skMsg := mkNode "enc" ([("v", VString "2"); ("type", VString "skmsg")]
                   ++ (if decide (mediaType = "") then [] else [("mediatype", VString mediaType)]))%list (VBytes ciphertext) in
    let n := append (mkNode (Tag n) (setAttr "phash" (VString phash) (Attrs n)) (Content n)) skMsg in
    n ← reporting message plaintext sender to id n;
    data ← sendNodeAndGetData n;
    mret (phash, data).

Definition preparePeerMessageNode (to : JID) (id : string) (message : proto) : sendM node :=
  let protocol ks := asInt (path ("ProtocolMessage" :: ks) (Some message)) in
  let attrs := ([("id", VString id); ("type", VString "text"); ("category", VString "peer"); ("to", VJID to)]
    ++ (if decide (protocol ["Type"] = ProtocolMessage_APP_STATE_SYNC_KEY_REQUEST) then [("push_priority", VString "high")]
        else if decide (protocol ["PeerDataOperationRequestMessage"; "PeerDataOperationRequestType"] = PeerDataOperationRequestType_HISTORY_SYNC_ON_DEMAND)
        then [("push_priority", VString "high_force"); ("privacy_sensitive", VString "1")] else []))%list in
  plaintext ← marshal message;
  encryptionIdentity ← (if decide (Server to = DefaultUserServer) then failing_with (MappingsFailed ∘ Some) (lidFor to) else mret to);
  '(encrypted, isPreKey) ← encryptMessageForDevice plaintext encryptionIdentity None [] ∅;
  identity ← (if isPreKey && negb (hasMessengerConfig cfg) then n ← makeDeviceIdentityNode; mret [n] else mret []);
  mret (mkNode "message" attrs (VNodes ([mkNode "meta" [("appdata", VString "default")] VNil; encrypted] ++ identity)%list)).
Definition sendPeerMessage (to : JID) (id : string) (message : proto) : sendM node :=
  n ← preparePeerMessageNode to id message;
  sendNodeAndGetData n.

(** The document of a message with a caption takes its place, and the bot gets to know
    what the client can do (src/msgsecret.go). *)
Definition wasaMessage (msg : proto) : proto :=
  let msg := match path ["DocumentWithCaptionMessage"; "Message"; "DocumentMessage"] (Some msg), msg with
             | Some document, PMsg fields =>
                 setField "DocumentMessage" document (PMsg (List.filter (λ f, negb (bool_decide (f.1 = "DocumentWithCaptionMessage"))) fields))
             | _, _ => msg
             end in
  let context := default (PMsg []) (field "MessageContextInfo" msg) in
  let metadata := default (PMsg []) (field "BotMetadata" context) in
  setField "MessageContextInfo" (setField "BotMetadata" (setField "CapabilityMetadata" (PMsg []) metadata) context) msg.
Definition encryptWASAMessage (bot : JID) (id : string) (msg : proto) : sendM (list byte) :=
  if decide (asInt (path ["ProtocolMessage"; "Type"] (Some msg)) = ProtocolMessage_REQUEST_WELCOME_MESSAGE) then marshal msg
  else if negb hasChatSettings then throw NoRootSecret
  else
    rootID ← onSettings SettingsFailed (GetWASARootSecretID bot);
    if decide (rootID = "") then throw NoRootSecret
    else
      let ownLID := ToNonAD ownLID in
      if IsEmpty ownLID then throw NoOwnLID
      else
        found ← onBase (onSecrets (SecretFailed ∘ SecretDB) (GetMessageSecret onSqlite firstSecret bot ownLID rootID));
        let secret := match found with Some (s, _) => s | None => [] end in
        if decide (length secret ≠ 32%nat) then throw BadRootSecret
        else
          plaintext ← marshal (wasaMessage msg);
          botKey ← lift (map_err SecretFailed (applyBotMessageHKDF secret));
          key ← never (SHA256 botKey [] (s2b (id +:+ JIDString ownLID +:+ JIDString bot)) 32);
          iv ← random 12;
          ciphertext ← lift (map_err (SecretFailed ∘ SecretGCM) (gcmEncrypt key iv plaintext (s2b id ++ x00 :: s2b (JIDString ownLID))%list));
          marshal (PMsg [("SecretEncryptedMessage", PMsg
            [("TargetMessageKey", PMsg [("RemoteJID", PString (JIDString bot)); ("FromMe", PBool true); ("ID", PString rootID)]);
             ("EncPayload", PBytes ciphertext); ("EncIV", PBytes iv)])]).

Definition tokenNode (to : JID) (n : node) : sendM node :=
  token ← Client.try (ensureTCToken to);
  match token with
  | inr (Some (b :: l)) => mret (append n (mkNode "tctoken" [] (VBytes (b :: l))))
  | _ =>
      csToken ← Client.try (onTokens id (generateCsToken lidChoices to));
      match csToken with inr (Some (b :: l)) => mret (append n (mkNode "cstoken" [] (VBytes (b :: l)))) | _ => mret n end
  end.
(** Whether a new token has to be issued, in a goroutine. *)
Definition issueToken (to : JID) : sendM unit :=
  storageJID ← Client.try (onTokens id (resolveTCTokenStorageLID lidChoices to));
  t ← seconds;
  c ← get;
  match storageJID with
  | inr jid => if shouldSendTCTokenInChatAction to && shouldSendNewTCToken t (getTCTokenSenderTS jid (tokensOf c)) then start (IssueTokenTask jid t) else mret tt
  | inl _ => mret tt
  end.

Definition sendDM (sender to : JID) (id : string) (message : proto) (extraParams : nodeExtraParams) : sendM (string * node) :=
  '(messagePlaintext, deviceSentMessagePlaintext) ← marshalMessage to (Some message);
  recipientPlaintext ← (if decide (to = MuseJID) then encryptWASAMessage to id message else mret messagePlaintext);
  '(n, allDevices) ← prepareMessageNode to id message [to; ToNonAD sender] recipientPlaintext deviceSentMessagePlaintext extraParams;
  n ← reporting message messagePlaintext sender to id n;
  n ← tokenNode to n;
  data ← sendNodeAndGetData n;
  _ ← issueToken to;
  mret (participantListHashV2 allDevices, data).

(** ** Message ids *)

Definition hexDigits : string := "0123456789ABCDEF".
Definition hexUpper (l : list byte) : string :=
  b2s (concat ((λ b, let digit (z : Z) := default x30 (s2b hexDigits !! Z.to_nat z) in [digit (b2z b / 16)%Z; digit (b2z b mod 16)%Z]) <$> l)).
Definition WebMessageIDPrefix : string := "3EB0".
Definition GenerateFacebookMessageID {F} : cliM F Z :=
  t ← now; r ← random 4;
  mret (Z.lor (i64 (Z.shiftl (t / 1000000) 22)) (Z.land (be_value r) (2 ^ 22 - 1)))%Z.
Definition GenerateMessageID {F} : cliM F string :=
  if hasMessengerConfig cfg then n ← GenerateFacebookMessageID; mret (FormatInt n)
  else
    t ← seconds; r ← random 16;
    let data := (be_bytes 8 t ++ (if IsEmpty ownID then [] else s2b (User ownID) ++ s2b "@c.us") ++ r)%list in
    mret (WebMessageIDPrefix +:+ hexUpper (take 9 (sha256 data))).

(** ** Sending a message *)

(** The caller's message gets a secret and the bot's persona in place. *)
Definition inContext (f : proto → proto) (message : proto) : proto :=
  setField "MessageContextInfo" (f (default (PMsg []) (field "MessageContextInfo" message))) message.
Definition withSecret (message : proto) : sendM proto :=
  if bool_decide (is_Some (path ["MessageContextInfo"; "MessageSecret"] (Some message))) then mret message
  else secret ← random 32; mret (inContext (setField "MessageSecret" (PBytes secret)) message).
Definition withPersona (to : JID) (message : proto) : proto :=
  if bool_decide (is_Some (path ["MessageContextInfo"; "BotMetadata"] (Some message))) then message
  else
    let personaID := if decide (to = MuseJID) then "1807055946647697$1" else "867051314767696$760019659443059" in
    inContext (setField "BotMetadata" (PMsg [("PersonaID", PString personaID)])) message.

Definition optionalField (k : string) (m : option proto) : list (string * proto) := match m with Some v => [(k, v)] | None => [] end.
(** The message that invokes a bot inside of another chat, and the node for the bot. *)
Definition inlineBot (bot : JID) (message : proto) : sendM (proto * node) :=
  let metadata := optionalField "BotMetadata" (path ["MessageContextInfo"; "BotMetadata"] (Some message)) in
  let invoke := ("BotInvokeMessage", PMsg [("Message", PMsg (optionalField "ExtendedTextMessage" (field "ExtendedTextMessage" message)
                                                           ++ [("MessageContextInfo", PMsg metadata)])%list)]) in
  secret ← lift (map_err SecretFailed (applyBotMessageHKDF (asBytes (path ["MessageContextInfo"; "MessageSecret"] (Some message)))));
  '(messagePlaintext, _) ← marshalMessage bot (Some (PMsg [invoke; ("MessageContextInfo", PMsg (metadata ++ [("BotMessageSecret", PBytes secret)])%list)]));
  '(participantNodes, _) ← encryptMessageForDevices [bot] messagePlaintext None [];
  mret (PMsg (invoke :: optionalField "MessageContextInfo" (field "MessageContextInfo" message)), mkNode "bot" [] (VNodes participantNodes)).

(** To whom a message goes, under which of the two own addresses, and what its node has. *)
Record route := mkRoute { rTo : JID; rOwn : JID; rParticipants : list JID; rMode : string; rPeerPN : JID }.
Definition routeOf (to : JID) (req : SendRequestExtra) : sendM route :=
  if decide (Server to = GroupServer) then
    cached ← failing_with MembersFailed (getCachedGroupData to);
    match cached with
    | None => lift Panic
    | Some cachedData =>
        mret (if decide (Groups.AddressingMode cachedData = "lid") then mkRoute to ownLID (Members cachedData) "lid" EmptyJID
              else if CommunityAnnouncementGroup cachedData && bool_decide (is_Some (reqMeta req)) then mkRoute to ownLID (Members cachedData) "pn" EmptyJID
              else mkRoute to ownID (Members cachedData) "" EmptyJID)
    end
  else if decide (Server to = BroadcastServer) then
    l ← failing_with BroadcastFailed (getBroadcastListParticipants to);
    mret (mkRoute to ownID l "" EmptyJID)
  else if decide (Server to = HiddenUserServer) then
    pn ← Client.try (pnFor to);
    mret (mkRoute to ownLID [] "" (match pn with inr j => j | inl _ => EmptyJID end))
  else if bool_decide (Server to = DefaultUserServer) && negb (Peer req) then
    toLID ← failing_with ResolveFailed (ResolveLID to);
    mret (mkRoute toLID ownLID [] "" to)
  else mret (mkRoute to ownID [] "" EmptyJID).

Definition metaAttrs (m : MsgMetaInfo) : list (string * value) :=
  (match DeprecatedLIDSession m with Some b => [("deprecated_lid_session", VBool b)] | None => [] end
    ++ (if decide (ThreadMessageID m = "") then []
        else [("thread_msg_id", VString (ThreadMessageID m)); ("thread_msg_sender_jid", VJID (ThreadMessageSenderJID m))]))%list.

(** The id of a message to a newsletter is the one of the message it edits or revokes. *)
Definition requestID (to : JID) (message : proto) (id : string) : string :=
  let keyID ks := asString (path (ks ++ ["Key"; "ID"])%list (Some message)) in
  if decide (Server to ≠ NewsletterServer) then id
  else if has "EditedMessage" message then keyID ["EditedMessage"; "Message"; "ProtocolMessage"]
  else if has "ProtocolMessage" message && bool_decide (asInt (path ["ProtocolMessage"; "Type"] (Some message)) = ProtocolMessage_REVOKE)
  then keyID ["ProtocolMessage"]
  else id.

(** The hash of the list of devices, empty without one, and the node that was sent. *)
Definition sendTo (r : route) (req : SendRequestExtra) (id : string) (message : proto) (extraParams : nodeExtraParams) : sendM (string * node) :=
  let to := rTo r in
  if decide (Server to = GroupServer ∨ Server to = BroadcastServer) then sendGroup (rOwn r) to (rParticipants r) id message extraParams
  else if decide (Server to = DefaultUserServer ∨ Server to = BotServer ∨ Server to = HiddenUserServer) then
    if Peer req then n ← sendPeerMessage to id message; mret ("", n) else sendDM (rOwn r) to id message extraParams
  else if decide (Server to = NewsletterServer) then n ← sendNewsletter to id message (MediaHandle req); mret ("", n)
  else throw (ErrSendUnknownServer (Server to)).

Definition awaitAnswer (id : string) : sendM node :=
  t ← tick;
  match waitFor t id with
  | WaitTimedOut => throw ErrMessageTimedOut
  | WaitCtxDone => throw SendContextEnded
  | Got resp =>
      resp ← (if isDisconnectNode resp then t ← tick; lift (map_err RetryFailed (retryFrame (reconnection t) "message send" resp)) else mret resp);
      match resp with Reply n => mret n | StreamEnd => mret (mkNode "" [] VNil) end
  end.

Definition answered (respNode : node) : Z * goTime * Z * string :=
  ((s ← OptionalInt "server_id"; t ← attrUnixTime "t"; e ← attrInt "error"; p ← OptionalString "phash"; mret (s, t, e, p) : attrM _)
    (AttrGetter_of respNode)).1.

(** A list of devices that the server knows better is forgotten. *)
Definition forgetParticipants (to : JID) : sendM unit :=
  if decide (Server to = GroupServer) then modify (λ c, set_cGroups (delete to (cGroups c)) c)
  else if decide (Server to ∈ [DefaultUserServer; HiddenUserServer; BotServer; HostedServer; HostedLIDServer])
  then modify (λ c, set_cDevices (delete to (cDevices c)) c)
  else mret tt.

(** The response comes with the server's error code, 0 for none. *)
Definition SendMessage (to : JID) (message : proto) (req : SendRequestExtra) : sendM (SendResponse * Z) :=
  if (0 <? Device to)%Z && negb (Peer req) then throw ErrRecipientADJID
  else if IsEmpty ownID then throw SendNotLoggedIn
  else
    id ← (if decide (reqID req = "") then GenerateMessageID else mret (reqID req));
    let id := requestID to message id in
    let isInlineBotMode := negb (IsEmpty (InlineBotJID req)) in
    if isInlineBotMode && negb (IsBot (InlineBotJID req)) then throw ErrInvalidInlineBotID
    else
      let isBotMode := isInlineBotMode || IsBot to in
      message ← (if isBotMode || shouldIncludeReportingToken sendsReportingTokens message then withSecret message else mret message);
      let message := if isBotMode then withPersona to message else message in
      '(message, bot) ← (if isInlineBotMode then '(m, n) ← inlineBot (InlineBotJID req) message; mret (m, Some n) else mret (message, None));
      r ← routeOf to req;
      let extraParams := mkParams bot ((λ m, mkNode "meta" (metaAttrs m) VNil) <$> reqMeta req) (AdditionalNodes req) (rMode r) (rPeerPN r) in
      t ← now;
      _ ← (if Peer req then mret tt
           else failing_with RecentFailed (onBase (addRecentMessage cfg (t / 1000000) (rTo r) id (Some message) None)));
      _ ← (match path ["MessageContextInfo"; "MessageSecret"] (Some message) with
           | Some (PBytes secret) => attempt (onBase (onSecrets (SecretFailed ∘ SecretDB) (PutMessageSecret onSqlite (rTo r) (rOwn r) id secret)))
           | _ => mret tt
           end);
      '(phash, data) ← sendTo r req id message extraParams;
      respNode ← awaitAnswer id;
      let '(serverID, timestamp, errorCode, expectedPHash) := answered respNode in
      let '(mismatch, resp) := setParticipantHashMismatch (mkResponse timestamp id serverID (rOwn r) false (rTo r)) phash expectedPHash in
      _ ← (if (mismatch : bool) then forgetParticipants (rTo r) else mret tt);
      mret (resp, errorCode).

Definition SendPeerMessage (message : proto) : sendM (SendResponse * Z) :=
  let own := ToNonAD ownID in
  if IsEmpty own then throw SendNotLoggedIn
  else SendMessage own message (mkExtra "" EmptyJID true "" None None).
Definition RevokeMessage (chat : JID) (id : string) : sendM (SendResponse * Z) :=
  SendMessage chat (BuildRevoke ownID ownLID chat EmptyJID id) noExtra.

(** The timer in seconds; [settingTS]: none for the current time. With the server's error
    code for a message. *)
Definition SetDisappearingTimer (chat : JID) (timer : Z) (settingTS : option Z) : sendM Z :=
  if decide (Server chat = DefaultUserServer ∨ Server chat = HiddenUserServer) then
    t ← (match settingTS with Some t => mret t | None => seconds end);
    '(_, errorCode) ← SendMessage chat (protocolMessage [("Type", PInt ProtocolMessage_EPHEMERAL_SETTING); ("EphemeralExpiration", PInt (u32 timer));
                                           ("EphemeralSettingTimestamp", PInt t)]) noExtra;
    mret errorCode
  else if decide (Server chat = GroupServer) then
    let content := if decide (timer = 0%Z) then mkNode "not_ephemeral" [] VNil else mkNode "ephemeral" [("expiration", VString (FormatInt timer))] VNil in
    t ← tick;
    match sendGroupIQ (answerIQ t) "set" chat content with
    | Ok _ => mret 0%Z
    | Err e => throw (TimerFailed (if negb (bool_decide (timer = 0%Z)) && isIQ 400 "bad-request" e then ErrInvalidDisappearingTimer else e))
    | Panic => lift Panic
    | OutOfFuel => lift OutOfFuel
    end
  else throw (NoTimerThere (Server chat)).
End send.
