(* ===== verification/SendTheory.v ===== *)
(** What a message is sent as: for every device one ciphertext, of the text meant for
    it, under the session that belongs to its address. *)
From Stdlib Require Import ZArith Lia.
From Stdlib Require Import Strings.Byte.
From stdpp Require Import prelude gmap strings list fin_maps.
From S2P Require Import Prelude Strconv Jid Node Attrs Decoder Cbc LTHash Noise Handshake Sql SignalStore IdentityCache SessionCache SessionTheory LidMap LidMapSpec Requests PreKeys PreKeyUpload MessageInfo Receipts EventBuffer MsgSecret Contacts Proto Client MessageType Events Recents Devices ReportingToken TcToken ChatSettings Groups Cli Users Send.

#[local] Open Scope string_scope.
#[local] Open Scope list_scope.

(** How the encryption for a device ended: the ciphertext and whether it is a prekey
    message, or a failure. *)
Abbreviation fate := (JID * option (list byte * bool))%type.

Section theory.
Context `{SignalOps} `{ProtoCodec} `{NoiseCrypto} `{HKDF} `{Outside} `{MapOrder}.
#[local] Existing Instances cliM_ret cliM_bind.

(** The address a device has its session under. *)
Definition identityOf (lidMappings : JID → option JID) (jid : JID) : JID :=
  if decide (Server jid = DefaultUserServer) then
    match lidMappings jid with Some lid => if IsEmpty lid then jid else lid | None => jid end
  else jid.

(** A ciphertext that the session of [to] made of the padded text. *)
Definition encrypted (to : JID) (plaintext : list byte) (ct : list byte) (isPreKey : bool) : Prop :=
  ∃ s s' r, cipherEncrypt (addressString to) (padMessage r plaintext) s = (Ok (ct, isPreKey), s').

(** The node for a device. *)
Definition deviceNode (encAttrs : list (string * value)) (jid : JID) (ct : list byte) (isPreKey : bool) : node :=
  mkNode "to" [("jid", VJID jid)] (VNodes [mkNode "enc"
    (copyAttrs encAttrs [("v", VString "2"); ("type", VString (if isPreKey then "pkmsg" else "msg"))]) (VBytes ct)]).

Lemma encryptMessageForDevice_Ok plaintext to bundle extra existing c n identity c' :
  shadowRelay = None → encryptMessageForDevice plaintext to bundle extra existing c = (Ok (n, identity), c') →
  ∃ ct isPreKey, encrypted to plaintext ct isPreKey ∧
    n = mkNode "enc" (copyAttrs extra [("v", VString "2"); ("type", VString (if (isPreKey : bool) then "pkmsg" else "msg"))]) (VBytes ct) ∧
    identity = match lookupAttr "type" (Attrs n) with Some (VString t) => bool_decide (t = "pkmsg") | _ => false end && negb (hasMessengerConfig cfg).
Proof.
  intros Hr. unfold encryptMessageForDevice. rewrite Hr. cbn [fmap option_fmap option_map].
  intros (u & c1 & _ & (padded & c2 & Hpad & ([ct pre] & c3 & Henc & Hret)%cli_bind)%cli_bind)%cli_bind.
  injection Hret as <- <- _. unfold pad in Hpad. apply cli_bind in Hpad as (r & c4 & _ & Hpad). injection Hpad as <- _.
  unfold onBase, onSessions, zoom in Henc.
  destruct (cipherEncrypt (addressString to) _ _) as [[[ct0 pre0]| | |] s'] eqn:Hc; try done. injection Henc as -> -> _.
  exists ct, pre. split_and!; [by do 3 eexists|done|done].
Qed.

(** The devices one after the other, from the state [c] to the state [c']: the
    client's own are passed over; for each other one its text is encrypted in the state
    that the devices before it left behind, and it gets the ciphertext that the session
    of its address made, or is left out because just this encryption failed while the
    context had not ended. *)
Inductive inTurn (identity : JID → JID) (bundles : gmap JID (option Bundle)) (existing : gmap string bool) (msg : list byte)
    (dsm : option (list byte)) (encAttrs : list (string * value)) : list JID → cli → list fate → cli → Prop :=
| turn_done c : inTurn identity bundles existing msg dsm encAttrs [] c [] c
| turn_own jid devices c fates c' :
    ownDevice jid = true → inTurn identity bundles existing msg dsm encAttrs devices c fates c' →
    inTurn identity bundles existing msg dsm encAttrs (jid :: devices) c fates c'
| turn_encrypted jid devices c n id ct isPreKey c1 fates c' :
    ownDevice jid = false →
    encryptMessageForDevice (plaintextFor msg dsm jid) (identity jid) (mjoin (bundles !! jid)) encAttrs existing c = (Ok (n, id), c1) →
    encrypted (identity jid) (plaintextFor msg dsm jid) ct isPreKey → Content n = VBytes ct →
    inTurn identity bundles existing msg dsm encAttrs devices c1 fates c' →
    inTurn identity bundles existing msg dsm encAttrs (jid :: devices) c ((jid, Some (ct, isPreKey)) :: fates) c'
| turn_failed jid devices c e c1 t c2 fates c' :
    ownDevice jid = false →
    encryptMessageForDevice (plaintextFor msg dsm jid) (identity jid) (mjoin (bundles !! jid)) encAttrs existing c = (Err e, c1) →
    tick (F := sendError) c1 = (Ok t, c2) → contextEnded t = false →
    inTurn identity bundles existing msg dsm encAttrs devices c2 fates c' →
    inTurn identity bundles existing msg dsm encAttrs (jid :: devices) c ((jid, None) :: fates) c'.

(** What happens before the first encryption: the known LIDs are looked up and the
    sessions moved to them, the sessions of all devices are fetched, and the server is
    asked for a bundle for each of those that there are none for. *)
Definition prepared (allDevices : list JID) (lidMappings : JID → option JID) (bundles : gmap JID (option Bundle))
    (existing : gmap string bool) (c c' : cli) : Prop :=
  ∃ ids c1 c2 c3,
    onBase (onLids (MappingsFailed ∘ Some) (GetManyLIDsForPNs maxLIDCacheEntries (LidMapSpec.firstKey lidChoices) (scan lidChoices)
      (List.filter (λ j, bool_decide (Server j = DefaultUserServer)) allDevices))) c = (Ok (lidMappings, false), c1) ∧
    encryptionIdentities lidMappings allDevices (mkIdentities ∅ [] ∅) c1 = (Ok ids, c2) ∧
    onBase (onSessionStore SessionsFailed (WithCachedSessions (addresses ids))) c2 = (Ok existing, c3) ∧
    fetchBundles (omap (λ s : string * bool, if s.2 then None else Some (default EmptyJID (wireOf ids !! s.1))) (scanSessions existing)) c3 =
      (Ok bundles, c').
Definition nodeOf (encAttrs : list (string * value)) (f : fate) : option node := (λ r, deviceNode encAttrs f.1 r.1 r.2) <$> f.2.
Definition isPreKeyFate (f : fate) : bool := match f.2 with Some (_, true) => true | _ => false end.

Definition noType (encAttrs : list (string * value)) : Prop := Forall (λ a, a.1 ≠ "type") encAttrs.
Lemma lookup_type encAttrs attrs : noType encAttrs → lookupAttr "type" (copyAttrs encAttrs attrs) = lookupAttr "type" attrs.
Proof.
  intros Hn. revert attrs. induction Hn as [|[k v] l Hk _ IH]; intros attrs; [done|]. unfold copyAttrs in *. cbn.
  by rewrite IH, lookup_setAttr, decide_False.
Qed.

Lemma wrap_Ok plaintext jid identity bundle encAttrs existing c n id c' :
  shadowRelay = None → noType encAttrs →
  encryptMessageForDeviceAndWrap plaintext jid identity bundle encAttrs existing c = (Ok (n, id), c') →
  ∃ n0 ct isPreKey, encryptMessageForDevice plaintext identity bundle encAttrs existing c = (Ok (n0, id), c') ∧ Content n0 = VBytes ct ∧
    n = deviceNode encAttrs jid ct isPreKey ∧ encrypted identity plaintext ct isPreKey ∧ id = isPreKey && negb (hasMessengerConfig cfg).
Proof.
  intros Hr Ht ([n0 id0] & c1 & Henc & Hret)%cli_bind. injection Hret as <- <- <-. exists n0. pose proof Henc as Hrun.
  apply encryptMessageForDevice_Ok in Henc as (ct & pre & He & -> & ->); [|done]. exists ct, pre. split_and!; [done|done|done|done|].
  cbn [Attrs]. rewrite lookup_type by done. by destruct pre.
Qed.

Lemma wrap_Err plaintext jid identity bundle encAttrs existing c e c' :
  encryptMessageForDeviceAndWrap plaintext jid identity bundle encAttrs existing c = (Err e, c') →
  encryptMessageForDevice plaintext identity bundle encAttrs existing c = (Err e, c').
Proof.
  unfold encryptMessageForDeviceAndWrap, mbind, cliM_bind, stateM_bind.
  destruct (encryptMessageForDevice _ _ _ _ _ c) as [[[n i]|e'| |] c1]; by intros [= -> ->].
Qed.

Lemma encryptAll_Ok identity ids bundles existing msg dsm encAttrs devices c ns include c' :
  shadowRelay = None → noType encAttrs →
  (∀ jid, jid ∈ devices → ownDevice jid = false → default EmptyJID (ids !! jid) = identity jid) →
  encryptAll ids bundles existing msg dsm encAttrs devices c = (Ok (ns, include), c') →
  ∃ fates : list fate, inTurn identity bundles existing msg dsm encAttrs devices c fates c' ∧
    fates.*1 = filter (λ j, ownDevice j = false) devices ∧
    ns = omap (nodeOf encAttrs) fates ∧ include = existsb isPreKeyFate fates && negb (hasMessengerConfig cfg).
Proof.
  intros Hr Ht. revert c ns include c'. induction devices as [|jid devices IH]; intros c ns include c' Hids; cbn [encryptAll].
  - intros Hret. injection Hret as <- <- <-. exists []. split; [constructor|done].
  - assert (∀ j, j ∈ devices → ownDevice j = false → default EmptyJID (ids !! j) = identity j) as Hids'
      by (intros j Hj; apply Hids; by right).
    rewrite filter_cons. destruct (ownDevice jid) eqn:Ho.
    { rewrite decide_False by done. intros Hrun. destruct (IH _ _ _ _ Hids' Hrun) as (fates & Hturn & Hrest).
      exists fates. split; [by apply turn_own|done]. }
    rewrite decide_True by done. rewrite Hids by (done || left).
    intros ([e|[n pre]] & c1 & Htry & Hrest)%cli_bind.
    + apply cli_bind in Hrest as (t & c2 & Htick & Hrest). destruct (contextEnded t) eqn:Hctx; [done|].
      destruct (IH _ _ _ _ Hids' Hrest) as (fates & Hturn & Hdev & -> & ->). exists ((jid, None) :: fates). cbn. rewrite Hdev.
      split_and!; [|done..]. eapply turn_failed; [done|by apply try_inl, wrap_Err in Htry|done..].
    + apply cli_bind in Hrest as ([ns0 inc0] & c2 & Hrest & Hret). injection Hret as <- <- <-.
      destruct (IH _ _ _ _ Hids' Hrest) as (fates & Hturn & Hdev & -> & ->).
      apply try_inr, wrap_Ok in Htry as (n0 & ct & pre0 & Hrun & Hcon & -> & He & ->); [|done..].
      exists ((jid, Some (ct, pre0)) :: fates). cbn. rewrite Hdev. split_and!; [by eapply turn_encrypted|done..|].
      change (isPreKeyFate (jid, Some (ct, pre0))) with (if pre0 then true else false). by destruct pre0, (hasMessengerConfig cfg), (existsb isPreKeyFate fates).
Qed.

(** Every device that is not the client's own gets the address of its session. *)
Lemma encryptionIdentities_Ok lidMappings devices ids c ids' c' :
  encryptionIdentities lidMappings devices ids c = (Ok ids', c') →
  (∀ j i, idOf ids !! j = Some i → i = identityOf lidMappings j) →
  (∀ j i, idOf ids' !! j = Some i → i = identityOf lidMappings j) ∧
  ∀ j, (j ∈ devices ∧ ownDevice j = false) ∨ is_Some (idOf ids !! j) → is_Some (idOf ids' !! j).
Proof.
  revert ids c. induction devices as [|jid devices IH]; intros ids c; cbn [encryptionIdentities].
  - intros Hret Hids. injection Hret as <- _. split; [done|]. intros j [[Hj%not_elem_of_nil _]|Hj]; done.
  - destruct (ownDevice jid) eqn:Ho.
    + intros Hrun Hids. destruct (IH _ _ Hrun Hids) as [Hall Hin]. split; [done|].
      intros j [[[->|Hj]%elem_of_cons Hown]|Hj]; [congruence|apply Hin; by left|apply Hin; by right].
    + intros (identity & c1 & Hid & Hrun)%cli_bind Hids.
      assert (identity = identityOf lidMappings jid) as ->.
      { unfold identityOf. case_decide; [|by injection Hid as <- _]. destruct (lidMappings jid) as [lid|]; [|by injection Hid as <- _].
        destruct (IsEmpty lid); [by injection Hid as <- _|]. apply cli_bind in Hid as (u & c2 & _ & Hid). by injection Hid as <- _. }
      destruct (IH _ _ Hrun) as [Hall Hin]; cbn [idOf] in *.
      { intros j i [[<- <-]|[_ Hj]]%lookup_insert_Some; [done|by apply Hids]. }
      split; [done|]. intros j [[[->|Hj]%elem_of_cons Hown]|Hj].
      * apply Hin. right. by rewrite lookup_insert_eq.
      * apply Hin. by left.
      * apply Hin. right. apply lookup_insert_is_Some. destruct (decide (jid = j)); [by left|by right].
Qed.

End theory.

(** ** A run

    Sessions count their messages. A bundle makes a session whose first messages are
    prekey messages. *)
#[local] Existing Instance toyCrypto.
#[local] Existing Instance toyNoise.
#[local] Existing Instance toyHKDF.
#[local] Existing Instance toyCodec.

#[local] Instance toySignal : SignalOps := {|
  preKeyMessage := list byte; signalMessage := list byte; senderKeyMessage := list byte; distributionMessage := list byte;
  NewPreKeySignalMessageFromBytes := Some; NewSignalMessageFromBytes := Some; NewSenderKeyMessageFromBytes := Some;
  NewSenderKeyDistributionMessageFromBytes := Some; SerializeDistribution := id;
  cipherDecryptMessage _ _ _ := throw OtherSignalError;
  cipherDecrypt _ _ _ := throw OtherSignalError;
  cipherEncrypt address plaintext := λ s,
    match LoadSession address s with
    | (Ok p, s1) =>
        let before := SessionCache.valueOf p s1 in
        match StoreSession address p (mkSessions (db s1) (<[p := before ++ [x00]]> (heap s1)) (cache s1)) with
        | (Ok _, s2) => (Ok (before ++ plaintext, bool_decide (head before = Some x50)), s2)
        | (_, s2) => (Err OtherSignalError, s2)
        end
    | (_, s1) => (Err OtherSignalError, s1)
    end;
  builderProcessBundle address bundle := λ s,
    let p := base.fresh (dom (heap s)) in
    match StoreSession address p (mkSessions (db s) (<[p := x50 :: bIdentityKey bundle]> (heap s)) (cache s)) with
    | (Ok _, s1) => (Ok tt, s1)
    | (_, s1) => (Err OtherSignalError, s1)
    end;
  groupDecrypt _ _ _ := throw OtherSignalError;
  groupEncrypt _ _ _ := throw OtherSignalError;
  groupCreate _ _ := throw OtherSignalError;
  groupProcess _ _ _ := throw OtherSignalError
|}.
#[local] Instance toyProto : ProtoCodec := {| Marshal _ := Some []; Unmarshal _ _ := None |}.

Definition me : JID := pnJID "9".
Definition friend : JID := pnJID "1".
Definition friendLID : JID := lidJID "11".
(** The server has a bundle for the second device only. *)
Definition toyAnswers (q : infoQuery) : outcome iqError node :=
  let key n := mkPreKey (mkKeyPair (replicate 32 n) []) 1 (Some (replicate 64 x03)) in
  Ok (mkNode "iq" [] (VNodes [mkNode "list" [] (VNodes
    [bundleNode [("jid", VJID (withDevice friendLID 2))] 7 (replicate 32 x04) None (key x02);
     bundleNode [("jid", VJID (withDevice friend 2))] 7 (replicate 32 x04) None (key x02)])])).

Definition outsideAnswering (answers : infoQuery → outcome iqError node) : Outside := {|
  cfg := mkConfig false false true false false false false false false false me (lidJID "99") 5 [] (mkPreKey (mkKeyPair [] []) 1 None);
  hasChatSettings := false; sendsReportingTokens := false; synchronousNames := true; account := Some [x01]; shadowRelay := None;
  clock n := Z.of_nat n; randomBytes _ n := replicate n x02; requestIDs _ _ := "id"; answerIQ _ := answers;
  written _ _ := true; waitFor _ _ := WaitCtxDone; reconnection _ := mkWorld false WaitCtxDone false false false WaitCtxDone;
  contextEnded _ := false; activeReceipts _ := false; handlers := []; GetMessageForRetry _ _ _ := None; PreRetryCallback := None;
  onSqlite := true; nativeBatches := true; lidChoices := toyEnv; newestToken := head; firstSender m := fst <$> head (map_to_list m);
  firstGroup m := fst <$> head (map_to_list m); firstDevices m := fst <$> head (map_to_list m);
  firstRecreated m := fst <$> head (map_to_list m); anyContact m := fst <$> head (map_to_list m); scanContacts := map_to_list;
  deduplicated _ _ := id; contactOrder := id; firstSecret := head; firstOutgoing := head; scanSessions := map_to_list; sortedFields := id;
  downloadHistory _ _ := None; zlibRead := Some; storesHistory := true; deletesHistoryMedia := true; recoverAppState _ _ _ := true
|}.
#[local] Instance toyOutside : Outside := outsideAnswering toyAnswers.

Definition toyCli : cli :=
  mkCli (mkClient (mkMemory ∅ 0 ∅ ∅ ∅)
      (mkDatabase (mkTables (mkSignal ∅ {["11_1:0" := [x01; x07]; "9:3" := [x01; x09]]} ∅) ∅ ∅) []) ∅ None
      (mkDatabase (mkSecrets ∅ ∅) []) (mkContactStore (mkDatabase (mkContactTables ∅ []) []) ∅) LidMapSpec.toyLidMap
      (mkDatabase ∅ []) emptyRecents 0 0 (mkCounter ∅ None) (mkCounter ∅ None) ∅ ∅ [])
    ∅ ∅ (mkTc (mkDatabase (mkTokenTables ∅ ∅ None) []) LidMapSpec.toyLidMap ∅ None None false) (mkDatabase ∅ [])
    (mkDeviceState (mkDeviceRow 0 "") None (mkDatabase (mkDeviceRow 0 "") [])) 0.
Definition toyDevices : list JID := [friend; withDevice friend 1; withDevice friend 2; me; withDevice me 3].
Definition toySend : outcome sendError (list node * bool) * cli :=
  encryptMessageForDevices toyDevices [x41] (Some [x42; x41]) [("mediatype", VString "image")] toyCli.

