(* ===== verification/SendFB.v ===== *)
(** Sending messages of version 3 (src/sendfb.go). *)
From Stdlib Require Import ZArith Lia.
From Stdlib Require Import Strings.Byte.
From stdpp Require Import prelude gmap strings list.
From S2P Require Import Prelude Strconv Jid Node Attrs Decoder Cbc LTHash Noise SignalStore SessionCache Requests PreKeyUpload MessageInfo Receipts EventBuffer Proto Client MessageType Events Armadillo Recents Devices Groups Cli Send.

#[local] Open Scope string_scope.

Section sendfb.
Context `{SignalOps} `{ProtoCodec} `{NoiseCrypto} `{HKDF} `{Outside} `{MapOrder}.
#[local] Existing Instances cliM_ret cliM_bind.

Abbreviation sendM := (cliM sendError).

Definition FutureProofBehavior_PLACEHOLDER : Z := 0.
Definition BackupDirective_UPSERT : Z := 1.

Definition v3Payload (messageApp : list byte) : proto :=
  PMsg [("ApplicationPayload", SubProtocol messageApp FBMessageApplicationVersion); ("FutureProof", PInt FutureProofBehavior_PLACEHOLDER)].
Definition v3SKDM (group : JID) (skdm : distributionMessage) : proto :=
  PMsg [("GroupID", PString (JIDString group)); ("AxolotlSenderKeyDistributionMessage", PBytes (SerializeDistribution skdm))].

(** The transport around a payload, with padding of its own. *)
Definition v3Transport (payload dsm skdm backup : option proto) : sendM (list byte) :=
  padding ← pad [];
  marshal (PMsg (optionalField "Payload" payload ++
    [("Protocol", PMsg [("Integral", PMsg (("Padding", PBytes padding) :: optionalField "DSM" dsm));
                        ("Ancillary", PMsg (optionalField "Skdm" skdm ++ optionalField "BackupDirective" backup))])])%list).

(** ** Encryption for devices *)

Definition encryptMessageForDeviceV3 (payload skdm dsm : option proto) (to : JID) (bundle : option Bundle) (extraAttrs : list (string * value)) :
    sendM node :=
  if bool_decide (is_Some shadowRelay) then throw ErrShadowV3Unsupported
  else
    let address := addressString to in
    _ ← (match bundle with
         | Some bundle => processBundle to bundle
         | None =>
             contains ← onBase (onSessionStore SessionsFailed (ContainsSession address));
             if (contains : bool) then mret tt else throw (ErrNoSession address)
         end);
    plaintext ← v3Transport payload dsm skdm None;
    '(ciphertext, isPreKey) ← onBase (onSessions EncryptFailed (cipherEncrypt address plaintext));
    mret (mkNode "enc" (copyAttrs extraAttrs [("v", VInt FBMessageVersion); ("type", VString (if (isPreKey : bool) then "pkmsg" else "msg"))])
            (VBytes ciphertext)).

Definition encryptMessageForDeviceAndWrapV3 (payload skdm dsm : option proto) (to : JID) (bundle : option Bundle) (encAttrs : list (string * value)) :
    sendM node :=
  n ← encryptMessageForDeviceV3 payload skdm dsm to bundle encAttrs;
  mret (mkNode "to" [("jid", VJID to)] (VNodes [n])).

Fixpoint encryptAllV3 (ownID : JID) (bundles : gmap JID (option Bundle)) (payload skdm dsm : option proto) (encAttrs : list (string * value))
    (devices : list JID) : sendM (list node) :=
  match devices with
  | [] => mret []
  | jid :: devices =>
      let rest := encryptAllV3 ownID bundles payload skdm dsm encAttrs devices in
      if decide (jid = ownID) then rest
      else
        r ← Client.try (encryptMessageForDeviceAndWrapV3 payload skdm (if decide (User jid = User ownID) then dsm else None) jid
                          (mjoin (bundles !! jid)) encAttrs);
        match r with
        | inl e => t ← tick; if contextEnded t then throw e else rest
        | inr n => ns ← rest; mret (n :: ns)
        end
  end.

Definition encryptMessageForDevicesV3 (allDevices : list JID) (ownID : JID) (payload skdm dsm : option proto) (encAttrs : list (string * value)) :
    sendM (list node) :=
  let devices := List.filter (λ j, negb (bool_decide (j = ownID))) allDevices in
  let wireOf : gmap string JID := foldl (λ m j, <[addressString j := j]> m) ∅ devices in
  inNewContext (
    existingSessions ← onBase (onSessionStore SessionsFailed (WithCachedSessions (addressString <$> devices)));
    bundles ← fetchBundles (omap (λ s : string * bool, if s.2 then None else Some (default EmptyJID (wireOf !! s.1))) (scanSessions existingSessions));
    participantNodes ← encryptAllV3 ownID bundles payload skdm dsm encAttrs allDevices;
    _ ← onBase (onSessionStore SessionsFailed (PutCachedSessions nativeBatches));
    mret participantNodes).

(** ** The node of a message *)

Definition v3Attrs (to : JID) (id : string) (msgAttrs : messageAttrs) : list (string * value) :=
  ([("id", VString id); ("type", VString (maType msgAttrs)); ("to", VJID to)]
    ++ (if decide (maEdit msgAttrs = "") then [] else [("edit", VString (maEdit msgAttrs))]))%list.
Definition v3EncAttrs (direct : bool) (msgAttrs : messageAttrs) : list (string * value) :=
  ((if direct && negb (bool_decide (maMediaType msgAttrs = "")) then [("mediatype", VString (maMediaType msgAttrs))] else [])
    ++ (if decide (maDecryptFail msgAttrs = "") then [] else [("decrypt-fail", VString (maDecryptFail msgAttrs))]))%list.
Definition v3Meta (msgAttrs : messageAttrs) : list node :=
  let attrs := ((if decide (maPollType msgAttrs = "") then [] else [("polltype", VString (maPollType msgAttrs))])
    ++ (if decide (maDecryptFail msgAttrs = "") then [] else [("decrypt-fail", VString (maDecryptFail msgAttrs))]))%list in
  match attrs with [] => [] | _ => [mkNode "meta" attrs VNil] end.

Definition franking (tag : list byte) : node := mkNode "franking" [] (VNodes [mkNode "franking_tag" [] (VBytes tag)]).

(** The request id is a random UUID. *)
Definition prepareMessageNodeV3 (to ownID : JID) (id : string) (payload skdm : option proto) (msgAttrs : messageAttrs) (frankingTag : list byte)
    (participants : list JID) : sendM (node * list JID) :=
  allDevices ← failing_with DevicesFailed (GetUserDevices participants);
  let dsm := PMsg [("DestinationJID", PString (JIDString to)); ("Phash", PString "")] in
  participantNodes ← encryptMessageForDevicesV3 allDevices ownID payload skdm (Some dsm) (v3EncAttrs (bool_decide (is_Some payload)) msgAttrs);
  traceRequestID ← random 16;
  mret (mkNode "message" (v3Attrs to id msgAttrs)
          (VNodes ([mkNode "participants" [] (VNodes participantNodes)] ++ v3Meta msgAttrs ++
             [franking frankingTag; mkNode "trace" [] (VNodes [mkNode "request_id" [] (VBytes traceRequestID)])])%list),
        allDevices).

(** ** To groups and users *)

Definition sendGroupV3 (to ownID : JID) (id : string) (messageApp : list byte) (msgAttrs : messageAttrs) (frankingTag : list byte) :
    sendM (string * node) :=
  if bool_decide (is_Some shadowRelay) then throw ErrShadowGroupUnsupported
  else
    groupMeta ← (if decide (Server to = GroupServer) then failing_with MembersFailed (getCachedGroupData to) else mret None);
    skdm ← onBase (onSessions SenderKeyFailed (groupCreate (JIDString to) (addressString ownID)));
    plaintext ← v3Transport (Some (v3Payload messageApp)) None None
      (Some (PMsg [("MessageID", PString id); ("ActionType", PInt BackupDirective_UPSERT)]));
    ciphertext ← onBase (onSessions EncryptFailed (groupEncrypt (JIDString to) (addressString ownID) plaintext));
    match groupMeta with
    | None => lift Panic
    | Some meta =>
        '(n, allDevices) ← prepareMessageNodeV3 to ownID id None (Some (v3SKDM to skdm)) msgAttrs frankingTag (Members meta);
        let phash := participantListHashV2 allDevices in
        let skMsg := mkNode "enc" ([("v", VString "3"); ("type", VString "skmsg")]
          ++ (if decide (maMediaType msgAttrs = "") then [] else [("mediatype", VString (maMediaType msgAttrs))]))%list (VBytes ciphertext) in
        data ← sendNodeAndGetData (append (mkNode (Tag n) (setAttr "phash" (VString phash) (Attrs n)) (Content n)) skMsg);
        mret (phash, data)
    end.

Definition sendDMV3 (to ownID : JID) (id : string) (messageApp : list byte) (msgAttrs : messageAttrs) (frankingTag : list byte) :
    sendM (string * node) :=
  '(n, allDevices) ← prepareMessageNodeV3 to ownID id (Some (v3Payload messageApp)) None msgAttrs frankingTag [to; ToNonAD ownID];
  data ← sendNodeAndGetData n;
  mret (participantListHashV2 allDevices, data).

(** The message inside of its application. *)
Definition subProtocolOf (message : fbMessage) : sendM proto :=
  let sub case b version := PMsg [("FutureProof", PInt FutureProofBehavior_PLACEHOLDER); (case, SubProtocol b version)] in
  match message with
  | ConsumerApplication m => b ← marshal m; mret (sub "ConsumerMessage" b FBConsumerMessageVersion)
  | ArmadilloMessage m => b ← marshal m; mret (sub "Armadillo" b FBArmadilloMessageVersion)
  | OtherApplication => throw UnsupportedMessage
  end.

(** The response comes with the server's error code, 0 for none. Go sets the franking key
    in the caller's [metadata]. *)
Definition SendFBMessage (to : JID) (message : fbMessage) (metadata : option proto) (req : SendRequestExtra) : sendM (SendResponse * Z) :=
  if bool_decide (is_Some shadowRelay) then throw ErrShadowV3Unsupported
  else
    subproto ← subProtocolOf message;
    frankingKey ← random 32;
    let metadata := setField "FrankingKey" (PBytes frankingKey) (setField "FrankingVersion" (PInt 0) (default (PMsg []) metadata)) in
    let messageAppProto := PMsg [("Payload", PMsg [("SubProtocol", subproto)]); ("Metadata", metadata)] in
    messageApp ← marshal messageAppProto;
    let frankingTag := hmacSha256 frankingKey messageApp in
    if (0 <? Device to)%Z && negb (Peer req) then throw ErrRecipientADJID
    else if IsEmpty ownID then throw SendNotLoggedIn
    else
      id ← (if decide (reqID req = "") then GenerateMessageID else mret (reqID req));
      t ← now;
      _ ← (if Peer req then mret tt
           else failing_with RecentFailed (onBase (addRecentMessage cfg (t / 1000000) to id None (Some messageAppProto))));
      let msgAttrs := getAttrsFromFBMessage message in
      '(phash, data) ←
        (if decide (Server to = GroupServer) then sendGroupV3 to ownID id messageApp msgAttrs frankingTag
         else if decide (Server to = DefaultUserServer ∨ Server to = MessengerServer) then
           if Peer req then throw PeerUnsupported else sendDMV3 to ownID id messageApp msgAttrs frankingTag
         else throw (ErrSendUnknownServer (Server to)));
      respNode ← awaitAnswer id;
      let '(serverID, timestamp, errorCode, expectedPHash) := answered respNode in
      let '(mismatch, resp) := setParticipantHashMismatch (mkResponse timestamp id serverID EmptyJID false to) phash expectedPHash in
      _ ← (if (mismatch : bool) then modify (λ c, set_cGroups (delete to (cGroups c)) c) else mret tt);
      mret (resp, errorCode).
End sendfb.
