(* ===== verification/Retry.v ===== *)
(** Retries (src/retry.go): receipts that ask for a message again, what is sent for one
    that is received, and requests to the phone. *)
From Stdlib Require Import ZArith Lia.
From Stdlib Require Import Strings.Byte.
From stdpp Require Import prelude gmap strings list.
From S2P Require Import Prelude Strconv Jid Node Attrs Decoder Cache Cbc LTHash Noise Sql SignalStore SessionCache LidMap Requests PreKeys PreKeyUpload MessageInfo Receipts EventBuffer Proto Client MessageType Events Armadillo Recents Devices Groups Cli Send SendFB.

#[local] Open Scope string_scope.

Inductive retryError :=
| RetryGroupInShadow | RetryV3InShadow | RetryMissing | RetryAttrs (es : list attrError) | RetryLookup (e : recentError) | MessageNotFound
| BadConsumerMessage (e : armadilloError) | RetryMessage (e : sendError) | BadRetryBundle (e : preKeyError) | RetryPreKeys (e : fetchError)
| NoRetryBundle | RetryNotSent.

(** [time.Time.Unix], that of the zero time included. *)
Definition Unix (t : goTime) : Z := match t with ZeroTime => -62135596800 | UnixSec s => s | UnixMs ms => ms / 1000 end.

Section retry.
Context `{SignalOps} `{ProtoCodec} `{NoiseCrypto} `{HKDF} `{CurveOps} `{Outside} `{MapOrder}.
#[local] Existing Instances cliM_ret cliM_bind.
(** [isCancelled]: whether an error is a cancelled context or a lost connection. *)
Context (isCancelled : retryError → bool).
Abbreviation retryM := (cliM retryError).

(** ** Requests to the phone *)

Definition immediateRequestMessageFromPhone {F} (info : Info) : cliM F unit :=
  attempt (SendPeerMessage (BuildUnavailableMessageRequest ownID ownLID (Chat (source info)) (Sender (source info)) (ID info))).

Definition requestsFromPhone : bool := AutomaticMessageRerequestFromPhone cfg && negb (hasMessengerConfig cfg).
Definition onPending {F A} (f : gmap string bool → A * gmap string bool) : cliM F A := λ c,
  let '(a, pending) := f (cPending (base c)) in (Ok a, set_base (set_cPending pending (base c)) c).

Definition cancelDelayedRequestFromPhone {F} (msgID : string) : cliM F unit :=
  if requestsFromPhone then onPending (λ pending, (tt, alter (λ _, true) msgID pending)) else mret tt.
Definition clearDelayedMessageRequests {F} : cliM F unit := onPending (λ pending, (tt, (λ _ : bool, true) <$> pending)).

(** A request that waits, in two steps: it starts unless one for the message waits
    already, and ends after the delay, or when it or the client is cancelled. *)
Definition startDelayedRequest {F} (info : Info) : cliM F bool :=
  if requestsFromPhone then
    onPending (λ pending, match pending !! ID info with Some _ => (false, pending) | None => (true, <[ID info := false]> pending) end)
  else mret false.
Definition endDelayedRequest {F} (clientCancelled : bool) (info : Info) : cliM F unit :=
  c ← get;
  _ ← (if clientCancelled || default false (cPending (base c) !! ID info) then mret tt else immediateRequestMessageFromPhone info);
  onPending (λ pending, (tt, delete (ID info) pending)).

(** ** Acknowledgements around a handler *)

(** Without synchronous acknowledgements a goroutine sends it. Otherwise it is deferred,
    and sent after a panic as well. *)
Definition maybeDeferredAck {F} (n : node) (handler : cliM F bool) : cliM F unit :=
  if SynchronousAck cfg then λ c,
    let ack (cancelled : bool) : cliM F unit := (t ← tick; if contextEnded t || cancelled then mret tt else sendLogged (ackNode n 0)) in
    match handler c with
    | (Ok cancelled, c') => ack cancelled c'
    | (Panic, c') => (_ ← ack false; lift Panic) c'
    | (Err e, c') => (_ ← ack false; throw e) c'
    | (OutOfFuel, c') => (OutOfFuel, c')
    end
  else _ ← start (AckTask n 0); _ ← handler; mret tt.

(** ** Asking for a message again *)

(** The count of the message in this hour. A message that is itself an answer to a retry
    continues its count. [None]: no room for another message. *)
Definition countRetryAt {F} (t : Z) (id : string) (retryCountInMsg : Z) : cliM F (option Z) := λ c,
  let st := messageRetries (base c) in
  let '((counts, resetAt), (n, accepted)) := incrementBoundedCounter (counts st) id maxMessageRetryEntries (resetAt st) t in
  let set counts := set_base (set_messageRetries (mkCounter counts resetAt) (base c)) c in
  if negb accepted then (Ok None, set counts)
  else if bool_decide (n = 1%Z) && (0 <? retryCountInMsg)%Z then (Ok (Some (retryCountInMsg + 1)%Z), set (<[id := retryCountInMsg + 1]> counts)%Z)
  else (Ok (Some n), set counts).
Definition countRetry {F} (id : string) (retryCountInMsg : Z) : cliM F (option Z) := t ← now; countRetryAt t id retryCountInMsg.

(** The count in the only ciphertext of a message. *)
Definition countIn (n : node) : Z :=
  match GetChildren n with
  | [child] => if decide (Tag child = "enc") then (OptionalInt "count" (AttrGetter_of child)).1 else 0%Z
  | _ => 0%Z
  end.

Definition retryReceipt (n : node) (info : Info) (id : string) (retryCount : Z) (keys : list node) : node :=
  let attrs := setAttr "type" (VString ReceiptTypeRetry) (buildBaseReceipt (ID info) n) in
  mkNode "receipt" (if decide (Type_ info = "peer_msg" ∧ IsFromMe (source info) = true) then setAttr "category" (VString "peer") attrs else attrs)
    (VNodes ([mkNode "retry" [("count", VInt retryCount); ("id", VString id); ("t", attr n "t"); ("v", VInt 1)] VNil;
              mkNode "registration" [] (VBytes (be_bytes 4 (RegistrationID cfg)))] ++ keys)%list).

(** A fresh prekey with the keys of the device; [None]: the account cannot be encoded. *)
Definition retryKeys {F} : cliM F (option (list node)) :=
  r ← random 32;
  key ← Client.try (onBase (onPreKeys id (GenOnePreKey r)));
  mret (match key, account with
        | inl _, _ => Some []
        | inr _, None => None
        | inr key, Some deviceIdentity =>
            Some [mkNode "keys" [] (VNodes [mkNode "type" [] (VBytes [DjbType]); mkNode "identity" [] (VBytes (IdentityPub cfg));
                    preKeyToNode key; preKeyToNode (cfgSignedPreKey cfg); mkNode "device-identity" [] (VBytes deviceIdentity)])]
        end).

Definition sendRetryReceipt {F} (n : node) (info : Info) (forceIncludeIdentity : bool) : cliM F unit :=
  let id := match lookupAttr "id" (Attrs n) with Some (VString id) => id | _ => "" end in
  count ← countRetry id (countIn n);
  match count with
  | None => mret tt
  | Some retryCount =>
      if (5 <=? retryCount)%Z then mret tt
      else
        _ ← (if decide (retryCount = 1%Z) then
               if SynchronousAck cfg then immediateRequestMessageFromPhone info else start (DelayedRequestTask info)
             else mret tt);
        keys ← (if (1 <? retryCount)%Z || forceIncludeIdentity then retryKeys else mret (Some []));
        match keys with
        | None => mret tt
        | Some keys => sendLogged (retryReceipt n info id retryCount keys)
        end
  end.

(** ** Answering a request *)

Definition recreateSessionTimeout : Z := hour.

Definition setHistory (h : gmap JID Z) (c : cli) : cli := set_base (set_sessionRecreateHistory h (base c)) c.
Definition shouldRecreateSession {F} (retryCount : Z) (jid : JID) : cliM F bool :=
  t ← now;
  _ ← modify (λ c, let h := sessionRecreateHistory (base c) in
                   if decide (maxSessionRecreateHistoryItems ≤ stdpp.base.size h)%nat then setHistory (pruneExpiredCache h (t - recreateSessionTimeout)) c else c);
  let recreate : cliM F bool :=
    (_ ← modify (λ c, setHistory (putBoundedCache firstRecreated (sessionRecreateHistory (base c)) jid t maxSessionRecreateHistoryItems) c); mret true) in
  contains ← Client.try (onBase (onSessionStore SessionsFailed (ContainsSession (addressString jid))));
  match contains with
  | inl _ => mret false
  | inr false => recreate
  | inr true =>
      if (retryCount <? 2)%Z then mret false
      else
        c ← get;
        match sessionRecreateHistory (base c) !! jid with
        | None => recreate
        | Some prevTime => if (prevTime + recreateSessionTimeout <? t)%Z then recreate else mret false
        end
  end.

Definition acceptIncomingRetryAt {F} (t : Z) (sender : JID) (messageID : string) : cliM F bool := λ c,
  let st := incomingRetries (base c) in
  let '((counts, resetAt), (n, accepted)) := incrementBoundedCounter (counts st) (sender, messageID) maxIncomingRetryEntries (resetAt st) t in
  (Ok (accepted && (n <? 10)%Z), set_base (set_incomingRetries (mkCounter counts resetAt) (base c)) c).

Definition acceptIncomingRetry {F} (sender : JID) (messageID : string) : cliM F bool := t ← now; acceptIncomingRetryAt t sender messageID.

(** The consumer message in an application, if that is what it holds. *)
Definition consumerMessage (application : proto) : retryM (option proto) :=
  match path ["Payload"; "SubProtocol"; "ConsumerMessage"] (Some application) with
  | Some sub => m ← lift (map_err BadConsumerMessage (UnmarshalSub "waConsumerApplication.ConsumerApplication" (Some sub) ConsumerApplicationVersion)); mret (Some m)
  | None => mret None
  end.

(** What goes along with the message: its group's sender key, or whom an own message was
    sent to. For a message of version 3 they are apart from it. *)
Definition retryExtras (receipt : Receipt) (wa : option proto) : retryM (option proto * (option proto * option proto)) :=
  let chat := Chat (rSource receipt) in
  if IsGroup (rSource receipt) then
    skdm ← Client.try (onBase (onSessions SenderKeyFailed (groupCreate (JIDString chat) (addressString ownLID))));
    mret (match skdm, wa with
          | inl _, _ => (wa, (None, None))
          | inr skdm, Some m => (Some (setField "SenderKeyDistributionMessage" (distribution chat skdm) m), (None, None))
          | inr skdm, None => (None, (Some (v3SKDM chat skdm), None))
          end)
  else if IsFromMe (rSource receipt) then
    mret (match wa with
          | Some m => (Some (PMsg [("DeviceSentMessage", PMsg [("DestinationJID", PString (JIDString chat)); ("Message", m)])]), (None, None))
          | None => (None, (None, Some (PMsg [("DestinationJID", PString (JIDString chat))])))
          end)
  else mret (wa, (None, None)).

(** The keys in the receipt, or those of the server for a session that is made anew. *)
Definition retryBundle (receipt : Receipt) (n : node) (retryCount : Z) : retryM (option Bundle) :=
  let sender := Sender (rSource receipt) in
  if (GetOptionalChildByTag n ["keys"]).2 then
    b ← lift (map_err BadRetryBundle (nodeToPreKeyBundle (Device sender) n)); mret (Some b)
  else
    recreate ← shouldRecreateSession retryCount sender;
    if negb recreate then mret None
    else
      t ← tick;
      keys ← lift (map_err RetryPreKeys (fetchPreKeys (answerIQ t) [sender]));
      match keys !! sender with
      | Some (inl b) => mret (Some b)
      | Some (inr e) => throw (BadRetryBundle e)
      | None => throw NoRetryBundle
      end.

Definition retryAttrs (receipt : Receipt) (n : node) (type messageID : string) (timestamp : goTime) : list (string * value) :=
  copyAttr n "edit" (copyAttr n "recipient" (copyAttr n "participant"
    ([("to", attr n "from"); ("type", VString type); ("id", VString messageID); ("t", VInt (Unix timestamp))]
      ++ (if IsGroup (rSource receipt) then [] else [("device_fanout", VBool false)]))%list)).
Definition withCount (retryCount : Z) (n : node) : node := mkNode (Tag n) (setAttr "count" (VInt retryCount) (Attrs n)) (Content n).

(** The identity a retry is encrypted for. *)
Definition retryIdentity (sender : JID) : retryM JID :=
  if decide (Server sender = DefaultUserServer) then
    lid ← Client.try (lidFor sender);
    match lid with
    | inr lid => if IsEmpty lid then mret sender else _ ← migrateSessionStore sender lid; mret lid
    | inl _ => mret sender
    end
  else mret sender.

Definition asSend {A} (m : cliM sendError A) : retryM A := failing_with RetryMessage m.

(** A retry of a message of version 2, and of version 3. *)
Definition retryV2 (receipt : Receipt) (n : node) (messageID : string) (timestamp : goTime) (retryCount : Z) (m : proto) : retryM node :=
  let sender := Sender (rSource receipt) in
  plaintext ← asSend (if decide (ToNonAD sender = MuseJID) then encryptWASAMessage MuseJID messageID m else marshal m);
  bundle ← retryBundle receipt n retryCount;
  mediaType ← asSend (never (getMediaTypeFromMessage m));
  type ← asSend (never (getTypeFromMessage m));
  identity ← retryIdentity sender;
  '(encrypted, includeDeviceIdentity) ← asSend (encryptMessageForDevice plaintext identity bundle
    (if decide (mediaType = "") then [] else [("mediatype", VString mediaType)]) ∅);
  content ← asSend (getMessageContent (withCount retryCount encrypted) m type includeDeviceIdentity noParams);
  mret (mkNode "message" (retryAttrs receipt n type messageID timestamp) (VNodes content)).
Definition retryV3 (receipt : Receipt) (n : node) (messageID : string) (timestamp : goTime) (retryCount : Z) (application : proto)
    (consumer skdm dsm : option proto) : retryM node :=
  plaintext ← asSend (marshal application);
  let frankingTag := hmacSha256 (asBytes (path ["Metadata"; "FrankingKey"] (Some application))) plaintext in
  bundle ← retryBundle receipt n retryCount;
  let msgAttrs := match consumer with Some m => getAttrsFromFBMessage (ConsumerApplication m) | None => mkMessageAttrs "text" "" "" "" "" end in
  encrypted ← asSend (encryptMessageForDeviceV3 (Some (v3Payload plaintext)) skdm dsm (Sender (rSource receipt)) bundle
    (if decide (maMediaType msgAttrs = "") then [] else [("mediatype", VString (maMediaType msgAttrs))]));
  mret (mkNode "message" (retryAttrs receipt n (maType msgAttrs) messageID timestamp)
          (VNodes [withCount retryCount encrypted; franking frankingTag])).

Definition handleRetryReceipt (receipt : Receipt) (n : node) : retryM unit :=
  if bool_decide (is_Some shadowRelay) && IsGroup (rSource receipt) then throw RetryGroupInShadow
  else
    let '(retryChild, ok) := GetOptionalChildByTag n ["retry"] in
    if negb ok then throw RetryMissing
    else
      let '((messageID, timestamp, retryCount), ag) :=
        (i ← attrString "id"; t ← attrUnixTime "t"; k ← attrInt "count"; mret (i, t, k) : attrM _) (AttrGetter_of retryChild) in
      if negb (OK ag) then throw (RetryAttrs (Errors ag))
      else
        found ← failing_with RetryLookup (onBase (getMessageForRetry cfg lidChoices firstOutgoing GetMessageForRetry receipt messageID));
        match found with
        | None => throw MessageNotFound
        | Some msg =>
            if bool_decide (is_Some shadowRelay) && bool_decide (is_Some (rmFB msg)) then throw RetryV3InShadow
            else
              consumer ← match rmFB msg with Some application => consumerMessage application | None => mret None end;
              accepted ← acceptIncomingRetry (Sender (rSource receipt)) messageID;
              if negb accepted then mret tt
              else
                '(wa, (skdm, dsm)) ← retryExtras receipt (rmWA msg);
                if match PreRetryCallback with Some f => negb (f receipt messageID retryCount wa) | None => false end then mret tt
                else
                  answer ← (match wa with
                            | Some m => retryV2 receipt n messageID timestamp retryCount m
                            | None => retryV3 receipt n messageID timestamp retryCount (default (PMsg []) (rmFB msg)) consumer skdm dsm
                            end);
                  sent ← trySend answer;
                  if (sent : bool) then mret tt else throw RetryNotSent
        end.

(** The semaphore that bounds how many of these run at once is left out. *)
Definition tryHandleRetryReceipt {F} (receipt : Receipt) (n : node) : cliM F unit :=
  recovering (maybeDeferredAck n (
    r ← Client.try (handleRetryReceipt receipt n);
    mret (match r with inl e => isCancelled e | inr _ => false end))) (mret tt).
End retry.
