(* ===== verification/History.v ===== *)
(** What comes in bulk from the phone (src/message.go and [ParseWebMessage] of
    src/client.go): history syncs, the migration to LIDs, stored messages. *)
From Stdlib Require Import ZArith Lia.
From Stdlib Require Import Strings.Byte.
From stdpp Require Import prelude gmap strings list.
From S2P Require Import Prelude Strconv Jid Node Attrs Cbc Sql SignalStore SessionCache LidMap LidMapSpec MessageInfo Receipts EventBuffer MsgSecret Contacts Proto Client MessageType Events TcToken Cli Users.

#[local] Open Scope string_scope.

Definition HistorySync_PUSH_NAME : Z := 4.

(** ** Messages of the web client *)

Inductive webMessageError := NoChat (e : jidError) | WebNotLoggedIn | NoSender (id : string) | BadSender (e : jidError).

(** The sender of a message in a chat. *)
Definition webSender (ownID ownLID chatJID : JID) (webMsg : proto) : outcome webMessageError JID :=
  let text ks := asString (path ks (Some webMsg)) in
  let parsed s := match ParseJID s with (j, None) => Ok j | (_, Some e) => Err (BadSender e) end in
  if asBool (path ["Key"; "FromMe"] (Some webMsg)) then
    if decide (text ["OriginalSelfAuthorUserJIDString"] ≠ "") then parsed (text ["OriginalSelfAuthorUserJIDString"])
    else
      let own := ToNonAD (if decide (Server chatJID = HiddenUserServer) then ownLID else ownID) in
      if IsEmpty own then Err WebNotLoggedIn else Ok own
  else if decide (Server chatJID = DefaultUserServer ∨ Server chatJID = HiddenUserServer ∨ Server chatJID = NewsletterServer) then Ok chatJID
  else if decide (text ["Participant"] ≠ "") then parsed (text ["Participant"])
  else if decide (text ["Key"; "Participant"] ≠ "") then parsed (text ["Key"; "Participant"])
  else Err (NoSender (text ["Key"; "ID"])).

Definition webMetaInfo (webMsg : proto) : MsgMetaInfo :=
  match path ["CommentMetadata"; "CommentParentKey"] (Some webMsg) with
  | Some pk => mkMetaInfo "" EmptyJID EmptyJID None (asString (field "ID" pk)) (ParseJID (asString (field "Participant" pk))).1
  | None => emptyMetaInfo
  end.

(** An edit is the message it makes, under the id of the message it edits. *)
Definition editedWeb (evt : MessageEvent) : MessageEvent :=
  let protocol ks := path ("ProtocolMessage" :: ks) (mMessage evt) in
  if decide (asInt (protocol ["Type"]) = ProtocolMessage_MESSAGE_EDIT) then
    let 'mkInfo src _ sid ty pn ts cat mc mt ed bot meta vn := mInfo evt in
    mkMessage (mkInfo src (asString (protocol ["Key"; "ID"])) sid ty pn ts cat mc mt ed bot meta vn) (protocol ["EditedMessage"])
      (DeviceSentMeta evt) (IsEphemeral evt) (IsViewOnce evt) (IsViewOnceV2 evt) (IsViewOnceV2Extension evt) (IsDocumentWithCaption evt)
      (IsLottieSticker evt) (IsBotInvoke evt) (IsEdit evt) (IsAssociatedChild evt) (SourceWebMsg evt) (UnavailableRequestID evt)
      (mRetryCount evt) (NewsletterMeta evt) (RawMessage evt) (IsNewsletterStatus evt)
  else evt.

Definition withRequestID (reqID : string) (evt : MessageEvent) : MessageEvent :=
  mkMessage (mInfo evt) (mMessage evt) (DeviceSentMeta evt) (IsEphemeral evt) (IsViewOnce evt) (IsViewOnceV2 evt)
    (IsViewOnceV2Extension evt) (IsDocumentWithCaption evt) (IsLottieSticker evt) (IsBotInvoke evt) (IsEdit evt) (IsAssociatedChild evt)
    (SourceWebMsg evt) reqID (mRetryCount evt) (NewsletterMeta evt) (RawMessage evt) (IsNewsletterStatus evt).

Definition ParseWebMessage (ownID ownLID chatJID : JID) (webMsg : proto) : outcome webMessageError MessageEvent :=
  let text ks := asString (path ks (Some webMsg)) in
  chatJID ← (if IsEmpty chatJID then match ParseJID (text ["Key"; "RemoteJID"]) with (j, None) => Ok j | (_, Some e) => Err (NoChat e) end
             else Ok chatJID);
  sender ← webSender ownID ownLID chatJID webMsg;
  let source := mkSource chatJID sender (asBool (path ["Key"; "FromMe"] (Some webMsg))) (bool_decide (Server chatJID = GroupServer)) ""
                  EmptyJID EmptyJID EmptyJID [] in
  let info : Info := mkInfo source (text ["Key"; "ID"]) 0 "" (text ["PushName"]) (UnixSec (i64 (asInt (path ["MessageTimestamp"] (Some webMsg)))))
                       "" false "" "" emptyBotInfo (webMetaInfo webMsg) None in
  let evt := mkMessage info None None false false false false false false false false false (Some webMsg) "" 0 None (field "Message" webMsg) false in
  Ok (editedWeb (UnwrapRaw evt)).

(** ** Contacts and mappings *)

Definition inlineContact (contact : proto) : option ContactEntry * option LIDMapping :=
  let text k := asString (field k contact) in
  let pn := (ParseJID (text "PnJID")).1 in
  let lid := (ParseJID (text "LidJID")).1 in
  let mapping := if decide (Server pn = DefaultUserServer ∧ Server lid = HiddenUserServer) then Some (mkMapping (ToNonAD lid) (ToNonAD pn)) else None in
  let jid := if decide (Server lid = HiddenUserServer) then ToNonAD lid else ToNonAD pn in
  (if decide (Server jid = HiddenUserServer ∨ Server jid = DefaultUserServer)
   then Some (mkEntry jid (text "FirstName") (text "FullName") (text "Username") true) else None, mapping).
Definition historicalInlineContactEntries (contacts : list proto) : list ContactEntry * list LIDMapping :=
  (omap fst (inlineContact <$> contacts), omap snd (inlineContact <$> contacts)).

Definition setServer (server : string) (j : JID) : JID := Build_JID (User j) (RawAgent j) (Device j) (Integrator j) server.
(** A mapping of the history: the numbers may have the older server. *)
Definition historicalMapping (mapping : proto) : option LIDMapping :=
  match ParseJID (asString (field "PnJID" mapping)), ParseJID (asString (field "LidJID" mapping)) with
  | (pn, None), (lid, None) => Some (mkMapping lid (if decide (Server pn = LegacyUserServer) then setServer DefaultUserServer pn else pn))
  | _, _ => None
  end.
(** A mapping of the migration: users by their numbers. *)
Definition migrationMapping (mapping : proto) : LIDMapping :=
  mkMapping (NewJID (FormatUint (asInt (field "AssignedLid" mapping))) HiddenUserServer)
            (NewJID (FormatUint (asInt (field "Pn" mapping))) DefaultUserServer).

Section history.
Context `{SignalOps} `{ProtoCodec} `{Crypto} `{Outside}.
#[local] Existing Instances cliM_ret cliM_bind.

Definition storeHistoricalInlineContacts {F} (contacts : list proto) : cliM F unit :=
  let '(entries, mappings) := historicalInlineContactEntries contacts in
  _ ← (match mappings with [] => mret tt | _ => attempt (storeMappings mappings) end);
  match entries with [] => mret tt | _ => attempt (onContacts id (PutAllContactNames onSqlite deduplicated entries)) end.

Definition storeHistoricalPNLIDMappings {F} (mappings : list proto) : cliM F unit :=
  attempt (storeMappings (omap historicalMapping mappings)).

(** ** What the device store keeps *)

Definition setMigrationTimestamp {F} (t : Z) : cliM F unit :=
  c ← get;
  if bool_decide (LIDMigrationTimestamp (inMemory (cDevice c)) = 0%Z) && (0 <? t)%Z then
    _ ← onDeviceState (modify (λ s, mkDeviceState (mkDeviceRow (i64 t) (CompanionMetaNonce (inMemory s))) (historySyncNonce s) (savedRow s)));
    attempt Save
  else mret tt.
Definition storeLIDSyncMessage {F} (msg : list byte) : cliM F unit :=
  match Unmarshal "waLidMigrationSyncPayload.LIDMigrationMappingSyncPayload" msg with
  | None => mret tt
  | Some decoded =>
      _ ← setMigrationTimestamp (asInt (field "ChatDbMigrationTimestamp" decoded));
      attempt (storeMappings (migrationMapping <$> asList (field "PnToLidMappings" decoded)))
  end.
Definition storeGlobalSettings {F} (settings : proto) : cliM F unit :=
  setMigrationTimestamp (asInt (field "ChatDbLidMigrationTimestamp" settings)).

Definition currentCompanionMetaNonce (s : deviceState) : string :=
  match historySyncNonce s with Some nonce => nonce | None => CompanionMetaNonce (inMemory s) end.
Definition updateCompanionMetaNonce {F} (nonce : string) : cliM F bool :=
  c ← get;
  if decide (nonce = "" ∨ nonce = currentCompanionMetaNonce (cDevice c)) then mret false
  else _ ← onDeviceState (modify (λ s, mkDeviceState (inMemory s) (Some nonce) (savedRow s))); mret true.
Definition persistCompanionMetaNonce {F} : cliM F unit :=
  c ← get;
  let nonce := currentCompanionMetaNonce (cDevice c) in
  if decide (nonce = "" ∨ nonce = CompanionMetaNonce (inMemory (cDevice c))) then mret tt
  else
    _ ← onDeviceState (modify (λ s, mkDeviceState (mkDeviceRow (LIDMigrationTimestamp (inMemory s)) nonce) (historySyncNonce s) (savedRow s)));
    attempt Save.

(** ** Secrets and tokens of old messages *)

(** Whose token the chat has, under the LID if it is known. *)
Definition tokenUser {F} (chatJID : JID) : cliM F JID :=
  if decide (Server chatJID = HiddenUserServer) then mret chatJID
  else if decide (Server chatJID = DefaultUserServer) then
    lid ← Client.try (lidFor chatJID);
    mret (match lid with inr lid => if IsEmpty lid then chatJID else lid | inl _ => chatJID end)
  else mret EmptyJID.
Definition chatToken (userJID : JID) (conv : proto) : option PrivacyToken :=
  match field "TcToken" conv with
  | Some (PBytes token) =>
      if IsEmpty userJID then None
      else Some (mkToken userJID token (i64 (asInt (field "TcTokenTimestamp" conv))) (Some (i64 (asInt (field "TcTokenSenderTimestamp" conv)))))
  | _ => None
  end.
Definition messageSecretOf (ownID chatJID : JID) (msg : proto) : option MessageSecretInsert :=
  let text ks := asString (path ("Message" :: ks) (Some msg)) in
  match path ["Message"; "MessageSecret"] (Some msg) with
  | Some (PBytes secret) =>
      let sender :=
        if asBool (path ["Message"; "Key"; "FromMe"] (Some msg)) then ownID
        else if decide (Server chatJID = DefaultUserServer ∨ Server chatJID = HiddenUserServer) then chatJID
        else if decide (text ["Key"; "Participant"] ≠ "") then (ParseJID (text ["Key"; "Participant"])).1
        else if decide (text ["Participant"] ≠ "") then (ParseJID (text ["Participant"])).1
        else EmptyJID in
      if IsEmpty sender || bool_decide (text ["Key"; "ID"] = "") then None
      else Some (mkSecretInsert chatJID sender (text ["Key"; "ID"]) secret)
  | _ => None
  end.
Fixpoint historicalSecrets {F} (ownID : JID) (conversations : list proto) : cliM F (list MessageSecretInsert * list PrivacyToken) :=
  match conversations with
  | [] => mret ([], [])
  | conv :: conversations =>
      let chatJID := (ParseJID (asString (field "ID" conv))).1 in
      if IsEmpty chatJID then historicalSecrets ownID conversations
      else
        userJID ← tokenUser chatJID;
        '(secrets, tokens) ← historicalSecrets ownID conversations;
        mret (omap (messageSecretOf ownID chatJID) (asList (field "Messages" conv)) ++ secrets, option_list (chatToken userJID conv) ++ tokens)%list
  end.
Definition storeHistoricalMessageSecrets {F} (conversations : list proto) : cliM F unit :=
  let ownID := ToNonAD ownID in
  if IsEmpty ownID then mret tt
  else
    '(secrets, privacyTokens) ← historicalSecrets ownID conversations;
    _ ← (match secrets with [] => mret tt | _ => attempt (onBase (onSecrets id (PutMessageSecrets onSqlite secrets))) end);
    match privacyTokens with [] => mret tt | _ => attempt (onTokens id (TcToken.onTokens (PutPrivacyTokens onSqlite privacyTokens))) end.

(** ** A history sync *)

Definition storeNCTSalt {F} (salt : list byte) : cliM F unit :=
  match salt with [] => mret tt | _ => attempt (onTokens id (TcToken.onTokens (PutNCTSalt salt))) end.

Definition whenSome {F} (l : list proto) (m : list proto → cliM F unit) : cliM F unit := match l with [] => mret tt | _ => m l end.
(** [doStorage] of [DownloadHistorySync]. *)
Definition storeHistory {F} (historySync : proto) (nonceChanged : bool) : cliM F unit :=
  let listOf k := asList (field k historySync) in
  _ ← (if nonceChanged then persistCompanionMetaNonce else mret tt);
  if negb storesHistory then mret tt
  else
    _ ← storeNCTSalt (asBytes (field "NctSalt" historySync));
    _ ← whenSome (listOf "PhoneNumberToLidMappings") storeHistoricalPNLIDMappings;
    _ ← whenSome (listOf "InlineContacts") storeHistoricalInlineContacts;
    _ ← (if decide (asInt (field "SyncType" historySync) = HistorySync_PUSH_NAME) then handleHistoricalPushNames (listOf "Pushnames")
         else whenSome (listOf "Conversations") storeHistoricalMessageSecrets);
    match field "GlobalSettings" historySync with Some settings => storeGlobalSettings settings | None => mret tt end.

Inductive historyError := HistoryDownloadFailed | NotCompressed | BadHistory.
Definition DownloadHistorySync (notif : proto) (synchronousStorage : bool) : cliM historyError proto :=
  t ← tick;
  data ← (match field "InitialHistBootstrapInlinePayload" notif with
          | Some payload => mret (asBytes (Some payload))
          | None => match downloadHistory t notif with Some data => mret data | None => throw HistoryDownloadFailed end
          end);
  match zlibRead data with
  | None => throw NotCompressed
  | Some rawData =>
      match Unmarshal "waHistorySync.HistorySync" rawData with
      | None => throw BadHistory
      | Some historySync =>
          nonceChanged ← (match field "CompanionMetaNonce" historySync with
                          | Some nonce => if storesHistory || deletesHistoryMedia then updateCompanionMetaNonce (asString (Some nonce)) else mret false
                          | None => mret false
                          end);
          _ ← (if negb storesHistory && negb nonceChanged then mret tt
               else if synchronousStorage then storeHistory historySync nonceChanged
               else start (StoreHistoryTask historySync nonceChanged));
          mret historySync
      end
  end.

(** A turn of [handleHistorySyncNotificationLoop]. The deletion of the media on the
    server that may follow only logs what it answers. *)
Definition handleHistorySync {F} (messageID : string) (notification : proto) : cliM F unit :=
  r ← Client.try (DownloadHistorySync notification false);
  match r with
  | inl _ => mret tt
  | inr blob => _ ← dispatch (HistorySyncReceived blob notification messageID); mret tt
  end.
End history.
