(* ===== verification/Message.v ===== *)
(** Incoming messages (src/message.go, [handleDecryptedArmadillo] of
    src/armadillomessage.go): decryption of every ciphertext of a message, the parts of it
    that are for the client itself, and how it is acknowledged. *)
From Stdlib Require Import ZArith Lia.
From Stdlib Require Import Strings.Byte.
From stdpp Require Import prelude gmap strings list.
From S2P Require Import Prelude Strconv Jid Node Attrs Decoder Cache Cbc LTHash Noise Sql SignalStore IdentityCache SessionCache LidMap LidMapSpec Requests PreKeys PreKeyUpload MessageInfo Receipts EventBuffer MsgSecret Contacts Proto Client MessageType Events Armadillo Recents Devices TcToken Groups Cli Users Send SendFB Retry History.

#[local] Open Scope string_scope.

Inductive messageFault :=
| ContentNotBytes | BadCiphertext | DecryptFault (e : decryptError) | BotFault (e : secretError) | NoSecret | BadBotMessage
| ShadowGroup | RelayDecryptFailed.

Definition ReceiptTypeHistorySync : string := "hist_sync".
Definition COMPANION_SYNCD_SNAPSHOT_FATAL_RECOVERY : Z := 8.

Section message.
Context `{SignalOps} `{ProtoCodec} `{NoiseCrypto} `{HKDF} `{CurveOps} `{Outside} `{MapOrder}.
#[local] Existing Instances cliM_ret cliM_bind.

Definition background {F} (task : event) (inline : cliM F unit) : cliM F unit := if SynchronousAck cfg then inline else start task.
Definition setSenderAlt (alt : JID) (info : Info) : Info :=
  let 'mkInfo (mkSource chat sender me grp mode _ ralt owner rs) id sid ty pn ts cat mc mt ed bot meta vn := info in
  mkInfo (mkSource chat sender me grp mode alt ralt owner rs) id sid ty pn ts cat mc mt ed bot meta vn.

(** ** Secrets and names *)

Definition storeMessageSecret {F} (info : Info) (msg : proto) : cliM F unit :=
  match asBytes (path ["MessageContextInfo"; "MessageSecret"] (Some msg)) with
  | [] => mret tt
  | msgSecret =>
      let dsm := default msg (path ["DeviceSentMessage"; "Message"] (Some msg)) in
      let targetChatJID := asString (path ["RootSecretDistributeMessage"; "ChatJID"] (Some dsm)) in
      let put chat := attempt (onBase (onSecrets id (PutMessageSecret onSqlite chat (Sender (source info)) (ID info) msgSecret))) in
      if negb (bool_decide (targetChatJID = "")) && IsFromMe (source info) then
        match ParseJID targetChatJID with (chat, None) => put chat | _ => mret tt end
      else put (Chat (source info))
  end.

Definition updateMessageContactNames {F} (info : Info) : cliM F unit :=
  let sender := Sender (source info) in
  let alt := SenderAlt (source info) in
  let verifiedName := match MessageInfo.VerifiedName info with Some v => asString (field "VerifiedName" (vnDetails v)) | None => "" end in
  _ ← (if decide (verifiedName = "") then mret tt
       else if synchronousNames then updateBusinessName sender alt (Some info) verifiedName
       else start (UpdateBusinessNameTask sender alt info verifiedName));
  if negb (bool_decide (PushName info = "")) && negb (bool_decide (PushName info = "-"))
     && (negb (hasMessengerConfig cfg) || negb (bool_decide (PushName info = "username"))) then
    if synchronousNames then updatePushName sender alt (Some info) (PushName info)
    else start (UpdatePushNameTask sender alt info (PushName info))
  else mret tt.

(** ** Messages of newsletters

    That the message is a status of a newsletter is a field of its information in the
    code, which only the event shows. *)

Definition plainEvent (info : Info) (newsletterStatus : bool) (n : node) (msg : proto) : MessageEvent :=
  let meta := match GetOptionalChildByTag n ["meta"] with
              | (meta, true) => Some ((attrUnixMilli "msg_edit_t" (AttrGetter_of meta)).1, (attrUnixTime "original_msg_t" (AttrGetter_of meta)).1)
              | _ => None
              end in
  UnwrapRaw (mkMessage info None None false false false false false false false false false None "" 0 meta (Some msg) newsletterStatus).
Definition handlePlaintextMessage {F} (info : Info) (newsletterStatus : bool) (n : node) : cliM F bool :=
  match GetOptionalChildByTag n ["plaintext"] with
  | (plaintext, true) =>
      match Content plaintext with
      | VBytes plaintextBody =>
          match Unmarshal "waE2E.Message" plaintextBody with
          | Some msg => _ ← storeMessageSecret info msg; dispatch (MessageReceived (plainEvent info newsletterStatus n msg))
          | None => mret false
          end
      | _ => mret false
      end
  | _ => mret false
  end.

(** ** Decryption

    What a transaction does not roll back: the memory of the store, and that a goroutine
    was started. *)
Abbreviation kept := (storeMemory * list (effect event))%type.
Definition inSignal {A} (m : signalM A) : stateM (kept * database signalTables) signalError A :=
  zoom (λ s, (s.1.1, s.2)) (λ r s, ((r.1, s.1.2), r.2)) id m.
Definition decryptingWith {A} (m : decryptM kept signalTables A) : cliM messageFault A :=
  onBase (zoom (λ c, ((cMemory c, cLog c), cTables c)) (λ s c, set_cMemory s.1.1 (set_cLog s.1.2 (set_cTables s.2 c))) DecryptFault m).

(** [clearUntrustedIdentity] at time [t]. *)
Definition clearIn (target : JID) (t : Z) : stateM (kept * database signalTables) signalError unit :=
  let address := addressString target in
  _ ← inSignal (onStore (DeleteIdentity maxIdentityCacheEntries address));
  _ ← inSignal (onStore (DeleteSession address));
  modify (λ s, ((s.1.1, s.1.2 ++ [Started (IdentityChange target t true)])%list, s.2)).

(** The closure that is run for a prekey message. *)
Definition decryptPreKey (stateless : bool) (from : JID) (t : Z) (m : preKeyMessage) : stateM (kept * database signalTables) signalError (list byte) :=
  let decrypt := inSignal (inDecryption (cipherDecryptMessage stateless (addressString from) m)) in
  r ← Client.try decrypt;
  match r with
  | inr pt => mret pt
  | inl UntrustedIdentity => if AutoTrustIdentity cfg then _ ← clearIn from t; decrypt else throw UntrustedIdentity
  | inl e => throw e
  end.

Definition throughBuffer (content : list byte) (timestamp : goTime) (decrypt : stateM (kept * database signalTables) signalError (list byte))
    (extra : list string) (child : node) : cliM messageFault (list byte * option (list byte)) :=
  t ← now;
  '(plaintext, hash) ← decryptingWith (bufferedDecrypt (EnableDecryptedEventBuffer cfg) content (Unix timestamp) (t / 1000000) decrypt extra);
  plaintext ← lift (map_err DecryptFault (unpadMessage plaintext (attrInt "v" (AttrGetter_of child)).1));
  mret (plaintext, Some hash).

Definition decryptDM (child : node) (from : JID) (isPreKey : bool) (serverTS : goTime) : cliM messageFault (list byte * option (list byte)) :=
  match relayDecrypt <$> shadowRelay with
  | Some relay => match relay child from isPreKey with Some r => mret r | None => throw RelayDecryptFailed end
  | None =>
      match Content child with
      | VBytes content =>
          if isPreKey then
            match NewPreKeySignalMessageFromBytes content with
            | Some m =>
                let stateless := bool_decide ((OptionalString "state" (AttrGetter_of child)).1 = "false") in
                t ← now;
                throughBuffer content serverTS (decryptPreKey stateless from t m) ["prekey"; JIDString from] child
            | None => throw BadCiphertext
            end
          else
            match NewSignalMessageFromBytes content with
            | Some m => throughBuffer content serverTS (inSignal (inDecryption (cipherDecrypt false (addressString from) m))) ["normal"; JIDString from] child
            | None => throw BadCiphertext
            end
      | _ => throw ContentNotBytes
      end
  end.

Definition decryptGroupMsg (child : node) (from chat : JID) (serverTS : goTime) : cliM messageFault (list byte * option (list byte)) :=
  if bool_decide (is_Some shadowRelay) then throw ShadowGroup
  else
    match Content child with
    | VBytes content =>
        match NewSenderKeyMessageFromBytes content with
        | Some m => throughBuffer content serverTS (inSignal (inDecryption (groupDecrypt (JIDString chat) (addressString from) m)))
                      ["senderkey"; JIDString chat; JIDString from] child
        | None => throw BadCiphertext
        end
    | _ => throw ContentNotBytes
    end.

(** A bot's answer, under the secret of the message it answers. *)
Definition botTarget (info : Info) : JID :=
  let target := TargetSender (metaInfo info) in
  if decide (User target ≠ "") then target else if decide (Server (Sender (source info)) = BotServer) then ownLID else ownID.
Definition botMessageID (info : Info) : string :=
  let bot := botInfo info in
  if bool_decide (EditType bot ∈ [EditTypeInner; EditTypeLast; EditTypeFull]) && negb (bool_decide (EditTargetID bot = ""))
  then EditTargetID bot else ID info.
Definition decryptBot (child : node) (info : Info) : cliM messageFault (list byte) :=
  let target := botTarget info in
  found ← onBase (onSecrets (BotFault ∘ SecretDB) (GetMessageSecret onSqlite firstSecret (Chat (source info)) target (TargetID (metaInfo info))));
  match found with
  | None => throw NoSecret
  | Some (secret, _) =>
      match Content child with
      | VBytes content =>
          match Unmarshal "waE2E.MessageSecretMessage" content with
          | None => throw BadBotMessage
          | Some msMsg =>
              let decrypt id := lift (map_err BotFault (decryptBotMessage secret (asBytes (field "EncIV" msMsg)) (asBytes (field "EncPayload" msMsg)) id target
                                                         (Sender (source info)))) in
              r ← Client.try (decrypt (botMessageID info));
              match r with
              | inr plaintext => mret plaintext
              | inl e => if decide (botMessageID info ≠ ID info) then decrypt (ID info) else throw e
              end
          end
      | _ => lift Panic
      end
  end.

(** ** Parts of a message for the client itself *)

Definition handleSenderKeyDistributionMessage {F} (chat from : JID) (axolotlSKDM : list byte) : cliM F unit :=
  if bool_decide (is_Some shadowRelay) then mret tt
  else match NewSenderKeyDistributionMessageFromBytes axolotlSKDM with
       | None => mret tt
       | Some skdm => attempt (onBase (onSessions id (groupProcess (JIDString chat) (addressString from) skdm)))
       end.

Fixpoint handlePlaceholderResends {F} (reqID : string) (parts : list proto) (ok : bool) : cliM F bool :=
  match parts with
  | [] => mret ok
  | part :: parts =>
      match field "PlaceholderMessageResendResponse" part ≫= λ resp, Unmarshal "waWeb.WebMessageInfo" (asBytes (field "WebMessageInfoBytes" resp)) with
      | None => handlePlaceholderResends reqID parts ok
      | Some webMsg =>
          match ParseWebMessage ownID ownLID EmptyJID webMsg with
          | Ok evt =>
              failed ← dispatch (MessageReceived (withRequestID reqID evt));
              handlePlaceholderResends reqID parts (negb failed && ok)
          | _ => handlePlaceholderResends reqID parts ok
          end
      end
  end.
Definition handlePlaceholderResendResponse {F} (msg : option proto) : cliM F bool :=
  handlePlaceholderResends (asString (path ["StanzaID"] msg)) (asList (path ["PeerDataOperationResult"] msg)) true.

Definition shouldSendHistorySyncReceipt : bool :=
  negb (DisableHistorySyncReceipt cfg) && negb (ManualHistorySyncDownload cfg && DisableManualHistorySyncReceipt cfg).

Definition handleProtocolMessage {F} (info : Info) (protoMsg : proto) : cliM F bool :=
  if negb (IsFromMe (source info)) then mret true
  else
    _ ← (match field "HistorySyncNotification" protoMsg with
         | Some notification =>
             _ ← (if ManualHistorySyncDownload cfg then mret tt else start (HistorySyncTask (ID info) notification));
             if shouldSendHistorySyncReceipt then start (ProtocolReceiptTask (ID info) ReceiptTypeHistorySync) else mret tt
         | None => mret tt
         end);
    _ ← (match field "LidMigrationMappingSyncMessage" protoMsg with
         | Some m => storeLIDSyncMessage (asBytes (field "EncodedMappingPayload" m))
         | None => mret tt
         end);
    ok ← (if decide (Device (Sender (source info)) = 0%Z) then
            let peerResp := field "PeerDataOperationRequestResponseMessage" protoMsg in
            let type := asInt (path ["PeerDataOperationRequestType"] peerResp) in
            if decide (type = PeerDataOperationRequestType_PLACEHOLDER_MESSAGE_RESEND) then handlePlaceholderResendResponse peerResp
            else if decide (type = COMPANION_SYNCD_SNAPSHOT_FATAL_RECOVERY) then
              t ← tick; mret (recoverAppState t (asString (path ["StanzaID"] peerResp)) (asList (path ["PeerDataOperationResult"] peerResp)))
            else mret true
          else mret true);
    _ ← (match field "AppStateSyncKeyShare" protoMsg with Some keys => start (KeyShareTask keys) | None => mret tt end);
    _ ← (if decide (Category info = "peer") then start (ProtocolReceiptTask (ID info) ReceiptTypePeerMsg) else mret tt);
    mret ok.

Definition processProtocolParts {F} (info : Info) (msg : proto) : cliM F bool :=
  _ ← storeMessageSecret info msg;
  let msg := default msg (path ["DeviceSentMessage"; "Message"] (Some msg)) in
  let src := source info in
  _ ← (match field "SenderKeyDistributionMessage" msg with
       | Some skdm =>
           if IsGroup src then
             let identity := if decide (Server (Sender src) = DefaultUserServer ∧ Server (SenderAlt src) = HiddenUserServer) then SenderAlt src else Sender src in
             handleSenderKeyDistributionMessage (Chat src) identity (asBytes (field "AxolotlSenderKeyDistributionMessage" skdm))
           else mret tt
       | None => mret tt
       end);
  match field "ProtocolMessage" msg with Some protoMsg => handleProtocolMessage info protoMsg | None => mret true end.

(** Whether a handler failed. *)
Definition handleDecryptedMessage {F} (info : Info) (msg : proto) (retryCount : Z) : cliM F bool :=
  ok ← processProtocolParts info msg;
  if negb ok then mret false else dispatch (MessageReceived (UnwrapRaw (newMessage info (Some msg) retryCount))).

(** Whether a handler failed, and whether the message could not be read. *)
Definition handleDecryptedArmadillo {F} (info : Info) (decrypted : list byte) (retryCount : Z) : cliM F (bool * bool) :=
  match decodeArmadillo decrypted with
  | Ok dec =>
      _ ← (match path ["Protocol"; "Ancillary"; "Skdm"] (fbTransport dec) with
           | Some skdm => if IsGroup (source info)
                          then handleSenderKeyDistributionMessage (Chat (source info)) (Sender (source info)) (asBytes (field "AxolotlSenderKeyDistributionMessage" skdm))
                          else mret tt
           | None => mret tt
           end);
      failed ← (if bool_decide (is_Some (fbMessageOf dec)) || bool_decide (is_Some (FBApplication dec))
                then dispatch (FBMessageReceived info dec retryCount) else mret false);
      mret (failed, false)
  | _ => mret (false, true)
  end.
End message.
