(* ===== verification/Receive.v ===== *)
(** The handlers of messages ([decryptMessages], [handleEncryptedMessage] and
    [handleUnencryptedMessage] of src/message.go), what the goroutines they start do, and
    that every message is answered. *)
From Stdlib Require Import ZArith Lia.
From Stdlib Require Import Strings.Byte.
From stdpp Require Import prelude gmap strings list.
From S2P Require Import Prelude Strconv Jid Node Attrs Decoder Cache Cbc LTHash Noise Sql SignalStore IdentityCache SessionCache SessionTheory LidMap LidMapSpec Requests PreKeys PreKeyUpload MessageInfo Receipts EventBuffer MsgSecret Proto Client MessageType Events Armadillo Recents TcToken Cli Users Send SendTheory SendFB Retry History Message.

#[local] Open Scope string_scope.

Section receive.
Context `{SignalOps} `{ProtoCodec} `{NoiseCrypto} `{HKDF} `{CurveOps} `{Outside} `{MapOrder}.
#[local] Existing Instances cliM_ret cliM_bind.

(** ** Decrypting a message *)

Definition sendMessageReceipt {F} (info : Info) (n : node) : cliM F unit :=
  t ← tick;
  sendLogged (messageReceipt (activeReceipts t) info n).

(** Under which address the sender has its session, with the information about the
    message that may learn it. [None]: the LID is not known, which is answered. *)
Definition senderIdentity {F} (info : Info) (n : node) : cliM F (option (Info * JID)) :=
  let sender := Sender (source info) in
  if bool_decide (Server sender = DefaultUserServer) && negb (IsBot sender) then
    if decide (Server (SenderAlt (source info)) = HiddenUserServer) then
      _ ← migrateSessionStore sender (SenderAlt (source info));
      mret (Some (info, SenderAlt (source info)))
    else
      r ← Client.try (ResolveLID sender);
      match r with
      | inr lid => _ ← migrateSessionStore sender lid; mret (Some (setSenderAlt lid info, lid))
      | inl _ =>
          _ ← background (RetryReceiptTask n info false) (sendRetryReceipt n info false);
          _ ← background (AckTask n 0) (sendLogged (ackNode n 0));
          _ ← dispatch (UndecryptableMessage info false "" "");
          mret None
      end
  else mret (Some (info, sender)).

(** The decryption of a ciphertext by its type, if the type is one for this message. *)
Definition decryptChild (info : Info) (identity : JID) (child : node) (encType : string) :
    option (cliM messageFault (list byte * option (list byte))) :=
  if decide (encType = "pkmsg" ∨ encType = "msg") then Some (decryptDM child identity (bool_decide (encType = "pkmsg")) (Timestamp info))
  else if IsGroup (source info) && bool_decide (encType = "skmsg") then Some (decryptGroupMsg child identity (Chat (source info)) (Timestamp info))
  else if bool_decide (encType = "msmsg") && IsBot (Sender (source info)) then Some (plaintext ← decryptBot child info; mret (plaintext, None))
  else None.

(** The events that a decrypted event buffer is done with. *)
Definition clearBuffered {F} (hash : option (list byte)) : cliM F unit :=
  match hash with
  | Some hash =>
      if EnableDecryptedEventBuffer cfg then
        _ ← attempt (onBase (onEvents id (ClearBufferedEventPlaintext hash)));
        t ← now; ended ← tick; c ← get;
        if (12 * hour <? t - lastDecryptedBufferClear (base c))%Z && negb (contextEnded ended) then
          _ ← modify (λ c, set_base (set_lastDecryptedBufferClear t (base c)) c);
          start DeleteOldHashesTask
        else mret tt
      else mret tt
  | None => mret tt
  end.

(** What is made of a plaintext: whether a handler failed, and whether the message could
    not be read. An unknown version leaves the latter as it was. *)
Definition handlePlaintext {F} (info : Info) (child : node) (decrypted : list byte) (protobufFailed : bool) : cliM F (bool * bool * bool) :=
  let retryCount := (OptionalInt "count" (AttrGetter_of child)).1 in
  let version := (attrInt "v" (AttrGetter_of child)).1 in
  if decide (version = 2%Z) then
    match Unmarshal "waE2E.Message" decrypted with
    | None => mret (false, true, true)
    | Some msg => failed ← handleDecryptedMessage info msg retryCount; mret (failed, false, false)
    end
  else if decide (version = 3%Z) then
    '(failed, unread) ← handleDecryptedArmadillo info decrypted retryCount;
    mret (failed, unread, false)
  else mret (false, protobufFailed, false).

(** An error ends the message, unless it is one that says that there is nothing to do. *)
Definition ignored (e : messageFault) : bool :=
  match e with DecryptFault (EventAlreadyProcessed _) | DecryptFault (SignalFailed OldCounter) => true | _ => false end.
Definition inShadow (e : messageFault) : bool := match e with ShadowGroup => true | _ => false end.
Definition answerFault {F} (info : Info) (n child : node) (encType : string) (containsDirectMsg : bool) (e : messageFault) : cliM F unit :=
  let isUnavailable := bool_decide (encType = "skmsg") && negb containsDirectMsg
                         && match e with DecryptFault (SignalFailed NoSenderKeyForUser) => true | _ => false end in
  _ ← (if decide (encType = "msmsg") then
         background (AckTask n NackMissingMessageSecret) (sendLogged (ackNode n NackMissingMessageSecret))
       else
         _ ← background (RetryReceiptTask n info isUnavailable) (sendRetryReceipt n info isUnavailable);
         background (AckTask n 0) (sendLogged (ackNode n 0)));
  _ ← dispatch (UndecryptableMessage info isUnavailable "" (OptionalString "decrypt-fail" (AttrGetter_of child)).1);
  mret tt.

(** The ciphertexts one after the other. [None]: one of them ended the message; otherwise
    whether there was one, and whether the last could not be read. The code goes on
    without an answer also when the error is [context.Canceled]; no call in a decryption
    has a context of its own that is cancelled, so this is the same test. *)
Fixpoint decryptChildren {F} (info : Info) (identity : JID) (n : node) (children : list node) (containsDirectMsg recognized protobufFailed : bool) :
    cliM F (option (bool * bool)) :=
  match children with
  | [] => mret (Some (recognized, protobufFailed))
  | child :: children =>
      if decide (Tag child ≠ "enc") then decryptChildren info identity n children containsDirectMsg recognized protobufFailed
      else
        match GetString "type" false (AttrGetter_of child) with
        | ((encType, true), _) =>
            match decryptChild info identity child encType with
            | None => decryptChildren info identity n children containsDirectMsg true protobufFailed
            | Some decryption =>
                let direct := containsDirectMsg || bool_decide (encType = "pkmsg" ∨ encType = "msg") in
                r ← Client.try decryption;
                match r with
                | inl e =>
                    if ignored e then decryptChildren info identity n children direct true protobufFailed
                    else if inShadow e then
                      _ ← background (AckTask n 0) (sendLogged (ackNode n 0));
                      _ ← dispatch (UndecryptableMessage info true "" (OptionalString "decrypt-fail" (AttrGetter_of child)).1);
                      decryptChildren info identity n children direct true protobufFailed
                    else
                      t ← tick;
                      if contextEnded t then mret None
                      else _ ← answerFault info n child encType direct e; mret None
                | inr (decrypted, hash) =>
                    _ ← cancelDelayedRequestFromPhone (ID info);
                    '(handlerFailed, unread, skipped) ← handlePlaintext info child decrypted protobufFailed;
                    if (handlerFailed : bool) then mret None
                    else
                      _ ← (if (skipped : bool) then mret tt else clearBuffered hash);
                      decryptChildren info identity n children direct true unread
                end
            end
        | _ => decryptChildren info identity n children containsDirectMsg true protobufFailed
        end
  end.

Definition acknowledge {F} (info : Info) (n : node) (recognized protobufFailed : bool) : cliM F unit :=
  let nack error := background (AckTask n error) (sendLogged (ackNode n error)) in
  if negb recognized then nack NackUnrecognizedStanza
  else if protobufFailed then nack NackInvalidProtobuf
  else background (MessageReceiptTask info n) (sendMessageReceipt info n).

Definition decryptMessages {F} (info : Info) (n : node) : cliM F unit :=
  recovering
    (match GetOptionalChildByTag n ["unavailable"], GetChildrenByTag n "enc" with
     | (unavailableNode, true), [] =>
         _ ← background (RequestFromPhoneTask info n) (_ ← immediateRequestMessageFromPhone info; sendLogged (ackNode n 0));
         _ ← dispatch (UndecryptableMessage info true (attrOf "type" unavailableNode) "");
         mret tt
     | _, _ =>
         found ← senderIdentity info n;
         match found with
         | None => mret tt
         | Some (info, identity) =>
             r ← decryptChildren info identity n (GetChildren n) false false false;
             match r with
             | None => mret tt
             | Some (recognized, protobufFailed) => acknowledge info n recognized protobufFailed
             end
         end
     end)
    (sendLogged (ackNode n 0)).

(** ** The handlers of the two kinds of nodes *)

Definition handleEncryptedMessage {F} (n : node) : cliM F unit :=
  match parseMessageInfo parseVerifiedNameContent ownID ownLID n with
  | Ok info =>
      let src := source info in
      _ ← (if negb (IsEmpty (SenderAlt src)) then StoreLIDPNMapping (SenderAlt src) (Sender src)
           else if negb (IsEmpty (RecipientAlt src)) then StoreLIDPNMapping (RecipientAlt src) (Chat src)
           else mret tt);
      _ ← updateMessageContactNames info;
      if decide (Server (Sender src) = NewsletterServer) then maybeDeferredAck n (handlePlaintextMessage info false n)
      else if DisabledSignal cfg then _ ← dispatch (UndecryptedMessage info n); mret tt
      else decryptMessages info n
  | Err _ => sendLogged (ackNode n NackParsingError)
  | Panic => lift Panic
  | OutOfFuel => lift OutOfFuel
  end.

Definition handleUnencryptedMessage {F} (n : node) : cliM F unit :=
  match parseMessageInfo parseVerifiedNameContent ownID ownLID n with
  | Ok info =>
      if decide (Server (Sender (source info)) ≠ NewsletterServer) then sendLogged (ackNode n 0)
      else maybeDeferredAck n (handlePlaintextMessage info true n)
  | Err _ => sendLogged (ackNode n NackParsingError)
  | Panic => lift Panic
  | OutOfFuel => lift OutOfFuel
  end.

(** ** What goroutines do *)

Definition SendProtocolMessageReceipt {F} (id receiptType : string) : cliM F unit :=
  if decide (id = "") then mret tt
  else sendLogged (mkNode "receipt" [("id", VString id); ("type", VString receiptType); ("to", VJID (ToNonAD ownID))] VNil).

(** A goroutine run at once and without a delay; the key share is in AppStateKeys.v. *)
Definition runTask {F} (e : event) : cliM F unit :=
  match e with
  | AckTask n error => sendLogged (ackNode n error)
  | MessageReceiptTask info n => sendMessageReceipt info n
  | RequestFromPhoneTask info n => _ ← immediateRequestMessageFromPhone info; sendLogged (ackNode n 0)
  | RetryReceiptTask n info force => sendRetryReceipt n info force
  | DelayedRequestTask info => started ← startDelayedRequest info; if (started : bool) then endDelayedRequest false info else mret tt
  | HistorySyncTask id notification => handleHistorySync id notification
  | StoreHistoryTask blob nonceChanged => storeHistory blob nonceChanged
  | ProtocolReceiptTask id receiptType => SendProtocolMessageReceipt id receiptType
  | UpdateBusinessNameTask user alt info name => updateBusinessName user alt (Some info) name
  | UpdatePushNameTask user alt info name => updatePushName user alt (Some info) name
  | DeleteOldHashesTask => t ← now; attempt (onBase (onEvents id (DeleteOldBufferedHashes (t / 1000000))))
  | _ => _ ← dispatch e; mret tt
  end.
End receive.

(** * Properties *)

#[local] Open Scope list_scope.

Section answers.
Context `{SignalOps} `{ProtoCodec} `{NoiseCrypto} `{HKDF} `{CurveOps} `{Outside} `{MapOrder}.
#[local] Existing Instances cliM_ret cliM_bind.
Abbreviation handler := (cliM Empty_set).

Definition logOf (c : cli) : list (effect event) := cLog (base c).
(** What is known of the message; on the way its sender's LID may be learned. *)
Definition learns (info info' : Info) : Prop := info' = info ∨ ∃ lid, info' = setSenderAlt lid info.
Context (known : Info → Prop).

(** What the server takes for an answer to a message: an acknowledgement of its node, or
    a receipt of it that is made from what is known of this message. *)
Definition answerNode (n m : node) : Prop :=
  (∃ error, m = ackNode n error) ∨ ∃ active (info : Info), known info ∧ m = messageReceipt active info n.
Definition answered (n : node) (log : list (effect event)) : Prop := ∃ m, Sent m ∈ log ∧ answerNode n m.
(** A goroutine that answers whenever it is scheduled. Only one that asks the phone for
    the message first may be ended by a panic of that. *)
Definition willAnswer (n : node) (task : event) : Prop :=
  ∀ c, match runTask (F := Empty_set) task c with
       | (Ok _, c') => answered n (logOf c')
       | _ => ∃ info, task = RequestFromPhoneTask info n
       end.
(** A message is taken care of when it is answered, or a goroutine was started that
    answers it. *)
Definition handled (n : node) (log : list (effect event)) : Prop :=
  answered n log ∨ ∃ task, Started task ∈ log ∧ willAnswer n task.

Lemma answered_app n l l' : answered n l → answered n (l ++ l').
Proof. intros (m & Hm & Ha). exists m. split; [|done]. apply elem_of_app. by left. Qed.
Lemma handled_app n l l' : handled n l → handled n (l ++ l').
Proof.
  intros [Ha|(task & Ht & Hrun)]; [left; by apply answered_app|right]. exists task. split; [|done]. apply elem_of_app. by left.
Qed.
Lemma answered_ack n error l : answered n (l ++ [Sent (ackNode n error)]).
Proof. exists (ackNode n error). split; [apply elem_of_app; right; by apply list_elem_of_singleton|]. left. by exists error. Qed.
Lemma answered_receipt n active (info : Info) l : known info → answered n (l ++ [Sent (messageReceipt active info n)]).
Proof.
  intros Hi. exists (messageReceipt active info n). split; [apply elem_of_app; right; by apply list_elem_of_singleton|].
  right. by exists active, info.
Qed.

Lemma dispatch_log {F} e c : ∃ failed, dispatch (F := F) e c = (Ok failed, set_base (set_cLog (logOf c ++ [Dispatched e failed]) (base c)) c)
  ∧ failed = runHandlers ((λ h, h (logOf c)) <$> handlers) e.
Proof. by eexists. Qed.
Lemma start_log {F} e c : start (F := F) e c = (Ok tt, set_base (set_cLog (logOf c ++ [Started e]) (base c)) c).
Proof. done. Qed.

Hypothesis written_ok : ∀ t n, written t n = true.
Hypothesis never_ended : ∀ t, contextEnded t = false.
Hypothesis handlers_ok : Forall (λ h, ∀ log e, h log e ≠ HandlerFailed) handlers.

Lemma handlers_succeed log e : runHandlers ((λ h, h log) <$> handlers) e = false.
Proof.
  generalize handlers, handlers_ok. induction 1 as [|h l Hh _ IH]; [done|]. cbn. specialize (Hh log e). by destruct (h log e).
Qed.
Lemma dispatch_ok {F} e c b c' : dispatch (F := F) e c = (Ok b, c') → b = false ∧ logOf c' = logOf c ++ [Dispatched e false].
Proof.
  destruct (dispatch_log (F := F) e c) as (failed & -> & Hf). rewrite handlers_succeed in Hf. intros [= <- <-]. by subst failed.
Qed.
Lemma sendLogged_ok {F} m c : ∃ c', sendLogged (F := F) m c = (Ok tt, c') ∧ logOf c' = logOf c ++ [Sent m].
Proof.
  unfold sendLogged, trySend, tick, mbind, cliM_bind, stateM_bind, cliM_ret. cbn. rewrite written_ok. by eexists.
Qed.

(** Calls whose last effect is an answer. *)
Definition answering {F} (n : node) (m : cliM F unit) : Prop := ∀ c c', m c = (Ok tt, c') → handled n (logOf c').
Lemma answering_ack {F} n error : answering (F := F) n (sendLogged (ackNode n error)).
Proof. intros c c' Hrun. destruct (sendLogged_ok (F := F) (ackNode n error) c) as (c1 & Hs & Hl). rewrite Hs in Hrun. injection Hrun as <-. left. rewrite Hl. apply answered_ack. Qed.
Lemma sendMessageReceipt_answers {F} info n c c' :
  known info → sendMessageReceipt (F := F) info n c = (Ok tt, c') → answered n (logOf c').
Proof.
  intros Hi (t & c1 & _ & Hrun)%cli_bind. destruct (sendLogged_ok (F := F) (messageReceipt (activeReceipts t) info n) c1) as (c2 & Hs & Hl).
  rewrite Hs in Hrun. injection Hrun as <-. rewrite Hl. by apply answered_receipt.
Qed.
Lemma answering_bind {F A} n (m : cliM F A) (k : A → cliM F unit) : (∀ a, answering n (k a)) → answering n (m ≫= k).
Proof. intros Hk c c' (a & c1 & _ & Hrun)%cli_bind. exact (Hk _ _ _ Hrun). Qed.
Lemma answering_then {F} n (m k : cliM F unit) :
  answering n m → (∀ c c', k c = (Ok tt, c') → ∃ l, logOf c' = logOf c ++ l) → answering n (_ ← m; k).
Proof.
  intros Hm Hk c c' ([] & c1 & Hfirst & Hrest)%cli_bind. apply Hk in Hrest as [l ->]. apply handled_app. exact (Hm _ _ Hfirst).
Qed.
Lemma dispatch_grows {F} e c c' : (_ ← dispatch (F := F) e; mret tt) c = (Ok tt, c') → ∃ l, logOf c' = logOf c ++ l.
Proof. intros (b & c1 & Hd & Hret)%cli_bind. injection Hret as <-. apply dispatch_ok in Hd as [_ Hl]. by eexists. Qed.

Lemma handled_task n task l : willAnswer n task → handled n (l ++ [Started task]).
Proof. intros Ht. right. exists task. split; [apply elem_of_app; right; by apply list_elem_of_singleton|done]. Qed.
Lemma answering_background n task (inline : handler unit) :
  willAnswer n task → answering n inline → answering n (background task inline).
Proof.
  intros Ht Hi. unfold background. destruct (SynchronousAck cfg); [done|]. intros c c'. rewrite start_log. intros [= <-].
  by apply handled_task.
Qed.
Lemma ack_task n error : willAnswer n (AckTask n error).
Proof.
  intros c. destruct (sendLogged_ok (F := Empty_set) (ackNode n error) c) as (c1 & Hs & Hl). cbn [runTask]. rewrite Hs, Hl. apply answered_ack.
Qed.
Lemma receipt_task n (info : Info) : known info → willAnswer n (MessageReceiptTask info n).
Proof.
  intros Hi c. cbn [runTask]. unfold sendMessageReceipt, tick, mbind, cliM_bind, stateM_bind.
  destruct (sendLogged_ok (F := Empty_set) (messageReceipt (activeReceipts (moment c)) info n) (set_moment (S (moment c)) c)) as (c1 & Hs & Hl).
  rewrite Hs, Hl. by apply answered_receipt.
Qed.
Lemma ack_answers {F} n error c c' : sendLogged (F := F) (ackNode n error) c = (Ok tt, c') → answered n (logOf c').
Proof.
  intros Hrun. destruct (sendLogged_ok (F := F) (ackNode n error) c) as (c1 & Hs & Hl). rewrite Hs in Hrun. injection Hrun as <-. rewrite Hl. apply answered_ack.
Qed.
Lemma answering_nack n error : answering (F := Empty_set) n (background (AckTask n error) (sendLogged (ackNode n error))).
Proof. apply answering_background; [apply ack_task|apply answering_ack]. Qed.

Lemma acknowledge_answers info n recognized failed :
  known info → answering (F := Empty_set) n (acknowledge info n recognized failed).
Proof.
  intros Hi. unfold acknowledge. destruct recognized; cbn [negb]; [|apply answering_nack]. destruct failed; [apply answering_nack|].
  apply answering_background; [by apply receipt_task|left; by eapply sendMessageReceipt_answers].
Qed.

Lemma answerFault_answers info n child encType direct e : answering (F := Empty_set) n (answerFault info n child encType direct e).
Proof.
  unfold answerFault. apply answering_then; [|intros c c'; apply dispatch_grows]. case_decide; [apply answering_nack|].
  apply answering_bind. intros _. apply answering_nack.
Qed.

Lemma handlePlaintext_ok {F} info child decrypted failed c b unread skipped c' :
  handlePlaintext (F := F) info child decrypted failed c = (Ok (b, unread, skipped), c') → b = false.
Proof.
  unfold handlePlaintext. case_decide; [|case_decide].
  - destruct (Unmarshal _ decrypted) as [msg|]; [|by intros [= <- _ _ _]].
    intros (f & c1 & Hh & Hret)%cli_bind. injection Hret as <- _ _ _. unfold handleDecryptedMessage in Hh.
    apply cli_bind in Hh as (ok & c2 & _ & Hh). destruct ok; [|by injection Hh as <- _]. by apply dispatch_ok in Hh as [-> _].
  - intros ([f u] & c1 & Hh & Hret)%cli_bind. injection Hret as <- _ _ _. unfold handleDecryptedArmadillo in Hh.
    destruct (decodeArmadillo decrypted) as [dec| | |]; [|by injection Hh as <- _ _..].
    apply cli_bind in Hh as (u1 & c2 & _ & Hh). apply cli_bind in Hh as (f1 & c3 & Hd & Hh). injection Hh as <- _ _.
    destruct (_ || _); [by apply dispatch_ok in Hd as [-> _]|by injection Hd as <- _].
  - by intros [= <- _ _ _].
Qed.

(** When a ciphertext ends the message, the message was answered. *)
Lemma decryptChildren_answers info identity n children direct recognized failed c c' :
  decryptChildren (F := Empty_set) info identity n children direct recognized failed c = (Ok None, c') → handled n (logOf c').
Proof.
  revert direct recognized failed c. induction children as [|child children IH]; intros direct recognized failed c; cbn [decryptChildren]; [done|].
  case_decide; [apply IH|]. destruct (GetString "type" false _) as [[encType [|]] ag]; [|apply IH].
  destruct (decryptChild info identity child encType) as [decryption|]; [|apply IH].
  intros ([e|[decrypted hash]] & c1 & _ & Hrun)%cli_bind.
  - destruct (ignored e); [exact (IH _ _ _ _ Hrun)|]. destruct (inShadow e); apply cli_bind in Hrun as (t & c2 & _ & Hrun).
    + apply cli_bind in Hrun as (b & c3 & _ & Hrun). exact (IH _ _ _ _ Hrun).
    + rewrite never_ended in Hrun. apply cli_bind in Hrun as ([] & c3 & Ha & Hret). injection Hret as <-. exact (answerFault_answers _ _ _ _ _ _ _ _ Ha).
  - apply cli_bind in Hrun as (u & c2 & _ & Hrun). apply cli_bind in Hrun as ([[b unread] skipped] & c3 & Hp & Hrun).
    apply handlePlaintext_ok in Hp as ->. apply cli_bind in Hrun as (u1 & c4 & _ & Hrun). exact (IH _ _ _ _ Hrun).
Qed.

Lemma senderIdentity_answers info n c c' : senderIdentity (F := Empty_set) info n c = (Ok None, c') → handled n (logOf c').
Proof.
  unfold senderIdentity. destruct (_ && _); [|done]. case_decide.
  - intros (u & c1 & _ & Hret)%cli_bind. done.
  - intros ([e|lid] & c1 & _ & Hrun)%cli_bind; [|apply cli_bind in Hrun as (u & c2 & _ & Hret); done].
    apply cli_bind in Hrun as (u & c2 & _ & Hrun). apply cli_bind in Hrun as ([] & c3 & Ha & Hrun).
    apply cli_bind in Hrun as (b & c4 & Hd & Hret). injection Hret as <-. apply dispatch_ok in Hd as [_ ->].
    apply handled_app. exact (answering_nack _ _ _ _ Ha).
Qed.

Lemma senderIdentity_learns info n c info' identity c' :
  senderIdentity (F := Empty_set) info n c = (Ok (Some (info', identity)), c') → learns info info'.
Proof.
  unfold senderIdentity. destruct (_ && _); [|intros [= <- _ _]; by left]. case_decide.
  - intros (u & c1 & _ & Hret)%cli_bind. injection Hret as <- _ _. by left.
  - intros ([e|lid] & c1 & _ & Hrun)%cli_bind.
    + apply cli_bind in Hrun as (u & c2 & _ & Hrun). apply cli_bind in Hrun as (u1 & c3 & _ & Hrun).
      by apply cli_bind in Hrun as (b & c4 & _ & Hret).
    + apply cli_bind in Hrun as (u & c2 & _ & Hret). injection Hret as <- _ _. right. by exists lid.
Qed.

(** The body of [decryptMessages], before a panic is recovered. *)
Lemma body_answers info n c c' :
  (∀ info', learns info info' → known info') →
  (found ← senderIdentity (F := Empty_set) info n;
   match found with
   | None => mret tt
   | Some (info, identity) =>
       r ← decryptChildren info identity n (GetChildren n) false false false;
       match r with None => mret tt | Some (recognized, protobufFailed) => acknowledge info n recognized protobufFailed end
   end) c = (Ok tt, c') → handled n (logOf c').
Proof.
  intros Hknown ([[info' identity]|] & c1 & Hs & Hrun)%cli_bind.
  - apply senderIdentity_learns, Hknown in Hs. apply cli_bind in Hrun as ([[recognized failed]|] & c2 & Hc & Hrun).
    + exact (acknowledge_answers _ _ _ _ Hs _ _ Hrun).
    + injection Hrun as <-. exact (decryptChildren_answers _ _ _ _ _ _ _ _ _ Hc).
  - injection Hrun as <-. exact (senderIdentity_answers _ _ _ _ Hs).
Qed.

Lemma request_answers {F} info n c c' :
  (_ ← immediateRequestMessageFromPhone (F := F) info; sendLogged (ackNode n 0)) c = (Ok tt, c') → answered n (logOf c').
Proof. intros (u & c1 & _ & Hrun)%cli_bind. exact (ack_answers _ _ _ _ Hrun). Qed.
Lemma unavailable_answers info n e (inline : handler unit) :
  (∀ c c', inline c = (Ok tt, c') → answered n (logOf c')) →
  answering n (_ ← background (RequestFromPhoneTask info n) inline; _ ← dispatch e; mret tt).
Proof.
  intros Hi. apply answering_then; [|intros c c'; apply dispatch_grows].
  apply answering_background; [|intros c c' Hrun; left; by eapply Hi].
  intros c. cbn [runTask].
  lazymatch goal with |- match ?run with _ => _ end => destruct run as [[[]|[]| |] c1] eqn:Hrun end; [by apply request_answers in Hrun|by exists info..].
Qed.

Lemma recovering_answers n (body : handler unit) r c c' :
  answering n body → recovering body (sendLogged (ackNode n 0)) c = (r, c') → r ≠ OutOfFuel → r = Ok tt ∧ handled n (logOf c').
Proof.
  intros Hb. unfold recovering. destruct (body c) as [[[]|[]| |] c1] eqn:Hrun; intros Hr Hfuel.
  - injection Hr as <- <-. split; [done|]. exact (Hb _ _ Hrun).
  - destruct (sendLogged_ok (F := Empty_set) (ackNode n 0) c1) as (c2 & Hs & Hl). rewrite Hs in Hr. injection Hr as <- <-. split; [done|].
    left. rewrite Hl. apply answered_ack.
  - by injection Hr as <- <-.
Qed.

Lemma decryptMessages_answers info n r c c' :
  (∀ info', learns info info' → known info') →
  decryptMessages (F := Empty_set) info n c = (r, c') → r ≠ OutOfFuel → r = Ok tt ∧ handled n (logOf c').
Proof.
  intros Hknown. unfold decryptMessages. apply recovering_answers.
  destruct (GetOptionalChildByTag n ["unavailable"]) as [unavailableNode [|]]; [|intros c0 c1; by apply body_answers].
  destruct (GetChildrenByTag n "enc"); [|intros c0 c1; by apply body_answers].
  apply unavailable_answers. intros c0 c1. apply request_answers.
Qed.

Lemma maybeDeferredAck_answers n (body : handler bool) :
  (∀ c b c', body c = (Ok b, c') → b = false ∧ ∃ l, logOf c' = logOf c ++ l) → answering n (maybeDeferredAck n body).
Proof.
  intros Hb. unfold maybeDeferredAck. destruct (SynchronousAck cfg).
  - intros c c'. destruct (body c) as [[b|[]| |] c1] eqn:Hrun; [| |done].
    + apply Hb in Hrun as [-> _]. intros (t & c2 & _ & Hack)%cli_bind. rewrite never_ended in Hack. exact (answering_ack _ _ _ _ Hack).
    + intros (u & c2 & _ & Hp)%cli_bind. done.
  - intros c c' (u & c1 & Hstart & Hrun)%cli_bind. apply cli_bind in Hrun as (b & c2 & Hbody & Hret). injection Hret as <-.
    destruct (Hb _ _ _ Hbody) as [_ [l ->]]. apply handled_app. rewrite start_log in Hstart. injection Hstart as _ <-.
    apply handled_task, ack_task.
Qed.

(** Messages of newsletters are not encrypted. *)
Lemma secrets_log {F} (m : secretM unit) c u c' :
  attempt (F := F) (onBase (onSecrets id m)) c = (Ok u, c') → logOf c' = logOf c.
Proof.
  unfold attempt, onBase, onSecrets, Client.try, zoom, mbind, cliM_bind, stateM_bind. destruct (m _) as [[a|e| |] s]; by intros [= _ <-].
Qed.
Lemma storeMessageSecret_log {F} info msg c u c' : storeMessageSecret (F := F) info msg c = (Ok u, c') → logOf c' = logOf c.
Proof.
  unfold storeMessageSecret. destruct (asBytes _); [by intros [= _ <-]|]. destruct (_ && _); [|apply secrets_log].
  destruct (ParseJID _) as [chat [|]]; [by intros [= _ <-]|apply secrets_log].
Qed.
Lemma handlePlaintextMessage_grows {F} info status n c b c' :
  handlePlaintextMessage (F := F) info status n c = (Ok b, c') → b = false ∧ ∃ l, logOf c' = logOf c ++ l.
Proof.
  unfold handlePlaintextMessage. assert (∀ c', (Ok (E := F) false, c) = (Ok b, c') → b = false ∧ ∃ l, logOf c' = logOf c ++ l) as Hnone
    by (intros c0 [= <- <-]; split; [done|]; exists []; by rewrite app_nil_r).
  destruct (GetOptionalChildByTag n ["plaintext"]) as [plaintext [|]]; [|apply Hnone].
  destruct (Content plaintext); try apply Hnone. destruct (Unmarshal _ _) as [msg|]; [|apply Hnone].
  intros (u & c1 & Hsecret & Hd)%cli_bind. apply storeMessageSecret_log in Hsecret. apply dispatch_ok in Hd as [-> Hd].
  split; [done|]. rewrite Hd, Hsecret. by eexists.
Qed.

(** The handler of message nodes, whatever the answer of the parser is. *)
Lemma handleEncryptedMessage_answers n c c' :
  (∀ info info', parseMessageInfo parseVerifiedNameContent ownID ownLID n = Ok info → learns info info' → known info') →
  DisabledSignal cfg = false → handleEncryptedMessage (F := Empty_set) n c = (Ok tt, c') → handled n (logOf c').
Proof.
  unfold handleEncryptedMessage. intros Hknown Hsignal. destruct (parseMessageInfo _ _ _ n) as [info|e| |]; [|apply answering_ack|done..].
  intros (u & c1 & _ & Hrun)%cli_bind. apply cli_bind in Hrun as (u1 & c2 & _ & Hrun). case_decide.
  - revert Hrun. apply maybeDeferredAck_answers. intros c3 b c4. apply handlePlaintextMessage_grows.
  - rewrite Hsignal in Hrun. by apply decryptMessages_answers in Hrun as [_ Hrun]; [|intros info' Hl; by eapply Hknown|].
Qed.
Lemma handleUnencryptedMessage_answers n c c' : handleUnencryptedMessage (F := Empty_set) n c = (Ok tt, c') → handled n (logOf c').
Proof.
  unfold handleUnencryptedMessage. destruct (parseMessageInfo _ _ _ n) as [info|e| |]; [|apply answering_ack|done..].
  case_decide; [apply answering_ack|]. apply maybeDeferredAck_answers. intros c3 b c4. apply handlePlaintextMessage_grows.
Qed.
End answers.

(** What a node says of its message, and what may be learned of it. *)
Definition knownOf `{ProtoCodec} `{Outside} (n : node) (info : Info) : Prop :=
  ∃ info0, parseMessageInfo parseVerifiedNameContent ownID ownLID n = Ok info0 ∧ learns info0 info.

(** C30: every message is answered. As long as the Signal layer is not left to the
    program around the client ([DisabledSignal]; it has to acknowledge then), the socket
    takes what is written, the contexts have not ended and no event handler fails: if the
    decryption of a message node ends, it ends without a panic or an error, and then an
    acknowledgement of the node was written, or a receipt of it made from what is known
    of this message, or a goroutine was started that writes one when it runs: whatever
    the ciphertexts hold, the Signal library says, the database does or the handlers ask
    for. That it ends depends on the libraries and on the bounds that the model puts on
    the nesting of messages. Both handlers of message nodes, when they return, have
    answered too, for a node that cannot be parsed as well as for one of a newsletter. *)
Theorem messages_handled `{SignalOps} `{ProtoCodec} `{NoiseCrypto} `{HKDF} `{CurveOps} `{Outside} `{MapOrder} info n c
    (Hlog : logOf c = [])
    (Hwritten : ∀ t n, written t n = true) (Hended : ∀ t, contextEnded t = false)
    (Hhandlers : Forall (λ h, ∀ log e, h log e ≠ HandlerFailed) handlers) (Hsignal : DisabledSignal cfg = false) :
  (∀ r c', decryptMessages (F := Empty_set) info n c = (r, c') → r ≠ OutOfFuel → r = Ok tt ∧ handled (learns info) n (logOf c'))
  ∧ (∀ c', handleEncryptedMessage (F := Empty_set) n c = (Ok tt, c') → handled (knownOf n) n (logOf c'))
  ∧ (∀ c', handleUnencryptedMessage (F := Empty_set) n c = (Ok tt, c') → handled (λ _, False) n (logOf c')).
Proof.
  split; [|split].
  - intros r c'. by apply decryptMessages_answers.
  - intros c'. apply handleEncryptedMessage_answers; [done..| |done]. intros i i' Hi Hl. by exists i.
  - intros c'. by apply handleUnencryptedMessage_answers.
Qed.

(** *** A message that cannot be decrypted, of a sender whose LID is known *)
#[local] Existing Instance toyCrypto.
#[local] Existing Instance toyNoise.
#[local] Existing Instance toyHKDF.
#[local] Existing Instance toyCodec.
#[local] Existing Instance toyCurve.
#[local] Existing Instance toySignal.
#[local] Existing Instance toyProto.
#[local] Existing Instance toyOutside.

Definition toyMessage : node :=
  mkNode "message" [("id", VString "M1"); ("from", VJID friend); ("t", VString "1700000000"); ("type", VString "text"); ("notify", VString "F")]
    (VNodes [mkNode "enc" [("type", VString "pkmsg"); ("v", VString "2")] (VBytes [x01; x02])]).
Definition toyReceived : outcome Empty_set unit * cli := handleEncryptedMessage toyMessage toyCli.

Definition toyMessageInfo : Info :=
  mkInfo (mkSource friend friend false false "" EmptyJID EmptyJID EmptyJID []) "M1" 0 "text" "F" (UnixSec 1700000000) "" false "" ""
    (mkBotInfo "" "" ZeroTime "") (mkMetaInfo "" EmptyJID EmptyJID None "" EmptyJID) None.
Definition toyDecrypted : outcome Empty_set unit * cli := decryptMessages toyMessageInfo toyMessage toyCli.

Lemma messages_handled_witness :
  parseMessageInfo parseVerifiedNameContent ownID ownLID toyMessage = Ok toyMessageInfo
  ∧ (toyReceived.1 = Ok tt ∧ handled (knownOf toyMessage) toyMessage (logOf toyReceived.2))
  ∧ (toyDecrypted.1 = Ok tt ∧ handled (learns toyMessageInfo) toyMessage (logOf toyDecrypted.2)).
Proof.
  pose proof (messages_handled toyMessageInfo toyMessage toyCli) as Hth.
  destruct (Hth eq_refl ltac:(done) ltac:(done) ltac:(by constructor) eq_refl) as (Hdec & Henc & _). clear Hth.
  split; [vm_compute; reflexivity|]. split.
  - assert (toyReceived.1 = Ok tt) as Hok by (vm_compute; reflexivity). split; [exact Hok|]. apply Henc.
    change (handleEncryptedMessage toyMessage toyCli) with toyReceived. rewrite <- Hok. apply surjective_pairing.
  - apply (Hdec toyDecrypted.1 toyDecrypted.2); [apply surjective_pairing|].
    assert (toyDecrypted.1 = Ok tt) as -> by (vm_compute; reflexivity). discriminate.
Defined.
