(* ===== verification/SecurityCode.v ===== *)
(** Identity verification codes (src/security_code.go): the number and the QR codes with
    which two users check that they know each other's identity keys. *)
From Stdlib Require Import ZArith Lia.
From Stdlib Require Import Strings.Byte.
From stdpp Require Import prelude gmap strings list sorting.
From S2P Require Import Prelude Strconv Jid Node Cbc LTHash Noise Sql SignalStore IdentityCache SessionCache SessionTheory LidMap LidMapSpec Requests PreKeys PreKeyUpload Contacts Proto Client Events Devices Cli Send SendTheory.

#[local] Open Scope string_scope.

(** SHA-512, of the Go library: sixty-four bytes. *)
Class WideHash := sha512 : list byte → list byte.

Definition securityCodeIterations : nat := Z.to_nat 5200.

Record identityVerificationFingerprint := mkFingerprint {
  fpLID : JID; fpPhone : JID; fpUsername : string; fpKeys : list (list byte); fpHosted : bool
}.
Record IdentityVerificationCodes := mkCodes {
  UserID : JID; PhoneNumber : JID; codeUsername : string; NumericCode : string;
  DisplayQRCode : list byte; VerificationQRCode : list byte
}.

Inductive securityError :=
| VerificationRequiresLID | LocalLIDUnavailable | VerificationOfSelf | CodeDevices (e : deviceError) | NoRemoteDevices
| ReadIdentities (e : dbError) | CodePreKeys (e : fetchError) | NoIdentityResponse (j : JID) | BadIdentityResponse (j : JID) (e : preKeyError)
| EnsureFailed (j : JID) (e : dbError) | NotTrusted (j : JID) | IdentityUnavailable
| CodeContext | FingerprintLID | FingerprintPhone | FingerprintKeys | FingerprintMarshal.

(** [bytes.Compare], and the order of strings. *)
Fixpoint compareBytes (a b : list byte) : comparison :=
  match a, b with
  | [], [] => Eq
  | [], _ => Lt
  | _, [] => Gt
  | x :: a, y :: b => match (b2z x ?= b2z y)%Z with Eq => compareBytes a b | c => c end
  end.
Definition bytesLe (a b : list byte) : Prop := compareBytes a b ≠ Gt.
#[local] Instance bytesLe_dec a b : Decision (bytesLe a b).
Proof. unfold bytesLe. apply _. Defined.

Definition serializeIdentityKeys (keys : list (list byte)) : list byte :=
  List.concat ((λ key, x05 :: key) <$> merge_sort bytesLe keys).

Section codes.
Context `{WideHash}.

(** ["%05d"]. *)
Definition fiveDigits (n : Z) : list byte := replicate (5 - length (digits n)) x30 ++ digits n.

Definition hashRound (keys digest : list byte) : list byte := sha512 (digest ++ keys).
Definition digestOf (identifier keys : list byte) : list byte :=
  Nat.iter securityCodeIterations (hashRound keys) (sha512 ([x00; x00] ++ keys ++ identifier)).
Definition codeOf (digest : list byte) : list byte :=
  List.concat ((λ i : nat, fiveDigits (be_value (take 5 (drop (5 * i) digest)) mod 100000)) <$> seq 0 6).

(** What both parties order their halves by. *)
Definition combineCodes (localCode remoteCode : list byte) : list byte :=
  match compareBytes localCode remoteCode with Lt => localCode ++ remoteCode | _ => remoteCode ++ localCode end.

Definition validateIdentityVerificationFingerprint (f : identityVerificationFingerprint) : outcome securityError unit :=
  if decide (Server (fpLID f) ≠ HiddenUserServer ∨ User (fpLID f) = "") then Err FingerprintLID
  else if negb (IsEmpty (fpPhone f)) && negb (bool_decide (Server (fpPhone f) = DefaultUserServer)) then Err FingerprintPhone
  else if decide (fpKeys f = []) then Err FingerprintKeys
  else Ok tt.

Definition HostedState_E2EE : Z := 0.
Definition HostedState_HOSTED : Z := 1.

Definition buildFingerprintData (f : identityVerificationFingerprint) (includeUnhashed : bool) : proto :=
  let serialized := serializeIdentityKeys (fpKeys f) in
  PMsg ([("LidIdentifier", PBytes (s2b (JIDString (fpLID f)))); ("UsernameIdentifier", PBytes (s2b (fpUsername f)));
         ("HostedState", PInt (if fpHosted f then HostedState_HOSTED else HostedState_E2EE)); ("HashedPublicKey", PBytes (sha512 serialized))]
        ++ (if IsEmpty (fpPhone f) then [] else [("PnIdentifier", PBytes (s2b (User (fpPhone f))))])
        ++ (if includeUnhashed then [("PublicKey", PBytes serialized)] else [])).

Definition combinedFingerprint (local remote : identityVerificationFingerprint) (includeUnhashed : bool) : proto :=
  PMsg [("Version", PInt 1); ("LocalFingerprint", buildFingerprintData local includeUnhashed);
        ("RemoteFingerprint", buildFingerprintData remote includeUnhashed)].
Definition marshalCombinedFingerprint `{ProtoCodec} (local remote : identityVerificationFingerprint) (includeUnhashed : bool) : outcome securityError (list byte) :=
  match Marshal (combinedFingerprint local remote includeUnhashed) with Some b => Ok b | None => Err FingerprintMarshal end.

Definition buildIdentityVerificationQRCodes `{ProtoCodec} (local remote : identityVerificationFingerprint) : outcome securityError (list byte * list byte) :=
  _ ← validateIdentityVerificationFingerprint local;
  _ ← validateIdentityVerificationFingerprint remote;
  display ← marshalCombinedFingerprint local remote false;
  verify ← marshalCombinedFingerprint local remote true;
  mret (display, verify).

(** [jid.Device] is compared only for the own devices. [currentDevice]: [None] when the
    client is not logged in. *)
Definition ofUser (user : JID) (device : JID) : bool :=
  bool_decide (User device = User user) && bool_decide (Server device = HiddenUserServer ∨ Server device = HostedLIDServer).
Definition splitIdentityVerificationDevices (devices : list JID) (localLID remoteLID : JID) (currentDevice : option Z) : list JID * list JID :=
  (List.filter (λ d, ofUser localLID d && negb (bool_decide (currentDevice = Some (Device d)))) devices,
   List.filter (λ d, negb (ofUser localLID d) && ofUser remoteLID d) devices).
Definition hasHostedIdentityDevice (devices : list JID) : bool :=
  existsb (λ d, bool_decide (Server d = HostedLIDServer ∨ Server d = HostedServer)) devices.
End codes.

(** ** The client *)

Section client.
Context `{WideHash} `{SignalOps} `{ProtoCodec} `{Crypto} {outside : Outside} `{MapOrder}.
#[local] Existing Instances cliM_ret cliM_bind.
Abbreviation codeM := (cliM securityError).

(** [ctx.Err]. *)
Definition checkContext : codeM unit := t ← tick; if contextEnded t then throw CodeContext else mret tt.

(** [rounds] of them from [index]. *)
Fixpoint hashRounds (rounds : nat) (index : Z) (keys digest : list byte) : codeM (list byte) :=
  match rounds with
  | O => mret digest
  | S rounds =>
      _ ← (if decide (index mod 64 = 0)%Z then checkContext else mret tt);
      hashRounds rounds (index + 1) keys (hashRound keys digest)
  end.

Definition generateSecurityCodeFingerprint (identifier keys : list byte) : codeM (list byte) :=
  _ ← checkContext;
  digest ← hashRounds securityCodeIterations 0 keys (sha512 ([x00; x00] ++ keys ++ identifier));
  mret (codeOf digest).

Definition generateNumericSecurityCode (localIdentifier : list byte) (localKeys : list (list byte)) (remoteIdentifier : list byte) (remoteKeys : list (list byte)) :
    codeM string :=
  localCode ← generateSecurityCodeFingerprint localIdentifier (serializeIdentityKeys localKeys);
  remoteCode ← generateSecurityCodeFingerprint remoteIdentifier (serializeIdentityKeys remoteKeys);
  mret (b2s (combineCodes localCode remoteCode)).

Definition newIdentityVerificationCodes (local remote : identityVerificationFingerprint) : codeM IdentityVerificationCodes :=
  numericCode ← generateNumericSecurityCode (s2b (User (fpLID local))) (fpKeys local) (s2b (User (fpLID remote))) (fpKeys remote);
  '(displayQR, verificationQR) ← lift (buildIdentityVerificationQRCodes local remote);
  mret (mkCodes (fpLID remote) (fpPhone remote) (fpUsername remote) numericCode displayQR verificationQR).

(** *** Keys of devices *)

(** The devices with their addresses, the first for every address. *)
Fixpoint deviceByAddress (devices : list JID) (seen : list string) : list (string * JID) :=
  match devices with
  | [] => []
  | d :: devices =>
      let address := addressString d in
      if decide (address ∈ seen) then deviceByAddress devices seen else (address, d) :: deviceByAddress devices (address :: seen)
  end.

Fixpoint ensureKeys (missing : list (string * JID)) (responses : gmap JID preKeyResp) (deleteGeneration : Z) (stored : gmap string (list byte)) :
    codeM (gmap string (list byte)) :=
  match missing with
  | [] => mret stored
  | (address, device) :: missing =>
      match responses !! device with
      | None => throw (NoIdentityResponse device)
      | Some (inr e) => throw (BadIdentityResponse device e)
      | Some (inl bundle) =>
          trusted ← onBase (onDevice (EnsureFailed device) (EnsureIdentity maxIdentityCacheEntries address (bIdentityKey bundle) deleteGeneration));
          if negb trusted then throw (NotTrusted device)
          else ensureKeys missing responses deleteGeneration (<[address := bIdentityKey bundle]> stored)
      end
  end.

Definition readIdentityKeys (devices : list JID) : codeM (list (list byte)) :=
  let byAddress := deviceByAddress devices [] in
  '(stored, deleteGeneration) ← onBase (onDevice ReadIdentities (GetManyIdentities maxIdentityCacheEntries byAddress.*1));
  let missing := List.filter (λ d, bool_decide (stored !! d.1 = None)) byAddress in
  stored ← (match missing with
            | [] => mret stored
            | _ => t ← tick; responses ← lift (map_err CodePreKeys (fetchPreKeys (answerIQ t) missing.*2)); ensureKeys missing responses deleteGeneration stored
            end);
  lift (match mapM (λ a, stored !! a) byAddress.*1 with Some keys => Ok keys | None => Err IdentityUnavailable end).

(** The username known for a user; a failure of the store is not told. *)
Definition usernameOf (user : JID) : codeM string :=
  contact ← Client.try (onContacts id (GetContact anyContact user));
  mret (match contact with inr c => Username c | inl _ => "" end).

Definition GetIdentityVerificationCodes (user : JID) : codeM IdentityVerificationCodes :=
  let userID := ToNonAD user in
  let localLID := ToNonAD ownLID in
  let loggedIn := negb (IsEmpty ownID) in
  if decide (Server userID ≠ HiddenUserServer ∨ User userID = "") then throw VerificationRequiresLID
  else if decide (Server localLID ≠ HiddenUserServer ∨ User localLID = "") then throw LocalLIDUnavailable
  else if decide (localLID = userID) then throw VerificationOfSelf
  else
    devices ← failing_with CodeDevices (GetUserDevices [localLID; userID]);
    let '(localDevices, remoteDevices) := splitIdentityVerificationDevices devices localLID userID (if loggedIn then Some (Device ownID) else None) in
    match remoteDevices with
    | [] => throw NoRemoteDevices
    | _ =>
        otherLocalKeys ← readIdentityKeys localDevices;
        remoteKeys ← readIdentityKeys remoteDevices;
        phone ← Client.try (pnFor userID);
        localName ← usernameOf localLID;
        remoteName ← usernameOf userID;
        newIdentityVerificationCodes
          (mkFingerprint localLID (if loggedIn && bool_decide (Server ownID = DefaultUserServer) then ToNonAD ownID else EmptyJID) localName
             (IdentityPub cfg :: otherLocalKeys) (hasHostedIdentityDevice localDevices))
          (mkFingerprint userID (match phone with inr pn => pn | inl _ => EmptyJID end) remoteName remoteKeys (hasHostedIdentityDevice remoteDevices))
    end.
End client.

(** * Properties *)

Lemma compareBytes_refl a : compareBytes a a = Eq.
Proof. induction a as [|x a IH]; [done|]. cbn. by rewrite Z.compare_refl. Qed.
Lemma compareBytes_eq a b : compareBytes a b = Eq → a = b.
Proof.
  revert b. induction a as [|x a IH]; intros [|y b]; try done. cbn. destruct (b2z x ?= b2z y)%Z eqn:Hc; try done.
  apply Z.compare_eq, b2z_inj in Hc as ->. intros ->%IH. done.
Qed.
Lemma compareBytes_antisym a b : compareBytes b a = CompOpp (compareBytes a b).
Proof.
  revert b. induction a as [|x a IH]; intros [|y b]; try done. cbn. rewrite (Z.compare_antisym (b2z x) (b2z y)).
  destruct (b2z x ?= b2z y)%Z; [apply IH|done..].
Qed.
Lemma compareBytes_trans a b c : compareBytes a b ≠ Gt → compareBytes b c ≠ Gt → compareBytes a c ≠ Gt.
Proof.
  revert b c. induction a as [|x a IH]; intros [|y b] [|z c]; try done. cbn.
  destruct (Z.compare_spec (b2z x) (b2z y)) as [H1|H1|H1], (Z.compare_spec (b2z y) (b2z z)) as [H2|H2|H2]; try done;
    destruct (Z.compare_spec (b2z x) (b2z z)); try lia; try done. apply IH.
Qed.

#[local] Instance bytesLe_total : Total bytesLe.
Proof. intros a b. unfold bytesLe. rewrite (compareBytes_antisym a b). destruct (compareBytes a b); [left|left|right]; done. Qed.
#[local] Instance bytesLe_trans : Transitive bytesLe.
Proof. intros a b c. apply compareBytes_trans. Qed.
#[local] Instance bytesLe_antisymm : AntiSymm (=) bytesLe.
Proof.
  intros a b Hab Hba. apply compareBytes_eq. unfold bytesLe in *. rewrite (compareBytes_antisym a b) in Hba.
  by destruct (compareBytes a b).
Qed.

(** Sorted, so that the order in which the devices are listed does not matter. *)
Lemma serializeIdentityKeys_perm keys keys' : keys ≡ₚ keys' → serializeIdentityKeys keys = serializeIdentityKeys keys'.
Proof.
  intros Hp. unfold serializeIdentityKeys. do 2 f_equal. apply (Sorted_unique bytesLe); [apply Sorted_merge_sort, _..|].
  by rewrite !merge_sort_Permutation.
Qed.

Lemma combineCodes_comm a b : combineCodes a b = combineCodes b a.
Proof.
  unfold combineCodes. rewrite (compareBytes_antisym a b). destruct (compareBytes a b) eqn:Hc; [|done..].
  by apply compareBytes_eq in Hc as ->.
Qed.

Lemma digits_fuel_short k fuel n : (0 ≤ n < 10 ^ Z.of_nat (S k))%Z → (length (digits_fuel fuel n) ≤ S k)%nat.
Proof.
  revert k n. induction fuel as [|fuel IH]; intros k n Hn; [cbn; lia|]. cbn [digits_fuel]. destruct (Z.ltb_spec n 10); [cbn; lia|].
  rewrite length_app. cbn [length]. destruct k as [|k]; [cbn in Hn; lia|]. enough (length (digits_fuel fuel (n / 10)) ≤ S k)%nat by lia. apply IH.
  rewrite Nat2Z.inj_succ, Z.pow_succ_r in Hn by lia. split; [apply Z.div_pos; lia|]. apply Z.div_lt_upper_bound; lia.
Qed.
Lemma length_fiveDigits n : (0 ≤ n < 100000)%Z → length (fiveDigits n) = 5%nat.
Proof.
  intros Hn. unfold fiveDigits. rewrite length_app, length_replicate.
  pose proof (digits_fuel_short 4 (S (Z.to_nat n)) n ltac:(lia)). unfold digits. lia.
Qed.
Lemma fiveDigits_digits n : (0 ≤ n)%Z → Forall (λ b, is_digit b = true) (fiveDigits n).
Proof. intros Hn. apply Forall_app. split; [by apply Forall_replicate|by apply digits_all]. Qed.

Lemma codeOf_spec digest : length (codeOf digest) = 30%nat ∧ Forall (λ b, is_digit b = true) (codeOf digest).
Proof.
  unfold codeOf. assert (∀ z, 0 ≤ z mod 100000 < 100000)%Z as Hf by (intros z; apply Z.mod_pos_bound; lia).
  cbn [seq fmap list_fmap List.concat]. rewrite !length_app. split.
  - by rewrite !length_fiveDigits by apply Hf.
  - rewrite !Forall_app. by repeat (split; [apply fiveDigits_digits; apply Hf|]).
Qed.

Section theory.
Context `{WideHash} `{SignalOps} `{ProtoCodec} `{Crypto} {outside : Outside} `{MapOrder}.
Hypothesis never_ended : ∀ t, contextEnded t = false.

Lemma checkContext_ok c : checkContext c = (Ok tt, set_moment (S (moment c)) c).
Proof. unfold checkContext, tick, mbind, cliM_bind, stateM_bind. by rewrite never_ended. Qed.
Lemma hashRounds_ok rounds index keys digest c :
  ∃ c', hashRounds rounds index keys digest c = (Ok (Nat.iter rounds (hashRound keys) digest), c').
Proof.
  revert index digest c. induction rounds as [|n IH]; intros index digest c; [by exists c|]. cbn [hashRounds].
  unfold mbind, cliM_bind, stateM_bind. rewrite Nat.iter_succ_r. case_decide; [rewrite checkContext_ok|]; apply IH.
Qed.
Lemma generateSecurityCodeFingerprint_ok identifier keys c :
  ∃ c', generateSecurityCodeFingerprint identifier keys c = (Ok (codeOf (digestOf identifier keys)), c').
Proof.
  unfold generateSecurityCodeFingerprint, mbind, cliM_bind, stateM_bind. rewrite checkContext_ok.
  destruct (hashRounds_ok securityCodeIterations 0 keys (sha512 ([x00; x00] ++ keys ++ identifier)) (set_moment (S (moment c)) c)) as [c' ->].
  by eexists.
Qed.
Lemma generateNumericSecurityCode_ok l lk r rk c :
  ∃ c', generateNumericSecurityCode l lk r rk c =
        (Ok (b2s (combineCodes (codeOf (digestOf l (serializeIdentityKeys lk))) (codeOf (digestOf r (serializeIdentityKeys rk))))), c').
Proof.
  unfold generateNumericSecurityCode, mbind, cliM_bind, stateM_bind.
  destruct (generateSecurityCodeFingerprint_ok l (serializeIdentityKeys lk) c) as [c1 ->].
  destruct (generateSecurityCodeFingerprint_ok r (serializeIdentityKeys rk) c1) as [c2 ->]. by eexists.
Qed.
End theory.

(** C33: both users see the same number. Whoever of the two asks for it, in
    whatever state and environment their clients are and in whatever order the keys of
    the devices come, a request whose context has not ended gives a code of sixty
    digits, and the codes of the two are equal. *)
Theorem security_codes_agree `{WideHash} `{SignalOps} `{ProtoCodec} `{Crypto} (here there : Outside) `{MapOrder}
    l lk r rk lk' rk' c1 c2
    (Hhere : ∀ t, contextEnded (Outside := here) t = false) (Hthere : ∀ t, contextEnded (Outside := there) t = false)
    (Hlocal : lk ≡ₚ lk') (Hremote : rk ≡ₚ rk') :
  ∃ code c1' c2',
    generateNumericSecurityCode (outside := here) l lk r rk c1 = (Ok code, c1')
    ∧ generateNumericSecurityCode (outside := there) r rk' l lk' c2 = (Ok code, c2')
    ∧ String.length code = 60%nat ∧ Forall (λ b, is_digit b = true) (s2b code).
Proof.
  apply serializeIdentityKeys_perm in Hlocal, Hremote.
  destruct (generateNumericSecurityCode_ok (outside := here) Hhere l lk r rk c1) as [c1' H1'].
  destruct (generateNumericSecurityCode_ok (outside := there) Hthere r rk' l lk' c2) as [c2' H2'].
  rewrite <- Hlocal, <- Hremote, combineCodes_comm in H2'. do 3 eexists. split; [exact H1'|]. split; [exact H2'|].
  destruct (codeOf_spec (digestOf l (serializeIdentityKeys lk))) as [Hl1 Hd1].
  destruct (codeOf_spec (digestOf r (serializeIdentityKeys rk))) as [Hl2 Hd2]. unfold combineCodes.
  rewrite <- length_s2b, s2b_b2s. destruct (compareBytes _ _); rewrite length_app, Forall_app; lia || (split; [lia|done]).
Qed.

#[local] Existing Instance toyCrypto.
#[local] Existing Instance toyNoise.
#[local] Existing Instance toyHKDF.
#[local] Existing Instance toyCodec.
#[local] Existing Instance toySignal.
#[local] Existing Instance toyProto.
#[local] Existing Instance toyOutside.
#[local] Instance toyWide : WideHash := λ l, take 64 (rev l ++ replicate 64 x2a).

Lemma security_codes_agree_witness :
  let ours := [replicate 32 x01; replicate 32 x02] in
  let theirs := [replicate 32 x03; replicate 32 x04] in
  ∃ code c1' c2',
    generateNumericSecurityCode (outside := toyOutside) (s2b "11") ours (s2b "99") theirs toyCli = (Ok code, c1')
    ∧ generateNumericSecurityCode (outside := toyOutside) (s2b "99") (reverse theirs) (s2b "11") (reverse ours) toyCli = (Ok code, c2')
    ∧ String.length code = 60%nat.
Proof.
  intros ours theirs.
  destruct (security_codes_agree toyOutside toyOutside (s2b "11") ours (s2b "99") theirs (reverse ours) (reverse theirs) toyCli toyCli
              ltac:(done) ltac:(done) ltac:(symmetry; apply reverse_Permutation) ltac:(symmetry; apply reverse_Permutation))
    as (code & c1' & c2' & Hone & Htwo & Hlen & _).
  exists code, c1', c2'. split; [exact Hone|]. split; [exact Htwo|exact Hlen].
Defined.
