(* ===== verification/Pair.v ===== *)
(** Pairing a new device (src/pair.go): the codes that are shown, and what makes a
    device of the account out of the client. *)
From Stdlib Require Import ZArith Lia.
From Stdlib Require Import Strings.Byte.
From stdpp Require Import prelude gmap strings list fin_maps.
From S2P Require Import Prelude Strconv Jid Node Attrs Cbc LTHash Noise Handshake Sql SignalStore IdentityCache SessionCache SessionTheory LidMap PreKeys MessageInfo Receipts Proto Client NodeEvents Events Cli SendTheory DeviceStore.

#[local] Open Scope string_scope.

(** The signature check of libsignal's ecc package (public key, message, signature), and
    what the application configures. *)
Class PairOps := {
  VerifySignature : list byte → list byte → list byte → bool;
  PrePairCallback : option (JID → string → string → bool);
  QRClientType : string;
  PlatformType : Z;          (* of [store.DeviceProps] *)
  UserAgentPlatform : Z      (* of [store.BaseClientPayload] *)
}.

(** [base64.StdEncoding], with padding. *)
Definition stdEncode (l : list byte) : string :=
  EncodeToString l +:+ (match (length l mod 3)%nat with 1%nat => "==" | 2%nat => "=" | _ => "" end).

Definition AdvAccountSignaturePrefix : list byte := [x06; x00].
Definition AdvDeviceSignaturePrefix : list byte := [x06; x01].
Definition AdvHostedAccountSignaturePrefix : list byte := [x06; x05].
Definition ADVEncryptionType_HOSTED : Z := 1.

Definition PairClientUnknown : string := "0".
Definition PairClientChrome : string := "1".
Definition PairClientEdge : string := "2".
Definition PairClientFirefox : string := "3".
Definition PairClientIE : string := "4".
Definition PairClientOpera : string := "5".
Definition PairClientSafari : string := "6".
Definition PairClientUWP : string := "8".
Definition PairClientOtherWebClient : string := "9".
Definition PairClientMacOS : string := "c".
Definition PairClientAndroid : string := "e".

(** The platforms of [waCompanionReg.DeviceProps] and of [waWa6.ClientPayload_UserAgent]. *)
Definition getQRClientType `{PairOps} : string :=
  if decide (QRClientType ≠ "") then QRClientType
  else
    match list_find (λ e, e.1 = PlatformType)
            [(1, PairClientChrome); (2, PairClientFirefox); (6, PairClientEdge); (3, PairClientIE); (4, PairClientOpera);
             (5, PairClientSafari); (21, PairClientUWP); (16, PairClientAndroid)]%Z with
    | Some (_, e) => e.2
    | None => if decide (UserAgentPlatform = 14%Z) then PairClientOtherWebClient else if decide (UserAgentPlatform = 24%Z) then PairClientMacOS else PairClientUnknown
    end.

(** ** State

    The stores of [cli] are those of the JID that is paired, which nothing uses before.
    [disconnected]: whether [Disconnect] was called. *)
Record phoneLinkingCache := mkLinking { linkJID : JID; linkKeyPair : KeyPair; linkingCode : string; pairingRef : string }.
Record pairing := mkPairing {
  pDevice : storeDevice; pDevices : database (gmap string storedDevice); paired : bool; linkCache : option phoneLinkingCache;
  serverTimeOffset : Z; expectsDisconnect : bool; disconnected : bool
}.
Definition setDevice v (p : pairing) := mkPairing v (pDevices p) (paired p) (linkCache p) (serverTimeOffset p) (expectsDisconnect p) (disconnected p).
Definition setDevices v (p : pairing) := mkPairing (fst v) (snd v) (paired p) (linkCache p) (serverTimeOffset p) (expectsDisconnect p) (disconnected p).
Definition setPaired v (p : pairing) := mkPairing (pDevice p) (pDevices p) v (linkCache p) (serverTimeOffset p) (expectsDisconnect p) (disconnected p).
Definition setLinkCache v (p : pairing) := mkPairing (pDevice p) (pDevices p) (paired p) v (serverTimeOffset p) (expectsDisconnect p) (disconnected p).
Definition setTimeOffset v (p : pairing) := mkPairing (pDevice p) (pDevices p) (paired p) (linkCache p) v (expectsDisconnect p) (disconnected p).
Definition setExpects v (p : pairing) := mkPairing (pDevice p) (pDevices p) (paired p) (linkCache p) (serverTimeOffset p) v (disconnected p).
Definition setDisconnected (p : pairing) := mkPairing (pDevice p) (pDevices p) (paired p) (linkCache p) (serverTimeOffset p) true true.

Definition setAccount v (d : storeDevice) : storeDevice :=
  let 'mkStoreDevice nk ik spk rid adv id lid _ pf bn pn fb lm nonce init del := d in mkStoreDevice nk ik spk rid adv id lid (Some v) pf bn pn fb lm nonce init del.
Definition setIdentity jid lid businessName platform (d : storeDevice) : storeDevice :=
  let 'mkStoreDevice nk ik spk rid adv _ _ acc _ _ pn fb lm nonce init del := d in
  mkStoreDevice nk ik spk rid adv (Some jid) lid acc platform businessName pn fb lm nonce init del.
Definition setAdvSecret v (d : storeDevice) : storeDevice :=
  let 'mkStoreDevice nk ik spk rid _ id lid acc pf bn pn fb lm nonce init del := d in mkStoreDevice nk ik spk rid v id lid acc pf bn pn fb lm nonce init del.

Inductive pairError :=
| PairContainer | PairHMAC | PairIdentity | PairDetails | PairSignature | PairRejected | PairMarshal
| PairSave (e : deviceStoreError) | PairMainIdentity (e : dbError) | PairConfirmation.

(** ** Signatures *)

Section signatures.
Context `{CurveOps} `{PairOps}.

Definition signedByAccount (prefix details publicKey : list byte) : list byte := prefix ++ details ++ publicKey.
Definition verifyAccountSignature (deviceIdentity : proto) (ikp : KeyPair) (isHosted : bool) : bool :=
  let signatureKey := asBytes (field "AccountSignatureKey" deviceIdentity) in
  let signature := asBytes (field "AccountSignature" deviceIdentity) in
  if decide (length signatureKey ≠ 32%nat ∨ length signature ≠ 64%nat) then false
  else VerifySignature signatureKey
         (signedByAccount (if isHosted then AdvHostedAccountSignaturePrefix else AdvAccountSignaturePrefix)
            (asBytes (field "Details" deviceIdentity)) (Pub ikp)) signature.
Definition generateDeviceSignature (deviceIdentity : proto) (ikp : KeyPair) : list byte :=
  CalculateSignature (Priv ikp)
    (AdvDeviceSignaturePrefix ++ asBytes (field "Details" deviceIdentity) ++ Pub ikp ++ asBytes (field "AccountSignatureKey" deviceIdentity)).
End signatures.

(** ** The handlers *)

Section pair.
Context `{SignalOps} `{ProtoCodec} `{Crypto} `{CurveOps} `{PairOps} {outside : Outside} `{MapOrder}.
#[local] Existing Instances cliM_ret cliM_bind.

Definition pairM (F A : Type) : Type := stateM (cli * pairing) F A.
#[local] Instance pairM_ret {F} : MRet (pairM F) := λ A, stateM_ret A.
#[local] Instance pairM_bind {F} : MBind (pairM F) := λ A B, stateM_bind A B.

Definition onClient {F A} (m : cliM F A) : pairM F A := zoom fst (λ c s, (c, s.2)) id m.
Definition thePairing {F} : pairM F pairing := s ← get; mret s.2.
Definition modifyPairing {F} (f : pairing → pairing) : pairM F unit := modify (λ s, (s.1, f s.2)).
Definition onStoreDevice {F A} (err : deviceStoreError → F) (m : stateM (storeDevice * database (gmap string storedDevice)) deviceStoreError A) : pairM F A :=
  zoom (λ s, (pDevice s.2, pDevices s.2)) (λ d s, (s.1, setDevices d s.2)) err m.

Definition makeQRData (d : storeDevice) (ref : list byte) (clientType : string) : string :=
  "https://wa.me/settings/linked_devices#" +:+ b2s ref +:+ "," +:+ stdEncode (Pub (NoiseKey d)) +:+ "," +:+ stdEncode (Pub (IdentityKey d)) +:+ ","
    +:+ stdEncode (AdvSecretKey d) +:+ "," +:+ clientType.

(** A reference that is not bytes is skipped. *)
Definition refs (pairDevice : node) : list (list byte) :=
  omap (λ child, if decide (Tag child = "ref") then match Content child with VBytes content => Some content | _ => None end else None) (GetChildren pairDevice).

Definition handlePairDevice {F} (n : node) : pairM F unit :=
  _ ← modifyPairing (setPaired false);
  _ ← onClient (sendLogged (mkNode "iq" [("to", attr n "from"); ("id", attr n "id"); ("type", VString "result")] VNil));
  p ← thePairing;
  _ ← onClient (dispatch (NodeEvent (QR ((λ ref, makeQRData (pDevice p) ref getQRClientType) <$> refs (GetChildByTag n ["pair-device"])))));
  mret tt.

Definition rotateADVSecret {F} : pairM F unit :=
  secret ← onClient (random 32);
  p ← thePairing;
  _ ← modifyPairing (λ p, setDevice (setAdvSecret secret (pDevice p)) p);
  _ ← onClient (dispatch (NodeEvent (RotateADVSecret (stdEncode (AdvSecretKey (pDevice p))) (stdEncode secret))));
  mret tt.

Definition sendPairError {F} (id : string) (code : Z) (text : string) : pairM F unit :=
  onClient (sendLogged (mkNode "iq" [("to", VJID ServerJID); ("type", VString "error"); ("id", VString id)]
    (VNodes [mkNode "error" [("code", VInt code); ("text", VString text)] VNil]))).
Definition refuse {A} (id : string) (code : Z) (text : string) (e : pairError) : pairM pairError A := _ ← sendPairError id code text; throw e.
Definition internalError {A} (id : string) (e : pairError) : pairM pairError A := refuse id 500 "internal-error" e.
(** The deletion of a device whose pairing failed; its own failure is ignored. *)
Definition discard {F} : pairM F unit := _ ← Client.try (onStoreDevice id Delete); mret tt.

Definition unset (k : string) (m : proto) : proto :=
  match m with PMsg fields => PMsg (List.filter (λ f, negb (bool_decide (f.1 = k))) fields) | _ => m end.
Definition accountOf (m : proto) : Account :=
  mkAccount (asBytes (field "Details" m)) (asBytes (field "AccountSignature" m)) (asBytes (field "AccountSignatureKey" m)) (asBytes (field "DeviceSignature" m)).
Definition hosted (field_ : string) (m : proto) : bool := bool_decide (asInt (field field_ m) = ADVEncryptionType_HOSTED).

(** What authenticates the message: the secret of the code that was scanned. *)
Definition containerMAC (d : storeDevice) (container : proto) : list byte :=
  hmacSha256 (AdvSecretKey d) ((if hosted "AccountType" container then AdvHostedAccountSignaturePrefix else []) ++ asBytes (field "Details" container)).

(** The device identity, and its details, that the main device and the account vouch for. *)
Definition checkIdentity (deviceIdentityBytes : list byte) (reqID : string) : pairM pairError (proto * proto) :=
  p ← thePairing;
  match Unmarshal "waAdv.ADVSignedDeviceIdentityHMAC" deviceIdentityBytes with
  | None => internalError reqID PairContainer
  | Some container =>
      if decide (containerMAC (pDevice p) container ≠ asBytes (field "HMAC" container)) then refuse reqID 401 "hmac-mismatch" PairHMAC
      else
        match Unmarshal "waAdv.ADVSignedDeviceIdentity" (asBytes (field "Details" container)) with
        | None => internalError reqID PairIdentity
        | Some identity =>
            match Unmarshal "waAdv.ADVDeviceIdentity" (asBytes (field "Details" identity)) with
            | None => internalError reqID PairDetails
            | Some details =>
                if negb (verifyAccountSignature identity (IdentityKey (pDevice p)) (hosted "DeviceType" details))
                then refuse reqID 401 "signature-mismatch" PairSignature
                else mret (identity, details)
            end
        end
  end.

Definition mainDevice (lid : JID) : JID := Build_JID (User lid) (RawAgent lid) 0 (Integrator lid) (Server lid).

(** The device is saved, and the main device's identity trusted. *)
Definition savePaired (identity : proto) (reqID businessName platform : string) (jid lid : JID) : pairM pairError unit :=
  _ ← modifyPairing (λ p, setDevice (setIdentity jid lid businessName platform (pDevice p)) p);
  saved ← Client.try (onStoreDevice id Save);
  match saved with
  | inl e => internalError reqID (PairSave e)
  | inr _ =>
      _ ← onClient (StoreLIDPNMapping lid jid);
      trusted ← Client.try (onClient (onBase (onDevice id (PutIdentity maxIdentityCacheEntries (addressString (mainDevice lid))
                                                             (asBytes (field "AccountSignatureKey" identity))))));
      match trusted with
      | inl e => _ ← discard; internalError reqID (PairMainIdentity e)
      | inr _ => mret tt
      end
  end.

Definition confirmation (reqID : string) (details : proto) (selfSigned : list byte) : node :=
  mkNode "iq" [("to", VJID ServerJID); ("type", VString "result"); ("id", VString reqID)]
    (VNodes [mkNode "pair-device-sign" [] (VNodes [mkNode "device-identity" [("key-index", VUint32 (asInt (field "KeyIndex" details)))] (VBytes selfSigned)])]).
(** The identity with the signature of this device. *)
Definition signedIdentity (identity : proto) (d : storeDevice) : proto :=
  setField "DeviceSignature" (PBytes (generateDeviceSignature identity (IdentityKey d))) identity.

Definition handlePair (deviceIdentityBytes : list byte) (reqID businessName platform : string) (jid lid : JID) : pairM pairError unit :=
  '(identity, details) ← checkIdentity deviceIdentityBytes reqID;
  p ← thePairing;
  let identity := signedIdentity identity (pDevice p) in
  if match PrePairCallback with Some callback => negb (callback jid platform businessName) | None => false end then internalError reqID PairRejected
  else
    _ ← modifyPairing (λ p, setDevice (setAccount (accountOf identity) (pDevice p)) p);
    match Marshal (unset "AccountSignatureKey" identity) with
    | None => internalError reqID PairMarshal
    | Some selfSigned =>
        _ ← savePaired identity reqID businessName platform jid lid;
        _ ← modifyPairing (setExpects true);
        _ ← modifyPairing (setPaired true);
        sent ← onClient (trySend (confirmation reqID details selfSigned));
        if (sent : bool) then mret tt else (_ ← discard; throw PairConfirmation)
    end.

(** The goroutine of [handlePairSuccess]. *)
Definition pairTask {F} (deviceIdentity : list byte) (reqID businessName platform : string) (jid lid : JID) (props : option proto) : pairM F unit :=
  r ← Client.try (handlePair deviceIdentity reqID businessName platform jid lid);
  match r with
  | inl _ => _ ← modifyPairing setDisconnected; _ ← onClient (dispatch (NodeEvent (PairError jid lid businessName platform props))); mret tt
  | inr _ => _ ← onClient (start (NodeTask UnifiedSessionTask)); _ ← onClient (dispatch (NodeEvent (PairSuccess jid lid businessName platform props))); mret tt
  end.

(** [t.Sub(now.Round(time.Second))], which saturates. *)
Definition maxDuration : Z := 2 ^ 63 - 1.
Definition sinceRounded (t : goTime) (nanoseconds : Z) : Z :=
  let rounded := ((nanoseconds + 500000000) / 1000000000 * 1000000000)%Z in
  let instant := match t with ZeroTime => -62135596800 * 1000000000 | UnixSec s => s * 1000000000 | UnixMs ms => ms * 1000000 end%Z in
  Z.max (- 2 ^ 63) (Z.min maxDuration (instant - rounded)).

Definition stringAttr (k : string) (n : node) : string := match lookupAttr k (Attrs n) with Some (VString s) => s | _ => "" end.
Definition jidAttr (k : string) (n : node) : JID := match lookupAttr k (Attrs n) with Some (VJID j) => j | _ => EmptyJID end.
Definition bytesContent (n : node) : list byte := match Content n with VBytes b => b | _ => [] end.

(** An id that is no string panics. *)
Definition handlePairSuccess {F} (n : node) : pairM F unit :=
  nanoseconds ← onClient now;
  _ ← modifyPairing (setTimeOffset (sinceRounded (attrUnixTime "t" (AttrGetter_of n)).1 nanoseconds));
  match lookupAttr "id" (Attrs n) with
  | Some (VString reqID) =>
      let pairSuccess := GetChildByTag n ["pair-success"] in
      let device := GetChildByTag pairSuccess ["device"] in
      onClient (start (NodeTask (PairTask (bytesContent (GetChildByTag pairSuccess ["device-identity"])) reqID
        (stringAttr "name" (GetChildByTag pairSuccess ["biz"])) (stringAttr "name" (GetChildByTag pairSuccess ["platform"]))
        (jidAttr "jid" device) (jidAttr "lid" device)
        (Unmarshal "waCompanionReg.ClientPairingProps" (bytesContent (GetChildByTag pairSuccess ["client-props"]))))))
  | _ => lift Panic
  end.

Definition handleIQ {F} (n : node) : pairM F unit :=
  match GetChildren n, lookupAttr "from" (Attrs n) with
  | [child], Some (VJID from) =>
      if negb (bool_decide (from = ServerJID)) then mret tt
      else if decide (Tag child = "pair-device") then handlePairDevice n
      else if decide (Tag child = "pair-success") then handlePairSuccess n
      else mret tt
  | _, _ => mret tt
  end.
End pair.

(** * Properties *)

(** Nothing but the log and the count of moments changed. *)
Definition sameStores `{SessionCodec} (c c' : cli) : Prop := ∃ l n, c' = set_moment n (set_base (set_cLog l (base c)) c).

Section properties.
Context `{SignalOps} `{ProtoCodec} `{Crypto} `{CurveOps} `{PairOps} {outside : Outside} `{MapOrder}.
#[local] Existing Instances cliM_ret cliM_bind pairM_ret pairM_bind.

Lemma sameStores_refl c : sameStores c c.
Proof. exists (cLog (base c)), (moment c). by destruct c as [[] ? ? ? ? ? ?]. Qed.
Lemma sameStores_trans c1 c2 c3 : sameStores c1 c2 → sameStores c2 c3 → sameStores c1 c3.
Proof. intros (l & n & ->) (l' & n' & ->). by exists l', n'. Qed.

(** Sending changes nothing else, and a node that is written is in the log. *)
Lemma trySend_run {F} n c : ∃ b c', trySend (F := F) n c = (Ok b, c') ∧ sameStores c c' ∧ (b = true → Sent n ∈ cLog (base c')).
Proof.
  unfold trySend, tick, mbind, cliM_bind, stateM_bind. cbn. destruct (written (moment c) n).
  - eexists _, _. split; [reflexivity|]. split; [by eexists _, _|]. intros _. cbn. apply elem_of_app. right. by apply list_elem_of_singleton.
  - eexists _, _. split; [reflexivity|]. split; [|done]. exists (cLog (base c)), (S (moment c)). by destruct c as [[] ? ? ? ? ? ?].
Qed.
Lemma sendPairError_run {F} id code text s :
  ∃ s', sendPairError (F := F) id code text s = (Ok tt, s') ∧ s'.2 = s.2 ∧ sameStores s.1 s'.1.
Proof.
  unfold sendPairError. generalize (mkNode "iq" [("to", VJID ServerJID); ("type", VString "error"); ("id", VString id)]
    (VNodes [mkNode "error" [("code", VInt code); ("text", VString text)] VNil])). intros n.
  destruct (trySend_run (F := F) n s.1) as (b & c' & Hrun & Hsame & _). unfold onClient, zoom, sendLogged, mbind, cliM_bind, stateM_bind.
  rewrite Hrun. by eexists.
Qed.

(** Nothing happened but that an error was sent. *)
Definition untouched (s s' : cli * pairing) : Prop := s'.2 = s.2 ∧ sameStores s.1 s'.1.

Lemma refuse_run {A} id code text e s : ∃ s', refuse (A := A) id code text e s = (Err e, s') ∧ untouched s s'.
Proof.
  destruct (sendPairError_run (F := pairError) id code text s) as (s' & Hrun & Hs). exists s'. split; [|exact Hs].
  unfold refuse. by rewrite (stateM_step _ _ _ _ _ Hrun).
Qed.

(** What vouches for an identity: the message has the MAC of the secret that was shown in
    the code, and the identity in it is signed for this client's identity key by the
    account's key, which it holds. *)
Record authentic (d : storeDevice) (bytes : list byte) (container identity details : proto) : Prop := mkAuthentic {
  au_container : Unmarshal "waAdv.ADVSignedDeviceIdentityHMAC" bytes = Some container;
  au_mac : asBytes (field "HMAC" container) = containerMAC d container;
  au_identity : Unmarshal "waAdv.ADVSignedDeviceIdentity" (asBytes (field "Details" container)) = Some identity;
  au_details : Unmarshal "waAdv.ADVDeviceIdentity" (asBytes (field "Details" identity)) = Some details;
  au_key : length (asBytes (field "AccountSignatureKey" identity)) = 32%nat;
  au_signature : VerifySignature (asBytes (field "AccountSignatureKey" identity))
      (signedByAccount (if hosted "DeviceType" details then AdvHostedAccountSignaturePrefix else AdvAccountSignaturePrefix)
         (asBytes (field "Details" identity)) (Pub (IdentityKey d))) (asBytes (field "AccountSignature" identity)) = true
}.

Lemma checkIdentity_spec bytes reqID s r s' :
  checkIdentity bytes reqID s = (r, s') →
  (∃ container identity details, r = Ok (identity, details) ∧ s' = s ∧ authentic (pDevice s.2) bytes container identity details)
  ∨ (∃ e, r = Err e ∧ untouched s s').
Proof.
  unfold checkIdentity, thePairing, mbind, pairM_bind, stateM_bind. cbn. assert (∀ code text e, refuse reqID code text e s = (r, s') → ∃ e, r = Err e ∧ untouched s s') as Href.
  { intros code text e Hr. destruct (refuse_run (A := proto * proto) reqID code text e s) as (s1 & Hrun & Hs). rewrite Hrun in Hr. injection Hr as <- <-. by eexists. }
  destruct (Unmarshal _ bytes) as [container|] eqn:Hc; [|intros Hr; right; exact (Href _ _ _ Hr)].
  case_decide as Hmac; [intros Hr; right; exact (Href _ _ _ Hr)|].
  destruct (Unmarshal "waAdv.ADVSignedDeviceIdentity" _) as [identity|] eqn:Hi; [|intros Hr; right; exact (Href _ _ _ Hr)].
  destruct (Unmarshal "waAdv.ADVDeviceIdentity" _) as [details|] eqn:Hd; [|intros Hr; right; exact (Href _ _ _ Hr)].
  destruct (verifyAccountSignature _ _ _) eqn:Hv; [|intros Hr; right; exact (Href _ _ _ Hr)]. cbn. intros [= <- <-]. left.
  exists container, identity, details. split; [done|]. split; [done|]. unfold verifyAccountSignature in Hv. case_decide as Hlen; [done|].
  split; try done. apply dec_stable. tauto.
Qed.

(** The main device of the account, whose key vouched for the identity, is trusted. *)
Lemma PutIdentity_trusts (address : string) (key : list byte) s s' :
  PutIdentity maxIdentityCacheEntries address key s = (Ok tt, s') → identityCache s' !! address = Some (Some key).
Proof.
  unfold PutIdentity. intros Hrun. inv_run. unfold get in *. simplify_eq. case_decide as Hc; [by injection Hrun as <-|].
  inv_run. unfold setCachedIdentityLocked, modify in Hrun. injection Hrun as <-. cbn. apply lookup_insert_eq.
Qed.

Lemma Save_row d s s' : Save (d, s) = (Ok tt, s') →
  ∃ jid row, devID d = Some jid ∧ rowOf d = Some row ∧ content s'.2 = putDeviceRow (JIDString jid) row (content s) ∧ s'.1 = setInitialized d.
Proof.
  unfold Save. intros Hrun. inv_run. unfold get in *. simplify_eq. cbn in Hrun. destruct (Deleted d); [done|].
  unfold PutDevice in Hrun. cbn in Hrun. destruct (devID d) as [jid|]; [|done]. destruct (rowOf d) as [row|]; [|done].
  exists jid, row. unfold onTable, zoom, update, stmt in Hrun. destruct s as [t [|[] l]]; cbn in Hrun; simplify_eq; done.
Qed.

Lemma internalError_never {A} id e s (a : A) s' : internalError id e s ≠ (Ok a, s').
Proof. unfold internalError. destruct (refuse_run (A := A) id 500 "internal-error" e s) as (s1 & -> & _). done. Qed.

Lemma onClient_Ok {F A} (m : cliM F A) s a s' : onClient m s = (Ok a, s') → m s.1 = (Ok a, s'.1) ∧ s'.2 = s.2.
Proof. unfold onClient, zoom. destruct (m s.1) as [[x|e| |] c]; by intros [= <- <-]. Qed.

Lemma savePaired_ok identity reqID businessName platform jid lid s s' :
  savePaired identity reqID businessName platform jid lid s = (Ok tt, s') →
  ∃ row, content (pDevices s'.2) = putDeviceRow (JIDString jid) row (content (pDevices s.2))
    ∧ rowOf (setIdentity jid lid businessName platform (pDevice s.2)) = Some row
    ∧ s'.2 = setDevices (setInitialized (setIdentity jid lid businessName platform (pDevice s.2)), pDevices s'.2) s.2
    ∧ memIdentities (cMemory (base s'.1)) !! addressString (mainDevice lid) = Some (Some (asBytes (field "AccountSignatureKey" identity))).
Proof.
  unfold savePaired. intros ([] & s1 & Hr1 & Hrun)%stateM_bind_Ok. injection Hr1 as <-.
  apply stateM_bind_Ok in Hrun as (saved & s2 & Hr2 & Hrun). destruct saved as [e|[]]; [by apply internalError_never in Hrun|].
  apply try_inr in Hr2. unfold onStoreDevice, zoom in Hr2. cbn in Hr2.
  destruct (Save _) as [[[]| | |] [d ds]] eqn:Hsave; try done. injection Hr2 as <-. apply Save_row in Hsave as (jid' & row & Hid & Hrow & Hc & Hd).
  cbn in Hid, Hc, Hd. assert (jid' = jid) as -> by (destruct (pDevice s.2); cbn in Hid; congruence).
  apply stateM_bind_Ok in Hrun as ([] & s3 & Hr3 & Hrun). apply onClient_Ok in Hr3 as [_ Hr3].
  apply stateM_bind_Ok in Hrun as (trusted & s4 & Hr4 & Hrun).
  destruct trusted as [e|[]]; [apply stateM_bind_Ok in Hrun as (? & ? & _ & Hrun); by apply internalError_never in Hrun|]. injection Hrun as <-.
  apply try_inr in Hr4. apply onClient_Ok in Hr4 as [Hr4 Hp]. exists row. rewrite Hp, Hr3. cbn. split; [done|]. split; [done|]. split; [by rewrite Hd|].
  unfold onBase, onDevice, zoom in Hr4.
  destruct (PutIdentity _ _ _ _) as [[[]| | |] st] eqn:Hput; try done. apply PutIdentity_trusts in Hput. injection Hr4 as <-. by destruct st.
Qed.

(** C34: only the account pairs the client. However the handling of a message about
    a successful pairing ends, either it failed and nothing changed but that an error was
    sent; or the message had the MAC of the secret shown in the code, and the identity in
    it was signed for this client's identity key by the key it holds. When it returns
    without an error, the device has exactly the addresses and the signed identity of the
    message and its own keys, its row is written, that key is trusted as the main device's,
    and the identity with this device's signature was sent. *)
Theorem pairing_authenticated bytes reqID businessName platform jid lid s r s'
    (Hrun : handlePair bytes reqID businessName platform jid lid s = (r, s')) :
  ((∃ e, r = Err e) ∧ untouched s s') ∨
  ∃ container identity details, authentic (pDevice s.2) bytes container identity details ∧
    (r = Ok tt →
     let signed := signedIdentity identity (pDevice s.2) in
     let device := setInitialized (setIdentity jid lid businessName platform (setAccount (accountOf signed) (pDevice s.2))) in
     pDevice s'.2 = device ∧ paired s'.2 = true ∧ expectsDisconnect s'.2 = true
     ∧ (∃ row, rowOf device = Some row ∧ content (pDevices s'.2) = putDeviceRow (JIDString jid) row (content (pDevices s.2)))
     ∧ memIdentities (cMemory (base s'.1)) !! addressString (mainDevice lid) = Some (Some (asBytes (field "AccountSignatureKey" identity)))
     ∧ ∃ selfSigned, Marshal (unset "AccountSignatureKey" signed) = Some selfSigned ∧ Sent (confirmation reqID details selfSigned) ∈ cLog (base s'.1)).
Proof.
  unfold handlePair in Hrun. destruct (checkIdentity bytes reqID s) as [rc s1] eqn:Hc.
  destruct (checkIdentity_spec _ _ _ _ _ Hc) as [(container & identity & details & -> & -> & Hau)|(e & -> & Hu)].
  2: { rewrite (stateM_fail _ _ _ _ _ Hc) in Hrun. injection Hrun as <- <-. left. split; [by eexists|done]. }
  rewrite (stateM_step _ _ _ _ _ Hc) in Hrun.
  apply stateM_bind_run in Hrun as [(p & s2 & Hp & Hrun)|(r1 & Hp & Hno & _)]; [injection Hp as <- <-|injection Hp as <- _; by edestruct Hno].
  destruct (match PrePairCallback with Some _ => _ | None => _ end).
  { destruct (refuse_run (A := ()) reqID 500 "internal-error" PairRejected s) as (s2 & Href & Hu). unfold internalError in Hrun. rewrite Href in Hrun.
    injection Hrun as <- <-. left. split; [by eexists|done]. }
  right. exists container, identity, details. split; [done|]. intros ->. apply stateM_bind_Ok in Hrun as ([] & s2 & Hr2 & Hrun). injection Hr2 as <-.
  destruct (Marshal _) as [selfSigned|] eqn:Hm; [|by apply internalError_never in Hrun].
  apply stateM_bind_Ok in Hrun as ([] & s3 & (row & Hc3 & Hrow & Hp3 & Hid)%savePaired_ok & Hrun). cbn in Hc3, Hrow, Hp3.
  apply stateM_bind_Ok in Hrun as ([] & s4 & Hr4 & Hrun). injection Hr4 as <-.
  apply stateM_bind_Ok in Hrun as ([] & s5 & Hr5 & Hrun). injection Hr5 as <-.
  apply stateM_bind_Ok in Hrun as (sent & s6 & (Hr6 & Hp6)%onClient_Ok & Hrun).
  destruct sent; [|by apply stateM_bind_Ok in Hrun as (? & ? & _ & Hrun)]. injection Hrun as <-. cbn in Hr6, Hp6.
  destruct (trySend_run (F := pairError) (confirmation reqID details selfSigned) s3.1) as (b & c' & Hrun & Hsame & Hlog). rewrite Hr6 in Hrun.
  injection Hrun as <- <-. rewrite Hp6. cbn. rewrite Hp3. cbn. split; [done|]. split; [done|]. split; [done|]. split; [|split].
  - exists row. split; [|done]. rewrite <- Hrow. by destruct (pDevice s.2).
  - destruct Hsame as (l & n & ->). unfold signedIdentity in Hid. rewrite field_setField_ne in Hid by done. exact Hid.
  - exists selfSigned. split; [done|]. by apply Hlog.
Qed.

(** When saving fails the client keeps the address in memory: it takes itself for paired,
    although nothing is stored. *)
Lemma failed_save_keeps_id identity reqID businessName platform jid lid s e d :
  Save (setIdentity jid lid businessName platform (pDevice s.2), pDevices s.2) = (Err e, d) →
  ∃ s', savePaired identity reqID businessName platform jid lid s = (Err (PairSave e), s') ∧ pDevice s'.2 = d.1 ∧ pDevices s'.2 = d.2.
Proof.
  intros Hsave. destruct (refuse_run (A := ()) reqID 500 "internal-error" (PairSave e)
    (s.1, setDevices d (setDevice (setIdentity jid lid businessName platform (pDevice s.2)) s.2))) as (s' & Hrun & Hp & _).
  exists s'. cbn in Hp. rewrite Hp. split; [|done]. unfold savePaired, modifyPairing, modify, mbind, pairM_bind, stateM_bind, Client.try, onStoreDevice, zoom. cbn.
  rewrite Hsave. cbn. unfold internalError. by rewrite Hrun.
Qed.
End properties.

(** ** A run *)

#[local] Existing Instance toyCrypto.
#[local] Existing Instance toyCodec.
#[local] Existing Instance toyCurve.
#[local] Existing Instance toySignal.
#[local] Existing Instance toyOutside.

Definition toyNewDevice : storeDevice := NewDevice (mkRandom (replicate 32 x01) (replicate 32 x02) (replicate 32 x03) 7 (replicate 32 x06)).
Definition toyAccountKey : list byte := replicate 32 x07.
Definition toyIdentity : proto :=
  PMsg [("Details", PBytes [x03]); ("AccountSignatureKey", PBytes toyAccountKey);
        ("AccountSignature", PBytes (toyAccountKey ++ sha256 (signedByAccount AdvAccountSignaturePrefix [x03] (Pub (IdentityKey toyNewDevice)))))].
Definition toyContainer : proto := PMsg [("Details", PBytes [x02]); ("HMAC", PBytes (hmacSha256 (AdvSecretKey toyNewDevice) [x02]))].
#[local] Instance toyPairProto : ProtoCodec := {|
  Marshal _ := Some [x09];
  Unmarshal type b :=
    if decide (b = [x01] ∧ type = "waAdv.ADVSignedDeviceIdentityHMAC") then Some toyContainer
    else if decide (b = [x02] ∧ type = "waAdv.ADVSignedDeviceIdentity") then Some toyIdentity
    else if decide (b = [x03] ∧ type = "waAdv.ADVDeviceIdentity") then Some (PMsg [("KeyIndex", PInt 4)]) else None
|}.
#[local] Instance toyPairOps : PairOps := {|
  VerifySignature key msg sig := bool_decide (sig = key ++ sha256 msg)%list; PrePairCallback := None; QRClientType := ""; PlatformType := 1; UserAgentPlatform := 14
|}.
Definition toyPairing : pairing := mkPairing toyNewDevice (mkDatabase ∅ []) false None 0 false false.
Definition toyPaired : outcome pairError unit * (cli * pairing) := handlePair [x01] "5" "" "android" toyID toyLID (toyCli, toyPairing).

Lemma pairing_authenticated_witness :
  toyPaired.1 = Ok tt ∧ devID (pDevice toyPaired.2.2) = Some toyID ∧ IdentityKey (pDevice toyPaired.2.2) = IdentityKey toyNewDevice
  ∧ memIdentities (cMemory (base toyPaired.2.1)) !! addressString (mainDevice toyLID) = Some (Some toyAccountKey)
  ∧ Sent (confirmation "5" (PMsg [("KeyIndex", PInt 4)]) [x09]) ∈ cLog (base toyPaired.2.1).
Proof.
  assert (toyPaired.1 = Ok tt) as Hok by (vm_compute; reflexivity).
  destruct (pairing_authenticated [x01] "5" "" "android" toyID toyLID (toyCli, toyPairing) toyPaired.1 toyPaired.2 ltac:(apply surjective_pairing))
    as [[[e He] _]|(container & identity & details & Hau & Hpaired)]; [rewrite Hok in He; discriminate He|].
  destruct (Hpaired Hok) as (Hd & _ & _ & _ & Hid & selfSigned & Hm & Hsent).
  pose proof (au_container _ _ _ _ _ Hau) as Hc. injection Hc as <-. pose proof (au_identity _ _ _ _ _ Hau) as Hi. injection Hi as <-.
  pose proof (au_details _ _ _ _ _ Hau) as Hdet. injection Hdet as <-. injection Hm as <-.
  split; [exact Hok|]. rewrite Hd. split; [reflexivity|]. split; [reflexivity|]. split; [exact Hid|exact Hsent].
Defined.
