(* ===== verification/PairCode.v ===== *)
(** Pairing with a code that is typed into the phone (src/pair-code.go). *)
From Stdlib Require Import ZArith Lia.
From Stdlib Require Import Strings.Byte.
From stdpp Require Import prelude gmap strings list fin_maps.
From S2P Require Import Prelude Strconv Jid Node Attrs Cbc LTHash Noise Handshake Sql SignalStore IdentityCache SessionCache SessionTheory LidMap LidMapSpec Requests PreKeys MessageInfo Receipts Proto Client NodeEvents Events Cli SendTheory DeviceStore Pair.

#[local] Open Scope string_scope.

(** golang.org/x/crypto/pbkdf2 over SHA-256: password, salt, iterations and length. *)
Class KeyDerivation := pbkdf2 : list byte → list byte → Z → Z → list byte.

Inductive codePairError :=
| ElementMissing (tag : string) | UnexpectedRefContent | PhoneNumberTooShort | PhoneNumberIsNotInternational | CodeIQ (e : iqError)
| NoPendingPairing | PairingRefMismatch | WrappedTooShort | CodeCipher (e : noiseError) | SharedSecretFailed.

(** ** AES in counter mode

    [cipher.NewCTR] panics on an initialization vector that is not a block. *)
Fixpoint ctrStream (b : Block) (counter : Z) (blocks : nat) : list byte :=
  match blocks with O => [] | S blocks => (blockEncrypt b (be_bytes 16 counter) ++ ctrStream b (counter + 1) blocks)%list end.
#[global] Arguments ctrStream : simpl never.
(** At least as many bytes as the data has. *)
Definition keyStream (b : Block) (iv : list byte) (len : nat) : list byte := ctrStream b (be_value iv) (S (len / BlockSize)).
Definition XORKeyStream (b : Block) (iv data : list byte) : outcome codePairError (list byte) :=
  if decide (length iv ≠ BlockSize) then Panic else Ok (xorBytes data (keyStream b iv (length data))).

(** ** Codes *)

Definition linkingAlphabet : list byte := s2b "123456789ABCDEFGHJKLMNPQRSTVWXYZ".
(** Of five bytes: eight characters. *)
Definition encodeLinkingCode (l : list byte) : string :=
  b2s ((λ i : nat, nth (Z.to_nat (Z.land (Z.shiftr (be_value l) (5 * (7 - Z.of_nat i))) 31)) linkingAlphabet x00) <$> seq 0 8).

Section code.
Context `{NoiseCrypto} `{HKDF} `{CurveOps} `{KeyDerivation}.

Definition linkCodeKey (code : string) (salt : list byte) : list byte := pbkdf2 (s2b code) salt 131072 32.
(** The same function encrypts and decrypts. *)
Definition linkCipher (code : string) (salt iv data : list byte) : outcome codePairError (list byte) :=
  match NewCipher (linkCodeKey code salt) with Some b => XORKeyStream b iv data | None => Err (CodeCipher AESInitFailed) end.

(** The public key is encrypted in place: the key pair that is kept holds the ciphertext.
    An error of the cipher is ignored, and using it panics. *)
Definition generateCompanionEphemeralKey (keyRandom salt iv linkingCode : list byte) : outcome codePairError (KeyPair * list byte * string) :=
  let pair := NewKeyPair keyRandom in
  let encodedLinkingCode := encodeLinkingCode linkingCode in
  match linkCipher encodedLinkingCode salt iv (Pub pair) with
  | Ok encryptedPubkey => Ok (mkKeyPair encryptedPubkey (Priv pair), (salt ++ iv ++ encryptedPubkey)%list, encodedLinkingCode)
  | _ => Panic
  end.

Definition derive (key salt info : list byte) : outcome codePairError (list byte) := map_err (Empty_set_rect _) (SHA256 key salt info 32).
Definition sharedSecret (priv pub : list byte) : outcome codePairError (list byte) :=
  match X25519 priv pub with Some s => Ok s | None => Err SharedSecretFailed end.
Definition bundleKey (shared salt : list byte) : outcome codePairError (list byte) := derive shared salt (s2b "link_code_pairing_key_bundle_encryption_key").
Definition advSecret (shared identityShared random : list byte) : outcome codePairError (list byte) :=
  derive (shared ++ identityShared ++ random)%list [] (s2b "adv_secret").

(** The bundle of keys for the phone, and the secret that will authenticate it. *)
Definition finishBundle (link : phoneLinkingCache) (ikp : KeyPair) (wrappedPrimary primaryIdentityPub advSecretRandom keyBundleSalt keyBundleNonce : list byte) :
    outcome codePairError (list byte * list byte) :=
  primaryPub ← linkCipher (linkingCode link) (take 32 wrappedPrimary) (take 16 (drop 32 wrappedPrimary)) (take 32 (drop 48 wrappedPrimary));
  shared ← sharedSecret (Priv (linkKeyPair link)) primaryPub;
  key ← bundleKey shared keyBundleSalt;
  encrypted ← map_err CodeCipher (gcmEncrypt key keyBundleNonce (Pub ikp ++ primaryIdentityPub ++ advSecretRandom)%list []);
  identityShared ← sharedSecret (Priv ikp) primaryIdentityPub;
  secret ← advSecret shared identityShared advSecretRandom;
  mret ((keyBundleSalt ++ keyBundleNonce ++ encrypted)%list, secret).
End code.

(** ** The client *)

Section pair_code.
Context `{SignalOps} `{ProtoCodec} `{NoiseCrypto} `{HKDF} `{CurveOps} `{KeyDerivation} {outside : Outside}.
#[local] Existing Instances cliM_ret cliM_bind pairM_ret pairM_bind.

Definition onlyDigits (phone : string) : string := b2s (List.filter is_digit (s2b phone)).

Definition helloQuery (jid : JID) (showPushNotification : bool) (ephemeralKey noisePub : list byte) (clientType clientDisplayName : string) : infoQuery :=
  mkInfoQuery "md" "set" ServerJID EmptyJID "" "" (VNodes [mkNode "link_code_companion_reg"
    [("jid", VJID jid); ("stage", VString "companion_hello"); ("should_show_push_notification", VString (FormatBool showPushNotification))]
    (VNodes [mkNode "link_code_pairing_wrapped_companion_ephemeral_pub" [] (VBytes ephemeralKey);
             mkNode "companion_server_auth_key_pub" [] (VBytes noisePub);
             mkNode "companion_platform_id" [] (VString clientType);
             mkNode "companion_platform_display" [] (VString clientDisplayName);
             mkNode "link_code_pairing_nonce" [] (VBytes [x00])])]).

Definition shownCode (code : string) : string := String.substring 0 4 code +:+ "-" +:+ String.substring 4 (String.length code - 4) code.

Definition PairPhone (phone : string) (showPushNotification : bool) (clientType clientDisplayName : string) : pairM codePairError string :=
  keyRandom ← onClient (random 32); salt ← onClient (random 32); iv ← onClient (random 16); code ← onClient (random 5);
  '(keyPair, ephemeralKey, encodedLinkingCode) ← lift (generateCompanionEphemeralKey keyRandom salt iv code);
  let phone := onlyDigits phone in
  if decide (String.length phone ≤ 6)%nat then throw PhoneNumberTooShort
  else if hasPrefix "0" phone then throw PhoneNumberIsNotInternational
  else
    let jid := NewJID phone DefaultUserServer in
    p ← thePairing;
    resp ← onClient (query CodeIQ (helloQuery jid showPushNotification ephemeralKey (Pub (NoiseKey (pDevice p))) clientType clientDisplayName));
    match GetOptionalChildByTag resp ["link_code_companion_reg"; "link_code_pairing_ref"] with
    | (_, false) => throw (ElementMissing "link_code_pairing_ref")
    | (ref, true) =>
        match Content ref with
        | VBytes pairingRef =>
            _ ← modifyPairing (setLinkCache (Some (mkLinking jid keyPair encodedLinkingCode (b2s pairingRef))));
            mret (shownCode encodedLinkingCode)
        | _ => throw UnexpectedRefContent
        end
    end.

Definition finishQuery (jid : JID) (wrappedKeyBundle identityPub : list byte) (pairingRef : value) : infoQuery :=
  mkInfoQuery "md" "set" ServerJID EmptyJID "" "" (VNodes [mkNode "link_code_companion_reg" [("jid", VJID jid); ("stage", VString "companion_finish")]
    (VNodes [mkNode "link_code_pairing_wrapped_key_bundle" [] (VBytes wrappedKeyBundle);
             mkNode "companion_identity_public" [] (VBytes identityPub);
             mkNode "link_code_pairing_ref" [] pairingRef])]).

Definition handleCodePairNotification (parentNode : node) : pairM codePairError unit :=
  match GetOptionalChildByTag parentNode ["link_code_companion_reg"] with
  | (_, false) => throw (ElementMissing "link_code_companion_reg")
  | (n, true) =>
      p ← thePairing;
      match linkCache p with
      | None => throw NoPendingPairing
      | Some link =>
          _ ← modifyPairing (setPaired false);
          let ref := bytesContent (GetChildByTag n ["link_code_pairing_ref"]) in
          if decide (b2s ref ≠ pairingRef link) then throw PairingRefMismatch
          else
            match Content (GetChildByTag n ["link_code_pairing_wrapped_primary_ephemeral_pub"]), Content (GetChildByTag n ["primary_identity_pub"]) with
            | VBytes wrapped, identityContent =>
                if decide (length wrapped < 80)%nat then throw WrappedTooShort
                else
                  match identityContent with
                  | VBytes primaryIdentityPub =>
                      advSecretRandom ← onClient (random 32); keyBundleSalt ← onClient (random 32); keyBundleNonce ← onClient (random 12);
                      '(wrappedKeyBundle, secret) ←
                        lift (finishBundle link (IdentityKey (pDevice p)) wrapped primaryIdentityPub advSecretRandom keyBundleSalt keyBundleNonce);
                      _ ← modifyPairing (λ p, setDevice (setAdvSecret secret (pDevice p)) p);
                      _ ← onClient (query CodeIQ (finishQuery (linkJID link) wrappedKeyBundle (Pub (IdentityKey (pDevice p))) (VBytes ref)));
                      mret tt
                  | _ => throw (ElementMissing "primary_identity_pub")
                  end
            | _, _ => throw (ElementMissing "link_code_pairing_wrapped_primary_ephemeral_pub")
            end
      end
  end.
(** Its error is only logged. *)
Definition tryHandleCodePairNotification {F} (parentNode : node) : pairM F unit := _ ← Client.try (handleCodePairNotification parentNode); mret tt.
End pair_code.

(** * The phone

    What the other side must compute, from the code that the user typed: written from the
    primitives, without the definitions of the client. *)
Section phone.
Context `{NoiseCrypto} `{HKDF} `{CurveOps} `{KeyDerivation}.

(** AES in counter mode under the key that 131072 rounds make of the code: byte [i] is
    combined with byte [i mod 16] of the encryption of the counter at block [i / 16]. *)
Definition phoneCrypt (code : string) (salt iv data : list byte) : option (list byte) :=
  b ← NewCipher (pbkdf2 (s2b code) salt 131072 32);
  Some (imap (λ i x, bxor x (nth (i mod 16) (blockEncrypt b (be_bytes 16 (be_value iv + Z.of_nat (i / 16)))) x00)) data).
Definition phoneWrap (code : string) (salt iv : list byte) (ephemeral : KeyPair) : option (list byte) :=
  encrypted ← phoneCrypt code salt iv (Pub ephemeral); Some (salt ++ iv ++ encrypted)%list.
(** The identity key of the companion and the secret. The bundle must name the phone's
    own identity key. *)
Definition phoneFinish (code : string) (wrappedCompanion : list byte) (ephemeral identity : KeyPair) (bundle : list byte) :
    option (list byte * list byte) :=
  companionPub ← phoneCrypt code (take 32 wrappedCompanion) (take 16 (drop 32 wrappedCompanion)) (drop 48 wrappedCompanion);
  shared ← X25519 (Priv ephemeral) companionPub;
  b ← NewCipher (hkdfRead shared (take 32 bundle) (s2b "link_code_pairing_key_bundle_encryption_key") 32);
  gcm ← NewGCM b;
  plaintext ← Open gcm (take 12 (drop 32 bundle)) (drop 44 bundle) [];
  let companionIdentity := take 32 plaintext in
  identityShared ← X25519 (Priv identity) companionIdentity;
  if decide (take 32 (drop 32 plaintext) = Pub identity) then
    Some (companionIdentity, hkdfRead (shared ++ identityShared ++ drop 64 plaintext)%list [] (s2b "adv_secret") 32)
  else None.
End phone.

(** * Properties *)

(** Both sides of an exchange compute the same point. *)
Class DHLaws `{NoiseCrypto} `{CurveOps} : Prop :=
  dh a b : X25519 a (ScalarBaseMult b) = X25519 b (ScalarBaseMult a).
Definition validPair `{CurveOps} (k : KeyPair) : Prop := Pub k = ScalarBaseMult (Priv k) ∧ length (Pub k) = 32%nat.

Lemma xor_stream_cancel data stream : (length data ≤ length stream)%nat → xorBytes (xorBytes data stream) stream = data.
Proof.
  revert stream. induction data as [|a data IH]; intros [|b stream] Hl; try done; [cbn in Hl; lia|]. cbn in *.
  by rewrite bxor_cancel, IH by lia.
Qed.

Section agreement.
Context `{CryptoLaws} `{!NoiseCrypto} `{!NoiseLaws} `{HKDF} `{CurveOps} `{KeyDerivation} `{!DHLaws}.

Lemma length_ctrStream key b counter blocks : NewCipher key = Some b → length (ctrStream b counter blocks) = (blocks * BlockSize)%nat.
Proof.
  intros Hb. revert counter. induction blocks as [|blocks IH]; intros counter; [done|].
  change (ctrStream b counter (S blocks)) with (blockEncrypt b (be_bytes 16 counter) ++ ctrStream b (counter + 1) blocks)%list. rewrite length_app, IH.
  rewrite (encrypt_length _ _ _ Hb); [lia|]. apply length_be_bytes.
Qed.

(** Encrypting twice gives back the data. *)
Lemma linkCipher_twice code salt iv data c : linkCipher code salt iv data = Ok c → linkCipher code salt iv c = Ok data ∧ length c = length data ∧ length iv = BlockSize.
Proof.
  unfold linkCipher, XORKeyStream. destruct (NewCipher _) as [b|] eqn:Hb; [|done]. case_decide as Hiv; [done|]. intros [= <-].
  assert (length data ≤ length (keyStream b iv (length data)))%nat as Hl.
  { unfold keyStream. rewrite (length_ctrStream _ _ _ _ Hb). pose proof (Nat.mul_succ_div_gt (length data) BlockSize ltac:(done)). lia. }
  assert (length (xorBytes data (keyStream b iv (length data))) = length data) as Hlen by (unfold xorBytes; rewrite length_zip_with; lia).
  rewrite Hlen. split; [|done]. by rewrite xor_stream_cancel.
Qed.

(** Both sides run the same cipher. *)
Lemma ctrStream_lookup key b blocks : NewCipher key = Some b → ∀ counter i, (i < blocks * 16)%nat →
  ctrStream b counter blocks !! i = blockEncrypt b (be_bytes 16 (counter + Z.of_nat (i / 16))) !! (i mod 16)%nat.
Proof.
  intros Hb. induction blocks as [|blocks IH]; intros counter i Hi; [lia|].
  change (ctrStream b counter (S blocks)) with (blockEncrypt b (be_bytes 16 counter) ++ ctrStream b (counter + 1) blocks)%list.
  assert (length (blockEncrypt b (be_bytes 16 counter)) = 16%nat) as Hl
    by (rewrite (encrypt_length _ _ _ Hb); [done|apply length_be_bytes]).
  destruct (decide (i < 16)%nat) as [Hlt|Hge].
  - rewrite lookup_app_l by lia. by rewrite Nat.div_small, Nat.mod_small, Z.add_0_r by lia.
  - rewrite lookup_app_r by lia. rewrite Hl, IH by lia.
    replace i with (i - 16 + 1 * 16)%nat at 3 4 by lia. rewrite Nat.div_add, Nat.Div0.mod_add by lia. do 3 f_equal. lia.
Qed.

Lemma phoneCrypt_linkCipher code salt iv data c : length iv = BlockSize →
  phoneCrypt code salt iv data = Some c ↔ linkCipher code salt iv data = Ok c.
Proof.
  intros Hiv. unfold phoneCrypt, linkCipher, linkCodeKey, XORKeyStream. destruct (NewCipher _) as [b|] eqn:Hb; [|done].
  rewrite decide_False by (by intros Hn). cbn [mbind option_bind].
  assert (imap (λ i x, bxor x (nth (i mod 16) (blockEncrypt b (be_bytes 16 (be_value iv + Z.of_nat (i / 16)))) x00)) data =
    xorBytes data (keyStream b iv (length data))) as ->; [|naive_solver].
  apply list_eq. intros i. rewrite list_lookup_imap. unfold xorBytes. rewrite lookup_zip_with.
  destruct (data !! i) as [x|] eqn:Hx; [|done]. cbn [fmap option_fmap option_map mbind option_bind]. apply lookup_lt_Some in Hx.
  assert (i < S (length data / BlockSize) * 16)%nat as Hi
    by (pose proof (Nat.mul_succ_div_gt (length data) BlockSize ltac:(done)); unfold BlockSize in *; lia).
  unfold keyStream. rewrite (ctrStream_lookup _ _ _ Hb) by done. rewrite nth_lookup.
  destruct (blockEncrypt _ _ !! _) eqn:Hl; [done|]. exfalso. apply lookup_ge_None in Hl.
  rewrite (encrypt_length _ _ _ Hb) in Hl by apply length_be_bytes. pose proof (Nat.mod_upper_bound i 16 ltac:(done)).
  unfold BlockSize in Hl. lia.
Qed.

Lemma gcm_opens_with key iv p ad c : gcmEncrypt key iv p ad = Ok c →
  (b ← NewCipher key; gcm ← NewGCM b; Open gcm iv c ad) = Some p ∧ length iv = 12%nat.
Proof.
  unfold gcmEncrypt, Prepare. destruct (NewCipher key) as [b|]; [|done]. destruct (NewGCM b) as [g|] eqn:Hg; [|done]. cbn.
  case_decide; [done|]. intros [= <-]. split; [|done]. rewrite Hg. cbn. by rewrite (proj2 (open_seal b g iv _ ad p Hg) eq_refl).
Qed.
Lemma gcm_opens key iv p ad c : gcmEncrypt key iv p ad = Ok c → gcmDecrypt key iv c ad = Ok p ∧ length iv = 12%nat.
Proof.
  intros Henc. destruct (gcm_opens_with _ _ _ _ _ Henc) as [(b & Hb & (gcm & Hg & Hopen)%bind_Some)%bind_Some Hl].
  split; [|done]. unfold gcmDecrypt, Prepare. rewrite Hb, Hg. cbn. rewrite decide_False by (by intros Hn). by rewrite Hopen.
Qed.
Lemma derive_run key salt info k : derive key salt info = Ok k → k = hkdfRead key salt info 32.
Proof. unfold derive, SHA256. case_decide; [|done]. by intros [= <-]. Qed.
Lemma sharedSecret_run priv pub k : sharedSecret priv pub = Ok k → X25519 priv pub = Some k.
Proof. unfold sharedSecret. destruct (X25519 _ _); [|done]. by intros [= <-]. Qed.

Lemma wrapped_parts (salt iv enc : list byte) : length salt = 32%nat → length iv = BlockSize →
  take 32 (salt ++ iv ++ enc) = salt ∧ take 16 (drop 32 (salt ++ iv ++ enc)) = iv ∧ drop 48 (salt ++ iv ++ enc) = enc.
Proof.
  intros Hs Hi. split; [by rewrite take_app_length'|]. split; [rewrite drop_app_length' by done; by rewrite take_app_length'|].
  rewrite app_assoc, drop_app_length'; [done|]. rewrite length_app, Hs, Hi. done.
Qed.

(** The two computations agree. *)
Lemma finish_agrees keyRandom salt iv codeBytes keyPair ephemeralKey code jid ref ikp salt' iv' ep ip wrapped r salt2 nonce bundle secret :
  generateCompanionEphemeralKey keyRandom salt iv codeBytes = Ok (keyPair, ephemeralKey, code) →
  length salt = 32%nat → length salt' = 32%nat → length iv' = 16%nat → length salt2 = 32%nat →
  validPair ikp → validPair ep → validPair ip →
  phoneWrap code salt' iv' ep = Some wrapped →
  finishBundle (mkLinking jid keyPair code ref) ikp wrapped (Pub ip) r salt2 nonce = Ok (bundle, secret) →
  phoneFinish code ephemeralKey ep ip bundle = Some (Pub ikp, secret).
Proof.
  intros Hgen Hs Hs' Hivl' Hs2 [Hikp Hikl] [Hep Hepl] [Hip Hipl] Hwrap Hfin.
  unfold generateCompanionEphemeralKey in Hgen. destruct (linkCipher _ salt iv _) as [enc| | |] eqn:Henc; try done. injection Hgen as <- <- <-.
  apply linkCipher_twice in Henc as (Hdec & Hel & Hivl). apply phoneCrypt_linkCipher in Hdec; [|done].
  unfold phoneWrap in Hwrap. apply bind_Some in Hwrap as (enc' & Henc' & [= <-]).
  apply phoneCrypt_linkCipher, linkCipher_twice in Henc' as (Hdec' & Hel' & _); [|done]. rewrite app_assoc in Hfin. unfold phoneFinish.
  assert (take 32 (salt ++ iv ++ enc) = salt ∧ take 16 (drop 32 (salt ++ iv ++ enc)) = iv ∧ drop 48 (salt ++ iv ++ enc) = enc) as (-> & -> & ->) by
    (by apply wrapped_parts).
  rewrite Hdec. cbn [mbind option_bind]. unfold finishBundle in Hfin. cbn [linkingCode linkKeyPair Priv] in Hfin. rewrite <- app_assoc in Hfin.
  assert (length enc' = 32%nat) as Hl' by congruence.
  destruct (wrapped_parts salt' iv' enc' Hs' Hivl') as (E1 & E2 & E3). rewrite E1, E2, E3, take_ge, Hdec' in Hfin by lia. cbn [mbind outcome_bind] in Hfin.
  clear E1 E2 E3. inv_ok. apply sharedSecret_run in Hx, Hx2. apply derive_run in Hx0, Hx3. subst.
  assert (∀ a k, Pub k = ScalarBaseMult (Priv k) → X25519 (Priv k) (ScalarBaseMult a) = X25519 a (Pub k)) as Hdh
    by (intros a k Hk; by rewrite Hk, dh).
  change (Pub (NewKeyPair keyRandom)) with (ScalarBaseMult (alter clampLast 31%nat (alter clampFirst 0%nat keyRandom))).
  rewrite (Hdh _ _ Hep), Hx. cbn [mbind option_bind]. rewrite take_app_length' by done.
  destruct (gcmEncrypt _ _ _ _) as [ct| | |] eqn:Hct; try done. injection Hx1 as <-. apply gcm_opens_with in Hct as [Hopen Hn].
  rewrite drop_app_length', take_app_length' by done. rewrite app_assoc, (drop_app_length' (salt2 ++ nonce)%list) by (rewrite length_app, Hs2, Hn; done).
  apply bind_Some in Hopen as (b & Hb & (gcm & Hg & Hopen)%bind_Some).
  rewrite Hb. cbn [mbind option_bind]. rewrite Hg. cbn [mbind option_bind]. rewrite Hopen. cbn [mbind option_bind].
  rewrite take_app_length' by done. rewrite Hikp at 1. rewrite (Hdh _ _ Hip), Hx2. cbn [mbind option_bind].
  rewrite drop_app_length', take_app_length', decide_True by done.
  rewrite (app_assoc (Pub ikp)), (drop_app_length' (Pub ikp ++ Pub ip)%list) by (rewrite length_app, Hikl, Hipl; done). done.
Qed.
End agreement.

(** ** The exchange *)

Section exchange.
Context `{SignalOps} `{ProtoCodec} `{CryptoLaws} `{!NoiseCrypto} `{!NoiseLaws} `{HKDF} `{CurveOps} `{KeyDerivation} `{!DHLaws} {outside : Outside}.
#[local] Existing Instances cliM_ret cliM_bind pairM_ret pairM_bind.

Lemma random_run {F} k s (l : list byte) s' : onClient (random (F := F) k) s = (Ok l, s') → (∃ t, l = take k (randomBytes t k)) ∧ s'.2 = s.2.
Proof. intros [Hr Hs]%onClient_Ok. split; [|done]. injection Hr as <- _. by eexists. Qed.
Lemma codeQuery_run {F} (err : iqError → F) q s resp s' : onClient (query err q) s = (Ok resp, s') → (∃ t, answerIQ t q = Ok resp) ∧ s'.2 = s.2.
Proof.
  intros [Hr Hs]%onClient_Ok. split; [|done]. unfold query, tick, mbind, cliM_bind, stateM_bind, lift in Hr. cbn in Hr. exists (moment s.1).
  by destruct (answerIQ _ _); simplify_eq/=.
Qed.

(** What the phone sends: its wrapped key and its identity key. *)
Definition carries (n : node) (wrapped identityPub : list byte) : Prop := ∃ m, GetOptionalChildByTag n ["link_code_companion_reg"] = (m, true)
  ∧ Content (GetChildByTag m ["link_code_pairing_wrapped_primary_ephemeral_pub"]) = VBytes wrapped ∧ Content (GetChildByTag m ["primary_identity_pub"]) = VBytes identityPub.

Lemma handle_finishes n wrapped identityPub s s' :
  carries n wrapped identityPub → handleCodePairNotification n s = (Ok tt, s') →
  ∃ link r1 r2 r3 bundle secret ref, linkCache s.2 = Some link ∧ (∃ t1 t2 t3, r1 = take 32 (randomBytes t1 32) ∧ r2 = take 32 (randomBytes t2 32) ∧ r3 = take 12 (randomBytes t3 12))
    ∧ finishBundle link (IdentityKey (pDevice s.2)) wrapped identityPub r1 r2 r3 = Ok (bundle, secret) ∧ AdvSecretKey (pDevice s'.2) = secret
    ∧ ∃ t resp, answerIQ t (finishQuery (linkJID link) bundle (Pub (IdentityKey (pDevice s.2))) ref) = Ok resp.
Proof.
  intros (m & Hm & Hw & Hi) Hrun. unfold handleCodePairNotification in Hrun. rewrite Hm in Hrun.
  apply stateM_bind_Ok in Hrun as (p & s1 & Hp & Hrun). injection Hp as <- <-. destruct (linkCache s.2) as [link|] eqn:Hlink; [|done].
  apply stateM_bind_Ok in Hrun as ([] & s2 & Hs2 & Hrun). injection Hs2 as <-. case_decide; [done|]. rewrite Hw, Hi in Hrun. case_decide; [done|].
  apply stateM_bind_Ok in Hrun as (r1 & s3 & [[t1 Hr1] E1]%random_run & Hrun). apply stateM_bind_Ok in Hrun as (r2 & s4 & [[t2 Hr2] E2]%random_run & Hrun).
  apply stateM_bind_Ok in Hrun as (r3 & s5 & [[t3 Hr3] E3]%random_run & Hrun). apply stateM_bind_Ok in Hrun as ([bundle secret] & s6 & [Hf ->]%lift_Ok & Hrun).
  apply stateM_bind_Ok in Hrun as ([] & s7 & Hs7 & Hrun). injection Hs7 as <-. apply stateM_bind_Ok in Hrun as (resp & s8 & [[t Hq] E8]%codeQuery_run & Hrun).
  injection Hrun as <-. exists link, r1, r2, r3, bundle, secret, (VBytes (bytesContent (GetChildByTag m ["link_code_pairing_ref"]))).
  split; [done|]. split; [by eexists _, _, _|]. split; [done|]. split; [|by eexists _, _]. rewrite E8. cbn. by destruct (pDevice s5.2).
Qed.

Lemma PairPhone_remembers phone push clientType name s shown s' :
  PairPhone phone push clientType name s = (Ok shown, s') →
  ∃ jid keyPair ephemeralKey code ref keyRandom salt iv codeBytes,
    (∃ t1 t2 t3 t4, keyRandom = take 32 (randomBytes t1 32) ∧ salt = take 32 (randomBytes t2 32) ∧ iv = take 16 (randomBytes t3 16) ∧ codeBytes = take 5 (randomBytes t4 5))
    ∧ generateCompanionEphemeralKey keyRandom salt iv codeBytes = Ok (keyPair, ephemeralKey, code)
    ∧ linkCache s'.2 = Some (mkLinking jid keyPair code ref) ∧ shown = shownCode code
    ∧ ∃ t resp, answerIQ t (helloQuery jid push ephemeralKey (Pub (NoiseKey (pDevice s.2))) clientType name) = Ok resp.
Proof.
  unfold PairPhone. intros Hrun. apply stateM_bind_Ok in Hrun as (kr & s1 & [[t1 Hr1] E1]%random_run & Hrun).
  apply stateM_bind_Ok in Hrun as (salt & s2 & [[t2 Hr2] E2]%random_run & Hrun). apply stateM_bind_Ok in Hrun as (iv & s3 & [[t3 Hr3] E3]%random_run & Hrun).
  apply stateM_bind_Ok in Hrun as (cb & s4 & [[t4 Hr4] E4]%random_run & Hrun).
  apply stateM_bind_Ok in Hrun as ([[keyPair ephemeralKey] code] & s5 & [Hgen ->]%lift_Ok & Hrun). case_decide; [done|]. destruct (hasPrefix _ _); [done|].
  apply stateM_bind_Ok in Hrun as (p & s6 & Hp & Hrun). injection Hp as <- <-.
  apply stateM_bind_Ok in Hrun as (resp & s7 & [[t Hq] E7]%codeQuery_run & Hrun). destruct (GetOptionalChildByTag _ _) as [refNode []]; [|done].
  destruct (Content refNode) as [| | | | | | | | | |b| |]; try done. apply stateM_bind_Ok in Hrun as ([] & s8 & Hs8 & Hrun). injection Hs8 as <-. injection Hrun as <- <-.
  exists (NewJID (onlyDigits phone) DefaultUserServer), keyPair, ephemeralKey, code, (b2s b), kr, salt, iv, cb.
  split; [by eexists _, _, _, _|]. split; [done|]. split; [done|]. split; [done|]. exists t, resp. by rewrite <- E1, <- E2, <- E3, <- E4.
Qed.

(** C35: pairing with a code makes the two sides agree. Once [PairPhone] showed a
    code, it had asked the server with a wrapped key such that: when the phone, which knows
    the code, that key and its own two key pairs, answers with its wrapped key and its
    identity key, and the client handles the answer, then what the client sends lets the
    phone compute the client's identity key and exactly the secret that the client keeps
    for authenticating the pairing. What the phone computes is written from the primitives
    alone: the key of the code, the counter mode, the keys derived and the order of what
    they are derived from. *)
Theorem code_pairing_agrees phone push clientType name s shown s1
    (Hrandom : ∀ t k, length (randomBytes t k) = k)
    (Hshown : PairPhone phone push clientType name s = (Ok shown, s1)) :
  ∃ jid ephemeralKey code,
    (∃ t resp, answerIQ t (helloQuery jid push ephemeralKey (Pub (NoiseKey (pDevice s.2))) clientType name) = Ok resp)
    ∧ shown = shownCode code ∧ linkingCode <$> linkCache s1.2 = Some code ∧
    ∀ ephemeral identity salt iv wrapped n s2 s3,
      validPair ephemeral → validPair identity → validPair (IdentityKey (pDevice s2.2)) → length salt = 32%nat → length iv = 16%nat → linkCache s2.2 = linkCache s1.2 →
      phoneWrap code salt iv ephemeral = Some wrapped → carries n wrapped (Pub identity) → handleCodePairNotification n s2 = (Ok tt, s3) →
      ∃ bundle ref, (∃ t resp, answerIQ t (finishQuery jid bundle (Pub (IdentityKey (pDevice s2.2))) ref) = Ok resp)
        ∧ phoneFinish code ephemeralKey ephemeral identity bundle = Some (Pub (IdentityKey (pDevice s2.2)), AdvSecretKey (pDevice s3.2)).
Proof.
  assert (∀ t k, length (take k (randomBytes t k)) = k) as Htake by (intros; rewrite length_take, Hrandom; lia).
  apply PairPhone_remembers in Hshown as (jid & keyPair & ephemeralKey & code & ref & kr & salt & iv & cb & (t1 & t2 & t3 & t4 & -> & -> & -> & ->) & Hgen & Hlink & -> & Hq).
  exists jid, ephemeralKey, code. split; [exact Hq|]. split; [done|]. split; [by rewrite Hlink|].
  intros ep ip salt' iv' wrapped n s2 s3 Hep Hip Hown Hsalt Hivl Hsame Hwrap Hcar Hrun.
  destruct (handle_finishes _ _ _ _ _ Hcar Hrun) as (link & r1 & r2 & r3 & bundle & secret & ref2 & Hl & (u1 & u2 & u3 & -> & -> & ->) & Hfin & <- & Hq2).
  rewrite Hsame, Hlink in Hl. injection Hl as <-. exists bundle, ref2. split; [exact Hq2|]. by eapply finish_agrees; [exact Hgen|apply Htake|exact Hsalt|exact Hivl|apply Htake|..|exact Hfin].
Qed.
End exchange.

(** *** A run *)

#[local] Existing Instances toyCrypto toyCryptoLaws toyNoise toyNoiseLaws toyHKDF toyCodec toySignal toyProto.
#[local] Instance dhCurve : CurveOps := {| ScalarBaseMult k := k; CalculateSignature _ m := m |}.
Lemma xorBytes_comm (a b : list byte) : xorBytes a b = xorBytes b a.
Proof. unfold xorBytes. revert b. induction a as [|x a IH]; intros [|y b]; try done. cbn. rewrite IH. unfold bxor. by rewrite Z.lxor_comm. Qed.
#[local] Instance dhLaws : DHLaws.
Proof. intros a b. cbn. by rewrite xorBytes_comm. Qed.
#[local] Instance toyDerivation : KeyDerivation := λ password salt _ len, resize (Z.to_nat len) x00 (password ++ salt)%list.

Definition toyAnswer : node := mkNode "iq" [] (VNodes [mkNode "link_code_companion_reg" [] (VNodes [mkNode "link_code_pairing_ref" [] (VBytes [x72])])]).
#[local] Instance pairOutside : Outside := {|
  cfg := mkConfig false false true false false false false false false false EmptyJID EmptyJID 5 [] (mkPreKey (mkKeyPair [] []) 1 None); hasChatSettings := false; sendsReportingTokens := false; synchronousNames := true; account := None; shadowRelay := None;
  clock n := Z.of_nat n; randomBytes t n := replicate n (z2b (Z.of_nat t + 2)); requestIDs _ _ := "id"; answerIQ _ _ := Ok toyAnswer;
  written _ _ := true; waitFor _ _ := WaitCtxDone; reconnection _ := mkWorld false WaitCtxDone false false false WaitCtxDone;
  contextEnded _ := false; activeReceipts _ := false; handlers := []; GetMessageForRetry _ _ _ := None; PreRetryCallback := None;
  onSqlite := true; nativeBatches := true; lidChoices := toyEnv; newestToken := head; firstSender m := fst <$> head (map_to_list m);
  firstGroup m := fst <$> head (map_to_list m); firstDevices m := fst <$> head (map_to_list m);
  firstRecreated m := fst <$> head (map_to_list m); anyContact m := fst <$> head (map_to_list m); scanContacts := map_to_list;
  deduplicated _ _ := id; contactOrder := id; firstSecret := head; firstOutgoing := head; scanSessions := map_to_list; sortedFields := id;
  downloadHistory _ _ := None; zlibRead := Some; storesHistory := true; deletesHistoryMedia := true; recoverAppState _ _ _ := true
|}.

Definition codePairing : pairing := mkPairing (NewDevice (mkRandom (replicate 32 x01) (replicate 32 x02) (replicate 32 x03) 7 (replicate 32 x06))) (mkDatabase ∅ []) false None 0 false false.
Definition toyShown : outcome codePairError string * (cli * pairing) := PairPhone "+1 555 123 4567" true PairClientChrome "Chrome (Linux)" (toyCli, codePairing).
Definition phoneKey (b : byte) : KeyPair := NewKeyPairFromPrivateKey (replicate 32 b).
Definition toyCode : string := match linkCache toyShown.2.2 with Some l => linkingCode l | None => "" end.
Definition toyWrapped : list byte := match phoneWrap toyCode (replicate 32 x0a) (replicate 16 x0b) (phoneKey x0c) with Some w => w | None => [] end.
Definition toyPhoneNode : node := mkNode "notification" [] (VNodes [mkNode "link_code_companion_reg" []
  (VNodes [mkNode "link_code_pairing_ref" [] (VBytes [x72]); mkNode "link_code_pairing_wrapped_primary_ephemeral_pub" [] (VBytes toyWrapped);
           mkNode "primary_identity_pub" [] (VBytes (Pub (phoneKey x0d)))])]).
Definition toyFinished : outcome codePairError unit * (cli * pairing) := handleCodePairNotification toyPhoneNode toyShown.2.

Lemma code_pairing_agrees_witness :
  toyShown.1 = Ok (shownCode toyCode) ∧ toyFinished.1 = Ok tt ∧
  ∃ ephemeralKey bundle, phoneFinish toyCode ephemeralKey (phoneKey x0c) (phoneKey x0d) bundle = Some (Pub (IdentityKey (pDevice codePairing)), AdvSecretKey (pDevice toyFinished.2.2)).
Proof.
  assert (toyShown.1 = Ok (shownCode toyCode)) as Hok by (vm_compute; reflexivity). assert (toyFinished.1 = Ok tt) as Hfin by (vm_compute; reflexivity).
  split; [exact Hok|]. split; [exact Hfin|].
  destruct (code_pairing_agrees "+1 555 123 4567" true PairClientChrome "Chrome (Linux)" (toyCli, codePairing) (shownCode toyCode) toyShown.2
    ltac:(intros t k; exact (length_replicate k _)) ltac:(rewrite <- Hok; apply surjective_pairing)) as (jid & ephemeralKey & code & _ & _ & Hcode & Hth).
  assert (linkingCode <$> linkCache toyShown.2.2 = Some toyCode) as Hc by (vm_compute; reflexivity). rewrite Hc in Hcode. injection Hcode as <-.
  destruct (Hth (phoneKey x0c) (phoneKey x0d) (replicate 32 x0a) (replicate 16 x0b) toyWrapped toyPhoneNode toyShown.2 toyFinished.2) as (bundle & ref & _ & Hph);
    [by split|by split|by split|reflexivity|reflexivity|reflexivity|vm_compute; reflexivity| |rewrite <- Hfin; apply surjective_pairing|].
  { eexists. split; [reflexivity|]. split; reflexivity. }
  exists ephemeralKey, bundle. rewrite Hph. vm_compute. reflexivity.
Defined.
