(* ===== verification/PairPasskey.v ===== *)
(** Pairing with a passkey (src/pair-passkey.go). *)
From Stdlib Require Import ZArith Lia.
From Stdlib Require Import Strings.Byte.
From stdpp Require Import prelude gmap strings list fin_maps.
From S2P Require Import Prelude Strconv Jid Node Attrs Cbc LTHash Noise Handshake Sql SignalStore SessionCache Requests PreKeys MessageInfo Receipts Proto Client NodeEvents Events Cli DeviceStore Pair PairCode.

#[local] Open Scope string_scope.

(** The JSON of WebAuthn, with the identifier of a credential. *)
Class WebAuthn := {
  parsePublicKey : list byte → option proto;
  marshalResponse : proto → option (list byte);
  RawID : proto → list byte
}.

Record passkeyLinkingCache := mkPasskeyLink { pkKeyPair : KeyPair; companionNonce : list byte; pkPairingRef : string; deviceType : Z; encryptionKey : option (list byte) }.
Record passkeyState := mkPasskey { passkeyLink : option passkeyLinkingCache; handoffKey : option (list byte * Z); skipHandoffUX : bool }.

Inductive passkeyError :=
| OptionsMissing | OptionsContent | OptionsJSON | PasskeyIQ (e : iqError) | ResponseMarshal | RefMissing | RefContent | ProtoMarshal
| NoLinkingCache | NoEncryptionKey | IdentityMissing | IdentityContent | IdentityProto | PublicKeyLength | NonceLength | PasskeySecret | PasskeyCipher (e : noiseError).

Section parse.
Context `{WebAuthn} `{ProtoCodec}.

Definition parsePasskeyNotification (n : node) : outcome passkeyError proto :=
  match GetOptionalChildByTag n ["passkey_request_options"] with
  | (_, false) => Err OptionsMissing
  | (opts, true) =>
      match Content opts with
      | VBytes content => match parsePublicKey content with Some k => Ok k | None => Err OptionsJSON end
      | _ => Err OptionsContent
      end
  end.

(** The phone's ephemeral public key and nonce. *)
Definition parsePasskeyContinuationNotification (n : node) : outcome passkeyError (list byte * list byte) :=
  match GetOptionalChildByTag n ["primary_ephemeral_identity"] with
  | (_, false) => Err IdentityMissing
  | (opts, true) =>
      match Content opts with
      | VBytes content =>
          match Unmarshal "waCompanionReg.PrimaryEphemeralIdentity" content with
          | None => Err IdentityProto
          | Some m =>
              let publicKey := asBytes (field "PublicKey" m) in
              let nonce := asBytes (field "Nonce" m) in
              if decide (length publicKey ≠ 32%nat) then Err PublicKeyLength
              else if decide (length nonce ≠ 32%nat) then Err NonceLength
              else Ok (publicKey, nonce)
          end
      | _ => Err IdentityContent
      end
  end.
End parse.

(** ** What both sides compute *)

Section secrets.
Context `{NoiseCrypto} `{HKDF}.

Definition deriveKey (secret salt info : list byte) : outcome passkeyError (list byte) := map_err (Empty_set_rect _) (SHA256 secret salt info 32).
Definition handoffSecret (advSecretKey : list byte) : outcome passkeyError (list byte) := deriveKey advSecretKey [] (s2b "shortcake-passkey-handoff-v1").
Definition handoffValid (now : Z) (k : option (list byte * Z)) : bool := match k with Some (_, ts) => (now - ts <? 300000000000)%Z | None => false end.
Definition commitmentOf (ident nonce : list byte) : list byte := sha256 (ident ++ nonce).
Definition pairingKey (shared : list byte) (device : Z) (ref : string) : outcome passkeyError (list byte) :=
  deriveKey shared (s2b ("Companion Pairing " +:+ FormatInt device +:+ " with ref " +:+ ref)) (s2b "Pairing Information Encryption Key").
(** The code that both sides show. *)
Definition confirmationCode (nonce publicKey primaryNonce : list byte) : string :=
  encodeLinkingCode (xorBytes (take 5 primaryNonce) (take 5 (sha256 (nonce ++ publicKey)))).
End secrets.

(** ** The client *)

Section client.
Context `{SignalOps} `{ProtoCodec} `{NoiseCrypto} `{HKDF} `{CurveOps} `{PairOps} `{WebAuthn} {outside : Outside}.
#[local] Existing Instances cliM_ret cliM_bind.

Definition passkeyM (F A : Type) : Type := stateM ((cli * pairing) * passkeyState) F A.
#[local] Instance passkeyM_ret {F} : MRet (passkeyM F) := λ A, stateM_ret A.
#[local] Instance passkeyM_bind {F} : MBind (passkeyM F) := λ A B, stateM_bind A B.
Definition onPair {F A} (m : pairM F A) : passkeyM F A := zoom fst (λ s t, (s, t.2)) id m.
Definition onCli {F A} (m : cliM F A) : passkeyM F A := onPair (onClient m).
Definition thePasskey {F} : passkeyM F passkeyState := s ← get; mret s.2.
Definition theDevice {F} : passkeyM F storeDevice := s ← get; mret (pDevice s.1.2).
Definition modifyPasskey {F} (f : passkeyState → passkeyState) : passkeyM F unit := modify (λ s, (s.1, f s.2)).
Definition setPasskeyLink v (k : passkeyState) := mkPasskey v (handoffKey k) (skipHandoffUX k).
Definition setHandoff v (k : passkeyState) := mkPasskey (passkeyLink k) v (skipHandoffUX k).
Definition setSkip v (k : passkeyState) := mkPasskey (passkeyLink k) (handoffKey k) v.

Definition mdQuery (iqType : string) (content : node) : infoQuery := mkInfoQuery "md" iqType ServerJID EmptyJID "" "" (VNodes [content]).
Definition askMD (iqType : string) (content : node) : passkeyM passkeyError node := onCli (query PasskeyIQ (mdQuery iqType content)).

Definition getPasskeyRequestOptions : passkeyM passkeyError proto :=
  resp ← askMD "get" (mkNode "passkey_request_options" [] VNil); lift (parsePasskeyNotification resp).
Definition getCompanionRef : passkeyM passkeyError string :=
  resp ← askMD "get" (mkNode "ref" [] VNil);
  match GetOptionalChildByTag resp ["ref"] with
  | (_, false) => throw RefMissing
  | (ref, true) => match Content ref with VBytes b => mret (b2s b) | _ => throw RefContent end
  end.

(** The old secret proves later that the code shown before was this client's; a new one
    replaces it. *)
Definition requestPasskey (publicKey : proto) : passkeyM passkeyError unit :=
  d ← theDevice;
  secret ← lift (handoffSecret (AdvSecretKey d));
  t ← onCli now;
  _ ← modifyPasskey (setHandoff (Some (secret, t)));
  fresh ← onCli (random 32);
  _ ← onPair (modifyPairing (λ p, setDevice (setAdvSecret fresh (pDevice p)) p));
  _ ← onCli (dispatch (NodeEvent (PairPasskeyRequest publicKey)));
  mret tt.
Definition handlePasskeyNotification (n : node) : passkeyM passkeyError unit :=
  if decide ((attrJID "from" (AttrGetter_of n)).1 ≠ ServerJID) then mret tt
  else
    match parsePasskeyNotification n with
    | Ok publicKey => requestPasskey publicKey
    | _ =>
        options ← Client.try (G := passkeyError) getPasskeyRequestOptions;
        match options with
        | inl _ => _ ← onCli (dispatch (NodeEvent (PairPasskeyError false))); mret tt
        | inr publicKey => requestPasskey publicKey
        end
    end.

Definition prologueNode (passkeyResp : proto) (marshaled payload : list byte) (proof : option (list byte)) : node :=
  mkNode "passkey_prologue" []
    (VNodes ([mkNode "credential_id" [] (VBytes (RawID passkeyResp)); mkNode "webauthn_assertion" [] (VBytes marshaled); mkNode "prologue_payload" [] (VBytes payload)]
             ++ match proof with Some p => [mkNode "pairing_handoff_proof" [] (VBytes p)] | None => [] end)).
Definition marshal (m : proto) : passkeyM passkeyError (list byte) := match Marshal m with Some b => mret b | None => throw ProtoMarshal end.

Definition ephemeralIdentity (pub : list byte) (ref : string) : proto := PMsg [("PublicKey", PBytes pub); ("DeviceType", PInt PlatformType); ("Ref", PString ref)].
Definition SendPasskeyResponse (passkeyResp : proto) : passkeyM passkeyError unit :=
  match marshalResponse passkeyResp with
  | None => throw ResponseMarshal
  | Some marshaled =>
      ref ← getCompanionRef;
      keyRandom ← onCli (random 32);
      nonce ← onCli (random 32);
      let pair := NewKeyPair keyRandom in
      ident ← marshal (ephemeralIdentity (Pub pair) ref);
      payload ← marshal (PMsg [("CompanionEphemeralIdentity", PBytes ident); ("Commitment", PMsg [("Hash", PBytes (commitmentOf ident nonce))])]);
      _ ← modifyPasskey (setPasskeyLink (Some (mkPasskeyLink pair nonce ref PlatformType None)));
      k ← thePasskey;
      t ← onCli now;
      let proof := if handoffValid t (handoffKey k) then (λ h, hmacSha256 h.1 payload) <$> handoffKey k else None in
      _ ← modifyPasskey (setSkip (bool_decide (is_Some proof)));
      _ ← askMD "set" (prologueNode passkeyResp marshaled payload proof);
      modifyPasskey (setHandoff None)
  end.

(** Go sets the key in the cache itself. *)
Definition handlePasskeyContinuationNotification (n : node) : passkeyM passkeyError unit :=
  k ← thePasskey;
  match passkeyLink k with
  | None => throw NoLinkingCache
  | Some link =>
      '(publicKey, primaryNonce) ← lift (parsePasskeyContinuationNotification n);
      match X25519 (Priv (pkKeyPair link)) publicKey with
      | None => throw PasskeySecret
      | Some shared =>
          _ ← askMD "set" (mkNode "companion_nonce" [] (VBytes (companionNonce link)));
          key ← lift (pairingKey shared (deviceType link) (pkPairingRef link));
          _ ← modifyPasskey (setPasskeyLink (Some (mkPasskeyLink (pkKeyPair link) (companionNonce link) (pkPairingRef link) (deviceType link) (Some key))));
          k ← thePasskey;
          _ ← onCli (dispatch (NodeEvent (PairPasskeyConfirmation (shownCode (confirmationCode (companionNonce link) publicKey primaryNonce)) (skipHandoffUX k))));
          mret tt
      end
  end.
Definition tryHandlePasskeyContinuationNotification {F} (n : node) : passkeyM F unit :=
  if decide ((attrJID "from" (AttrGetter_of n)).1 ≠ ServerJID) then mret tt
  else
    r ← Client.try (handlePasskeyContinuationNotification n);
    match r with inl _ => _ ← onCli (dispatch (NodeEvent (PairPasskeyError true))); mret tt | inr _ => mret tt end.

Definition pairingRequest (d : storeDevice) : proto :=
  PMsg [("CompanionPublicKey", PBytes (Pub (NoiseKey d))); ("CompanionIdentityKey", PBytes (Pub (IdentityKey d))); ("AdvSecret", PBytes (AdvSecretKey d))].
Definition SendPasskeyConfirmation : passkeyM passkeyError unit :=
  k ← thePasskey;
  match passkeyLink k with
  | None => throw NoLinkingCache
  | Some link =>
      match encryptionKey link with
      | None => throw NoEncryptionKey
      | Some key =>
          d ← theDevice;
          req ← marshal (pairingRequest d);
          iv ← onCli (random 12);
          encrypted ← lift (map_err PasskeyCipher (gcmEncrypt key iv req []));
          wrapped ← marshal (PMsg [("EncryptedPayload", PBytes encrypted); ("IV", PBytes iv)]);
          _ ← askMD "set" (mkNode "encrypted_pairing_request" [] (VBytes wrapped));
          modifyPasskey (setPasskeyLink None)
      end
  end.
End client.

(** * Properties *)

Section properties.
Context `{SignalOps} `{ProtoCodec} `{!ProtoCodecLaws} `{NoiseCrypto} `{!NoiseLaws} `{HKDF} `{CurveOps} `{!DHLaws} `{PairOps} `{WebAuthn} {outside : Outside}.
#[local] Existing Instances cliM_ret cliM_bind passkeyM_ret passkeyM_bind.

Lemma onCli_Ok {F A} (m : cliM F A) s a s' : onCli m s = (Ok a, s') → m s.1.1 = (Ok a, s'.1.1) ∧ s'.1.2 = s.1.2 ∧ s'.2 = s.2.
Proof.
  unfold onCli, onPair, zoom. intros Hr. destruct (onClient m s.1) as [[x|e| |] c] eqn:Hm; try done. injection Hr as <- <-.
  apply onClient_Ok in Hm as [Hm Hp]. split; [exact Hm|]. split; [exact Hp|done].
Qed.
Lemma askMD_Ok iqType content s resp s' : askMD iqType content s = (Ok resp, s') →
  (∃ t, answerIQ t (mdQuery iqType content) = Ok resp) ∧ s'.1.2 = s.1.2 ∧ s'.2 = s.2.
Proof.
  intros (Hq & H1' & H2')%onCli_Ok. split; [|done]. exists (moment s.1.1). unfold query, tick, mbind, cliM_bind, stateM_bind, lift in Hq. cbn in Hq.
  by destruct (answerIQ _ _); simplify_eq/=.
Qed.
Lemma marshal_Ok m s b s' : marshal m s = (Ok b, s') → Marshal m = Some b ∧ s' = s.
Proof. unfold marshal. destruct (Marshal m); by intros [= <- <-]. Qed.

(** The phone's key pair, and what the phone computes from the prologue (the companion's
    public key, platform and reference) give the same key of the pairing request. *)
Lemma continuation_agrees n publicKey primaryNonce phonePriv s s' link :
  passkeyLink s.2 = Some link → Pub (pkKeyPair link) = ScalarBaseMult (Priv (pkKeyPair link)) →
  parsePasskeyContinuationNotification n = Ok (publicKey, primaryNonce) → publicKey = ScalarBaseMult phonePriv →
  handlePasskeyContinuationNotification n s = (Ok tt, s') →
  ∃ shared key link', X25519 phonePriv (Pub (pkKeyPair link)) = Some shared ∧ pairingKey shared (deviceType link) (pkPairingRef link) = Ok key
    ∧ passkeyLink s'.2 = Some link' ∧ encryptionKey link' = Some key.
Proof.
  intros Hlink Hpair Hparse -> Hrun. unfold handlePasskeyContinuationNotification in Hrun. apply stateM_bind_Ok in Hrun as (k & s1 & Hk & Hrun).
  injection Hk as <- <-. rewrite Hlink in Hrun. apply stateM_bind_Ok in Hrun as ([pk pn] & s2 & [Hp ->]%lift_Ok & Hrun). rewrite Hparse in Hp. injection Hp as <- <-.
  destruct (X25519 _ _) as [shared|] eqn:Hx; [|done]. apply stateM_bind_Ok in Hrun as (resp & s3 & (_ & _ & E3)%askMD_Ok & Hrun).
  apply stateM_bind_Ok in Hrun as (key & s4 & [Hkey ->]%lift_Ok & Hrun). apply stateM_bind_Ok in Hrun as ([] & s5 & Hs5 & Hrun). injection Hs5 as <-.
  apply stateM_bind_Ok in Hrun as (k & s6 & Hk & Hrun). injection Hk as <- <-.
  apply stateM_bind_Ok in Hrun as (b & s7 & (_ & _ & E7)%onCli_Ok & Hrun). injection Hrun as <-.
  exists shared, key. eexists. split; [by rewrite Hpair, dh|]. split; [exact Hkey|]. rewrite E7. split; [reflexivity|done].
Qed.

(** How the phone opens the pairing request. *)
Definition openRequest (key wrapped : list byte) : option proto :=
  m ← Unmarshal "waCompanionReg.EncryptedPairingRequest" wrapped;
  match gcmDecrypt key (asBytes (field "IV" m)) (asBytes (field "EncryptedPayload" m)) [] with
  | Ok req => Unmarshal "waCompanionReg.PairingRequest" req
  | _ => None
  end.
Lemma confirmation_opens s s' : SendPasskeyConfirmation s = (Ok tt, s') →
  ∃ link key wrapped t resp, passkeyLink s.2 = Some link ∧ encryptionKey link = Some key ∧ passkeyLink s'.2 = None
    ∧ answerIQ t (mdQuery "set" (mkNode "encrypted_pairing_request" [] (VBytes wrapped))) = Ok resp
    ∧ openRequest key wrapped = Some (pairingRequest (pDevice s.1.2)).
Proof.
  unfold SendPasskeyConfirmation. intros Hrun. apply stateM_bind_Ok in Hrun as (k & s1 & Hk & Hrun). injection Hk as <- <-.
  destruct (passkeyLink s.2) as [link|] eqn:Hlink; [|done]. destruct (encryptionKey link) as [key|] eqn:Hkey; [|done].
  apply stateM_bind_Ok in Hrun as (d & s2 & Hd & Hrun). injection Hd as <- <-. apply stateM_bind_Ok in Hrun as (req & s3 & [Hreq ->]%marshal_Ok & Hrun).
  apply stateM_bind_Ok in Hrun as (iv & s4 & _ & Hrun). apply stateM_bind_Ok in Hrun as (encrypted & s5 & [He ->]%lift_Ok & Hrun).
  apply stateM_bind_Ok in Hrun as (wrapped & s6 & [Hw ->]%marshal_Ok & Hrun). apply stateM_bind_Ok in Hrun as (resp & s7 & ([t Hq] & _ & _)%askMD_Ok & Hrun).
  injection Hrun as <-. exists link, key, wrapped, t, resp. split; [done|]. split; [done|]. split; [done|]. split; [exact Hq|].
  destruct (gcmEncrypt key iv req []) as [ct| | |] eqn:Hct; try done. injection He as <-. apply gcm_opens in Hct as [Hopen _].
  unfold openRequest. rewrite (unmarshal_marshal _ _ _ Hw).
  change (match gcmDecrypt key iv ct [] with Ok req => Unmarshal "waCompanionReg.PairingRequest" req | _ => None end = Some (pairingRequest (pDevice s.1.2))).
  rewrite Hopen. by apply unmarshal_marshal.
Qed.
End properties.
