(* ===== verification/Newsletter.v ===== *)
(** Queries that are answered with JSON, and the calls of channels that use them
    (src/newsletter.go, src/newsletter_delete.go, src/mex, src/types/newsletter.go). *)
From Stdlib Require Import ZArith Lia.
From Stdlib Require Import Strings.Byte.
From stdpp Require Import prelude gmap strings list fin_maps.
From S2P Require Import Prelude Strconv Jid Node Attrs Cbc LTHash Noise Handshake PreKeys SignalStore SessionCache LidMap LidMapSpec Requests MessageInfo MessageType Contacts Proto NodeEvents Json DeviceStore Client Events Devices Media TcToken Groups Cli Users Business Send Pair.

Import DeviceStore.ClientPayload.

#[local] Open Scope string_scope.

(** ** Identifiers of queries *)

Definition queryFetchNewsletter : string := "6563316087068696".
Definition queryFetchNewsletterDehydrated : string := "7272540469429201".
Definition queryRecommendedNewsletters : string := "7263823273662354".
Definition queryNewslettersDirectory : string := "6190824427689257".
Definition querySubscribedNewsletters : string := "6388546374527196".
Definition queryNewsletterSubscribers : string := "9800646650009898".
Definition mutationMuteNewsletter : string := "6274038279359549".
Definition mutationUnmuteNewsletter : string := "6068417879924485".
Definition mutationUpdateNewsletter : string := "7150902998257522".
Definition mutationCreateNewsletter : string := "6234210096708695".
Definition mutationUnfollowNewsletter : string := "6392786840836363".
Definition mutationFollowNewsletter : string := "9926858900719341".
Definition mutationDeleteNewsletter : string := "30062808666639665".
Definition queryFetchNewsletterDesktop : string := "9779843322044422".
Definition queryRecommendedNewslettersDesktop : string := "27256776790637714".
Definition querySubscribedNewslettersDesktop : string := "8621797084555037".
Definition queryNewsletterSubscribersDesktop : string := "25403502652570342".
Definition mutationMuteNewsletterDesktop : string := "5971669009605755".
Definition mutationUnmuteNewsletterDesktop : string := "6104029483058502".
Definition mutationUpdateNewsletterDesktop : string := "7839742399440946".
Definition mutationCreateNewsletterDesktop : string := "27527996220149684".
Definition mutationUnfollowNewsletterDesktop : string := "8782612271820087".
Definition mutationFollowNewsletterDesktop : string := "8621797084555037".

Definition desktopIDs : list (string * string) := [
  (queryFetchNewsletter, queryFetchNewsletterDesktop); (queryRecommendedNewsletters, queryRecommendedNewslettersDesktop);
  (querySubscribedNewsletters, querySubscribedNewslettersDesktop); (queryNewsletterSubscribers, queryNewsletterSubscribersDesktop);
  (mutationMuteNewsletter, mutationMuteNewsletterDesktop); (mutationUnmuteNewsletter, mutationUnmuteNewsletterDesktop);
  (mutationUpdateNewsletter, mutationUpdateNewsletterDesktop); (mutationCreateNewsletter, mutationCreateNewsletterDesktop);
  (mutationUnfollowNewsletter, mutationUnfollowNewsletterDesktop); (mutationFollowNewsletter, mutationFollowNewsletterDesktop);
  (mutationDeleteNewsletter, "")].
(** The platform is compared with a pointer that was just made, which is never the same one:
    only a payload without web information has the other identifiers. *)
Definition convertQueryID (payload : proto) (queryID : string) : string :=
  if has "WebInfo" payload then queryID else default queryID (assoc queryID desktopIDs).

(** src/mex: the operations that are known by name. *)
Inductive operationKind := KindQuery | KindMutation.
Record Operation := mkOperation { operationName : string; DocumentID : string; operationKindOf : operationKind; ResponseDiscriminator : string }.
Definition operations : list Operation := [
  mkOperation "BizCreateOrder" "26486627094287046" KindMutation "xwa_checkout_place_order";
  mkOperation "BizQueryOrder" "26593811266898374" KindQuery "xwa_checkout_get_order_info";
  mkOperation "DeleteNewsletter" "30062808666639665" KindMutation "xwa2_newsletter_delete_v2";
  mkOperation "QueryCatalog" "30445081048424116" KindQuery "xwa_product_catalog_get_product_catalog";
  mkOperation "QueryCatalogProduct" "9660926520672123" KindQuery "xwa_product_catalog_get_product";
  mkOperation "QueryProductCollections" "9430970660362540" KindQuery "xwa_product_catalog_get_collections";
  mkOperation "QueryProductListCatalog" "30125049463760630" KindQuery "xwa_product_catalog_get_product_list";
  mkOperation "QueryProductSingleCollection" "9546992575408789" KindQuery "xwa_product_catalog_get_single_collection"].
Definition Lookup (name : string) : option Operation := List.find (λ o, bool_decide (operationName o = name)) operations.

(** ** Types of answers

    Times are read by go.mau.fi/util/jsontime. *)
Class JsonTime := { UnixString : json → option gval; UnixMicroString : json → option gval; zeroTime : gval }.

Section types.
Context `{GoText} `{JsonTime}.
Definition TLower : ty := TText (GStr "") (λ s, Some (GStr (ToLower s))).
Definition TJID : ty := TText (GJID EmptyJID) (λ s, match UnmarshalText EmptyJID (s2b s) with (j, None) => Some (GJID j) | _ => None end).
Definition ProfilePictureInfo : ty := TStruct [("url", TString); ("id", TString); ("type", TString); ("direct_path", TString); ("hash", TBytes)].
Definition NewsletterText : ty := TStruct [("text", TString); ("id", TString); ("update_time", TJson zeroTime UnixMicroString)].
Definition NewsletterThreadMetadata : ty := TStruct [
  ("creation_time", TJson zeroTime UnixString); ("invite", TString); ("name", NewsletterText); ("description", NewsletterText);
  ("subscribers_count", TQuotedInt); ("verification", TLower); ("picture", TPtr ProfilePictureInfo); ("preview", ProfilePictureInfo);
  ("settings", TStruct [("reaction_codes", TStruct [("value", TString)])])].
Definition NewsletterViewerMetadata : ty := TStruct [("mute", TLower); ("role", TLower)].
Definition NewsletterMetadata : ty := TStruct [
  ("id", TJID); ("state", TStruct [("type", TLower)]); ("thread_metadata", NewsletterThreadMetadata); ("viewer_metadata", TPtr NewsletterViewerMetadata)].
End types.
Definition GraphQLError : ty := TStruct [
  ("extensions", TStruct [("error_code", TInt); ("is_retryable", TBool); ("severity", TString)]); ("message", TString); ("path", TSlice TString)].
Definition GraphQLResponse : ty := TStruct [("data", TRaw); ("errors", TSlice GraphQLError)].

Section mex.
Context `{GoText} `{JsonTime} `{SignalOps} `{ProtoCodec} `{Crypto} `{CurveOps} `{Outside}.
#[local] Existing Instances cliM_ret cliM_bind.
(** The device and the payloads of the package, for [GetClientPayload]. *)
Context (md5 : list byte → list byte) (g : payloads) (d : storeDevice).
Abbreviation mexM := (cliM bizError).

(** A raw message that was not set decodes to an error. *)
Definition UnmarshalData (t : ty) (data : option json) : gval * bool := match data with Some j => UnmarshalRaw t j | None => (zero t, false) end.

(** The data, which may come with the errors of the server. *)
Definition mexResult (content : list byte) : outcome bizError (option json * option bizError) :=
  match UnmarshalAs GraphQLResponse content with
  | (_, false) => Err (Invalid "graphql response")
  | (v, true) =>
      let data := match fieldOf "data" v with GRaw j => j | _ => None end in
      match sliceIn "errors" v with [] => Ok (data, None) | errors => Ok (data, Some (MexErrors errors)) end
  end.
Definition ClientPayload_UserAgent_MACOS : Z := 24.
Definition sendMexIQ (queryID : string) (variables : json) : mexM (option json * option bizError) :=
  if decide (asInt (path ["UserAgent"; "Platform"] (Some (BaseClientPayload g))) = ClientPayload_UserAgent_MACOS) then throw (Invalid "argo")
  else
    clientPayload ← lift (map_err (Empty_set_rect (λ _, bizError)) (GetClientPayload md5 g d));
    let queryID := convertQueryID clientPayload queryID in
    if decide (queryID = "") then throw (Invalid "MEX query of this platform")
    else
      match printJSON (JObj [("variables", variables)]) with
      | None => throw (Invalid "JSON")
      | Some payload =>
          resp ← query BizIQ (mkInfoQuery "w:mex" "get" ServerJID EmptyJID "" "" (VNodes [mkNode "query" [("query_id", VString queryID)] (VBytes payload)]));
          result ← lift (childIn resp "result" "mex response");
          match Content result with
          | VBytes content =>
              if decide ((OptionalString "format" (AttrGetter_of result)).1 = "argo") then throw (Invalid "argo")
              else lift (mexResult content)
          | _ => throw (Invalid "content of mex response")
          end
      end.
(** For callers that want the data only without an error. *)
Definition mexData (queryID : string) (variables : json) : mexM (option json) :=
  '(data, err) ← sendMexIQ queryID variables;
  match err with Some e => throw e | None => mret data end.

(** ** Channels *)

Definition strings (l : list (string * string)) : json := JObj ((λ m, (m.1, JStr m.2)) <$> l).

(** What was read comes with the error, the server's before that of reading. *)
Definition getNewsletterInfo (input : json) (fetchViewerMeta : bool) : mexM (option gval * option bizError) :=
  r ← Client.try (sendMexIQ queryFetchNewsletter (JObj
    [("fetch_creation_time", JBool true); ("fetch_full_image", JBool true); ("fetch_viewer_metadata", JBool fetchViewerMeta); ("input", input)]));
  let '(data, err) := match r with inr (data, err) => (data, err) | inl e => (None, Some e) end in
  let t := TStruct [("xwa2_newsletter", TPtr NewsletterMetadata)] in
  match data with
  | None => mret (None, err)
  | Some j =>
      let '(v, ok) := UnmarshalRaw t j in
      mret (follow ["xwa2_newsletter"] v, match err with Some e => Some e | None => if (ok : bool) then None else Some (Invalid "newsletter") end)
  end.
Definition GetNewsletterInfo (jid : JID) : mexM (option gval * option bizError) :=
  getNewsletterInfo (strings [("key", JIDString jid); ("type", "JID")]) true.
Definition NewsletterLinkPrefix : string := "https://whatsapp.com/channel/".
Definition GetNewsletterInfoWithInvite (key : string) : mexM (option gval * option bizError) :=
  getNewsletterInfo (strings [("key", stripURLPrefix key NewsletterLinkPrefix); ("type", "INVITE")]) false.
Definition GetSubscribedNewsletters : mexM (list gval * option bizError) :=
  r ← Client.try (sendMexIQ querySubscribedNewsletters (JObj []));
  let '(data, err) := match r with inr (data, err) => (data, err) | inl e => (None, Some e) end in
  match data with
  | None => mret ([], err)
  | Some j =>
      let '(v, ok) := UnmarshalRaw (TStruct [("xwa2_newsletter_subscribed", TSlice (TPtr NewsletterMetadata))]) j in
      mret (sliceIn "xwa2_newsletter_subscribed" v, match err with Some e => Some e | None => if (ok : bool) then None else Some (Invalid "newsletters") end)
  end.

(** [picture]: in base64, as encoding/json writes bytes. *)
Definition newsletterInput (name description : string) (picture : list byte) : json :=
  strings ([("name", name)] ++ (if decide (description = "") then [] else [("description", description)])
           ++ match picture with [] => [] | _ => [("picture", stdEncode picture)] end).
Definition CreateNewsletter (name description : string) (picture : list byte) : mexM (option gval) :=
  data ← mexData mutationCreateNewsletter (JObj [("newsletter_input", newsletterInput name description picture)]);
  match UnmarshalData (TStruct [("xwa2_newsletter_create", TPtr NewsletterMetadata)]) data with
  | (v, true) => mret (follow ["xwa2_newsletter_create"] v)
  | _ => throw (Invalid "newsletter")
  end.
Definition newsletterMutation (queryID : string) (jid : JID) : mexM unit :=
  _ ← mexData queryID (strings [("newsletter_id", JIDString jid)]); mret tt.
Definition NewsletterToggleMute (jid : JID) (mute : bool) : mexM unit :=
  newsletterMutation (if mute then mutationMuteNewsletter else mutationUnmuteNewsletter) jid.
Definition FollowNewsletter (jid : JID) : mexM unit := newsletterMutation mutationFollowNewsletter jid.
Definition UnfollowNewsletter (jid : JID) : mexM unit := newsletterMutation mutationUnfollowNewsletter jid.

(** Deleting; the answer must confirm it for the channel. *)
Definition buildDeleteNewsletterVariables (jid : JID) : outcome bizError json :=
  if IsEmpty jid || bool_decide (User jid = "" ∨ Server jid ≠ NewsletterServer) then Err (Invalid "newsletter JID")
  else if negb (bounded (User jid) 256) then Err (TooLong "newsletter JID user" 256)
  else if negb (forallb is_digit (s2b (User jid))) then Err (Invalid "newsletter JID user")
  else if negb (bool_decide (RawAgent jid = 0%Z ∧ Device jid = 0%Z ∧ Integrator jid = 0%Z)) then Err (Invalid "newsletter JID device")
  else Ok (strings [("newsletter_id", JIDString jid)]).
Definition deletedType : ty := TStruct [("xwa2_newsletter_delete_v2", TPtr (TStruct [("id", TString); ("state", TPtr (TStruct [("type", TString)]))]))].
Definition decodeDeleteNewsletterResponse (data : option json) (requested : JID) : outcome bizError unit :=
  match UnmarshalData deletedType data with
  | (_, false) => Err (Invalid "newsletter deletion response")
  | (v, true) =>
      match follow ["xwa2_newsletter_delete_v2"] v with
      | None => Err (Empty "xwa2_newsletter_delete_v2")
      | Some deleted =>
          if decide (stringIn "id" deleted ≠ JIDString requested) then Err (Invalid "newsletter deletion response ID")
          else match follow ["state"] deleted with
               | Some state => require (bool_decide (stringIn "type" state = "DELETED")) (Invalid "newsletter deletion state")
               | None => Err (Invalid "newsletter deletion state")
               end
      end
  end.
Definition DeleteNewsletter (jid : JID) : mexM unit :=
  variables ← lift (buildDeleteNewsletterVariables jid);
  match Lookup "DeleteNewsletter" with
  | None => throw (Invalid "DeleteNewsletter")
  | Some binding =>
      data ← mexData (DocumentID binding) variables;
      lift (decodeDeleteNewsletterResponse data jid)
  end.

(** ** Calls without JSON *)

(** How long, in nanoseconds. *)
Definition NewsletterSubscribeLiveUpdates (jid : JID) : mexM Z :=
  resp ← query BizIQ (mkInfoQuery "newsletter" "set" jid EmptyJID "" "" (VNodes [mkNode "live_updates" [] VNil]));
  mret (i64 ((attrInt "duration" (AttrGetter_of (GetChildByTag resp ["live_updates"]))).1 * 1000000000)).
(** Nothing but an answer ends the wait for it. *)
Definition NewsletterMarkViewed (jid : JID) (serverIDs : list Z) : mexM unit :=
  t ← tick;
  let reqID := requestIDs t 0 in
  sent ← trySend (mkNode "receipt" [("to", VJID jid); ("type", VString "view"); ("id", VString reqID)]
    (VNodes [mkNode "list" [] (VNodes ((λ id, mkNode "item" [("server_id", VInt id)] VNil) <$> serverIDs))]));
  if negb sent then throw BizNotSent
  else t ← tick; match waitFor t reqID with Got _ => mret tt | _ => lift OutOfFuel end.
Definition reactionNode (jid : JID) (serverID : Z) (reaction messageID : string) : node :=
  mkNode "message"
    ([("to", VJID jid); ("id", VString messageID); ("server_id", VInt serverID); ("type", VString "reaction")]
     ++ if decide (reaction = "") then [("edit", VString EditAttributeSenderRevoke)] else [])%list
    (VNodes [mkNode "reaction" (if decide (reaction = "") then [] else [("code", VString reaction)]) VNil]).
Definition NewsletterSendReaction (jid : JID) (serverID : Z) (reaction messageID : string) : mexM unit :=
  messageID ← (if decide (messageID = "") then GenerateMessageID else mret messageID);
  sent ← trySend (reactionNode jid serverID reaction messageID);
  if (sent : bool) then mret tt else throw BizNotSent.
Definition AcceptTOSNotice (noticeID stage : string) : mexM unit :=
  _ ← query BizIQ (mkInfoQuery "tos" "set" ServerJID EmptyJID "" "" (VNodes [mkNode "notice" [("id", VString noticeID); ("stage", VString stage)] VNil])); mret tt.

Definition intUnlessZero (k : string) (z : Z) : list (string * value) := if decide (z = 0%Z) then [] else [(k, VInt z)].
(** [params]: how many messages, and before which one. *)
Definition GetNewsletterMessages (jid : JID) (params : option (Z * Z)) : mexM (list NewsletterMessage) :=
  let attrs := match params with Some (count, before) => (intUnlessZero "count" count ++ intUnlessZero "before" before)%list | None => [] end in
  resp ← query BizIQ (mkInfoQuery "newsletter" "get" ServerJID EmptyJID "" ""
    (VNodes [mkNode "messages" ([("type", VString "jid"); ("jid", VJID jid)] ++ attrs)%list VNil]));
  messages ← lift (childIn resp "messages" "newsletter messages response");
  mret (parseNewsletterMessages messages).
(** [params]: how many, since when in seconds, after which message. *)
Definition GetNewsletterMessageUpdates (jid : JID) (params : option (Z * option Z * Z)) : mexM (list NewsletterMessage) :=
  let attrs := match params with
               | Some (count, since, after) =>
                   (intUnlessZero "count" count ++ match since with Some t => [("since", VInt64 t)] | None => [] end ++ intUnlessZero "after" after)%list
               | None => []
               end in
  resp ← query BizIQ (mkInfoQuery "newsletter" "get" jid EmptyJID "" "" (VNodes [mkNode "message_updates" attrs VNil]));
  match GetOptionalChildByTag resp ["message_updates"; "messages"] with
  | (messages, true) => mret (parseNewsletterMessages messages)
  | _ => throw (BizElementMissing "messages" "newsletter messages response")
  end.
End mex.
