(* ===== verification/QRChannel.v ===== *)
(** The channel that hands the codes of a pairing to the application (src/qrchan.go): the
    goroutine that emits codes and the handlers of events, in any interleaving. *)
From Stdlib Require Import ZArith Lia.
From Stdlib Require Import Strings.Byte.
From stdpp Require Import prelude gmap strings list fin_maps.
From S2P Require Import Prelude Strconv Jid Node Attrs Cbc LTHash Noise Handshake PreKeys Proto NodeEvents Events DeviceStore Pair Connection.

#[local] Open Scope string_scope.

(** ** Codes *)

(** [strings.Cut] and [strings.SplitN] at a byte, and [strings.Join]. *)
Fixpoint cut (sep : byte) (l : list byte) : list byte * option (list byte) :=
  match l with
  | [] => ([], None)
  | b :: l => if decide (b = sep) then ([], Some l) else let '(before, after) := cut sep l in (b :: before, after)
  end.
Fixpoint splitN (sep : byte) (n : nat) (l : list byte) : list (list byte) :=
  match n with
  | O => []
  | S O => [l]
  | S n => match cut sep l with (before, Some after) => before :: splitN sep n after | (_, None) => [l] end
  end.
Fixpoint join (sep : byte) (parts : list (list byte)) : list byte :=
  match parts with [] => [] | [p] => p | p :: parts => p ++ sep :: join sep parts end%list.

Definition comma : byte := x2c.
(** The fourth part of a code is the secret. *)
Definition withSecret (newSecret code : string) : string :=
  let parts := splitN comma 5 (s2b code) in
  if decide (length parts = 5%nat) then b2s (join comma (<[3%nat := s2b newSecret]> parts)) else code.

(** ** Items and events *)

Inductive qrItem :=
| CodeItem (code : string) (timeout : Z)
| PasskeyRequestItem (publicKey : proto) | PasskeyResponseItem (code : string)
| QRChannelError | QRChannelSuccess | QRChannelTimeout | QRChannelErrUnexpectedEvent | QRChannelClientOutdated | QRChannelScannedWithoutMultidevice.
Definition QRChannelEventCode : string := "code".
Definition QRChannelEventError : string := "error".
Definition QRChannelEventPasskeyRequest : string := "passkey-request".
Definition QRChannelEventPasskeyResponse : string := "passkey-confirmation".
Definition itemEvent (i : qrItem) : string :=
  match i with
  | CodeItem _ _ => QRChannelEventCode | PasskeyRequestItem _ => QRChannelEventPasskeyRequest | PasskeyResponseItem _ => QRChannelEventPasskeyResponse
  | QRChannelError => QRChannelEventError | QRChannelSuccess => "success" | QRChannelTimeout => "timeout"
  | QRChannelErrUnexpectedEvent => "err-unexpected-state" | QRChannelClientOutdated => "err-client-outdated"
  | QRChannelScannedWithoutMultidevice => "err-scanned-without-multidevice"
  end.
Inductive qrEvent := FromNode (e : nodeEvent) | FromConnection (e : connectionEvent).

(** ** State

    [buffer]: what the application did not take yet of the eight places; [emitted]: all that
    was put into the channel; [secret], which the code does not have: the secret that the
    last handled event told of, also when the handler dropped it. Goroutines stop between any two of their channel operations. *)
Inductive goroutine :=
| EmitTop (codes : list string)                      (* the head of the loop *)
| EmitCode (codes : list string)                     (* before the lock; there is a code *)
| EmitWait (current : string) (codes : list string)
| EmitTimeout                                        (* the flag is set: the last item, then the close *)
| EmitClose (andThen : option (list string))
| Handling (e : qrEvent)
| Sending (i : qrItem)
| Stopping (i : qrItem) | Swapping (i : qrItem) | SendingLast (i : qrItem) | Closing.
Record qrChannel := mkQR {
  closed : bool; buffer : list qrItem; emitted : list qrItem; outputClosed : bool; stopQRs : bool; rotateAdv : bool;
  pendingRotation : option (string * string); secret : string; handlerRemoved : bool; disconnects : nat; panicked : bool;
  goroutines : gmap nat goroutine
}.

Definition setClosed (s : qrChannel) := mkQR true (buffer s) (emitted s) (outputClosed s) (stopQRs s) (rotateAdv s) (pendingRotation s) (secret s) (handlerRemoved s) (disconnects s) (panicked s) (goroutines s).
Definition putItem (i : qrItem) (s : qrChannel) := mkQR (closed s) (buffer s ++ [i]) (emitted s ++ [i]) (outputClosed s) (stopQRs s) (rotateAdv s) (pendingRotation s) (secret s) (handlerRemoved s) (disconnects s) (panicked s) (goroutines s).
Definition takeItem (s : qrChannel) := mkQR (closed s) (tail (buffer s)) (emitted s) (outputClosed s) (stopQRs s) (rotateAdv s) (pendingRotation s) (secret s) (handlerRemoved s) (disconnects s) (panicked s) (goroutines s).
Definition closeOutput (s : qrChannel) := mkQR (closed s) (buffer s) (emitted s) true (stopQRs s) (rotateAdv s) (pendingRotation s) (secret s) (handlerRemoved s) (disconnects s) (panicked s) (goroutines s).
Definition closeStop (s : qrChannel) := mkQR (closed s) (buffer s) (emitted s) (outputClosed s) true (rotateAdv s) (pendingRotation s) (secret s) (handlerRemoved s) (disconnects s) (panicked s) (goroutines s).
Definition setRotate signal pending (s : qrChannel) := mkQR (closed s) (buffer s) (emitted s) (outputClosed s) (stopQRs s) signal pending (secret s) (handlerRemoved s) (disconnects s) (panicked s) (goroutines s).
Definition setSecret new (s : qrChannel) := mkQR (closed s) (buffer s) (emitted s) (outputClosed s) (stopQRs s) (rotateAdv s) (pendingRotation s) new (handlerRemoved s) (disconnects s) (panicked s) (goroutines s).
Definition removeHandler (s : qrChannel) := mkQR (closed s) (buffer s) (emitted s) (outputClosed s) (stopQRs s) (rotateAdv s) (pendingRotation s) (secret s) true (disconnects s) (panicked s) (goroutines s).
Definition disconnectClient (s : qrChannel) := mkQR (closed s) (buffer s) (emitted s) (outputClosed s) (stopQRs s) (rotateAdv s) (pendingRotation s) (secret s) (handlerRemoved s) (S (disconnects s)) (panicked s) (goroutines s).
Definition setPanicked (s : qrChannel) := mkQR (closed s) (buffer s) (emitted s) (outputClosed s) (stopQRs s) (rotateAdv s) (pendingRotation s) (secret s) (handlerRemoved s) (disconnects s) true (goroutines s).
Definition setGoroutines gs (s : qrChannel) := mkQR (closed s) (buffer s) (emitted s) (outputClosed s) (stopQRs s) (rotateAdv s) (pendingRotation s) (secret s) (handlerRemoved s) (disconnects s) (panicked s) gs.

(** ** Steps

    A step of a goroutine: the state and how it goes on, with a goroutine it starts; [None]
    when it has to wait. *)
Inductive outcomeOf := Continue (g : goroutine) | Finished | Started (g : goroutine).

(** [output <- i] panics on a closed channel and waits for a place. *)
Definition send (i : qrItem) (s : qrChannel) (next : outcomeOf) : option (qrChannel * outcomeOf) :=
  if outputClosed s then Some (setPanicked s, Finished)
  else if (length (buffer s) <? 8)%nat then Some (putItem i s, next) else None.
(** [close(qrc.output)]. *)
Definition closing (s : qrChannel) (disconnect : bool) (next : outcomeOf) : option (qrChannel * outcomeOf) :=
  if outputClosed s then Some (setPanicked s, Finished)
  else let s := removeHandler (closeOutput s) in Some (if disconnect then disconnectClient s else s, next).

(** Of what a waiting emitter may be woken by. *)
Inductive wake := TimeOut | StopSignal | ExpectedDisconnect | RotateSignal | ContextDone.

Definition codeTimeout (codes : list string) : Z := if decide (length codes = 6%nat) then 60 else 20.

Definition emitTop (codes : list string) (s : qrChannel) : qrChannel * outcomeOf :=
  match codes with
  | [] => if closed s then (s, Finished) else (setClosed s, Continue EmitTimeout)
  | _ => if closed s then (s, Finished) else (s, Continue (EmitCode codes))
  end.
(** Under the lock: the pending rotation, and the code if there is a place for it. *)
Definition emitCode (codes : list string) (s : qrChannel) : qrChannel * outcomeOf :=
  let timeout := codeTimeout codes in
  let codes := match pendingRotation s with Some (_, newSecret) => withSecret newSecret <$> codes | None => codes end in
  let s := setRotate false None s in
  match codes with
  | [] => (s, Finished)
  | nextCode :: codes =>
      if outputClosed s then (setPanicked s, Finished)
      else if (length (buffer s) <? 8)%nat then (putItem (CodeItem nextCode timeout) s, Continue (EmitWait nextCode codes))
      else if closed s then (s, Finished) else (setClosed s, Continue (EmitClose None))
  end.
Definition emitWait (w : wake) (current : string) (codes : list string) (s : qrChannel) : option (qrChannel * outcomeOf) :=
  match w with
  | TimeOut => Some (s, Continue (EmitTop codes))
  | StopSignal => if stopQRs s then Some (s, Finished) else None
  | ExpectedDisconnect => Some (s, Finished)
  | RotateSignal => if rotateAdv s then Some (setRotate false (pendingRotation s) s, Continue (EmitTop (current :: codes))) else None
  | ContextDone => if closed s then Some (s, Continue (EmitTop codes)) else Some (setClosed s, Continue (EmitClose (Some codes)))
  end.

(** How an event ends the channel. *)
Definition lastItem (e : qrEvent) : option qrItem :=
  match e with
  | FromConnection ClientOutdated => Some QRChannelClientOutdated
  | FromNode (PairSuccess _ _ _ _ _) => Some QRChannelSuccess
  | FromNode (PairError _ _ _ _ _) => Some QRChannelError
  | FromConnection Disconnected => Some QRChannelTimeout
  | FromNode Connected | FromConnection (ConnectFailure _ _ _) | FromConnection (LoggedOut _ _) | FromConnection (TemporaryBan _ _) => Some QRChannelErrUnexpectedEvent
  | _ => None
  end.
(** [confirmed]: whether the automatic confirmation of a passkey succeeded. *)
Definition handleEvent (confirmed : bool) (e : qrEvent) (s : qrChannel) : qrChannel * outcomeOf :=
  if closed s then (match e with FromNode (RotateADVSecret _ newSecret) => setSecret newSecret s | _ => s end, Finished)
  else
    match e with
    | FromNode (QR codes) => (s, Started (EmitTop codes))
    | FromNode (RotateADVSecret oldSecret newSecret) =>
        (setSecret newSecret (setRotate true (Some (match pendingRotation s with None => oldSecret | Some (old, _) => old end, newSecret)) s), Finished)
    | FromNode QRScannedWithoutMultidevice => (s, Continue (Sending QRChannelScannedWithoutMultidevice))
    | FromNode (PairPasskeyRequest publicKey) => (s, Continue (Sending (PasskeyRequestItem publicKey)))
    | FromNode (PairPasskeyConfirmation code true) => (s, if confirmed then Finished else Continue (Sending QRChannelError))
    | FromNode (PairPasskeyConfirmation code false) => (s, Continue (Sending (PasskeyResponseItem code)))
    | FromNode (PairPasskeyError _) => (s, Continue (Sending QRChannelError))
    | _ => match lastItem e with Some i => (s, Continue (Stopping i)) | None => (s, Finished) end
    end.

Definition run (w : wake) (confirmed : bool) (g : goroutine) (s : qrChannel) : option (qrChannel * outcomeOf) :=
  match g with
  | EmitTop codes => Some (emitTop codes s)
  | EmitCode codes => Some (emitCode codes s)
  | EmitWait current codes => emitWait w current codes s
  | EmitTimeout => send QRChannelTimeout s (Continue (EmitClose None))
  | EmitClose andThen => closing s true (match andThen with Some codes => Continue (EmitTop codes) | None => Finished end)
  | Handling e => Some (handleEvent confirmed e s)
  | Sending i => send i s Finished
  | Stopping i => if stopQRs s then Some (setPanicked s, Finished) else Some (closeStop s, Continue (Swapping i))
  | Swapping i => if closed s then Some (removeHandler s, Finished) else Some (setClosed s, Continue (SendingLast i))
  | SendingLast i => send i s (Continue Closing)
  | Closing => closing s false Finished
  end.

Definition proceed (k : nat) (o : outcomeOf) (s : qrChannel) : qrChannel :=
  match o with
  | Continue g => setGoroutines (<[k := g]> (goroutines s)) s
  | Finished => setGoroutines (delete k (goroutines s)) s
  | Started g => setGoroutines (<[fresh (dom (goroutines s)) := g]> (delete k (goroutines s))) s
  end.

(** An event arrives (until the handler is removed, which happens in the background), a
    goroutine makes a step, the application takes an item. A panic ends the program. *)
Inductive qrAction := Arrives (e : qrEvent) | Steps (k : nat) (w : wake) (confirmed : bool) | Takes.
Definition act (a : qrAction) (s : qrChannel) : option qrChannel :=
  if panicked s then None
  else
    match a with
    | Arrives e => Some (setGoroutines (<[fresh (dom (goroutines s)) := Handling e]> (goroutines s)) s)
    | Steps k w confirmed => g ← goroutines s !! k; '(s', o) ← run w confirmed g s; Some (proceed k o s')
    | Takes => match buffer s with [] => None | _ => Some (takeItem s) end
    end.
Fixpoint acts (l : list qrAction) (s : qrChannel) : option qrChannel :=
  match l with [] => Some s | a :: l => s' ← act a s; acts l s' end.

(** [GetQRChannel]. *)
Inductive qrError := QRAlreadyConnected | QRStoreContainsID.
Definition GetQRChannel (connected : bool) (d : storeDevice) : outcome qrError qrChannel :=
  if connected then Err QRAlreadyConnected
  else if bool_decide (is_Some (devID d)) then Err QRStoreContainsID
  else Ok (mkQR false [] [] false false false None (stdEncode (AdvSecretKey d)) false 0 false ∅).

(** * Properties *)

(** ** The channel is closed once *)

(** Who set the flag, until it has closed the channel. *)
Definition closer (g : goroutine) : bool :=
  match g with EmitTimeout | EmitClose _ | SendingLast _ | Closing => true | _ => false end.
Definition closerOf (o : outcomeOf) : bool := match o with Continue g | Started g => closer g | Finished => false end.

Record closedOnce (s : qrChannel) : Prop := mkClosedOnce {
  co_open : closed s = false → outputClosed s = false ∧ ∀ k g, goroutines s !! k = Some g → closer g = false;
  co_one k1 k2 g1 g2 : goroutines s !! k1 = Some g1 → goroutines s !! k2 = Some g2 → closer g1 = true → closer g2 = true → k1 = k2;
  co_closed : outputClosed s = true → ∀ k g, goroutines s !! k = Some g → closer g = false;
  co_some : closed s = true → outputClosed s = true ∨ ∃ k g, goroutines s !! k = Some g ∧ closer g = true
}.

(** What a step does to the flag and to the channel. *)
Inductive flagStep (g : goroutine) (o : outcomeOf) (s s' : qrChannel) : Prop :=
| FlagKept : closed s' = closed s → outputClosed s' = outputClosed s → closerOf o = closer g → flagStep g o s s'
| FlagSet : closed s = false → closed s' = true → outputClosed s' = outputClosed s → closer g = false → closerOf o = true → flagStep g o s s'
| FlagDone : closed s' = closed s → outputClosed s' = true → closer g = true → closerOf o = false → flagStep g o s s'.

Lemma run_flag w c g s s' o : run w c g s = Some (s', o) → panicked s' = false → flagStep g o s s' ∧ goroutines s' = goroutines s.
Proof.
  destruct g; cbn; unfold emitTop, emitCode, emitWait, send, closing, handleEvent; intros Hr Hp;
    repeat (case_match; simplify_eq/=); split; try done;
    try (by apply FlagKept); try (by apply FlagSet); try (by apply FlagDone).
Qed.

Lemma proceed_lookup k o s j g : goroutines (proceed k o s) !! j = Some g → (j ≠ k ∧ goroutines s !! j = Some g) ∨ o = Continue g ∧ j = k ∨ o = Started g.
Proof.
  destruct o as [g'| |g']; cbn.
  - intros [[<- <-]|[Hne Hl]]%lookup_insert_Some; [right; by left|by left].
  - intros [Hne Hl]%lookup_delete_Some. by left.
  - intros [[_ <-]|[_ [Hne Hl]%lookup_delete_Some]]%lookup_insert_Some; [by right; right|by left].
Qed.

Lemma run_started w c g s s' o g' : run w c g s = Some (s', o) → o = Started g' → closer g = false ∧ closer g' = false.
Proof.
  destruct g; cbn; unfold emitTop, emitCode, emitWait, send, closing, handleEvent; intros Hr ->;
    repeat (case_match; simplify_eq/=); done.
Qed.

Lemma proceed_other k o s j g : j ≠ k → goroutines s !! j = Some g → goroutines (proceed k o s) !! j = Some g.
Proof.
  intros Hne Hl. destruct o as [g'| |g']; cbn.
  - by rewrite lookup_insert_ne.
  - by rewrite lookup_delete_ne.
  - rewrite lookup_insert_ne; [by rewrite lookup_delete_ne|]. intros <-.
    apply (is_fresh (dom (goroutines s))), elem_of_dom. by eexists.
Qed.

Lemma closedOnce_arrives e s : closedOnce s → closedOnce (setGoroutines (<[fresh (dom (goroutines s)) := Handling e]> (goroutines s)) s).
Proof.
  intros [Ho H1 Hc Hs]. split; cbn.
  - intros Hf. destruct (Ho Hf) as [Hout Hno]. split; [done|]. intros k g [[_ <-]|[_ Hl]]%lookup_insert_Some; [done|by eapply Hno].
  - intros k1 k2 g1 g2 [[_ <-]|[_ Hl1]]%lookup_insert_Some [[_ <-]|[_ Hl2]]%lookup_insert_Some; try done. by eapply H1.
  - intros Hout k g [[_ <-]|[_ Hl]]%lookup_insert_Some; [done|by eapply Hc].
  - intros Hcl. destruct (Hs Hcl) as [?|(k & g & Hl & Hg)]; [by left|right]. exists k, g. split; [|done]. apply lookup_insert_Some. right.
    split; [|done]. intros <-. apply (is_fresh (dom (goroutines s))), elem_of_dom. by eexists.
Qed.

(** The goroutine goes on as a closer exactly if it was one and is not done, or set the
    flag itself. *)
Lemma closedOnce_step w c k g s s' o :
  closedOnce s → goroutines s !! k = Some g → run w c g s = Some (s', o) → panicked s' = false → closedOnce (proceed k o s').
Proof.
  intros Hinv Hk Hr Hp. pose proof Hinv as [Ho H1 Hc Hs]. destruct (run_flag _ _ _ _ _ _ Hr Hp) as [Hflag Hgs].
  assert (closed (proceed k o s') = closed s') as Hcl by by destruct o. assert (outputClosed (proceed k o s') = outputClosed s') as Hout by by destruct o.
  (* a closer afterwards: another goroutine that was one, or this one *)
  assert (∀ j g', goroutines (proceed k o s') !! j = Some g' → closer g' = true →
            (j ≠ k ∧ goroutines s !! j = Some g') ∨ (j = k ∧ closerOf o = true)) as Hwho.
  { intros j g' Hl Hg'. apply proceed_lookup in Hl as [[Hne Hl]|[[-> ->]| ->]]; [left; by rewrite <- Hgs|by right|].
    destruct (run_started _ _ _ _ _ _ g' Hr eq_refl) as [_ ?]; congruence. }
  assert (closerOf o = true → ∃ g', goroutines (proceed k o s') !! k = Some g' ∧ closer g' = true) as Hself.
  { destruct o as [g'| |g']; cbn; intros Hg'; [|done|destruct (run_started _ _ _ _ _ _ g' Hr eq_refl) as [_ ?]; congruence].
    exists g'. split; [apply lookup_insert_eq|done]. }
  destruct Hflag as [E1 E2 E3|F1 F2 F3 F4 F5|D1 D2 D3 D4]; split; rewrite ?Hcl, ?Hout.
  - rewrite E1, E2. intros Hf. destruct (Ho Hf) as [Hn Hno]. split; [done|]. intros j g' Hl. apply not_true_is_false. intros Hg'.
    destruct (Hwho _ _ Hl Hg') as [[_ Hl']|[-> Hself']]; [specialize (Hno _ _ Hl')|specialize (Hno _ _ Hk)]; congruence.
  - intros k1 k2 g1 g2 Hl1 Hl2 Hg1 Hg2. destruct (Hwho _ _ Hl1 Hg1) as [[Hn1 Hl1']|[-> He1]], (Hwho _ _ Hl2 Hg2) as [[Hn2 Hl2']|[-> He2]]; try done;
      rewrite E3 in *; by eapply H1.
  - rewrite E2. intros Hf j g' Hl. apply not_true_is_false. intros Hg'.
    destruct (Hwho _ _ Hl Hg') as [[_ Hl']|[-> Hself']]; [specialize (Hc Hf _ _ Hl')|specialize (Hc Hf _ _ Hk)]; congruence.
  - rewrite E1, E2. intros Hf. destruct (Hs Hf) as [?|(j & g' & Hl & Hg')]; [by left|right]. destruct (decide (j = k)) as [->|Hne].
    + assert (closerOf o = true) as Hco by congruence. destruct (Hself Hco) as (g1 & ? & ?). by exists k, g1.
    + exists j, g'. split; [|done]. apply proceed_other; [done|by rewrite Hgs].
  - congruence.
  - destruct (Ho F1) as [_ Hno]. intros k1 k2 g1 g2 Hl1 Hl2 Hg1 Hg2.
    destruct (Hwho _ _ Hl1 Hg1) as [[_ Hl]|[-> _]]; [specialize (Hno _ _ Hl); congruence|].
    destruct (Hwho _ _ Hl2 Hg2) as [[_ Hl]|[-> _]]; [specialize (Hno _ _ Hl); congruence|done].
  - destruct (Ho F1) as [Hn _]. congruence.
  - intros _. right. destruct (Hself F5) as (g1 & ? & ?). by exists k, g1.
  - rewrite D1. intros Hf. destruct (Ho Hf) as [_ Hno]. specialize (Hno _ _ Hk). congruence.
  - intros k1 k2 g1 g2 Hl1 Hl2 Hg1 Hg2. destruct (Hwho _ _ Hl1 Hg1) as [[Hn Hl]|[_ ?]]; [|congruence]. destruct Hn. by eapply H1.
  - intros _ j g' Hl. apply not_true_is_false. intros Hg'. destruct (Hwho _ _ Hl Hg') as [[Hn Hl']|[_ ?]]; [|congruence]. destruct Hn. by eapply H1.
  - intros _. by left.
Qed.

(** Which steps may panic. *)
Lemma run_panics w c k g s s' o :
  closedOnce s → goroutines s !! k = Some g → panicked s = false → run w c g s = Some (s', o) → panicked s' = true →
  (outputClosed s = true ∧ ((∃ i, g = Sending i) ∨ ∃ codes, g = EmitCode codes)) ∨ (stopQRs s = true ∧ ∃ i, g = Stopping i).
Proof.
  intros [_ _ Hc _] Hk Hp Hr Hp'. specialize (λ H, Hc H _ _ Hk).
  destruct g; cbn in *; unfold emitTop, emitCode, emitWait, send, closing, handleEvent in *;
    repeat (case_match; simplify_eq/=); try congruence; eauto.
  all: by specialize (Hc eq_refl).
Qed.

Lemma acts_inv (P : qrChannel → Prop) l s s' : (∀ a s s', P s → panicked s' = false → act a s = Some s' → P s') →
  P s → panicked s' = false → acts l s = Some s' → P s'.
Proof.
  intros Hstep. revert s. induction l as [|a l IH]; intros s Hs Hp; cbn; [by intros [= ->]|].
  destruct (act a s) as [s1|] eqn:Ha; [|done]. cbn. intros Hrun. apply (IH s1); [|done|done]. eapply Hstep; [exact Hs| |exact Ha].
  destruct (panicked s1) eqn:Hp1; [|done]. exfalso. destruct l as [|a' l]; cbn in Hrun; [congruence|].
  unfold act in Hrun. by rewrite Hp1 in Hrun.
Qed.

Definition opened (secret : string) : qrChannel := mkQR false [] [] false false false None secret false 0 false ∅.
Lemma closedOnce_opened sec : closedOnce (opened sec).
Proof. split; cbn; try done; intros; by rewrite lookup_empty in *. Qed.

Lemma closedOnce_act a s s' : closedOnce s → panicked s' = false → act a s = Some s' → closedOnce s'.
Proof.
  intros Hinv Hp. unfold act. destruct a as [e|k w c|]; destruct (panicked s) eqn:Hps; try done.
  - intros [= <-]. by apply closedOnce_arrives.
  - destruct (goroutines s !! k) as [g|] eqn:Hk; [|done]. cbn. destruct (run w c g s) as [[s1 o]|] eqn:Hr; [|done]. cbn. intros [= <-].
    eapply closedOnce_step; [exact Hinv|exact Hk|exact Hr|]. by destruct o.
  - destruct (buffer s); [done|]. intros [= <-]. destruct Hinv as [Ho H1 Hc Hs]. by split.
Qed.

(** C37: the channel of codes, whatever events arrive and however its
    goroutines interleave. As long as nothing panicked, the flag was set once: until then the
    channel is open and nobody is about to close it; afterwards it is closed, or exactly one
    goroutine is about to, with or without the last item before. Nothing is put into a
    channel that is closed. No step that sends the last item or closes the channel panics:
    only putting an item that is not the last one into the closed channel does, and ending
    the codes a second time. *)
Theorem qr_channel_closed_once (sec : string) (l : list qrAction) (s : qrChannel) :
  acts l (opened sec) = Some s → panicked s = false →
  (closed s = false → outputClosed s = false) ∧
  (closed s = true → outputClosed s = false → ∃ k, (∃ g, goroutines s !! k = Some g ∧ closer g = true) ∧
     ∀ j g, goroutines s !! j = Some g → closer g = true → j = k) ∧
  (outputClosed s = true → ∀ k g, goroutines s !! k = Some g → closer g = false) ∧
  (∀ a s', act a s = Some s' → outputClosed s = true → emitted s' = emitted s) ∧
  (∀ a s', act a s = Some s' → panicked s' = true → ∃ k w c g, a = Steps k w c ∧ goroutines s !! k = Some g ∧
     ((outputClosed s = true ∧ ((∃ i, g = Sending i) ∨ ∃ codes, g = EmitCode codes)) ∨ (stopQRs s = true ∧ ∃ i, g = Stopping i))).
Proof.
  intros Hrun Hp. assert (closedOnce s) as Hinv by (eapply acts_inv; [apply closedOnce_act|apply (closedOnce_opened sec)|done..]).
  pose proof Hinv as [Ho H1 Hc Hs]. split_and!.
  - intros Hf. by apply Ho.
  - intros Hcl Hout. destruct (Hs Hcl) as [?|(k & g & Hl & Hg)]; [congruence|]. exists k. split; [by exists g|]. intros j g' Hl' Hg'. by eapply H1.
  - exact Hc.
  - intros a s' Ha Hout. unfold act in Ha. rewrite Hp in Ha. destruct a as [e|k w c|].
    + by injection Ha as <-.
    + destruct (goroutines s !! k) as [g|]; [|done]. cbn in Ha. destruct (run w c g s) as [[s1 o]|] eqn:Hr; [|done]. injection Ha as <-.
      assert (emitted s1 = emitted s) as He; [|by destruct o].
      destruct g; cbn in Hr; unfold emitTop, emitCode, emitWait, send, closing, handleEvent in Hr; repeat (case_match; simplify_eq/=); congruence.
    + destruct (buffer s); [done|]. by injection Ha as <-.
  - intros a s' Ha Hp'. unfold act in Ha. rewrite Hp in Ha. destruct a as [e|k w c|].
    + injection Ha as <-. cbn in Hp'. congruence.
    + destruct (goroutines s !! k) as [g|] eqn:Hk; [|done]. cbn in Ha. destruct (run w c g s) as [[s1 o]|] eqn:Hr; [|done]. injection Ha as <-.
      exists k, w, c, g. split; [done|]. split; [done|]. eapply run_panics; [done..|]. by destruct o.
    + destruct (buffer s); [done|]. injection Ha as <-. cbn in Hp'. congruence.
Qed.

(** ** The codes have the newest secret *)

Definition commaFree (s : string) : Prop := comma ∉ s2b s.

Lemma cut_app before after : comma ∉ before → cut comma (before ++ comma :: after)%list = (before, Some after).
Proof.
  induction before as [|b l IH]; intros Hc; cbn; [by rewrite decide_True|]. rewrite decide_False by (intros ->; apply Hc; by left).
  rewrite IH; [done|]. intros Hin. apply Hc. by right.
Qed.
Lemma splitN_app n before after : comma ∉ before → splitN comma (S (S n)) (before ++ comma :: after)%list = before :: splitN comma (S n) after.
Proof. intros Hc. change (splitN comma (S (S n)) (before ++ comma :: after)%list) with (match cut comma (before ++ comma :: after)%list with (b, Some a) => b :: splitN comma (S n) a | (_, None) => [(before ++ comma :: after)%list] end). by rewrite cut_app. Qed.

Lemma b64_commaFree l : comma ∉ b64Encode l.
Proof.
  assert (∀ d, b64Char d ≠ comma) as Hd.
  { intros d Hd. unfold b64Char in Hd. destruct (nth_in_or_default (Z.to_nat d) b64Alphabet x00) as [Hin|Hz]; [|by rewrite Hd in Hz].
    rewrite Hd in Hin. apply list_elem_of_In in Hin. revert Hin. refine (bool_decide_eq_false_1 _ _). vm_compute. reflexivity. }
  assert (∀ val (shifts : list Z), comma ∉ (b64Char ∘ b64Digit val <$> shifts)) as Hs.
  { intros val shifts (d & Hc & _)%list_elem_of_fmap. by destruct (Hd (b64Digit val d)). }
  remember (length l) as n eqn:Hn. revert l Hn. induction n as [n IH] using lt_wf_ind. intros [|a [|b [|c l]]] ->; cbn [b64Encode].
  - apply not_elem_of_nil.
  - apply Hs.
  - apply Hs.
  - rewrite elem_of_app. intros [Hin|Hin]; [by apply Hs in Hin|]. revert Hin. eapply IH; [|reflexivity]. cbn. lia.
Qed.
Lemma stdEncode_commaFree l : commaFree (stdEncode l).
Proof.
  unfold commaFree, stdEncode, EncodeToString. rewrite s2b_app, s2b_b2s, elem_of_app. intros [Hin|Hin]; [by apply b64_commaFree in Hin|].
  revert Hin. refine (bool_decide_eq_false_1 _ _). destruct (length l mod 3)%nat as [|[|[|n]]]; vm_compute; reflexivity.
Qed.

(** The code of a reference with a secret. *)
Definition codeText (d : storeDevice) (sec ref clientType : string) : string :=
  "https://wa.me/settings/linked_devices#" +:+ ref +:+ "," +:+ stdEncode (Pub (NoiseKey d)) +:+ "," +:+ stdEncode (Pub (IdentityKey d)) +:+ "," +:+ sec +:+ "," +:+ clientType.
Definition codeFor (d : storeDevice) (sec code : string) : Prop := ∃ ref clientType, commaFree ref ∧ code = codeText d sec ref clientType.

Lemma makeQRData_text d ref clientType : makeQRData d ref clientType = codeText d (stdEncode (AdvSecretKey d)) (b2s ref) clientType.
Proof. done. Qed.

Lemma codeText_parts d sec ref clientType : commaFree ref → commaFree sec →
  splitN comma 5 (s2b (codeText d sec ref clientType)) =
    [s2b ("https://wa.me/settings/linked_devices#" +:+ ref); s2b (stdEncode (Pub (NoiseKey d))); s2b (stdEncode (Pub (IdentityKey d))); s2b sec; s2b clientType].
Proof.
  intros Hr Hs. unfold codeText. rewrite !s2b_app, (assoc_L app). change (s2b ",") with [comma]. cbn [app].
  rewrite splitN_app; [|rewrite elem_of_app; intros [Hin|Hin]; [revert Hin; refine (bool_decide_eq_false_1 _ _); vm_compute; reflexivity|by apply Hr]].
  rewrite splitN_app by apply stdEncode_commaFree. rewrite splitN_app by apply stdEncode_commaFree. by rewrite splitN_app.
Qed.

Lemma withSecret_code d sec new code : commaFree sec → codeFor d sec code → codeFor d new (withSecret new code).
Proof.
  intros Hs (ref & ct & Hr & ->). exists ref, ct. split; [done|]. unfold withSecret. rewrite (codeText_parts _ _ _ _ Hr Hs).
  rewrite decide_True by done. cbn [insert list_insert join]. apply s2b_inj. rewrite s2b_b2s. unfold codeText. rewrite !s2b_app, (assoc_L app). done.
Qed.

(** The codes a goroutine has; there is one at most that has any. *)
Definition carries (g : goroutine) : option (list string) :=
  match g with
  | EmitTop codes | EmitCode codes | EmitClose (Some codes) | Handling (FromNode (QR codes)) => Some codes
  | EmitWait current codes => Some (current :: codes)
  | _ => None
  end.

(** What it is about to put that is not a code. *)
Definition itemOf (g : goroutine) : option qrItem := match g with Sending i | Stopping i | Swapping i | SendingLast i => Some i | _ => None end.
Definition isCode (i : qrItem) : bool := match i with CodeItem _ _ => true | _ => false end.

(** While the channel is open a code that goroutines have is replaced before it is shown, or
    has the newest secret. *)
Definition knownCode (d : storeDevice) (s : qrChannel) (c : string) : Prop :=
  ∃ sec, commaFree sec ∧ codeFor d sec c ∧ (closed s = false → pendingRotation s = None → sec = secret s).
Definition pendingKnown (s : qrChannel) : Prop := ∀ p, pendingRotation s = Some p → commaFree p.2 ∧ (closed s = false → p.2 = secret s).
Lemma pendingKnown_mono s s' :
  pendingKnown s → (pendingRotation s' ≠ None → pendingRotation s' = pendingRotation s ∧ (closed s' = false → closed s = false ∧ secret s' = secret s)) → pendingKnown s'.
Proof. intros Hs Hm p Hp. destruct Hm as [He Hm]; [congruence|]. destruct (Hs p) as [? Hnew]; [congruence|]. split; [done|]. intros Hopen. destruct (Hm Hopen) as [? ->]. by apply Hnew. Qed.
Lemma pendingKnown_new old new s : commaFree new → pendingKnown (setSecret new (setRotate true (Some (old, new)) s)).
Proof. by intros Hn p [= <-]. Qed.
Lemma knownCode_mono d s s' codes :
  Forall (knownCode d s) codes →
  (closed s' = false → pendingRotation s' = None → closed s = false ∧ pendingRotation s = None ∧ secret s' = secret s) → Forall (knownCode d s') codes.
Proof.
  intros Hall Hs. eapply Forall_impl; [exact Hall|]. intros c (sec & Hcf & Hcode & Hcur). exists sec. split; [done|]. split; [done|].
  intros Hopen Hnone. destruct (Hs Hopen Hnone) as (? & ? & ->). by apply Hcur.
Qed.
Record codesInv (d : storeDevice) (s : qrChannel) : Prop := mkCodesInv {
  ci_one k1 k2 g1 g2 : goroutines s !! k1 = Some g1 → goroutines s !! k2 = Some g2 → is_Some (carries g1) → is_Some (carries g2) → k1 = k2;
  ci_codes k g codes : goroutines s !! k = Some g → carries g = Some codes → Forall (knownCode d s) codes;
  ci_pending : pendingKnown s;
  ci_secret : commaFree (secret s);
  ci_wait k current codes : goroutines s !! k = Some (EmitWait current codes) → pendingRotation s ≠ None → rotateAdv s = true;
  ci_rotations k old new : goroutines s !! k = Some (Handling (FromNode (RotateADVSecret old new))) → commaFree new;
  ci_items k g i : goroutines s !! k = Some g → itemOf g = Some i → isCode i = false
}.

Definition nextOf (o : outcomeOf) : option goroutine := match o with Continue g | Started g => Some g | Finished => None end.
Lemma proceed_from k o s j g : goroutines (proceed k o s) !! j = Some g → (j ≠ k ∧ goroutines s !! j = Some g) ∨ (nextOf o = Some g ∧ ∀ j' g', goroutines (proceed k o s) !! j' = Some g' → j' = j ∨ (j' ≠ k ∧ goroutines s !! j' = Some g')).
Proof.
  destruct o as [g0| |g0]; cbn.
  - intros [[<- <-]|[Hne Hl]]%lookup_insert_Some; [right|by left]. split; [done|]. intros j' g' [[<- _]|[Hne Hl]]%lookup_insert_Some; [by left|by right].
  - intros [Hne Hl]%lookup_delete_Some. by left.
  - intros [[<- <-]|[_ [Hne Hl]%lookup_delete_Some]]%lookup_insert_Some; [right|by left]. split; [done|].
    intros j' g' [[<- _]|[_ [Hne Hl]%lookup_delete_Some]]%lookup_insert_Some; [by left|by right].
Qed.

(** A goroutine that goes on with codes has them from its own step. *)
Lemma codesInv_proceed d s s' k g o :
  codesInv d s → goroutines s !! k = Some g → goroutines s' = goroutines s →
  commaFree (secret s') → pendingKnown s' →
  (∀ g', nextOf o = Some g' → is_Some (carries g') → is_Some (carries g)) →
  (* the codes of this goroutine, and of the others if it has none *)
  (∀ g' codes, nextOf o = Some g' → carries g' = Some codes → Forall (knownCode d s') codes) →
  (is_Some (carries g) ∨ closed s' = true ∨ pendingRotation s' ≠ None ∨ (closed s' = closed s ∧ pendingRotation s' = pendingRotation s ∧ secret s' = secret s)) →
  (∀ cur codes, nextOf o = Some (EmitWait cur codes) → pendingRotation s' = None) →
  (is_Some (carries g) ∨ rotateAdv s' = true ∨ (rotateAdv s' = rotateAdv s ∧ pendingRotation s' = pendingRotation s)) →
  (∀ e, nextOf o ≠ Some (Handling e)) →
  (∀ g' i, nextOf o = Some g' → itemOf g' = Some i → isCode i = false) →
  codesInv d (proceed k o s').
Proof.
  intros [H1 Hc Hp Hs Hw Hr Hi] Hk Hgs Hs' Hp' Hcar Hcodes Hothers Hwait Hwo Hne Hit.
  assert (pendingRotation (proceed k o s') = pendingRotation s') as Ep by by destruct o.
  assert (secret (proceed k o s') = secret s') as Es by by destruct o. assert (closed (proceed k o s') = closed s') as Ec by by destruct o. assert (rotateAdv (proceed k o s') = rotateAdv s') as Er by by destruct o.
  assert (∀ c, knownCode d (proceed k o s') c ↔ knownCode d s' c) as Ek by (intros c; unfold knownCode; by rewrite Ep, Es, Ec).
  split; rewrite ?Ep, ?Es, ?Er; try done; try (by eapply pendingKnown_mono; [exact Hp'|]; rewrite Ep, Es, Ec).
  - intros k1 k2 g1 g2 Hl1 Hl2 Hc1 Hc2. pose proof (proceed_from _ _ _ _ _ Hl1) as [[Hn1 Hl1']|[He1 Hall1]].
    + pose proof (proceed_from _ _ _ _ _ Hl2) as [[Hn2 Hl2']|[He2 Hall2]]; rewrite Hgs in *; [by eapply H1|].
      destruct Hn1. eapply H1; [exact Hl1'|exact Hk|done|]. by eapply Hcar.
    + destruct (Hall1 _ _ Hl2) as [->|[Hn2 Hl2']]; [done|]. rewrite Hgs in *. destruct Hn2. eapply H1; [exact Hl2'|exact Hk|done|]. by eapply Hcar.
  - intros j g' codes Hl Hg'. eapply Forall_impl; [|intros c; apply Ek]. apply proceed_from in Hl as [[Hn Hl]|[He _]]; [|by eapply Hcodes]. rewrite Hgs in Hl.
    destruct Hothers as [Hg|Hsame]; [destruct Hn; by eapply H1|]. specialize (Hc _ _ _ Hl Hg').
    eapply knownCode_mono; [exact Hc|]. intros Hopen Hnone.
    destruct Hsame as [?|[?|(E1 & E2 & E3)]]; [congruence|done|]. split_and!; congruence.
  - intros j cur codes Hl Hnn. apply proceed_from in Hl as [[Hn Hl]|[He _]]; [|by specialize (Hwait _ _ He)]. rewrite Hgs in Hl.
    destruct Hwo as [Hg|[?|[E1 E2]]]; [|done|rewrite E1; eapply Hw; [exact Hl|congruence]].
    destruct Hn. eapply H1; [exact Hl|exact Hk|by eexists|done].
  - intros j old new Hl. apply proceed_from in Hl as [[Hn Hl]|[He _]]; [|by destruct (Hne _ He)]. rewrite Hgs in Hl. by eapply Hr.
  - intros j g' i Hl. apply proceed_from in Hl as [[Hn Hl]|[He _]]; [|by eapply Hit]. rewrite Hgs in Hl. by eapply Hi.
Qed.

(** The pending rotation is applied to the codes. *)
Lemma codes_rotated d s codes :
  Forall (knownCode d s) codes → pendingKnown s →
  Forall (knownCode d (setRotate false None s)) (match pendingRotation s with Some (_, n) => withSecret n <$> codes | None => codes end).
Proof.
  intros Hmine Hp. unfold pendingKnown, knownCode in *. destruct (pendingRotation s) as [[old new]|].
  - destruct (Hp _ eq_refl) as [Hcf Hnew]. apply Forall_fmap. eapply Forall_impl; [exact Hmine|]. intros c (sec & Hsec & Hcode & _).
    exists new. split; [done|]. split; [by eapply withSecret_code|]. intros Hopen _. by apply Hnew.
  - eapply Forall_impl; [exact Hmine|]. intros c (sec & Hsec & Hcode & Hcur). exists sec. split; [done|]. split; [done|]. intros Hopen _. by apply Hcur.
Qed.

#[local] Arguments proceed : simpl never.
Ltac codes_step :=
  match goal with Hinv : codesInv ?d ?s, Hk : goroutines ?s !! ?k = Some ?g |- _ => eapply (codesInv_proceed d s _ k g _ Hinv Hk) end;
  cbn; intros; simplify_eq/=;
  try solve [done | eauto | by eexists | left; by eexists | right; left; done | right; right; by split_and! | right; right; left; done | right; right; right; by split_and! | right; right; done
    | eapply knownCode_mono; [by eauto|]; cbn; intros; split_and!; congruence | apply pendingKnown_new; by eauto | eapply pendingKnown_mono; [eassumption|]; cbn; intros; split_and?; intros; split_and?; congruence | intros; simplify_eq/=; eauto].

Lemma codesInv_step d w c k g s s' o :
  codesInv d s → goroutines s !! k = Some g → run w c g s = Some (s', o) → codesInv d (proceed k o s').
Proof.
  intros Hinv Hk Hrun. pose proof Hinv as [H1 Hc Hp Hs Hw Hr Hi]. pose proof (λ i, Hi _ _ i Hk) as Hmy.
  assert (∀ codes, carries g = Some codes → Forall (knownCode d s) codes) as Hmine by (intros codes Hcodes; exact (Hc _ _ _ Hk Hcodes)).
  destruct g as [codes|codes|cur codes| |andThen|e|i|i|i|i|]; cbn in Hrun.
  - unfold emitTop in Hrun. repeat (case_match; simplify_eq/=); codes_step.
  - (* a code *)
    unfold emitCode in Hrun. assert (Forall (knownCode d (setRotate false None s)) (match pendingRotation s with Some (_, n) => withSecret n <$> codes | None => codes end)) as Hnew by (eapply codes_rotated; eauto).
    destruct (match pendingRotation s with Some _ => _ | None => _ end) as [|next rest].
    + injection Hrun as <- <-. codes_step.
    + injection Hrun as Hrun. repeat (case_match; simplify_eq/=); codes_step.
  - unfold emitWait in Hrun. specialize (Hmine _ eq_refl). pose proof Hmine as [Hcur Hrest]%Forall_cons.
    destruct w; repeat (case_match; simplify_eq/=); codes_step.
  - unfold send in Hrun. repeat (case_match; simplify_eq/=); codes_step.
  - unfold closing in Hrun. destruct andThen; repeat (case_match; simplify_eq/=); codes_step.
  - unfold handleEvent in Hrun. destruct (closed s) eqn:Hcl; [destruct e as [[]|[]]; injection Hrun as <- <-; codes_step|].
    destruct e as [[]|[]]; repeat (case_match; simplify_eq/=); codes_step.
  - unfold send in Hrun. repeat (case_match; simplify_eq/=); codes_step.
  - repeat (case_match; simplify_eq/=); codes_step.
  - repeat (case_match; simplify_eq/=); codes_step.
  - unfold send in Hrun. repeat (case_match; simplify_eq/=); codes_step.
  - unfold closing in Hrun. repeat (case_match; simplify_eq/=); codes_step.
Qed.

(** Runs in which one QR event arrives, with codes of the secret that is known then; the
    secrets that others replace it by are encoded bytes. *)
Inductive qrRun (d : storeDevice) : bool → qrChannel → Prop :=
| RunOpened key : qrRun d false (opened (stdEncode key))
| RunAct seen a s s' : qrRun d seen s → act a s = Some s' → (∀ codes, a ≠ Arrives (FromNode (QR codes))) →
    (∀ old new, a = Arrives (FromNode (RotateADVSecret old new)) → ∃ key, new = stdEncode key) → qrRun d seen s'
| RunCodes refs clientType s s' : qrRun d false s → Forall commaFree refs →
    act (Arrives (FromNode (QR ((λ ref, codeText d (secret s) ref clientType) <$> refs)))) s = Some s' → qrRun d true s'.

Lemma qrRun_acts d l s s' : qrRun d true s → acts l s = Some s' →
  Forall (λ a, (∀ codes, a ≠ Arrives (FromNode (QR codes))) ∧ ∀ old new, a = Arrives (FromNode (RotateADVSecret old new)) → ∃ key, new = stdEncode key) l → qrRun d true s'.
Proof.
  revert s. induction l as [|a l IH]; intros s Hs; cbn; [by intros [= <-]|]. destruct (act a s) as [s1|] eqn:Ha; [|done]. cbn.
  intros Hl [[Hq Hr] Hall]%Forall_cons. eapply IH; [|exact Hl|exact Hall]. by eapply RunAct.
Qed.

Lemma act_cases a s s' : act a s = Some s' →
  (∃ e, a = Arrives e ∧ s' = setGoroutines (<[fresh (dom (goroutines s)) := Handling e]> (goroutines s)) s) ∨
  (∃ k w c g s1 o, a = Steps k w c ∧ goroutines s !! k = Some g ∧ run w c g s = Some (s1, o) ∧ s' = proceed k o s1) ∨
  (a = Takes ∧ s' = takeItem s).
Proof.
  unfold act. destruct (panicked s); [done|]. destruct a as [e|k w c|].
  - intros [= <-]. left. by exists e.
  - destruct (goroutines s !! k) as [g|] eqn:Hk; [|done]. cbn. destruct (run w c g s) as [[s1 o]|] eqn:Hr; [|done]. intros [= <-].
    right; left. by exists k, w, c, g, s1, o.
  - destruct (buffer s); [done|]. intros [= <-]. by right; right.
Qed.

Lemma codesInv_arrives d e s :
  codesInv d s → (∀ codes, e = FromNode (QR codes) → (∀ k g, goroutines s !! k = Some g → carries g = None) ∧ Forall (codeFor d (secret s)) codes) →
  (∀ old new, e = FromNode (RotateADVSecret old new) → commaFree new) →
  codesInv d (setGoroutines (<[fresh (dom (goroutines s)) := Handling e]> (goroutines s)) s).
Proof.
  intros [H1 Hc Hp Hs Hw Hr Hi] Hqr Hrot. assert (∀ cs, carries (Handling e) = Some cs → e = FromNode (QR cs)) as Hcar.
  { intros cs. destruct e as [[]|]; cbn; try done. by intros [= ->]. }
  split; cbn; try done.
  - intros k1 k2 g1 g2 [[<- <-]|[_ Hl1]]%lookup_insert_Some [[<- <-]|[_ Hl2]]%lookup_insert_Some [cs1 Hc1] [cs2 Hc2]; [done| | |by eapply H1].
    + destruct (Hqr _ (Hcar _ Hc1)) as [Hno _]. specialize (Hno _ _ Hl2). congruence.
    + destruct (Hqr _ (Hcar _ Hc2)) as [Hno _]. specialize (Hno _ _ Hl1). congruence.
  - intros k g codes [[_ <-]|[_ Hl]]%lookup_insert_Some Hg; [|by eapply Hc]. destruct (Hqr _ (Hcar _ Hg)) as [_ Hall].
    eapply Forall_impl; [exact Hall|]. intros c Hcode. by exists (secret s).
  - intros k cur codes [[_ Hl]|[_ Hl]]%lookup_insert_Some; [done|by eapply Hw].
  - intros k old new [[_ [= ->]]|[_ Hl]]%lookup_insert_Some; [by eapply Hrot|by eapply Hr].
  - intros k g i [[_ <-]|[_ Hl]]%lookup_insert_Some; [done|by eapply Hi].
Qed.

Lemma run_carries w c g s s' o g' : run w c g s = Some (s', o) → nextOf o = Some g' → is_Some (carries g') → is_Some (carries g).
Proof.
  intros Hr Ho [cs Hc]. destruct g; cbn in Hr; unfold emitTop, emitCode, emitWait, send, closing, handleEvent in Hr;
    repeat (case_match; simplify_eq/=); by eexists.
Qed.

Lemma run_goroutines w c g s s' o : run w c g s = Some (s', o) → goroutines s' = goroutines s.
Proof.
  destruct g; cbn; unfold emitTop, emitCode, emitWait, send, closing, handleEvent; intros Hr; repeat (case_match; simplify_eq/=); done.
Qed.

Lemma qrRun_inv d seen s : qrRun d seen s → codesInv d s ∧ (seen = false → ∀ k g, goroutines s !! k = Some g → carries g = None).
Proof.
  induction 1 as [key|seen a s s' _ [IH Hno] Ha Hq Hr|refs ct s s' _ [IH Hno] Hrefs Ha].
  - split; [split; cbn; try done; try (intros; by rewrite lookup_empty in *); apply stdEncode_commaFree|]. intros _ k g. cbn. by rewrite lookup_empty.
  - apply act_cases in Ha as [(e & -> & ->)|[(k & w & c & g & s1 & o & -> & Hk & Hrun & ->)|[-> ->]]].
    + split.
      * apply codesInv_arrives; [done| |]; [intros codes ->; by destruct (Hq codes)|]. intros old new ->. destruct (Hr old new eq_refl) as [key ->]. apply stdEncode_commaFree.
      * intros Hf k g. cbn. intros [[_ <-]|[_ Hl]]%lookup_insert_Some; [|by eapply Hno]. destruct e as [[]|]; cbn; try done. by destruct (Hq codes).
    + split; [by eapply codesInv_step|]. intros Hf j g' Hl. apply eq_None_not_Some. intros Hc.
      apply proceed_from in Hl as [[_ Hl]|[Ho _]].
      * rewrite (run_goroutines _ _ _ _ _ _ Hrun) in Hl. specialize (Hno Hf _ _ Hl). rewrite Hno in Hc. by destruct Hc.
      * destruct (run_carries _ _ _ _ _ _ _ Hrun Ho Hc) as [cs Hcs]. specialize (Hno Hf _ _ Hk). congruence.
    + split; [|done]. destruct IH as [H1 Hc Hp Hs Hw Hr' Hi]. by split.
  - apply act_cases in Ha as [(e & [= <-] & ->)|[(k & w & c & g & s1 & o & ? & _)|[? _]]]; [|done..]. split; [|done]. apply codesInv_arrives; [done| |done].
    intros codes [= <-]. split; [by apply Hno|]. apply Forall_fmap, Forall_forall. intros ref Hin. exists ref, ct. split; [|done].
    rewrite Forall_forall in Hrefs. by apply Hrefs.
Qed.

Lemma codeFor_secret d sec sec' code : commaFree sec → commaFree sec' → codeFor d sec code → codeFor d sec' code → sec = sec'.
Proof.
  intros Hs Hs' (ref & ct & Hr & ->) (ref' & ct' & Hr' & He). apply (f_equal (λ c, splitN comma 5 (s2b c))) in He.
  rewrite !codeText_parts in He by done. injection He as _ He _. by apply s2b_inj.
Qed.

Lemma act_step k w c s g s1 o :
  panicked s = false → goroutines s !! k = Some g → run w c g s = Some (s1, o) → act (Steps k w c) s = Some (proceed k o s1).
Proof. intros Hp Hk Hr. unfold act. rewrite Hp, Hk. cbn. by rewrite Hr. Qed.

(** C38: which codes the application gets, whatever other events arrive and however the
    goroutines interleave, when the server sent one list of references. Every code that is
    put into the channel while the flag is unset is the code of one of the references with
    the secret that the last handled event told of. And if the code that is shown is older than the newest secret, then the
    goroutine that waits is woken, and its next item, unless the flag is set or the channel
    is full, is the same code with the newest secret. With a second list of references, or
    after the flag was set, an older code may be put into the channel: [second_list_keeps_secret]
    and [dropped_rotation]. *)
Theorem qr_codes_current (d : storeDevice) (seen : bool) (s : qrChannel) :
  qrRun d seen s → panicked s = false →
  (∀ a s' code timeout, act a s = Some s' → emitted s' = (emitted s ++ [CodeItem code timeout])%list → closed s = false → codeFor d (secret s) code) ∧
  (∀ k current codes, goroutines s !! k = Some (EmitWait current codes) → ¬ codeFor d (secret s) current →
     closed s = false → outputClosed s = false → (length (buffer s) < 8)%nat →
     ∃ s', acts [Steps k RotateSignal true; Steps k TimeOut true; Steps k TimeOut true] s = Some s' ∧
       emitted s' = (emitted s ++ [CodeItem (withSecret (secret s) current) (codeTimeout (current :: codes))])%list ∧
       codeFor d (secret s) (withSecret (secret s) current)).
Proof.
  intros Hrun Hp. destruct (qrRun_inv _ _ _ Hrun) as [[H1 Hc Hpend Hs Hw Hr Hi] _]. split.
  - intros a s' code timeout Ha He Hopen. apply act_cases in Ha as [(e & _ & ->)|[(k & w & c & g & s1 & o & _ & Hk & Hr1 & ->)|[_ ->]]].
    + cbn in He. exfalso. revert He. rewrite <- (app_nil_r (emitted s)) at 1. by intros ?%(inj _).
    + assert (emitted (proceed k o s1) = emitted s1) as Ee by by destruct o. rewrite Ee in He.
      assert (∀ P, emitted s = (emitted s ++ [CodeItem code timeout])%list → P) as Hno.
      { intros P Hn. exfalso. revert Hn. rewrite <- (app_nil_r (emitted s)) at 1. by intros ?%(inj _). }
      pose proof (λ cs H, Hc _ _ cs Hk H) as Hmine. pose proof (λ i, Hi _ _ i Hk) as Hmy.
      destruct g as [codes|codes|cur codes| |andThen|e|i|i|i|i|]; cbn in Hr1; unfold emitTop, emitWait, send, closing, handleEvent in Hr1.
      all: try solve [repeat (case_match; simplify_eq/=); try (by apply Hno); by specialize (Hmy _ eq_refl)].
      * unfold emitCode in Hr1. destruct (pendingRotation s) as [[old new]|] eqn:Hpr.
        -- specialize (Hmine _ eq_refl). destruct codes as [|c0 codes]; cbn in Hr1; [simplify_eq/=; by apply Hno|].
           apply Forall_cons in Hmine as [(sec & Hcf & Hcode & _) _].
           repeat (case_match; simplify_eq/=); try (by apply Hno).
           rewrite <- (proj2 (Hpend _ Hpr) Hopen). by eapply withSecret_code.
        -- specialize (Hmine _ eq_refl). destruct codes as [|c0 codes]; cbn in Hr1; [simplify_eq/=; by apply Hno|].
           apply Forall_cons in Hmine as [(sec & Hcf & Hcode & Hsec) _].
           repeat (case_match; simplify_eq/=); try (by apply Hno). by rewrite <- (Hsec Hopen Hpr).
    + cbn in He. exfalso. revert He. rewrite <- (app_nil_r (emitted s)) at 1. by intros ?%(inj _).
  - intros k current codes Hk Hold Hcl Hout Hbuf. pose proof (Hc _ _ _ Hk eq_refl) as [(sec & Hcf & Hcode & Hsec) _]%Forall_cons.
    destruct (pendingRotation s) as [[old new]|] eqn:Hpr; [|destruct Hold; by rewrite <- (Hsec Hcl eq_refl)].
    assert (rotateAdv s = true) as Hrot by (eapply Hw; [exact Hk|done]). pose proof (proj2 (Hpend _ Hpr) Hcl) as Hnew. cbn in Hnew. subst new.
    eexists. split; [|split; [|by eapply withSecret_code]].
    + assert (∀ gs s1, s1 = setGoroutines gs (setRotate false (pendingRotation s) s) →
                run TimeOut true (EmitCode (current :: codes)) s1 =
                Some (putItem (CodeItem (withSecret (secret s) current) (codeTimeout (current :: codes))) (setRotate false None s1),
                      Continue (EmitWait (withSecret (secret s) current) (withSecret (secret s) <$> codes)))) as Hemit.
      { intros gs s1 ->. unfold run, emitCode. change (pendingRotation (setGoroutines gs (setRotate false (pendingRotation s) s))) with (pendingRotation s).
        rewrite Hpr. cbn [fmap list_fmap]. cbn -[Nat.ltb]. by rewrite Hout, (proj2 (Nat.ltb_lt _ _) Hbuf). }
      cbn [acts]. rewrite (act_step k RotateSignal true s _ (setRotate false (pendingRotation s) s) (Continue (EmitTop (current :: codes))) Hp Hk); [|cbn; by rewrite Hrot]. cbn [mbind option_bind].
      set (s1 := proceed k (Continue (EmitTop (current :: codes))) (setRotate false (pendingRotation s) s)).
      rewrite (act_step k TimeOut true s1 (EmitTop (current :: codes)) s1 (Continue (EmitCode (current :: codes)))); [|exact Hp|apply lookup_insert_eq|].
      2: { unfold run, emitTop. change (closed s1) with (closed s). by rewrite Hcl. }
      cbn [mbind option_bind]. set (s2 := proceed k (Continue (EmitCode (current :: codes))) s1).
      rewrite (act_step k TimeOut true s2 (EmitCode (current :: codes)) _ _ Hp (lookup_insert_eq _ _ _) (Hemit _ _ eq_refl)). cbn [mbind option_bind].
      reflexivity.
    + reflexivity.
Qed.

(** ** Runs

    Two events that end the codes, handled at the same time, end them twice; an event whose
    item is put while another goroutine closes the channel, and a code: all of them panic.
    A code may also follow the last item. *)
#[local] Existing Instance toyCurve.

Definition pairedEvent : qrEvent := FromNode (PairSuccess EmptyJID EmptyJID "" "" None).
Definition rotated (new : string) : qrEvent := FromNode (RotateADVSecret "" new).
Definition go (k : nat) : qrAction := Steps k TimeOut true.
Definition qrDevice : storeDevice := NewDevice (mkRandom (replicate 32 x01) (replicate 32 x02) (replicate 32 x03) 7 (replicate 32 x06)).
Definition firstSecret : string := stdEncode (AdvSecretKey qrDevice).
Definition twoCodes : qrEvent := FromNode (QR ((λ ref, codeText qrDevice firstSecret ref "1") <$> ["a"; "b"])).

Example ended_twice_panics : panicked <$> acts [Arrives pairedEvent; Arrives (FromConnection Disconnected); go 0; go 1; go 0; go 1] (opened "") = Some true.
Proof. vm_compute. reflexivity. Qed.
Example send_after_close_panics :
  panicked <$> acts [Arrives (FromNode QRScannedWithoutMultidevice); go 0; Arrives (FromConnection Disconnected); go 1; go 1; go 1; go 1; go 1; go 0] (opened "") = Some true.
Proof. vm_compute. reflexivity. Qed.
Example code_after_last : (λ s, (itemEvent <$> emitted s, closed s)) <$>
  acts [Arrives twoCodes; go 0; go 1; go 1; go 1; go 1; Arrives pairedEvent; go 2; go 2; go 2; go 2; go 1] (opened firstSecret) = Some (["code"; "success"; "code"], true).
Proof. vm_compute. reflexivity. Qed.

(** Two lists of references at once: the rotation is applied to one of them. *)
Definition otherSecret : string := stdEncode (replicate 32 x09).
Definition oneCode (ref : string) : qrEvent := FromNode (QR [codeText qrDevice firstSecret ref "1"]).
Example second_list_keeps_secret : (λ s, (emitted s, closed s)) <$>
  acts [Arrives (oneCode "a"); go 0; Arrives (oneCode "b"); go 2; Arrives (rotated otherSecret); go 4; go 1; go 1; go 3; go 3] (opened firstSecret) =
  Some ([CodeItem (codeText qrDevice otherSecret "a" "1") 20; CodeItem (codeText qrDevice firstSecret "b" "1") 20], false).
Proof. vm_compute. reflexivity. Qed.
(** A rotation that arrives after the flag was set is dropped; the emitter may be past its
    check of the flag. *)
Example dropped_rotation : (λ s, (emitted s, closed s, secret s)) <$>
  acts [Arrives (oneCode "a"); go 0; go 1; Arrives pairedEvent; go 2; go 2; go 2; Arrives (rotated otherSecret); go 3; go 1] (opened firstSecret) =
  Some ([CodeItem (codeText qrDevice firstSecret "a" "1") 20], true, otherSecret).
Proof. vm_compute. reflexivity. Qed.

(** A code is shown, the secret is replaced, and the pairing succeeds. *)
Definition toyActions : list qrAction := [Arrives twoCodes; go 0; go 1; go 1; Arrives (rotated "new="); go 2; Arrives pairedEvent; go 2; go 2; go 2; go 2; go 2].
Definition toyChannel : option qrChannel := acts toyActions (opened firstSecret).
Definition channelOr (o : option qrChannel) : qrChannel := default (opened "") o.

Lemma qr_channel_closed_once_witness :
  toyChannel = Some (channelOr toyChannel) ∧ outputClosed (channelOr toyChannel) = true ∧
  ∀ a s', act a (channelOr toyChannel) = Some s' → emitted s' = emitted (channelOr toyChannel).
Proof.
  assert (toyChannel = Some (channelOr toyChannel)) as Hrun by (vm_compute; reflexivity).
  assert (outputClosed (channelOr toyChannel) = true) as Hout by (vm_compute; reflexivity).
  split; [exact Hrun|]. split; [exact Hout|].
  destruct (qr_channel_closed_once firstSecret toyActions (channelOr toyChannel) Hrun ltac:(vm_compute; reflexivity)) as (_ & _ & _ & Hsame & _).
  intros a s' Ha. exact (Hsame a s' Ha Hout).
Defined.

(** The first code is shown when the secret is replaced. *)
Definition newSecretKey : list byte := replicate 32 x09.
Definition toyShownCode : option qrChannel := acts [Arrives twoCodes; go 0; go 1; go 1; Arrives (rotated (stdEncode newSecretKey)); go 2] (opened firstSecret).
Lemma toyShown_run : qrRun qrDevice true (channelOr toyShownCode).
Proof.
  destruct (act (Arrives twoCodes) (opened firstSecret)) as [s0|] eqn:H0; [|exfalso; vm_compute in H0; discriminate].
  assert (acts [go 0; go 1; go 1; Arrives (rotated (stdEncode newSecretKey)); go 2] s0 = Some (channelOr toyShownCode)) as Hrest.
  { vm_compute in H0. injection H0 as <-. vm_compute. reflexivity. }
  eapply qrRun_acts; [|exact Hrest|].
  - eapply RunCodes; [apply (RunOpened qrDevice (AdvSecretKey qrDevice))| |exact H0]. repeat constructor; refine (bool_decide_eq_false_1 _ _); vm_compute; reflexivity.
  - repeat constructor; try discriminate. intros old new [= _ <-]. by eexists.
Qed.

Lemma qr_codes_current_witness :
  goroutines (channelOr toyShownCode) !! 1%nat = Some (EmitWait (codeText qrDevice firstSecret "a" "1") [codeText qrDevice firstSecret "b" "1"]) ∧
  ∃ s', acts [Steps 1 RotateSignal true; Steps 1 TimeOut true; Steps 1 TimeOut true] (channelOr toyShownCode) = Some s' ∧
    emitted s' = [CodeItem (codeText qrDevice firstSecret "a" "1") 20; CodeItem (withSecret (stdEncode newSecretKey) (codeText qrDevice firstSecret "a" "1")) 20].
Proof.
  assert (goroutines (channelOr toyShownCode) !! 1%nat = Some (EmitWait (codeText qrDevice firstSecret "a" "1") [codeText qrDevice firstSecret "b" "1"])) as Hk
    by (vm_compute; reflexivity).
  split; [exact Hk|].
  destruct (qr_codes_current qrDevice true (channelOr toyShownCode) toyShown_run ltac:(vm_compute; reflexivity)) as [_ Hwake].
  destruct (Hwake 1%nat _ _ Hk) as (s' & Hrun & He & _).
  - intros Hc. assert (firstSecret = stdEncode newSecretKey) as Heq; [|vm_compute in Heq; discriminate].
    eapply (codeFor_secret qrDevice); [apply stdEncode_commaFree|apply stdEncode_commaFree| |exact Hc].
    exists "a", "1". split; [refine (bool_decide_eq_false_1 _ _); vm_compute; reflexivity|reflexivity].
  - vm_compute. reflexivity.
  - vm_compute. reflexivity.
  - vm_compute. repeat constructor.
  - exists s'. split; [exact Hrun|]. etransitivity; [exact He|]. vm_compute. reflexivity.
Defined.
