(* ===== verification/MediaRetry.v ===== *)
(** Asking the phone to upload media again (src/mediaretry.go). *)
From Stdlib Require Import ZArith Lia.
From Stdlib Require Import Strings.Byte.
From stdpp Require Import prelude gmap strings list.
From S2P Require Import Prelude Jid Node Attrs Cbc LTHash Noise SessionCache MessageInfo Receipts Proto Client NodeEvents Events Cli.

#[local] Open Scope string_scope.

Inductive mediaRetryFailure :=
| RetryMarshal | RetryCipher (e : noiseError) | RetryNotLoggedIn | RetryNotSent | MediaNotAvailableOnPhone | UnknownMediaRetryError (code : Z) | RetryUnmarshal.

Section crypto.
Context `{NoiseCrypto} `{HKDF} `{ProtoCodec}.

Definition getMediaRetryKey (mediaKey : list byte) : outcome mediaRetryFailure (list byte) :=
  map_err (Empty_set_rect _) (SHA256 mediaKey [] (s2b "WhatsApp Media Retry Notification") 32).

Definition serverErrorReceipt (messageID : string) : proto := PMsg [("StanzaID", PString messageID)].
(** [iv]: twelve random bytes. *)
Definition encryptMediaRetryReceipt (messageID : string) (mediaKey iv : list byte) : outcome mediaRetryFailure (list byte) :=
  match Marshal (serverErrorReceipt messageID) with
  | None => Err RetryMarshal
  | Some plaintext => key ← getMediaRetryKey mediaKey; map_err RetryCipher (gcmEncrypt key iv plaintext (s2b messageID))
  end.

(** An error that is not encrypted, or the notification. *)
Definition DecryptMediaRetryNotification (evt : MediaRetryEvent) (mediaKey : list byte) : outcome mediaRetryFailure proto :=
  match mrError evt, mrCiphertext evt with
  | Some code, None => if decide (code = 2%Z) then Err MediaNotAvailableOnPhone else Err (UnknownMediaRetryError code)
  | _, ciphertext =>
      key ← getMediaRetryKey mediaKey;
      plaintext ← map_err RetryCipher (gcmDecrypt key (mrIV evt) (default [] ciphertext) (s2b (mrMessageID evt)));
      match Unmarshal "waMmsRetry.MediaRetryNotification" plaintext with Some m => Ok m | None => Err RetryUnmarshal end
  end.
End crypto.

Section client.
Context `{SignalOps} `{ProtoCodec} `{NoiseCrypto} `{HKDF} {outside : Outside}.
#[local] Existing Instances cliM_ret cliM_bind.

Definition retryRequest (own : JID) (message : Info) (ciphertext iv : list byte) : node :=
  mkNode "receipt" [("id", VString (ID message)); ("to", VJID own); ("type", VString "server-error")]
    (VNodes [mkNode "encrypt" [] (VNodes [mkNode "enc_p" [] (VBytes ciphertext); mkNode "enc_iv" [] (VBytes iv)]);
             mkNode "rmr" ([("jid", VJID (Chat (source message))); ("from_me", VBool (IsFromMe (source message)))]
                           ++ (if IsGroup (source message) then [("participant", VJID (Sender (source message)))] else [])) VNil]).

Definition SendMediaRetryReceipt (message : Info) (mediaKey : list byte) : cliM mediaRetryFailure unit :=
  iv ← random 12;
  ciphertext ← lift (encryptMediaRetryReceipt (ID message) mediaKey iv);
  let own := ToNonAD ownID in
  if IsEmpty own then throw RetryNotLoggedIn
  else sent ← trySend (retryRequest own message ciphertext iv); if (sent : bool) then mret tt else throw RetryNotSent.

Definition handleMediaRetryNotification {F} (n : node) : cliM F unit :=
  match parseMediaRetryNotification n with
  | Ok evt => _ ← dispatch (NodeEvent (MediaRetried evt)); mret tt
  | _ => mret tt
  end.
End client.

(** * Properties *)

Section properties.
Context `{NoiseCrypto} `{!NoiseLaws} `{HKDF} `{ProtoCodec} `{!ProtoCodecLaws}.

(** What the phone seals under the key of the media is what the application gets. *)
Lemma notification_opens mediaKey key iv messageID notification plaintext ciphertext evt :
  getMediaRetryKey mediaKey = Ok key → Marshal notification = Some plaintext → gcmEncrypt key iv plaintext (s2b messageID) = Ok ciphertext →
  mrCiphertext evt = Some ciphertext → mrIV evt = iv → mrMessageID evt = messageID →
  DecryptMediaRetryNotification evt mediaKey = Ok notification.
Proof.
  intros Hk Hm He Hc Hiv Hid. unfold DecryptMediaRetryNotification. rewrite Hc, Hiv, Hid, Hk. cbn.
  assert (gcmDecrypt key iv ciphertext (s2b messageID) = Ok plaintext) as ->.
  { unfold gcmEncrypt, gcmDecrypt, Prepare in *. destruct (NewCipher key) as [b|]; [|done]. destruct (NewGCM b) as [g|] eqn:Hg; [|done]. cbn in *.
    case_decide; [done|]. injection He as <-. by rewrite (proj2 (open_seal b g iv _ (s2b messageID) plaintext Hg) eq_refl). }
  cbn. rewrite (unmarshal_marshal _ _ _ Hm). by destruct (mrError evt).
Qed.

(** A notification whose IV has not twelve bytes parses, and makes the application panic
    when it decrypts it. *)
Lemma short_iv_panics key evt mediaKey ciphertext : getMediaRetryKey mediaKey = Ok key → is_ok (Prepare key) = true →
  mrCiphertext evt = Some ciphertext → length (mrIV evt) ≠ 12%nat → DecryptMediaRetryNotification evt mediaKey = Panic.
Proof.
  intros Hk Hp Hc Hiv. unfold DecryptMediaRetryNotification. rewrite Hc, Hk. unfold gcmDecrypt.
  destruct (mrError evt); cbn; destruct (Prepare key); try done; cbn; by rewrite decide_True.
Qed.
End properties.

Example short_iv_parses :
  is_ok (parseMediaRetryNotification (mkNode "notification" [("t", VString "1700000000"); ("id", VString "A")]
    (VNodes [mkNode "rmr" [("jid", VJID ServerJID); ("from_me", VString "true")] VNil;
             mkNode "encrypt" [] (VNodes [mkNode "enc_p" [] (VBytes [x01]); mkNode "enc_iv" [] (VBytes [x01])])]))) = true.
Proof. vm_compute. reflexivity. Qed.
