(* ===== verification/Notification.v ===== *)
(** The whole client, and its handlers of notifications (src/notification.go), calls
    (src/call.go), presence (src/presence.go), privacy settings (src/privacysettings.go) and
    of a connection that was accepted (src/connectionevents.go). *)
From Stdlib Require Import ZArith Lia.
From Stdlib Require Import Strings.Byte.
From stdpp Require Import prelude gmap strings list fin_maps.
From S2P Require Import Prelude Strconv Jid Node Attrs Decoder Cache Cbc LTHash Noise Handshake Sql SignalStore IdentityCache SessionCache LidMap LidMapSpec Requests PreKeys PreKeyUpload MessageInfo Receipts Contacts Proto Client NodeEvents Events Devices TcToken ChatSettings Groups Cli Users Send Retry Receive DeviceStore Pair PairCode PairPasskey MediaRetry.

#[local] Open Scope string_scope.

(** ** State

    [sendActive]: the flag of active receipts. [nonceWaiter]: the channel, of one place, of
    who waits for a nonce of the catalog. *)
Record whole `{SessionCodec} := mkWhole {
  wPair : (cli * pairing) * passkeyState;
  privacyCache : option PrivacySettings;
  pendingProps : gset string;
  nonceWaiter : option (option string);
  sendActive : Z;
  lastUpload : option Z;
  keysUploaded : bool;
  AutoReconnectErrors : Z;
  loggedIn : bool;
  LastSuccessfulConnect : option Z
}.
Arguments mkWhole {_}.

Inductive fetchResult := Fetched | FetchDisconnected | FetchFailed.
(** What the handlers call outside of this library's models or configure: the fetching of
    app state is [AppStateFetch.fetchAppState]; [keysAccepted]: whether an upload of prekeys was
    answered with a result. *)
Class NotificationOps := {
  fetchAppState : nat → string → fetchResult;
  keysAccepted : nat → bool;
  ServerABPropsSync : option (nat → bool);
  ErrorOnSubscribePresenceWithoutToken : bool
}.

Definition setLID v (d : storeDevice) : storeDevice :=
  let 'mkStoreDevice nk ik spk rid adv id _ acc pf bn pn fb lm nonce init del := d in mkStoreDevice nk ik spk rid adv id v acc pf bn pn fb lm nonce init del.

Inductive presenceError := NoPushName | PresenceToken (e : tcError) | NoPrivacyToken | PresenceNotSent.
Inductive privacyError := PrivacyIQ (e : iqError) | PrivacyMissing.
Inductive callError := CallNotLoggedIn | CallNotSent.

Section whole.
Context `{SignalOps} `{ProtoCodec} `{NoiseCrypto} `{HKDF} `{CurveOps} `{KeyDerivation} `{PairOps} `{WebAuthn} `{MexJSON} `{NotificationOps} {outside : Outside} `{MapOrder}.
#[local] Existing Instances cliM_ret cliM_bind.

Definition set_wPair v (w : whole) := mkWhole v (privacyCache w) (pendingProps w) (nonceWaiter w) (sendActive w) (lastUpload w) (keysUploaded w) (AutoReconnectErrors w) (loggedIn w) (LastSuccessfulConnect w).
Definition set_privacyCache v (w : whole) := mkWhole (wPair w) v (pendingProps w) (nonceWaiter w) (sendActive w) (lastUpload w) (keysUploaded w) (AutoReconnectErrors w) (loggedIn w) (LastSuccessfulConnect w).
Definition set_pendingProps v (w : whole) := mkWhole (wPair w) (privacyCache w) v (nonceWaiter w) (sendActive w) (lastUpload w) (keysUploaded w) (AutoReconnectErrors w) (loggedIn w) (LastSuccessfulConnect w).
Definition set_nonceWaiter v (w : whole) := mkWhole (wPair w) (privacyCache w) (pendingProps w) v (sendActive w) (lastUpload w) (keysUploaded w) (AutoReconnectErrors w) (loggedIn w) (LastSuccessfulConnect w).
Definition set_sendActive v (w : whole) := mkWhole (wPair w) (privacyCache w) (pendingProps w) (nonceWaiter w) v (lastUpload w) (keysUploaded w) (AutoReconnectErrors w) (loggedIn w) (LastSuccessfulConnect w).
Definition set_uploads v b (w : whole) := mkWhole (wPair w) (privacyCache w) (pendingProps w) (nonceWaiter w) (sendActive w) v b (AutoReconnectErrors w) (loggedIn w) (LastSuccessfulConnect w).
Definition set_login (t : Z) (w : whole) := mkWhole (wPair w) (privacyCache w) (pendingProps w) (nonceWaiter w) (sendActive w) (lastUpload w) (keysUploaded w) 0 true (Some t).

Definition wholeM (F A : Type) : Type := stateM whole F A.
#[local] Instance wholeM_ret {F} : MRet (wholeM F) := λ A, stateM_ret A.
#[local] Instance wholeM_bind {F} : MBind (wholeM F) := λ A B, stateM_bind A B.

Definition onPasskey {F A} (m : passkeyM F A) : wholeM F A := zoom wPair set_wPair id m.
Definition onPairing {F A} (m : pairM F A) : wholeM F A := onPasskey (onPair m).
Definition onCli {F A} (m : cliM F A) : wholeM F A := onPairing (onClient m).
Definition tell {F} (e : nodeEvent) : wholeM F bool := onCli (dispatch (NodeEvent e)).
Definition startTask {F} (t : nodeTask) : wholeM F unit := onCli (start (NodeTask t)).
Definition theDeviceOf {F} : wholeM F storeDevice := w ← get; mret (pDevice (wPair w).1.2).
Definition ignore {F A} (m : wholeM F A) : wholeM F unit := _ ← m; mret tt.
Fixpoint each {F A} (f : A → wholeM F unit) (l : list A) : wholeM F unit := match l with [] => mret tt | a :: l => _ ← f a; each f l end.

(** ** Prekeys *)

Definition countQuery : infoQuery := mkInfoQuery "encrypt" "get" ServerJID EmptyJID "" "" (VNodes [mkNode "count" [] VNil]).
Definition askCount {F} : cliM F (option node) :=
  r ← Client.try (query (F := iqError) id countQuery); mret (match r with inr n => Some n | inl _ => None end).
Definition uploadKeys {F} (initialUpload : bool) : wholeM F unit := λ w,
  let '((cli, pairing), passkey) := wPair w in
  let t := moment cli in
  let set b u := set_wPair ((set_moment (t + 4)%nat (set_base b cli), pairing), passkey) (set_uploads (lastPreKeyUpload u) (PreKeysUploaded u) w) in
  let countResp := match answerIQ t countQuery with Ok n => Some n | _ => None end in
  match uploadPreKeys (bool_decide (is_Some shadowRelay) || DisabledSignal cfg) initialUpload (λ i, take 32 (drop (32 * i) (randomBytes (t + 1) (32 * (i + 1))))) (clock t) (clock (t + 3))
          countResp (keysAccepted (t + 2)) (mkUploader (cPreKeys (base cli)) (lastUpload w) (keysUploaded w)) with
  | (Ok _, u) => (Ok tt, set (set_cPreKeys (preKeys u) (base cli)) u)
  | (Panic, u) => (Panic, set (set_cPreKeys (preKeys u) (base cli)) u)
  | (_, u) => (OutOfFuel, set (set_cPreKeys (preKeys u) (base cli)) u)
  end.

(** ** Changes of identities *)

Definition identityChangeSignalUsers (jid : JID) : list string :=
  if decide (Server jid = DefaultUserServer ∨ Server jid = HostedServer) then [User jid; User jid +:+ "_128"]
  else if decide (Server jid = HiddenUserServer ∨ Server jid = HostedLIDServer) then [User jid +:+ "_1"; User jid +:+ "_129"]
  else [SignalAddressUser jid].

(** The other address of the user; none when it is not known, or the lookup failed. *)
Definition alternateOf {F} (from : JID) : cliM F JID :=
  r ← Client.try (F := lidError)
        (if decide (Server from = DefaultUserServer ∨ Server from = HostedServer) then lidFor (NewJID (User from) DefaultUserServer)
         else if decide (Server from = HiddenUserServer ∨ Server from = HostedLIDServer) then pnFor (NewJID (User from) HiddenUserServer)
         else mret EmptyJID);
  mret (match r with inr j => j | inl _ => EmptyJID end).
Definition forgetUser {F} (user : string) : cliM F unit :=
  _ ← attempt (onBase (onDevice id (DeleteAllIdentities user))); attempt (onBase (onDevice id (DeleteAllSessions user))).
Fixpoint forgetUsers {F} (users : list string) : cliM F unit := match users with [] => mret tt | u :: users => _ ← forgetUser u; forgetUsers users end.
(** [slices.Compact]: neighbours that are equal. *)
Fixpoint compact (l : list string) : list string :=
  match l with x :: (y :: _) as rest => if decide (x = y) then compact rest else x :: compact rest | _ => l end.
Definition deleteIdentityChangeState {F} (from : JID) : cliM F unit :=
  alternate ← alternateOf from;
  forgetUsers (compact (identityChangeSignalUsers from ++ (if IsEmpty alternate then [] else identityChangeSignalUsers alternate))%list).

Definition reissueToken {F} (from : JID) : cliM F unit :=
  storage ← Client.try (F := tcError) (onTokens id (resolveTCTokenStorageLID lidChoices from));
  let storageLID := match storage with inr j => j | inl _ => ToNonAD from end in
  pt ← Client.try (F := tcError) (onTokens id (TcToken.onTokens (GetPrivacyToken onSqlite newestToken storageLID)));
  t ← seconds;
  let stored := match pt with inr (Some pt) => SenderTimestamp pt | _ => None end in
  c ← get;
  let '(valid, tokens) := validateAndSetTCTokenSenderTS firstSender t storageLID stored (tokensOf c) in
  _ ← modify (setTokens tokens);
  if (valid : bool) then match getTCTokenSenderTS storageLID tokens with Some ts => start (IssueTokenTask storageLID ts) | None => mret tt end else mret tt.

Definition handleEncryptNotification {F} (n : node) : wholeM F unit :=
  let from := (attrJID "from" (AttrGetter_of n)).1 in
  if decide (from = ServerJID) then
    let '(otksLeft, ag) := attrInt "value" (AttrGetter_of (GetChildByTag n ["count"])) in
    if OK ag && (otksLeft <? MinPreKeyCount)%Z then uploadKeys false else mret tt
  else
    match GetOptionalChildByTag n ["identity"] with
    | (_, true) =>
        _ ← onCli (deleteIdentityChangeState from);
        _ ← onCli (reissueToken from);
        _ ← tell (IdentityChanged from (attrUnixTime "t" (AttrGetter_of n)).1);
        mret tt
    | _ => mret tt
    end.

(** ** App state *)

(** A lost connection ends the loop: the states change before a remote logout. *)
Fixpoint fetchCollections {F} (collections : list node) : wholeM F unit :=
  match collections with
  | [] => mret tt
  | c :: collections =>
      t ← onCli tick;
      match fetchAppState t (attrString "name" (AttrGetter_of c)).1 with
      | FetchDisconnected => mret tt
      | Fetched | FetchFailed => fetchCollections collections
      end
  end.
Definition handleAppStateNotification {F} (n : node) : wholeM F unit := fetchCollections (GetChildrenByTag n "collection").

(** ** Pictures, devices, blocked users *)

Definition handlePictureNotification {F} (n : node) : wholeM F unit :=
  let ts := (attrUnixTime "t" (AttrGetter_of n)).1 in
  each (λ child, match parsePicture ts child with Some p => ignore (tell (PictureChanged p)) | None => mret tt end) (GetChildren n).

Definition onDevices {F} (f : gmap JID deviceCache → gmap JID deviceCache) : cliM F unit := modify (λ c, set_cDevices (f (cDevices c)) c).
Definition handleDevices {F} (n : node) : cliM F unit :=
  let '(from, ag) := attrJID "from" (AttrGetter_of n) in
  _ ← (match (OptionalJID "lid" ag).1 with Some lid => StoreLIDPNMapping lid from | None => mret tt end);
  onDevices (Devices.handleDeviceNotification firstDevices n).

Definition handleBlocklist {F} (n : node) : wholeM F unit := ignore (tell (BlocklistChanged (parseBlocklistEvent n))).

(** ** Privacy settings *)

Definition TryFetchPrivacySettings (ignoreCache : bool) : wholeM privacyError PrivacySettings :=
  w ← get;
  match (if ignoreCache then None else privacyCache w) with
  | Some settings => mret settings
  | None =>
      resp ← onCli (query PrivacyIQ (mkInfoQuery "privacy" "get" ServerJID EmptyJID "" "" (VNodes [mkNode "privacy" [] VNil])));
      match GetOptionalChildByTag resp ["privacy"] with
      | (_, false) => throw PrivacyMissing
      | (privacyNode, true) =>
          let settings := (parsePrivacySettings privacyNode noSettings).1 in
          _ ← modify (set_privacyCache (Some settings)); mret settings
      end
  end.
Definition GetPrivacySettings {F} : wholeM F PrivacySettings :=
  if hasMessengerConfig cfg then mret noSettings
  else r ← Client.try (TryFetchPrivacySettings false); mret (match r with inr settings => settings | inl _ => noSettings end).
Definition SetPrivacySetting (name value : string) : wholeM privacyError PrivacySettings :=
  settings ← TryFetchPrivacySettings false;
  _ ← onCli (query PrivacyIQ (mkInfoQuery "privacy" "set" ServerJID EmptyJID "" ""
        (VNodes [mkNode "privacy" [] (VNodes [mkNode "category" [("name", VString name); ("value", VString value)] VNil])])));
  let settings := applyPrivacySetting name value settings in
  _ ← modify (set_privacyCache (Some settings)); mret settings.
Definition SetDefaultDisappearingTimer (seconds : Z) : wholeM privacyError unit :=
  ignore (onCli (query PrivacyIQ (mkInfoQuery "disappearing_mode" "set" ServerJID EmptyJID "" ""
    (VNodes [mkNode "disappearing_mode" [("duration", VString (Itoa seconds))] VNil])))).
(** The settings that Go has in its cache are changed in place. *)
Definition handlePrivacySettingsNotification {F} (privacyNode : node) : wholeM F unit :=
  r ← Client.try (TryFetchPrivacySettings false);
  match r with
  | inl _ => mret tt
  | inr settings =>
      let '(settings, evt) := parsePrivacySettings privacyNode settings in
      _ ← modify (set_privacyCache (Some settings)); ignore (tell (PrivacySettingsChanged evt))
  end.

Definition accountSync {F} (n child : node) : wholeM F unit :=
  let ag := AttrGetter_of n in
  if decide (Tag child = "privacy") then handlePrivacySettingsNotification child
  else if decide (Tag child = "devices") then onCli (onDevices (Devices.handleOwnDevicesNotification firstDevices ownID ownLID child (attrJID "from" ag).1))
  else if decide (Tag child = "picture") then ignore (tell (PictureChanged (mkPicture (ToNonAD ownID) EmptyJID (attrUnixTime "t" ag).1 false "")))
  else if decide (Tag child = "blocklist") then handleBlocklist child
  else mret tt.
Definition handleAccountSyncNotification {F} (n : node) : wholeM F unit := each (accountSync n) (GetChildren n).

(** ** Tokens *)

Definition notifiedToken (sender : JID) (child : node) : option PrivacyToken :=
  if negb (bool_decide (Tag child = "token")) then None
  else
    let '(tokenType, ag) := attrString "type" (AttrGetter_of child) in
    if negb (bool_decide (tokenType = "trusted_contact")) then None
    else match Content child with
         | VBytes token => Some (mkToken sender token (Unix (attrUnixTime "t" ag).1) None)
         | _ => None
         end.
Definition storeToken {F} (sender : JID) (child : node) : cliM F unit :=
  match notifiedToken sender child with
  | Some token => attempt (onTokens id (TcToken.onTokens (PutPrivacyTokens onSqlite [token])))
  | None => mret tt
  end.
Definition handlePrivacyTokenNotification {F} (n : node) : wholeM F unit :=
  if IsEmpty ownID then mret tt
  else
    let tokens := GetChildByTag n ["tokens"] in
    if negb (bool_decide (Tag tokens = "tokens")) then mret tt
    else
      let '((sender, senderLID), parentAG) :=
        (sender ← attrJID "from"; lid ← OptionalJIDOrEmpty "sender_lid"; mret (ToNonAD sender, ToNonAD lid) : attrM _) (AttrGetter_of n) in
      storage ← (if IsEmpty senderLID then onCli (Client.try (F := tcError) (onTokens id (resolveTCTokenStorageLID lidChoices sender))) else mret (inr senderLID));
      if negb (OK parentAG) then mret tt
      else each (λ child, onCli (storeToken (match storage with inr j => j | inl _ => sender end) child)) (GetChildren tokens).

(** ** Newsletters, statuses, groups *)

Definition handleNewsletterNotification {F} (n : node) : wholeM F unit := ignore (tell (NewsletterUpdated (parseNewsletterNotification n))).
Definition handleMexNotification {F} (n : node) : wholeM F unit :=
  each (λ child, match parseMexUpdate n child with Some e => ignore (tell (MexReceived e)) | None => mret tt end) (GetChildren n).
Definition handleStatusNotification {F} (n : node) : wholeM F unit :=
  match parseStatusNotification n with Some a => ignore (tell (AboutChanged a)) | None => mret tt end.

(** Whether an event handler failed. *)
Definition handleGroupNotification {F} (n : node) : wholeM F bool :=
  r ← onCli (Client.try (F := groupError) (onGroups id (parseGroupNotificationWithUsernames firstGroup n)));
  match r with
  | inl _ => mret false
  | inr (evt, lidPairs, redactedPhones, usernames) =>
      _ ← onCli (attempt (storeMappings lidPairs));
      _ ← onCli (attempt (onContacts id (PutManyRedactedPhones onSqlite deduplicated redactedPhones)));
      _ ← onCli (storeUsernames usernames);
      tell (GroupNotified evt)
  end.

(** ** The catalog *)

Definition handleBusinessCatalogNotification {F} (n : node) : wholeM F unit :=
  match GetOptionalChildByTag n ["wa_ad_account_nonce"] with
  | (_, false) => mret tt
  | (nonceNode, true) =>
      match Content nonceNode with
      | VBytes nonce =>
          if decide (nonce = [] ∨ (8192 < length nonce)%nat) then mret tt
          else modify (λ w, match nonceWaiter w with Some None => set_nonceWaiter (Some (Some (b2s nonce))) w | _ => w end)
      | _ => mret tt
      end
  end.
Definition businessNonceDeliveredAttr : string := "__whatsmeow_business_nonce_delivered".
Definition handleQueuedBusinessCatalogNotification {F} (n : node) : wholeM F unit :=
  match lookupAttr businessNonceDeliveredAttr (Attrs n) with Some (VBool true) => mret tt | _ => handleBusinessCatalogNotification n end.
Definition isAttr (k v : string) (n : node) : bool := match lookupAttr k (Attrs n) with Some (VString s) => bool_decide (s = v) | _ => false end.
(** Before the node is queued. *)
Definition handleOutOfBandNode {F} (n : node) : wholeM F node :=
  if bool_decide (Tag n = "notification") && isAttr "type" "business" n then
    _ ← handleBusinessCatalogNotification n;
    mret (mkNode (Tag n) (setAttr businessNonceDeliveredAttr (VBool true) (Attrs n)) (Content n))
  else mret n.

(** ** Properties of the server *)

(** The notification that is handled apart, with its key. *)
Definition abPropsKey (n : node) : option string :=
  if bool_decide (ServerABPropsSync = None) || negb (bool_decide (Tag n = "notification") && isAttr "type" "server" n) then None
  else
    match GetOptionalChildByTag n ["abprops"] with
    | (_, false) => None
    | _ =>
        let '((id, from), ag) := (id ← attrString "id"; from ← attrJID "from"; mret (id, from) : attrM _) (AttrGetter_of n) in
        if negb (OK ag) || bool_decide (id = "") || IsEmpty from then None else Some (JIDString from +:+ "/" +:+ id)
    end.
Definition deferServerABProps {F} (n : node) : wholeM F bool :=
  match abPropsKey n with
  | None => mret false
  | Some key =>
      w ← get;
      if bool_decide (key ∈ pendingProps w) || (256 <=? stdpp.base.size (pendingProps w))%nat then mret true
      else _ ← modify (set_pendingProps ({[key]} ∪ pendingProps w)); _ ← startTask (ABPropsTask key n); mret true
  end.
(** ** Notifications *)

(** [Retry.maybeDeferredAck], around a handler of the whole client. *)
Definition deferringAck {F} (n : node) (handler : wholeM F bool) : wholeM F unit :=
  if SynchronousAck cfg then λ w,
    let ack (cancelled : bool) : wholeM F unit :=
      onCli (t ← tick; if contextEnded t || cancelled then mret tt else sendLogged (ackNode n 0)) in
    match handler w with
    | (Ok cancelled, w') => ack cancelled w'
    | (Panic, w') => (_ ← ack false; lift Panic) w'
    | (Err e, w') => (_ ← ack false; throw e) w'
    | (OutOfFuel, w') => (OutOfFuel, w')
    end
  else _ ← onCli (start (AckTask n 0)); _ ← handler; mret tt.

Definition uncancelled {F} (m : wholeM F unit) : wholeM F bool := _ ← m; mret false.
(** An error of a handler is only logged. *)
Definition logged {G F} (m : wholeM G unit) : wholeM F unit := ignore (Client.try m).

Definition handleCompanionRefresh {F} (n : node) : wholeM F unit :=
  if (GetOptionalChildByTag n ["companion_reg_refresh"]).2 || (GetOptionalChildByTag n ["pair-device-rotate-qr"]).2
  then onPairing rotateADVSecret else mret tt.

Definition notified {F} (notifType : string) (n : node) : wholeM F bool :=
  if decide (notifType = "encrypt") then uncancelled (startTask (EncryptNotificationTask n))
  else if decide (notifType = "server_sync") then uncancelled (startTask (AppStateNotificationTask n))
  else if decide (notifType = "account_sync") then uncancelled (startTask (AccountSyncTask n))
  else if decide (notifType = "devices") then uncancelled (onCli (handleDevices n))
  else if decide (notifType = "fbid:devices") then uncancelled (onCli (onDevices (Devices.handleFBDeviceNotification firstDevices n)))
  else if decide (notifType = "w:gp2") then handleGroupNotification n
  else if decide (notifType = "picture") then uncancelled (handlePictureNotification n)
  else if decide (notifType = "mediaretry") then uncancelled (onCli (handleMediaRetryNotification n))
  else if decide (notifType = "privacy_token") then uncancelled (handlePrivacyTokenNotification n)
  else if decide (notifType = "link_code_companion_reg") then uncancelled (startTask (CodePairTask n))
  else if decide (notifType = "newsletter") then uncancelled (handleNewsletterNotification n)
  else if decide (notifType = "mex") then uncancelled (handleMexNotification n)
  else if decide (notifType = "status") then uncancelled (handleStatusNotification n)
  else if decide (notifType = "passkey_prologue_request") then uncancelled (logged (onPasskey (handlePasskeyNotification n)))
  else if decide (notifType = "business") then uncancelled (handleQueuedBusinessCatalogNotification n)
  else if decide (notifType = "crsc_continuation") then uncancelled (startTask (PasskeyTask n))
  else if decide (notifType = "companion_reg_refresh") then uncancelled (handleCompanionRefresh n)
  else mret false.

Definition handleNotification {F} (n : node) : wholeM F unit :=
  deferred ← deferServerABProps n;
  if (deferred : bool) then mret tt
  else
    let '(notifType, ag) := attrString "type" (AttrGetter_of n) in
    deferringAck n (if OK ag then notified notifType n else mret false).

(** ** Calls, presence, the connection *)

Definition handleCallEvent {F} (n : node) : wholeM F unit := deferringAck n (uncancelled (ignore (tell (CallReceived (parseCallEvent n))))).
(** [newID]: of [GenerateMessageID]. *)
Definition RejectCall (newID : string) (from : JID) (callID : string) : wholeM callError unit :=
  if IsEmpty ownID then throw CallNotLoggedIn
  else
    let caller := ToNonAD from in
    sent ← onCli (trySend (mkNode "call" [("id", VString newID); ("from", VJID (ToNonAD ownID)); ("to", VJID caller)]
      (VNodes [mkNode "reject" [("call-id", VString callID); ("call-creator", VJID caller); ("count", VString "0")] VNil])));
    if (sent : bool) then mret tt else throw CallNotSent.

Definition handlePresence {F} (n : node) : wholeM F unit :=
  match parsePresence n with Some p => ignore (tell (PresenceChanged p)) | None => mret tt end.
Definition handleChatState {F} (n : node) : wholeM F unit :=
  match parseChatState ownID ownLID n with Some p => ignore (tell (ChatPresenceChanged p)) | None => mret tt end.

Definition PresenceAvailable : string := "available".
Definition swapActive (from to : Z) (w : whole) : whole := if decide (sendActive w = from) then set_sendActive to w else w.
Definition sendOrFail (n : node) : wholeM presenceError unit := sent ← onCli (trySend n); if (sent : bool) then mret tt else throw PresenceNotSent.
Definition SendPresence (state : string) : wholeM presenceError unit :=
  d ← theDeviceOf;
  if bool_decide (devPushName d = "") && negb (hasMessengerConfig cfg) then throw NoPushName
  else
    _ ← (if decide (state = PresenceAvailable) then _ ← startTask UnifiedSessionTask; modify (swapActive 0 1) else modify (swapActive 1 0));
    sendOrFail (mkNode "presence" ([("type", VString state)] ++ (if hasMessengerConfig cfg then [] else [("name", VString (devPushName d))])) VNil).
Definition SubscribePresence (jid : JID) : wholeM presenceError unit :=
  token ← onCli (failing_with PresenceToken (ensureTCToken jid));
  if bool_decide (token = None) && ErrorOnSubscribePresenceWithoutToken then throw NoPrivacyToken
  else sendOrFail (mkNode "presence" [("type", VString "subscribe"); ("to", VJID jid)]
         (match token with Some t => VNodes [mkNode "tctoken" [] (VBytes t)] | None => VNil end)).
Definition ChatPresenceComposing : string := "composing".
Definition SendChatPresence (jid : JID) (state media : string) : wholeM presenceError unit :=
  sendOrFail (mkNode "chatstate" [("to", VJID jid)]
    (VNodes [mkNode state (if bool_decide (state = ChatPresenceComposing) && negb (bool_decide (media = "")) then [("media", VString media)] else []) VNil])).

Definition handleIB {F} (n : node) : wholeM F unit :=
  each (λ child,
    if decide (Tag child = "downgrade_webclient") then onCli (start (NodeEvent QRScannedWithoutMultidevice))
    else if decide (Tag child = "offline_preview") then ignore (tell (OfflinePreviewed (offlinePreview child)))
    else if decide (Tag child = "offline") then ignore (tell (OfflineCompleted (attrInt "count" (AttrGetter_of child)).1))
    else mret tt) (GetChildren n).

Definition SetPassive (passive : bool) : wholeM iqError unit :=
  ignore (onCli (query id (mkInfoQuery "passive" "set" ServerJID EmptyJID "" "" (VNodes [mkNode (if passive then "passive" else "active") [] VNil])))).

(** A LID that differs from the stored one replaces it. *)
Definition updateLID {F} (nodeLID : JID) : wholeM F unit :=
  d ← theDeviceOf;
  let known := if negb (IsEmpty (devLID d)) && negb (IsEmpty nodeLID) && negb (bool_decide (devLID d = nodeLID)) then EmptyJID else devLID d in
  if IsEmpty known && negb (IsEmpty nodeLID) then
    _ ← onPairing (modifyPairing (λ p, setDevice (setLID nodeLID (pDevice p)) p));
    _ ← logged (onPairing (onStoreDevice id Save));
    d ← theDeviceOf;
    onCli (StoreLIDPNMapping (devLID d) (default EmptyJID (devID d)))
  else mret tt.
Definition handleConnectSuccess {F} (n : node) : wholeM F unit :=
  w ← get;
  if negb (paired (wPair w).1.2) then mret tt
  else
    t ← onCli now;
    _ ← modify (set_login t);
    let '((lid, ts), _) := (lid ← attrJID "lid"; ts ← attrUnixTime "t"; mret (lid, ts) : attrM _) (AttrGetter_of n) in
    later ← onCli now;
    _ ← onPairing (modifyPairing (setTimeOffset (sinceRounded ts later)));
    _ ← updateLID lid;
    s ← onCli seconds;
    _ ← onCli (modify (λ c, setTokens (deleteExpiredPrivacyTokens s (tokensOf c)).2 c));
    startTask ConnectTask.
(** Its goroutine. *)
Definition finishConnect {F} : wholeM F unit :=
  w ← get;
  dbCount ← onCli (Client.try (F := dbError) (onBase (onPreKeys id UploadedPreKeyCount)));
  _ ← (match dbCount with
       | inl _ => mret tt
       | inr dbCount =>
           count ← onCli askCount;
           match count with
           | None => mret tt
           | Some _ =>
               let serverCount := getServerPreKeyCount count in
               if (serverCount <? MinPreKeyCount)%Z || (dbCount <? MinPreKeyCount)%Z
               then _ ← uploadKeys (bool_decide (dbCount = 0%Z) && bool_decide (serverCount = 0%Z)); ignore (onCli askCount)
               else mret tt
           end
       end);
  _ ← logged (SetPassive false);
  ignore (tell Connected).

Definition unifiedOffset : Z := 259200000000000.
Definition week : Z := 604800000.
Definition getUnifiedSessionID (nanoseconds offset : Z) : string := FormatInt (Z.rem ((nanoseconds + offset + unifiedOffset) / 1000000) week).
Definition sendUnifiedSession {F} : wholeM F unit :=
  w ← get; t ← onCli now;
  onCli (sendLogged (mkNode "ib" [] (VNodes [mkNode "unified_session" [("id", VString (getUnifiedSessionID t (serverTimeOffset (wPair w).1.2)))] VNil]))).

(** ** Goroutines *)

Definition runABProps {F} (key : string) (n : node) : wholeM F unit :=
  t ← onCli tick;
  _ ← (if contextEnded t then mret tt
       else match ServerABPropsSync with
            | Some sync => if sync t then onCli (sendLogged (ackNode n 0)) else mret tt
            | None => mret tt
            end);
  modify (λ w, set_pendingProps (pendingProps w ∖ {[key]}) w).
Definition runNodeTask {F} (task : nodeTask) : wholeM F unit :=
  match task with
  | EncryptNotificationTask n => handleEncryptNotification n
  | AppStateNotificationTask n => handleAppStateNotification n
  | AccountSyncTask n => handleAccountSyncNotification n
  | CodePairTask n => onPairing (tryHandleCodePairNotification n)
  | PasskeyTask n => onPasskey (tryHandlePasskeyContinuationNotification n)
  | ABPropsTask key n => runABProps key n
  | PairTask identity reqID businessName platform jid lid props => onPairing (pairTask identity reqID businessName platform jid lid props)
  | UnifiedSessionTask => sendUnifiedSession
  | ConnectTask => finishConnect
  end.

(** Whatever was started. *)
Definition runStarted {F} (isCancelled : retryError → bool) (e : event) : wholeM F unit :=
  match e with
  | NodeTask task => runNodeTask task
  | RetryTask receipt n => onCli (tryHandleRetryReceipt isCancelled receipt n)
  | _ => onCli (Receive.runTask e)
  end.

(** ** Nodes

    What a node does to the connection itself is [Connection.handleNode]. [isCancelled] as in
    [Retry]. *)
Definition handleReceipt {F} (isCancelled : retryError → bool) (n : node) : wholeM F unit :=
  match parseReceipt ownID ownLID n with
  | Ok (receipt, Some participants) => deferringAck n (onCli (onBase (logging (handleParticipants handlers ReceiptReceived receipt participants false))))
  | Ok (receipt, None) =>
      if decide (rType receipt = ReceiptTypeRetry) then
        _ ← (if SynchronousAck cfg then onCli (tryHandleRetryReceipt isCancelled receipt n) else onCli (start (RetryTask receipt n)));
        ignore (onCli (dispatch (ReceiptReceived receipt)))
      else deferringAck n (onCli (dispatch (ReceiptReceived receipt)))
  | Err _ => onCli (start (AckTask n NackParsingError))
  | Panic | OutOfFuel => lift Panic
  end.

Definition handleNode {F} (isCancelled : retryError → bool) (n : node) : wholeM F unit :=
  if decide (Tag n = "message" ∨ Tag n = "appdata") then onCli (handleEncryptedMessage n)
  else if decide (Tag n = "status") then onCli (handleUnencryptedMessage n)
  else if decide (Tag n = "receipt") then handleReceipt isCancelled n
  else if decide (Tag n = "call") then handleCallEvent n
  else if decide (Tag n = "chatstate") then handleChatState n
  else if decide (Tag n = "presence") then handlePresence n
  else if decide (Tag n = "notification") then handleNotification n
  else if decide (Tag n = "success") then handleConnectSuccess n
  else if decide (Tag n = "iq") then onPairing (handleIQ n)
  else if decide (Tag n = "ib") then handleIB n
  else mret tt.
End whole.
