(* ===== verification/NotificationTheory.v ===== *)
(** What an identity change leaves of a user in the Signal store. *)
From Stdlib Require Import ZArith Lia.
From Stdlib Require Import Strings.Byte.
From stdpp Require Import prelude gmap strings list fin_maps.
From S2P Require Import Prelude Strconv Jid Node Attrs Decoder Cache Cbc LTHash Noise Handshake Sql SignalStore SignalTheory IdentityCache SessionCache SessionTheory LidMap LidMapTheory LidMapSpec Requests PreKeys PreKeyUpload MessageInfo Receipts Contacts Proto Client NodeEvents Events Devices TcToken ChatSettings Groups Cli Users Send SendTheory Retry Receive DeviceStore Pair PairCode PairPasskey MediaRetry Notification.

#[local] Open Scope string_scope.

Section theory.
Context `{SignalOps} {outside : Outside} `{MapOrder} `{!MapOrderLaws} `{!LidEnvLaws lidChoices}.
#[local] Existing Instances cliM_ret cliM_bind.

(** The Signal store of the client. *)
Definition storeOf (c : cli) : SQLStore := db (sessionsOf (base c)).
Definition setStore (s : SQLStore) (c : cli) : cli := set_base (setSessions (mkSessions s (cHeap (base c)) (cCache (base c))) (base c)) c.

Lemma storeOf_set s c : storeOf (setStore s c) = s.
Proof. by destruct s as [[]]. Qed.

Lemma attempt_store {F} (m : storeM unit) (c : cli) :
  (∀ r, (m (storeOf c)).1 = r → r = Ok tt ∨ ∃ e, r = Err e) →
  attempt (F := F) (onBase (onDevice id m)) c = (Ok tt, setStore (m (storeOf c)).2 c).
Proof.
  intros Hr. unfold attempt, Client.try, mbind, cliM_bind, stateM_bind, onBase, onDevice, zoom. unfold storeOf in *.
  destruct (m (db (sessionsOf (base c)))) as [r s] eqn:Hm. destruct (Hr r eq_refl) as [->|[e ->]]; done.
Qed.

(** ** One user *)

Definition ofUsers (users : list string) (address : string) : bool := existsb (λ u, SignalStore.hasPrefix (u +:+ ":") address) users.
Definition dropUsers {V} (users : list string) (t : gmap string V) : gmap string V := filter (λ row, ofUsers users row.1 = false) t.

(** What was in the store without the rows of the users. *)
Definition forgotten (users : list string) (s s' : SQLStore) : Prop :=
  idInv maxIdentityCacheEntries s' ∧ working (sdb s') ∧
  SignalStore.identities (rowsOf s') = dropUsers users (SignalStore.identities (rowsOf s)) ∧
  sessions (rowsOf s') = dropUsers users (sessions (rowsOf s)) ∧
  senderKeys (rowsOf s') = senderKeys (rowsOf s) ∧
  identityDeleteGen s' = u64 (identityDeleteGen s + Z.of_nat (length users)).

Lemma DeleteAllIdentities_working phone s :
  idInv maxIdentityCacheEntries s → working (sdb s) →
  ∃ s', DeleteAllIdentities phone s = (Ok tt, s') ∧ idInv maxIdentityCacheEntries s' ∧ working (sdb s') ∧
    rowsOf s' = withIdentities (dropUsers [phone]) (rowsOf s) ∧ identityDeleteGen s' = u64 (identityDeleteGen s + 1).
Proof.
  intros Hi Hw. destruct (DeleteAllIdentities phone s) as [r s'] eqn:Hd. pose proof Hd as Hd'.
  apply (DeleteAll_ok maxIdentityCacheEntries) in Hd' as [Hi' [(-> & Hids & Hg)|(_ & Hno & _)]]; [|done..].
  exists s'. split_and!; [done|done| | |done].
  - unfold DeleteAllIdentities in Hd. apply stateM_bind_Ok in Hd as (u & s1 & Hu & [= <-]).
    apply onDB_update in Hu as [(_ & _ & Hk) _]. by apply Hk.
  - unfold DeleteAllIdentities in Hd. apply stateM_bind_Ok in Hd as (u & s1 & Hu & [= <-]).
    apply onDB_update in Hu as [_ [[_ Hr]|[? _]]]; [|done]. change (rowsOf s1 = withIdentities (dropUsers [phone]) (rowsOf s)).
    rewrite Hr. unfold withIdentities. f_equal. apply map_filter_ext. intros a v _. cbn. by rewrite inRange_prefix, orb_false_r.
Qed.

Lemma DeleteAllSessions_working phone s :
  idInv maxIdentityCacheEntries s → working (sdb s) →
  ∃ s', DeleteAllSessions phone s = (Ok tt, s') ∧ idInv maxIdentityCacheEntries s' ∧ working (sdb s') ∧
    rowsOf s' = withSessions (dropUsers [phone]) (rowsOf s) ∧ identityDeleteGen s' = identityDeleteGen s.
Proof.
  intros [Hk Ha] Hw. destruct (DeleteAllSessions phone s) as [r s'] eqn:Hd.
  apply onDB_update in Hd as [(Hc & Hg & Hw') [[-> Hr]|(_ & _ & ?)]]; [|done].
  assert (rowsOf s' = withSessions (dropUsers [phone]) (rowsOf s)) as Hr'.
  { rewrite Hr. unfold withSessions. f_equal. apply map_filter_ext. intros a v _. cbn. by rewrite inRange_prefix, orb_false_r. }
  exists s'. split_and!; [done| |auto|done|done]. split; unfold keyOf in *; rewrite Hr'; [done|]. by rewrite Hc.
Qed.

Lemma dropUsers_nil {V} (t : gmap string V) : dropUsers [] t = t.
Proof. by apply map_filter_id. Qed.

Lemma dropUsers_one {V} u users (t : gmap string V) : dropUsers users (dropUsers [u] t) = dropUsers (u :: users) t.
Proof.
  unfold dropUsers. rewrite map_filter_filter. apply map_filter_ext. intros a v _. cbn.
  destruct (SignalStore.hasPrefix (u +:+ ":") a); cbn; [by split; [intros [_ ?]|]|]. tauto.
Qed.

Lemma forgetUser_ok {F} u c :
  idInv maxIdentityCacheEntries (storeOf c) → working (sdb (storeOf c)) →
  ∃ s', forgetUser (F := F) u c = (Ok tt, setStore s' c) ∧ forgotten [u] (storeOf c) s'.
Proof.
  intros Hi Hw. destruct (DeleteAllIdentities_working u _ Hi Hw) as (s1 & Hd1 & Hi1 & Hw1 & Hr1 & Hg1).
  destruct (DeleteAllSessions_working u _ Hi1 Hw1) as (s2 & Hd2 & Hi2 & Hw2 & Hr2 & Hg2).
  exists s2. split.
  - unfold forgetUser, mbind, cliM_bind, stateM_bind. rewrite attempt_store; rewrite Hd1; cbn; [|intros ? <-; by left].
    rewrite attempt_store; rewrite storeOf_set, Hd2; cbn; [done|intros ? <-; by left].
  - unfold forgotten. rewrite Hr2, Hr1, Hg2, Hg1. done.
Qed.

(** ** All users *)

Lemma forgetUsers_ok {F} users c :
  idInv maxIdentityCacheEntries (storeOf c) → working (sdb (storeOf c)) → (0 ≤ identityDeleteGen (storeOf c) < 2 ^ 64)%Z →
  ∃ c', forgetUsers (F := F) users c = (Ok tt, c') ∧ forgotten users (storeOf c) (storeOf c').
Proof.
  revert c. induction users as [|u users IH]; intros c Hi Hw Hg; cbn [forgetUsers].
  - exists c. split; [done|]. unfold forgotten. rewrite !dropUsers_nil. split_and!; try done. rewrite Z.add_0_r. symmetry. by apply Z.mod_small.
  - destruct (forgetUser_ok (F := F) u c Hi Hw) as (s1 & Hd1 & Hi1 & Hw1 & Hids & Hses & Hkeys & Hg1).
    destruct (IH (setStore s1 c)) as (c' & Hd2 & Hi2 & Hw2 & Hids2 & Hses2 & Hkeys2 & Hg2); rewrite ?storeOf_set in *; [done|done| |].
    { rewrite Hg1. unfold u64. apply Z.mod_pos_bound. lia. }
    exists c'. split; [unfold mbind, cliM_bind, stateM_bind; by rewrite Hd1|].
    unfold forgotten. rewrite Hids2, Hses2, Hids, Hses, Hkeys2, Hkeys, Hg2, Hg1, u64_add. rewrite !dropUsers_one. split_and!; try done. f_equal. cbn. lia.
Qed.

Lemma compact_cons x y l : compact (x :: y :: l) = if decide (x = y) then compact (y :: l) else x :: compact (y :: l).
Proof. done. Qed.

Lemma elem_of_compact u l : u ∈ compact l ↔ u ∈ l.
Proof.
  induction l as [|x [|y l] IH]; [done..|]. rewrite compact_cons. case_decide as Hxy.
  - rewrite IH, Hxy, !elem_of_cons. tauto.
  - rewrite !(elem_of_cons _ u x), IH. done.
Qed.

(** The users of the Signal addresses that a change of an identity concerns: of the
    address of the notification, and of the other one of the same user. *)
Definition changedUsers (from alternate : JID) : list string :=
 
  (identityChangeSignalUsers from ++ (if IsEmpty alternate then [] else identityChangeSignalUsers alternate))%list.

Lemma length_compact l : l ≠ [] → (1 ≤ length (compact l) ≤ length l)%nat.
Proof.
  induction l as [|x [|y l] IH]; [done|cbn; lia|]. intros _. rewrite compact_cons.
  assert (1 ≤ length (compact (y :: l)) ≤ length (y :: l))%nat as Hl by by apply IH. case_decide; cbn [length] in *; lia.
Qed.

Lemma length_changed from alternate : (1 ≤ length (changedUsers from alternate) ≤ 4)%nat.
Proof.
  unfold changedUsers. rewrite length_app.
  assert (∀ j, 1 ≤ length (identityChangeSignalUsers j) ≤ 2)%nat as Hj by (intros j; unfold identityChangeSignalUsers; repeat case_decide; cbn; lia).
  pose proof (Hj from). pose proof (Hj alternate). destruct (IsEmpty alternate); cbn [length]; lia.
Qed.

Lemma ofUsers_true users a : ofUsers users a = true ↔ ∃ u, u ∈ users ∧ ∃ device, a = address u device.
Proof.
  unfold ofUsers. rewrite existsb_exists. setoid_rewrite hasPrefix_address. setoid_rewrite <- list_elem_of_In. done.
Qed.

Lemma alternateOf_store {F} from c r c' : alternateOf (F := F) from c = (r, c') → storeOf c' = storeOf c.
Proof.
  unfold alternateOf, lidFor, pnFor, onBase, onLids, Client.try, zoom, mbind, cliM_bind, stateM_bind, mret, cliM_ret, stateM_ret.
  repeat case_decide;
    repeat match goal with |- context [match ?m ?x with (_, _) => _ end] => destruct (m x) as [[]] end; cbn; by intros [= <- <-].
Qed.

(** The addresses of one user: those of a phone number, hosted or not, those of a LID,
    hosted or not, and else those with the same agent. *)
Definition family (j : JID) : Z :=
  if decide (Server j = DefaultUserServer ∨ Server j = HostedServer) then (-1)%Z
  else if decide (Server j = HiddenUserServer ∨ Server j = HostedLIDServer) then (-2)%Z
  else RawAgent j.
Definition sameUser (j k : JID) : Prop := User j = User k ∧ family j = family k ∧ (0 ≤ RawAgent j)%Z ∧ (0 ≤ RawAgent k)%Z.

Lemma sameUser_signal j k : sameUser j k → SignalAddressUser k ∈ identityChangeSignalUsers j.
Proof.
  intros (Hu & Hf & Hj & Hk). unfold SignalAddressUser, ActualAgent, identityChangeSignalUsers, family in *. rewrite Hu in *.
  destruct (decide (Server j = DefaultUserServer ∨ Server j = HostedServer)) as [Hs|Hs].
  - destruct (decide (Server k = DefaultUserServer ∨ Server k = HostedServer)) as [[->| ->]|_]; [by left|by right; left|].
    case_decide; lia.
  - destruct (decide (Server j = HiddenUserServer ∨ Server j = HostedLIDServer)) as [Hs'|Hs'].
    + destruct (decide (Server k = DefaultUserServer ∨ Server k = HostedServer)); [lia|].
      destruct (decide (Server k = HiddenUserServer ∨ Server k = HostedLIDServer)) as [[->| ->]|_]; [by left|by right; left|lia].
    + destruct (decide (Server k = DefaultUserServer ∨ Server k = HostedServer)); [lia|].
      destruct (decide (Server k = HiddenUserServer ∨ Server k = HostedLIDServer)); [lia|].
      apply list_elem_of_singleton. unfold SignalAddressUser, ActualAgent. by rewrite Hu, Hf, !(decide_False (P := Server _ = _)) by tauto.
Qed.

(** What happens for the address that the lookup gives. *)
Lemma forgets_alternate {F} (from alternate : JID) (c c1 : cli) :
  idInv maxIdentityCacheEntries (storeOf c) → working (sdb (storeOf c)) → (0 ≤ identityDeleteGen (storeOf c) < 2 ^ 64)%Z →
  alternateOf (F := F) from c = (Ok alternate, c1) →
  let users := changedUsers from alternate in
  ∃ c', deleteIdentityChangeState (F := F) from c = (Ok tt, c') ∧
    (∀ j, sameUser from j ∨ (IsEmpty alternate = false ∧ sameUser alternate j) →
      keyOf (storeOf c') (addressString j) = None ∧ sessions (rowsOf (storeOf c')) !! addressString j = None ∧
      identityCache (storeOf c') !! addressString j ∈ [None; Some None]) ∧
    (∀ a, (∀ u device, u ∈ users → a ≠ address u device) →
      keyOf (storeOf c') a = keyOf (storeOf c) a ∧ sessions (rowsOf (storeOf c')) !! a = sessions (rowsOf (storeOf c)) !! a) ∧
    senderKeys (rowsOf (storeOf c')) = senderKeys (rowsOf (storeOf c)) ∧
    idInv maxIdentityCacheEntries (storeOf c') ∧
    (∀ a key, EnsureIdentity maxIdentityCacheEntries a key (identityDeleteGen (storeOf c)) (storeOf c') = (Ok false, storeOf c')).
Proof.
  intros Hi Hw Hg Ha users. pose proof (alternateOf_store _ _ _ _ Ha) as Hs1.
  destruct (forgetUsers_ok (F := F) (compact users) c1) as (c' & Hf & Hi' & Hw' & Hids & Hses & Hkeys & Hg'); rewrite ?Hs1 in *; [done..|].
  exists c'. split.
  { unfold deleteIdentityChangeState, mbind, cliM_bind, stateM_bind. rewrite Ha. exact Hf. }
  assert (∀ a, ofUsers (compact users) a = true ↔ ∃ u, u ∈ users ∧ ∃ device, a = address u device) as Hin.
  { intros a. rewrite ofUsers_true. by setoid_rewrite elem_of_compact. }
  split_and!; [| |done|done|].
  - intros j Hj. assert (ofUsers (compact users) (addressString j) = true) as Ho.
    { apply Hin. exists (SignalAddressUser j). split; [|by exists (FormatInt (u32 (Device j)))]. unfold users, changedUsers. apply elem_of_app.
      destruct Hj as [Hj|[Ha' Hj]]; [left|right; rewrite Ha']; by apply sameUser_signal. }
    assert (keyOf (storeOf c') (addressString j) = None) as Hk.
    { unfold keyOf. rewrite Hids. apply map_lookup_filter_None. right. intros v _. cbn [fst]. by rewrite Ho. }
    split_and!; [done| |].
    + rewrite Hses. apply map_lookup_filter_None. right. intros v _. cbn [fst]. by rewrite Ho.
    + destruct (identityCache _ !! _) as [e|] eqn:He; [|by left]. apply (proj1 (id_agrees _ _ Hi')) in He.
      unfold keyOf in Hk. rewrite Hk in He. subst. right. by left.
  - intros a Hno. assert (ofUsers (compact users) a = false) as Ho.
    { apply not_true_is_false. intros (u & Hu & device & ->)%Hin. by eapply Hno. }
    unfold keyOf. rewrite Hids, Hses. unfold dropUsers. rewrite !map_lookup_filter.
    destruct (SignalStore.identities _ !! a), (sessions _ !! a); cbn; by rewrite ?option_guard_True.
  - intros a key. unfold EnsureIdentity, mbind, stateM_bind. cbn [get]. rewrite decide_True; [done|]. rewrite Hg'.
    assert (1 ≤ length (compact users) ≤ 4)%nat as Hlen.
    { pose proof (length_changed from alternate) as Hlc. fold users in Hlc. enough (users ≠ []) as Hne by (pose proof (length_compact users Hne); lia).
      intros Hu. rewrite Hu in Hlc. cbn in Hlc. lia. }
    unfold u64. intros He. pose proof (Z.div_mod (identityDeleteGen (storeOf c) + Z.of_nat (length (compact users))) (2 ^ 64)). nia.
Qed.
(** *** The other address *)

Definition ofPhone (j : JID) : Prop := Server j = DefaultUserServer ∨ Server j = HostedServer.
Definition ofLID (j : JID) : Prop := Server j = HiddenUserServer ∨ Server j = HostedLIDServer.

(** The table of LIDs maps the user of one address to that of the other. *)
Definition mapped (table : gmap string string) (from j : JID) : Prop :=
  (0 ≤ RawAgent j)%Z ∧
  ((ofPhone from ∧ ofLID j ∧ table !! User j = Some (User from)) ∨ (ofLID from ∧ ofPhone j ∧ table !! User from = Some (User j))).

Definition lidTable (c : cli) : gmap string string := rows (cLids (base c)).

Lemma family_phone j : ofPhone j → family j = (-1)%Z.
Proof. intros Hj. unfold family. by rewrite decide_True. Qed.
Lemma family_lid j : ofLID j → family j = (-2)%Z.
Proof.
  intros Hj. unfold family. rewrite decide_False; [by rewrite decide_True|]. by destruct Hj as [Hj|Hj]; rewrite Hj; intros [|].
Qed.

(** A lookup that the database answers says what the table says. *)
Lemma try_lookup {G} toLID source (c : cli) :
  inv maxLIDCacheEntries (cLids (base c)) → dbFaults (cLids (base c)) = [] →
  ∃ j c1, Client.try (F := lidError) (G := G)
      (onBase (onLids id (getLIDMapping maxLIDCacheEntries (LidMapSpec.firstKey lidChoices) (scan lidChoices) toLID source))) c = (Ok (inr j), c1) ∧
    answers (towards toLID (lidTable c)) source (serverOf toLID) j.
Proof.
  intros Hi Hw. unfold Client.try, onBase, onLids, zoom. cbn.
  destruct (getLIDMapping _ _ _ _ _ _) as [r s'] eqn:Hr.
  destruct (getLIDMapping_ok _ firstKey_law firstKey_empty maxLIDCacheEntries ltac:(done) _ scan_law _ _ _ _ _ Hi Hr) as (_ & _ & [(j & -> & Hj)|[_ Hno]]); [|done].
  by eexists _, _.
Qed.

Lemma alternateOf_mapped {F} (from : JID) (c : cli) :
  inv maxLIDCacheEntries (cLids (base c)) → dbFaults (cLids (base c)) = [] →
  ∃ alternate c1, alternateOf (F := F) from c = (Ok alternate, c1) ∧
    (∀ j, mapped (lidTable c) from j → IsEmpty alternate = false ∧ sameUser alternate j) ∧
    (IsEmpty alternate = false → mapped (lidTable c) from alternate).
Proof.
  intros Hi Hw. pose proof (inv_rows _ _ Hi) as [Hone Hother].
  unfold alternateOf, lidFor, pnFor, lidOf, pnOf, GetLIDForPN, GetPNForLID.
  assert (¬ (ofPhone from ∧ ofLID from)) as Hnot by (intros [[Ha|Ha] [Hb|Hb]]; by rewrite Ha in Hb).
  destruct (decide (Server from = DefaultUserServer ∨ Server from = HostedServer)) as [Hp|Hp];
    [|destruct (decide (Server from = HiddenUserServer ∨ Server from = HostedLIDServer)) as [Hl|Hl]].
  - rewrite (decide_False (P := Server (NewJID _ _) ≠ DefaultUserServer)) by (by intros Hn).
    destruct (try_lookup (G := F) true (NewJID (User from) DefaultUserServer) c Hi Hw) as (alternate & c1 & Hrun & Hans).
    exists alternate, c1. split; [unfold mbind, cliM_bind, stateM_bind; by rewrite Hrun|].
    destruct Hans as [(u & Hu & ->)|[Hno ->]]; cbn [User NewJID] in *.
    + change (lidTable c !! u = Some (User from)) in Hu. split; [|intros _; split; [done|left; split_and!; [done|by left|done]]].
      intros j (Hr & [(_ & Hj & Hm)|(Hl & _)]); [|by destruct Hnot]. split; [done|].
      split; [cbn; by eapply Hother|]. split; [by rewrite (family_lid j Hj)|done].
    + split; [|done]. intros j (_ & [(_ & _ & Hm)|(Hl & _)]); [by destruct (Hno (User j))|by destruct Hnot].
  - rewrite (decide_False (P := Server (NewJID _ _) ≠ HiddenUserServer)) by (by intros Hn).
    destruct (try_lookup (G := F) false (NewJID (User from) HiddenUserServer) c Hi Hw) as (alternate & c1 & Hrun & Hans).
    exists alternate, c1. split; [unfold mbind, cliM_bind, stateM_bind; by rewrite Hrun|].
    destruct Hans as [(u & Hu & ->)|[Hno ->]]; cbn [User NewJID] in *.
    + change (lidTable c !! User from = Some u) in Hu. split; [|intros _; split; [done|right; split_and!; [done|by left|done]]].
      intros j (Hr & [(Hq & _)|(_ & Hj & Hm)]); [done|]. split; [done|].
      split; [cbn; congruence|]. split; [by rewrite (family_phone j Hj)|done].
    + split; [|done]. intros j (_ & [(Hq & _)|(_ & _ & Hm)]); [done|by destruct (Hno (User j))].
  - exists EmptyJID, c. split; [done|]. split; [|done]. by intros j (_ & [(Hq & _)|(Hq & _)]).
Qed.

(** C36: a change of an identity. While the databases work, no identity key and no
    session of the user is left afterwards, neither under the address of the notification
    nor under the one that the table of LIDs has for it, a LID for a phone number and a phone
    number for a LID, hosted or not and whatever devices there were; the rows of all other
    users and the sender keys are as before, the cache of identity keys agrees with the
    table, and an identity that was fetched before is not taken any more. *)
Theorem identity_change_forgets {F} (from : JID) (c : cli) :
  idInv maxIdentityCacheEntries (storeOf c) → working (sdb (storeOf c)) → (0 ≤ identityDeleteGen (storeOf c) < 2 ^ 64)%Z →
  inv maxLIDCacheEntries (cLids (base c)) → dbFaults (cLids (base c)) = [] →
  ∃ c', deleteIdentityChangeState (F := F) from c = (Ok tt, c') ∧
    (∀ j, sameUser from j ∨ mapped (lidTable c) from j →
      keyOf (storeOf c') (addressString j) = None ∧ sessions (rowsOf (storeOf c')) !! addressString j = None ∧
      identityCache (storeOf c') !! addressString j ∈ [None; Some None]) ∧
    (∀ a, (∀ j u device, j = from ∨ mapped (lidTable c) from j → u ∈ identityChangeSignalUsers j → a ≠ address u device) →
      keyOf (storeOf c') a = keyOf (storeOf c) a ∧ sessions (rowsOf (storeOf c')) !! a = sessions (rowsOf (storeOf c)) !! a) ∧
    senderKeys (rowsOf (storeOf c')) = senderKeys (rowsOf (storeOf c)) ∧
    idInv maxIdentityCacheEntries (storeOf c') ∧
    (∀ a key, EnsureIdentity maxIdentityCacheEntries a key (identityDeleteGen (storeOf c)) (storeOf c') = (Ok false, storeOf c')).
Proof.
  intros Hi Hw Hg Hlids Hworks. destruct (alternateOf_mapped (F := F) from c Hlids Hworks) as (alternate & c1 & Ha & Hmap & Hmapped).
  destruct (forgets_alternate from alternate c c1 Hi Hw Hg Ha) as (c' & Hrun & Hgone & Hkept & Hrest).
  exists c'. split; [exact Hrun|]. split; [|split; [|exact Hrest]].
  - intros j [Hj|Hj]; apply Hgone; [by left|right; by apply Hmap].
  - intros a Hno. apply Hkept. intros u device [Hu|Hu]%elem_of_app; [by apply (Hno from); [left|]|].
    destruct (IsEmpty alternate) eqn:He; [by apply not_elem_of_nil in Hu|]. apply (Hno alternate); [right; by apply Hmapped|done].
Qed.
End theory.

(** ** A change, at a small client *)

#[local] Existing Instance toyCrypto.
#[local] Existing Instance toyCodec.
#[local] Existing Instance toySignal.
#[local] Existing Instance toyOutside.

Definition friendKey : list byte := replicate 32 x04.
Definition knownFriend : cli :=
  setStore (mkSQLStore (mkDatabase (mkSignal {["11_1:0" := friendKey; "1:2" := friendKey; "9:3" := friendKey]} {["11_1:0" := [x01]; "9:3" := [x02]]} ∅) [])
    {["11_1:0" := Some friendKey]} 0 ∅ ∅ ∅) toyCli.

Lemma knownFriend_inv : idInv maxIdentityCacheEntries (storeOf knownFriend).
Proof.
  split; [|split].
  - assert (map_Forall (λ _ k, length k = 32%nat) (SignalStore.identities (rowsOf (storeOf knownFriend)))) as Hall.
    { refine (bool_decide_unpack _ _). vm_compute. exact I. }
    intros a k. apply Hall.
  - assert (map_Forall (λ a e, e = SignalStore.identities (rowsOf (storeOf knownFriend)) !! a) (identityCache (storeOf knownFriend))) as Hall.
    { refine (bool_decide_unpack _ _). vm_compute. exact I. }
    intros a e. apply Hall.
  - vm_compute. discriminate.
Qed.

(** The change is announced under the phone number, or under the LID. *)
Lemma friend_mapped : mapped (lidTable knownFriend) friend friendLID ∧ mapped (lidTable knownFriend) friendLID friend.
Proof.
  split; (split; [discriminate|]); [left|right]; (split; [by left|]); (split; [by left|]); vm_compute; reflexivity.
Qed.

(** The third user is none of the two addresses. *)
Lemma third_user from u j device : from = friend ∨ from = friendLID → j = from ∨ mapped (lidTable knownFriend) from j →
  u ∈ identityChangeSignalUsers j → "9:3" ≠ address u device.
Proof.
  intros Hfrom Hj Hu Ha.
  assert (User j ∈ ["1"; "11"] ∧ (ofPhone j ∨ ofLID j)) as [Huser Hserver].
  { assert (lidTable knownFriend = {["11" := "1"]}) as Ht by (vm_compute; reflexivity). unfold mapped in Hj. rewrite Ht in Hj.
    destruct Hj as [->|(_ & [(_ & Hl & Hm)|(_ & Hp & Hm)])].
    - destruct Hfrom as [-> | ->]; (split; [vm_compute; set_solver|]); [left; by left|right; by left].
    - apply lookup_singleton_Some in Hm as [<- _]. split; [set_solver|by right].
    - apply lookup_singleton_Some in Hm as [_ <-]. split; [set_solver|by left]. }
  assert (u ∈ ["1"; "1_128"; "1_1"; "1_129"; "11"; "11_128"; "11_1"; "11_129"]) as Hall.
  { revert Hu. unfold identityChangeSignalUsers. apply elem_of_cons in Huser as [Hx|[Hx|Hx%not_elem_of_nil]%elem_of_cons]; [| |done]; rewrite Hx;
      (case_decide; [|case_decide; [|destruct Hserver; tauto]]); vm_compute; set_solver. }
  assert (Forall (λ u, SignalStore.hasPrefix (u +:+ ":") "9:3" = false) ["1"; "1_128"; "1_1"; "1_129"; "11"; "11_128"; "11_1"; "11_129"]) as Hf
    by (refine (bool_decide_unpack _ _); vm_compute; exact I).
  rewrite Forall_forall in Hf. specialize (Hf u Hall). rewrite (proj2 (hasPrefix_address u "9:3")) in Hf; [discriminate|by exists device].
Qed.

Lemma identity_change_forgets_witness :
  ∃ c' c'', deleteIdentityChangeState (F := Empty_set) friend knownFriend = (Ok tt, c') ∧
    keyOf (storeOf c') "11_1:0" = None ∧ keyOf (storeOf c') "1:2" = None ∧ keyOf (storeOf c') "9:3" = Some friendKey ∧
    deleteIdentityChangeState (F := Empty_set) friendLID knownFriend = (Ok tt, c'') ∧
    keyOf (storeOf c'') "11_1:0" = None ∧ keyOf (storeOf c'') "1:2" = None ∧ keyOf (storeOf c'') "9:3" = Some friendKey.
Proof.
  assert (inv maxLIDCacheEntries (cLids (base knownFriend))) as Hlids by (apply inv_init; [done|apply LidMapSpec.toyRows_oneToOne]).
  assert (0 ≤ identityDeleteGen (storeOf knownFriend) < 2 ^ 64)%Z as Hg by (split; [vm_compute; discriminate|vm_compute; reflexivity]).
  destruct (identity_change_forgets (F := Empty_set) friend knownFriend knownFriend_inv (Forall_nil_2 _) Hg Hlids eq_refl) as (c' & Hr & Hno & Hother & _).
  destruct (identity_change_forgets (F := Empty_set) friendLID knownFriend knownFriend_inv (Forall_nil_2 _) Hg Hlids eq_refl) as (c'' & Hr' & Hno' & Hother' & _).
  exists c', c''. split_and!; [exact Hr| | | |exact Hr'| | |].
  - apply (Hno friendLID). right. apply friend_mapped.
  - apply (Hno (withDevice friend 2)). left. repeat split; discriminate.
  - transitivity (keyOf (storeOf knownFriend) "9:3"); [apply Hother; intros j u device Hj Hu; apply (third_user friend u j); auto|vm_compute; reflexivity].
  - apply (Hno' friendLID). left. repeat split; discriminate.
  - apply (Hno' (withDevice friend 2)). right. split; [discriminate|]. right. split; [by left|]. split; [by left|vm_compute; reflexivity].
  - transitivity (keyOf (storeOf knownFriend) "9:3"); [apply Hother'; intros j u device Hj Hu; apply (third_user friendLID u j); auto|vm_compute; reflexivity].
Defined.
