(* ===== verification/Catalog.v ===== *)
(** The catalog of a business (src/business.go, src/types/business_catalog.go): what is sent
    for products, collections and settings, how answers are decoded, and the requests with
    an access token that is fetched, kept and thrown away. *)
From Stdlib Require Import ZArith Lia.
From Stdlib Require Import Strings.Byte.
From stdpp Require Import prelude gmap strings list fin_maps.
From S2P Require Import Prelude Strconv Jid Node Attrs Cbc LTHash Noise Handshake PreKeys SignalStore IdentityCache SessionCache SessionTheory LidMap LidMapSpec Requests MessageInfo Contacts Proto NodeEvents Json DeviceStore Client Events Devices Media TcToken Groups Cli Users Business Send SendTheory Pair PairCode PairPasskey Newsletter Notification.

Import DeviceStore.ClientPayload.

#[local] Open Scope string_scope.

(** ** Types *)

Definition BusinessAddress : ty := TStruct [
  ("street1", TString); ("street2", TString); ("city", TString); ("region", TString); ("postal_code", TString); ("country_code", TString)].
Definition BusinessComplianceInfo : ty := TStruct [
  ("country_code_origin", TString); ("importer_name", TString); ("importer_address", TPtr BusinessAddress)].
Definition BusinessProductImage : ty := TStruct [("id", TString); ("original_image_url", TString); ("request_image_url", TString)].
Definition BusinessProductVideo : ty := TStruct [("id", TString); ("original_video_url", TString); ("thumbnail_url", TString)].
Definition BusinessProductMedia : ty := TStruct [("images", TSlice BusinessProductImage); ("videos", TSlice BusinessProductVideo)].
Definition BusinessSalePrice : ty := TStruct [("price", TString); ("start_date", TString); ("end_date", TString)].
Definition BusinessProductStatus : ty := TStruct [("status", TString); ("can_appeal", TBool)].
Definition BusinessVariantProperty : ty := TStruct [("name", TString); ("value", TString)].
Definition BusinessVariantThumbnail : ty := TStruct [
  ("id", TString); ("original_image_url", TString); ("request_image_url", TString); ("original_dimensions", TStruct [("width", TInt); ("height", TInt)])].
Definition BusinessVariantOption : ty := TStruct [("value", TString); ("thumbnail_media", TPtr BusinessVariantThumbnail)].
Definition BusinessVariantType : ty := TStruct [("name", TString); ("options", TSlice BusinessVariantOption)].
Definition BusinessVariantListing : ty := TStruct [("description", TString); ("lowest_price", TString); ("multi_price", TString)].
Definition BusinessVariantAvailabilityItem : ty := TStruct [
  ("product_id", TString); ("is_available", TBool); ("options", TSlice BusinessVariantProperty)].
Definition BusinessProductVariant : ty := TStruct [
  ("availability", TStruct [("listing", TSlice BusinessVariantAvailabilityItem)]); ("listing_details", BusinessVariantListing);
  ("types", TSlice BusinessVariantType); ("variant_properties", TSlice BusinessVariantProperty)].
Definition BusinessProduct : ty := TStruct [
  ("id", TString); ("retailer_id", TString); ("belongs_to", TString); ("name", TString); ("description", TString); ("price", TString); ("currency", TString);
  ("url", TString); ("shimmed_url", TString); ("is_hidden", TBool); ("is_sanctioned", TBool); ("max_available", TInt); ("product_availability", TString);
  ("compliance_category", TString); ("compliance_info", TPtr BusinessComplianceInfo); ("media", BusinessProductMedia);
  ("sale_price", TPtr BusinessSalePrice); ("status_info", BusinessProductStatus); ("variant_info", TPtr BusinessProductVariant)].
Definition BusinessCollectionStatus : ty := TStruct [("status", TString); ("can_appeal", TBool); ("commerce_url", TString); ("reject_reason", TString)].
Definition BusinessCollection : ty := TStruct [
  ("id", TString); ("name", TString); ("next", TString); ("previous", TString); ("products", TSlice BusinessProduct); ("status_info", BusinessCollectionStatus)].
Definition BusinessMerchantContact : ty := TStruct [("email", TString); ("landline_number", TString); ("mobile_number", TString)].
Definition BusinessMerchantOfficer : ty := TStruct [("name", TString); ("email", TString); ("landline_number", TString); ("mobile_number", TString)].
Definition BusinessMerchantCompliance : ty := TStruct [
  ("entity_name", TString); ("entity_type", TString); ("is_registered", TBool); ("entity_type_custom", TString);
  ("customer_care_details", BusinessMerchantContact); ("grievance_officer_details", BusinessMerchantOfficer)].

Record GetCatalogParams := mkCatalogParams { After : string; Limit : Z; Width : Z; Height : Z }.
Record GetCollectionsParams := mkCollectionsParams { csAfter : string; CollectionLimit : Z; ItemLimit : Z; csWidth : Z; csHeight : Z }.
Record BusinessCatalogPage := mkCatalogPage { pageNext : string; pagePrevious : string; pageProducts : list gval }.
Record BusinessCollectionPage := mkCollectionPage { colNext : string; colCollections : list gval }.
Record BusinessCollectionUpdate := mkCollectionUpdate { cuName : option string; AddProductIDs : list string; RemoveProductIDs : list string }.
Record BusinessCollectionMove := mkMove { CollectionID : string; FromIndex : Z; ToIndex : Z }.

(** ** Checks and variables *)

Definition validateBusinessJID (jid : JID) : outcome bizError unit :=
  if IsEmpty jid || bool_decide (User jid = "") then Err (Empty "business JID")
  else require (bool_decide (Server jid = DefaultUserServer ∨ Server jid = HiddenUserServer)) (Invalid "business JID").
Definition validateBusinessID (kind id : string) : outcome bizError unit :=
  if blank id then Err (Empty (kind +:+ " ID"))
  else require (bounded id 256) (TooLong (kind +:+ " ID") 256).
Definition normalizeDimensions (width height : Z) : outcome bizError (Z * Z) :=
  let width := if decide (width = 0%Z) then 100%Z else width in
  let height := if decide (height = 0%Z) then 100%Z else height in
  if (1 <=? width)%Z && (width <=? 1024)%Z && (1 <=? height)%Z && (height <=? 1024)%Z then Ok (width, height)
  else Err (Invalid "catalog image dimensions").
(** A limit with its default and its bound. *)
Definition limitOr (what : string) (none max limit : Z) : outcome bizError Z :=
  let limit := if decide (limit = 0%Z) then none else limit in
  if (1 <=? limit)%Z && (limit <=? max)%Z then Ok limit else Err (Invalid what).
(** Identifiers that are checked one after the other, none of them twice. *)
Fixpoint distinctIDs (kind : string) (ids seen : list string) : outcome bizError unit :=
  match ids with
  | [] => Ok tt
  | id :: ids =>
      _ ← validateBusinessID kind id;
      if bool_decide (id ∈ seen) then Err (Invalid ("duplicate " +:+ kind)) else distinctIDs kind ids (id :: seen)
  end.

Definition JInt (z : Z) : json := JNum (FormatInt z).
Definition ofJID (jid : JID) : json := JStr (JIDString (ToNonAD jid)).
Definition text (z : Z) : json := JStr (Itoa z).
Definition dimensions (width height : Z) : list (string * json) := [("width", text width); ("height", text height)].
Definition thumbnails (width height : Z) : list (string * json) :=
  (dimensions width height ++ [("variant_thumbnail_width", text width); ("variant_thumbnail_height", text height); ("variant_info_fields", JObj [])])%list.
Definition unlessEmpty (k s : string) : list (string * json) := if decide (s = "") then [] else [(k, JStr s)].
Definition jsonStrings (l : list string) : json := JArr (JStr <$> l).
Definition request (k : string) (members : list (string * json)) : json := JObj [("request", JObj [(k, JObj members)])].
Definition input (members : list (string * json)) : json := JObj [("input", JObj members)].

Definition buildCatalogVariables (jid : JID) (params : GetCatalogParams) : outcome bizError json :=
  _ ← validateBusinessJID jid;
  _ ← require (bounded (After params) 2048) (TooLong "catalog cursor" 2048);
  limit ← limitOr "catalog limit" 50 100 (Limit params);
  '(width, height) ← normalizeDimensions (Width params) (Height params);
  Ok (request "product_catalog"
    ([("jid", ofJID jid); ("limit", text limit)] ++ thumbnails width height ++ [("allow_shop_source", JStr "ALLOWSHOPSOURCE_FALSE")]
     ++ unlessEmpty "after" (After params))).
Definition buildCatalogProductVariables (jid : JID) (productID : string) (width height : Z) : outcome bizError json :=
  _ ← validateBusinessJID jid;
  _ ← validateBusinessID "product" productID;
  '(width, height) ← normalizeDimensions width height;
  Ok (request "product" ([("jid", ofJID jid); ("product_id", JStr productID)] ++ thumbnails width height ++ [("fetch_compliance_info", JStr "true")])).
Definition buildCollectionsVariables (jid : JID) (params : GetCollectionsParams) : outcome bizError json :=
  _ ← validateBusinessJID jid;
  _ ← require (bounded (csAfter params) 2048) (TooLong "collection cursor" 2048);
  collectionLimit ← limitOr "collection limit" 20 20 (CollectionLimit params);
  itemLimit ← limitOr "collection item limit" 50 100 (ItemLimit params);
  '(width, height) ← normalizeDimensions (csWidth params) (csHeight params);
  Ok (request "collections"
    ([("biz_jid", ofJID jid); ("collection_limit", text collectionLimit); ("item_limit", text itemLimit)] ++ thumbnails width height
     ++ unlessEmpty "after" (csAfter params))).
Definition buildSingleCollectionVariables (jid : JID) (collectionID : string) (params : GetCatalogParams) : outcome bizError json :=
  _ ← validateBusinessJID jid;
  _ ← validateBusinessID "collection" collectionID;
  _ ← require (bounded (After params) 2048) (TooLong "collection cursor" 2048);
  limit ← limitOr "collection item limit" 50 100 (Limit params);
  '(width, height) ← normalizeDimensions (Width params) (Height params);
  Ok (request "collection" ([("biz_jid", ofJID jid); ("id", JStr collectionID); ("limit", text limit)] ++ thumbnails width height
    ++ unlessEmpty "after" (After params))).
Definition buildProductListVariables (jid : JID) (productIDs : list string) (width height : Z) : outcome bizError json :=
  _ ← validateBusinessJID jid;
  _ ← require ((1 <=? length productIDs)%nat && (length productIDs <=? 100)%nat) (Invalid "product list");
  _ ← distinctIDs "product" productIDs [];
  '(width, height) ← normalizeDimensions width height;
  Ok (request "product_list" ([("jid", ofJID jid); ("products", JArr ((λ id, JObj [("id", JStr id)]) <$> productIDs))] ++ dimensions width height)).

(** ** Collections *)

Definition businessCreateCollectionDocumentID : string := "29361942130088470".
Definition businessDeleteCollectionsDocumentID : string := "29970196299234260".
Definition businessUpdateCollectionDocumentID : string := "24486970300891371".
Definition businessReorderCollectionsDocumentID : string := "9930298893688430".
Definition maxBusinessCollectionItems : Z := 100.
Definition maxBusinessCollectionMoves : Z := 100.

(** A text without the blanks around it, which must not be empty. *)
Definition trimmedText (what : string) (max : Z) (s : string) : outcome bizError string :=
  let s := TrimSpace s in
  if decide (s = "") then Err (Empty what) else if bounded s max then Ok s else Err (TooLong what max).
Definition validateBusinessCollectionName : string → outcome bizError string := trimmedText "business collection name" 256.
Definition validateBusinessCollectionProductIDs (productIDs : list string) (allowEmpty : bool) : outcome bizError unit :=
  if (negb allowEmpty && bool_decide (productIDs = [])) || (maxBusinessCollectionItems <? Z.of_nat (length productIDs))%Z
  then Err (Invalid "business collection product list")
  else distinctIDs "product" productIDs [].
Definition collectionInput (k : string) (members : list (string * json)) : json := input [(k, JObj members)].

Definition buildCreateBusinessCollectionVariables (jid : JID) (name : string) (productIDs : list string) (catalogSessionID : string) : outcome bizError json :=
  _ ← validateBusinessJID jid;
  name ← validateBusinessCollectionName name;
  _ ← validateBusinessCollectionProductIDs productIDs false;
  _ ← validateBusinessID "catalog session" catalogSessionID;
  Ok (collectionInput "collection"
    [("name", JStr name); ("product_ids", jsonStrings productIDs); ("biz_jid", ofJID jid); ("catalog_session_id", JStr catalogSessionID)]).
Definition idsUnlessEmpty (k : string) (ids : list string) : list (string * json) :=
  match ids with [] => [] | _ => [(k, JObj [("ids", jsonStrings ids)])] end.
Definition buildUpdateBusinessCollectionVariables (jid : JID) (collectionID : string) (update : BusinessCollectionUpdate) (catalogSessionID : string) :
    outcome bizError json :=
  _ ← validateBusinessJID jid;
  _ ← validateBusinessID "collection" collectionID;
  _ ← validateBusinessID "catalog session" catalogSessionID;
  _ ← validateBusinessCollectionProductIDs (AddProductIDs update) true;
  _ ← validateBusinessCollectionProductIDs (RemoveProductIDs update) true;
  _ ← require (negb (bool_decide (cuName update = None ∧ AddProductIDs update = [] ∧ RemoveProductIDs update = []))) (Empty "business collection update");
  _ ← require (forallb (λ id, negb (bool_decide (id ∈ RemoveProductIDs update))) (AddProductIDs update)) (Invalid "product added and removed");
  name ← match cuName update with Some n => n ← validateBusinessCollectionName n; Ok [("name", JStr n)] | None => Ok [] end;
  Ok (collectionInput "collection"
    ([("id", JStr collectionID); ("biz_jid", ofJID jid); ("catalog_session_id", JStr catalogSessionID)] ++ name
     ++ idsUnlessEmpty "add" (AddProductIDs update) ++ idsUnlessEmpty "remove" (RemoveProductIDs update))).
Definition buildDeleteBusinessCollectionsVariables (jid : JID) (collectionIDs : list string) (catalogSessionID : string) : outcome bizError json :=
  _ ← validateBusinessJID jid;
  _ ← require ((1 <=? length collectionIDs)%nat && (Z.of_nat (length collectionIDs) <=? maxBusinessCollectionItems)%Z) (Invalid "business collection delete");
  _ ← validateBusinessID "catalog session" catalogSessionID;
  _ ← distinctIDs "collection" collectionIDs [];
  Ok (collectionInput "collections"
    [("collection_ids", jsonStrings collectionIDs); ("biz_jid", ofJID jid); ("catalog_session_id", JStr catalogSessionID)]).
(** A move is checked before it is compared with those before it. *)
Definition moveIndex (i : Z) : bool := (0 <=? i)%Z && (i <? maxBusinessCollectionMoves)%Z.
Fixpoint collectionMoves (moves : list BusinessCollectionMove) (seen : list string) : outcome bizError (list json) :=
  match moves with
  | [] => Ok []
  | move :: moves =>
      _ ← validateBusinessID "collection" (CollectionID move);
      if negb (moveIndex (FromIndex move) && moveIndex (ToIndex move)) then Err (Invalid "business collection move index")
      else if bool_decide (CollectionID move ∈ seen) then Err (Invalid "duplicate collection move")
      else
        rest ← collectionMoves moves (CollectionID move :: seen);
        Ok (JObj [("collection_id", JStr (CollectionID move)); ("from_index", JInt (FromIndex move)); ("to_index", JInt (ToIndex move))] :: rest)
  end.
Definition buildReorderBusinessCollectionsVariables (jid : JID) (moves : list BusinessCollectionMove) : outcome bizError json :=
  _ ← validateBusinessJID jid;
  _ ← require ((1 <=? length moves)%nat && (Z.of_nat (length moves) <=? maxBusinessCollectionMoves)%Z) (Invalid "business collection reorder");
  items ← collectionMoves moves [];
  Ok (input [("biz_jid", ofJID jid); ("move", JArr items)]).

(** ** Settings and appeals *)

Definition businessCreateCatalogDocumentID : string := "29232780583035464".
Definition businessUpdateCommerceDocumentID : string := "9797519763673469".
Definition businessProductVisibilityDocumentID : string := "9665162096898581".
Definition businessAppealProductDocumentID : string := "29276343172013990".
Definition businessAppealCollectionDocumentID : string := "9971242039605207".
Definition maxBusinessCatalogAppealReasonBytes : Z := 4096.

Definition buildCreateBusinessCatalogVariables (jid : JID) : outcome bizError json :=
  _ ← validateBusinessJID jid; Ok (input [("product_catalog", JObj [("biz_jid", ofJID jid)]); ("platform", JStr "WEB")]).
Definition buildBusinessCartVariables (jid : JID) (enabled : bool) : outcome bizError json :=
  _ ← validateBusinessJID jid; Ok (input [("biz_jid", ofJID jid); ("cart_enabled", JBool enabled)]).
Definition buildBusinessProductVisibilityVariables (jid : JID) (productID : string) (hidden : bool) : outcome bizError json :=
  _ ← validateBusinessJID jid;
  _ ← validateBusinessID "product" productID;
  Ok (input [("jid", ofJID jid); ("products", JArr [JObj [("product_id", JStr productID); ("is_hidden", JBool hidden)]])]).
Definition validateBusinessCatalogAppealReason : string → outcome bizError string := trimmedText "business catalog appeal reason" maxBusinessCatalogAppealReasonBytes.
Definition buildBusinessProductAppealVariables (jid : JID) (productID reason : string) : outcome bizError json :=
  _ ← validateBusinessJID jid;
  _ ← validateBusinessID "product" productID;
  reason ← validateBusinessCatalogAppealReason reason;
  Ok (input [("jid", ofJID jid); ("product_id", JStr productID); ("reason", JStr reason)]).
Definition buildBusinessCollectionAppealVariables (jid : JID) (collectionID reason : string) : outcome bizError json :=
  _ ← validateBusinessJID jid;
  _ ← validateBusinessID "collection" collectionID;
  reason ← validateBusinessCatalogAppealReason reason;
  Ok (input [("product_set_id", JStr collectionID); ("jid", ofJID jid); ("reason", JStr reason)]).

(** ** Compliance of the merchant *)

Definition businessCatalogGraphQLEndpoint : string := "https://graph.whatsapp.com/graphql/catalog".
Definition businessCatalogGraphQLAccessToken : string := "WA|787118555984857|7bb1544a3599aa180ac9a3f7688ba243".
Definition businessGetMerchantComplianceDocumentID : string := "25960403573553316".
Definition businessSetMerchantComplianceDocumentID : string := "25188352884120072".
Definition maxBusinessMerchantNameBytes : Z := 256.
Definition maxBusinessMerchantEmailBytes : Z := 254.
Definition maxBusinessMerchantPhoneBytes : Z := 64.
Definition BusinessMerchantEntityOther : string := "OTHER".
Definition merchantEntityTypes : list string :=
  ["SOLE_PROPRIETORSHIP"; "PARTNERSHIP"; "PRIVATE_COMPANY"; "PUBLIC_COMPANY"; "LIMITED_LIABILITY_PARTNERSHIP"; BusinessMerchantEntityOther].

Record merchantContact := mkContact { mcEmail : string; LandlineNumber : string; MobileNumber : string }.
Record merchantInfo := mkMerchant {
  EntityName : string; EntityType : string; IsRegistered : bool; EntityTypeCustom : string; CustomerCare : merchantContact;
  officerName : string; GrievanceOfficer : merchantContact
}.
Definition trimContact (c : merchantContact) : merchantContact := mkContact (TrimSpace (mcEmail c)) (TrimSpace (LandlineNumber c)) (TrimSpace (MobileNumber c)).
Definition validateBusinessMerchantEntityType (entityType : string) : outcome bizError unit :=
  require (bool_decide (entityType ∈ merchantEntityTypes)) (Invalid "business merchant entity type").
Definition validateBusinessMerchantField (name value : string) (limit : Z) : outcome bizError unit :=
  require (bounded value limit) (TooLong ("business merchant " +:+ name) limit).
Fixpoint merchantFields (fields : list (string * string * Z)) : outcome bizError unit :=
  match fields with
  | [] => Ok tt
  | (name, value, limit) :: fields => _ ← validateBusinessMerchantField name value limit; merchantFields fields
  end.
Definition normalizeBusinessMerchantCompliance (info : merchantInfo) : outcome bizError merchantInfo :=
  let info := mkMerchant (TrimSpace (EntityName info)) (EntityType info) (IsRegistered info) (TrimSpace (EntityTypeCustom info)) (trimContact (CustomerCare info))
                (TrimSpace (officerName info)) (trimContact (GrievanceOfficer info)) in
  let care := CustomerCare info in
  let officer := GrievanceOfficer info in
  if decide (EntityName info = "") then Err (Empty "business merchant entity name")
  else if decide (EntityType info = "") then Err (Empty "business merchant entity type")
  else
    _ ← validateBusinessMerchantEntityType (EntityType info);
    if decide (EntityType info = BusinessMerchantEntityOther ∧ EntityTypeCustom info = "") then Err (Empty "business merchant custom entity type")
    else
      _ ← merchantFields
        [("entity name", EntityName info, maxBusinessMerchantNameBytes); ("custom entity type", EntityTypeCustom info, maxBusinessMerchantNameBytes);
         ("customer care email", mcEmail care, maxBusinessMerchantEmailBytes); ("customer care landline", LandlineNumber care, maxBusinessMerchantPhoneBytes);
         ("customer care mobile", MobileNumber care, maxBusinessMerchantPhoneBytes); ("grievance officer name", officerName info, maxBusinessMerchantNameBytes);
         ("grievance officer email", mcEmail officer, maxBusinessMerchantEmailBytes);
         ("grievance officer landline", LandlineNumber officer, maxBusinessMerchantPhoneBytes);
         ("grievance officer mobile", MobileNumber officer, maxBusinessMerchantPhoneBytes)];
      Ok info.
Definition buildBusinessMerchantComplianceQueryVariables (jid : JID) : outcome bizError json :=
  _ ← validateBusinessJID jid; Ok (JObj [("request", JObj [("biz_jid", ofJID jid)])]).
Definition contactMembers (c : merchantContact) : list (string * json) :=
  [("email", JStr (mcEmail c)); ("landline_number", JStr (LandlineNumber c)); ("mobile_number", JStr (MobileNumber c))].
Definition buildBusinessMerchantComplianceVariables (jid : JID) (info : merchantInfo) : outcome bizError json :=
  _ ← validateBusinessJID jid;
  info ← normalizeBusinessMerchantCompliance info;
  Ok (input [("biz_jid", ofJID jid); ("merchant_info", JObj
    [("entity_name", JStr (EntityName info)); ("entity_type", JStr (EntityType info)); ("is_registered", JBool (IsRegistered info));
     ("entity_type_custom", JStr (EntityTypeCustom info)); ("customer_care_details", JObj (contactMembers (CustomerCare info)));
     ("grievance_officer_details", JObj (("name", JStr (officerName info)) :: contactMembers (GrievanceOfficer info)))])]).

(** ** Products *)

Definition businessGraphQLEndpoint : string := "https://graph.facebook.com/graphql".
Definition businessAddProductDocumentID : string := "24249359867999500".
Definition businessEditProductDocumentID : string := "9889773371084956".
Definition businessDeleteProductDocumentID : string := "9376108569185474".
Definition maxBusinessGraphQLResponseBytes : Z := 4 * 1024 * 1024.
Definition maxBusinessProductImageBytes : Z := 16 * 1024 * 1024.

Record importerAddress := mkImporter { Street1 : string; Street2 : string; City : string; Region : string; PostalCode : string; CountryCode : string }.
Record complianceInfo := mkCompliance { CountryCodeOrigin : string; ImporterName : string; ImporterAddress : option importerAddress }.
Record BusinessProductInput := mkProductInput {
  inName : string; inDescription : string; inCurrency : string; inPrice : string; SalePrice : string; inURL : string; RetailerID : string; Hidden : bool;
  ImageURLs : list string; VideoURLs : list string; ComplianceCategory : string; Compliance : option complianceInfo
}.
Definition isUnsignedDecimal (value : string) : bool := negb (bool_decide (value = "")) && bounded value 18 && forallb is_digit (s2b value).
Definition isUppercaseCurrency (value : string) : bool := bool_decide (length (s2b value) = 3%nat) && forallb (inRange 65 90) (s2b value).

Section products.
Context `{GoText}.

Definition mediaHosts : list string := ["whatsapp.net"; "fbcdn.net"; "facebook.com"].
Definition validateBusinessMediaURL (rawURL : string) : outcome bizError unit :=
  if negb (bounded rawURL 4096) then Err (TooLong "URL" 4096)
  else match ParseRequestURI rawURL with
       | Some parsed =>
           if negb (bool_decide (Scheme parsed = "https" ∧ Hostname parsed ≠ "")) then Err (Invalid "URL")
           else
             let host := ToLower (Hostname parsed) in
             require (existsb (λ h, bool_decide (host = h) || HasSuffix host ("." +:+ h)) mediaHosts) (Invalid "media host")
       | None => Err (Invalid "URL")
       end.
Fixpoint mediaURLs (urls : list string) : outcome bizError unit :=
  match urls with [] => Ok tt | u :: urls => _ ← validateBusinessMediaURL u; mediaURLs urls end.
Definition validPrices (i : BusinessProductInput) : outcome bizError unit :=
  if decide (inPrice i = "") then
    require (bool_decide (inCurrency i = "" ∧ SalePrice i = "")) (Invalid "business product currency and sale price")
  else if negb (isUppercaseCurrency (inCurrency i)) then Err (Invalid "business product currency")
  else if negb (isUnsignedDecimal (inPrice i)) then Err (Invalid "business product price")
  else require (bool_decide (SalePrice i = "") || isUnsignedDecimal (SalePrice i)) (Invalid "business product sale price").
Definition validCompliance (c : complianceInfo) : outcome bizError unit :=
  _ ← require (bounded (CountryCodeOrigin c) 3 && bounded (ImporterName c) 256) (Invalid "business product compliance information");
  match ImporterAddress c with
  | None => Ok tt
  | Some a => require (bounded (Street1 a) 512 && bounded (Street2 a) 512 && bounded (City a) 256 && bounded (Region a) 256 && bounded (PostalCode a) 64
                       && bounded (CountryCode a) 3) (Invalid "business product importer address")
  end.
Definition validateBusinessProductInput (i : BusinessProductInput) : outcome bizError unit :=
  _ ← trimmedText "business product name" 256 (inName i);
  _ ← require (bounded (inDescription i) 4096) (TooLong "business product description" 4096);
  _ ← require (bounded (RetailerID i) 256) (TooLong "business product retailer ID" 256);
  _ ← require ((1 <=? length (ImageURLs i))%nat && (length (ImageURLs i) <=? 10)%nat) (Invalid "business product images");
  _ ← mediaURLs (ImageURLs i);
  _ ← require (length (VideoURLs i) <=? 10)%nat (Invalid "business product videos");
  _ ← mediaURLs (VideoURLs i);
  _ ← (if decide (inURL i = "") then Ok tt
       else match ParseRequestURI (inURL i) with
            | Some parsed => require (bool_decide (Scheme parsed = "https" ∧ Host parsed ≠ "") && bounded (inURL i) 2048) (Invalid "business product URL")
            | None => Err (Invalid "business product URL")
            end);
  _ ← validPrices i;
  _ ← require (bounded (ComplianceCategory i) 128) (TooLong "business product compliance category" 128);
  match Compliance i with Some c => validCompliance c | None => Ok tt end.

Definition urlObjects (urls : list string) : json := JArr ((λ u, JObj [("url", JStr u)]) <$> urls).
Definition buildBusinessProductInfo (i : BusinessProductInput) : json :=
  let media := (("image", urlObjects (ImageURLs i)) :: match VideoURLs i with [] => [] | urls => [("video", urlObjects urls)] end) in
  let address a :=
    JObj ([("country_code", JStr (CountryCode a)); ("city", JStr (City a)); ("street1", JStr (Street1 a))] ++ unlessEmpty "street2" (Street2 a)
          ++ unlessEmpty "region" (Region a) ++ unlessEmpty "postal_code" (PostalCode a)) in
  let compliance c :=
    JObj ([("country_code_origin", JStr (CountryCodeOrigin c))] ++ unlessEmpty "importer_name" (ImporterName c)
          ++ match ImporterAddress c with Some a => [("importer_address", address a)] | None => [] end) in
  JObj ([("name", JStr (TrimSpace (inName i))); ("media", JObj media); ("is_hidden", JBool (Hidden i))] ++ unlessEmpty "description" (inDescription i)
        ++ unlessEmpty "url" (inURL i) ++ unlessEmpty "retailer_id" (RetailerID i)
        ++ (if decide (inPrice i = "") then [] else [("currency", JStr (inCurrency i)); ("price", JStr (inPrice i))])
        ++ unlessEmpty "sale_price" (SalePrice i)
        ++ match Compliance i with Some c => [("compliance_info", compliance c)] | None => [] end
        ++ unlessEmpty "compliance_category" (ComplianceCategory i)).
Definition buildBusinessProductMutationVariables (jid : JID) (productID : string) (i : BusinessProductInput) (width height : Z) : outcome bizError json :=
  _ ← validateBusinessJID jid;
  _ ← (if decide (productID = "") then Ok tt else validateBusinessID "product" productID);
  _ ← validateBusinessProductInput i;
  '(width, height) ← normalizeDimensions width height;
  Ok (input [("product", JObj
    ([("biz_jid", ofJID jid); ("width", JInt width); ("height", JInt height); ("product_info", buildBusinessProductInfo i)] ++ unlessEmpty "product_id" productID))]).
Definition buildDeleteBusinessProductsVariables (jid : JID) (productIDs : list string) : outcome bizError json :=
  _ ← validateBusinessJID jid;
  _ ← require ((1 <=? length productIDs)%nat && (length productIDs <=? 100)%nat) (Invalid "business product delete");
  _ ← distinctIDs "product" productIDs [];
  Ok (input [("biz_jid", ofJID jid); ("product_ids", jsonStrings productIDs)]).
Definition validateBusinessProductImage `{Crypto} (image : list byte) : outcome bizError (list byte) :=
  validateImage "business product image" maxBusinessProductImageBytes image.

(** ** Answers *)

(** Decoding a raw message into a type; [what]: the refusal. *)
Definition decoded (what : string) (t : ty) (data : option json) : outcome bizError gval :=
  match UnmarshalData t data with (v, true) => Ok v | _ => Err (Invalid what) end.
Definition pointedAt (what : string) (ks : list string) (v : gval) : outcome bizError gval :=
  match follow ks v with Some v => Ok v | None => Err (Empty what) end.
(** A struct with one field. *)
Definition only (k : string) (t : ty) : ty := TStruct [(k, t)].

Definition decodeCatalogPage (data : option json) : outcome bizError BusinessCatalogPage :=
  v ← decoded "catalog response"
        (only "xwa_product_catalog_get_product_catalog" (TPtr (only "product_catalog" (TPtr (TStruct
           [("paging", TPtr (TStruct [("after", TString); ("before", TString)])); ("products", TSlice BusinessProduct)]))))) data;
  catalog ← pointedAt "product_catalog" ["xwa_product_catalog_get_product_catalog"; "product_catalog"] v;
  let '(next, previous) := match follow ["paging"] catalog with Some p => (stringIn "after" p, stringIn "before" p) | None => ("", "") end in
  Ok (mkCatalogPage next previous (sliceIn "products" catalog)).
Definition decodeCatalogProduct (data : option json) : outcome bizError gval :=
  v ← decoded "catalog product response"
        (only "xwa_product_catalog_get_product" (TPtr (only "product_catalog" (TPtr (only "product" (TPtr BusinessProduct)))))) data;
  pointedAt "product" ["xwa_product_catalog_get_product"; "product_catalog"; "product"] v.
Definition decodeCollections (data : option json) : outcome bizError BusinessCollectionPage :=
  v ← decoded "collections response"
        (only "xwa_product_catalog_get_collections" (TPtr (TStruct
           [("collections", TSlice BusinessCollection); ("paging", TPtr (only "after" TString))]))) data;
  result ← pointedAt "collections" ["xwa_product_catalog_get_collections"] v;
  Ok (mkCollectionPage (match follow ["paging"] result with Some p => stringIn "after" p | None => "" end) (sliceIn "collections" result)).

Definition setFieldOf (k : string) (a v : gval) : gval := match v with GStruct s => GStruct (setMember k a s) | _ => v end.
(** The pages around a collection are written into it. *)
Definition decodeSingleCollection (data : option json) : outcome bizError gval :=
  v ← decoded "collection response"
        (only "xwa_product_catalog_get_single_collection" (TPtr (TStruct
           [("collection", TPtr BusinessCollection); ("paging", TPtr (TStruct [("after", TString); ("before", TString)]))]))) data;
  collection ← pointedAt "collection" ["xwa_product_catalog_get_single_collection"; "collection"] v;
  let collection := match fieldOf "products" collection with GNil => setFieldOf "products" (GSlice []) collection | _ => collection end in
  match follow ["xwa_product_catalog_get_single_collection"; "paging"] v with
  | Some p => Ok (setFieldOf "previous" (fieldOf "before" p) (setFieldOf "next" (fieldOf "after" p) collection))
  | None => Ok collection
  end.

(** The products by their identifiers, which must be there and differ. *)
Fixpoint productsByID (products : list gval) (byID : gmap string gval) : outcome bizError (gmap string gval) :=
  match products with
  | [] => Ok byID
  | product :: products =>
      let id := stringIn "id" product in
      if decide (id = "") then Err (Empty "product ID")
      else match byID !! id with
           | Some _ => Err (Invalid "duplicate product ID")
           | None => productsByID products (<[id := product]> byID)
           end
  end.
Definition requestedProduct (byID : gmap string gval) (id : string) : outcome bizError gval :=
  match byID !! id with Some product => Ok product | None => Err (Invalid "missing product") end.
Definition productListType : ty := only "xwa_product_catalog_get_product_list" (TPtr (only "product_list" (TPtr (only "products" (TSlice BusinessProduct))))).
Definition decodeProductList (data : option json) (requested : list string) : outcome bizError (list gval) :=
  v ← decoded "product list response" productListType data;
  l ← pointedAt "product_list" ["xwa_product_catalog_get_product_list"; "product_list"] v;
  byID ← productsByID (sliceIn "products" l) ∅;
  mapM (requestedProduct byID) requested.

(** An answer under a name: the raw messages of an object. *)
Definition envelope (what : string) (data : option json) (discriminator : string) : outcome bizError (option json) :=
  v ← decoded what (TMap TRaw) data;
  match v with
  | GMap m => match assoc discriminator m with Some (GRaw raw) => Ok raw | _ => Err (Empty discriminator) end
  | _ => Err (Empty discriminator)
  end.
Definition decodeBusinessCollectionMutation (data : option json) (discriminator : string) : outcome bizError (string * string) :=
  raw ← envelope "business collection mutation response" data discriminator;
  v ← decoded discriminator (only "collection" (TPtr (TStruct [("id", TString); ("status_info", TPtr (only "status" TString))]))) raw;
  collection ← pointedAt "collection status" ["collection"] v;
  status ← pointedAt "collection status" ["status_info"] collection;
  if decide (stringIn "id" collection = "" ∨ stringIn "status" status = "") then Err (Empty "collection status")
  else Ok (stringIn "id" collection, stringIn "status" status).
Definition decodeBusinessCatalogSuccess (data : option json) (discriminator : string) : outcome bizError unit :=
  raw ← envelope "business catalog response" data discriminator;
  if decide (discriminator = "xfb_whatsapp_catalog_create") then
    v ← decoded discriminator (only "product_catalog" (TPtr (TStruct []))) raw;
    _ ← pointedAt "product_catalog" ["product_catalog"] v; Ok tt
  else
    v ← decoded discriminator (only "success" (TPtr TBool)) raw;
    match follow ["success"] v with Some (GBool true) => Ok tt | _ => Err (Invalid (discriminator +:+ " success")) end.
Definition decodeBusinessCartEnabled (data : option json) (expected : bool) : outcome bizError unit :=
  v ← decoded "business commerce settings response" (only "xfb_whatsapp_smb_commerce_settings" (TPtr (only "cart_enabled" (TPtr TBool)))) data;
  result ← pointedAt "cart_enabled" ["xfb_whatsapp_smb_commerce_settings"] v;
  enabled ← pointedAt "cart_enabled" ["cart_enabled"] result;
  match enabled with GBool b => require (Bool.eqb b expected) (Invalid "cart_enabled") | _ => Err (Invalid "cart_enabled") end.
Definition decodeBusinessMerchantCompliance (data : option json) (k : string) : outcome bizError gval :=
  v ← decoded "business merchant compliance response" (TMap (only "merchant_info" (TPtr BusinessMerchantCompliance))) data;
  match v with
  | GMap m => match assoc k m ≫= follow ["merchant_info"] with Some info => Ok info | None => Err (Empty "merchant_info") end
  | _ => Err (Empty "merchant_info")
  end.
Definition decodeBusinessProductMutation (data : option json) (discriminator : string) : outcome bizError gval :=
  raw ← envelope "business product mutation response" data discriminator;
  v ← decoded discriminator (only "product" (TPtr BusinessProduct)) raw;
  product ← pointedAt "product" ["product"] v;
  if decide (stringIn "id" product = "") then Err (Empty "product") else Ok product.
Definition decodeDeleteBusinessProducts (data : option json) : outcome bizError Z :=
  v ← decoded "business product delete response" (only "xfb_whatsapp_catalog_delete_product" (TPtr (only "deleted_count" (TPtr TInt)))) data;
  result ← pointedAt "deleted_count" ["xfb_whatsapp_catalog_delete_product"] v;
  count ← pointedAt "deleted_count" ["deleted_count"] result;
  match count with GInt n => if (n <? 0)%Z then Err (Empty "deleted_count") else Ok n | _ => Err (Empty "deleted_count") end.
End products.

(** ** The access token

    What the HTTP client answers, and what other calls and the server do in the meantime:
    [graphQL]: the status and the body of the answer to a request, or the error of the
    request; [notified]: the notifications that arrive while a nonce is waited for;
    [lockTaken]: whether the lock of the token was taken before the context ended;
    [othersToken]: the token as other calls leave it until the lock is taken. *)
Record businessAccessToken := mkToken { accessToken : string; actorID : string }.
Definition noToken : businessAccessToken := mkToken "" "".
Record graphRequest := mkGraphRequest { endpoint : string; documentID : string; requestToken : string; variables : json; deviceHeader : option Z }.
Class CatalogOps := {
  graphQL : nat → graphRequest → outcome mediaError (Z * list byte);
  notified : nat → list node;
  lockTaken : nat → bool;
  othersToken : nat → businessAccessToken → businessAccessToken;
  sessionIDs : nat → string
}.

Definition businessSilentNonceQuery : infoQuery := mkInfoQuery "fb:thrift_iq" "get" ServerJID EmptyJID "" "118" VNil.
Definition businessTokenExchangeQuery (nonce : string) : outcome bizError infoQuery :=
  if blank nonce || negb (bounded nonce 8192) then Err (Invalid "business access token nonce")
  else Ok (mkInfoQuery "fb:thrift_iq" "get" ServerJID EmptyJID "" "104"
             (VNodes [mkNode "parameters" [] (VNodes [mkNode "code" [] (VBytes (s2b nonce))])])).
Definition parseBusinessTokenResponse (n : node) : outcome bizError businessAccessToken :=
  accessTokenNode ← childIn n "access_token" "business access token response";
  personNode ← childIn n "business_person" "business access token response";
  match Content accessTokenNode with
  | VBytes token =>
      if bool_decide (token = []) || (16384 <? Z.of_nat (length token))%Z then Err (Invalid "token")
      else
        let actor := (attrString "id" (AttrGetter_of personNode)).1 in
        if bool_decide (actor = "") || negb (bounded actor 256) then Err (Invalid "business person") else Ok (mkToken (b2s token) actor)
  | _ => Err (Invalid "token")
  end.
Definition parseBusinessNonceRequestResponse (n : node) : outcome bizError unit :=
  result ← childIn n "result" "business nonce response";
  let status := (attrString "status" (AttrGetter_of result)).1 in
  if decide (status = "Success") then Ok tt
  else if decide (status = "RecoveryRequired") then Err TokenRecoveryRequired
  else Err (Invalid "status of the business nonce request").
(** The answer comes with the error. *)
Definition classifyBusinessTokenExchangeError (e : iqError) : bizError :=
  match e with
  | IQErrorAnswer (Reply n) _ _ =>
      match GetOptionalChildByTag n ["error"] with
      | (errorNode, true) =>
          let code := (attrString "code" (AttrGetter_of errorNode)).1 in
          if decide (code = "432") then IncorrectNonce else if decide (code = "431") then TokenTooManyAttempts else BizIQ e
      | _ => BizIQ e
      end
  | _ => BizIQ e
  end.

Definition isBusinessGraphQLAuthError (e : bizError) : bool :=
  match e with BizGraphQL status codes => bool_decide (status = 401%Z ∨ status = 403%Z ∨ 190%Z ∈ codes ∨ 400%Z ∈ codes) | _ => false end.

Definition graphQLErrorItem : ty := TStruct [("code", TInt); ("message", TString)].
Definition graphQLEnvelope : ty := TStruct [("data", TRaw); ("errors", TSlice graphQLErrorItem); ("error", TPtr graphQLErrorItem)].
Definition errorCode (v : gval) : Z := match fieldOf "code" v with GInt z => z | _ => 0%Z end.
(** What is made of a status and a body. The codes of a body that decodes in part are told
    for a status that is no success. *)
Definition graphQLAnswer `{GoText} (status : Z) (body : list byte) : outcome bizError json :=
  if (maxBusinessGraphQLResponseBytes <? Z.of_nat (length body))%Z then Err (TooLong "business GraphQL response" maxBusinessGraphQLResponseBytes)
  else
    let '(v, ok) := UnmarshalAs graphQLEnvelope body in
    let errors := (sliceIn "errors" v ++ match fieldOf "error" v with GPtr e => if (ok : bool) then [e] else [] | _ => [] end)%list in
    if (status <? 200)%Z || (300 <=? status)%Z then Err (BizGraphQL status (errorCode <$> errors))
    else if negb ok then Err (Invalid "business GraphQL response")
    else match errors, fieldOf "data" v with
         | _ :: _, _ => Err (BizGraphQL status (errorCode <$> errors))
         | [], GRaw (Some JNull) | [], GRaw None => Err (Empty "business GraphQL data")
         | [], GRaw (Some data) => Ok data
         | [], _ => Err (Empty "business GraphQL data")
         end.

(** The variables with the actor in their input. *)
Definition businessCatalogMutationVariablesWithActor (variables : json) (actorID : string) : outcome bizError json :=
  if blank actorID then Err (Empty "actor ID")
  else match variables with
       | JObj members =>
           match assoc "input" members with
           | Some (JObj input) => Ok (JObj (setMember "input" (JObj (setMember "actor_id" (JStr actorID) input)) members))
           | _ => Err (Empty "input")
           end
       | _ => Err (Empty "input")
       end.

Section catalog.
Context `{GoText} `{JsonTime} `{SignalOps} `{ProtoCodec} `{NoiseCrypto} `{HKDF} `{CurveOps} `{KeyDerivation} `{PairOps} `{WebAuthn} `{MexJSON} `{NotificationOps} {outside : Outside} `{MapOrder} `{CatalogOps}.

(** The client with the token it keeps. *)
Definition catalogState : Type := whole * businessAccessToken.
Definition catalogM (A : Type) : Type := stateM catalogState bizError A.
#[local] Instance catalogM_ret : MRet catalogM := λ A, stateM_ret A.
#[local] Instance catalogM_bind : MBind catalogM := λ A B, stateM_bind A B.
Definition onWhole {A} (m : wholeM bizError A) : catalogM A := zoom fst (λ w s, (w, s.2)) id m.
Definition asking {A} (m : cliM bizError A) : catalogM A := onWhole (onCli m).
Definition keepToken (t : businessAccessToken) : catalogM unit := modify (λ s, (s.1, t)).
Definition moments : catalogM nat := asking tick.
(** The lock, and what others did to the token until it was taken. *)
Definition lockToken : catalogM unit :=
  t ← moments;
  if lockTaken t then modify (λ s, (s.1, othersToken t s.2)) else throw BizContext.

Definition waitForNonce : wholeM bizError string :=
  w ← get;
  match nonceWaiter w with Some (Some nonce) => mret nonce | _ => throw BizContext end.
(** One attempt; whatever happens, the waiter is taken away again. *)
Definition acquireSteps : wholeM bizError businessAccessToken :=
  _ ← modify (set_nonceWaiter (Some None));
  t ← onCli tick;
  response ← onCli (query BizIQ businessSilentNonceQuery);
  _ ← lift (parseBusinessNonceRequestResponse response);
  _ ← each handleBusinessCatalogNotification (notified t);
  nonce ← waitForNonce;
  exchange ← lift (businessTokenExchangeQuery nonce);
  response ← onCli (query classifyBusinessTokenExchangeError exchange);
  lift (parseBusinessTokenResponse response).
Definition acquireBusinessAccessToken : wholeM bizError businessAccessToken := λ w,
  let '(r, w) := acquireSteps w in (r, set_nonceWaiter None w).
(** A nonce that is refused is asked for once more. *)
Definition acquireTwice : catalogM businessAccessToken :=
  r ← onWhole (Client.try acquireBusinessAccessToken);
  match r with
  | inl IncorrectNonce => onWhole acquireBusinessAccessToken
  | inl e => throw e
  | inr token => mret token
  end.
(** [businessAccessToken], under the lock. *)
Definition getBusinessAccessToken : catalogM businessAccessToken :=
  _ ← lockToken;
  s ← get;
  if decide (accessToken s.2 ≠ "") then mret s.2
  else token ← acquireTwice; _ ← keepToken token; mret token.
Definition invalidateBusinessAccessToken (token : string) : catalogM unit :=
  _ ← lockToken;
  modify (λ s, (s.1, if decide (accessToken s.2 = token) then noToken else s.2)).

Definition sendBusinessFacebookGraphQL (endpoint documentID token : string) (variables : json) : catalogM json :=
  s ← get;
  t ← moments;
  let header := match devID (pDevice (wPair s.1).1.2) with Some jid => if negb (IsEmpty jid) && (0 <? Device jid)%Z then Some (Device jid) else None | None => None end in
  '(status, body) ← lift (map_err BizMedia (graphQL t (mkGraphRequest endpoint documentID token variables header)));
  lift (graphQLAnswer status body).

(** The first attempt; only after a refused token there is a second one, with another token. *)
Definition mutationAttempt (documentID : string) (variables : json) : catalogM (businessAccessToken * (bizError + json)) :=
  token ← getBusinessAccessToken;
  requestVariables ← lift (businessCatalogMutationVariablesWithActor variables (actorID token));
  r ← Client.try (sendBusinessFacebookGraphQL businessGraphQLEndpoint documentID (accessToken token) requestVariables);
  mret (token, r).
Definition executeBusinessCatalogMutation (documentID : string) (variables : json) : catalogM json :=
  '(token, r) ← mutationAttempt documentID variables;
  match r with
  | inr data => mret data
  | inl e =>
      if isBusinessGraphQLAuthError e then
        _ ← invalidateBusinessAccessToken (accessToken token);
        '(_, r) ← mutationAttempt documentID variables;
        match r with inr data => mret data | inl e => throw e end
      else throw e
  end.

(** ** Calls

    [md5], [g]: for the payload of the client. *)
Context (md5 : list byte → list byte) (g : payloads).
Definition sendBusinessMex (operationName : string) (variables : json) : catalogM (option json) :=
  match Lookup operationName with
  | None => throw (Invalid "business MEX operation")
  | Some operation => s ← get; asking (mexData md5 g (pDevice (wPair s.1).1.2) (DocumentID operation) variables)
  end.
Definition lookUp {A} (variables : outcome bizError json) (operationName : string) (decode : option json → outcome bizError A) : catalogM A :=
  variables ← lift variables;
  data ← sendBusinessMex operationName variables;
  lift (decode data).
Definition GetCatalog (business : JID) (params : GetCatalogParams) : catalogM BusinessCatalogPage :=
  lookUp (buildCatalogVariables business params) "QueryCatalog" decodeCatalogPage.
Definition GetCatalogProduct (business : JID) (productID : string) : catalogM gval :=
  lookUp (buildCatalogProductVariables business productID 100 100) "QueryCatalogProduct" decodeCatalogProduct.
Definition GetProductCollections (business : JID) (params : GetCollectionsParams) : catalogM BusinessCollectionPage :=
  lookUp (buildCollectionsVariables business params) "QueryProductCollections" decodeCollections.
Definition GetProductCollection (business : JID) (collectionID : string) (params : GetCatalogParams) : catalogM gval :=
  lookUp (buildSingleCollectionVariables business collectionID params) "QueryProductSingleCollection" decodeSingleCollection.
Definition GetCatalogProducts (business : JID) (productIDs : list string) : catalogM (list gval) :=
  lookUp (buildProductListVariables business productIDs 100 100) "QueryProductListCatalog" (λ data, decodeProductList data productIDs).

Definition ownBusinessJID : catalogM JID :=
  s ← get;
  let jid := ToNonAD (default EmptyJID (devID (pDevice (wPair s.1).1.2))) in
  _ ← lift (validateBusinessJID jid); mret jid.
Definition mutate {A} (documentID : string) (variables : JID → outcome bizError json) (decode : option json → outcome bizError A) : catalogM A :=
  jid ← ownBusinessJID;
  variables ← lift (variables jid);
  data ← executeBusinessCatalogMutation documentID variables;
  lift (decode (Some data)).
(** The session is drawn before the variables are checked. *)
Definition mutateInSession {A} (documentID : string) (variables : JID → string → outcome bizError json) (decode : option json → outcome bizError A) : catalogM A :=
  jid ← ownBusinessJID;
  t ← moments;
  variables ← lift (variables jid (sessionIDs t));
  data ← executeBusinessCatalogMutation documentID variables;
  lift (decode (Some data)).

Definition CreateBusinessCollection (name : string) (productIDs : list string) : catalogM (string * string) :=
  mutateInSession businessCreateCollectionDocumentID (λ jid, buildCreateBusinessCollectionVariables jid name productIDs)
    (λ data, decodeBusinessCollectionMutation data "xfb_whatsapp_catalog_create_collection").
Definition UpdateBusinessCollection (collectionID : string) (update : BusinessCollectionUpdate) : catalogM (string * string) :=
  mutateInSession businessUpdateCollectionDocumentID (λ jid, buildUpdateBusinessCollectionVariables jid collectionID update)
    (λ data, decodeBusinessCollectionMutation data "xfb_whatsapp_catalog_update_collection").
Definition DeleteBusinessCollections (collectionIDs : list string) : catalogM unit :=
  mutateInSession businessDeleteCollectionsDocumentID (λ jid, buildDeleteBusinessCollectionsVariables jid collectionIDs)
    (λ data, decodeBusinessCatalogSuccess data "xfb_whatsapp_catalog_delete_collections").
Definition ReorderBusinessCollections (moves : list BusinessCollectionMove) : catalogM unit :=
  mutate businessReorderCollectionsDocumentID (λ jid, buildReorderBusinessCollectionsVariables jid moves)
    (λ data, decodeBusinessCatalogSuccess data "xfb_whatsapp_catalog_update_collection_list").
Definition CreateBusinessCatalog : catalogM unit :=
  mutate businessCreateCatalogDocumentID buildCreateBusinessCatalogVariables (λ data, decodeBusinessCatalogSuccess data "xfb_whatsapp_catalog_create").
Definition SetBusinessCartEnabled (enabled : bool) : catalogM unit :=
  mutate businessUpdateCommerceDocumentID (λ jid, buildBusinessCartVariables jid enabled) (λ data, decodeBusinessCartEnabled data enabled).
Definition SetBusinessProductVisibility (productID : string) (hidden : bool) : catalogM unit :=
  mutate businessProductVisibilityDocumentID (λ jid, buildBusinessProductVisibilityVariables jid productID hidden)
    (λ data, decodeBusinessCatalogSuccess data "xfb_whatsapp_catalog_product_visibility_update").
Definition AppealBusinessProduct (productID reason : string) : catalogM unit :=
  mutate businessAppealProductDocumentID (λ jid, buildBusinessProductAppealVariables jid productID reason)
    (λ data, decodeBusinessCatalogSuccess data "xfb_whatsapp_catalog_appeal_product").
Definition AppealBusinessCollection (collectionID reason : string) : catalogM unit :=
  mutate businessAppealCollectionDocumentID (λ jid, buildBusinessCollectionAppealVariables jid collectionID reason)
    (λ data, decodeBusinessCatalogSuccess data "xfb_whatsapp_catalog_appeal_collection").
Definition GetBusinessMerchantCompliance : catalogM gval :=
  jid ← ownBusinessJID;
  variables ← lift (buildBusinessMerchantComplianceQueryVariables jid);
  data ← sendBusinessFacebookGraphQL businessCatalogGraphQLEndpoint businessGetMerchantComplianceDocumentID businessCatalogGraphQLAccessToken variables;
  lift (decodeBusinessMerchantCompliance (Some data) "xfb_whatsapp_biz_merchant_compliance_info").
Definition SetBusinessMerchantCompliance (info : merchantInfo) : catalogM gval :=
  mutate businessSetMerchantComplianceDocumentID (λ jid, buildBusinessMerchantComplianceVariables jid info)
    (λ data, decodeBusinessMerchantCompliance data "xfb_whatsapp_biz_merchant_set_compliance_info").
Definition CreateBusinessProduct (i : BusinessProductInput) (width height : Z) : catalogM gval :=
  mutate businessAddProductDocumentID (λ jid, buildBusinessProductMutationVariables jid "" i width height)
    (λ data, decodeBusinessProductMutation data "xfb_whatsapp_catalog_add_product").
Definition UpdateBusinessProduct (productID : string) (i : BusinessProductInput) (width height : Z) : catalogM gval :=
  mutate businessEditProductDocumentID (λ jid, buildBusinessProductMutationVariables jid productID i width height)
    (λ data, decodeBusinessProductMutation data "xfb_whatsapp_catalog_edit_product").
Definition DeleteBusinessProducts (productIDs : list string) : catalogM Z :=
  mutate businessDeleteProductDocumentID (λ jid, buildDeleteBusinessProductsVariables jid productIDs) decodeDeleteBusinessProducts.

(** An image for a product: its URL, or the path on the servers for media. *)
Definition UploadBusinessProductImage (conn : outcome mediaError MediaConn) (post : uploadRequest → string → outcome mediaError (Z * list byte)) (image : list byte) :
    outcome bizError string :=
  hash ← validateBusinessProductImage image;
  mediaConn ← map_err BizMedia conn;
  request ← imageRequest mediaConn "/product/image/" hash image;
  '(status, body) ← map_err BizMedia (post request "application/octet-stream");
  if decide (status ≠ 200%Z) then Err (BizHttpStatus status)
  else
    match DecodeAs (TStruct [("url", TString); ("direct_path", TString); ("handle", TString); ("object_id", TString)]) (take (2 ^ 20) body) with
    | (_, false) => Err (Invalid "business product image upload response")
    | (v, true) =>
        let url := stringIn "url" v in
        let directPath := stringIn "direct_path" v in
        if decide (url ≠ "") then _ ← validateBusinessMediaURL url; Ok url
        else if startsWithSlash directPath && bounded directPath 4096 then Ok ("https://mmg.whatsapp.net" +:+ directPath)
        else Err (Invalid "business product image URL")
    end.
End catalog.

(** * Properties *)

(** ** Requested products *)

Section productList.
Context `{GoText}.

Lemma productsByID_ok products : ∀ byID byID', productsByID products byID = Ok byID' →
  (∀ id p, byID' !! id = Some p ↔ byID !! id = Some p ∨ (p ∈ products ∧ stringIn "id" p = id)) ∧
  NoDup (stringIn "id" <$> products) ∧ "" ∉ stringIn "id" <$> products ∧ (∀ p, p ∈ products → byID !! stringIn "id" p = None).
Proof.
  induction products as [|p products IH]; intros byID byID'; cbn [productsByID].
  - intros [= ->]. split_and!; [|by apply NoDup_nil|by intros ?%elem_of_nil|by intros ? ?%elem_of_nil]. intros id p. set_solver.
  - case_decide as Hid; [done|]. destruct (byID !! stringIn "id" p) eqn:Hlook; [done|]. intros (Hb & Hn & He & Hs)%IH. split_and!.
    + intros id q. rewrite Hb, lookup_insert_Some, elem_of_cons. split.
      * intros [[[<- <-]|[_ ?]]|[? <-]]; [right|left|right]; naive_solver.
      * intros [Hq|[[->|Hq] <-]].
        -- left. right. split; [|done]. intros Hi. congruence.
        -- left. by left.
        -- by right.
    + apply NoDup_cons. split; [|done]. intros (q & Heq & Hq)%list_elem_of_fmap. apply (Hs q), lookup_insert_None in Hq as [_ Hne]. by apply Hne.
    + apply not_elem_of_cons. split; [congruence|done].
    + intros q [->|Hq]%elem_of_cons; [done|]. specialize (Hs q Hq). by apply lookup_insert_None in Hs as [? _].
Qed.

(** The products are the requested ones, in their order, each as the server described it,
    whose list has no product twice and none without an identifier. *)
Lemma product_list_exact (data : option json) (requested : list string) (products : list gval) :
  decodeProductList data requested = Ok products →
  stringIn "id" <$> products = requested ∧
  ∃ v l, decoded "product list response" productListType data = Ok v ∧
    pointedAt "product_list" ["xwa_product_catalog_get_product_list"; "product_list"] v = Ok l ∧
    (∀ p, p ∈ products → p ∈ sliceIn "products" l) ∧ NoDup (stringIn "id" <$> sliceIn "products" l) ∧ "" ∉ stringIn "id" <$> sliceIn "products" l.
Proof.
  unfold decodeProductList. intros (v & Hv & (l & Hl & (byID & Hb & Hm)%bizBind_ok)%bizBind_ok)%bizBind_ok.
  apply productsByID_ok in Hb as (Hb & Hn & He & _).
  assert (stringIn "id" <$> products = requested ∧ ∀ p, p ∈ products → p ∈ sliceIn "products" l) as [Hids Hin].
  { clear Hv Hl Hn He. revert products Hm. induction requested as [|id requested IH]; intros products; cbn [mapM].
    - intros [= <-]. split; [done|]. by intros ? ?%elem_of_nil.
    - intros (p & Hp & (ps & Hps & [= <-])%bizBind_ok)%bizBind_ok. unfold requestedProduct in Hp. destruct (byID !! id) eqn:Hlook; [|done]. injection Hp as ->.
      apply Hb in Hlook as [?|[Hp Hid]]; [by rewrite lookup_empty in *|]. destruct (IH _ Hps) as [<- Hin]. rewrite fmap_cons, Hid. split; [done|].
      intros q [->|Hq]%elem_of_cons; [done|by apply Hin]. }
  split; [done|]. exists v, l. done.
Qed.
End productList.

(** ** Tokens *)

Section tokens.
Context `{GoText} `{JsonTime} `{SignalOps} `{ProtoCodec} `{NoiseCrypto} `{HKDF} `{CurveOps} `{KeyDerivation} `{PairOps} `{WebAuthn} `{MexJSON} `{NotificationOps} {outside : Outside} `{MapOrder} `{CatalogOps}.
#[local] Existing Instances cliM_ret cliM_bind wholeM_ret wholeM_bind catalogM_ret catalogM_bind.

(** The nonce of a notification that the handler takes. *)
Definition nonceIn (n : node) : option string :=
  match GetOptionalChildByTag n ["wa_ad_account_nonce"] with
  | (nonceNode, true) =>
      match Content nonceNode with
      | VBytes nonce => if decide (nonce = [] ∨ (8192 < length nonce)%nat) then None else Some (b2s nonce)
      | _ => None
      end
  | _ => None
  end.

(** The actor that the variables of a request name. *)
Definition actorOf (v : json) : option json :=
  match v with JObj members => match assoc "input" members with Some (JObj input) => assoc "actor_id" input | _ => None end | _ => None end.
Definition accepted (document : string) (fresh : businessAccessToken) (req : graphRequest) : Prop :=
  endpoint req = businessGraphQLEndpoint ∧ documentID req = document ∧ requestToken req = accessToken fresh ∧
  actorOf (variables req) = Some (JStr (actorID fresh)).

(** How the server may tell that a token is not good: with one of two statuses of HTTP, or
    with one of two codes among its errors, whatever the status. *)
Inductive authRefusal : Z → list Z → Prop :=
| Unauthorized codes : authRefusal 401 codes
| Forbidden codes : authRefusal 403 codes
| TokenExpired status before after : authRefusal status (before ++ 190%Z :: after)
| TokenRejected status before after : authRefusal status (before ++ 400%Z :: after).

(** A server that gives out tokens and takes the one it gave out last: [fresh]. A request
    with any other token, or for another actor or document, is refused, each as the server
    likes. Other calls of the client may forget the token or fetch it as well. *)
Record tokenServer (document : string) (fresh : businessAccessToken) (data : json) (nonce : string) (asked exchanged : node) : Prop := mkServer {
  server_lock t : lockTaken t = true;
  server_others t token : othersToken t token ∈ [token; noToken; fresh];
  server_asked t : answerIQ t businessSilentNonceQuery = Ok asked;
  server_success : parseBusinessNonceRequestResponse asked = Ok tt;
  server_notified t : head (omap nonceIn (notified t)) = Some nonce;
  server_exchange t : ∃ q, businessTokenExchangeQuery nonce = Ok q ∧ answerIQ t q = Ok exchanged;
  server_token : parseBusinessTokenResponse exchanged = Ok fresh;
  server_actor : blank (actorID fresh) = false;
  server_data t req : ∃ status body, graphQL t req = Ok (status, body) ∧
    (accepted document fresh req ∧ graphQLAnswer status body = Ok data ∨ ¬ accepted document fresh req ∧ ∃ codes, authRefusal status codes ∧ graphQLAnswer status body = Err (BizGraphQL status codes))
}.

Lemma each_nonces {F} l : ∀ w, ∃ w', each (F := F) handleBusinessCatalogNotification l w = (Ok tt, w') ∧
  nonceWaiter w' = match nonceWaiter w with Some None => Some (head (omap nonceIn l)) | x => x end.
Proof.
  induction l as [|n l IH]; intros w.
  - exists w. split; [done|]. cbn. by destruct (nonceWaiter w) as [[?|]|].
  - assert (∃ w1, handleBusinessCatalogNotification (F := F) n w = (Ok tt, w1) ∧
      nonceWaiter w1 = match nonceWaiter w, nonceIn n with Some None, Some x => Some (Some x) | x, _ => x end) as (w1 & Hrun & Hn1).
    { unfold handleBusinessCatalogNotification, nonceIn. destruct (GetOptionalChildByTag n _) as [c []].
      - destruct (Content c); try (eexists; split; [reflexivity|]; by destruct (nonceWaiter w) as [[?|]|]).
        case_decide; [eexists; split; [reflexivity|]; by destruct (nonceWaiter w) as [[?|]|]|].
        eexists. split; [reflexivity|]. by destruct (nonceWaiter w) as [[?|]|] eqn:Hw.
      - eexists. split; [reflexivity|]. by destruct (nonceWaiter w) as [[?|]|]. }
    destruct (IH w1) as (w' & Hrest & Hn'). exists w'. split.
    + cbn [each]. etransitivity; [by apply (stateM_step _ _ _ _ _ Hrun)|]. exact Hrest.
    + rewrite Hn', Hn1. cbn [omap list_omap]. destruct (nonceWaiter w) as [[?|]|], (nonceIn n); done.
Qed.

(** A step that succeeds, and what comes after it. *)
Definition runs {S F A} (m : stateM S F A) (s : S) (Q : A → S → Prop) : Prop := ∃ a s', m s = (Ok a, s') ∧ Q a s'.
Lemma runs_bind {S F A B} (m : stateM S F A) (f : A → stateM S F B) s Q : runs m s (λ a s', runs (f a) s' Q) → runs (m ≫= f) s Q.
Proof. intros (a & s1 & Hm & b & s2 & Hf & HQ). exists b, s2. by rewrite (stateM_step _ _ _ _ _ Hm). Qed.
Lemma runs_weaken {S F A} (m : stateM S F A) s (P Q : A → S → Prop) : runs m s P → (∀ a s', P a s' → Q a s') → runs m s Q.
Proof. intros (a & s' & Hm & HP) HQ. exists a, s'. eauto. Qed.
Lemma runs_lift {S F A} (r : outcome F A) a (s : S) (Q : A → S → Prop) : r = Ok a → Q a s → runs (lift r) s Q.
Proof. intros -> HQ. by exists a, s. Qed.

Lemma try_Ok {S F G A} (m : stateM S F A) s a s' : m s = (Ok a, s') → Client.try (G := G) m s = (Ok (inr a), s').
Proof. intros Hm. unfold Client.try. by rewrite Hm. Qed.
Lemma try_Err {S F G A} (m : stateM S F A) s e s' : m s = (Err e, s') → Client.try (G := G) m s = (Ok (inl e), s').
Proof. intros Hm. unfold Client.try. by rewrite Hm. Qed.

(** A call of the client that succeeds, in the whole client. *)
Lemma onCli_runs {F A} (m : cliM F A) (P : A → Prop) w : (∀ c, runs m c (λ a _, P a)) → runs (onCli m) w (λ a w', P a ∧ nonceWaiter w' = nonceWaiter w).
Proof.
  intros Hm. destruct (Hm (wPair w).1.1) as (a & c' & Hr & HP). destruct w as [[[c pr] pk] ? ? ? ? ? ? ? ? ?]. cbn in Hr.
  exists a. eexists. unfold onCli, onPairing, onPasskey, onPair, onClient, zoom. cbn. rewrite Hr. cbn. done.
Qed.
Lemma query_runs {F} (err : iqError → F) q n c : (∀ t, answerIQ t q = Ok n) → runs (query err q) c (λ a _, a = n).
Proof. intros Hq. apply runs_bind. eexists _, _. split; [reflexivity|]. eapply runs_lift; [by rewrite Hq|done]. Qed.

Section server.
Context (document : string) (fresh : businessAccessToken) (data : json) (nonce : string) (asked exchanged : node)
  (server : tokenServer document fresh data nonce asked exchanged).

Lemma fresh_nonempty : accessToken fresh ≠ "".
Proof using server.
  pose proof (server_token _ _ _ _ _ _ server) as Hp. revert Hp. unfold parseBusinessTokenResponse. intros (a & Ha & (p & Hpn & Ht)%bizBind_ok)%bizBind_ok.
  destruct (Content a); try done. rename select (list byte) into token. cbv zeta in Ht.
  case_match eqn:Hlen; [done|]. case_match; [done|]. injection Ht as Hf. apply (f_equal accessToken) in Hf. cbn in Hf. rewrite <- Hf. by destruct token.
Qed.

Lemma acquire_runs w : runs acquireBusinessAccessToken w (λ t _, t = fresh).
Proof using server.
  enough (runs acquireSteps w (λ t _, t = fresh)) as (t & w' & Hr & ->) by (exists fresh, (set_nonceWaiter None w'); unfold acquireBusinessAccessToken; by rewrite Hr).
  apply runs_bind. eexists _, _. split; [reflexivity|].
  apply runs_bind. eapply runs_weaken; [apply (onCli_runs tick (λ _, True)); intros c; by eexists _, _|]. intros t w1 [_ Hw1].
  apply runs_bind. eapply runs_weaken; [apply onCli_runs; intros c; apply query_runs; apply (server_asked _ _ _ _ _ _ server)|]. intros ? w2 [-> Hw2].
  apply runs_bind. eapply runs_lift; [apply (server_success _ _ _ _ _ _ server)|].
  apply runs_bind. destruct (each_nonces (F := bizError) (notified t) w2) as (w3 & He & Hw3). exists tt, w3. split; [exact He|].
  apply runs_bind. exists nonce, w3. split.
  { unfold waitForNonce, mbind, wholeM_bind, stateM_bind, get. rewrite Hw3, Hw2, Hw1. cbn. by rewrite (server_notified _ _ _ _ _ _ server). }
  destruct (server_exchange _ _ _ _ _ _ server 0%nat) as (q & Hqe & _). apply runs_bind. eapply runs_lift; [exact Hqe|].
  apply runs_bind. eapply runs_weaken; [apply onCli_runs; intros c; apply query_runs|].
  { intros t'. destruct (server_exchange _ _ _ _ _ _ server t') as (q' & Hq' & Ha). rewrite Hqe in Hq'. injection Hq' as ->. exact Ha. }
  intros ? w4 [-> _]. eapply runs_lift; [apply (server_token _ _ _ _ _ _ server)|done].
Qed.

Lemma moments_runs s : runs moments s (λ _ s', s'.2 = s.2).
Proof. destruct s as [[[[c pr] pk] ? ? ? ? ? ? ? ? ?] t]. eexists _, _. split; reflexivity. Qed.

Lemma lockToken_runs s : runs lockToken s (λ _ s', s'.2 ∈ [s.2; noToken; fresh]).
Proof using server.
  apply runs_bind. eapply runs_weaken; [apply moments_runs|]. intros t s' <-. rewrite (server_lock _ _ _ _ _ _ server).
  eexists _, _. split; [reflexivity|]. apply (server_others _ _ _ _ _ _ server).
Qed.

(** The token of a call, which is also the one that is kept. *)
Lemma getToken_runs s : runs getBusinessAccessToken s (λ t s', s'.2 = t ∧ (t = fresh ∨ t = s.2 ∧ accessToken t ≠ "")).
Proof using server.
  apply runs_bind. eapply runs_weaken; [apply lockToken_runs|]. intros _ [w1 t1] Hin. cbn [snd] in Hin.
  apply runs_bind. eexists _, _. split; [reflexivity|]. cbn [snd]. case_decide as Hne.
  - eexists _, _. split; [reflexivity|]. split; [done|]. apply elem_of_cons in Hin as [->|[->|Hf%list_elem_of_singleton]%elem_of_cons]; [by right|done|by left].
  - destruct (acquire_runs w1) as (? & w2 & Hacq & ->).
    apply runs_bind. exists fresh, (w2, t1). split.
    { unfold acquireTwice, onWhole, zoom, Client.try, mbind, catalogM_bind, stateM_bind. cbn. by rewrite Hacq. }
    apply runs_bind. eexists _, _. split; [reflexivity|]. eexists _, _. split; [reflexivity|]. split; [done|by left].
Qed.
Lemma withActor_ok members input actor : assoc "input" members = Some (JObj input) → blank actor = false →
  ∃ v, businessCatalogMutationVariablesWithActor (JObj members) actor = Ok v ∧ actorOf v = Some (JStr actor).
Proof.
  intros Hin Hb. unfold businessCatalogMutationVariablesWithActor. rewrite Hb, Hin. eexists. split; [done|]. cbn. by rewrite !assoc_setMember.
Qed.

(** One attempt: the token it took is kept; the answer is the data, or the token, the actor or
    both are not those of the server. *)
Lemma attempt_runs members input s : assoc "input" members = Some (JObj input) → (accessToken s.2 ≠ "" → blank (actorID s.2) = false) →
  runs (mutationAttempt document (JObj members)) s (λ '(t, r) s', s'.2 = t ∧ (t = fresh ∨ t = s.2 ∧ accessToken t ≠ "") ∧
    (r = inr data ∧ accessToken t = accessToken fresh ∨ (∃ status codes, authRefusal status codes ∧ r = inl (BizGraphQL status codes)) ∧ t ≠ fresh)).
Proof using server.
  intros Hin Hactor. apply runs_bind. eapply runs_weaken; [apply getToken_runs|]. intros t s1 [Hs1 Ht].
  assert (blank (actorID t) = false) as Hb by (destruct Ht as [->|[-> Hne]]; [apply (server_actor _ _ _ _ _ _ server)|by apply Hactor]).
  destruct (withActor_ok members input (actorID t) Hin Hb) as (v & Hv & Hav). apply runs_bind. eapply runs_lift; [exact Hv|].
  set (header := match devID (pDevice (wPair s1.1).1.2) with Some jid => if negb (IsEmpty jid) && (0 <? Device jid)%Z then Some (Device jid) else None | None => None end).
  destruct (moments_runs s1) as (m & s2 & Hm & Hs2).
  destruct (server_data _ _ _ _ _ _ server m (mkGraphRequest businessGraphQLEndpoint document (accessToken t) v header)) as (status & body & Hg & Hans).
  assert (∃ r, sendBusinessFacebookGraphQL businessGraphQLEndpoint document (accessToken t) v s1 = (r, s2) ∧ r = graphQLAnswer status body) as (r & Hr & Hrb).
  { eexists. split; [|reflexivity]. unfold sendBusinessFacebookGraphQL. etransitivity; [by apply (stateM_step get _ _ s1 s1)|].
    etransitivity; [apply (stateM_step _ _ _ _ _ Hm)|]. cbv zeta. fold header. etransitivity; [apply (stateM_step _ _ _ (status, body) s2)|reflexivity].
    unfold lift. by rewrite Hg. }
  apply runs_bind. destruct Hans as [[Ha Hd]|[Ha (codes & Hauth & Hd)]]; rewrite Hd in Hrb; subst r.
  - exists (inr data), s2. split; [by apply try_Ok|]. eexists _, _. split; [reflexivity|]. split_and!; [congruence|naive_solver|]. left. split; [done|]. apply Ha.
  - exists (inl (BizGraphQL status codes)), s2. split; [by apply try_Err|]. eexists _, _. split; [reflexivity|]. split_and!; [congruence|naive_solver|]. right. split; [by eauto|].
    intros ->. by apply Ha.
Qed.
Lemma invalidate_runs token s : runs (invalidateBusinessAccessToken token) s (λ _ s', s.2 ≠ fresh → accessToken s.2 = token → s'.2 ∈ [noToken; fresh]).
Proof using server.
  apply runs_bind. eapply runs_weaken; [apply lockToken_runs|]. intros [] s1 Hin. eexists _, _. split; [reflexivity|]. cbn [snd].
  intros _ Htok. case_decide as Hsame; [by left|].
  apply elem_of_cons in Hin as [Hin|Hin]; [congruence|done].
Qed.
End server.

Lemma authRefusal_error status codes : authRefusal status codes → isBusinessGraphQLAuthError (BizGraphQL status codes) = true.
Proof. destruct 1; apply bool_decide_eq_true; set_solver. Qed.

(** C40: a change of the catalog succeeds with whatever token the client keeps, if the server
    gives out a token that it takes. When it refuses the kept token, with HTTP 401 or 403 or
    with a code 190 or 400 among the errors of any status, the token is thrown away, another
    one is asked for, its nonce is awaited and exchanged, and the change is sent once more,
    with the actor of the new token; other calls may throw the token away or fetch it in the
    meantime. Afterwards the client keeps the token that the server takes. *)
Theorem expired_token_recovers (document : string) (fresh : businessAccessToken) (data : json) (nonce : string) (asked exchanged : node)
    (members input : list (string * json)) (w : whole) (kept : businessAccessToken) :
  tokenServer document fresh data nonce asked exchanged →
  assoc "input" members = Some (JObj input) →
  (accessToken kept ≠ "" → blank (actorID kept) = false) →
  ∃ w' t', executeBusinessCatalogMutation document (JObj members) (w, kept) = (Ok data, (w', t')) ∧ accessToken t' = accessToken fresh.
Proof.
  intros server Hin Hactor.
  enough (runs (executeBusinessCatalogMutation document (JObj members)) (w, kept) (λ d s', d = data ∧ accessToken s'.2 = accessToken fresh))
    as (d & [w' t'] & Hr & -> & Ht) by eauto.
  apply runs_bind. eapply runs_weaken; [by eapply attempt_runs|]. intros [t r] s1 (Hs1 & Ht & [[-> Htok]|[(status & codes & Hauth & ->) Hne]]).
  - eexists _, _. split; [reflexivity|]. by rewrite Hs1.
  - rewrite (authRefusal_error _ _ Hauth).
    apply runs_bind. eapply runs_weaken; [by eapply invalidate_runs|]. intros [] s2 Hs2.
    assert (s2.2 ∈ [noToken; fresh]) as Hin2 by (apply Hs2; congruence).
    assert (accessToken s2.2 ≠ "" → blank (actorID s2.2) = false) as Hactor2.
    { apply elem_of_cons in Hin2 as [Hno|Hfr%list_elem_of_singleton]; [by rewrite Hno|]. rewrite Hfr. intros _. eapply server_actor, server. }
    apply runs_bind. eapply runs_weaken; [by eapply attempt_runs|]. intros [t2 r2] s3 (Hs3 & Ht2 & [[-> Htok]|[_ Hne2]]).
    + eexists _, _. split; [reflexivity|]. by rewrite Hs3.
    + apply elem_of_cons in Hin2 as [Hno|Hfr%list_elem_of_singleton]; [rewrite Hno in Ht2|rewrite Hfr in Ht2]; destruct Hne2, Ht2 as [Ht2|[Ht2 Hn]]; [done|by destruct Hn; rewrite Ht2|done|done].
Qed.
End tokens.

(** ** A change with a token of yesterday *)

#[local] Existing Instances toyCrypto toyCodec toySignal toyPairProto toyPairOps toyNoise toyHKDF toyCurve toyDerivation.

Definition askedNonce : node := mkNode "iq" [] (VNodes [mkNode "result" [("status", VString "Success")] VNil]).
Definition exchangedToken : node :=
  mkNode "iq" [] (VNodes [mkNode "access_token" [] (VBytes (s2b "today")); mkNode "business_person" [("id", VString "77")] VNil]).
Definition nonceNode : node := mkNode "notification" [] (VNodes [mkNode "wa_ad_account_nonce" [] (VBytes (s2b "once"))]).
Definition todaysToken : businessAccessToken := mkToken "today" "77".
Definition yesterdaysToken : businessAccessToken := mkToken "yesterday" "77".
Definition cartInput : list (string * json) := [("input", JObj [("is_enabled", JBool true)])].
(** Two bodies of answers. *)
#[local] Instance shopText : GoText := {|
  parseJSON b := if decide (b = [x01]) then Some (JObj [("data", JObj [])])
    else if decide (b = [x02]) then Some (JObj [("errors", JArr [JObj [("code", JNum "190"); ("message", JStr "expired")]])]) else None;
  firstJSON _ := None; printJSON _ := Some []; ParseFloat _ := true; DecodeBase64 _ := None;
  ParseRequestURI s := Some (mkURL "https" s s); ParseAddress s := Some s; LoadLocation _ := true; DetectContentType _ := "image/png"
|}.
#[local] Instance shopOutside : Outside := outsideAnswering (λ q, if decide (SMaxID q = "118") then Ok askedNonce else Ok exchangedToken).
#[local] Instance shopTime : JsonTime := {| UnixString _ := None; UnixMicroString _ := None; zeroTime := GNil |}.
#[local] Instance shopWebAuthn : WebAuthn := {| parsePublicKey _ := None; marshalResponse _ := None; RawID _ := [] |}.
#[local] Instance shopMex : MexJSON := {| mexFields _ := None |}.
#[local] Instance shopNotifications : NotificationOps :=
  {| fetchAppState _ _ := Fetched; keysAccepted _ := true; ServerABPropsSync := None; ErrorOnSubscribePresenceWithoutToken := false |}.
Definition accepts (req : graphRequest) : bool :=
  bool_decide (endpoint req = businessGraphQLEndpoint ∧ documentID req = businessUpdateCommerceDocumentID ∧ requestToken req = "today") &&
  match actorOf (variables req) with Some (JStr a) => bool_decide (a = "77") | _ => false end.
#[local] Instance shopServer : CatalogOps := {|
  graphQL _ req := if accepts req then Ok (200%Z, [x01]) else Ok (200%Z, [x02]);
  notified _ := [mkNode "notification" [] VNil; nonceNode];
  lockTaken _ := true;
  othersToken t token := if decide (t = 3)%nat then noToken else token;
  sessionIDs _ := ""
|}.
Definition shopWhole : whole := mkWhole (toyCli, toyPairing, mkPasskey None None false) None ∅ None 0 None true 0 true None.

Lemma accepts_accepted req : accepted businessUpdateCommerceDocumentID todaysToken req ↔ accepts req = true.
Proof.
  unfold accepted, accepts. rewrite andb_true_iff, bool_decide_eq_true. cbn [accessToken actorID todaysToken]. split.
  - intros (? & ? & ? & ->). split; [done|]. by apply bool_decide_eq_true.
  - intros [? Ha]. destruct (actorOf _) as [[]|]; try done. apply bool_decide_eq_true in Ha as ->. tauto.
Qed.

Lemma shop_server : tokenServer businessUpdateCommerceDocumentID todaysToken (JObj []) "once" askedNonce exchangedToken.
Proof.
  constructor.
  - done.
  - intros t token. cbn. case_decide; set_solver.
  - done.
  - vm_compute. reflexivity.
  - intros t. reflexivity.
  - intros t. eexists. split; [reflexivity|]. reflexivity.
  - vm_compute. reflexivity.
  - reflexivity.
  - intros t req. change (graphQL t req) with (if accepts req then Ok (E := mediaError) (200%Z, [x01]) else Ok (200%Z, [x02])). destruct (accepts req) eqn:Ha.
    + eexists _, _. split; [reflexivity|]. left. split; [by apply accepts_accepted|]. vm_compute. reflexivity.
    + eexists _, _. split; [reflexivity|]. right. split; [intros Hc%accepts_accepted; congruence|]. exists [190%Z]. split; [apply (TokenExpired 200 [] [])|]. vm_compute. reflexivity.
Qed.

Lemma expired_token_recovers_witness :
  (mutationAttempt businessUpdateCommerceDocumentID (JObj cartInput) (shopWhole, yesterdaysToken)).1 = Ok (yesterdaysToken, inl (BizGraphQL 200 [190%Z])) ∧
  ∃ w' t', executeBusinessCatalogMutation businessUpdateCommerceDocumentID (JObj cartInput) (shopWhole, yesterdaysToken) = (Ok (JObj []), (w', t')) ∧
    accessToken t' = "today".
Proof.
  split; [vm_compute; reflexivity|].
  destruct (expired_token_recovers businessUpdateCommerceDocumentID todaysToken (JObj []) "once" askedNonce exchangedToken cartInput
    [("is_enabled", JBool true)] shopWhole yesterdaysToken) as (w' & t' & Hr & Ht).
  - exact shop_server.
  - reflexivity.
  - intros _. vm_compute. reflexivity.
  - exists w', t'. split; [exact Hr|exact Ht].
Defined.
